(* ===== verification/_CoqProject ===== *)
-Q . S2P
Prelude.v
Text.v
Storage.v
WorkModel.v
WorkState.v
WorkCoordinator.v
TeamRun.v
WorkInvariant.v
WorkOps.v
WorkSystem.v
WorkDemo.v
WorkSafety.v
WorkLedger.v
WorkFunctional.v
WorkControl.v
WorkPublish.v
WorkRuns.v
WorkLeases.v
MemberRuntime.v
MemberRuntimeProps.v
PathSafety.v
PathSafetyProps.v
Pairing.v
PairingProps.v
Mailbox.v
TaskBoard.v
TaskBoardProps.v
EventLoop.v
EventLoopProps.v
ConvRuntime.v
ConvPolicy.v
AuthLimits.v
AuthTokens.v
ExtensionDeps.v
ExtensionOrder.v
ExtensionProps.v
ExtensionLoader.v
Realtime.v
RealtimeProps.v
Permissions.v
PermissionsProps.v
HistorySanitize.v
Roster.v
RosterProps.v
Session.v
SessionOps.v
SessionSafety.v
SessionLeases.v
SessionProps.v
SessionDemo.v
CronTypes.v
CronTimer.v
CronRuns.v
CronRunsProps.v
CronAgents.v
CronService.v
CronServiceProps.v
CronProps.v
CronUpdate.v
CronServiceEffects.v
Middleware.v
MiddlewareProps.v
Stream.v
StreamRelay.v
StreamLogic.v
StreamEnds.v
StreamSafety.v
StreamStore.v
TurnOrchestrator.v
TurnProps.v
TurnTold.v
StreamDemo.v
ConvPages.v
ConvPagesProps.v
ConvService.v
ConvServiceProps.v
ConvSend.v
ConvServiceDemo.v
StartupRecovery.v
StartupDemo.v
