(* ===== verification/Prelude.v ===== *)
(** * AionCore: a verification development of its core services

    AionCore is the backend of a desktop application that runs AI agents: a Rust workspace
    of crates [src/crates/aionui-*].  This library models the parts of it that keep state
    and decide things, as functions translated from the source, and proves what makes them
    correct.  Paths below are relative to [src/crates/].

    ** The parts and how they interact

    A _team_ is a group of agents that work on tasks and write messages to each other.
    Each agent has a _slot_; messages go to a _mailbox_ per slot, and work on them is
    granted in batches by a coordinator.  A _run_ is what one message of the user sets
    off.  A _conversation_ holds at most one turn of an agent at a time.  Around them are
    the checks at the border (authentication, paths, pairing with chat platforms,
    permissions of agents), the event channel to the clients, and the loading of
    extensions.  _Cron_ runs jobs at their times: an _occurrence_ is a job and the instant
    it was due, and several processes on one database agree by _leases_ who executes it.

    Prelude, for everything:
    - [Prelude]: the [result] of fallible code and the [option] of code that may panic,
      [for] loops with their rules, iteration orders of hash maps ([HashOrder]) and
      B-trees, machine integers, what a call takes from its environment ([CallEnv]).
    - [Text]: the string functions of Rust's standard library.
    - [Storage]: the interfaces to the database ([SqlOrder]) and to [serde_json]
      ([SerdeJson], [JsonValue]), and the monad [action] of methods that change a store and
      may fail half way.

    Teams ([aionui-team/src]):
    - [WorkModel], [WorkState], [WorkCoordinator]: [work_coordinator/*.rs] and
      [work_source.rs].  The state [CoordinatorState] is the struct behind the mutex; each
      method of [SlotWorkCoordinator] is a function of the same name.
    - [TeamRun]: [team_run/manager.rs], the instance of the coordinator's port
      [RunCausalityPort] (a class).
    - [WorkInvariant], [WorkOps]: the invariant and its preservation by each method;
      [WorkSystem]: arbitrary callers as a transition system; [WorkDemo]: executable traces
      for the concrete instances.
    - [WorkSafety]: invariant, no double claim, no double return, no panic, final states.
      [WorkLedger]: the coordinator refines an abstract ledger.  [WorkFunctional],
      [WorkControl]: what each method does.  [WorkPublish], [WorkRuns]: coordinator and run
      manager together, the manager being told after the mutex is released.  [WorkLeases]:
      what each method does to the enqueue leases.
    - [MemberRuntime], [MemberRuntimeProps]: [member_runtime.rs], the leases on attaching
      an agent's runtime; [tokio::sync::watch] is the interface [Watch].
    - [Mailbox]: [mailbox.rs] with its SQL ([aionui-db/src/repository/sqlite_team.rs]).
      [EventLoop], [EventLoopProps]: the loop of [event_loop.rs] with
      [TeamSession::prepare_next_batch]; it composes coordinator and mailbox.
    - [TaskBoard], [TaskBoardProps]: [task_board.rs] with its SQL.
    - [Roster], [RosterProps]: the scheduler ([scheduler/*.rs]) with mailbox and board; its
      state [TeammateManager] has the slots of the agents by identifier.
    - [Session], [SessionOps]: [session.rs], and the removal of an agent in [service.rs].
      The session owns coordinator, scheduler and registry; a method is a program ([prog])
      of atomic steps on them.  [SessionSafety]: the session as a pool of running methods
      whose steps are interleaved with those of the event loops; [SessionLeases]: enqueue
      leases are given back; [SessionProps]: postconditions that hold whatever happens
      between the steps; [SessionDemo]: concrete interleavings.

    Conversations ([aionui-conversation/src]):
    - [ConvRuntime] ([runtime_state.rs], [runtime_persistence.rs]) and [ConvPolicy] (the
      policies after a turn).
    - [Middleware], [MiddlewareProps]: [response_middleware.rs], the mark-up of a reply.
    - [Stream]: [stream_persistence.rs] and [runtime_completion.rs] on the tables of
      messages and conversations ([aionui-db/src/repository/sqlite_conversation.rs]).  Code
      that waits is a [task] on a [World]: the tables, what was asked of them, the frames
      and replies that were sent.  [StreamEnv] is what others do meanwhile: at each moment
      they may write rows and change the lifecycle, and a statement may fail.
    - [StreamRelay]: [stream_relay.rs], the loop that passes on what an agent says.  The
      channels are a list of looks at them ([Poll]).
    - [StreamLogic]: triples on tasks.  [StreamEnds]: when a relay ends and with what;
      [StreamSafety]: what it may do; [StreamStore]: the rows of a reply.
    - [TurnOrchestrator]: [turn_orchestrator.rs], [message_persistence.rs] and
      [acp_error_recovery.rs]: a [turn] runs relays, asks an agent ([TurnEnv]) and logs what
      it asked.  [TurnProps], [TurnTold]: what a turn comes to; [StreamDemo]: concrete turns.
    - [ConvPages]: [list_messages] and [get_message] of [service.rs], [message_cursor.rs],
      [convert.rs] and the statements behind them; [ConvPagesProps]: pages and scrolling.
    - [StartupRecovery]: [startup_recovery.rs], the messages an earlier server left unfinished;
      [StartupDemo]: three of them.
    - [ConvService]: sending, cancelling, deleting, resetting and confirmations of
      [service.rs], as programs of operations on the runtime state, the tables and the rest of
      the system.  [ConvServiceProps]: methods and turns that run at once, each with the claim
      it owns; [ConvSend]: what a send and a deletion come to; [ConvServiceDemo]: concrete runs.

    Agents ([aionui-ai-agent/src]): [Permissions], [PermissionsProps]
    ([manager/acp/permission_router.rs] and what it uses) and [HistorySanitize]
    ([manager/aionrs/history_sanitize.rs]).

    The border: [AuthLimits] and [AuthTokens] ([aionui-auth/src]), [PathSafety] and
    [PathSafetyProps] ([aionui-file/src/path_safety.rs], the checks of [service.rs]),
    [Pairing] and [PairingProps] ([aionui-channel/src/pairing.rs] with its SQL),
    [Realtime] and [RealtimeProps] ([aionui-realtime/src]).

    Cron ([aionui-cron/src]):
    - [CronTypes]: [types.rs], [error.rs] and the requests and answers of
      [aionui-api-types/src/cron.rs]; the JSON of the agent configuration is [CronJson].
    - [CronTimer]: [scheduler.rs].  A job has at most one handle; a handle is the [Timer]
      that its task waits for.  Cron expressions and time zones are [CronLib].
    - [CronRuns]: the jobs and the runs of the database
      ([aionui-db/src/repository/sqlite_cron.rs]); [CronRunsProps]: leases and occurrences
      under any interleaving of the operations of several processes.
    - [CronAgents]: which agent an assistant or a label stands for
      ([aionui-db/src/agent_binding.rs], the lookups of [service.rs]).
    - [CronService]: [service.rs].  The state [CronState] is the database, the handles, the
      calls made to other components and the events; what they answer is [CronEnv], which
      may be another one in every step.  [CronServiceProps]: what every step keeps;
      [CronUpdate], [CronServiceEffects]: what the operations do; [CronProps]: rows, next
      runs and the claim of a tick.

    Extensions ([aionui-extension/src]): [ExtensionDeps], [ExtensionOrder],
    [ExtensionProps] ([dependency.rs]) and [ExtensionLoader] ([loader.rs],
    [registry_helpers.rs]).

    ** How code is modelled

    A method is a function of the state before it, its arguments and what it takes from
    outside to its result and the state after it.  [Result] is [result]; an [expect], [unwrap]
    or [unreachable!] that may be reached is an [option], and there is a theorem that it is
    not.  A method that holds a mutex all along is one step; where the code lets go of it in
    between and the difference shows, the method is two steps: approving and rejecting a
    pairing, receiving and publishing a permission request, the turns of the event loop; a
    method of the team session, which holds no lock of its own, is as many steps as it makes
    calls.  The coordinator tells the run manager of its runs after it has released its
    mutex: in [WorkPublish] and [WorkRuns] each note is a step of its own, which others may
    overtake; the model of the session lets the call and its notes be one step.

    [u64] and [i64] are [Z] with saturation, wrap-around and checked arithmetic written
    out; [usize] counters are lengths.  Strings are their bytes.  Clocks, fresh
    identifiers and random bytes are arguments.  A hash map iterates in any order: what is
    proved holds for all of them ([HashOrder], [ConnOrder]).

    Code outside the repository is a parameter with what is relied on as its laws:
    [ORDER BY], [serde_json], watch channels, [semver], [canonicalize].  Each interface has
    an instance here, which the concrete examples run on.

    Fuel: Kahn's loop gets one unit more than there are extensions and emits one per turn; the
    depth-first search gets the number of extensions and goes deeper at most once per
    extension; a turn gets two attempts of five messages each, and [turn_returns] shows that
    it asks for no more; a relay ends with the looks at its channels; [chunks] gets the length
    of the list; printing in decimal gets ten digits, as a [u32] has; the drain loop takes an
    answer per turn and is shown to end within as many turns as there are unread messages and
    queued signals.  Those of the extensions and of [chunks] are enough for every input by the
    theorems of [ExtensionOrder] and [Mailbox].

    ** What is shown

    - Nothing is lost or done twice: an intent is queued once or in one batch
      ([reachable_invariant], [no_double_claim], [batch_given_back_once],
      [coordinator_refines_ledger]); a mailbox is drained once if its messages can be marked
      ([drain_empties_mailbox]); a permission request is answered once or pending
      ([permission_requests_settled]); every waiter of a lease is told ([waiters_resolved]); a
      conversation has one turn ([turn_claims_exclusive]), whose claim is given back
      ([conversations_are_freed]), whose text is stored as it was said ([reply_is_stored]) and
      whose failure is told ([failed_turn_is_told]), and which is tried again only when the
      first attempt said nothing ([replay_after_silence], [safe_attempt_said_nothing]); an
      occurrence of a job has one executor and one outcome ([lease_excludes_others],
      [tick_claim_exclusive], [finished_occurrence_is_final]) and is taken up again when its
      process is gone ([unfinished_runs_recovered], [init_schedules_every_job]); a message
      that was sent is work of its recipient ([sent_message_becomes_work]); the pages of a
      history leave no message out ([page_is_window], [scroll_covers_history]); messages left
      unfinished are closed when the server starts ([recovery_closes_stale_messages]).
    - Nothing stops: no panic, whatever methods of a session run at once
      ([session_never_panics], [reachable_no_panic]), loops end, a run without work is
      closed unless its end is overtaken ([active_run_has_work]), a turn returns with its
      agent and gives its claim back ([turn_returns], [relay_returns]), and no lease keeps one open
      ([enqueue_leases_are_due]); the lead is woken when all are done
      ([leader_woken_iff], [turn_end_reported]).
    - Nothing gets in: [checked_paths_inside], [authorized_by_live_code],
      [selections_are_justified], [relay_respects_lifecycle], [deletion_outcome],
      [csrf_double_submit], [fixed_window_bound],
      [qr_token_single_use].
    - What each operation does, errors included: [send_message_outcome], the theorems named
      [.._spec] and those of [WorkFunctional], [WorkControl], [CronUpdate] and
      [CronServiceEffects]; round trips of mailbox, cookies, jobs and retried batches;
      [heartbeat_verdicts] against a decision per connection, [relay_outcome_as_heard] against
      what was heard, [process_reads_markup] against the grammar of a reply.
    - Where the code departs from its documentation or from what it means to do, a lemma
      or example shows it: [self_message_strands_run], [overtaken_summary_reopens_run],
      [unmarked_message_given_again], [tool_call_stays_at_work], [late_cancel_blocks_user_message],
      [later_dependency_never_unblocks], [approval_overwrites_rejection],
      [used_code_fails_request], [zip_sources_unchecked], [write_follows_link],
      [rename_root_leaves_sandbox], [dependent_loaded_before_dependency],
      [password_length_in_bytes], [closing_does_not_stop_routing],
      [dropped_without_close], [half_answered_is_dropped], [update_job_loses_max_retries],
      [execution_restores_old_schedule], [update_job_keeps_old_title],
      [every_overflow_is_due_at_once], [takeover_ignores_queue],
      [conversation_deleted_keeps_jobs], [late_commit_strands_run],
      [dropped_send_leaks_lease], [removed_agent_keeps_its_work],
      [failed_removal_never_ends], [unregistered_loop_leaves_message],
      [concurrent_spawns_share_name], [failed_turn_ends_idle],
      [stale_removal_reopens_window], [failed_action_leaves_agent_working],
      [continuation_after_cancel], [lag_forgets_send_failure], [failed_flush_loses_the_run],
      [reused_call_id_rewrites_other_row], [nested_thought_leaks],
      [turn_starts_during_deletion], [dropped_deletion_blocks_conversation].

    ** Not modelled

    In modelled parts: logging and metrics; queries that fail in [sqlx] (but for the
    constraints of the tables); prompts of the event loop; in the team session the copies of
    messages shown in conversations and the service around it, which creates and deletes
    teams; the fields of agent protocol messages that are only copied; in cron
    the executor's turns, the artifacts, and creating a job from the settings of a
    conversation; in a turn the JSON of the frames, the columns of the conversation that are
    read before they are written, and the task that sends to the agent, of which the relay
    hears the end.

    Not at all: of the conversation service, creating, updating and listing conversations,
    artifacts and the options of agents; the team MCP server and the life cycle of extensions,
    which pass calls on to the parts modelled here; the user store; the connections to agents,
    chat platforms, office programs and the file system are I/O; [aionui-api-types] and
    [aionui-db] are data types and SQL, modelled where a component uses them; assistants,
    assets, settings and routes are storage and wiring. *)
From stdpp Require Export base tactics list gmap fin_maps strings sorting pretty.
From Stdlib Require Export ZArith Lia.

#[export] Set Default Goal Selector "!".

Declare Scope aion_scope.
Delimit Scope aion_scope with aion.
#[global] Open Scope aion_scope.

(** ** Fallible code

    Rust's [Result<A, E>].  A panic ([expect], [unreachable!]) is not an [Err]:
    it is the [None] of an [option] around the whole call. *)

Inductive result (A E : Type) : Type :=
  | Ok (a : A)
  | Err (e : E).
Arguments Ok {A E} a.
Arguments Err {A E} e.

#[global] Instance result_eq_dec {A E} `{EqDecision A, EqDecision E} :
  EqDecision (result A E).
Proof. solve_decision. Defined.

Definition is_ok {A E} (r : result A E) : bool :=
  match r with Ok _ => true | Err _ => false end.

Definition result_bind {A B E} (r : result A E) (k : A → result B E) : result B E :=
  match r with Ok a => k a | Err e => Err e end.

Notation "x '←?' r ; k" := (result_bind r (λ x, k))
  (at level 20, r at level 100, k at level 200, right associativity) : aion_scope.

Definition ok_or {A E} (o : option A) (e : E) : result A E :=
  match o with Some a => Ok a | None => Err e end.

(** ** Setters

    The setter of a field, computed from the eta expansion of its record. *)
Ltac mk_setter eta proj :=
  exact (λ v x, ltac:(let e := eval unfold eta in (eta x) in
                      lazymatch e with
                      | context C [proj x] => let s := context C [v] in exact s
                      end)).

(** ** [for] loops

    A loop over a [Vec] whose body may panic. *)

Fixpoint for_each {S A} (f : S → A → option S) (s : S) (l : list A) : option S :=
  match l with
  | [] => Some s
  | x :: l => s' ← f s x; for_each f s' l
  end.

(** The rule for loops: an invariant indexed by what is left of the list. *)
Lemma for_each_inv {S A} (f : S → A → option S) (P : list A → S → Prop) l s :
  (∀ x l' s0, P (x :: l') s0 → ∃ s1, f s0 x = Some s1 ∧ P l' s1) →
  P l s → ∃ s', for_each f s l = Some s' ∧ P [] s'.
Proof.
  intros Hstep. revert s. induction l as [|x l IH]; intros s Hs; simpl; [eauto|].
  destruct (Hstep _ _ _ Hs) as (s1 & -> & Hs1). simpl. auto.
Qed.

(** The rule for a loop that is known to have ended. *)
Lemma for_each_ind {S A} (f : S → A → option S) (P : S → Prop) l s s' :
  (∀ x s0 s1, f s0 x = Some s1 → P s0 → P s1) →
  for_each f s l = Some s' → P s → P s'.
Proof.
  intros Hstep. revert s. induction l as [|x l IH]; intros s; simpl; [by intros [= <-]|].
  destruct (f s x) as [s1|] eqn:Hs; [|done]. simpl. eauto.
Qed.

Lemma foldl_inv {S A} (f : S → A → S) (P : list A → S → Prop) l s :
  (∀ x l' s0, P (x :: l') s0 → P l' (f s0 x)) →
  P l s → P [] (foldl f s l).
Proof.
  intros Hstep. revert s. induction l as [|x l IH]; intros s Hs; simpl; auto.
Qed.

(** [Iterator::find_map] *)
Fixpoint find_map {A B} (f : A → option B) (l : list A) : option B :=
  match l with
  | [] => None
  | x :: l => match f x with Some y => Some y | None => find_map f l end
  end.

(** ** Iteration orders

    [BTreeMap] and [BTreeSet] iterate in key order.  A [HashMap] iterates in an
    unspecified order, which may differ from one call to the next: code that
    iterates over one is parametrised by a [HashOrder], and what is proved of it
    holds for every order. *)

Class HashOrder := {
  hash_iter : ∀ {V : Type}, gmap string V → list (string * V);
  hash_iter_perm : ∀ {V : Type} (m : gmap string V), hash_iter m ≡ₚ map_to_list m;
}.

(** Two orders, for the concrete instances *)
Definition plain_order : HashOrder :=
  {| hash_iter _ m := map_to_list m; hash_iter_perm _ m := reflexivity _ |}.

(** The last entry first: another order a [HashMap] may iterate in. *)
Definition reverse_order : HashOrder :=
  {| hash_iter _ m := reverse (map_to_list m); hash_iter_perm _ m := reverse_Permutation _ |}.

Definition hash_values `{HashOrder} {V} (m : gmap string V) : list V := (hash_iter m).*2.

Definition btree_iter {V} (m : gmap string V) : list (string * V) :=
  merge_sort (λ x y, String.le x.1 y.1) (map_to_list m).

Definition btree_keys {V} (m : gmap string V) : list string := (btree_iter m).*1.

(** [l.into_iter().collect::<BTreeSet<_>>()], as the sorted list of its elements. *)
Definition btree_set (l : list string) : list string :=
  merge_sort String.le (elements (list_to_set l : gset string)).

(** [l.into_iter().collect::<HashSet<_>>().len()]. *)
Definition hash_set_len (l : list string) : nat := size (list_to_set l : gset string).

(** ** What a call takes from its environment

    [gen_id n] is the [n]-th identifier the call obtains from [generate_id] (a
    UUID v7), [now_ms] the instant at which it reads the clock: the readings of
    one call are taken to be equal. *)

Class CallEnv := {
  call_order :: HashOrder;
  gen_id : nat → string;
  now_ms : Z;
}.

(** ** Machine integers *)

Definition u64_max : Z := 2 ^ 64 - 1.
Definition i64_min : Z := - 2 ^ 63.
Definition i64_max : Z := 2 ^ 63 - 1.

Definition saturating_add_u64 (a b : Z) : Z := Z.min u64_max (a + b).
Definition clamp_i64 (z : Z) : Z := Z.max i64_min (Z.min i64_max z).
Definition saturating_sub_i64 (a b : Z) : Z := clamp_i64 (a - b).
Definition in_i64 (z : Z) : bool := (i64_min <=? z)%Z && (z <=? i64_max)%Z.
Definition checked_add_i64 (a b : Z) : option Z :=
  if in_i64 (a + b) then Some (a + b)%Z else None.
Definition checked_mul_i64 (a b : Z) : option Z :=
  if in_i64 (a * b) then Some (a * b)%Z else None.

(** ** Facts on the iteration orders *)

Section orders.
Context {V : Type}.
Implicit Types m : gmap string V.

Lemma elem_of_hash_iter `{HashOrder} m k v : (k, v) ∈ hash_iter m ↔ m !! k = Some v.
Proof. by rewrite (hash_iter_perm m), elem_of_map_to_list. Qed.

Lemma NoDup_hash_keys `{HashOrder} m : NoDup (hash_iter m).*1.
Proof. rewrite (hash_iter_perm m). apply NoDup_fst_map_to_list. Qed.

Lemma elem_of_hash_values `{HashOrder} m v : v ∈ hash_values m ↔ ∃ k, m !! k = Some v.
Proof.
  unfold hash_values. rewrite list_elem_of_fmap. split.
  - intros ([k v'] & -> & Hin%elem_of_hash_iter). eauto.
  - intros (k & Hk). exists (k, v). by rewrite elem_of_hash_iter.
Qed.

Lemma hash_values_perm (H1 H2 : HashOrder) m : @hash_values H1 V m ≡ₚ @hash_values H2 V m.
Proof. unfold hash_values. by rewrite (@hash_iter_perm H1), (@hash_iter_perm H2). Qed.

Lemma btree_iter_perm m : btree_iter m ≡ₚ map_to_list m.
Proof. apply merge_sort_Permutation. Qed.

Lemma elem_of_btree_iter m k v : (k, v) ∈ btree_iter m ↔ m !! k = Some v.
Proof. by rewrite btree_iter_perm, elem_of_map_to_list. Qed.

Lemma NoDup_btree_keys m : NoDup (btree_keys m).
Proof. unfold btree_keys. rewrite btree_iter_perm. apply NoDup_fst_map_to_list. Qed.

Lemma elem_of_btree_keys m k : k ∈ btree_keys m ↔ is_Some (m !! k).
Proof.
  unfold btree_keys. rewrite list_elem_of_fmap. split.
  - intros ([k' v] & -> & Hin%elem_of_btree_iter). simpl. eauto.
  - intros [v Hv]. exists (k, v). by rewrite elem_of_btree_iter.
Qed.
End orders.

Lemma elem_of_btree_set l k : k ∈ btree_set l ↔ k ∈ l.
Proof.
  unfold btree_set. by rewrite merge_sort_Permutation, elem_of_elements, elem_of_list_to_set.
Qed.

Lemma NoDup_btree_set l : NoDup (btree_set l).
Proof. unfold btree_set. rewrite merge_sort_Permutation. apply NoDup_elements. Qed.

(** A [BTreeSet] depends on the elements only: not on their order, nor on duplicates. *)
Lemma btree_set_ext l1 l2 : (∀ k, k ∈ l1 ↔ k ∈ l2) → btree_set l1 = btree_set l2.
Proof.
  intros Hl. unfold btree_set. do 2 f_equal. apply set_eq. intros k.
  by rewrite !elem_of_list_to_set.
Qed.

Lemma hash_set_len_ext l1 l2 : (∀ k, k ∈ l1 ↔ k ∈ l2) → hash_set_len l1 = hash_set_len l2.
Proof.
  intros Hl. unfold hash_set_len. f_equal. apply set_eq. intros k.
  by rewrite !elem_of_list_to_set.
Qed.

#[global] Instance btree_set_proper : Proper ((≡ₚ) ==> (=)) btree_set.
Proof. intros l1 l2 Hl. apply btree_set_ext. intros k. by rewrite Hl. Qed.

#[global] Instance hash_set_len_proper : Proper ((≡ₚ) ==> (=)) hash_set_len.
Proof. intros l1 l2 Hl. apply hash_set_len_ext. intros k. by rewrite Hl. Qed.

Lemma lookup_delete_all `{Countable K} {V} (m : gmap K V) ids k :
  foldl (λ m id, delete id m) m ids !! k = if decide (k ∈ ids) then None else m !! k.
Proof.
  revert m. induction ids as [|id ids IH]; intros m; cbn [foldl].
  { case_decide; [set_solver|done]. }
  rewrite IH, lookup_delete. repeat case_decide; set_solver.
Qed.

(** ** Facts on lists *)

Lemma list_filter_iff_in {A} (Q1 Q2 : A → Prop) `{∀ x, Decision (Q1 x), ∀ x, Decision (Q2 x)}
    (l : list A) :
  (∀ x, x ∈ l → Q1 x ↔ Q2 x) → filter Q1 l = filter Q2 l.
Proof.
  intros Hl. induction l as [|x l IH]; [done|]. rewrite !filter_cons, IH by set_solver.
  specialize (Hl x ltac:(set_solver)). repeat case_decide; naive_solver.
Qed.

Lemma list_filter_true {A} (Q : A → Prop) `{∀ x, Decision (Q x)} (l : list A) :
  (∀ x, x ∈ l → Q x) → filter Q l = l.
Proof.
  intros Hl. induction l as [|x l IH]; [done|].
  rewrite filter_cons, decide_True, IH by set_solver. done.
Qed.

Lemma list_filter_none {A} (Q : A → Prop) `{∀ x, Decision (Q x)} (l : list A) :
  (∀ x, x ∈ l → ¬ Q x) → filter Q l = [].
Proof.
  intros Hl. induction l as [|x l IH]; [done|].
  rewrite filter_cons, decide_False, IH by set_solver. done.
Qed.

(** ** Strings *)

Definition newline : string := String (Ascii.ascii_of_nat 10) EmptyString.

(** [u8::to_ascii_lowercase], on the bytes of a string *)
Definition ascii_lower (a : Ascii.ascii) : Ascii.ascii :=
  let n := Ascii.nat_of_ascii a in
  if (65 <=? n) && (n <=? 90) then Ascii.ascii_of_nat (n + 32) else a.

Fixpoint to_ascii_lowercase (s : string) : string :=
  match s with
  | EmptyString => EmptyString
  | String a s => String (ascii_lower a) (to_ascii_lowercase s)
  end.

(** [haystack.contains(needle)] *)
Fixpoint contains (needle haystack : string) : bool :=
  String.prefix needle haystack ||
  match haystack with EmptyString => false | String _ haystack => contains needle haystack end.

(** [+:+] does not compute under [simpl]; these are its equations. *)
Lemma string_app_cons a s t : String a s +:+ t = String a (s +:+ t).
Proof. done. Qed.

Lemma string_app_nil t : EmptyString +:+ t = t.
Proof. done. Qed.

Lemma string_app_nil_r s : s +:+ EmptyString = s.
Proof. induction s as [|a s IH]; [done|]. by rewrite string_app_cons, IH. Qed.

Lemma string_app_assoc s t u : (s +:+ t) +:+ u = s +:+ (t +:+ u).
Proof. induction s as [|a s IH]; [done|]. by rewrite !string_app_cons, IH. Qed.
