(* ===== verification/Text.v ===== *)
(** * Strings, as the standard library of Rust has them

    Strings are their UTF-8 bytes.  [trim] is meant for values that are ASCII; [is_blank]
    knows the white space of Unicode. *)
From Stdlib Require Import Ascii String.
From S2P Require Import Prelude.

(** ** Functions *)

(** [char::is_whitespace] on ASCII *)
Definition is_whitespace (a : ascii) : bool :=
  let n := nat_of_ascii a in ((9 <=? n) && (n <=? 13)) || (n =? 32).

Fixpoint trim_start (s : string) : string :=
  match s with
  | String a s' => if is_whitespace a then trim_start s' else s
  | EmptyString => EmptyString
  end.

(** [str::trim_end] *)
Fixpoint trim_end (s : string) : string :=
  match s with
  | EmptyString => EmptyString
  | String a s => match trim_end s with
                  | EmptyString => if is_whitespace a then EmptyString else String a EmptyString
                  | s' => String a s'
                  end
  end.

Definition trim (s : string) : string := trim_end (trim_start s).

(** [s.split_once(c)] *)
Fixpoint split_once (c : ascii) (s : string) : option (string * string) :=
  match s with
  | EmptyString => None
  | String a s => if bool_decide (a = c) then Some (EmptyString, s)
                  else '(x, y) ← split_once c s; Some (String a x, y)
  end.

(** [s.split(c)]: never empty *)
Fixpoint split (c : ascii) (s : string) : list string :=
  match s with
  | EmptyString => [EmptyString]
  | String a s => if bool_decide (a = c) then EmptyString :: split c s
                  else match split c s with
                       | x :: l => String a x :: l
                       | [] => [String a EmptyString]
                       end
  end.

Fixpoint strip_prefix (prefix s : string) : option string :=
  match prefix, s with
  | EmptyString, _ => Some s
  | String a prefix, String b s => if bool_decide (a = b) then strip_prefix prefix s else None
  | String _ _, EmptyString => None
  end.

(** [s.split_once(pat)] for a string [pat] *)
Fixpoint split_once_str (pat s : string) : option (string * string) :=
  match strip_prefix pat s with
  | Some rest => Some (EmptyString, rest)
  | None =>
      match s with
      | EmptyString => None
      | String a s => '(x, y) ← split_once_str pat s; Some (String a x, y)
      end
  end.

(** [if s.is_empty() { None } else { Some(s) }] *)
Definition non_empty (s : string) : option string :=
  match s with EmptyString => None | _ => Some s end.

(** [s.trim().is_empty()]: every character is white space.  Outside ASCII the white space
    of Unicode is U+0085, U+00A0, U+1680, U+2000 to U+200A, U+2028, U+2029, U+202F,
    U+205F and U+3000, here by their bytes. *)
Fixpoint is_blank (s : string) : bool :=
  match s with
  | EmptyString => true
  | String a s1 =>
      if is_whitespace a then is_blank s1 else
      match s1 with
      | EmptyString => false
      | String b s2 =>
          let x := nat_of_ascii a in
          let y := nat_of_ascii b in
          if (x =? 194) then ((y =? 133) || (y =? 160)) && is_blank s2 else
          match s2 with
          | EmptyString => false
          | String c s3 =>
              let z := nat_of_ascii c in
              (((x =? 225) && (y =? 154) && (z =? 128)) ||
               ((x =? 226) && (y =? 128) &&
                (((128 <=? z) && (z <=? 138)) || (z =? 168) || (z =? 169) || (z =? 175))) ||
               ((x =? 226) && (y =? 129) && (z =? 159)) ||
               ((x =? 227) && (y =? 128) && (z =? 128))) && is_blank s3
          end
      end
  end.

(** ** White space of Unicode, on UTF-8 bytes

    The bytes of the white space character a string begins with, 0 when it does not begin
    with one: the characters are those of [is_blank]. *)
Definition white_width (s : string) : nat :=
  match s with
  | EmptyString => 0
  | String a s1 =>
      if is_whitespace a then 1 else
      match s1 with
      | EmptyString => 0
      | String b s2 =>
          let x := nat_of_ascii a in
          let y := nat_of_ascii b in
          if x =? 194 then (if (y =? 133) || (y =? 160) then 2 else 0) else
          match s2 with
          | EmptyString => 0
          | String c _ =>
              let z := nat_of_ascii c in
              if ((x =? 225) && (y =? 154) && (z =? 128)) ||
                 ((x =? 226) && (y =? 128) &&
                  (((128 <=? z) && (z <=? 138)) || (z =? 168) || (z =? 169) || (z =? 175))) ||
                 ((x =? 226) && (y =? 129) && (z =? 159)) ||
                 ((x =? 227) && (y =? 128) && (z =? 128))
              then 3 else 0
          end
      end
  end.

(** [str::trim_start]; [skip] bytes are left of the character being dropped. *)
Fixpoint utrim_start (skip : nat) (s : string) : string :=
  match s with
  | EmptyString => EmptyString
  | String _ s' =>
      match skip, white_width s with
      | S k, _ => utrim_start k s'
      | 0, S k => utrim_start k s'
      | 0, 0 => s
      end
  end.

(** [str::trim_end] *)
Fixpoint utrim_end (s : string) : string :=
  match s with
  | EmptyString => EmptyString
  | String a s' => if is_blank s then EmptyString else String a (utrim_end s')
  end.

(** [str::trim] *)
Definition utrim (s : string) : string := utrim_end (utrim_start 0 s).

(** [s.split_whitespace().count()]; [word] says that the text before [s] is in a word. *)
Fixpoint count_words (skip : nat) (word : bool) (s : string) : nat :=
  match s with
  | EmptyString => 0
  | String _ s' =>
      match skip, white_width s with
      | S k, _ => count_words k word s'
      | 0, S k => count_words k false s'
      | 0, 0 => (if word then 0 else 1) + count_words 0 true s'
      end
  end.

(** ** Decimal numbers of type [i64]

    [str::parse::<i64>]: an optional sign, then digits; a digit is looked at before the
    overflow of the number read so far. *)
Inductive IntErrorKind := IntEmpty | InvalidDigit | PosOverflow | NegOverflow.

Definition digit_of (a : ascii) : option Z :=
  let n := nat_of_ascii a in
  if (48 <=? n) && (n <=? 57) then Some (Z.of_nat n - 48)%Z else None.

Fixpoint parse_digits (neg : bool) (acc : Z) (s : string) : result Z IntErrorKind :=
  match s with
  | EmptyString => Ok acc
  | String a s =>
      match digit_of a with
      | None => Err InvalidDigit
      | Some d =>
          let overflow := if neg then NegOverflow else PosOverflow in
          match checked_mul_i64 acc 10 ≫= λ m, checked_add_i64 m (if neg then - d else d)%Z with
          | None => Err overflow
          | Some acc => parse_digits neg acc s
          end
      end
  end.

Definition parse_i64 (s : string) : result Z IntErrorKind :=
  match s with
  | EmptyString => Err IntEmpty
  | String a EmptyString =>
      if bool_decide (a = "+"%char ∨ a = "-"%char) then Err InvalidDigit else parse_digits false 0 s
  | String a s' =>
      if bool_decide (a = "-"%char) then parse_digits true 0 s'
      else if bool_decide (a = "+"%char) then parse_digits false 0 s'
      else parse_digits false 0 s
  end.

(** [Display] of a [ParseIntError] *)
Definition int_error_to_string (e : IntErrorKind) : string :=
  match e with
  | IntEmpty => "cannot parse integer from empty string"
  | InvalidDigit => "invalid digit found in string"
  | PosOverflow => "number too large to fit in target type"
  | NegOverflow => "number too small to fit in target type"
  end.

(** ** Facts *)

Fixpoint no_char (c : ascii) (s : string) : bool :=
  match s with EmptyString => true | String a s => bool_decide (a ≠ c) && no_char c s end.

Fixpoint no_space (s : string) : bool :=
  match s with EmptyString => true | String a s => negb (is_whitespace a) && no_space s end.

Lemma split_no_char c s : no_char c s = true → split c s = [s].
Proof.
  induction s as [|a s IH]; [done|]. cbn. intros [Ha%bool_decide_eq_true Hs]%andb_true_iff.
  by rewrite bool_decide_false, IH.
Qed.

Lemma split_here c t : split c (String c t) = EmptyString :: split c t.
Proof. cbn. by rewrite bool_decide_true. Qed.

Lemma split_cons c a s x l :
  a ≠ c → split c s = x :: l → split c (String a s) = String a x :: l.
Proof. intros Ha Hs. cbn. by rewrite bool_decide_false, Hs. Qed.

Lemma split_app c s t : no_char c s = true → split c (s +:+ String c t) = s :: split c t.
Proof.
  induction s as [|a s IH]; [intros _; apply split_here|]. cbn [no_char].
  intros [Ha%bool_decide_eq_true Hs]%andb_true_iff.
  apply (split_cons c a (s +:+ String c t)); auto.
Qed.

Lemma trim_end_no_space s : no_space s = true → trim_end s = s.
Proof.
  induction s as [|a s IH]; [done|]. cbn.
  intros [Ha%negb_true_iff Hs]%andb_true_iff. rewrite IH by done. by destruct s; rewrite ?Ha.
Qed.

Lemma trim_no_space s : no_space s = true → trim s = s.
Proof.
  intros Hs. unfold trim. rewrite trim_end_no_space.
  - destruct s as [|a s]; [done|]. cbn in *. by apply andb_true_iff in Hs as [->%negb_true_iff _].
  - destruct s as [|a s]; [done|]. cbn in *. pose proof Hs as [->%negb_true_iff _]%andb_true_iff.
    done.
Qed.

Lemma no_space_app s t : no_space (s +:+ t) = no_space s && no_space t.
Proof.
  induction s as [|a s IH]; [done|]. rewrite string_app_cons. cbn. by rewrite IH, andb_assoc.
Qed.

Lemma no_char_app c s t : no_char c (s +:+ t) = no_char c s && no_char c t.
Proof.
  induction s as [|a s IH]; [done|]. rewrite string_app_cons. cbn. by rewrite IH, andb_assoc.
Qed.

Lemma split_once_app c s t : no_char c s = true → split_once c (s +:+ String c t) = Some (s, t).
Proof.
  induction s as [|a s IH]; [intros _; rewrite string_app_nil|rewrite string_app_cons];
    cbn [split_once no_char].
  - by rewrite bool_decide_true.
  - intros [Ha%bool_decide_eq_true Hs]%andb_true_iff. by rewrite bool_decide_false, IH.
Qed.

Fixpoint string_forall (f : ascii → bool) (s : string) : bool :=
  match s with EmptyString => true | String a s => f a && string_forall f s end.

Lemma string_forall_app f s t : string_forall f (s +:+ t) = string_forall f s && string_forall f t.
Proof.
  induction s as [|a s IH]; [done|]. rewrite string_app_cons. cbn [string_forall].
  by rewrite IH, andb_assoc.
Qed.

Lemma string_length_app s t : String.length (s +:+ t) = String.length s + String.length t.
Proof. induction s as [|a s IH]; [done|]. rewrite string_app_cons. simpl. by rewrite IH. Qed.

Lemma split_not_nil c s : split c s ≠ [].
Proof. destruct s as [|a s]; [done|]. cbn. case_bool_decide; [done|]. by destruct (split c s). Qed.

Lemma split_app_sep c s t : split c (s +:+ String c t) = split c s ++ split c t.
Proof.
  induction s as [|a s IH]; [by apply split_here|]. rewrite string_app_cons. cbn.
  case_bool_decide; [by rewrite IH|]. rewrite IH. pose proof (split_not_nil c s).
  by destruct (split c s).
Qed.

(** The last part goes on. *)
Lemma split_app_no_char c s t :
  no_char c t = true →
  ∃ l x, split c s = l ++ [x] ∧ split c (s +:+ t) = l ++ [x +:+ t].
Proof.
  intros Ht. induction s as [|a s IH].
  - exists [], EmptyString. rewrite string_app_nil. split; [done|]. by apply split_no_char.
  - destruct IH as (l & x & Hl & Hlt). rewrite string_app_cons. cbn. rewrite Hl, Hlt.
    case_bool_decide as Ha; [by exists (EmptyString :: l), x|].
    destruct l as [|y l]; [by exists [], (String a x)|by exists (String a y :: l), x].
Qed.

Lemma split_parts c s x : x ∈ split c s → no_char c x = true.
Proof.
  revert x. induction s as [|a s IH]; intros x; cbn; [by intros ->%list_elem_of_singleton|].
  case_bool_decide as Ha.
  - intros [->|Hx]%elem_of_cons; [done|by apply IH].
  - destruct (split c s) as [|y l] eqn:Hs.
    + intros ->%list_elem_of_singleton. cbn. by rewrite bool_decide_true.
    + intros [->|Hx]%elem_of_cons; [|apply IH; set_solver]. cbn. rewrite bool_decide_true by done.
      apply IH. set_solver.
Qed.

Lemma strip_prefix_app p s : strip_prefix p (p +:+ s) = Some s.
Proof.
  induction p as [|a p IH]; [done|]. rewrite string_app_cons. cbn. by rewrite bool_decide_true.
Qed.

Lemma strip_prefix_Some p s t : strip_prefix p s = Some t → s = p +:+ t.
Proof.
  revert s. induction p as [|a p IH]; intros s; [by intros [= <-]|].
  destruct s as [|b s]; [done|]. cbn. case_bool_decide; [|done]. subst.
  intros Hs%IH. by rewrite string_app_cons, <- Hs.
Qed.

(** The text before the first occurrence of the pattern *)
Lemma split_once_str_Some pat s x y : split_once_str pat s = Some (x, y) → s = x +:+ pat +:+ y.
Proof.
  revert x. induction s as [|a s IH]; intros x; cbn [split_once_str];
    (destruct (strip_prefix pat _) as [rest|] eqn:Hp; [|try done]).
  - intros [= <- <-]. by apply strip_prefix_Some in Hp.
  - intros [= <- <-]. by apply strip_prefix_Some in Hp.
  - destruct (split_once_str pat s) as [[x' y']|]; [|done]. cbn. intros [= <- ->].
    by rewrite string_app_cons, <- (IH x').
Qed.

(** A pattern that starts with a character the text before it does not have *)
Lemma split_once_str_app pat c pat' s t :
  pat = String c pat' → no_char c s = true → split_once_str pat (s +:+ pat +:+ t) = Some (s, t).
Proof.
  intros Hpat. induction s as [|a s IH].
  - intros _. rewrite string_app_nil. pose proof (strip_prefix_app pat t) as Ht.
    destruct (pat +:+ t); cbn [split_once_str]; by rewrite Ht.
  - cbn [no_char]. intros [Ha%bool_decide_eq_true Hs]%andb_true_iff. rewrite string_app_cons.
    cbn [split_once_str]. rewrite (IH Hs). subst pat. cbn [strip_prefix].
    by rewrite bool_decide_false by congruence.
Qed.

(** ** Printing a number and parsing it *)

Lemma digit_of_pretty (d : N) : (d < 10)%N → digit_of (pretty_N_char d) = Some (Z.of_N d).
Proof.
  intros Hd. assert (∃ n : nat, d = N.of_nat n ∧ n < 10) as (n & -> & Hn).
  { exists (N.to_nat d). split; lia. }
  do 10 (destruct n as [|n]; [reflexivity|]). lia.
Qed.

Definition signed (neg : bool) (x : N) : Z := if neg then (- Z.of_N x)%Z else Z.of_N x.

Lemma in_i64_spec z : in_i64 z = true ↔ (i64_min ≤ z ≤ i64_max)%Z.
Proof. unfold in_i64. by rewrite andb_true_iff, !Z.leb_le. Qed.

Lemma parse_digits_pretty neg x s :
  in_i64 (signed neg x) = true →
  parse_digits neg 0 (pretty_N_go x s) = parse_digits neg (signed neg x) s.
Proof.
  revert s. induction (N.lt_wf_0 x) as [x _ IH]. intros s Hx.
  destruct (decide (x = 0%N)) as [->|Hx0]; [by destruct neg|].
  rewrite pretty_N_go_step by lia.
  pose proof (N.div_mod x 10 ltac:(done)) as Hdm.
  pose proof (N.mod_lt x 10 ltac:(done)) as Hmod.
  assert (in_i64 (signed neg (x / 10)) = true ∧
          in_i64 (signed neg (x / 10) * 10) = true) as [H1 H2].
  { rewrite in_i64_spec in Hx |- *. rewrite in_i64_spec.
    unfold signed, i64_min, i64_max in *.
    clear IH. generalize dependent (x / 10)%N. generalize dependent (x `mod` 10)%N. intros.
    destruct neg; lia. }
  rewrite IH by (auto using N.div_lt with lia). cbn [parse_digits].
  rewrite digit_of_pretty by done. unfold checked_mul_i64. rewrite H2. cbn [mbind option_bind].
  unfold checked_add_i64.
  assert (signed neg (x / 10) * 10 + (if neg then - Z.of_N (x mod 10) else Z.of_N (x mod 10)) =
          signed neg x)%Z as ->.
  { unfold signed. destruct neg; lia. }
  by rewrite Hx.
Qed.

(** The digits of a number: none of them is a sign. *)
Fixpoint all_digits (s : string) : bool :=
  match s with
  | EmptyString => true
  | String a s => bool_decide (is_Some (digit_of a)) && all_digits s
  end.

Lemma all_digits_pretty x s : all_digits s = true → all_digits (pretty_N_go x s) = true.
Proof.
  revert s. induction (N.lt_wf_0 x) as [x _ IH]. intros s Hs.
  destruct (decide (x = 0%N)) as [->|Hx0]; [done|].
  rewrite pretty_N_go_step by lia. apply IH; [by apply N.div_lt; lia|]. cbn [all_digits].
  rewrite digit_of_pretty by (by apply N.mod_lt). by rewrite bool_decide_true, Hs.
Qed.

Lemma pretty_N_not_empty x : (0 < x)%N → pretty_N_go x EmptyString ≠ EmptyString.
Proof.
  intros Hx. assert (∀ y s, s ≠ EmptyString → pretty_N_go y s ≠ EmptyString) as Hgo.
  { intros y. induction (N.lt_wf_0 y) as [y _ IH]. intros s Hs.
    destruct (decide (y = 0%N)) as [->|Hy]; [done|].
    rewrite pretty_N_go_step by lia. apply IH; [by apply N.div_lt; lia|done]. }
  rewrite pretty_N_go_step by done. by apply Hgo.
Qed.

Lemma parse_i64_digits s :
  s ≠ EmptyString → all_digits s = true →
  parse_i64 s = parse_digits false 0 s ∧ parse_i64 (String "-"%char s) = parse_digits true 0 s.
Proof.
  destruct s as [|a s]; [done|]. intros _. cbn [all_digits].
  intros [[d Ha]%bool_decide_eq_true _]%andb_true_iff. split; [|done].
  assert (a ≠ "+"%char ∧ a ≠ "-"%char) as [H1 H2] by (split; by intros ->).
  cbn [parse_i64]. destruct s as [|b s]; rewrite !bool_decide_false by tauto; done.
Qed.

Lemma parse_i64_pretty z : in_i64 z = true → parse_i64 (pretty z) = Ok z.
Proof.
  intros Hz. destruct z as [|p|p]; [done| |].
  - change (pretty (Z.pos p)) with (pretty_N_go (N.pos p) EmptyString).
    destruct (parse_i64_digits (pretty_N_go (N.pos p) EmptyString)) as [-> _];
      [by apply pretty_N_not_empty|by apply all_digits_pretty|].
    by rewrite parse_digits_pretty.
  - change (pretty (Z.neg p)) with (String "-"%char (pretty_N_go (N.pos p) EmptyString)).
    destruct (parse_i64_digits (pretty_N_go (N.pos p) EmptyString)) as [_ ->];
      [by apply pretty_N_not_empty|by apply all_digits_pretty|].
    by rewrite parse_digits_pretty.
Qed.

(** ** Trimming *)

Lemma is_blank_utrim_end s : is_blank s = true → utrim_end s = EmptyString.
Proof. destruct s as [|a s]; [done|]. intros Hs. cbn [utrim_end]. by rewrite Hs. Qed.

Lemma no_space_app_r s t : no_space (s +:+ t) = true → no_space t = true.
Proof. rewrite no_space_app. by intros [_ ?]%andb_true_iff. Qed.
