(* ===== verification/Storage.v ===== *)
(** * What the program takes from its database and from serde_json

    [sqlx] and [serde_json] are dependencies, so what the code relies on is an interface:
    [ORDER BY] sorts ([SqlOrder]), parsing what was serialised gives it back
    ([SerdeJson]), and JSON values are built and taken apart by [JsonValue].  The SQL of
    the repositories is part of the program and is modelled with the components that use
    it. *)
From Stdlib Require Import Ascii.
From S2P Require Import Prelude.

(** ** [aionui-db/src/error.rs]

    [Query] stands for every error of [sqlx]. *)
Inductive DbError := Query | NotFound (record : string) | Conflict (record : string).

#[global] Instance DbError_eq_dec : EqDecision DbError.
Proof. solve_decision. Defined.

(** ** [ORDER BY key ASC]: rows with equal keys come in any order. *)
Class SqlOrder := {
  order_by : ∀ {R : Type}, (R → Z) → list R → list R;
  order_by_perm : ∀ {R : Type} (key : R → Z) rows, order_by key rows ≡ₚ rows;
  order_by_sorted : ∀ {R : Type} (key : R → Z) rows,
    Sorted (λ r1 r2, (key r1 ≤ key r2)%Z) (order_by key rows);
}.

(** An order: rows of equal keys as the table holds them *)
Section stable_order.
Context {R : Type} (key : R → Z).

Definition key_le (r1 r2 : R) : Prop := (key r1 ≤ key r2)%Z.

#[global] Instance key_le_dec r1 r2 : Decision (key_le r1 r2).
Proof. unfold key_le. apply _. Defined.

#[global] Instance key_le_total : Total key_le.
Proof. intros r1 r2. unfold key_le. lia. Qed.
End stable_order.

Definition insertion_order : SqlOrder.
Proof.
  refine {| order_by R key := merge_sort (key_le key) |}.
  - intros. apply merge_sort_Permutation.
  - intros R key rows. apply (Sorted_merge_sort (key_le key)).
Defined.

(** ** [serde_json], on lists of strings and on arbitrary values *)
Class SerdeJson := {
  Value : Type;
  list_of_json : string → option (list string);
  json_of_list : list string → string;
  value_of_json : string → option Value;
  json_of_value : Value → string;
  list_of_json_of_list l : list_of_json (json_of_list l) = Some l;
  list_of_json_empty : list_of_json "[]" = Some [];
  value_of_json_of_value v : value_of_json (json_of_value v) = Some v;
}.

(** A stand-in for the concrete instances: each byte of an element behind an [a], the
    end of the element a [b]. *)
Fixpoint quote (s : string) : string :=
  match s with
  | EmptyString => "b"
  | String c s => String "a"%char (String c (quote s))
  end.

Fixpoint unquote (s : string) : option (list string) :=
  match s with
  | EmptyString => Some []
  | String "b"%char s => l ← unquote s; Some (EmptyString :: l)
  | String "a"%char (String c s) =>
      l ← unquote s;
      match l with x :: l => Some (String c x :: l) | [] => None end
  | String "["%char _ => Some []
  | _ => None
  end.

Lemma unquote_quote s t l : unquote t = Some l → unquote (quote s +:+ t) = Some (s :: l).
Proof.
  intros Ht. induction s as [|c s IH]; cbn [quote]; rewrite !string_app_cons.
  - rewrite string_app_nil. cbn [unquote]. by rewrite Ht.
  - cbn [unquote]. by rewrite IH.
Qed.

Definition plain_json : SerdeJson.
Proof.
  refine {| Value := string; list_of_json := unquote;
            json_of_list l := foldr (λ s t, quote s +:+ t) EmptyString l;
            value_of_json := Some; json_of_value s := s |}; [|done|done].
  intros l. induction l as [|s l IH]; [done|]. by apply unquote_quote.
Defined.

(** ** [serde_json::Value]: the constructors and accessors the code uses

    [json_to_string] is [serde_json::to_string], which may fail; [json_display] is
    [Value::to_string], which does not. *)
Class JsonValue := {
  json : Type;
  json_null : json;
  json_bool : bool → json;
  json_number : Z → json;
  json_string : string → json;
  json_array : list json → json;
  json_object : list (string * json) → json;
  json_get : string → json → option json;
  json_as_str : json → option string;
  json_as_array : json → option (list json);
  json_to_string : json → option string;
  json_display : json → string;
  json_as_str_string s : json_as_str (json_string s) = Some s;
}.

(** A stand-in for the concrete instances *)
Inductive plain_value :=
  | PNull | PBool (b : bool) | PNumber (z : Z) | PString (s : string)
  | PArray (l : list plain_value) | PObject (l : list (string * plain_value)).

Definition assoc {A} (k : string) (l : list (string * A)) : option A :=
  '(_, e) ← list_find (λ e, e.1 = k) l; Some e.2.

Fixpoint plain_show (v : plain_value) : string :=
  match v with
  | PNull => "null"
  | PBool b => if b then "true" else "false"
  | PNumber z => pretty z
  | PString s => "'" +:+ s +:+ "'"
  | PArray l => "[" +:+ foldr (λ v s, plain_show v +:+ "," +:+ s) "]" l
  | PObject l => "{" +:+ foldr (λ e s, e.1 +:+ ":" +:+ plain_show e.2 +:+ "," +:+ s) "}" l
  end.

Definition plain_values : JsonValue :=
  {| json := plain_value; json_null := PNull; json_bool := PBool; json_number := PNumber;
     json_string := PString; json_array := PArray; json_object := PObject;
     json_get k v := match v with PObject l => assoc k l | _ => None end;
     json_as_str v := match v with PString s => Some s | _ => None end;
     json_as_array v := match v with PArray l => Some l | _ => None end;
     json_to_string v := Some (plain_show v); json_display := plain_show;
     json_as_str_string _ := eq_refl |}.

(** ** Methods that change a store and may fail

    A method that returns early with an error leaves the store as it is then. *)

Definition action (S E A : Type) : Type := S → result A E * S.

Definition act_ret {S E A} (a : A) : action S E A := λ s, (Ok a, s).
Definition act_err {S E A} (e : E) : action S E A := λ s, (Err e, s).
Definition act_bind {S E A B} (m : action S E A) (k : A → action S E B) : action S E B :=
  λ s, match m s with (Ok a, s) => k a s | (Err e, s) => (Err e, s) end.
(** [.map_err(f)], the conversion of [?] *)
Definition act_map_err {S E E' A} (f : E → E') (m : action S E A) : action S E' A :=
  λ s, match m s with (Ok a, s) => (Ok a, s) | (Err e, s) => (Err (f e), s) end.
(** [option.ok_or(e)] *)
Definition act_some {S E A} (e : E) (o : option A) : action S E A :=
  λ s, (ok_or o e, s).
Definition act_read {S E A} (f : S → A) : action S E A := λ s, (Ok (f s), s).

Notation "x '←!' m ; k" := (act_bind m (λ x, k))
  (at level 20, m at level 100, k at level 200, right associativity) : aion_scope.

(** [for x in l { f(x)?; }] *)
Fixpoint act_each {S E A} (f : A → action S E unit) (l : list A) : action S E unit :=
  match l with
  | [] => act_ret tt
  | x :: l => _ ←! f x; act_each f l
  end.

(** A loop that does not fail: an invariant indexed by what is left of the list *)
Lemma act_each_ok {S E A} (f : A → action S E unit) (P : list A → S → Prop) l s :
  (∀ x l' s0, P (x :: l') s0 → ∃ s1, f x s0 = (Ok tt, s1) ∧ P l' s1) →
  P l s → ∃ s', act_each f l s = (Ok tt, s') ∧ P [] s'.
Proof.
  intros Hstep. revert s. induction l as [|x l IH]; intros s Hs; cbn [act_each]; [by exists s|].
  destruct (Hstep _ _ _ Hs) as (s1 & Hf & Hs1). unfold act_bind. rewrite Hf. auto.
Qed.

(** ** What a method keeps, whether it fails or not *)

Create HintDb act_keeps.

Definition act_keeps {S E A} (P : S → Prop) (m : action S E A) : Prop := ∀ s, P s → P (m s).2.

Lemma act_keeps_bind {S E A B} (P : S → Prop) (m : action S E A) (k : A → action S E B) :
  act_keeps P m → (∀ a, act_keeps P (k a)) → act_keeps P (act_bind m k).
Proof.
  intros Hm Hk s Hs. apply Hm in Hs. unfold act_bind. destruct (m s) as [[a|e] s']; [by apply Hk|done].
Qed.

Lemma act_keeps_pure {S E A} (P : S → Prop) (m : action S E A) :
  (∀ s, (m s).2 = s) → act_keeps P m.
Proof. intros Hm s Hs. by rewrite Hm. Qed.

#[export] Hint Extern 1 (act_keeps _ (act_ret _)) => by apply act_keeps_pure : act_keeps.
#[export] Hint Extern 1 (act_keeps _ (act_err _)) => by apply act_keeps_pure : act_keeps.
#[export] Hint Extern 1 (act_keeps _ (act_read _)) => by apply act_keeps_pure : act_keeps.
