(* ===== verification/WorkModel.v ===== *)
(** * Work model: the data of the slot work coordinator

    Models [crates/aionui-team/src/work_coordinator/model.rs] and
    [crates/aionui-team/src/work_source.rs].  A field [f] of the Rust struct [S]
    is the projection [x_f], where [x] abbreviates [S] (shown at each record).
    Byte strings are [string]; [u64] and [i64] are [Z]; [usize] counters are
    lengths, hence [nat]. *)
From S2P Require Import Prelude Storage.

(** ** [work_source.rs] *)

Inductive WorkPriority := Foreground | Control | Background.

#[global] Instance WorkPriority_eq_dec : EqDecision WorkPriority.
Proof. solve_decision. Defined.

Inductive WorkSource :=
  | UserMessage
  | UserIntervention
  | McpSendMessage
  | McpShutdownRequest
  | SpawnWelcome
  | TeamMembershipChanged
  | SpawnAttachFailure
  | IdleNotification
  | InterruptedNotification
  | ShutdownRejected
  | RecoveryDrain.

#[global] Instance WorkSource_eq_dec : EqDecision WorkSource.
Proof. solve_decision. Defined.

Definition source_priority (s : WorkSource) : WorkPriority :=
  match s with
  | UserMessage | UserIntervention => Foreground
  | McpShutdownRequest | ShutdownRejected => Control
  | McpSendMessage | SpawnWelcome | TeamMembershipChanged | SpawnAttachFailure
  | IdleNotification | InterruptedNotification | RecoveryDrain => Background
  end.

Definition resumes_paused_slot (s : WorkSource) : bool :=
  match s with UserMessage | UserIntervention => true | _ => false end.

Definition requires_mailbox_message (s : WorkSource) : bool :=
  match s with
  | UserMessage | UserIntervention | McpSendMessage | McpShutdownRequest
  | SpawnWelcome | SpawnAttachFailure | InterruptedNotification
  | ShutdownRejected | RecoveryDrain => true
  | TeamMembershipChanged | IdleNotification => false
  end.

(** The derived [Debug] form, which error messages embed. *)
Definition WorkSource_debug (s : WorkSource) : string :=
  match s with
  | UserMessage => "UserMessage"
  | UserIntervention => "UserIntervention"
  | McpSendMessage => "McpSendMessage"
  | McpShutdownRequest => "McpShutdownRequest"
  | SpawnWelcome => "SpawnWelcome"
  | TeamMembershipChanged => "TeamMembershipChanged"
  | SpawnAttachFailure => "SpawnAttachFailure"
  | IdleNotification => "IdleNotification"
  | InterruptedNotification => "InterruptedNotification"
  | ShutdownRejected => "ShutdownRejected"
  | RecoveryDrain => "RecoveryDrain"
  end.

(** [fmt::Display] *)
Definition WorkSource_to_string (s : WorkSource) : string :=
  match s with
  | UserMessage => "user_message"
  | UserIntervention => "user_intervention"
  | McpSendMessage => "mcp_send_message"
  | McpShutdownRequest => "mcp_shutdown_request"
  | SpawnWelcome => "spawn_welcome"
  | TeamMembershipChanged => "team_membership_changed"
  | SpawnAttachFailure => "spawn_attach_failure"
  | IdleNotification => "idle_notification"
  | InterruptedNotification => "interrupted_notification"
  | ShutdownRejected => "shutdown_rejected"
  | RecoveryDrain => "recovery_drain"
  end.

(** ** [aionui-api-types/src/team.rs] and [aionui-team/src/error.rs] *)

Inductive TeamRunTargetRole := Lead | Teammate.

#[global] Instance TeamRunTargetRole_eq_dec : EqDecision TeamRunTargetRole.
Proof. solve_decision. Defined.

(** The variants of [TeamError] that the modelled code raises. *)
Inductive TeamError :=
  | AgentNotFound (slot_id : string)
  | TaskNotFound (task_id : string)
  | InvalidRequest (message : string)
  | LeaderOnly (action : string)
  | DuplicateAgentName (name : string)
  | SessionNotFound (team_id : string)
  | BlockedTaskNotFound (task_id : string)
  | Database (error : DbError)
  | Json.

#[global] Instance TeamError_eq_dec : EqDecision TeamError.
Proof. solve_decision. Defined.

(** ** [model.rs]: enums *)

Inductive RuntimeConstraint :=
  | Ready
  | Starting (operation_id : Z)
  | Failed (operation_id : Z) (classification : string)
  | Removing (operation_id : Z)
  | SessionStopped.

#[global] Instance RuntimeConstraint_eq_dec : EqDecision RuntimeConstraint.
Proof. solve_decision. Defined.

Inductive SlotPhase :=
  | PhaseIdle | PhaseQueued | PhaseStarting | PhaseRunning | PhasePaused | PhaseBlocked.

#[global] Instance SlotPhase_eq_dec : EqDecision SlotPhase.
Proof. solve_decision. Defined.

Inductive WorkIntentState :=
  | IntentQueued
  | IntentStarting (batch_id : string) (operation_id : Z)
  | IntentRunning (batch_id : string) (operation_id : Z) (turn_id : string)
  | IntentCompleted
  | IntentFailed (classification : string)
  | IntentCancelled (classification : string).

#[global] Instance WorkIntentState_eq_dec : EqDecision WorkIntentState.
Proof. solve_decision. Defined.

Definition is_terminal (s : WorkIntentState) : bool :=
  match s with
  | IntentCompleted | IntentFailed _ | IntentCancelled _ => true
  | _ => false
  end.

Inductive CausalBinding :=
  | UserVisible
  | InheritRunningBatch (caller_slot_id : string)
  | ActiveRunOrBackground
  | BackgroundBinding.

#[global] Instance CausalBinding_eq_dec : EqDecision CausalBinding.
Proof. solve_decision. Defined.

Inductive CommitResult := Committed | StaleOwner | Rejected.

#[global] Instance CommitResult_eq_dec : EqDecision CommitResult.
Proof. solve_decision. Defined.

Inductive StartCommitResult := StartAccepted | CancelImmediately | StartStaleOwner.

#[global] Instance StartCommitResult_eq_dec : EqDecision StartCommitResult.
Proof. solve_decision. Defined.

Inductive EnqueueDisposition :=
  | DispositionAccepted | DispositionQueued | BlockedRuntimeStarting.

#[global] Instance EnqueueDisposition_eq_dec : EqDecision EnqueueDisposition.
Proof. solve_decision. Defined.

(** ** [model.rs]: structs *)

(** [wi] = [WorkIntent] *)
Record WorkIntent := mkWorkIntent {
  wi_intent_id : string;
  wi_session_generation : string;
  wi_slot_id : string;
  wi_role : TeamRunTargetRole;
  wi_source : WorkSource;
  wi_priority : WorkPriority;
  wi_mailbox_message_id : option string;
  wi_team_run_id : option string;
  wi_created_at_ms : Z;
  wi_state : WorkIntentState;
}.

#[global] Instance WorkIntent_eq_dec : EqDecision WorkIntent.
Proof. solve_decision. Defined.

(** [intent.state = s] *)
Definition set_wi_state (s : WorkIntentState) (i : WorkIntent) : WorkIntent :=
  mkWorkIntent i.(wi_intent_id) i.(wi_session_generation) i.(wi_slot_id) i.(wi_role)
    i.(wi_source) i.(wi_priority) i.(wi_mailbox_message_id) i.(wi_team_run_id)
    i.(wi_created_at_ms) s.

(** [rq] = [EnqueueRequest] *)
Record EnqueueRequest := mkEnqueueRequest {
  rq_slot_id : string;
  rq_role : TeamRunTargetRole;
  rq_source : WorkSource;
  rq_binding : CausalBinding;
}.

(** [el] = [EnqueueLease] *)
Record EnqueueLease := mkEnqueueLease {
  el_lease_id : string;
  el_session_generation : string;
  el_slot_id : string;
  el_role : TeamRunTargetRole;
  el_source : WorkSource;
  el_team_run_id : option string;
}.

#[global] Instance EnqueueLease_eq_dec : EqDecision EnqueueLease.
Proof. solve_decision. Defined.

(** [wb] = [WorkBatch] *)
Record WorkBatch := mkWorkBatch {
  wb_batch_id : string;
  wb_session_generation : string;
  wb_slot_id : string;
  wb_intent_ids : list string;
  wb_mailbox_message_ids : list string;
  wb_highest_priority : WorkPriority;
  wb_team_run_ids : list string;
  wb_operation_id : Z;
}.

#[global] Instance WorkBatch_eq_dec : EqDecision WorkBatch.
Proof. solve_decision. Defined.

Inductive ReconcileDecision :=
  | Claim (batch : WorkBatch)
  | WaitingForCompletion
  | Blocked (constraint : RuntimeConstraint)
  | SettleSignals (intent_ids : list string)
  | Quiescent.

#[global] Instance ReconcileDecision_eq_dec : EqDecision ReconcileDecision.
Proof. solve_decision. Defined.

(** [sn] = [SlotWorkSnapshot] *)
Record SlotWorkSnapshot := mkSlotWorkSnapshot {
  sn_slot_id : string;
  sn_role : TeamRunTargetRole;
  sn_state : SlotPhase;
  sn_queued_foreground_count : nat;
  sn_queued_background_count : nat;
  sn_active_batch : option WorkBatch;
  sn_active_turn_id : option string;
  sn_active_turn_started_at_ms : option Z;
  sn_runtime_constraint : RuntimeConstraint;
  sn_team_run_id : option string;
}.

#[global] Instance SlotWorkSnapshot_eq_dec : EqDecision SlotWorkSnapshot.
Proof. solve_decision. Defined.

(** [ec] = [EnqueueCommit] *)
Record EnqueueCommit := mkEnqueueCommit {
  ec_intent_id : string;
  ec_team_run_id : option string;
  ec_disposition : EnqueueDisposition;
  ec_slot : SlotWorkSnapshot;
}.

(** [rs] = [RunWorkSummary] *)
Record RunWorkSummary := mkRunWorkSummary {
  rs_team_run_id : string;
  rs_queued_intent_count : nat;
  rs_starting_batch_count : nat;
  rs_running_batch_count : nat;
  rs_active_enqueue_lease_count : nat;
  rs_paused_intent_count : nat;
  rs_failed_intent_count : nat;
  rs_slots : list SlotWorkSnapshot;
}.

#[global] Instance RunWorkSummary_eq_dec : EqDecision RunWorkSummary.
Proof. solve_decision. Defined.

(** [cn] = [CoordinatorSnapshot] *)
Record CoordinatorSnapshot := mkCoordinatorSnapshot {
  cn_session_generation : string;
  cn_slots : list SlotWorkSnapshot;
  cn_active_run_summary : option RunWorkSummary;
}.

(** [rp] = [ReconcileProjection] *)
Record ReconcileProjection := mkReconcileProjection {
  rp_created_recovery_intent_ids : list string;
  rp_retained_intent_ids : list string;
  rp_cleared_stale_intent_ids : list string;
}.

(** [bt] = [BatchCancelTarget] *)
Record BatchCancelTarget := mkBatchCancelTarget {
  bt_batch : WorkBatch;
  bt_turn_id : option string;
}.

(** [pw] = [PauseWorkResult] *)
Record PauseWorkResult := mkPauseWorkResult {
  pw_cancel_target : option BatchCancelTarget;
  pw_slot : SlotWorkSnapshot;
}.

(** [rw] = [RemoveWorkResult] *)
Record RemoveWorkResult := mkRemoveWorkResult {
  rw_cancel_target : option BatchCancelTarget;
  rw_terminal_message_ids : list string;
  rw_affected_run_summaries : list RunWorkSummary;
}.

(** [cw] = [CancelRunWorkResult] *)
Record CancelRunWorkResult := mkCancelRunWorkResult {
  cw_cancel_targets : list BatchCancelTarget;
  cw_terminal_message_ids : list string;
  cw_summary : RunWorkSummary;
}.

(** [ru] = [RuntimeConstraintUpdate] *)
Record RuntimeConstraintUpdate := mkRuntimeConstraintUpdate {
  ru_slot : SlotWorkSnapshot;
  ru_terminal_message_ids : list string;
  ru_affected_run_summaries : list RunWorkSummary;
}.

(** [rb] = [RunBinding] *)
Record RunBinding := mkRunBinding {
  rb_team_run_id : option string;
  rb_created_new_run : bool;
  rb_user_intervention : bool;
}.

(** ** The port to the run manager

    [trait RunCausalityPort].  [P] is the state behind the port.  [bind_enqueue]
    may create a run, so it takes the identifier [generate_id] would return;
    [apply_work_summary] takes the reading of the clock. *)
Class RunCausalityPort (P : Type) := {
  bind_enqueue : EnqueueRequest → string → P → RunBinding * P;
  abort_binding : RunBinding → P → P;
  apply_work_summary : Z → RunWorkSummary → P → P;
}.
