(* ===== verification/WorkState.v ===== *)
(** * Work state: slots, the coordinator's state and its snapshots

    Models the data half of [work_coordinator/coordinator.rs] and all of
    [work_coordinator/snapshot.rs]. *)
From S2P Require Import Prelude WorkModel.

(** ** Slots *)

(** [ab] = [ActiveBatch] *)
Record ActiveBatch := mkActiveBatch {
  ab_batch : WorkBatch;
  ab_turn_id : option string;
  ab_started_at_ms : option Z;
}.

#[global] Instance ActiveBatch_eq_dec : EqDecision ActiveBatch.
Proof. solve_decision. Defined.

(** [sl] = [SlotState] *)
Record SlotState := mkSlotState {
  sl_role : TeamRunTargetRole;
  sl_foreground : list string;
  sl_control : list string;
  sl_background : list string;
  sl_active : option ActiveBatch;
  sl_paused : bool;
  sl_runtime_constraint : RuntimeConstraint;
  sl_known_unread_message_ids : gset string;
  sl_removed : bool;
}.

(** [SlotState::new] *)
Definition new_slot (role : TeamRunTargetRole) : SlotState :=
  mkSlotState role [] [] [] None false (Starting 0) ∅ false.

(** Assignments to one field. *)
Definition set_sl_role role s := mkSlotState role s.(sl_foreground) s.(sl_control)
  s.(sl_background) s.(sl_active) s.(sl_paused) s.(sl_runtime_constraint)
  s.(sl_known_unread_message_ids) s.(sl_removed).
Definition set_sl_active a s := mkSlotState s.(sl_role) s.(sl_foreground) s.(sl_control)
  s.(sl_background) a s.(sl_paused) s.(sl_runtime_constraint)
  s.(sl_known_unread_message_ids) s.(sl_removed).
Definition set_sl_paused p s := mkSlotState s.(sl_role) s.(sl_foreground) s.(sl_control)
  s.(sl_background) s.(sl_active) p s.(sl_runtime_constraint)
  s.(sl_known_unread_message_ids) s.(sl_removed).
Definition set_sl_runtime_constraint c s := mkSlotState s.(sl_role) s.(sl_foreground)
  s.(sl_control) s.(sl_background) s.(sl_active) s.(sl_paused) c
  s.(sl_known_unread_message_ids) s.(sl_removed).
Definition set_sl_known_unread u s := mkSlotState s.(sl_role) s.(sl_foreground)
  s.(sl_control) s.(sl_background) s.(sl_active) s.(sl_paused) s.(sl_runtime_constraint)
  u s.(sl_removed).
Definition set_sl_removed r s := mkSlotState s.(sl_role) s.(sl_foreground)
  s.(sl_control) s.(sl_background) s.(sl_active) s.(sl_paused) s.(sl_runtime_constraint)
  s.(sl_known_unread_message_ids) r.

(** [SlotState::queue] *)
Definition slot_queue (p : WorkPriority) (s : SlotState) : list string :=
  match p with
  | Foreground => s.(sl_foreground)
  | Control => s.(sl_control)
  | Background => s.(sl_background)
  end.

(** An update through [SlotState::queue_mut] *)
Definition update_queue (p : WorkPriority) (f : list string → list string)
    (s : SlotState) : SlotState :=
  let on q := if decide (p = q) then f (slot_queue q s) else slot_queue q s in
  mkSlotState s.(sl_role) (on Foreground) (on Control) (on Background) s.(sl_active)
    s.(sl_paused) s.(sl_runtime_constraint) s.(sl_known_unread_message_ids) s.(sl_removed).

(** [VecDeque::push_back] and [push_front] on the queue of a priority *)
Definition push_back (p : WorkPriority) (id : string) : SlotState → SlotState :=
  update_queue p (λ q, q ++ [id]).
Definition push_front (p : WorkPriority) (id : string) : SlotState → SlotState :=
  update_queue p (λ q, id :: q).

(** [SlotState::queued_ids] *)
Definition queued_ids (s : SlotState) : list string :=
  s.(sl_foreground) ++ s.(sl_control) ++ s.(sl_background).

(** [SlotState::remove_queued] *)
Definition remove_queued (id : string) (s : SlotState) : SlotState :=
  let retain := filter (λ candidate, candidate ≠ id) in
  mkSlotState s.(sl_role) (retain s.(sl_foreground)) (retain s.(sl_control))
    (retain s.(sl_background)) s.(sl_active) s.(sl_paused) s.(sl_runtime_constraint)
    s.(sl_known_unread_message_ids) s.(sl_removed).

(** [foreground.clear(); control.clear(); background.clear()] *)
Definition clear_queues (s : SlotState) : SlotState :=
  mkSlotState s.(sl_role) [] [] [] s.(sl_active) s.(sl_paused) s.(sl_runtime_constraint)
    s.(sl_known_unread_message_ids) s.(sl_removed).

(** ** The state under the coordinator's mutex *)

(** [er] = [EnqueueLeaseRecord] *)
Record EnqueueLeaseRecord := mkEnqueueLeaseRecord {
  er_lease : EnqueueLease;
  er_binding : RunBinding;
}.

(** [cs] = [CoordinatorState] *)
Record CoordinatorState := mkCoordinatorState {
  cs_slots : gmap string SlotState;
  cs_intents : gmap string WorkIntent;
  cs_enqueue_leases : gmap string EnqueueLeaseRecord;
  cs_next_operation_id : Z;
}.

(** [CoordinatorState::default] *)
Definition default_state : CoordinatorState := mkCoordinatorState ∅ ∅ ∅ 0.

Definition set_cs_slots m st := mkCoordinatorState m st.(cs_intents)
  st.(cs_enqueue_leases) st.(cs_next_operation_id).
Definition set_cs_intents m st := mkCoordinatorState st.(cs_slots) m
  st.(cs_enqueue_leases) st.(cs_next_operation_id).
Definition set_cs_leases m st := mkCoordinatorState st.(cs_slots) st.(cs_intents)
  m st.(cs_next_operation_id).
Definition set_cs_next_operation_id n st := mkCoordinatorState st.(cs_slots)
  st.(cs_intents) st.(cs_enqueue_leases) n.

(** [state.slots.entry(id).or_insert_with(|| SlotState::new(role))] *)
Definition slot_entry (id : string) (role : TeamRunTargetRole)
    (st : CoordinatorState) : SlotState :=
  default (new_slot role) (st.(cs_slots) !! id).

Definition put_slot (id : string) (s : SlotState) (st : CoordinatorState) : CoordinatorState :=
  set_cs_slots (<[id := s]> st.(cs_slots)) st.

(** [if let Some(slot) = state.slots.get_mut(id) { f(slot) }] *)
Definition alter_slot (id : string) (f : SlotState → SlotState)
    (st : CoordinatorState) : CoordinatorState :=
  set_cs_slots (alter f id st.(cs_slots)) st.

(** [if let Some(intent) = state.intents.get_mut(id) { intent.state = s }] *)
Definition set_intent_state (s : WorkIntentState) (id : string)
    (st : CoordinatorState) : CoordinatorState :=
  set_cs_intents (alter (set_wi_state s) id st.(cs_intents)) st.

(** The same, for every identifier of a list. *)
Definition set_intent_states (s : WorkIntentState) (ids : list string)
    (st : CoordinatorState) : CoordinatorState :=
  foldl (λ st id, set_intent_state s id st) st ids.

(** ** [snapshot.rs] *)

Definition in_run (team_run_id : string) (o : option string) : bool :=
  bool_decide (o = Some team_run_id).

Definition is_ready (c : RuntimeConstraint) : bool :=
  match c with Ready => true | _ => false end.

Definition is_queued (s : WorkIntentState) : bool :=
  match s with IntentQueued => true | _ => false end.

Definition is_failed (s : WorkIntentState) : bool :=
  match s with IntentFailed _ => true | _ => false end.

Definition is_cancelled (s : WorkIntentState) : bool :=
  match s with IntentCancelled _ => true | _ => false end.

Definition starting_batch (s : WorkIntentState) : option string :=
  match s with IntentStarting b _ => Some b | _ => None end.

Definition running_batch (s : WorkIntentState) : option string :=
  match s with IntentRunning b _ _ => Some b | _ => None end.

Definition slot_phase (s : SlotState) : SlotPhase :=
  if s.(sl_paused) then PhasePaused
  else if bool_decide (is_Some (s.(sl_active) ≫= ab_turn_id)) then PhaseRunning
  else if bool_decide (is_Some s.(sl_active)) then PhaseStarting
  else if negb (is_ready s.(sl_runtime_constraint)) then PhaseBlocked
  else if bool_decide (queued_ids s ≠ []) then PhaseQueued
  else PhaseIdle.

Definition slot_snapshot_locked (st : CoordinatorState) (slot_id : string) :
    option SlotWorkSnapshot :=
  slot ← st.(cs_slots) !! slot_id;
  let active_batch := ab_batch <$> slot.(sl_active) in
  let active_turn_id := slot.(sl_active) ≫= ab_turn_id in
  let active_turn_started_at_ms := slot.(sl_active) ≫= ab_started_at_ms in
  let team_run_id :=
    match active_batch ≫= (λ batch, head batch.(wb_team_run_ids)) with
    | Some run_id => Some run_id
    | None => find_map (λ id, st.(cs_intents) !! id ≫= wi_team_run_id) (queued_ids slot)
    end in
  Some (mkSlotWorkSnapshot slot_id slot.(sl_role) (slot_phase slot)
    (length slot.(sl_foreground))
    (length slot.(sl_control) + length slot.(sl_background))
    active_batch active_turn_id active_turn_started_at_ms
    slot.(sl_runtime_constraint) team_run_id).

Section snapshots.
Context `{HashOrder}.

Definition all_run_ids (st : CoordinatorState) : list string :=
  btree_set (omap wi_team_run_id (hash_values st.(cs_intents)) ++
             omap (λ r, r.(er_lease).(el_team_run_id)) (hash_values st.(cs_enqueue_leases))).

Definition run_intents (st : CoordinatorState) (team_run_id : string) : list WorkIntent :=
  filter (λ i, in_run team_run_id i.(wi_team_run_id)) (hash_values st.(cs_intents)).

Definition run_leases (st : CoordinatorState) (team_run_id : string) :
    list EnqueueLeaseRecord :=
  filter (λ r, in_run team_run_id r.(er_lease).(el_team_run_id))
    (hash_values st.(cs_enqueue_leases)).

Definition slot_paused (st : CoordinatorState) (slot_id : string) : bool :=
  match st.(cs_slots) !! slot_id with Some slot => slot.(sl_paused) | None => false end.

Definition run_summary_locked (st : CoordinatorState) (team_run_id : string) :
    RunWorkSummary :=
  let associated := run_intents st team_run_id in
  let leases := run_leases st team_run_id in
  let slot_ids := btree_set ((wi_slot_id <$> associated) ++
                             ((λ r, r.(er_lease).(el_slot_id)) <$> leases)) in
  mkRunWorkSummary team_run_id
    (length (filter (λ i, is_queued i.(wi_state)) associated))
    (hash_set_len (omap (λ i, starting_batch i.(wi_state)) associated))
    (hash_set_len (omap (λ i, running_batch i.(wi_state)) associated))
    (length leases)
    (length (filter (λ i, is_queued i.(wi_state) && slot_paused st i.(wi_slot_id)) associated))
    (length (filter (λ i, is_failed i.(wi_state)) associated))
    (omap (slot_snapshot_locked st) slot_ids).

Definition run_summaries_locked (st : CoordinatorState) (run_ids : list string) :
    list RunWorkSummary :=
  run_summary_locked st <$> btree_set run_ids.
End snapshots.

(** ** Snapshots of existing slots *)

Lemma slot_snapshot_some st sid :
  is_Some (st.(cs_slots) !! sid) → is_Some (slot_snapshot_locked st sid).
Proof. intros [s Hs]. unfold slot_snapshot_locked. rewrite Hs. simpl. eauto. Qed.

Lemma slot_snapshot_put st sid s : is_Some (slot_snapshot_locked (put_slot sid s st) sid).
Proof. apply slot_snapshot_some. simpl. rewrite lookup_insert_eq. eauto. Qed.

Ltac take_snapshot :=
  match goal with
  | |- context [slot_snapshot_locked (put_slot ?sid ?s ?st) ?sid] =>
      destruct (slot_snapshot_put st sid s) as [? ->]; cbn [mbind option_bind]
  end.
