(* ===== verification/WorkCoordinator.v ===== *)
(** * Slot work coordinator: the operations

    Models [SlotWorkCoordinator] of [work_coordinator/coordinator.rs].  Every method
    takes the mutex, so a call is one atomic transition: a function of the
    coordinator before it to its result and the coordinator after it.  A method
    that holds an [expect] or an [unreachable!] returns an [option]: [None] is the
    panic.  Tracing is left out. *)
From S2P Require Import Prelude WorkModel WorkState.

(** [co] = [SlotWorkCoordinator] *)
Record Coordinator (P : Type) := mkCoordinator {
  co_session_generation : string;
  co_run_causality : P;
  co_state : CoordinatorState;
}.
Arguments mkCoordinator {P} _ _ _.
Arguments co_session_generation {P} _.
Arguments co_run_causality {P} _.
Arguments co_state {P} _.

Section coordinator.
Context {P : Type} `{RunCausalityPort P} `{CallEnv}.
Implicit Types c : Coordinator P.
Implicit Types st : CoordinatorState.

(** [SlotWorkCoordinator::new] *)
Definition new_coordinator (session_generation : string) (run_causality : P) : Coordinator P :=
  mkCoordinator session_generation run_causality default_state.

Definition with_state st c : Coordinator P :=
  mkCoordinator c.(co_session_generation) c.(co_run_causality) st.

Definition with_port p c : Coordinator P :=
  mkCoordinator c.(co_session_generation) p c.(co_state).

(** [publish_run_summaries]: the calls of the port.  The code makes them after it has released
    its mutex; a port that is told later is [Deferred] ([WorkPublish]). *)
Definition publish_run_summaries (summaries : list RunWorkSummary) c : Coordinator P :=
  with_port (foldl (λ p s, apply_work_summary now_ms s p) c.(co_run_causality) summaries) c.

(** [validate_enqueue_constraint] *)
Definition validate_enqueue_constraint (slot_id : string) (slot : SlotState) :
    result unit TeamError :=
  if slot.(sl_removed) then Err (InvalidRequest ("Team slot was removed: " +:+ slot_id))
  else match slot.(sl_runtime_constraint) with
  | Ready | Starting _ => Ok tt
  | Failed _ classification =>
      Err (InvalidRequest ("Team slot runtime failed (" +:+ classification +:+ "): " +:+ slot_id))
  | Removing _ => Err (InvalidRequest ("Team slot is being removed: " +:+ slot_id))
  | SessionStopped =>
      Err (InvalidRequest ("Team session stopped for slot: " +:+ slot_id))
  end.

(** [is_current_batch] *)
Definition is_current_batch (session_generation : string) st (batch : WorkBatch) : bool :=
  bool_decide (batch.(wb_session_generation) = session_generation) &&
  match st.(cs_slots) !! batch.(wb_slot_id) ≫= sl_active with
  | Some active =>
      bool_decide (active.(ab_batch).(wb_batch_id) = batch.(wb_batch_id)) &&
      bool_decide (active.(ab_batch).(wb_operation_id) = batch.(wb_operation_id)) &&
      bool_decide (active.(ab_batch).(wb_session_generation) = batch.(wb_session_generation))
  | None => false
  end.

(** ** Enqueueing: lease, then commit or abort *)

Definition no_run_binding : RunBinding := mkRunBinding None false false.

Definition acquire_enqueue (request : EnqueueRequest) c :
    result EnqueueLease TeamError * Coordinator P :=
  let slot := set_sl_role request.(rq_role)
                (slot_entry request.(rq_slot_id) request.(rq_role) c.(co_state)) in
  let st := put_slot request.(rq_slot_id) slot c.(co_state) in
  match validate_enqueue_constraint request.(rq_slot_id) slot with
  | Err e => (Err e, with_state st c)
  | Ok _ =>
      let '(binding, port) :=
        match request.(rq_binding) with
        | BackgroundBinding => (no_run_binding, c.(co_run_causality))
        | InheritRunningBatch caller_slot_id =>
            (mkRunBinding
               (active ← st.(cs_slots) !! caller_slot_id ≫= sl_active;
                head active.(ab_batch).(wb_team_run_ids)) false false,
             c.(co_run_causality))
        | UserVisible | ActiveRunOrBackground =>
            bind_enqueue request (gen_id 0) c.(co_run_causality)
        end in
      let lease := mkEnqueueLease (gen_id 1) c.(co_session_generation) request.(rq_slot_id)
                     request.(rq_role) request.(rq_source) binding.(rb_team_run_id) in
      let leases := <[lease.(el_lease_id) := mkEnqueueLeaseRecord lease binding]>
                      st.(cs_enqueue_leases) in
      (Ok lease, with_port port (with_state (set_cs_leases leases st) c))
  end.

Definition enqueue_disposition (slot : SlotState) : option EnqueueDisposition :=
  match slot.(sl_runtime_constraint) with
  | Starting _ => Some BlockedRuntimeStarting
  | Ready =>
      if bool_decide (slot.(sl_active) = None) && bool_decide (queued_ids slot = [])
      then Some DispositionAccepted
      else Some DispositionQueued
  | Failed _ _ | Removing _ | SessionStopped => None (* unreachable!("validated above") *)
  end.

Definition commit_enqueue (lease : EnqueueLease) (mailbox_message_id : option string) c :
    option (result EnqueueCommit TeamError * Coordinator P) :=
  let st := c.(co_state) in
  match st.(cs_enqueue_leases) !! lease.(el_lease_id) with
  | None => Some (Err (InvalidRequest "enqueue lease is no longer active"), c)
  | Some record =>
      if bool_decide (record.(er_lease) ≠ lease) ||
         bool_decide (lease.(el_session_generation) ≠ c.(co_session_generation))
      then Some (Err (InvalidRequest "stale enqueue lease owner"), c)
      else if requires_mailbox_message lease.(el_source) &&
              bool_decide (mailbox_message_id = None)
      then Some (Err (InvalidRequest (WorkSource_debug lease.(el_source) +:+
                                      " requires a mailbox message")), c)
      else match st.(cs_slots) !! lease.(el_slot_id) with
      | None => Some (Err (AgentNotFound lease.(el_slot_id)), c)
      | Some slot =>
          match validate_enqueue_constraint lease.(el_slot_id) slot with
          | Err e => Some (Err e, c)
          | Ok _ =>
              disposition ← enqueue_disposition slot;
              let intent_id := gen_id 0 in
              let intent := mkWorkIntent intent_id c.(co_session_generation)
                lease.(el_slot_id) lease.(el_role) lease.(el_source)
                (source_priority lease.(el_source)) mailbox_message_id
                lease.(el_team_run_id) now_ms IntentQueued in
              let slot := if resumes_paused_slot lease.(el_source)
                          then set_sl_paused false slot else slot in
              let slot := match mailbox_message_id with
                | Some message_id => set_sl_known_unread
                    ({[message_id]} ∪ slot.(sl_known_unread_message_ids)) slot
                | None => slot
                end in
              let slot := push_back intent.(wi_priority) intent_id slot in
              let st := set_cs_leases (delete lease.(el_lease_id) st.(cs_enqueue_leases)) st in
              let st := set_cs_intents (<[intent_id := intent]> st.(cs_intents)) st in
              let st := put_slot lease.(el_slot_id) slot st in
              slot_snapshot ← slot_snapshot_locked st lease.(el_slot_id);
              let summaries := run_summaries_locked st (option_list lease.(el_team_run_id)) in
              Some (Ok (mkEnqueueCommit intent_id lease.(el_team_run_id) disposition
                          slot_snapshot),
                    publish_run_summaries summaries (with_state st c))
          end
      end
  end.

Definition abort_enqueue (lease : EnqueueLease) c : CommitResult * Coordinator P :=
  let st := c.(co_state) in
  match st.(cs_enqueue_leases) !! lease.(el_lease_id) with
  | None => (StaleOwner, c)
  | Some record =>
      let st := set_cs_leases (delete lease.(el_lease_id) st.(cs_enqueue_leases)) st in
      if bool_decide (record.(er_lease) ≠ lease) ||
         bool_decide (lease.(el_session_generation) ≠ c.(co_session_generation))
      then (StaleOwner,
            with_state (set_cs_leases (<[record.(er_lease).(el_lease_id) := record]>
                                         st.(cs_enqueue_leases)) st) c)
      else
        let remove_empty_run := match lease.(el_team_run_id) with
          | Some team_run_id =>
              negb (existsb (λ i, in_run team_run_id i.(wi_team_run_id))
                      (hash_values st.(cs_intents))) &&
              negb (existsb (λ r, in_run team_run_id r.(er_lease).(el_team_run_id))
                      (hash_values st.(cs_enqueue_leases)))
          | None => false
          end in
        let summaries := run_summaries_locked st (option_list lease.(el_team_run_id)) in
        let c := with_state st c in
        let c := if remove_empty_run
                 then with_port (abort_binding record.(er_binding) c.(co_run_causality)) c
                 else c in
        (Committed, publish_run_summaries summaries c)
  end.

(** ** Mailbox reconciliation *)

(** One turn of the loop over the queued intents of the slot. *)
Definition reconcile_candidate (unread : gset string)
    (acc : CoordinatorState * list string * list string) (intent_id : string) :
    CoordinatorState * list string * list string :=
  let '(st, retained, cleared) := acc in
  match st.(cs_intents) !! intent_id with
  | None => acc
  | Some intent =>
      match intent.(wi_mailbox_message_id) with
      | None => (st, retained ++ [intent_id], cleared)
      | Some message_id =>
          if bool_decide (message_id ∈ unread)
          then (st, retained ++ [intent_id], cleared)
          else (set_intent_state IntentCompleted intent_id st, retained,
                cleared ++ [intent_id])
      end
  end.

Definition owns_message (slot_id message_id : string) (intent : WorkIntent) : bool :=
  bool_decide (intent.(wi_slot_id) = slot_id) &&
  bool_decide (intent.(wi_mailbox_message_id) = Some message_id) &&
  negb (is_terminal intent.(wi_state)).

Definition recovery_intent (intent_id session_generation slot_id : string)
    (role : TeamRunTargetRole) (message_id : string) : WorkIntent :=
  mkWorkIntent intent_id session_generation slot_id role RecoveryDrain Background
    (Some message_id) None now_ms IntentQueued.

(** One turn of the loop over the unread messages. *)
Definition reconcile_message (session_generation slot_id : string)
    (role : TeamRunTargetRole) (acc : CoordinatorState * list string)
    (message_id : string) : option (CoordinatorState * list string) :=
  let '(st, created) := acc in
  if existsb (owns_message slot_id message_id) (hash_values st.(cs_intents))
  then Some acc
  else
    let intent_id := gen_id (length created) in
    let st := set_cs_intents
      (<[intent_id := recovery_intent intent_id session_generation slot_id role message_id]>
         st.(cs_intents)) st in
    slot ← st.(cs_slots) !! slot_id;
    Some (put_slot slot_id (push_back Background intent_id slot) st,
          created ++ [intent_id]).

Definition reconcile_mailbox (slot_id : string) (unread_message_ids : list string)
    (role : TeamRunTargetRole) c : option (ReconcileProjection * Coordinator P) :=
  let unread := list_to_set unread_message_ids : gset string in
  let slot := set_sl_known_unread unread
                (set_sl_role role (slot_entry slot_id role c.(co_state))) in
  let st := put_slot slot_id slot c.(co_state) in
  let '(st, retained, cleared) :=
    foldl (reconcile_candidate unread) (st, [], []) (queued_ids slot) in
  let st := alter_slot slot_id (λ slot, foldl (λ s id, remove_queued id s) slot cleared) st in
  '(st, created) ← for_each (reconcile_message c.(co_session_generation) slot_id role)
                     (st, []) unread_message_ids;
  Some (mkReconcileProjection created retained cleared, with_state st c).

(** ** Claiming a batch *)

Definition has_message st (intent_id : string) : bool :=
  match st.(cs_intents) !! intent_id with
  | Some intent => bool_decide (is_Some intent.(wi_mailbox_message_id))
  | None => false
  end.

Definition selected_priority (slot : SlotState) : option WorkPriority :=
  List.find (λ p, bool_decide (slot_queue p slot ≠ [])) [Foreground; Control; Background].

(** One turn of the loop that marks the claimed intents. *)
Definition claim_intent (batch_id : string) (operation_id : Z)
    (acc : CoordinatorState * (list string * list string)) (intent_id : string) :
    option (CoordinatorState * (list string * list string)) :=
  let '(st, (mailbox_message_ids, team_run_ids)) := acc in
  intent ← st.(cs_intents) !! intent_id;
  Some (set_intent_state (IntentStarting batch_id operation_id) intent_id st,
        (mailbox_message_ids ++ option_list intent.(wi_mailbox_message_id),
         match intent.(wi_team_run_id) with
         | Some team_run_id =>
             if bool_decide (team_run_id ∈ team_run_ids) then team_run_ids
             else team_run_ids ++ [team_run_id]
         | None => team_run_ids
         end)).

(** The part of [next] after a batch has been selected. *)
Definition claim_batch (slot_id : string) (priority : WorkPriority)
    (message_intent_ids : list string) c : option (ReconcileDecision * Coordinator P) :=
  let operation_id := saturating_add_u64 c.(co_state).(cs_next_operation_id) 1 in
  let st := set_cs_next_operation_id operation_id c.(co_state) in
  let batch_id := gen_id 0 in
  '(st, (mailbox_message_ids, team_run_ids)) ←
    for_each (claim_intent batch_id operation_id) (st, ([], [])) message_intent_ids;
  let batch := mkWorkBatch batch_id c.(co_session_generation) slot_id message_intent_ids
                 mailbox_message_ids priority team_run_ids operation_id in
  slot ← st.(cs_slots) !! slot_id;
  let slot := foldl (λ s id, remove_queued id s) slot message_intent_ids in
  let slot := set_sl_active (Some (mkActiveBatch batch None None)) slot in
  let st := put_slot slot_id slot st in
  Some (Claim batch,
        publish_run_summaries (run_summaries_locked st team_run_ids) (with_state st c)).

Definition next (slot_id : string) c : option (ReconcileDecision * Coordinator P) :=
  match c.(co_state).(cs_slots) !! slot_id with
  | None => Some (Quiescent, c)
  | Some slot =>
      if bool_decide (is_Some slot.(sl_active)) then Some (WaitingForCompletion, c)
      else if negb (is_ready slot.(sl_runtime_constraint))
      then Some (Blocked slot.(sl_runtime_constraint), c)
      else if slot.(sl_paused) then Some (Quiescent, c)
      else match selected_priority slot with
      | None => Some (Quiescent, c)
      | Some priority =>
          let queued_ids := slot_queue priority slot in
          let message_intent_ids := filter (has_message c.(co_state)) queued_ids in
          if bool_decide (message_intent_ids = []) then Some (SettleSignals queued_ids, c)
          else claim_batch slot_id priority message_intent_ids c
      end
  end.

(** ** The life of a claimed batch *)

Definition mark_active_started (turn_id : string) (slot : SlotState) : SlotState :=
  set_sl_active
    ((λ a, mkActiveBatch a.(ab_batch) (Some turn_id) (Some now_ms)) <$> slot.(sl_active)) slot.

Definition mark_started (batch : WorkBatch) (turn_id : string) c :
    StartCommitResult * Coordinator P :=
  let st := c.(co_state) in
  if negb (is_current_batch c.(co_session_generation) st batch) then
    let was_cancelled := forallb (λ id,
      match st.(cs_intents) !! id with
      | Some intent => is_cancelled intent.(wi_state)
      | None => false
      end) batch.(wb_intent_ids) in
    if was_cancelled then (CancelImmediately, c) else (StartStaleOwner, c)
  else
    let cancel_immediately := match st.(cs_slots) !! batch.(wb_slot_id) with
      | Some slot => slot.(sl_paused) || negb (is_ready slot.(sl_runtime_constraint))
      | None => false
      end in
    let st := set_intent_states
      (IntentRunning batch.(wb_batch_id) batch.(wb_operation_id) turn_id)
      batch.(wb_intent_ids) st in
    let st := alter_slot batch.(wb_slot_id) (mark_active_started turn_id) st in
    let c := publish_run_summaries (run_summaries_locked st batch.(wb_team_run_ids))
               (with_state st c) in
    (if cancel_immediately then CancelImmediately else StartAccepted, c).

Definition retry_start (batch : WorkBatch) c : option (CommitResult * Coordinator P) :=
  if negb (is_current_batch c.(co_session_generation) c.(co_state) batch)
  then Some (StaleOwner, c)
  else
    let st := set_intent_states IntentQueued batch.(wb_intent_ids) c.(co_state) in
    slot ← st.(cs_slots) !! batch.(wb_slot_id);
    let slot := set_sl_active None slot in
    let slot := foldl (λ s id, push_front batch.(wb_highest_priority) id s) slot
                  (reverse batch.(wb_intent_ids)) in
    let st := put_slot batch.(wb_slot_id) slot st in
    Some (Committed,
          publish_run_summaries (run_summaries_locked st batch.(wb_team_run_ids))
            (with_state st c)).

Definition terminalize_batch (batch : WorkBatch) (terminal_state : WorkIntentState) c :
    option (CommitResult * Coordinator P) :=
  if negb (is_current_batch c.(co_session_generation) c.(co_state) batch)
  then Some (StaleOwner, c)
  else
    let st := set_intent_states terminal_state batch.(wb_intent_ids) c.(co_state) in
    slot ← st.(cs_slots) !! batch.(wb_slot_id);
    let st := put_slot batch.(wb_slot_id) (set_sl_active None slot) st in
    Some (Committed,
          publish_run_summaries (run_summaries_locked st batch.(wb_team_run_ids))
            (with_state st c)).

Definition complete_batch (batch : WorkBatch) c :=
  terminalize_batch batch IntentCompleted c.
Definition fail_batch (batch : WorkBatch) (classification : string) c :=
  terminalize_batch batch (IntentFailed classification) c.
Definition cancel_batch (batch : WorkBatch) (classification : string) c :=
  terminalize_batch batch (IntentCancelled classification) c.

(** ** Cancelling a run *)

Definition active_in_run st (team_run_id : string) (active : ActiveBatch) : bool :=
  existsb (λ id, match st.(cs_intents) !! id with
                 | Some intent => in_run team_run_id intent.(wi_team_run_id)
                 | None => false
                 end) active.(ab_batch).(wb_intent_ids).

(** One turn of the loop over the intents of an active batch: the run's own are
    cancelled, the others go back to the queues. *)
Definition cancel_run_intent (team_run_id : string)
    (acc : CoordinatorState * (list string * list (WorkPriority * string)))
    (intent_id : string) :
    option (CoordinatorState * (list string * list (WorkPriority * string))) :=
  let '(st, (terminal_message_ids, retained)) := acc in
  intent ← st.(cs_intents) !! intent_id;
  if in_run team_run_id intent.(wi_team_run_id)
  then Some (set_intent_state (IntentCancelled "run_cancelled") intent_id st,
             (terminal_message_ids ++ option_list intent.(wi_mailbox_message_id), retained))
  else Some (set_intent_state IntentQueued intent_id st,
             (terminal_message_ids, retained ++ [(intent.(wi_priority), intent_id)])).

Definition cancel_run_slot (team_run_id : string)
    (acc : CoordinatorState * (list BatchCancelTarget * list string))
    (entry : string * ActiveBatch) :
    option (CoordinatorState * (list BatchCancelTarget * list string)) :=
  let '(st, (cancel_targets, terminal_message_ids)) := acc in
  let '(slot_id, active) := entry in
  '(st, (terminal_message_ids, retained)) ←
    for_each (cancel_run_intent team_run_id) (st, (terminal_message_ids, []))
      active.(ab_batch).(wb_intent_ids);
  slot ← st.(cs_slots) !! slot_id;
  let slot := foldl (λ s e, push_front e.1 e.2 s) (set_sl_active None slot)
                (reverse retained) in
  Some (put_slot slot_id slot st,
        (cancel_targets ++ [mkBatchCancelTarget active.(ab_batch) active.(ab_turn_id)],
         terminal_message_ids)).

Definition cancel_queued_intent (acc : CoordinatorState * list string)
    (intent_id : string) : option (CoordinatorState * list string) :=
  let '(st, terminal_message_ids) := acc in
  intent ← st.(cs_intents) !! intent_id;
  let st := set_intent_state (IntentCancelled "run_cancelled") intent_id st in
  Some (alter_slot intent.(wi_slot_id) (remove_queued intent_id) st,
        terminal_message_ids ++ option_list intent.(wi_mailbox_message_id)).

Definition cancel_run_active_slots st (team_run_id : string) : list (string * ActiveBatch) :=
  omap (λ e, active ← e.2.(sl_active);
             if active_in_run st team_run_id active then Some (e.1, active) else None)
    (btree_iter st.(cs_slots)).

Definition cancel_run (team_run_id : string) c :
    option (CancelRunWorkResult * Coordinator P) :=
  let st := c.(co_state) in
  '(st, (cancel_targets, terminal_message_ids)) ←
    for_each (cancel_run_slot team_run_id) (st, ([], []))
      (cancel_run_active_slots st team_run_id);
  let queued_ids := wi_intent_id <$>
    filter (λ i, in_run team_run_id i.(wi_team_run_id) && is_queued i.(wi_state))
      (hash_values st.(cs_intents)) in
  '(st, terminal_message_ids) ←
    for_each cancel_queued_intent (st, terminal_message_ids) queued_ids;
  let lease_ids := (λ r, r.(er_lease).(el_lease_id)) <$>
    filter (λ r, in_run team_run_id r.(er_lease).(el_team_run_id))
      (hash_values st.(cs_enqueue_leases)) in
  let st := set_cs_leases (foldl (λ m id, delete id m) st.(cs_enqueue_leases) lease_ids) st in
  let summary := run_summary_locked st team_run_id in
  Some (mkCancelRunWorkResult cancel_targets terminal_message_ids summary,
        publish_run_summaries [summary] (with_state st c)).

(** ** Signals, pausing, runtime constraints *)

Definition is_queued_signal st (slot_id intent_id : string) : bool :=
  match st.(cs_intents) !! intent_id with
  | Some intent =>
      bool_decide (intent.(wi_slot_id) = slot_id) &&
      bool_decide (intent.(wi_mailbox_message_id) = None) &&
      is_queued intent.(wi_state)
  | None => false
  end.

Definition complete_signals (slot_id : string) (intent_ids : list string) c :
    CommitResult * Coordinator P :=
  let st := c.(co_state) in
  if negb (forallb (is_queued_signal st slot_id) intent_ids) then (Rejected, c)
  else
    let run_ids := omap (λ id, st.(cs_intents) !! id ≫= wi_team_run_id) intent_ids in
    let st := foldl (λ st id, alter_slot slot_id (remove_queued id)
                                (set_intent_state IntentCompleted id st)) st intent_ids in
    (Committed, publish_run_summaries (run_summaries_locked st run_ids) (with_state st c)).

Definition cancel_target (slot : SlotState) : option BatchCancelTarget :=
  (λ a, mkBatchCancelTarget a.(ab_batch) a.(ab_turn_id)) <$> slot.(sl_active).

Definition pause_slot (slot_id : string) c : option (PauseWorkResult * Coordinator P) :=
  let slot := set_sl_paused true (slot_entry slot_id Teammate c.(co_state)) in
  let st := put_slot slot_id slot c.(co_state) in
  snapshot ← slot_snapshot_locked st slot_id;
  Some (mkPauseWorkResult (cancel_target slot) snapshot, with_state st c).

(** What [Failed] and [SessionStopped] do to the intents of a slot: [None] for the
    other constraints. *)
Definition constraint_terminal_state (constraint : RuntimeConstraint) :
    option WorkIntentState :=
  match constraint with
  | Failed _ classification => Some (IntentFailed classification)
  | SessionStopped => Some (IntentCancelled "session_stopped")
  | Ready | Starting _ | Removing _ => None
  end.

Definition is_session_stopped (constraint : RuntimeConstraint) : bool :=
  match constraint with SessionStopped => true | _ => false end.

(** One turn of the loop over the live intents of the slot; the accumulator is the
    state, [requeue_background], [terminal_message_ids] and [affected_run_ids]. *)
Definition constrain_intent (constraint : RuntimeConstraint) (terminal : WorkIntentState)
    (acc : CoordinatorState * (list (WorkPriority * string) * list string * list string))
    (intent_id : string) :
    option (CoordinatorState * (list (WorkPriority * string) * list string * list string)) :=
  let '(st, (requeue, messages, runs)) := acc in
  intent ← st.(cs_intents) !! intent_id;
  if bool_decide (intent.(wi_team_run_id) = None) && negb (is_session_stopped constraint)
  then Some (set_intent_state IntentQueued intent_id st,
             (requeue ++ [(intent.(wi_priority), intent_id)], messages, runs))
  else Some (set_intent_state terminal intent_id st,
             (requeue, messages ++ option_list intent.(wi_mailbox_message_id),
              runs ++ option_list intent.(wi_team_run_id))).

Definition live_intents_of st (slot_id : string) : list string :=
  wi_intent_id <$>
    filter (λ i, bool_decide (i.(wi_slot_id) = slot_id) && negb (is_terminal i.(wi_state)))
      (hash_values st.(cs_intents)).

Definition set_runtime_constraint (slot_id : string) (constraint : RuntimeConstraint) c :
    option (RuntimeConstraintUpdate * Coordinator P) :=
  let slot := set_sl_runtime_constraint constraint
                (slot_entry slot_id Teammate c.(co_state)) in
  let st := put_slot slot_id slot c.(co_state) in
  '(st, messages, runs) ←
    match constraint_terminal_state constraint with
    | None => Some (st, [], [])
    | Some terminal =>
        '(st, (requeue, messages, runs)) ←
          for_each (constrain_intent constraint terminal) (st, ([], [], []))
            (live_intents_of st slot_id);
        slot ← st.(cs_slots) !! slot_id;
        let slot := set_sl_active None (clear_queues slot) in
        let slot := foldl (λ s e, push_back e.1 e.2 s) slot requeue in
        Some (put_slot slot_id slot st, messages, runs)
    end;
  let summaries := run_summaries_locked st runs in
  snapshot ← slot_snapshot_locked st slot_id;
  Some (mkRuntimeConstraintUpdate snapshot messages summaries,
        publish_run_summaries summaries (with_state st c)).

(** ** Removal, shutdown, snapshots *)

(** The key of [sort_by_key(|intent| (intent.created_at_ms, intent.intent_id))] *)
Definition intent_key_le (i j : WorkIntent) : Prop :=
  (i.(wi_created_at_ms) < j.(wi_created_at_ms))%Z ∨
  (i.(wi_created_at_ms) = j.(wi_created_at_ms) ∧ String.le i.(wi_intent_id) j.(wi_intent_id)).

#[global] Instance intent_key_le_dec : RelDecision intent_key_le.
Proof. unfold intent_key_le. intros i j. apply _. Defined.

Definition slot_removed_intent (acc : CoordinatorState * (list string * list string))
    (intent_id : string) : option (CoordinatorState * (list string * list string)) :=
  let '(st, (messages, runs)) := acc in
  intent ← st.(cs_intents) !! intent_id;
  Some (set_intent_state (IntentCancelled "slot_removed") intent_id st,
        (messages ++ option_list intent.(wi_mailbox_message_id),
         runs ++ option_list intent.(wi_team_run_id))).

(** The intents [remove_slot] cancels: the active batch, the queues, and then any
    other live intent of the slot, by age. *)
Definition removal_order st (slot_id : string) : list string :=
  let ordered := match st.(cs_slots) !! slot_id with
    | Some slot =>
        from_option (λ a, a.(ab_batch).(wb_intent_ids)) [] slot.(sl_active) ++ queued_ids slot
    | None => []
    end in
  let remaining := filter (λ i, bool_decide (i.(wi_slot_id) = slot_id) &&
                                negb (is_terminal i.(wi_state)) &&
                                bool_decide (i.(wi_intent_id) ∉ ordered))
                     (hash_values st.(cs_intents)) in
  ordered ++ (wi_intent_id <$> merge_sort intent_key_le remaining).

Definition remove_slot (slot_id : string) c : option (RemoveWorkResult * Coordinator P) :=
  let st := c.(co_state) in
  let target := st.(cs_slots) !! slot_id ≫= cancel_target in
  '(st, (messages, runs)) ←
    for_each slot_removed_intent (st, ([], [])) (removal_order st slot_id);
  let st := alter_slot slot_id
    (λ slot, set_sl_removed true (set_sl_active None (clear_queues slot))) st in
  let summaries := run_summaries_locked st runs in
  Some (mkRemoveWorkResult target messages summaries,
        publish_run_summaries summaries (with_state st c)).

Definition stop_intent (i : WorkIntent) : WorkIntent :=
  if is_terminal i.(wi_state) then i
  else set_wi_state (IntentCancelled "session_stopped") i.

Definition stop_slot (slot : SlotState) : SlotState :=
  set_sl_runtime_constraint SessionStopped (set_sl_active None (clear_queues slot)).

Definition stop c : list RunWorkSummary * Coordinator P :=
  let st := c.(co_state) in
  let run_ids := all_run_ids st in
  let st := mkCoordinatorState (stop_slot <$> st.(cs_slots)) (stop_intent <$> st.(cs_intents))
              ∅ st.(cs_next_operation_id) in
  let summaries := run_summary_locked st <$> run_ids in
  (summaries, publish_run_summaries summaries (with_state st c)).

Definition slot_snapshot (slot_id : string) c : option SlotWorkSnapshot :=
  slot_snapshot_locked c.(co_state) slot_id.

Definition has_work (s : RunWorkSummary) : bool :=
  (0 <? s.(rs_queued_intent_count)) || (0 <? s.(rs_starting_batch_count)) ||
  (0 <? s.(rs_running_batch_count)) || (0 <? s.(rs_active_enqueue_lease_count)) ||
  (0 <? s.(rs_paused_intent_count)).

Definition snapshot c : CoordinatorSnapshot :=
  let st := c.(co_state) in
  mkCoordinatorSnapshot c.(co_session_generation)
    (omap (slot_snapshot_locked st) (btree_keys st.(cs_slots)))
    (List.find has_work (run_summary_locked st <$> all_run_ids st)).
End coordinator.
