(* ===== verification/TeamRun.v ===== *)
(** * Team runs

    Models [TeamRunManager] of [crates/aionui-team/src/team_run/manager.rs], the
    implementation behind the coordinator's [RunCausalityPort], and the payloads of
    [aionui-api-types/src/team.rs] it broadcasts.  The event emitter is the list of
    the events broadcast so far, oldest first. *)
From S2P Require Import Prelude WorkModel WorkState WorkCoordinator.

(** ** Payloads *)

Inductive TeamRunStatus :=
  | RunAccepted | RunRunning | RunCancelling | RunCompleted | RunCancelled | RunFailed.

#[global] Instance TeamRunStatus_eq_dec : EqDecision TeamRunStatus.
Proof. solve_decision. Defined.

Inductive TeamRunSource := SourceUserMessage.

#[global] Instance TeamRunSource_eq_dec : EqDecision TeamRunSource.
Proof. solve_decision. Defined.

Inductive TeamSlotWorkState :=
  | WorkIdle | WorkQueued | WorkStarting | WorkRunning | WorkPaused | WorkBlocked.

Inductive TeamSlotBlockedReason :=
  | ReasonRuntimeStarting | ReasonRuntimeFailed | ReasonRemoving | ReasonSessionStopped.

(** [tp] = [TeamSlotWorkPayload] *)
Record TeamSlotWorkPayload := mkTeamSlotWorkPayload {
  tp_slot_id : string;
  tp_role : TeamRunTargetRole;
  tp_state : TeamSlotWorkState;
  tp_queued_foreground_count : nat;
  tp_queued_background_count : nat;
  tp_active_turn_id : option string;
  tp_active_turn_started_at_ms : option Z;
  tp_active_turn_elapsed_ms : option Z;
  tp_active_turn_slow : option bool;
  tp_active_turn_slow_threshold_ms : option Z;
  tp_blocked_reason : option TeamSlotBlockedReason;
  tp_team_run_id : option string;
}.

(** [rn] = [TeamRunPayload] *)
Record TeamRunPayload := mkTeamRunPayload {
  rn_team_id : string;
  rn_team_run_id : string;
  rn_source : TeamRunSource;
  rn_has_user_intervention : bool;
  rn_target_slot_id : string;
  rn_target_role : TeamRunTargetRole;
  rn_status : TeamRunStatus;
  rn_queued_intent_count : nat;
  rn_starting_batch_count : nat;
  rn_running_batch_count : nat;
  rn_active_enqueue_lease_count : nat;
  rn_slot_work : list TeamSlotWorkPayload;
}.

Definition TEAM_RUN_ACCEPTED_EVENT : string := "team.runAccepted".
Definition TEAM_RUN_STARTED_EVENT : string := "team.runStarted".
Definition TEAM_RUN_UPDATED_EVENT : string := "team.runUpdated".
Definition TEAM_RUN_COMPLETED_EVENT : string := "team.runCompleted".
Definition TEAM_RUN_CANCELLED_EVENT : string := "team.runCancelled".
Definition TEAM_RUN_FAILED_EVENT : string := "team.runFailed".

Definition ACTIVE_TURN_SLOW_THRESHOLD_MS : Z := 10 * 60 * 1000.

(** ** The manager *)

(** [tr] = [TeamRunRecord] *)
Record TeamRunRecord := mkTeamRunRecord {
  tr_team_run_id : string;
  tr_source : TeamRunSource;
  tr_has_user_intervention : bool;
  tr_target_slot_id : string;
  tr_target_role : TeamRunTargetRole;
  tr_status : TeamRunStatus;
  tr_started_at_ms : option Z;
  tr_completed_at_ms : option Z;
  tr_cancel_reason : option string;
  tr_summary : option RunWorkSummary;
  tr_accepted_emitted : bool;
}.

Definition set_tr_intervention b r := mkTeamRunRecord r.(tr_team_run_id) r.(tr_source) b
  r.(tr_target_slot_id) r.(tr_target_role) r.(tr_status) r.(tr_started_at_ms)
  r.(tr_completed_at_ms) r.(tr_cancel_reason) r.(tr_summary) r.(tr_accepted_emitted).
Definition set_tr_progress status started completed r := mkTeamRunRecord r.(tr_team_run_id)
  r.(tr_source) r.(tr_has_user_intervention) r.(tr_target_slot_id) r.(tr_target_role)
  status started completed r.(tr_cancel_reason) r.(tr_summary) r.(tr_accepted_emitted).
Definition set_tr_cancel_reason reason r := mkTeamRunRecord r.(tr_team_run_id)
  r.(tr_source) r.(tr_has_user_intervention) r.(tr_target_slot_id) r.(tr_target_role)
  r.(tr_status) r.(tr_started_at_ms) r.(tr_completed_at_ms) reason r.(tr_summary)
  r.(tr_accepted_emitted).
Definition set_tr_summary s r := mkTeamRunRecord r.(tr_team_run_id) r.(tr_source)
  r.(tr_has_user_intervention) r.(tr_target_slot_id) r.(tr_target_role) r.(tr_status)
  r.(tr_started_at_ms) r.(tr_completed_at_ms) r.(tr_cancel_reason) s
  r.(tr_accepted_emitted).
Definition set_tr_accepted_emitted b r := mkTeamRunRecord r.(tr_team_run_id) r.(tr_source)
  r.(tr_has_user_intervention) r.(tr_target_slot_id) r.(tr_target_role) r.(tr_status)
  r.(tr_started_at_ms) r.(tr_completed_at_ms) r.(tr_cancel_reason) r.(tr_summary) b.

Definition status_active (s : TeamRunStatus) : bool :=
  match s with RunAccepted | RunRunning | RunCancelling => true | _ => false end.

(** [TeamRunRecord::is_active] *)
Definition run_is_active (r : TeamRunRecord) : bool := status_active r.(tr_status).

(** [tm] = [TeamRunManager] *)
Record TeamRunManager := mkTeamRunManager {
  tm_team_id : string;
  tm_events : list (string * TeamRunPayload);
  tm_state : option TeamRunRecord;
}.

Implicit Types m : TeamRunManager.

(** [TeamRunManager::new] *)
Definition new_manager (team_id : string) : TeamRunManager := mkTeamRunManager team_id [] None.

Definition set_tm_state o m : TeamRunManager := mkTeamRunManager m.(tm_team_id) m.(tm_events) o.

(** [TeamEventEmitter::broadcast_team_run] *)
Definition broadcast_team_run (event_name : string) (payload : TeamRunPayload) m :
    TeamRunManager :=
  mkTeamRunManager m.(tm_team_id) (m.(tm_events) ++ [(event_name, payload)]) m.(tm_state).

(** [state.as_mut().filter(|run| run.is_active())] *)
Definition active_run m : option TeamRunRecord :=
  run ← m.(tm_state); if run_is_active run then Some run else None.

Definition bind_user_enqueue (target_slot_id : string) (target_role : TeamRunTargetRole)
    (new_id : string) m : RunBinding * TeamRunManager :=
  match active_run m with
  | Some run =>
      (mkRunBinding (Some run.(tr_team_run_id)) false true,
       set_tm_state (Some (set_tr_intervention true run)) m)
  | None =>
      let run := mkTeamRunRecord new_id SourceUserMessage false target_slot_id target_role
                   RunAccepted None None None None false in
      (mkRunBinding (Some new_id) true false, set_tm_state (Some run) m)
  end.

Definition current_active_run_id m : option string := tr_team_run_id <$> active_run m.

Definition slot_work_state (p : SlotPhase) : TeamSlotWorkState :=
  match p with
  | PhaseIdle => WorkIdle | PhaseQueued => WorkQueued | PhaseStarting => WorkStarting
  | PhaseRunning => WorkRunning | PhasePaused => WorkPaused | PhaseBlocked => WorkBlocked
  end.

Definition blocked_reason (c : RuntimeConstraint) : option TeamSlotBlockedReason :=
  match c with
  | Ready => None
  | Starting _ => Some ReasonRuntimeStarting
  | Failed _ _ => Some ReasonRuntimeFailed
  | Removing _ => Some ReasonRemoving
  | SessionStopped => Some ReasonSessionStopped
  end.

Definition slot_payload (now : Z) (slot : SlotWorkSnapshot) : TeamSlotWorkPayload :=
  let elapsed := (λ started_at, Z.max (saturating_sub_i64 now started_at) 0)
                   <$> slot.(sn_active_turn_started_at_ms) in
  mkTeamSlotWorkPayload slot.(sn_slot_id) slot.(sn_role) (slot_work_state slot.(sn_state))
    slot.(sn_queued_foreground_count) slot.(sn_queued_background_count)
    slot.(sn_active_turn_id) slot.(sn_active_turn_started_at_ms) elapsed
    ((λ e, (ACTIVE_TURN_SLOW_THRESHOLD_MS <=? e)%Z) <$> elapsed)
    ((λ _, ACTIVE_TURN_SLOW_THRESHOLD_MS) <$> slot.(sn_active_turn_id))
    (blocked_reason slot.(sn_runtime_constraint)) slot.(sn_team_run_id).

Definition payload_locked (now : Z) (team_id : string) (run : TeamRunRecord)
    (summary : RunWorkSummary) : TeamRunPayload :=
  mkTeamRunPayload team_id run.(tr_team_run_id) run.(tr_source)
    run.(tr_has_user_intervention) run.(tr_target_slot_id) run.(tr_target_role)
    run.(tr_status) summary.(rs_queued_intent_count) summary.(rs_starting_batch_count)
    summary.(rs_running_batch_count) summary.(rs_active_enqueue_lease_count)
    (slot_payload now <$> summary.(rs_slots)).

Definition no_work (s : RunWorkSummary) : bool :=
  (s.(rs_queued_intent_count) =? 0) && (s.(rs_starting_batch_count) =? 0) &&
  (s.(rs_running_batch_count) =? 0) && (s.(rs_active_enqueue_lease_count) =? 0) &&
  (s.(rs_paused_intent_count) =? 0).

(** The status and the timestamps [apply_work_summary] gives the run. *)
Definition progress (now : Z) (summary : RunWorkSummary) (run : TeamRunRecord) : TeamRunRecord :=
  let previous_status := run.(tr_status) in
  if 0 <? summary.(rs_failed_intent_count)
  then set_tr_progress RunFailed run.(tr_started_at_ms) (Some now) run
  else if no_work summary
  then set_tr_progress
         (if decide (previous_status = RunCancelling) then RunCancelled else RunCompleted)
         run.(tr_started_at_ms) (Some now) run
  else if 0 <? summary.(rs_running_batch_count)
  then set_tr_progress RunRunning (Some (default now run.(tr_started_at_ms)))
         run.(tr_completed_at_ms) run
  else run.

(** The event name [apply_work_summary] picks, from the old and the new status. *)
Definition status_event (previous_status status : TeamRunStatus) : string :=
  match status with
  | RunFailed => if decide (previous_status = RunFailed)
                 then TEAM_RUN_UPDATED_EVENT else TEAM_RUN_FAILED_EVENT
  | RunCancelled => if decide (previous_status = RunCancelled)
                    then TEAM_RUN_UPDATED_EVENT else TEAM_RUN_CANCELLED_EVENT
  | RunCompleted => if decide (previous_status = RunCompleted)
                    then TEAM_RUN_UPDATED_EVENT else TEAM_RUN_COMPLETED_EVENT
  | RunRunning => if decide (previous_status = RunRunning)
                  then TEAM_RUN_UPDATED_EVENT else TEAM_RUN_STARTED_EVENT
  | _ => TEAM_RUN_UPDATED_EVENT
  end.

Definition manager_apply_work_summary (now : Z) (summary : RunWorkSummary) m :
    TeamRunManager :=
  match m.(tm_state) with
  | Some run =>
      if decide (run.(tr_team_run_id) = summary.(rs_team_run_id)) then
        let previous_status := run.(tr_status) in
        let run := progress now summary (set_tr_summary (Some summary) run) in
        let event_name := if negb run.(tr_accepted_emitted) then TEAM_RUN_ACCEPTED_EVENT
                          else status_event previous_status run.(tr_status) in
        let run := set_tr_accepted_emitted true run in
        broadcast_team_run event_name (payload_locked now m.(tm_team_id) run summary)
          (set_tm_state (Some run) m)
      else m
  | None => m
  end.

Definition begin_cancel (now : Z) (team_run_id : string) (reason : option string) m :
    result unit TeamError * TeamRunManager :=
  match active_run m with
  | Some run =>
      if decide (run.(tr_team_run_id) = team_run_id) then
        let run := set_tr_cancel_reason reason
          (set_tr_progress RunCancelling run.(tr_started_at_ms) run.(tr_completed_at_ms) run) in
        let m := set_tm_state (Some run) m in
        (Ok tt,
         match run.(tr_summary) with
         | Some summary => broadcast_team_run TEAM_RUN_UPDATED_EVENT
                             (payload_locked now m.(tm_team_id) run summary) m
         | None => m
         end)
      else (Err (InvalidRequest ("team run is not active: " +:+ team_run_id)), m)
  | None => (Err (InvalidRequest ("team run is not active: " +:+ team_run_id)), m)
  end.

Definition empty_summary (team_run_id : string) : RunWorkSummary :=
  mkRunWorkSummary team_run_id 0 0 0 0 0 0 [].

Definition current_payload (now : Z) (coordinator : CoordinatorSnapshot) m :
    option TeamRunPayload :=
  run ← m.(tm_state);
  let from_coordinator :=
    s ← coordinator.(cn_active_run_summary);
    if decide (s.(rs_team_run_id) = run.(tr_team_run_id)) then Some s else None in
  let summary := match run.(tr_summary) with
    | Some s => s
    | None => default (empty_summary run.(tr_team_run_id)) from_coordinator
    end in
  Some (payload_locked now m.(tm_team_id) run summary).

Definition publish_snapshot_update (now : Z) (coordinator : CoordinatorSnapshot) m :
    TeamRunManager :=
  match current_payload now coordinator m with
  | Some payload =>
      match payload.(rn_status) with
      | RunAccepted | RunRunning => broadcast_team_run TEAM_RUN_UPDATED_EVENT payload m
      | _ => m
      end
  | None => m
  end.

(** ** [impl RunCausalityPort for TeamRunManager] *)

Definition manager_bind_enqueue (request : EnqueueRequest) (new_id : string) m :
    RunBinding * TeamRunManager :=
  match request.(rq_binding) with
  | UserVisible => bind_user_enqueue request.(rq_slot_id) request.(rq_role) new_id m
  | ActiveRunOrBackground => (mkRunBinding (current_active_run_id m) false false, m)
  | InheritRunningBatch _ | BackgroundBinding => (mkRunBinding None false false, m)
  end.

Definition manager_abort_binding (binding : RunBinding) m : TeamRunManager :=
  match m.(tm_state) with
  | Some run => if decide (Some run.(tr_team_run_id) = binding.(rb_team_run_id))
                then set_tm_state None m else m
  | None => m
  end.

#[global] Instance manager_port : RunCausalityPort TeamRunManager := {
  bind_enqueue := manager_bind_enqueue;
  abort_binding := manager_abort_binding;
  apply_work_summary := manager_apply_work_summary;
}.
