(* ===== verification/WorkInvariant.v ===== *)
(** * The coordinator's well-formedness invariant

    [state_wf] relates the three places the coordinator keeps an intent in: the map
    of intents, the queues of the slots and the active batches.  This file states
    it and proves the local lemmas: what each kind of update of one slot, together
    with the state changes of its intents, does to the invariant. *)
From S2P Require Import Prelude WorkModel WorkState WorkCoordinator.

Implicit Types st : CoordinatorState.
Implicit Types m : gmap string WorkIntent.
Implicit Types s : SlotState.

(** ** Definitions *)

Definition inflight (t : WorkIntentState) : Prop :=
  match t with IntentStarting _ _ | IntentRunning _ _ _ => True | _ => False end.

(** The state of the intents of an active batch: starting until the turn is known. *)
Definition active_state (a : ActiveBatch) : WorkIntentState :=
  match a.(ab_turn_id) with
  | None => IntentStarting a.(ab_batch).(wb_batch_id) a.(ab_batch).(wb_operation_id)
  | Some turn_id =>
      IntentRunning a.(ab_batch).(wb_batch_id) a.(ab_batch).(wb_operation_id) turn_id
  end.

(** [k] is an intent of slot [sid] and priority [p], in state [t]. *)
Definition intent_at m (sid : string) (p : WorkPriority) (t : WorkIntentState)
    (k : string) : Prop :=
  ∃ i, m !! k = Some i ∧ i.(wi_slot_id) = sid ∧ i.(wi_priority) = p ∧ i.(wi_state) = t.

Record batch_wf (generation : string) m (sid : string) (a : ActiveBatch) : Prop := {
  bw_generation : a.(ab_batch).(wb_session_generation) = generation;
  bw_slot : a.(ab_batch).(wb_slot_id) = sid;
  bw_nodup : NoDup a.(ab_batch).(wb_intent_ids);
  bw_intents k : k ∈ a.(ab_batch).(wb_intent_ids) →
    intent_at m sid a.(ab_batch).(wb_highest_priority) (active_state a) k;
}.

(** What the intents [m] and the slot [s] named [sid] say of each other. *)
Record slot_wf (generation : string) m (sid : string) s : Prop := {
  sw_queue p k : k ∈ slot_queue p s ↔ intent_at m sid p IntentQueued k;
  sw_nodup p : NoDup (slot_queue p s);
  sw_inflight k i : m !! k = Some i → i.(wi_slot_id) = sid → inflight i.(wi_state) →
    ∃ a, s.(sl_active) = Some a ∧ k ∈ a.(ab_batch).(wb_intent_ids);
  sw_active a : s.(sl_active) = Some a → batch_wf generation m sid a;
}.

Record state_wf (generation : string) st : Prop := {
  wf_key k i : st.(cs_intents) !! k = Some i → i.(wi_intent_id) = k;
  wf_slot sid : slot_wf generation st.(cs_intents) sid (slot_entry sid Teammate st);
  wf_lease k r : st.(cs_enqueue_leases) !! k = Some r → r.(er_lease).(el_lease_id) = k;
  wf_op : (0 ≤ st.(cs_next_operation_id) ≤ u64_max)%Z;
}.

(** From one state of the intents to a later one: intents stay, only their states
    change, and a terminal state does not. *)
Definition evolves m m' : Prop :=
  ∀ k i, m !! k = Some i →
    ∃ t, m' !! k = Some (set_wi_state t i) ∧
         (is_terminal i.(wi_state) = true → t = i.(wi_state)).

Definition same_work s s' : Prop :=
  (∀ p, slot_queue p s' = slot_queue p s) ∧ s'.(sl_active) = s.(sl_active).

(** ** Intents *)

Lemma set_wi_state_id i : set_wi_state i.(wi_state) i = i.
Proof. by destruct i. Qed.

Lemma set_wi_state_twice t t' i : set_wi_state t (set_wi_state t' i) = set_wi_state t i.
Proof. done. Qed.

#[global] Instance evolves_preorder : PreOrder evolves.
Proof.
  split.
  - intros m k i Hk. exists i.(wi_state). by rewrite set_wi_state_id.
  - intros m1 m2 m3 H12 H23 k i Hk.
    destruct (H12 _ _ Hk) as (t & Ht & Hterm). destruct (H23 _ _ Ht) as (t' & Ht' & Hterm').
    exists t'. split; [done|]. intros Hi. specialize (Hterm Hi). subst t. by apply Hterm'.
Qed.

Lemma evolves_insert_fresh m k i : m !! k = None → evolves m (<[k := i]> m).
Proof.
  intros Hk k' i' Hk'. exists i'.(wi_state). rewrite set_wi_state_id.
  rewrite lookup_insert_ne; [done|]. congruence.
Qed.

(** The assignment of a state, computed from the intent, to every intent of a list:
    the final state of all the loops of the coordinator. *)
Definition assign_state (f : WorkIntent → WorkIntentState) (id : string) st :
    CoordinatorState :=
  set_cs_intents (alter (λ i, set_wi_state (f i) i) id st.(cs_intents)) st.

Definition assign_states (f : WorkIntent → WorkIntentState) (ids : list string) st :
    CoordinatorState :=
  foldl (λ st id, assign_state f id st) st ids.

(** [f] looks at the immutable fields only. *)
Definition stable (f : WorkIntent → WorkIntentState) : Prop :=
  ∀ t i, f (set_wi_state t i) = f i.

Lemma stable_const t : stable (λ _, t).
Proof. done. Qed.

Lemma set_intent_states_assign t ids st :
  set_intent_states t ids st = assign_states (λ _, t) ids st.
Proof. done. Qed.

Lemma assign_states_slots f ids st : (assign_states f ids st).(cs_slots) = st.(cs_slots).
Proof.
  unfold assign_states. revert st. induction ids as [|id ids IH]; intros st; simpl; [done|].
  by rewrite IH.
Qed.

Lemma assign_states_leases f ids st :
  (assign_states f ids st).(cs_enqueue_leases) = st.(cs_enqueue_leases).
Proof.
  unfold assign_states. revert st. induction ids as [|id ids IH]; intros st; simpl; [done|].
  by rewrite IH.
Qed.

Lemma assign_states_op f ids st :
  (assign_states f ids st).(cs_next_operation_id) = st.(cs_next_operation_id).
Proof.
  unfold assign_states. revert st. induction ids as [|id ids IH]; intros st; simpl; [done|].
  by rewrite IH.
Qed.

Lemma lookup_assign_states f ids st k :
  stable f →
  (assign_states f ids st).(cs_intents) !! k =
    if decide (k ∈ ids) then (λ i, set_wi_state (f i) i) <$> st.(cs_intents) !! k
    else st.(cs_intents) !! k.
Proof.
  intros Hf. unfold assign_states. revert st.
  induction ids as [|id ids IH]; intros st; cbn [foldl].
  { case_decide; [set_solver|done]. }
  rewrite IH. cbn [assign_state cs_intents set_cs_intents]. rewrite lookup_alter.
  repeat case_decide; simplify_eq; try set_solver.
  - destruct (st.(cs_intents) !! k); simpl; [|done]. by rewrite Hf.
Qed.

Lemma assign_states_app f ids1 ids2 st :
  assign_states f (ids1 ++ ids2) st = assign_states f ids2 (assign_states f ids1 st).
Proof. apply foldl_app. Qed.

Create HintDb work discriminated.
Create Rewrite HintDb work.
#[export] Hint Rewrite assign_states_slots assign_states_leases assign_states_op : work.
#[export] Hint Resolve stable_const : work.

(** Assigning states to live intents is an evolution. *)
Lemma evolves_assign_states f ids st :
  stable f →
  (∀ k i, k ∈ ids → st.(cs_intents) !! k = Some i → is_terminal i.(wi_state) = true →
          f i = i.(wi_state)) →
  evolves st.(cs_intents) (assign_states f ids st).(cs_intents).
Proof.
  intros Hf Hlive k i Hk. rewrite lookup_assign_states by done.
  case_decide as Hin.
  - exists (f i). rewrite Hk. split; [done|]. eauto.
  - exists i.(wi_state). by rewrite set_wi_state_id.
Qed.

(** ** Queues *)

Lemma slot_queue_update p q f s :
  slot_queue p (update_queue q f s) = if decide (q = p) then f (slot_queue p s) else slot_queue p s.
Proof. by destruct p. Qed.

Lemma slot_queue_push_front p q id s :
  slot_queue p (push_front q id s) =
    if decide (q = p) then id :: slot_queue p s else slot_queue p s.
Proof. apply slot_queue_update. Qed.

Lemma slot_queue_push_back p q id s :
  slot_queue p (push_back q id s) =
    if decide (q = p) then slot_queue p s ++ [id] else slot_queue p s.
Proof. apply slot_queue_update. Qed.

Lemma slot_queue_active p a s : slot_queue p (set_sl_active a s) = slot_queue p s.
Proof. by destruct p. Qed.

Lemma slot_queue_clear p s : slot_queue p (clear_queues s) = [].
Proof. by destruct p. Qed.

Lemma slot_queue_new p role : slot_queue p (new_slot role) = [].
Proof. by destruct p. Qed.

Lemma slot_queue_remove p id s :
  slot_queue p (remove_queued id s) = filter (λ k, k ≠ id) (slot_queue p s).
Proof. by destruct p. Qed.

Definition remove_all (ids : list string) s : SlotState :=
  foldl (λ s id, remove_queued id s) s ids.

Lemma slot_queue_remove_all p ids s :
  slot_queue p (remove_all ids s) = filter (λ k, k ∉ ids) (slot_queue p s).
Proof.
  unfold remove_all. revert s. induction ids as [|k ids IH]; intros s; cbn [foldl].
  - symmetry. apply list_filter_true. set_solver.
  - rewrite IH, slot_queue_remove, list_filter_filter. apply list_filter_iff. set_solver.
Qed.

Lemma elem_of_queue_remove_all p ids s k :
  k ∈ slot_queue p (remove_all ids s) ↔ k ∈ slot_queue p s ∧ k ∉ ids.
Proof. rewrite slot_queue_remove_all, list_elem_of_filter. set_solver. Qed.

Lemma NoDup_queue_remove_all p ids s :
  NoDup (slot_queue p s) → NoDup (slot_queue p (remove_all ids s)).
Proof. rewrite slot_queue_remove_all. apply NoDup_filter. Qed.

Lemma remove_all_active ids s : (remove_all ids s).(sl_active) = s.(sl_active).
Proof.
  unfold remove_all. revert s. induction ids as [|id ids IH]; intros s; cbn [foldl]; [done|].
  by rewrite IH.
Qed.

(** [push_front] of a list taken from its end: the list lands in order before the queue. *)
Definition requeue_front (l : list (WorkPriority * string)) s : SlotState :=
  foldl (λ s e, push_front e.1 e.2 s) s (reverse l).

Definition requeue_back (l : list (WorkPriority * string)) s : SlotState :=
  foldl (λ s e, push_back e.1 e.2 s) s l.

Definition of_priority (p : WorkPriority) (l : list (WorkPriority * string)) : list string :=
  (filter (λ e, e.1 = p) l).*2.

Lemma slot_queue_requeue_front p l s :
  slot_queue p (requeue_front l s) = of_priority p l ++ slot_queue p s.
Proof.
  unfold requeue_front. induction l as [|e l IH]; [done|].
  rewrite reverse_cons, foldl_app. cbn [foldl].
  rewrite slot_queue_push_front, IH. unfold of_priority. rewrite filter_cons. by case_decide.
Qed.

Lemma slot_queue_requeue_back p l s :
  slot_queue p (requeue_back l s) = slot_queue p s ++ of_priority p l.
Proof.
  unfold requeue_back. revert s. induction l as [|e l IH]; intros s; cbn [foldl].
  { by rewrite app_nil_r. }
  rewrite IH, slot_queue_push_back. unfold of_priority. rewrite filter_cons.
  case_decide; [|done]. by rewrite <- app_assoc.
Qed.

Lemma requeue_front_active l s : (requeue_front l s).(sl_active) = s.(sl_active).
Proof.
  unfold requeue_front. generalize (reverse l) as l'. intros l'. revert s.
  induction l' as [|e l' IH]; intros s; cbn [foldl]; [done|]. by rewrite IH.
Qed.

Lemma requeue_back_active l s : (requeue_back l s).(sl_active) = s.(sl_active).
Proof.
  unfold requeue_back. revert s.
  induction l as [|e l IH]; intros s; cbn [foldl]; [done|]. by rewrite IH.
Qed.

Lemma elem_of_of_priority p l k : k ∈ of_priority p l ↔ (p, k) ∈ l.
Proof.
  unfold of_priority. rewrite list_elem_of_fmap. split.
  - intros ([q k'] & -> & Hin). apply list_elem_of_filter in Hin as [??]. simpl in *. by subst.
  - intros Hin. exists (p, k). split; [done|]. by apply list_elem_of_filter.
Qed.

Lemma NoDup_of_priority p l : NoDup l.*2 → NoDup (of_priority p l).
Proof.
  unfold of_priority. intros Hl. eapply sublist_NoDup; [exact Hl|].
  apply fmap_sublist, sublist_filter.
Qed.

Lemma elem_of_queued_ids k s : k ∈ queued_ids s ↔ ∃ p, k ∈ slot_queue p s.
Proof.
  unfold queued_ids. rewrite !elem_of_app. split.
  - intros [?|[?|?]]; [by exists Foreground|by exists Control|by exists Background].
  - intros [[] ?]; simpl in *; auto.
Qed.

(** ** Local updates *)

Section local.
Context (generation : string).
Notation slot_wf := (slot_wf generation).
Notation batch_wf := (batch_wf generation).

Lemma intent_at_inv m sid p t k i :
  intent_at m sid p t k → m !! k = Some i →
  i.(wi_slot_id) = sid ∧ i.(wi_priority) = p ∧ i.(wi_state) = t.
Proof. intros (i' & ? & ?) ?. naive_solver. Qed.

(** The slot depends on its own intents only. *)
Lemma slot_wf_frame m m' sid s :
  (∀ k i, i.(wi_slot_id) = sid → m !! k = Some i ↔ m' !! k = Some i) →
  slot_wf m sid s → slot_wf m' sid s.
Proof.
  intros Hm [Hq Hn Hf Ha].
  assert (∀ p t k, intent_at m sid p t k ↔ intent_at m' sid p t k) as Hat.
  { intros p t k. split; intros (i & Hi & Hsid & ?); exists i; split; naive_solver. }
  split; [by intros p k; rewrite Hq, Hat|done| |].
  - intros k i Hk Hsid. apply Hf; [|done]. by apply Hm.
  - intros a Hact. destruct (Ha _ Hact) as [? ? ? Hids]. split; [done..|].
    intros k Hk. apply Hat. auto.
Qed.

Lemma slot_wf_same_work m sid s s' : same_work s s' → slot_wf m sid s → slot_wf m sid s'.
Proof.
  intros [Hqueue Hactive] [Hq Hn Hf Ha]. split.
  - intros p k. by rewrite Hqueue.
  - intros p. by rewrite Hqueue.
  - intros k i. rewrite Hactive. apply Hf.
  - intros a. rewrite Hactive. apply Ha.
Qed.

Lemma slot_wf_empty m sid s :
  (∀ p, slot_queue p s = []) → s.(sl_active) = None →
  (∀ k i, m !! k = Some i → i.(wi_slot_id) = sid → is_terminal i.(wi_state) = true) →
  slot_wf m sid s.
Proof.
  intros Hq Ha Hm. split.
  - intros p k. rewrite Hq. split; [set_solver|].
    intros (i & Hi & Hsid & _ & Ht). specialize (Hm _ _ Hi Hsid). by rewrite Ht in Hm.
  - intros p. rewrite Hq. constructor.
  - intros k i Hi Hsid Hin. specialize (Hm _ _ Hi Hsid). by destruct (wi_state i).
  - intros a. by rewrite Ha.
Qed.

(** An intent of the slot is queued, in the active batch, or terminal. *)
Lemma slot_wf_cases m sid s k i :
  slot_wf m sid s → m !! k = Some i → i.(wi_slot_id) = sid →
  k ∈ slot_queue i.(wi_priority) s ∧ i.(wi_state) = IntentQueued ∨
  (∃ a, s.(sl_active) = Some a ∧ k ∈ a.(ab_batch).(wb_intent_ids) ∧
        i.(wi_state) = active_state a) ∨
  is_terminal i.(wi_state) = true.
Proof.
  intros Hwf Hk Hsid. destruct i.(wi_state) eqn:Ht; auto.
  - left. split; [|done]. apply (sw_queue _ _ _ _ Hwf). by exists i.
  - right; left. destruct (sw_inflight _ _ _ _ Hwf k i) as (a & Ha & Hin); [done..|by rewrite Ht|].
    exists a. split; [done|]. split; [done|].
    apply (sw_active _ _ _ _ Hwf _ Ha) in Hin. apply (intent_at_inv _ _ _ _ _ _ Hin) in Hk
      as (_ & _ & ?). congruence.
  - right; left. destruct (sw_inflight _ _ _ _ Hwf k i) as (a & Ha & Hin); [done..|by rewrite Ht|].
    exists a. split; [done|]. split; [done|].
    apply (sw_active _ _ _ _ Hwf _ Ha) in Hin. apply (intent_at_inv _ _ _ _ _ _ Hin) in Hk
      as (_ & _ & ?). congruence.
Qed.

Lemma active_state_inflight a : inflight (active_state a).
Proof. unfold active_state. by destruct (ab_turn_id a). Qed.

Lemma active_state_not_queued a : active_state a ≠ IntentQueued.
Proof. unfold active_state. by destruct (ab_turn_id a). Qed.

(** A new intent joins the back of the queue of its priority. *)
Lemma slot_wf_enqueue m sid s k i :
  m !! k = None → i.(wi_slot_id) = sid → i.(wi_state) = IntentQueued →
  slot_wf m sid s → slot_wf (<[k := i]> m) sid (push_back i.(wi_priority) k s).
Proof.
  intros Hk Hsid Ht [Hq Hn Hf Ha].
  assert (∀ p, k ∉ slot_queue p s) as Hnew.
  { intros p Hin. apply Hq in Hin as (? & ? & _). congruence. }
  assert (∀ p t k', k' ≠ k → intent_at (<[k:=i]> m) sid p t k' ↔ intent_at m sid p t k') as Hat.
  { intros p t k' Hne. unfold intent_at. by rewrite lookup_insert_ne by done. }
  split.
  - intros p k'. rewrite slot_queue_push_back. destruct (decide (k' = k)) as [->|Hne].
    + unfold intent_at. rewrite lookup_insert_eq. case_decide; [set_solver|].
      split; [by intros []%Hnew|naive_solver].
    + rewrite Hat, <- Hq by done. case_decide; set_solver.
  - intros p. rewrite slot_queue_push_back. case_decide; [|done].
    apply NoDup_app. split; [done|]. split; [set_solver|apply NoDup_singleton].
  - intros k' i'. rewrite lookup_insert. case_decide; [|apply Hf].
    intros [= <-] _. by rewrite Ht.
  - intros a Hact. destruct (Ha _ Hact) as [? ? ? Hids]. split; [done..|].
    intros k' Hk'. specialize (Hids _ Hk'). apply Hat; [|done].
    destruct Hids as (? & ? & _). congruence.
Qed.

(** [m'] is [m] with the state [f i] for the intents [i] of a list. *)
Definition updated (f : WorkIntent → WorkIntentState) (ids : list string) m m' : Prop :=
  ∀ k, m' !! k = if decide (k ∈ ids) then (λ i, set_wi_state (f i) i) <$> m !! k else m !! k.

Lemma updated_in f ids m m' k i :
  updated f ids m m' → k ∈ ids → m !! k = Some i → m' !! k = Some (set_wi_state (f i) i).
Proof. intros Hu Hin Hk. by rewrite (Hu k), decide_True, Hk by done. Qed.

Lemma updated_notin f ids m m' k : updated f ids m m' → k ∉ ids → m' !! k = m !! k.
Proof. intros Hu Hin. by rewrite (Hu k), decide_False by done. Qed.

Lemma updated_inv f ids m m' k i' :
  updated f ids m m' → m' !! k = Some i' →
  k ∈ ids ∧ (∃ i, m !! k = Some i ∧ i' = set_wi_state (f i) i) ∨ k ∉ ids ∧ m !! k = Some i'.
Proof.
  intros Hu. rewrite (Hu k). case_decide; [|auto]. intros (i & -> & ?)%fmap_Some. eauto.
Qed.

Lemma intent_at_updated_in f ids m m' sid p t k :
  updated f ids m m' → k ∈ ids →
  intent_at m' sid p t k ↔
    ∃ i, m !! k = Some i ∧ i.(wi_slot_id) = sid ∧ i.(wi_priority) = p ∧ f i = t.
Proof.
  intros Hu Hin. unfold intent_at. split.
  - intros (i' & Hk & ?). destruct (updated_inv _ _ _ _ _ _ Hu Hk) as [(_ & i & ? & ->)|[]]; [|done].
    by exists i.
  - intros (i & Hk & ?). exists (set_wi_state (f i) i). by rewrite (updated_in _ _ _ _ _ _ Hu Hin Hk).
Qed.

Lemma intent_at_updated_notin f ids m m' sid p t k :
  updated f ids m m' → k ∉ ids → intent_at m' sid p t k ↔ intent_at m sid p t k.
Proof. intros Hu Hin. unfold intent_at. by rewrite (updated_notin _ _ _ _ _ Hu Hin). Qed.

(** Queued intents become terminal and leave the queues. *)
Lemma slot_wf_retire f ids m m' sid s :
  (∀ k i, k ∈ ids → m !! k = Some i →
     i.(wi_slot_id) = sid ∧ i.(wi_state) = IntentQueued ∧ is_terminal (f i) = true) →
  updated f ids m m' → slot_wf m sid s → slot_wf m' sid (remove_all ids s).
Proof.
  intros Hids Hu [Hq Hn Hf Ha]. split.
  - intros p k. rewrite elem_of_queue_remove_all, Hq.
    destruct (decide (k ∈ ids)) as [Hin|Hin].
    + rewrite (intent_at_updated_in _ _ _ _ _ _ _ _ Hu Hin). split; [naive_solver|].
      intros (i & Hi & _ & _ & Hfi). apply Hids in Hi as (_ & _ & Ht); [|done].
      by rewrite Hfi in Ht.
    + rewrite (intent_at_updated_notin _ _ _ _ _ _ _ _ Hu Hin). naive_solver.
  - intros p. by apply NoDup_queue_remove_all.
  - intros k i' Hk Hsid Hin. rewrite remove_all_active.
    destruct (updated_inv _ _ _ _ _ _ Hu Hk) as [(Hki & i & Hi & ->)|[_ Hi]]; [|eauto].
    apply Hids in Hi as (_ & _ & Ht); [|done]. simpl in Hin. by destruct (f i).
  - intros a Hact. rewrite remove_all_active in Hact.
    destruct (Ha _ Hact) as [? ? ? Hbatch]. split; [done..|].
    intros k Hk. specialize (Hbatch _ Hk). destruct (decide (k ∈ ids)) as [Hin|Hin].
    + destruct Hbatch as (i & Hi & _ & _ & Ht). apply Hids in Hi as (_ & Hq' & _); [|done].
      rewrite Hq' in Ht. by destruct (active_state_not_queued a).
    + by rewrite (intent_at_updated_notin _ _ _ _ _ _ _ _ Hu Hin).
Qed.

(** Queued intents of one priority are claimed by a batch. *)
Lemma slot_wf_claim f ids m m' sid s a :
  s.(sl_active) = None →
  a.(ab_batch).(wb_session_generation) = generation →
  a.(ab_batch).(wb_slot_id) = sid →
  a.(ab_batch).(wb_intent_ids) = ids →
  NoDup ids →
  (∀ k, k ∈ ids → k ∈ slot_queue a.(ab_batch).(wb_highest_priority) s) →
  (∀ i, f i = active_state a) →
  updated f ids m m' → slot_wf m sid s →
  slot_wf m' sid (set_sl_active (Some a) (remove_all ids s)).
Proof.
  intros Hnone Hgen Hslot Hbids Hnd Hids Hfa Hu [Hq Hn Hf Ha]. split.
  - intros p k. rewrite slot_queue_active, elem_of_queue_remove_all, Hq.
    destruct (decide (k ∈ ids)) as [Hin|Hin].
    + rewrite (intent_at_updated_in _ _ _ _ _ _ _ _ Hu Hin). split; [naive_solver|].
      intros (i & _ & _ & _ & Hfi). rewrite Hfa in Hfi. by destruct (active_state_not_queued a).
    + rewrite (intent_at_updated_notin _ _ _ _ _ _ _ _ Hu Hin). naive_solver.
  - intros p. rewrite slot_queue_active. by apply NoDup_queue_remove_all.
  - intros k i' Hk Hsid Hin. exists a. split; [done|]. rewrite Hbids.
    destruct (updated_inv _ _ _ _ _ _ Hu Hk) as [(? & _)|[_ Hi]]; [done|].
    destruct (Hf _ _ Hi Hsid Hin) as (? & ? & _). congruence.
  - intros a' [= <-]. split; [done..|by rewrite Hbids|].
    rewrite Hbids. intros k Hk. rewrite (intent_at_updated_in _ _ _ _ _ _ _ _ Hu Hk).
    destruct (proj1 (Hq _ _) (Hids _ Hk)) as (i & ? & ? & ? & _). exists i. by rewrite Hfa.
Qed.

(** The active batch gets its turn. *)
Lemma slot_wf_start f m m' sid s a a' :
  s.(sl_active) = Some a → a'.(ab_batch) = a.(ab_batch) →
  (∀ i, f i = active_state a') →
  updated f a.(ab_batch).(wb_intent_ids) m m' → slot_wf m sid s →
  slot_wf m' sid (set_sl_active (Some a') s).
Proof.
  intros Hact Hbatch Hfa Hu [Hq Hn Hf Ha]. destruct (Ha _ Hact) as [Hg Hs Hnd Hids]. split.
  - intros p k. rewrite slot_queue_active, Hq.
    destruct (decide (k ∈ a.(ab_batch).(wb_intent_ids))) as [Hin|Hin].
    + rewrite (intent_at_updated_in _ _ _ _ _ _ _ _ Hu Hin).
      split; intros (i & Hi & Hsid & Hp & Hst).
      * apply (intent_at_inv _ _ _ _ _ _ (Hids _ Hin)) in Hi as (_ & _ & Hi).
        rewrite Hst in Hi. by destruct (active_state_not_queued a).
      * rewrite Hfa in Hst. by destruct (active_state_not_queued a').
    + by rewrite (intent_at_updated_notin _ _ _ _ _ _ _ _ Hu Hin).
  - intros p. by rewrite slot_queue_active.
  - intros k i' Hk Hsid Hin. exists a'. split; [done|]. rewrite Hbatch.
    destruct (updated_inv _ _ _ _ _ _ Hu Hk) as [(? & _)|[_ Hi]]; [done|].
    destruct (Hf _ _ Hi Hsid Hin) as (? & ? & ?). congruence.
  - intros ? [= <-]. split; rewrite Hbatch; [done..|].
    intros k Hk. rewrite (intent_at_updated_in _ _ _ _ _ _ _ _ Hu Hk).
    destruct (Hids _ Hk) as (i & ? & ? & ? & _). exists i. by rewrite Hfa.
Qed.

(** What a loop puts back in the queues: the intents that [f] makes queued again. *)
Definition retained (f : WorkIntent → WorkIntentState) m (ids : list string) :
    list (WorkPriority * string) :=
  omap (λ k, i ← m !! k; if is_queued (f i) then Some (i.(wi_priority), k) else None) ids.

Lemma elem_of_retained f m ids p k :
  (p, k) ∈ retained f m ids ↔
    k ∈ ids ∧ ∃ i, m !! k = Some i ∧ i.(wi_priority) = p ∧ f i = IntentQueued.
Proof.
  unfold retained. rewrite list_elem_of_omap. split.
  - intros (k' & Hk' & Hf). destruct (m !! k') as [i|] eqn:Hi; [|done]. simpl in Hf.
    destruct (f i) eqn:Hfi; simplify_eq/=. split; [done|]. by exists i.
  - intros (Hk & i & Hi & <- & Hf). exists k. split; [done|]. rewrite Hi. simpl. by rewrite Hf.
Qed.

Lemma NoDup_retained f m ids : NoDup ids → NoDup (retained f m ids).*2.
Proof.
  induction 1 as [|k ids Hk _ IH]; [constructor|]. simpl.
  destruct (m !! k) as [i|]; simpl; [|done]. destruct (is_queued (f i)); simpl; [|done].
  constructor; [|done]. intros ([p k'] & -> & Hin)%list_elem_of_fmap.
  apply elem_of_retained in Hin as [? _]. done.
Qed.

(** The active batch is given up: each intent becomes terminal or queued again. *)
Lemma slot_wf_release f m m' sid s a :
  s.(sl_active) = Some a →
  (∀ k i, k ∈ a.(ab_batch).(wb_intent_ids) → m !! k = Some i →
     f i = IntentQueued ∨ is_terminal (f i) = true) →
  updated f a.(ab_batch).(wb_intent_ids) m m' → slot_wf m sid s →
  slot_wf m' sid
    (requeue_front (retained f m a.(ab_batch).(wb_intent_ids)) (set_sl_active None s)).
Proof.
  intros Hact Hfi Hu [Hq Hn Hf Ha]. destruct (Ha _ Hact) as [_ _ Hnd Hids].
  set (ids := a.(ab_batch).(wb_intent_ids)) in *.
  assert (∀ p k, k ∈ slot_queue p s → k ∉ ids) as Hdisj.
  { intros p k (i & Hi & _ & _ & Hst)%Hq Hin.
    apply (intent_at_inv _ _ _ _ _ _ (Hids _ Hin)) in Hi as (_ & _ & Hi).
    rewrite Hst in Hi. by destruct (active_state_not_queued a). }
  split.
  - intros p k. rewrite slot_queue_requeue_front, slot_queue_active, elem_of_app,
      elem_of_of_priority, elem_of_retained.
    destruct (decide (k ∈ ids)) as [Hin|Hin].
    + rewrite (intent_at_updated_in _ _ _ _ _ _ _ _ Hu Hin).
      destruct (Hids _ Hin) as (i & Hi & Hsid & _). naive_solver.
    + rewrite (intent_at_updated_notin _ _ _ _ _ _ _ _ Hu Hin), Hq. naive_solver.
  - intros p. rewrite slot_queue_requeue_front, slot_queue_active. apply NoDup_app.
    split; [by apply NoDup_of_priority, NoDup_retained|]. split; [|done].
    intros k (? & _)%elem_of_of_priority%elem_of_retained ?%Hdisj. done.
  - intros k i' Hk Hsid Hin. exfalso.
    destruct (updated_inv _ _ _ _ _ _ Hu Hk) as [(Hki & i & Hi & ->)|[Hki Hi]].
    + simpl in Hin. destruct (Hfi _ _ Hki Hi) as [Heq|Ht]; [by rewrite Heq in Hin|].
      by destruct (f i).
    + destruct (Hf _ _ Hi Hsid Hin) as (? & ? & ?). naive_solver.
  - intros a'. by rewrite requeue_front_active.
Qed.

(** The queues and the batch are dropped: each live intent becomes terminal or is
    queued again. *)
Lemma slot_wf_clear f ids m m' sid s :
  NoDup ids →
  (∀ k i, m !! k = Some i → i.(wi_slot_id) = sid → is_terminal i.(wi_state) = false → k ∈ ids) →
  (∀ k i, k ∈ ids → m !! k = Some i →
     i.(wi_slot_id) = sid ∧ (f i = IntentQueued ∨ is_terminal (f i) = true)) →
  updated f ids m m' →
  slot_wf m' sid (requeue_back (retained f m ids) (set_sl_active None (clear_queues s))).
Proof.
  intros Hnd Hlive Hfi Hu. split.
  - intros p k. rewrite slot_queue_requeue_back, slot_queue_active, slot_queue_clear.
    cbn [app]. rewrite elem_of_of_priority, elem_of_retained.
    destruct (decide (k ∈ ids)) as [Hin|Hin].
    + rewrite (intent_at_updated_in _ _ _ _ _ _ _ _ Hu Hin). naive_solver.
    + rewrite (intent_at_updated_notin _ _ _ _ _ _ _ _ Hu Hin).
      split; [naive_solver|]. intros (i & Hi & Hsid & _ & Ht). destruct Hin.
      apply (Hlive _ i); [done..|by rewrite Ht].
  - intros p. rewrite slot_queue_requeue_back, slot_queue_active, slot_queue_clear.
    by apply NoDup_of_priority, NoDup_retained.
  - intros k i' Hk Hsid Hin. exfalso.
    destruct (updated_inv _ _ _ _ _ _ Hu Hk) as [(Hki & i & Hi & ->)|[Hki Hi]].
    + simpl in Hin. destruct (Hfi _ _ Hki Hi) as [_ [Heq|Ht]]; [by rewrite Heq in Hin|].
      by destruct (f i).
    + destruct Hki. apply (Hlive _ i'); [done..|]. by destruct (wi_state i').
  - intros a. by rewrite requeue_back_active.
Qed.
End local.
