(* ===== verification/WorkOps.v ===== *)
(** * The operations preserve the invariant

    For every method of the coordinator: on a well-formed state it does not panic,
    the state it leaves is well formed, and the intents only evolve. *)
From S2P Require Import Prelude WorkModel WorkState WorkCoordinator WorkInvariant.

Implicit Types st : CoordinatorState.
Implicit Types m : gmap string WorkIntent.

(** ** Loops that assign states *)

(** Every such loop looks its intent up, assigns the state [f], and logs immutable
    fields of the intent: it ends in [assign_states]. *)
Definition log_of {L} (upd : L → string → WorkIntent → L) st (log : L) (ids : list string) : L :=
  foldl (λ log k, from_option (upd log k) log (st.(cs_intents) !! k)) log ids.

Lemma log_of_assign {L} (upd : L → string → WorkIntent → L) f id st log ids :
  (∀ log k t i, upd log k (set_wi_state t i) = upd log k i) →
  log_of upd (assign_state f id st) log ids = log_of upd st log ids.
Proof.
  intros Hupd. unfold log_of. revert log. induction ids as [|k ids IH]; intros log; [done|].
  cbn [foldl]. rewrite IH. f_equal. cbn [assign_state cs_intents set_cs_intents].
  rewrite lookup_alter. case_decide; [|done]. subst.
  destruct (st.(cs_intents) !! k); simpl; [by rewrite Hupd|done].
Qed.

Lemma for_each_assign {L} (step : CoordinatorState * L → string → option (CoordinatorState * L))
    f (upd : L → string → WorkIntent → L) :
  (∀ st log id, step (st, log) id =
     i ← st.(cs_intents) !! id; Some (assign_state f id st, upd log id i)) →
  (∀ log k t i, upd log k (set_wi_state t i) = upd log k i) →
  ∀ ids st log, (∀ k, k ∈ ids → is_Some (st.(cs_intents) !! k)) →
  for_each step (st, log) ids = Some (assign_states f ids st, log_of upd st log ids).
Proof.
  intros Hstep Hupd ids. induction ids as [|id ids IH]; intros st log Hids; [done|].
  destruct (Hids id) as [i Hi]; [set_solver|].
  cbn [for_each]. rewrite Hstep, Hi. cbn [mbind option_bind]. rewrite IH.
  - unfold assign_states. cbn [foldl]. rewrite log_of_assign by done.
    unfold log_of. cbn [foldl]. by rewrite Hi.
  - intros k Hk. cbn [assign_state cs_intents set_cs_intents]. rewrite lookup_alter.
    case_decide; [|apply Hids; set_solver]. subst. by rewrite Hi.
Qed.

Lemma set_intent_state_assign f id t st i :
  st.(cs_intents) !! id = Some i → f i = t → set_intent_state t id st = assign_state f id st.
Proof.
  intros Hi <-. unfold set_intent_state, assign_state. f_equal. apply alter_ext.
  intros; by simplify_eq.
Qed.

Lemma updated_assign f ids st :
  stable f → updated f ids st.(cs_intents) (assign_states f ids st).(cs_intents).
Proof. intros Hf k. by apply lookup_assign_states. Qed.

(** ** Whole states from one slot *)

Section wf.
Context (generation : string).
Notation state_wf := (state_wf generation).
Notation slot_wf := (slot_wf generation).

Lemma lookup_put_slot sid s st sid' :
  slot_entry sid' Teammate (put_slot sid s st) =
    if decide (sid = sid') then s else slot_entry sid' Teammate st.
Proof.
  unfold slot_entry, put_slot. simpl. rewrite lookup_insert. by case_decide.
Qed.

Lemma same_work_refl s : same_work s s.
Proof. done. Qed.

Lemma slot_entry_same_work sid role st :
  same_work (slot_entry sid Teammate st) (slot_entry sid role st).
Proof. unfold slot_entry. destruct (_ !! sid); [done|]. split; [by intros []|done]. Qed.

(** The states of some intents of a slot are assigned and the slot is replaced. *)
Lemma state_wf_assign f ids sid s' st :
  stable f →
  (∀ k i, k ∈ ids → st.(cs_intents) !! k = Some i → i.(wi_slot_id) = sid) →
  slot_wf (assign_states f ids st).(cs_intents) sid s' →
  state_wf st → state_wf (put_slot sid s' (assign_states f ids st)).
Proof.
  intros Hf Hids Hs' [Hkey Hslot Hlease Hop].
  pose proof (updated_assign f ids st Hf) as Hu. split.
  - intros k i' Hk. destruct (updated_inv _ _ _ _ _ _ Hu Hk) as [(_ & i & Hi & ->)|[_ Hi]]; [|eauto].
    by apply Hkey in Hi.
  - intros sid'. rewrite lookup_put_slot. case_decide as Hsid; [by subst|].
    replace (slot_entry sid' Teammate (assign_states f ids st))
      with (slot_entry sid' Teammate st)
      by (unfold slot_entry; by rewrite assign_states_slots).
    eapply slot_wf_frame; [|apply Hslot]. intros k i Hi. split.
    + intros Hk. rewrite (updated_notin _ _ _ _ _ Hu); [done|].
      intros Hin. pose proof (Hids _ _ Hin Hk). congruence.
    + intros Hk. destruct (updated_inv _ _ _ _ _ _ Hu Hk) as [(Hin & i0 & Hi0 & ->)|[_ ?]]; [|done].
      pose proof (Hids _ _ Hin Hi0). simpl in Hi. congruence.
  - cbn [put_slot set_cs_slots cs_enqueue_leases]. by rewrite assign_states_leases.
  - cbn [put_slot set_cs_slots cs_next_operation_id]. by rewrite assign_states_op.
Qed.

(** Only fields that the invariant does not read change. *)
Lemma state_wf_put_slot sid s' st :
  same_work (slot_entry sid Teammate st) s' → state_wf st → state_wf (put_slot sid s' st).
Proof.
  intros Hsame Hwf. apply (state_wf_assign (λ _, IntentQueued) [] sid s' st); [done| | |done].
  - set_solver.
  - simpl. eapply slot_wf_same_work; [done|apply Hwf].
Qed.

Lemma state_wf_leases l st :
  (∀ k r, l !! k = Some r → r.(er_lease).(el_lease_id) = k) →
  state_wf st → state_wf (set_cs_leases l st).
Proof. intros Hl [Hkey Hslot _ Hop]. by split. Qed.

Lemma state_wf_op n st :
  (0 ≤ n ≤ u64_max)%Z → state_wf st → state_wf (set_cs_next_operation_id n st).
Proof. intros Hn [Hkey Hslot Hlease _]. by split. Qed.

(** A new queued intent joins its slot. *)
Lemma state_wf_enqueue k i s st :
  st.(cs_intents) !! k = None → i.(wi_intent_id) = k → i.(wi_state) = IntentQueued →
  same_work (slot_entry i.(wi_slot_id) Teammate st) s →
  state_wf st →
  state_wf (put_slot i.(wi_slot_id) (push_back i.(wi_priority) k s)
              (set_cs_intents (<[k := i]> st.(cs_intents)) st)).
Proof.
  intros Hk Hid Hst Hsame [Hkey Hslot Hlease Hop]. split; [| |done|done].
  - intros k' i'. simpl. rewrite lookup_insert. case_decide; [naive_solver|apply Hkey].
  - intros sid. rewrite lookup_put_slot. simpl. case_decide as Hsid.
    + subst sid. eapply slot_wf_enqueue; [done..|]. by eapply slot_wf_same_work.
    + change (slot_entry sid Teammate (set_cs_intents _ _)) with (slot_entry sid Teammate st).
      eapply slot_wf_frame; [|apply Hslot]. intros k' i' Hi'.
      rewrite lookup_insert. case_decide; [|done]. subst.
      split; [by rewrite Hk|intros [= <-]; congruence].
Qed.
End wf.

(** ** Active batches *)

Definition active_batch (slots : gmap string SlotState) (sid : string) : option WorkBatch :=
  ab_batch <$> (slots !! sid ≫= sl_active).

(** The active batches of the second map are those of the first, or new ones. *)
Definition active_within (new : list WorkBatch) (slots slots' : gmap string SlotState) : Prop :=
  ∀ sid b, active_batch slots' sid = Some b → active_batch slots sid = Some b ∨ b ∈ new.

#[global] Instance active_within_preorder new : PreOrder (active_within new).
Proof.
  split; [by left|]. intros m1 m2 m3 H12 H23 sid b Hb.
  destruct (H23 _ _ Hb) as [Hb'|]; [|by right]. by apply H12.
Qed.

Lemma active_within_insert new sid s slots :
  (∀ b, ab_batch <$> s.(sl_active) = Some b → active_batch slots sid = Some b ∨ b ∈ new) →
  active_within new slots (<[sid := s]> slots).
Proof.
  intros Hs sid' b. unfold active_batch at 1. rewrite lookup_insert.
  case_decide; [subst; apply Hs|by left].
Qed.

Lemma slot_entry_active sid role st :
  (slot_entry sid role st).(sl_active) = st.(cs_slots) !! sid ≫= sl_active.
Proof. unfold slot_entry. by destruct (_ !! sid). Qed.

(** The slot replaces itself, or one with no batch. *)
Lemma active_within_same new sid role s st :
  s.(sl_active) = (slot_entry sid role st).(sl_active) ∨ s.(sl_active) = None →
  active_within new st.(cs_slots) (<[sid := s]> st.(cs_slots)).
Proof.
  intros Hs. apply active_within_insert. intros b Hb. left. unfold active_batch.
  rewrite slot_entry_active in Hs. destruct Hs as [<-|Hs]; [done|by rewrite Hs in Hb].
Qed.

(** ** The operations *)

Section ops.
Context {P : Type} `{RunCausalityPort P} `{CallEnv}.
Implicit Types c : Coordinator P.

(** The identifiers of the call are new and pairwise different: what a UUID
    generator promises. *)
Record fresh_ids st : Prop := {
  fr_inj : Inj (=) (=) gen_id;
  fr_intents n : st.(cs_intents) !! gen_id n = None;
  fr_leases n : st.(cs_enqueue_leases) !! gen_id n = None;
}.

Definition coordinator_wf c : Prop := state_wf c.(co_session_generation) c.(co_state).

(** What every call does: the generation stays, the state is well formed again, the
    intents evolve, and the only batches that become active are [new]. *)
Record preserved (new : list WorkBatch) c c' : Prop := {
  pr_generation : c'.(co_session_generation) = c.(co_session_generation);
  pr_wf : coordinator_wf c';
  pr_evolves : evolves c.(co_state).(cs_intents) c'.(co_state).(cs_intents);
  pr_active : active_within new c.(co_state).(cs_slots) c'.(co_state).(cs_slots);
}.

Lemma preserved_refl new c : coordinator_wf c → preserved new c c.
Proof. by split. Qed.

Lemma publish_state ss c : (publish_run_summaries ss c).(co_state) = c.(co_state).
Proof. done. Qed.

Lemma preserved_state new st c ss :
  state_wf c.(co_session_generation) st →
  evolves c.(co_state).(cs_intents) st.(cs_intents) →
  active_within new c.(co_state).(cs_slots) st.(cs_slots) →
  preserved new c (publish_run_summaries ss (with_state st c)).
Proof. intros. by split. Qed.

Lemma preserved_state_silent new st c :
  state_wf c.(co_session_generation) st →
  evolves c.(co_state).(cs_intents) st.(cs_intents) →
  active_within new c.(co_state).(cs_slots) st.(cs_slots) →
  preserved new c (with_state st c).
Proof. intros. by split. Qed.

Lemma slot_entry_Some sid role st s :
  st.(cs_slots) !! sid = Some s → slot_entry sid role st = s.
Proof. unfold slot_entry. by intros ->. Qed.

Lemma same_work_trans s1 s2 s3 : same_work s1 s2 → same_work s2 s3 → same_work s1 s3.
Proof. intros [H1 H1'] [H2 H2']. split; [intros p; by rewrite H2, H1|congruence]. Qed.

Lemma same_work_fields s role paused constraint unread removed :
  same_work s (mkSlotState role s.(sl_foreground) s.(sl_control) s.(sl_background)
                 s.(sl_active) paused constraint unread removed).
Proof. split; [by intros []|done]. Qed.

Lemma slot_entry_same_fields sid role st role' paused constraint unread removed :
  let s := slot_entry sid role st in
  same_work (slot_entry sid Teammate st)
    (mkSlotState role' s.(sl_foreground) s.(sl_control) s.(sl_background)
       s.(sl_active) paused constraint unread removed).
Proof.
  intros s. eapply same_work_trans; [apply slot_entry_same_work|apply same_work_fields].
Qed.


(** *** Enqueueing *)

Lemma acquire_enqueue_preserved request c :
  coordinator_wf c → preserved [] c (acquire_enqueue request c).2.
Proof.
  intros Hwf. unfold acquire_enqueue.
  set (st := put_slot _ _ _).
  assert (state_wf c.(co_session_generation) st) as Hst.
  { apply state_wf_put_slot; [apply slot_entry_same_fields|done]. }
  assert (active_within [] c.(co_state).(cs_slots) st.(cs_slots)) as Hact
    by (eapply active_within_same; by left).
  destruct (validate_enqueue_constraint _ _); [|by split].
  destruct (match request.(rq_binding) with UserVisible => _ | _ => _ end) as [binding port].
  split; [done| |done|done]. apply state_wf_leases; [|done].
  intros k r. rewrite lookup_insert. case_decide; [naive_solver|apply Hst].
Qed.

Lemma validate_disposition sid s :
  is_ok (validate_enqueue_constraint sid s) = true → is_Some (enqueue_disposition s).
Proof.
  unfold validate_enqueue_constraint, enqueue_disposition.
  destruct (sl_removed s); [done|]. destruct (sl_runtime_constraint s); simpl; try done.
  - intros _. by destruct (_ && _).
Qed.

Lemma commit_enqueue_preserved lease mid c :
  coordinator_wf c → fresh_ids c.(co_state) →
  ∃ r c', commit_enqueue lease mid c = Some (r, c') ∧ preserved [] c c'.
Proof.
  intros Hwf Hfresh. pose proof (preserved_refl [] c Hwf) as Hrefl. unfold commit_enqueue.
  destruct (cs_enqueue_leases _ !! _) as [record|]; [|eauto].
  destruct (bool_decide _ || _); [eauto|]. destruct (requires_mailbox_message _ && _); [eauto|].
  destruct (cs_slots _ !! _) as [slot|] eqn:Hslot; [|eauto].
  destruct (validate_enqueue_constraint _ _) as [u|] eqn:Hval; [|eauto].
  destruct (validate_disposition lease.(el_slot_id) slot) as [d ->]; [by rewrite Hval|].
  cbn [mbind option_bind].
  take_snapshot. do 2 eexists. split; [done|]. apply preserved_state.
  - eapply (state_wf_enqueue _ _ (mkWorkIntent _ _ _ _ _ _ _ _ _ _));
      [apply Hfresh|done..| |].
    + change (slot_entry _ _ _) with (slot_entry lease.(el_slot_id) Teammate c.(co_state)).
      rewrite (slot_entry_Some _ _ _ _ Hslot).
      destruct mid, (resumes_paused_slot _); by split; [intros []|].
    + apply state_wf_leases; [|done]. intros k r. rewrite lookup_delete_Some.
      intros [_ Hk]. by apply Hwf.
  - simpl. apply evolves_insert_fresh, Hfresh.
  - eapply (active_within_same _ _ Teammate _ c.(co_state)). left.
    rewrite (slot_entry_Some _ _ _ _ Hslot). by destruct mid, (resumes_paused_slot _).
Qed.

Lemma abort_enqueue_preserved lease c :
  coordinator_wf c → preserved [] c (abort_enqueue lease c).2.
Proof.
  intros Hwf. unfold abort_enqueue.
  destruct (cs_enqueue_leases _ !! _) as [record|] eqn:Hrec; [|by apply preserved_refl].
  assert (∀ k r, delete (el_lease_id lease) (cs_enqueue_leases (co_state c)) !! k = Some r →
    el_lease_id (er_lease r) = k) as Hdel.
  { intros k r [_ Hk]%lookup_delete_Some. by apply Hwf. }
  destruct (_ || _).
  - apply preserved_state_silent; [|done..]. apply state_wf_leases; [|by apply state_wf_leases].
    simpl. intros k r. rewrite lookup_insert. case_decide; [naive_solver|apply Hdel].
  - match goal with |- context [if ?b then with_port _ _ else _] => destruct b end;
      (split; [done| |done|done]); by apply state_wf_leases.
Qed.

(** *** Mailbox reconciliation *)

Definition is_stale (unread : gset string) st (id : string) : bool :=
  match st.(cs_intents) !! id ≫= wi_mailbox_message_id with
  | Some message_id => bool_decide (message_id ∉ unread)
  | None => false
  end.

Lemma is_stale_assign unread f id st k :
  is_stale unread (assign_state f id st) k = is_stale unread st k.
Proof.
  unfold is_stale, assign_state. simpl. rewrite lookup_alter.
  case_decide; [|done]. subst. by destruct (st.(cs_intents) !! k).
Qed.

(** The first loop completes the queued intents whose message has been read. *)
Lemma foldl_reconcile_candidate unread ids st retained cleared :
  (∀ k, k ∈ ids → is_Some (st.(cs_intents) !! k)) →
  let stale := filter (is_stale unread st) ids in
  foldl (reconcile_candidate unread) (st, retained, cleared) ids =
    (assign_states (λ _, IntentCompleted) stale st,
     retained ++ filter (λ k, negb (is_stale unread st k)) ids, cleared ++ stale).
Proof.
  revert st retained cleared. induction ids as [|id ids IH]; intros st retained cleared Hids.
  { cbn. by rewrite !app_nil_r. }
  cbn zeta. cbn [foldl]. destruct (Hids id) as [i Hi]; [set_solver|].
  assert (Hr : reconcile_candidate unread (st, retained, cleared) id =
    if is_stale unread st id
    then (assign_state (λ _, IntentCompleted) id st, retained, cleared ++ [id])
    else (st, retained ++ [id], cleared)).
  { unfold reconcile_candidate, is_stale. rewrite Hi. cbn [mbind option_bind].
    destruct (wi_mailbox_message_id i); [|done]. by repeat case_bool_decide. }
  rewrite Hr, !filter_cons. destruct (is_stale unread st id) eqn:Hstale.
  - set (st1 := assign_state _ id st) in *.
    assert (∀ k, is_stale unread st1 k = is_stale unread st k) as Hst1
      by apply is_stale_assign.
    rewrite IH.
    + rewrite (list_filter_iff (λ k, is_stale unread st1 k) (λ k, is_stale unread st k))
        by (intros; by rewrite Hst1).
      rewrite (list_filter_iff (λ k, negb (is_stale unread st1 k))
                               (λ k, negb (is_stale unread st k))) by (intros; by rewrite Hst1).
      rewrite decide_True, decide_False by (rewrite ?Hstale; naive_solver).
      by rewrite <- app_assoc.
    + intros k Hk. simpl. rewrite lookup_alter. case_decide; [|apply Hids; set_solver].
      subst. by rewrite Hi.
  - rewrite IH by (intros; apply Hids; set_solver).
    rewrite decide_False, decide_True by (rewrite ?Hstale; naive_solver).
    by rewrite <- app_assoc.
Qed.

Lemma alter_slot_put sid f st s :
  st.(cs_slots) !! sid = Some s → alter_slot sid f st = put_slot sid (f s) st.
Proof.
  intros Hs. unfold alter_slot, put_slot. f_equal. apply map_eq. intros sid'.
  rewrite lookup_alter, lookup_insert. case_decide; [|done]. subst. by rewrite Hs.
Qed.

Lemma lookup_put_slot_eq sid s st : (put_slot sid s st).(cs_slots) !! sid = Some s.
Proof. apply lookup_insert_eq. Qed.

Lemma wf_slot_Some g sid s st :
  state_wf g st → st.(cs_slots) !! sid = Some s → slot_wf g st.(cs_intents) sid s.
Proof. intros Hwf Hs. rewrite <- (slot_entry_Some sid Teammate st s Hs). apply Hwf. Qed.

(** What the second loop of [reconcile_mailbox] maintains. *)
Record recovering g st0 sid (acc : CoordinatorState * list string) : Prop := {
  rc_wf : state_wf g acc.1;
  rc_slot : is_Some (acc.1.(cs_slots) !! sid);
  rc_evolves : evolves st0.(cs_intents) acc.1.(cs_intents);
  rc_active : active_within [] st0.(cs_slots) acc.1.(cs_slots);
  rc_fresh n : length acc.2 ≤ n → acc.1.(cs_intents) !! gen_id n = None;
}.

Lemma reconcile_message_recovering g sid role st0 acc message_id :
  Inj (=) (=) gen_id → recovering g st0 sid acc →
  ∃ acc', reconcile_message g sid role acc message_id = Some acc' ∧ recovering g st0 sid acc'.
Proof.
  intros Hinj Hacc. pose proof Hacc as [Hwf [s Hs] Hev Hact Hfresh]. destruct acc as [st created].
  simpl in *. destruct (existsb _ _); [eauto|]. rewrite Hs. simpl.
  eexists. split; [done|]. split; simpl.
  - apply (state_wf_enqueue _ _ (recovery_intent _ _ _ _ _)); [by apply Hfresh|done..| |done].
    simpl. by rewrite (slot_entry_Some _ _ _ _ Hs).
  - rewrite lookup_insert_eq. eauto.
  - etrans; [exact Hev|]. by apply evolves_insert_fresh, Hfresh.
  - etrans; [exact Hact|]. apply (active_within_same _ _ role _ st). left.
    by rewrite (slot_entry_Some _ _ _ _ Hs).
  - intros n Hn. rewrite length_app in Hn. simpl in Hn.
    rewrite lookup_insert_ne; [apply Hfresh; lia|]. intros Heq%(inj gen_id). lia.
Qed.

Lemma for_each_reconcile_message g sid role st0 l acc :
  Inj (=) (=) gen_id → recovering g st0 sid acc →
  ∃ acc', for_each (reconcile_message g sid role) acc l = Some acc' ∧
          recovering g st0 sid acc'.
Proof.
  intros Hinj Hacc.
  apply (for_each_inv _ (λ _ acc, recovering g st0 sid acc)); [|done].
  intros mid l' acc0 Hacc0. by apply reconcile_message_recovering.
Qed.

(** The state after the stale intents have been completed. *)
Definition cleared_state sid slot unread st : CoordinatorState :=
  let stale := filter (is_stale unread st) (queued_ids slot) in
  put_slot sid (remove_all stale slot) (assign_states (λ _, IntentCompleted) stale st).

Lemma cleared_state_wf g sid slot unread st :
  st.(cs_slots) !! sid = Some slot → state_wf g st →
  state_wf g (cleared_state sid slot unread st) ∧
  evolves st.(cs_intents) (cleared_state sid slot unread st).(cs_intents) ∧
  active_within [] st.(cs_slots) (cleared_state sid slot unread st).(cs_slots).
Proof.
  intros Hslot Hwf. pose proof (wf_slot_Some _ _ _ _ Hwf Hslot) as Hs.
  unfold cleared_state. set (stale := filter _ _).
  assert (active_within [] st.(cs_slots) (<[sid := remove_all stale slot]> st.(cs_slots))) as Hact.
  { apply (active_within_same _ _ Teammate). left.
    by rewrite remove_all_active, (slot_entry_Some _ _ _ _ Hslot). }
  assert (∀ k, k ∈ stale → ∃ p, intent_at st.(cs_intents) sid p IntentQueued k) as Hstale.
  { intros k [_ [p Hp]%elem_of_queued_ids]%list_elem_of_filter. exists p. by apply Hs. }
  split; [|split].
  - apply state_wf_assign; [done| | |done].
    + intros k i Hk Hi. destruct (Hstale k Hk) as [p Hp].
      by destruct (intent_at_inv _ _ _ _ _ _ Hp Hi).
    + eapply slot_wf_retire; [|by apply updated_assign|done].
      intros k i Hk Hi. destruct (Hstale k Hk) as [p Hp].
      by destruct (intent_at_inv _ _ _ _ _ _ Hp Hi) as (? & _ & ?).
  - apply evolves_assign_states; [done|]. intros k i Hk Hi Ht.
    destruct (Hstale k Hk) as [p Hp].
    destruct (intent_at_inv _ _ _ _ _ _ Hp Hi) as (_ & _ & Hq). by rewrite Hq in Ht.
  - cbn [put_slot set_cs_slots cs_slots]. by rewrite assign_states_slots.
Qed.

(** The first half of [reconcile_mailbox], in closed form. *)
Lemma reconcile_first_loop g sid slot unread st :
  st.(cs_slots) !! sid = Some slot → state_wf g st →
  let '(st', retained, cleared) :=
    foldl (reconcile_candidate unread) (st, [], []) (queued_ids slot) in
  alter_slot sid (λ slot, foldl (λ s id, remove_queued id s) slot cleared) st' =
    cleared_state sid slot unread st ∧
  cleared = filter (is_stale unread st) (queued_ids slot) ∧
  retained = filter (λ k, negb (is_stale unread st k)) (queued_ids slot).
Proof.
  intros Hslot Hwf. rewrite foldl_reconcile_candidate.
  - split; [|done]. apply alter_slot_put. by rewrite assign_states_slots.
  - intros k [p Hk]%elem_of_queued_ids.
    apply (wf_slot_Some _ _ _ _ Hwf Hslot) in Hk as (i & Hi & _). eauto.
Qed.

Lemma reconcile_mailbox_preserved sid unread role c :
  coordinator_wf c → fresh_ids c.(co_state) →
  ∃ r c', reconcile_mailbox sid unread role c = Some (r, c') ∧ preserved [] c c'.
Proof.
  intros Hwf Hfresh. unfold reconcile_mailbox.
  set (slot := set_sl_known_unread _ _). set (st := put_slot _ _ _).
  assert (state_wf c.(co_session_generation) st) as Hst.
  { apply state_wf_put_slot; [apply slot_entry_same_fields|done]. }
  pose proof (reconcile_first_loop _ sid slot (list_to_set unread) st
    (lookup_put_slot_eq _ _ _) Hst) as Hloop.
  destruct (foldl _ _ _) as [[st' kept] cleared]. destruct Hloop as (-> & _ & _).
  destruct (cleared_state_wf _ sid slot (list_to_set unread) st
    (lookup_put_slot_eq _ _ _) Hst) as (Hwf' & Hev' & Hact').
  destruct (for_each_reconcile_message c.(co_session_generation) sid role c.(co_state) unread
    (cleared_state sid slot (list_to_set unread) st, [])) as ([st'' created] & -> & Hrec);
    [apply Hfresh| |].
  - split; simpl; [done| |done| |].
    + rewrite lookup_insert_eq. eauto.
    + etrans; [|exact Hact']. eapply active_within_same. by left.
    + intros n _. rewrite lookup_assign_states by done. simpl.
      rewrite (fr_intents _ Hfresh). by case_decide.
  - cbn [mbind option_bind]. do 2 eexists. split; [done|].
    apply preserved_state_silent; apply Hrec.
Qed.

(** *** Claiming *)

Definition claim_log (log : list string * list string) (intent_id : string)
    (intent : WorkIntent) : list string * list string :=
  (log.1 ++ option_list intent.(wi_mailbox_message_id),
   match intent.(wi_team_run_id) with
   | Some r => if bool_decide (r ∈ log.2) then log.2 else log.2 ++ [r]
   | None => log.2
   end).

(** The batch that [claim_batch] makes and the state it leaves, in closed form. *)
Definition claimed_batch g sid priority ids st : WorkBatch :=
  let log := log_of claim_log st ([], []) ids in
  mkWorkBatch (gen_id 0) g sid ids log.1 priority log.2
    (saturating_add_u64 st.(cs_next_operation_id) 1).

Definition claimed_state batch slot st : CoordinatorState :=
  put_slot batch.(wb_slot_id)
    (set_sl_active (Some (mkActiveBatch batch None None)) (remove_all batch.(wb_intent_ids) slot))
    (assign_states (λ _, IntentStarting batch.(wb_batch_id) batch.(wb_operation_id))
       batch.(wb_intent_ids) (set_cs_next_operation_id batch.(wb_operation_id) st)).

Lemma claim_batch_eq sid slot priority ids c :
  let batch := claimed_batch c.(co_session_generation) sid priority ids c.(co_state) in
  let st := claimed_state batch slot c.(co_state) in
  c.(co_state).(cs_slots) !! sid = Some slot →
  (∀ k, k ∈ ids → is_Some (c.(co_state).(cs_intents) !! k)) →
  claim_batch sid priority ids c =
    Some (Claim batch,
          publish_run_summaries (run_summaries_locked st batch.(wb_team_run_ids))
            (with_state st c)).
Proof.
  intros batch st Hslot Hids. unfold claim_batch.
  rewrite (for_each_assign _ (λ _, IntentStarting batch.(wb_batch_id) batch.(wb_operation_id))
             claim_log); [|by intros ? [] ?|done|done].
  cbn [mbind option_bind]. rewrite surjective_pairing at 1. cbn [mbind option_bind].
  rewrite assign_states_slots. cbn [set_cs_next_operation_id cs_slots]. by rewrite Hslot.
Qed.

Lemma saturating_add_u64_range z : (0 ≤ z ≤ u64_max → 0 ≤ saturating_add_u64 z 1 ≤ u64_max)%Z.
Proof. unfold saturating_add_u64. lia. Qed.

(** Any part of one queue of a slot with no batch can be claimed. *)
Lemma claimed_state_wf batch slot st :
  st.(cs_slots) !! batch.(wb_slot_id) = Some slot → slot.(sl_active) = None →
  NoDup batch.(wb_intent_ids) →
  (∀ k, k ∈ batch.(wb_intent_ids) → k ∈ slot_queue batch.(wb_highest_priority) slot) →
  (0 ≤ batch.(wb_operation_id) ≤ u64_max)%Z →
  state_wf batch.(wb_session_generation) st →
  state_wf batch.(wb_session_generation) (claimed_state batch slot st) ∧
  evolves st.(cs_intents) (claimed_state batch slot st).(cs_intents) ∧
  active_within [batch] st.(cs_slots) (claimed_state batch slot st).(cs_slots).
Proof.
  intros Hslot Hnone Hnd Hids Hop Hwf. pose proof (wf_slot_Some _ _ _ _ Hwf Hslot) as Hs.
  assert (∀ k i, k ∈ batch.(wb_intent_ids) → st.(cs_intents) !! k = Some i →
    i.(wi_slot_id) = batch.(wb_slot_id) ∧ i.(wi_state) = IntentQueued) as Hq.
  { intros k i Hk Hi. apply Hids, (sw_queue _ _ _ _ Hs) in Hk.
    by destruct (intent_at_inv _ _ _ _ _ _ Hk Hi) as (? & _ & ?). }
  unfold claimed_state. split; [|split].
  - apply state_wf_assign; [done| | |by apply state_wf_op].
    + intros k i Hk Hi. by apply (Hq k i).
    + eapply slot_wf_claim; [done..|by apply updated_assign|done].
  - eapply (evolves_assign_states _ _ (set_cs_next_operation_id _ st)); [done|].
    intros k i Hk Hi Ht. destruct (Hq _ _ Hk Hi) as [_ Hst]. by rewrite Hst in Ht.
  - cbn [put_slot set_cs_slots cs_slots]. rewrite assign_states_slots. cbn.
    apply active_within_insert. intros b [= <-]. set_solver.
Qed.

(** What [next] can do, on every branch. *)
Inductive next_spec (sid : string) c : ReconcileDecision → Coordinator P → Prop :=
  | NextUnknown : c.(co_state).(cs_slots) !! sid = None → next_spec sid c Quiescent c
  | NextWaiting slot a :
      c.(co_state).(cs_slots) !! sid = Some slot → slot.(sl_active) = Some a →
      next_spec sid c WaitingForCompletion c
  | NextBlocked slot :
      c.(co_state).(cs_slots) !! sid = Some slot → slot.(sl_active) = None →
      slot.(sl_runtime_constraint) ≠ Ready →
      next_spec sid c (Blocked slot.(sl_runtime_constraint)) c
  | NextPaused slot :
      c.(co_state).(cs_slots) !! sid = Some slot → slot.(sl_active) = None →
      slot.(sl_runtime_constraint) = Ready → slot.(sl_paused) = true →
      next_spec sid c Quiescent c
  | NextIdle slot :
      c.(co_state).(cs_slots) !! sid = Some slot → slot.(sl_active) = None →
      slot.(sl_runtime_constraint) = Ready → slot.(sl_paused) = false →
      selected_priority slot = None →
      next_spec sid c Quiescent c
  | NextSignals slot p :
      c.(co_state).(cs_slots) !! sid = Some slot → slot.(sl_active) = None →
      slot.(sl_runtime_constraint) = Ready → slot.(sl_paused) = false →
      selected_priority slot = Some p →
      filter (has_message c.(co_state)) (slot_queue p slot) = [] →
      next_spec sid c (SettleSignals (slot_queue p slot)) c
  | NextClaim slot p c' :
      let ids := filter (has_message c.(co_state)) (slot_queue p slot) in
      let batch := claimed_batch c.(co_session_generation) sid p ids c.(co_state) in
      let st := claimed_state batch slot c.(co_state) in
      c.(co_state).(cs_slots) !! sid = Some slot → slot.(sl_active) = None →
      slot.(sl_runtime_constraint) = Ready → slot.(sl_paused) = false →
      selected_priority slot = Some p → ids ≠ [] →
      c' = publish_run_summaries (run_summaries_locked st batch.(wb_team_run_ids))
             (with_state st c) →
      next_spec sid c (Claim batch) c'.

Lemma is_ready_iff constraint : is_ready constraint = true ↔ constraint = Ready.
Proof. by destruct constraint. Qed.

Lemma wf_queued_lookup g sid slot p k st :
  state_wf g st → st.(cs_slots) !! sid = Some slot → k ∈ slot_queue p slot →
  intent_at st.(cs_intents) sid p IntentQueued k.
Proof. intros Hwf Hslot Hk. by apply (sw_queue _ _ _ _ (wf_slot_Some _ _ _ _ Hwf Hslot)). Qed.

Lemma next_total sid c :
  coordinator_wf c → ∃ d c', next sid c = Some (d, c') ∧ next_spec sid c d c'.
Proof.
  intros Hwf. unfold next.
  destruct (cs_slots _ !! sid) as [slot|] eqn:Hslot.
  2: { do 2 eexists. split; [done|by constructor]. }
  destruct (sl_active slot) as [a|] eqn:Hact.
  { rewrite bool_decide_eq_true_2 by done. do 2 eexists. split; [done|]. by eapply NextWaiting. }
  rewrite bool_decide_eq_false_2 by (by intros []).
  destruct (is_ready _) eqn:Hready; simpl.
  2: { do 2 eexists. split; [done|]. eapply NextBlocked; [done..|]. intros Heq.
       by rewrite Heq in Hready. }
  apply is_ready_iff in Hready.
  destruct (sl_paused slot) eqn:Hpaused.
  { do 2 eexists. split; [done|]. by eapply NextPaused. }
  destruct (selected_priority slot) as [p|] eqn:Hp.
  2: { do 2 eexists. split; [done|]. by eapply NextIdle. }
  case_bool_decide as Hids; [do 2 eexists; split; [done|by eapply NextSignals]|].
  erewrite claim_batch_eq; [|done|].
  - do 2 eexists. split; [done|]. by eapply NextClaim.
  - intros k [_ Hk]%list_elem_of_filter.
    destruct (wf_queued_lookup _ _ _ _ _ _ Hwf Hslot Hk) as (i & -> & _). eauto.
Qed.

Definition claimed (d : ReconcileDecision) : list WorkBatch :=
  match d with Claim batch => [batch] | _ => [] end.

Lemma next_preserved sid c :
  coordinator_wf c →
  ∃ d c', next sid c = Some (d, c') ∧ preserved (claimed d) c c'.
Proof.
  intros Hwf. destruct (next_total sid c Hwf) as (d & c' & Hnext & Hspec).
  exists d, c'. split; [done|]. destruct Hspec as [| | | | | |slot p c' ids batch st Hslot
    Hact Hready Hpaused Hp Hids ->]; try by apply preserved_refl.
  destruct (claimed_state_wf batch slot c.(co_state)) as (? & ? & ?); [done|done| | | |done|].
  - apply NoDup_filter, (sw_nodup _ _ _ _ (wf_slot_Some _ _ _ _ Hwf Hslot)).
  - by intros k [_ Hk]%list_elem_of_filter.
  - apply saturating_add_u64_range, Hwf.
  - by apply preserved_state.
Qed.

(** *** The life of a claimed batch *)

(** The batch is, if its name says that it is the active batch of its slot: what
    holds of every batch that [next] has returned. *)
Definition known_batch (slots : gmap string SlotState) batch : Prop :=
  ∀ b, active_batch slots batch.(wb_slot_id) = Some b →
       b.(wb_batch_id) = batch.(wb_batch_id) → b = batch.

Lemma is_current_batch_spec g st batch :
  known_batch st.(cs_slots) batch → is_current_batch g st batch = true →
  ∃ slot a, st.(cs_slots) !! batch.(wb_slot_id) = Some slot ∧
    slot.(sl_active) = Some a ∧ a.(ab_batch) = batch.
Proof.
  intros Hknown. unfold is_current_batch, known_batch, active_batch in *.
  destruct (cs_slots st !! _) as [slot|]; cbn [mbind option_bind] in *.
  2: { by rewrite andb_false_r. }
  destruct (sl_active slot) as [a|] eqn:Ha; [|by rewrite andb_false_r].
  intros [_ [[Hid%bool_decide_eq_true _]%andb_true_iff _]%andb_true_iff]%andb_true_iff.
  exists slot, a. split; [done|]. split; [done|]. by apply Hknown.
Qed.

Lemma wf_active g st batch slot a :
  state_wf g st → st.(cs_slots) !! batch.(wb_slot_id) = Some slot →
  slot.(sl_active) = Some a → a.(ab_batch) = batch →
  ∀ k, k ∈ batch.(wb_intent_ids) →
    intent_at st.(cs_intents) batch.(wb_slot_id) batch.(wb_highest_priority)
      (active_state a) k.
Proof.
  intros Hwf Hslot Ha <- k Hk.
  apply (sw_active _ _ _ _ (wf_slot_Some _ _ _ _ Hwf Hslot) _ Ha), Hk.
Qed.

Lemma wf_active_live g st batch slot a k i :
  state_wf g st → st.(cs_slots) !! batch.(wb_slot_id) = Some slot →
  slot.(sl_active) = Some a → a.(ab_batch) = batch →
  k ∈ batch.(wb_intent_ids) → st.(cs_intents) !! k = Some i →
  i.(wi_slot_id) = batch.(wb_slot_id) ∧ i.(wi_priority) = batch.(wb_highest_priority) ∧
  is_terminal i.(wi_state) = false.
Proof.
  intros Hwf Hslot Ha Hab Hk Hi. destruct (wf_active _ _ _ _ _ Hwf Hslot Ha Hab k Hk)
    as (i' & Hi' & ? & ? & Hst). simplify_eq. rewrite Hst. unfold active_state.
  by destruct (ab_turn_id a).
Qed.

Lemma is_current_batch_iff g st batch :
  is_current_batch g st batch = false ∨ is_current_batch g st batch = true.
Proof. destruct (is_current_batch _ _ _); auto. Qed.

Definition started_state batch turn_id slot st : CoordinatorState :=
  put_slot batch.(wb_slot_id) (mark_active_started turn_id slot)
    (assign_states (λ _, IntentRunning batch.(wb_batch_id) batch.(wb_operation_id) turn_id)
       batch.(wb_intent_ids) st).

Lemma mark_started_current batch turn_id slot c :
  is_current_batch c.(co_session_generation) c.(co_state) batch = true →
  c.(co_state).(cs_slots) !! batch.(wb_slot_id) = Some slot →
  let st := started_state batch turn_id slot c.(co_state) in
  mark_started batch turn_id c =
    (if slot.(sl_paused) || negb (is_ready slot.(sl_runtime_constraint))
     then CancelImmediately else StartAccepted,
     publish_run_summaries (run_summaries_locked st batch.(wb_team_run_ids)) (with_state st c)).
Proof.
  intros Hcur Hslot st. unfold mark_started. rewrite Hcur, Hslot. cbn [negb].
  by rewrite (alter_slot_put _ _ _ slot) by (by rewrite set_intent_states_assign,
    assign_states_slots).
Qed.

Lemma mark_started_preserved batch turn_id c :
  coordinator_wf c → known_batch c.(co_state).(cs_slots) batch →
  preserved [] c (mark_started batch turn_id c).2.
Proof.
  intros Hwf Hknown.
  destruct (is_current_batch_iff c.(co_session_generation) c.(co_state) batch) as [Hcur|Hcur].
  { unfold mark_started. rewrite Hcur. cbn [negb]. destruct (forallb _ _);
      by apply preserved_refl. }
  destruct (is_current_batch_spec _ _ _ Hknown Hcur) as (slot & a & Hslot & Ha & Hab).
  rewrite (mark_started_current _ _ slot) by done. apply preserved_state.
  - apply state_wf_assign; [done| | |done].
    + intros k i Hk Hi. by eapply wf_active_live.
    + unfold mark_active_started. rewrite Ha. cbn [fmap option_fmap option_map].
      eapply (slot_wf_start _ _ _ _ _ _ a);
        [done|done| |rewrite Hab; by apply updated_assign|by apply wf_slot_Some].
      intros i. unfold active_state. simpl. by rewrite Hab.
  - apply evolves_assign_states; [done|]. intros k i Hk Hi Ht.
    destruct (wf_active_live _ _ _ _ _ _ _ Hwf Hslot Ha Hab Hk Hi) as (_ & _ & Hl). congruence.
  - cbn [started_state put_slot set_cs_slots cs_slots]. rewrite assign_states_slots.
    apply active_within_insert. intros b Hb. left. unfold active_batch. rewrite Hslot. simpl.
    unfold mark_active_started in Hb. rewrite Ha in Hb |- *. done.
Qed.

(** The state after a batch is given up: [f] is the new state of its intents. *)
Definition released_state (f : WorkIntent → WorkIntentState) batch slot st : CoordinatorState :=
  put_slot batch.(wb_slot_id)
    (requeue_front (retained f st.(cs_intents) batch.(wb_intent_ids)) (set_sl_active None slot))
    (assign_states f batch.(wb_intent_ids) st).

Lemma released_state_wf f batch slot a g st :
  stable f → state_wf g st → st.(cs_slots) !! batch.(wb_slot_id) = Some slot →
  slot.(sl_active) = Some a → a.(ab_batch) = batch →
  (∀ k i, k ∈ batch.(wb_intent_ids) → st.(cs_intents) !! k = Some i →
     f i = IntentQueued ∨ is_terminal (f i) = true) →
  state_wf g (released_state f batch slot st) ∧
  evolves st.(cs_intents) (released_state f batch slot st).(cs_intents) ∧
  active_within [] st.(cs_slots) (released_state f batch slot st).(cs_slots).
Proof.
  intros Hf Hwf Hslot Ha Hab Hfi. unfold released_state. split; [|split].
  - apply state_wf_assign; [done| | |done].
    + intros k i Hk Hi. by eapply wf_active_live.
    + subst batch. eapply slot_wf_release; [done|done|by apply updated_assign|].
      by apply wf_slot_Some.
  - apply evolves_assign_states; [done|]. intros k i Hk Hi Ht.
    destruct (wf_active_live _ _ _ _ _ _ _ Hwf Hslot Ha Hab Hk Hi) as (_ & _ & Hl). congruence.
  - cbn [put_slot set_cs_slots cs_slots]. rewrite assign_states_slots.
    eapply (active_within_same _ _ Teammate). right. by rewrite requeue_front_active.
Qed.

Lemma retained_queued g st batch slot a :
  state_wf g st → st.(cs_slots) !! batch.(wb_slot_id) = Some slot →
  slot.(sl_active) = Some a → a.(ab_batch) = batch →
  retained (λ _, IntentQueued) st.(cs_intents) batch.(wb_intent_ids) =
    (batch.(wb_highest_priority),.) <$> batch.(wb_intent_ids).
Proof.
  intros Hwf Hslot Ha Hab. pose proof (wf_active _ _ _ _ _ Hwf Hslot Ha Hab) as Hat.
  unfold retained. induction (wb_intent_ids batch) as [|k ids IH]; [done|].
  cbn [omap list_omap]. destruct (Hat k) as (i & -> & _ & Hp & _); [set_solver|].
  cbn [mbind option_bind is_queued fmap list_fmap]. rewrite Hp. f_equal. apply IH. intros k' Hk'. apply Hat. set_solver.
Qed.

Lemma retained_terminal t m ids : is_terminal t = true → retained (λ _, t) m ids = [].
Proof.
  intros Ht. unfold retained. induction ids as [|k ids IH]; [done|]. simpl.
  destruct (m !! k); simpl; [|done]. by destruct t.
Qed.

Lemma foldl_push_front p ids s :
  foldl (λ s id, push_front p id s) s (reverse ids) = requeue_front ((p,.) <$> ids) s.
Proof.
  unfold requeue_front. rewrite <- fmap_reverse. generalize (reverse ids) as l. intros l.
  revert s. induction l as [|k l IH]; intros s; cbn [foldl]; [done|]. apply IH.
Qed.

Lemma retry_start_current batch slot a c :
  coordinator_wf c →
  is_current_batch c.(co_session_generation) c.(co_state) batch = true →
  c.(co_state).(cs_slots) !! batch.(wb_slot_id) = Some slot →
  slot.(sl_active) = Some a → a.(ab_batch) = batch →
  let st := released_state (λ _, IntentQueued) batch slot c.(co_state) in
  retry_start batch c =
    Some (Committed,
          publish_run_summaries (run_summaries_locked st batch.(wb_team_run_ids))
            (with_state st c)).
Proof.
  intros Hwf Hcur Hslot Ha Hab st. unfold retry_start. rewrite Hcur. cbn [negb].
  rewrite set_intent_states_assign, assign_states_slots, Hslot. cbn [mbind option_bind].
  rewrite foldl_push_front, <- (retained_queued _ _ _ _ _ Hwf Hslot Ha Hab). done.
Qed.

Lemma retry_start_preserved batch c :
  coordinator_wf c → known_batch c.(co_state).(cs_slots) batch →
  ∃ r c', retry_start batch c = Some (r, c') ∧ preserved [] c c'.
Proof.
  intros Hwf Hknown.
  destruct (is_current_batch_iff c.(co_session_generation) c.(co_state) batch) as [Hcur|Hcur].
  { unfold retry_start. rewrite Hcur. do 2 eexists. split; [done|]. by apply preserved_refl. }
  destruct (is_current_batch_spec _ _ _ Hknown Hcur) as (slot & a & Hslot & Ha & Hab).
  rewrite (retry_start_current _ slot a) by done. do 2 eexists. split; [done|].
  destruct (released_state_wf (λ _, IntentQueued) batch slot a c.(co_session_generation)
    c.(co_state)) as (? & ? & ?); [done..|by left|]. by apply preserved_state.
Qed.

Lemma terminalize_batch_current batch t slot a c :
  is_terminal t = true → coordinator_wf c →
  is_current_batch c.(co_session_generation) c.(co_state) batch = true →
  c.(co_state).(cs_slots) !! batch.(wb_slot_id) = Some slot →
  slot.(sl_active) = Some a → a.(ab_batch) = batch →
  let st := released_state (λ _, t) batch slot c.(co_state) in
  terminalize_batch batch t c =
    Some (Committed,
          publish_run_summaries (run_summaries_locked st batch.(wb_team_run_ids))
            (with_state st c)).
Proof.
  intros Ht Hwf Hcur Hslot Ha Hab st. unfold terminalize_batch. rewrite Hcur. cbn [negb].
  rewrite set_intent_states_assign, assign_states_slots, Hslot. cbn [mbind option_bind].
  subst st. unfold released_state. by rewrite retained_terminal.
Qed.

Lemma terminalize_batch_preserved batch t c :
  is_terminal t = true →
  coordinator_wf c → known_batch c.(co_state).(cs_slots) batch →
  ∃ r c', terminalize_batch batch t c = Some (r, c') ∧ preserved [] c c'.
Proof.
  intros Ht Hwf Hknown.
  destruct (is_current_batch_iff c.(co_session_generation) c.(co_state) batch) as [Hcur|Hcur].
  { unfold terminalize_batch. rewrite Hcur. do 2 eexists. split; [done|].
    by apply preserved_refl. }
  destruct (is_current_batch_spec _ _ _ Hknown Hcur) as (slot & a & Hslot & Ha & Hab).
  rewrite (terminalize_batch_current _ _ slot a) by done. do 2 eexists. split; [done|].
  destruct (released_state_wf (λ _, t) batch slot a c.(co_session_generation)
    c.(co_state)) as (? & ? & ?); [done..|by right|]. by apply preserved_state.
Qed.

(** *** Cancelling a run *)

Definition run_cancelled (run : string) (i : WorkIntent) : WorkIntentState :=
  if in_run run i.(wi_team_run_id) then IntentCancelled "run_cancelled" else IntentQueued.

(** What [cancel_run] may do to an intent: cancel it if it is live and of the run, put
    it back in the queue if it is live and not of the run. *)
Definition run_cancels (run : string) (i : WorkIntent) (t : WorkIntentState) : Prop :=
  t = i.(wi_state) ∨ is_terminal i.(wi_state) = false ∧ t = run_cancelled run i.

Record cancels (run : string) st st' : Prop := {
  cc_old k i : st.(cs_intents) !! k = Some i →
    ∃ t, st'.(cs_intents) !! k = Some (set_wi_state t i) ∧ run_cancels run i t;
  cc_new k : st.(cs_intents) !! k = None → st'.(cs_intents) !! k = None;
}.

#[local] Instance cancels_preorder run : PreOrder (cancels run).
Proof.
  split.
  - intros st. split; [|done]. intros k i Hk. exists i.(wi_state).
    rewrite set_wi_state_id. split; [done|by left].
  - intros st1 st2 st3 [Ho Hn] [Ho' Hn']. split; [|auto]. intros k i Hk.
    destruct (Ho _ _ Hk) as (t & Ht & Hc). destruct (Ho' _ _ Ht) as (t' & Ht' & Hc').
    exists t'. split; [done|]. unfold run_cancels in *. simpl in *.
    destruct Hc as [->|[? ->]], Hc' as [->|[? ->]]; auto.
Qed.

Lemma cancels_evolves run st st' :
  cancels run st st' → evolves st.(cs_intents) st'.(cs_intents).
Proof.
  intros [Ho _] k i Hk. destruct (Ho _ _ Hk) as (t & Ht & [->|[Hl ->]]); eexists;
    (split; [done|]); [done|congruence].
Qed.

Lemma cancels_assign run ids st st' :
  st'.(cs_intents) = (assign_states (run_cancelled run) ids st).(cs_intents) →
  (∀ k i, k ∈ ids → st.(cs_intents) !! k = Some i → is_terminal i.(wi_state) = false) →
  cancels run st st'.
Proof.
  intros Hst' Hids. split.
  - intros k i Hk. rewrite Hst', lookup_assign_states by done. rewrite Hk. case_decide; simpl.
    + eexists. split; [done|]. right. eauto.
    + exists i.(wi_state). rewrite set_wi_state_id. split; [done|by left].
  - intros k Hk. rewrite Hst', lookup_assign_states by done. rewrite Hk. by case_decide.
Qed.

Definition cancel_log (run : string) (log : list string * list (WorkPriority * string))
    (intent_id : string) (i : WorkIntent) : list string * list (WorkPriority * string) :=
  if in_run run i.(wi_team_run_id)
  then (log.1 ++ option_list i.(wi_mailbox_message_id), log.2)
  else (log.1, log.2 ++ [(i.(wi_priority), intent_id)]).

Lemma cancel_log_retained run st ids log :
  (log_of (cancel_log run) st log ids).2 =
    log.2 ++ retained (run_cancelled run) st.(cs_intents) ids.
Proof.
  unfold log_of. revert log. induction ids as [|k ids IH]; intros log; cbn [foldl].
  { by rewrite app_nil_r. }
  rewrite IH. unfold retained. cbn [omap list_omap].
  destruct (cs_intents st !! k) as [i|]; [|done]. cbn [mbind option_bind from_option].
  assert (is_queued (run_cancelled run i) = negb (in_run run (wi_team_run_id i))) as ->
    by (unfold run_cancelled; by destruct (in_run _ _)).
  unfold cancel_log. destruct (in_run _ _); cbn [negb fst snd]; [done|].
  by rewrite <- app_assoc.
Qed.

Lemma cancel_run_slot_eq run slot a sid st targets messages :
  st.(cs_slots) !! sid = Some slot → a.(ab_batch).(wb_slot_id) = sid →
  (∀ k, k ∈ a.(ab_batch).(wb_intent_ids) → is_Some (st.(cs_intents) !! k)) →
  cancel_run_slot run (st, (targets, messages)) (sid, a) =
    Some (released_state (run_cancelled run) a.(ab_batch) slot st,
          (targets ++ [mkBatchCancelTarget a.(ab_batch) a.(ab_turn_id)],
           (log_of (cancel_log run) st (messages, []) a.(ab_batch).(wb_intent_ids)).1)).
Proof.
  intros Hslot Hsid Hids. unfold cancel_run_slot.
  rewrite (for_each_assign _ (run_cancelled run) (cancel_log run)); [| | |done].
  - cbn [mbind option_bind]. rewrite surjective_pairing at 1. cbn [mbind option_bind].
    rewrite assign_states_slots, Hslot. cbn [mbind option_bind].
    rewrite cancel_log_retained. unfold released_state. by rewrite Hsid.
  - intros st0 [m r] id. unfold cancel_run_intent.
    destruct (cs_intents st0 !! id) as [i|] eqn:Hi; [|done]. cbn [mbind option_bind].
    rewrite <- (set_intent_state_assign _ _ (run_cancelled run i) _ i) by done.
    unfold cancel_log, run_cancelled. by destruct (in_run run _).
  - done.
Qed.

(** What the loop over the active slots maintains: [rest] is what is left of it. *)
Record cancelling (run : string) g st0 (entries rest : list (string * ActiveBatch)) st :
    Prop := {
  cg_wf : state_wf g st;
  cg_cancels : cancels run st0 st;
  cg_active : active_within [] st0.(cs_slots) st.(cs_slots);
  cg_leases : st.(cs_enqueue_leases) = st0.(cs_enqueue_leases);
  cg_nodup : NoDup rest.*1;
  cg_rest sid a : (sid, a) ∈ rest →
    ∃ slot, st.(cs_slots) !! sid = Some slot ∧ slot.(sl_active) = Some a;
  cg_done sid a : (sid, a) ∈ entries → (sid, a) ∉ rest →
    active_batch st.(cs_slots) sid = None;
}.

Lemma elem_of_cancel_run_active_slots run st sid a :
  (sid, a) ∈ cancel_run_active_slots st run ↔
    ∃ slot, st.(cs_slots) !! sid = Some slot ∧ slot.(sl_active) = Some a ∧
            active_in_run st run a = true.
Proof.
  unfold cancel_run_active_slots. rewrite list_elem_of_omap. split.
  - intros ([sid' slot] & Hin%elem_of_btree_iter & Hf). simpl in Hf.
    destruct (sl_active slot) as [a'|] eqn:Ha; simplify_eq/=.
    destruct (active_in_run _ _ _) eqn:Hrun; simplify_eq/=. eauto.
  - intros (slot & Hslot & Ha & Hrun). exists (sid, slot). rewrite elem_of_btree_iter.
    split; [done|]. simpl. rewrite Ha. simpl. by rewrite Hrun.
Qed.

Lemma NoDup_cancel_run_active_slots run st : NoDup (cancel_run_active_slots st run).*1.
Proof.
  pose proof (NoDup_btree_keys st.(cs_slots)) as Hnd. unfold btree_keys in Hnd.
  unfold cancel_run_active_slots. induction (btree_iter _) as [|[sid slot] l IH];
    [constructor|]. apply NoDup_cons in Hnd as [Hsid Hnd]. specialize (IH Hnd).
  cbn [omap list_omap fst snd]. destruct (_ ≫= _) as [[sid' a]|] eqn:Hf; [|done].
  destruct (sl_active slot); [|done]. simpl in Hf.
  destruct (active_in_run _ _ _); [|done]. injection Hf as <- <-. apply NoDup_cons.
  split; [|done]. intros ([sid2 a2] & Heq & Hin)%list_elem_of_fmap_1. simpl in Heq. subst sid2.
  apply Hsid.
  apply list_elem_of_omap in Hin as ([sid3 slot3] & Hin & Hf). simpl in Hf.
  destruct (sl_active slot3); [|done]. simpl in Hf. destruct (active_in_run _ _ _);
    simplify_eq/=. apply (list_elem_of_fmap_2 fst l (sid, slot3)), Hin.
Qed.

Lemma cancel_run_slot_cancelling run g st0 entries e rest acc :
  cancelling run g st0 entries (e :: rest) acc.1 →
  ∃ acc', cancel_run_slot run acc e = Some acc' ∧ cancelling run g st0 entries rest acc'.1.
Proof.
  destruct e as [sid a], acc as [st [targets messages]]. cbn [fst].
  intros [Hwf Hc Hact Hl Hnd Hrest Hdone]. apply NoDup_cons in Hnd as [Hsid Hnd].
  destruct (Hrest sid a) as (slot & Hslot & Ha); [set_solver|].
  destruct (sw_active _ _ _ _ (wf_slot_Some _ _ _ _ Hwf Hslot) _ Ha) as [_ Hbs _ Hids].
  subst sid. rewrite (cancel_run_slot_eq _ slot); [|done|done|].
  2: { intros k Hk. destruct (Hids k Hk) as (i & -> & _). eauto. }
  destruct (released_state_wf (run_cancelled run) a.(ab_batch) slot a g st)
    as (Hwf' & Hev' & Hact'); [done..| |].
  { intros k i _ _. unfold run_cancelled. destruct (in_run _ _); auto. }
  eexists. split; [done|]. cbn [fst]. split; [done| | | |done| |].
  - etrans; [exact Hc|]. eapply cancels_assign; [done|]. intros k i Hk Hi.
    by apply (wf_active_live _ _ _ _ _ _ _ Hwf Hslot Ha eq_refl Hk Hi).
  - by etrans.
  - cbn. by rewrite assign_states_leases.
  - intros sid' a' Hin. cbn. rewrite assign_states_slots, lookup_insert_ne.
    + apply Hrest. set_solver.
    + intros Heq. apply Hsid. rewrite Heq. by apply (list_elem_of_fmap_2 fst rest (sid', a')).
  - intros sid' a' Hin Hnot. unfold active_batch. cbn. rewrite assign_states_slots, lookup_insert.
    case_decide as Hs; [simpl; by rewrite requeue_front_active|].
    apply (Hdone sid' a'); [done|]. set_solver.
Qed.

Lemma for_each_cancel_run_slot run g st acc :
  state_wf g st → acc.1 = st →
  let entries := cancel_run_active_slots st run in
  ∃ acc', for_each (cancel_run_slot run) acc entries = Some acc' ∧
          cancelling run g st entries [] acc'.1.
Proof.
  intros Hwf <- entries.
  apply (for_each_inv _ (λ rest acc', cancelling run g acc.1 entries rest acc'.1)).
  - intros e rest acc'. apply cancel_run_slot_cancelling.
  - split; [done|done|done|done|apply NoDup_cancel_run_active_slots| |done].
    intros sid a (slot & ? & ? & _)%elem_of_cancel_run_active_slots. eauto.
Qed.

Section ids.
Context (m : gmap string WorkIntent) (Hkey : ∀ k i, m !! k = Some i → i.(wi_intent_id) = k).

Lemma elem_of_intent_ids (Q : WorkIntent → Prop) `{∀ i, Decision (Q i)} k :
  k ∈ wi_intent_id <$> filter Q (hash_values m) ↔ ∃ i, m !! k = Some i ∧ Q i.
Proof.
  rewrite list_elem_of_fmap. split.
  - intros (i & -> & [HQ (k' & Hi)%elem_of_hash_values]%list_elem_of_filter).
    exists i. by rewrite (Hkey _ _ Hi).
  - intros (i & Hi & HQ). exists i. split; [by rewrite (Hkey _ _ Hi)|].
    apply list_elem_of_filter. split; [done|]. apply elem_of_hash_values. eauto.
Qed.

Lemma NoDup_intent_ids (Q : WorkIntent → Prop) `{∀ i, Decision (Q i)} :
  NoDup (wi_intent_id <$> filter Q (hash_values m)).
Proof.
  eapply sublist_NoDup; [|apply fmap_sublist, sublist_filter].
  replace (wi_intent_id <$> hash_values m) with (hash_iter m).*1; [apply NoDup_hash_keys|].
  unfold hash_values. rewrite <- list_fmap_compose. apply list_fmap_ext.
  intros n [k i] Hn%list_elem_of_lookup_2%elem_of_hash_iter. symmetry. by apply Hkey.
Qed.
End ids.

Lemma wf_queued_slot g st k i :
  state_wf g st → st.(cs_intents) !! k = Some i → i.(wi_state) = IntentQueued →
  ∃ slot, st.(cs_slots) !! i.(wi_slot_id) = Some slot ∧ k ∈ slot_queue i.(wi_priority) slot.
Proof.
  intros Hwf Hi Hst. pose proof (wf_slot _ _ Hwf i.(wi_slot_id)) as Hs.
  assert (k ∈ slot_queue i.(wi_priority) (slot_entry i.(wi_slot_id) Teammate st)) as Hk.
  { apply (sw_queue _ _ _ _ Hs). by exists i. }
  unfold slot_entry in Hk. destruct (_ !! wi_slot_id i) as [slot|]; [by exists slot|].
  cbn [default] in Hk. rewrite slot_queue_new in Hk. set_solver.
Qed.

(** Queued intents of one slot become terminal and leave its queues. *)
Lemma retired_state_wf f ids sid slot g st :
  stable f → state_wf g st → st.(cs_slots) !! sid = Some slot →
  (∀ k i, k ∈ ids → st.(cs_intents) !! k = Some i →
     i.(wi_slot_id) = sid ∧ i.(wi_state) = IntentQueued ∧ is_terminal (f i) = true) →
  state_wf g (put_slot sid (remove_all ids slot) (assign_states f ids st)).
Proof.
  intros Hf Hwf Hslot Hids. apply state_wf_assign; [done| | |done].
  - intros k i Hk Hi. by apply (Hids k i).
  - eapply slot_wf_retire; [exact Hids|by apply updated_assign|by apply wf_slot_Some].
Qed.

Lemma remove_all_within new sid ids slot st :
  st.(cs_slots) !! sid = Some slot →
  active_within new st.(cs_slots) (<[sid := remove_all ids slot]> st.(cs_slots)).
Proof.
  intros Hslot. apply (active_within_same _ _ Teammate). left.
  by rewrite remove_all_active, (slot_entry_Some _ _ _ _ Hslot).
Qed.

(** What the loop over the queued intents of the run maintains. *)
Record draining (run : string) g st0 (rest : list string) st : Prop := {
  dr_wf : state_wf g st;
  dr_cancels : cancels run st0 st;
  dr_active : active_within [] st0.(cs_slots) st.(cs_slots);
  dr_leases : st.(cs_enqueue_leases) = st0.(cs_enqueue_leases);
  dr_nodup : NoDup rest;
  dr_rest k : k ∈ rest ↔ ∃ i, st.(cs_intents) !! k = Some i ∧
    in_run run i.(wi_team_run_id) && is_queued i.(wi_state);
}.

Lemma cancel_queued_intent_draining run g st0 k rest acc :
  draining run g st0 (k :: rest) acc.1 →
  ∃ acc', cancel_queued_intent acc k = Some acc' ∧ draining run g st0 rest acc'.1.
Proof.
  destruct acc as [st messages]. cbn [fst]. intros [Hwf Hc Hact Hl Hnd Hrest].
  apply NoDup_cons in Hnd as [Hk Hnd].
  destruct (proj1 (Hrest k)) as (i & Hi & [Hrun Hq]%andb_True); [set_solver|].
  assert (i.(wi_state) = IntentQueued) as Hst by (by destruct (wi_state i)).
  destruct (wf_queued_slot _ _ _ _ Hwf Hi Hst) as (slot & Hslot & _).
  unfold cancel_queued_intent. rewrite Hi. cbn [mbind option_bind].
  rewrite (set_intent_state_assign (run_cancelled run) _ _ _ i), (alter_slot_put _ _ _ slot);
    [|done|done|unfold run_cancelled; by rewrite (Is_true_eq_true _ Hrun)].
  eexists. split; [done|]. cbn [fst].
  change (remove_queued k slot) with (remove_all [k] slot).
  change (assign_state ?f k st) with (assign_states f [k] st).
  assert (∀ k' i', k' ∈ [k] → st.(cs_intents) !! k' = Some i' → i' = i) as Hone.
  { intros k' i' ->%list_elem_of_singleton ?. congruence. }
  split; [| | |done|done|].
  - apply retired_state_wf; [done..|]. intros k' i' Hk' Hi'. rewrite (Hone _ _ Hk' Hi').
    split; [done|]. split; [done|]. unfold run_cancelled. by rewrite (Is_true_eq_true _ Hrun).
  - etrans; [exact Hc|]. eapply (cancels_assign _ [k]); [done|]. intros k' i' Hk' Hi'.
    rewrite (Hone _ _ Hk' Hi'). by rewrite Hst.
  - etrans; [exact Hact|]. cbn [put_slot set_cs_slots cs_slots].
    rewrite assign_states_slots. by apply (remove_all_within _ _ [k]).
  - intros k'. cbn. rewrite lookup_alter. case_decide as Hkk.
    + subst k'. rewrite Hi. split; [done|]. intros (i' & [= <-] & [_ Hq']%andb_True).
      unfold run_cancelled in Hq'. by rewrite (Is_true_eq_true _ Hrun) in Hq'.
    + rewrite <- Hrest. set_solver.
Qed.

(** What [cancel_run] does. *)
Record run_cancelled_spec (run : string) c (r : CancelRunWorkResult) c' : Prop := {
  rcs_cancels : cancels run c.(co_state) c'.(co_state);
  rcs_terminal k i : c'.(co_state).(cs_intents) !! k = Some i →
    i.(wi_team_run_id) = Some run → is_terminal i.(wi_state) = true;
  rcs_leases k : c'.(co_state).(cs_enqueue_leases) !! k =
    match c.(co_state).(cs_enqueue_leases) !! k with
    | Some rec => if in_run run rec.(er_lease).(el_team_run_id) then None else Some rec
    | None => None
    end;
  rcs_summary : r.(cw_summary) = run_summary_locked c'.(co_state) run;
}.

Lemma cancels_queued_phase run g st0 st :
  state_wf g st → cancels run st0 st →
  active_within [] st0.(cs_slots) st.(cs_slots) →
  st.(cs_enqueue_leases) = st0.(cs_enqueue_leases) →
  draining run g st0
    (wi_intent_id <$>
       filter (λ i, in_run run i.(wi_team_run_id) && is_queued i.(wi_state))
         (hash_values st.(cs_intents))) st.
Proof.
  intros Hwf Hc Hact Hl. split; [done..| |].
  - apply NoDup_intent_ids, Hwf.
  - intros k. rewrite elem_of_intent_ids by apply Hwf. done.
Qed.

Lemma cancels_run run st0 st k i :
  cancels run st0 st → st.(cs_intents) !! k = Some i →
  ∃ i0, st0.(cs_intents) !! k = Some i0 ∧ i0.(wi_team_run_id) = i.(wi_team_run_id) ∧
        i0.(wi_slot_id) = i.(wi_slot_id).
Proof.
  intros [Ho Hn] Hi. destruct (st0.(cs_intents) !! k) as [i0|] eqn:Hi0.
  - destruct (Ho _ _ Hi0) as (t & Ht & _). exists i0. split; [done|]. rewrite Hi in Ht.
    by injection Ht as ->.
  - apply Hn in Hi0. congruence.
Qed.

(** No batch that survives the first loop holds an intent of the run. *)
Lemma cancelling_no_active run g st0 st sid slot a k i :
  state_wf g st0 →
  cancelling run g st0 (cancel_run_active_slots st0 run) [] st →
  st.(cs_slots) !! sid = Some slot → slot.(sl_active) = Some a →
  k ∈ a.(ab_batch).(wb_intent_ids) → st.(cs_intents) !! k = Some i →
  in_run run i.(wi_team_run_id) = true → False.
Proof.
  intros Hwf0 [Hwf Hc Hact _ _ _ Hdone] Hslot Ha Hk Hi Hrun.
  assert (active_batch st.(cs_slots) sid = Some a.(ab_batch)) as Hb.
  { unfold active_batch. rewrite Hslot. simpl. by rewrite Ha. }
  destruct (Hact _ _ Hb) as [Hb0|]; [|set_solver].
  unfold active_batch in Hb0. destruct (cs_slots st0 !! sid) as [slot0|] eqn:Hslot0; [|done].
  simpl in Hb0. destruct (sl_active slot0) as [a0|] eqn:Ha0; [|done]. injection Hb0 as Hab.
  assert ((sid, a0) ∈ cancel_run_active_slots st0 run) as Hin.
  { apply elem_of_cancel_run_active_slots. exists slot0. split; [done|]. split; [done|].
    destruct (cancels_run _ _ _ _ _ Hc Hi) as (i0 & Hi0 & Hr0 & _).
    apply existsb_exists. exists k. rewrite Hab. split; [by apply list_elem_of_In|].
    by rewrite Hi0, Hr0. }
  rewrite (Hdone _ _ Hin) in Hb; [done|set_solver].
Qed.

Lemma cancels_no_new_active run g st0 st :
  state_wf g st0 →
  cancelling run g st0 (cancel_run_active_slots st0 run) [] st →
  ∀ k i, st.(cs_intents) !! k = Some i → i.(wi_team_run_id) = Some run →
  is_terminal i.(wi_state) = true ∨ i.(wi_state) = IntentQueued.
Proof.
  intros Hwf0 Hcg k i Hi Hrun. pose proof (cg_wf _ _ _ _ _ _ Hcg) as Hwf.
  assert (in_run run i.(wi_team_run_id) = true) as Hin
    by (rewrite Hrun; by apply bool_decide_eq_true).
  destruct (slot_wf_cases _ _ _ _ k i (wf_slot _ _ Hwf i.(wi_slot_id)) Hi)
    as [[_ ?]|[(a & Ha & Hk & _)|?]]; [done|auto| |auto].
  exfalso. rewrite slot_entry_active in Ha.
  destruct (cs_slots st !! _) as [slot|] eqn:Hslot; [|done]. simpl in Ha.
  by eapply (cancelling_no_active run g st0 st).
Qed.

Lemma cancel_run_total run c :
  coordinator_wf c →
  ∃ r c', cancel_run run c = Some (r, c') ∧ preserved [] c c' ∧ run_cancelled_spec run c r c'.
Proof.
  intros Hwf. unfold cancel_run.
  destruct (for_each_cancel_run_slot run _ _ (c.(co_state), ([], [])) Hwf eq_refl)
    as ([st1 [targets messages]] & -> & Hcg).
  cbn [mbind option_bind]. cbn [fst] in Hcg. pose proof Hcg as [Hwf1 Hc1 Ha1 Hl1 _ _ _].
  set (ids := wi_intent_id <$> _).
  destruct (for_each_inv cancel_queued_intent
    (λ rest acc, draining run c.(co_session_generation) st1 rest acc.1) ids (st1, messages))
    as ([st2 messages'] & -> & [Hwf2 Hc2 Ha2 Hl2 _ Hd2]);
    [intros k rest acc; apply cancel_queued_intent_draining|by apply cancels_queued_phase|].
  cbn [mbind option_bind fst] in *. do 2 eexists. split; [done|].
  set (leases := foldl _ _ _).
  assert (∀ k, leases !! k = match st2.(cs_enqueue_leases) !! k with
    | Some rec => if in_run run rec.(er_lease).(el_team_run_id) then None else Some rec
    | None => None end) as Hleases.
  { intros k. unfold leases. rewrite lookup_delete_all.
    destruct (cs_enqueue_leases st2 !! k) as [rec|] eqn:Hrec; [|by case_decide].
    pose proof (wf_lease _ _ Hwf2 _ _ Hrec) as Hk. case_decide as Hin.
    - apply list_elem_of_fmap in Hin as (rec' & Hk' & [Hr (k' & Hrec')%elem_of_hash_values]%list_elem_of_filter).
      assert (k' = k) as -> by (rewrite <- (wf_lease _ _ Hwf2 _ _ Hrec'); congruence).
      simplify_eq. by rewrite (Is_true_eq_true _ Hr).
    - destruct (in_run run _) eqn:Hr; [|done]. destruct Hin. rewrite <- Hk.
      apply (list_elem_of_fmap_2 (λ r, el_lease_id (er_lease r))), list_elem_of_filter.
      rewrite Hr. split; [done|]. apply elem_of_hash_values. eauto. }
  split.
  - apply preserved_state.
    + apply state_wf_leases; [|done]. intros k rec. rewrite Hleases.
      destruct (cs_enqueue_leases st2 !! k) eqn:Hrec; [|done].
      destruct (in_run _ _); [done|]. intros [= <-]. by apply Hwf2.
    + apply (cancels_evolves run _ st2). by etrans.
    + by etrans.
  - split; [|intros k i; cbn; intros Hi Hrun|intros k; cbn; by rewrite Hleases, Hl2, Hl1|done].
    + assert (cancels run c.(co_state) st2) as [Ho Hn] by (by etrans).
      split; [exact Ho|exact Hn].
    + destruct (cancels_run _ _ _ _ _ Hc2 Hi) as (i1 & Hi1 & Hr1 & _).
      destruct (cc_old _ _ _ Hc2 _ _ Hi1) as (t & Ht & Hct). rewrite Hi in Ht.
      injection Ht as ->. rewrite Hrun in Hr1. simpl.
      destruct (cancels_no_new_active run _ _ _ Hwf Hcg _ _ Hi1 Hr1) as [Hterm|Hq].
      { destruct Hct as [->|[Hl ->]]; congruence. }
      destruct Hct as [->|[_ ->]].
      * rewrite Hq. exfalso. destruct (not_elem_of_nil k). apply Hd2. eexists.
        split; [exact Hi|]. simpl. rewrite Hr1, Hq. unfold in_run. by rewrite bool_decide_true.
      * unfold run_cancelled, in_run. by rewrite Hr1, bool_decide_true.
Qed.

(** *** Signals and pausing *)

Lemma alter_slot_assign sid g f ids st :
  assign_states f ids (alter_slot sid g st) = alter_slot sid g (assign_states f ids st).
Proof.
  unfold assign_states. revert st. induction ids as [|id ids IH]; intros st; cbn [foldl]; [done|].
  by rewrite <- IH.
Qed.

Lemma alter_slot_twice sid g1 g2 st :
  alter_slot sid g2 (alter_slot sid g1 st) = alter_slot sid (g2 ∘ g1) st.
Proof. unfold alter_slot. cbn. by rewrite alter_alter_eq. Qed.

Lemma alter_slot_id sid g st :
  (∀ s, st.(cs_slots) !! sid = Some s → g s = s) → alter_slot sid g st = st.
Proof.
  intros Hg. unfold alter_slot. rewrite alter_id by done. by destruct st.
Qed.

Lemma foldl_complete_signals sid ids st :
  foldl (λ st id, alter_slot sid (remove_queued id) (set_intent_state IntentCompleted id st))
    st ids =
  alter_slot sid (remove_all ids) (assign_states (λ _, IntentCompleted) ids st).
Proof.
  revert st. induction ids as [|id ids IH]; intros st; cbn [foldl].
  - by rewrite alter_slot_id.
  - rewrite IH, alter_slot_assign, alter_slot_twice. done.
Qed.

Lemma is_queued_signal_spec st sid k :
  is_queued_signal st sid k = true →
  ∃ i, st.(cs_intents) !! k = Some i ∧ i.(wi_slot_id) = sid ∧ i.(wi_state) = IntentQueued ∧
       i.(wi_mailbox_message_id) = None.
Proof.
  unfold is_queued_signal. destruct (cs_intents st !! k) as [i|]; [|done].
  intros [[?%bool_decide_eq_true ?%bool_decide_eq_true]%andb_true_iff Hq]%andb_true_iff.
  exists i. by destruct (wi_state i).
Qed.

(** The state in which queued signals have been completed. *)
Definition settled_state sid ids st : CoordinatorState :=
  alter_slot sid (remove_all ids) (assign_states (λ _, IntentCompleted) ids st).

Lemma alter_slot_within new sid g st :
  (∀ s b, ab_batch <$> (g s).(sl_active) = Some b → ab_batch <$> s.(sl_active) = Some b) →
  active_within new st.(cs_slots) (alter_slot sid g st).(cs_slots).
Proof.
  intros Hg sid' b Hb. left. unfold active_batch in *. cbn in *. rewrite lookup_alter in Hb.
  case_decide; [|done]. subst. destruct (_ !! sid'); [|done]. by apply Hg.
Qed.

Lemma complete_signals_preserved sid ids c :
  coordinator_wf c → preserved [] c (complete_signals sid ids c).2.
Proof.
  intros Hwf. unfold complete_signals.
  destruct (forallb _ _) eqn:Hall; [|by apply preserved_refl]. cbn [negb].
  rewrite forallb_forall in Hall.
  assert (∀ k, k ∈ ids → is_queued_signal c.(co_state) sid k = true) as Hsig.
  { intros k Hk. by apply Hall, list_elem_of_In. }
  rewrite foldl_complete_signals. apply preserved_state.
  - destruct (cs_slots (co_state c) !! sid) as [slot|] eqn:Hslot.
    + rewrite (alter_slot_put _ _ _ slot) by (by rewrite assign_states_slots).
      apply retired_state_wf; [done..|]. intros k i Hk Hi.
      destruct (is_queued_signal_spec _ _ _ (Hsig k Hk)) as (i' & ? & ? & ? & _).
      by simplify_eq.
    + rewrite alter_slot_id by (rewrite assign_states_slots; congruence).
      destruct ids as [|k ids]; [done|]. exfalso.
      destruct (is_queued_signal_spec _ _ _ (Hsig k ltac:(set_solver))) as (i & Hi & Hsid & Hq & _).
      destruct (wf_queued_slot _ _ _ _ Hwf Hi Hq) as (slot & Hs & _). congruence.
  - apply (evolves_assign_states _ ids c.(co_state)); [done|]. intros k i Hk Hi Ht.
    destruct (is_queued_signal_spec _ _ _ (Hsig k Hk)) as (i' & ? & _ & Hq & _).
    simplify_eq. by rewrite Hq in Ht.
  - rewrite <- alter_slot_assign, assign_states_slots. apply alter_slot_within.
    intros s b. by rewrite remove_all_active.
Qed.

Lemma pause_slot_preserved sid c :
  coordinator_wf c → ∃ r c', pause_slot sid c = Some (r, c') ∧ preserved [] c c'.
Proof.
  intros Hwf. unfold pause_slot. take_snapshot. do 2 eexists. split; [done|].
  apply preserved_state_silent; [|done|].
  - apply state_wf_put_slot; [apply slot_entry_same_fields|done].
  - eapply active_within_same. by left.
Qed.

(** *** Runtime constraints *)

Definition constrained constraint (terminal : WorkIntentState) (i : WorkIntent) :
    WorkIntentState :=
  if bool_decide (i.(wi_team_run_id) = None) && negb (is_session_stopped constraint)
  then IntentQueued else terminal.

Definition constrain_log constraint (log : list (WorkPriority * string) * list string * list string)
    (intent_id : string) (i : WorkIntent) :
    list (WorkPriority * string) * list string * list string :=
  let '(requeue, messages, runs) := log in
  if bool_decide (i.(wi_team_run_id) = None) && negb (is_session_stopped constraint)
  then (requeue ++ [(i.(wi_priority), intent_id)], messages, runs)
  else (requeue, messages ++ option_list i.(wi_mailbox_message_id),
        runs ++ option_list i.(wi_team_run_id)).

Lemma constrain_log_retained constraint terminal st ids log :
  is_terminal terminal = true →
  (log_of (constrain_log constraint) st log ids).1.1 =
    log.1.1 ++ retained (constrained constraint terminal) st.(cs_intents) ids.
Proof.
  intros Hterm. unfold log_of. revert log.
  induction ids as [|k ids IH]; intros log; cbn [foldl]; [by rewrite app_nil_r|].
  rewrite IH. unfold retained. cbn [omap list_omap].
  destruct (cs_intents st !! k) as [i|]; [|done]. cbn [mbind option_bind from_option].
  destruct log as [[requeue messages] runs].
  assert (is_queued (constrained constraint terminal i) =
    bool_decide (i.(wi_team_run_id) = None) && negb (is_session_stopped constraint)) as ->
    by (unfold constrained; destruct (_ && _); by destruct terminal).
  unfold constrain_log. destruct (_ && _); cbn [fst snd]; [by rewrite <- app_assoc|done].
Qed.

Lemma for_each_constrain_intent constraint terminal st ids :
  (∀ k, k ∈ ids → is_Some (st.(cs_intents) !! k)) →
  for_each (constrain_intent constraint terminal) (st, ([], [], [])) ids =
    Some (assign_states (constrained constraint terminal) ids st,
          log_of (constrain_log constraint) st ([], [], []) ids).
Proof.
  apply for_each_assign; [|done]. intros st0 [[requeue messages] runs] id.
  unfold constrain_intent, constrain_log.
  destruct (cs_intents st0 !! id) as [i|] eqn:Hi; [|done]. cbn [mbind option_bind].
  rewrite <- (set_intent_state_assign _ _ (constrained constraint terminal i) _ i) by done.
  unfold constrained. by destruct (_ && _).
Qed.

Lemma elem_of_live_intents_of st sid k :
  (∀ k i, st.(cs_intents) !! k = Some i → i.(wi_intent_id) = k) →
  k ∈ live_intents_of st sid ↔
    ∃ i, st.(cs_intents) !! k = Some i ∧ i.(wi_slot_id) = sid ∧ is_terminal i.(wi_state) = false.
Proof.
  intros Hkey. unfold live_intents_of. rewrite elem_of_intent_ids by done.
  split; intros (i & Hi & Hc); exists i; (split; [done|]).
  - apply andb_True in Hc as [Hs Ht]. split; [by apply bool_decide_unpack in Hs|].
    by destruct (is_terminal _).
  - destruct Hc as [-> ->]. by rewrite bool_decide_true.
Qed.

(** The state after the live intents of a slot have been re-decided by [f]. *)
Definition reset_state (f : WorkIntent → WorkIntentState) sid ids slot st : CoordinatorState :=
  put_slot sid
    (requeue_back (retained f st.(cs_intents) ids) (set_sl_active None (clear_queues slot)))
    (assign_states f ids st).

Lemma reset_state_wf f sid ids slot g st :
  stable f → state_wf g st → NoDup ids →
  (∀ k i, k ∈ ids → st.(cs_intents) !! k = Some i →
     i.(wi_slot_id) = sid ∧ is_terminal i.(wi_state) = false) →
  (∀ k i, st.(cs_intents) !! k = Some i → i.(wi_slot_id) = sid →
     is_terminal i.(wi_state) = false → k ∈ ids) →
  (∀ i, f i = IntentQueued ∨ is_terminal (f i) = true) →
  state_wf g (reset_state f sid ids slot st) ∧
  evolves st.(cs_intents) (reset_state f sid ids slot st).(cs_intents) ∧
  active_within [] st.(cs_slots) (reset_state f sid ids slot st).(cs_slots).
Proof.
  intros Hf Hwf Hnd Hin Hall Hfi. unfold reset_state. split; [|split].
  - apply state_wf_assign; [done| | |done].
    + intros k i Hk Hi. by apply (Hin k i).
    + eapply slot_wf_clear; [done|exact Hall| |by apply updated_assign].
      intros k i Hk Hi. split; [by apply (Hin k i)|done].
  - apply evolves_assign_states; [done|]. intros k i Hk Hi Ht.
    destruct (Hin _ _ Hk Hi). congruence.
  - cbn [put_slot set_cs_slots cs_slots]. rewrite assign_states_slots.
    apply (active_within_same _ _ Teammate). right. by rewrite requeue_back_active.
Qed.

(** The slot under its new constraint. *)
Definition constrained_slot sid constraint st : SlotState :=
  set_sl_runtime_constraint constraint (slot_entry sid Teammate st).

Definition constrained_state sid constraint st : CoordinatorState :=
  let slot := constrained_slot sid constraint st in
  let st := put_slot sid slot st in
  match constraint_terminal_state constraint with
  | None => st
  | Some terminal =>
      reset_state (constrained constraint terminal) sid (live_intents_of st sid) slot st
  end.

Lemma constraint_terminal_is_terminal constraint terminal :
  constraint_terminal_state constraint = Some terminal → is_terminal terminal = true.
Proof. by destruct constraint; intros [= <-]. Qed.

Lemma set_runtime_constraint_eq sid constraint c :
  coordinator_wf c →
  ∃ r runs, set_runtime_constraint sid constraint c =
    Some (r, let st := constrained_state sid constraint c.(co_state) in
             publish_run_summaries (run_summaries_locked st runs) (with_state st c)).
Proof.
  intros Hwf. unfold set_runtime_constraint, constrained_state.
  fold (constrained_slot sid constraint c.(co_state)).
  set (slot := constrained_slot _ _ _). set (st := put_slot sid slot _).
  destruct (constraint_terminal_state constraint) as [terminal|] eqn:Hterm.
  - rewrite for_each_constrain_intent.
    + cbn [mbind option_bind]. pose proof (constrain_log_retained constraint terminal st
        (live_intents_of st sid) ([], [], []) (constraint_terminal_is_terminal _ _ Hterm)) as Hr.
      destruct (log_of _ _ _ _) as [[requeue messages] runs]. cbn [fst app] in Hr. subst requeue.
      rewrite assign_states_slots.
      replace (st.(cs_slots) !! sid) with (Some slot) by (symmetry; apply lookup_put_slot_eq).
      cbn [mbind option_bind]. take_snapshot. do 2 eexists. done.
    + intros k (i & Hi & _)%elem_of_live_intents_of; [eauto|apply Hwf].
  - cbn [mbind option_bind]. destruct (slot_snapshot_put c.(co_state) sid slot) as [? Hsnap].
    fold st in Hsnap. rewrite Hsnap. cbn [mbind option_bind]. by do 2 eexists.
Qed.

Lemma put_slot_evolves sid s st :
  evolves st.(cs_intents) (put_slot sid s st).(cs_intents).
Proof. by unfold put_slot. Qed.

Lemma set_runtime_constraint_preserved sid constraint c :
  coordinator_wf c →
  ∃ r c', set_runtime_constraint sid constraint c = Some (r, c') ∧ preserved [] c c'.
Proof.
  intros Hwf. destruct (set_runtime_constraint_eq sid constraint c Hwf) as (r & runs & ->).
  do 2 eexists. split; [done|]. unfold constrained_state.
  set (slot := constrained_slot _ _ _). set (st := put_slot sid slot _).
  assert (state_wf c.(co_session_generation) st) as Hst.
  { apply state_wf_put_slot; [apply slot_entry_same_fields|done]. }
  assert (active_within [] c.(co_state).(cs_slots) st.(cs_slots)) as Hact
    by (eapply active_within_same; by left).
  destruct (constraint_terminal_state constraint) as [terminal|] eqn:Hterm;
    [|by apply preserved_state].
  destruct (reset_state_wf (constrained constraint terminal) sid (live_intents_of st sid) slot
    c.(co_session_generation) st) as (? & Hev & Ha); [done|done| | | | |].
  - apply NoDup_intent_ids, Hst.
  - intros k i (i' & ? & ?)%elem_of_live_intents_of Hi; [by simplify_eq|apply Hst].
  - intros k i Hi Hs Ht. apply elem_of_live_intents_of; [apply Hst|eauto].
  - intros i. unfold constrained. destruct (_ && _); [by left|right].
    by eapply constraint_terminal_is_terminal.
  - apply preserved_state; [done|done|]. by etrans.
Qed.

(** *** Removal and shutdown *)

Definition slot_removed_log (log : list string * list string) (_ : string) (i : WorkIntent) :
    list string * list string :=
  (log.1 ++ option_list i.(wi_mailbox_message_id), log.2 ++ option_list i.(wi_team_run_id)).

(** The intents that [remove_slot] cancels are exactly the live ones of the slot. *)
Lemma elem_of_removal_order g st sid k :
  state_wf g st →
  k ∈ removal_order st sid ↔
    ∃ i, st.(cs_intents) !! k = Some i ∧ i.(wi_slot_id) = sid ∧ is_terminal i.(wi_state) = false.
Proof.
  intros Hwf. unfold removal_order. set (ordered := match _ with Some _ => _ | None => _ end).
  assert (∀ k, k ∈ ordered → ∃ i, st.(cs_intents) !! k = Some i ∧ i.(wi_slot_id) = sid ∧
    is_terminal i.(wi_state) = false) as Hordered.
  { subst ordered. intros k'. destruct (cs_slots st !! sid) as [slot|] eqn:Hslot; [|set_solver].
    pose proof (wf_slot_Some _ _ _ _ Hwf Hslot) as Hs.
    rewrite elem_of_app. intros [Hk|[p Hk]%elem_of_queued_ids].
    - destruct (sl_active slot) as [a|] eqn:Ha; [|set_solver].
      apply (sw_active _ _ _ _ Hs _ Ha) in Hk as (i & Hi & Hsid & _ & Hst).
      exists i. split; [done|]. split; [done|]. rewrite Hst. unfold active_state.
      by destruct (ab_turn_id a).
    - apply (sw_queue _ _ _ _ Hs) in Hk as (i & Hi & Hsid & _ & Hst).
      exists i. by rewrite Hst. }
  rewrite elem_of_app, merge_sort_Permutation, elem_of_intent_ids by apply Hwf. split.
  - intros [Hk|(i & Hi & Hc)]; [by apply Hordered|]. exists i. split; [done|].
    apply andb_True in Hc as [[Hs%bool_decide_unpack Ht]%andb_True _].
    split; [done|]. by destruct (is_terminal _).
  - intros (i & Hi & Hsid & Ht). destruct (decide (k ∈ ordered)) as [|Hk]; [by left|right].
    exists i. split; [done|]. rewrite Hsid, Ht, (wf_key _ _ Hwf _ _ Hi).
    by rewrite !bool_decide_true.
Qed.

Definition remove_slot_update (slot : SlotState) : SlotState :=
  set_sl_removed true (set_sl_active None (clear_queues slot)).

Definition removed_state sid st : CoordinatorState :=
  alter_slot sid remove_slot_update
    (assign_states (λ _, IntentCancelled "slot_removed") (removal_order st sid) st).

Lemma remove_slot_eq sid c :
  coordinator_wf c →
  ∃ r runs, remove_slot sid c =
    Some (r, let st := removed_state sid c.(co_state) in
             publish_run_summaries (run_summaries_locked st runs) (with_state st c)).
Proof.
  intros Hwf. unfold remove_slot.
  rewrite (for_each_assign _ (λ _, IntentCancelled "slot_removed") slot_removed_log).
  - cbn [mbind option_bind]. destruct (log_of _ _ _ _) as [messages runs].
    cbn [mbind option_bind]. by do 2 eexists.
  - intros st [messages runs] id. unfold slot_removed_intent.
    by destruct (cs_intents st !! id).
  - done.
  - intros k (i & Hi & _)%(elem_of_removal_order _ _ _ _ Hwf). eauto.
Qed.

Lemma remove_slot_preserved sid c :
  coordinator_wf c → ∃ r c', remove_slot sid c = Some (r, c') ∧ preserved [] c c'.
Proof.
  intros Hwf. destruct (remove_slot_eq sid c Hwf) as (r & runs & ->).
  do 2 eexists. split; [done|]. unfold removed_state.
  set (st := c.(co_state)) in *. change (state_wf c.(co_session_generation) st) in Hwf.
  set (f := λ _ : WorkIntent, _).
  assert (∀ k i, k ∈ removal_order st sid → st.(cs_intents) !! k = Some i →
    i.(wi_slot_id) = sid ∧ is_terminal i.(wi_state) = false) as Hin.
  { intros k i (i' & ? & ?)%(elem_of_removal_order _ _ _ _ Hwf) Hi. by simplify_eq. }
  apply preserved_state.
  - destruct (cs_slots st !! sid) as [slot|] eqn:Hslot.
    + rewrite (alter_slot_put _ _ _ slot) by (by rewrite assign_states_slots).
      apply state_wf_assign; [done|intros k i Hk Hi; by apply (Hin k i)| |done].
      apply slot_wf_empty; [by intros []|done|]. intros k i Hk Hsid.
      destruct (updated_inv f _ _ _ _ _ (updated_assign f _ st (λ _ _, eq_refl)) Hk)
        as [(_ & i0 & _ & ->)|[Hnot Hi]]; [done|].
      destruct (is_terminal (wi_state i)) eqn:Ht; [done|].
      destruct Hnot. apply (elem_of_removal_order _ _ _ _ Hwf). eauto.
    + rewrite alter_slot_id by (rewrite assign_states_slots; congruence).
      replace (removal_order st sid) with (@nil string); [done|].
      destruct (removal_order st sid) as [|k l] eqn:Hl; [done|]. exfalso.
      destruct (proj1 (elem_of_removal_order _ _ sid k Hwf)) as (i & Hi & Hsid & Ht).
      { fold st. rewrite Hl. set_solver. }
      destruct (slot_wf_cases _ _ _ _ k i (wf_slot _ _ Hwf i.(wi_slot_id)) Hi)
        as [[_ Hq]|[(a & Ha & _)|?]]; [done| | |congruence].
      * destruct (wf_queued_slot _ _ _ _ Hwf Hi Hq) as (slot & ? & _). congruence.
      * rewrite slot_entry_active, Hsid in Ha. fold st in Ha. by rewrite Hslot in Ha.
  - apply (evolves_assign_states f _ st); [done|]. intros k i Hk Hi Ht.
    destruct (Hin _ _ Hk Hi). congruence.
  - rewrite <- alter_slot_assign, assign_states_slots. by apply alter_slot_within.
Qed.

Definition stopped_state st : CoordinatorState :=
  mkCoordinatorState (stop_slot <$> st.(cs_slots)) (stop_intent <$> st.(cs_intents)) ∅
    st.(cs_next_operation_id).

Lemma stop_intent_set i :
  ∃ t, stop_intent i = set_wi_state t i ∧ is_terminal t = true ∧
       (is_terminal i.(wi_state) = true → t = i.(wi_state)).
Proof.
  unfold stop_intent. destruct (is_terminal (wi_state i)) eqn:Ht.
  - exists i.(wi_state). by rewrite set_wi_state_id.
  - by eexists.
Qed.

Lemma stopped_terminal st k i :
  (stopped_state st).(cs_intents) !! k = Some i → is_terminal i.(wi_state) = true.
Proof.
  cbn. rewrite lookup_fmap. intros (i0 & _ & ->)%fmap_Some.
  by destruct (stop_intent_set i0) as (t & -> & ? & _).
Qed.

Lemma stop_preserved c : coordinator_wf c → preserved [] c (stop c).2.
Proof.
  intros Hwf. unfold stop. cbn [snd]. fold (stopped_state c.(co_state)). apply preserved_state.
  - split.
    + intros k i'. cbn. rewrite lookup_fmap. intros (i & Hi & ->)%fmap_Some.
      destruct (stop_intent_set i) as (t & -> & _). exact (wf_key _ _ Hwf _ _ Hi).
    + intros sid. unfold slot_entry. cbn. rewrite lookup_fmap.
      destruct (cs_slots _ !! sid); cbn [fmap option_fmap option_map default];
        (apply slot_wf_empty; [by intros []|done|]);
        intros k i Hk _; by apply (stopped_terminal c.(co_state) k).
    + done.
    + apply Hwf.
  - intros k i Hi. cbn. rewrite lookup_fmap, Hi.
    destruct (stop_intent_set i) as (t & Ht & _ & ?). exists t. by rewrite <- Ht.
  - intros sid b. unfold active_batch. cbn. rewrite lookup_fmap.
    by destruct (cs_slots _ !! sid).
Qed.
End ops.
