(* ===== verification/WorkSystem.v ===== *)
(** * The coordinator as a transition system

    Every public method of [SlotWorkCoordinator] as a [Call], its execution, and the
    system of a coordinator with the batches that it has handed out.  The callers are
    arbitrary: any call, in any order, with any clock and any iteration order of the
    hash maps.  Two things are assumed of a call: its new identifiers are new (they
    are UUIDs), and a batch passed back is one that [next] returned (the session keeps
    no other).  Between two calls the run manager may change in any way. *)
From S2P Require Import Prelude WorkModel WorkState WorkCoordinator WorkInvariant WorkOps.

(** ** Calls *)

Inductive Call :=
  | CallAcquire (request : EnqueueRequest)
  | CallCommit (lease : EnqueueLease) (mailbox_message_id : option string)
  | CallAbort (lease : EnqueueLease)
  | CallReconcile (slot_id : string) (unread : list string) (role : TeamRunTargetRole)
  | CallNext (slot_id : string)
  | CallStarted (batch : WorkBatch) (turn_id : string)
  | CallRetry (batch : WorkBatch)
  | CallComplete (batch : WorkBatch)
  | CallFail (batch : WorkBatch) (classification : string)
  | CallCancelBatch (batch : WorkBatch) (classification : string)
  | CallCancelRun (team_run_id : string)
  | CallSignals (slot_id : string) (intent_ids : list string)
  | CallPause (slot_id : string)
  | CallConstrain (slot_id : string) (constraint : RuntimeConstraint)
  | CallRemove (slot_id : string)
  | CallStop.

Inductive CallResult :=
  | RetLease (r : result EnqueueLease TeamError)
  | RetCommit (r : result EnqueueCommit TeamError)
  | RetOutcome (r : CommitResult)
  | RetStart (r : StartCommitResult)
  | RetProjection (r : ReconcileProjection)
  | RetDecision (r : ReconcileDecision)
  | RetCancelRun (r : CancelRunWorkResult)
  | RetPause (r : PauseWorkResult)
  | RetConstraint (r : RuntimeConstraintUpdate)
  | RetRemove (r : RemoveWorkResult)
  | RetSummaries (r : list RunWorkSummary).

(** The batch that a call passes back. *)
Definition call_batch (call : Call) : option WorkBatch :=
  match call with
  | CallStarted batch _ | CallRetry batch | CallComplete batch | CallFail batch _
  | CallCancelBatch batch _ => Some batch
  | _ => None
  end.

(** The batches that a result hands out. *)
Definition handed_out (r : CallResult) : list WorkBatch :=
  match r with RetDecision d => claimed d | _ => [] end.

Section system.
Context {P : Type} `{RunCausalityPort P}.
Implicit Types c : Coordinator P.

Definition exec `{CallEnv} (call : Call) c : option (CallResult * Coordinator P) :=
  let ret {A} (inj : A → CallResult) (o : option (A * Coordinator P)) :=
    '(a, c) ← o; Some (inj a, c) in
  match call with
  | CallAcquire request => ret RetLease (Some (acquire_enqueue request c))
  | CallCommit lease message_id => ret RetCommit (commit_enqueue lease message_id c)
  | CallAbort lease => ret RetOutcome (Some (abort_enqueue lease c))
  | CallReconcile slot_id unread role => ret RetProjection (reconcile_mailbox slot_id unread role c)
  | CallNext slot_id => ret RetDecision (next slot_id c)
  | CallStarted batch turn_id => ret RetStart (Some (mark_started batch turn_id c))
  | CallRetry batch => ret RetOutcome (retry_start batch c)
  | CallComplete batch => ret RetOutcome (complete_batch batch c)
  | CallFail batch classification => ret RetOutcome (fail_batch batch classification c)
  | CallCancelBatch batch classification => ret RetOutcome (cancel_batch batch classification c)
  | CallCancelRun team_run_id => ret RetCancelRun (cancel_run team_run_id c)
  | CallSignals slot_id intent_ids => ret RetOutcome (Some (complete_signals slot_id intent_ids c))
  | CallPause slot_id => ret RetPause (pause_slot slot_id c)
  | CallConstrain slot_id constraint =>
      ret RetConstraint (set_runtime_constraint slot_id constraint c)
  | CallRemove slot_id => ret RetRemove (remove_slot slot_id c)
  | CallStop => ret RetSummaries (Some (stop c))
  end.

(** ** The system *)

Record System := mkSystem {
  sy_coordinator : Coordinator P;
  sy_issued : list WorkBatch;
}.

Definition sy_state (s : System) : CoordinatorState := s.(sy_coordinator).(co_state).

(** What is assumed of a call in a state. *)
Record call_ok (env : CallEnv) (call : Call) (s : System) : Prop := {
  ok_fresh : fresh_ids (sy_state s);
  ok_fresh_batch n b : b ∈ s.(sy_issued) → b.(wb_batch_id) ≠ gen_id n;
  ok_batch b : call_batch call = Some b → b ∈ s.(sy_issued);
}.

Inductive step : System → System → Prop :=
  | step_call (env : CallEnv) call s r c' :
      call_ok env call s →
      exec call s.(sy_coordinator) = Some (r, c') →
      step s (mkSystem c' (handed_out r ++ s.(sy_issued)))
  | step_port p s :
      step s (mkSystem (with_port p s.(sy_coordinator)) s.(sy_issued)).

Definition steps : System → System → Prop := rtc step.

Definition initial (generation : string) (p : P) : System :=
  mkSystem (new_coordinator generation p) [].

Definition reachable (s : System) : Prop := ∃ g p, steps (initial g p) s.

(** The invariant of the system. *)
Record system_wf (s : System) : Prop := {
  sys_wf : coordinator_wf s.(sy_coordinator);
  sys_active sid b : active_batch (sy_state s).(cs_slots) sid = Some b → b ∈ s.(sy_issued);
  sys_unique b1 b2 : b1 ∈ s.(sy_issued) → b2 ∈ s.(sy_issued) →
    b1.(wb_batch_id) = b2.(wb_batch_id) → b1 = b2;
}.

Lemma system_known s b : system_wf s → b ∈ s.(sy_issued) → known_batch (sy_state s).(cs_slots) b.
Proof. intros Hwf Hb b' Hb' Hid. eapply sys_unique; [done| |done|done]. by eapply sys_active. Qed.

(** ** Every call, uniformly *)

Lemma exec_preserved (env : CallEnv) call s :
  system_wf s → call_ok env call s →
  ∃ r c', exec call s.(sy_coordinator) = Some (r, c') ∧
          preserved (handed_out r) s.(sy_coordinator) c'.
Proof.
  intros Hwf [Hfresh _ Hbatch]. pose proof (sys_wf _ Hwf) as Hc. unfold sy_state in *.
  assert (∀ b, call_batch call = Some b → known_batch (co_state (sy_coordinator s)).(cs_slots) b)
    as Hknown by (intros b Hb; apply system_known; auto).
  assert (∀ A (inj : A → CallResult) (o : option (A * Coordinator P)),
    (∀ a, handed_out (inj a) = []) →
    (∃ a c', o = Some (a, c') ∧ preserved [] s.(sy_coordinator) c') →
    ∃ r c', ('(a, c) ← o; Some (inj a, c)) = Some (r, c') ∧
            preserved (handed_out r) s.(sy_coordinator) c') as Hret.
  { intros A inj o Hinj (a & c' & -> & Hp). exists (inj a), c'. split; [done|]. by rewrite Hinj. }
  assert (∀ A (inj : A → CallResult) (o : A * Coordinator P),
    (∀ a, handed_out (inj a) = []) → preserved [] s.(sy_coordinator) o.2 →
    ∃ r c', ('(a, c) ← Some o; Some (inj a, c)) = Some (r, c') ∧
            preserved (handed_out r) s.(sy_coordinator) c') as Hpure.
  { intros A inj [a c'] Hinj Hp. apply Hret; [done|]. eauto. }
  destruct call; cbn [exec call_batch] in *.
  - apply Hpure; [done|]. by apply acquire_enqueue_preserved.
  - apply Hret; [done|]. by apply commit_enqueue_preserved.
  - apply Hpure; [done|]. by apply abort_enqueue_preserved.
  - apply Hret; [done|]. by apply reconcile_mailbox_preserved.
  - destruct (next_preserved slot_id _ Hc) as (d & c' & -> & Hp).
    by exists (RetDecision d), c'.
  - apply Hpure; [done|]. apply mark_started_preserved; auto.
  - apply Hret; [done|]. apply retry_start_preserved; auto.
  - apply Hret; [done|]. apply terminalize_batch_preserved; auto.
  - apply Hret; [done|]. apply terminalize_batch_preserved; auto.
  - apply Hret; [done|]. apply terminalize_batch_preserved; auto.
  - apply Hret; [done|]. destruct (cancel_run_total team_run_id _ Hc) as (r & c' & ? & ? & _).
    eauto.
  - apply Hpure; [done|]. by apply complete_signals_preserved.
  - apply Hret; [done|]. by apply pause_slot_preserved.
  - apply Hret; [done|]. by apply set_runtime_constraint_preserved.
  - apply Hret; [done|]. by apply remove_slot_preserved.
  - apply Hpure; [done|]. by apply stop_preserved.
Qed.

Lemma next_claim_id `{CallEnv} sid c d c' b :
  next sid c = Some (d, c') → coordinator_wf c → b ∈ claimed d → b.(wb_batch_id) = gen_id 0.
Proof.
  intros Hnext Hwf Hb. destruct (next_total sid c Hwf) as (d' & c1 & Hnext' & Hspec).
  rewrite Hnext in Hnext'. injection Hnext' as <- <-.
  destruct Hspec; simpl in Hb; set_solver.
Qed.

Lemma handed_out_id (env : CallEnv) call c r c' b :
  exec call c = Some (r, c') → coordinator_wf c → b ∈ handed_out r →
  b.(wb_batch_id) = gen_id 0.
Proof.
  intros Hexec Hwf Hb.
  destruct call; cbn [exec] in Hexec;
    try (destruct (_ : option _) as [[??]|]; simplify_eq/=; by apply not_elem_of_nil in Hb).
  all: match type of Hexec with context [?o ≫= _] => destruct o as [[a c1]|] eqn:Ho end;
    simplify_eq/=; try by apply not_elem_of_nil in Hb.
  by eapply next_claim_id.
Qed.

Lemma handed_out_unique (env : CallEnv) call c r c' b1 b2 :
  exec call c = Some (r, c') → b1 ∈ handed_out r → b2 ∈ handed_out r → b1 = b2.
Proof.
  intros _. destruct r as [| | | | |d| | | | |]; simpl; try set_solver.
  destruct d; simpl; set_solver.
Qed.

Lemma step_system_wf s s' : step s s' → system_wf s → system_wf s'.
Proof.
  intros [env call s0 r c' Hok Hexec|p s0] Hwf; [|by destruct Hwf].
  destruct (exec_preserved env call s0 Hwf Hok) as (r' & c1 & Hexec' & Hp).
  rewrite Hexec in Hexec'. injection Hexec' as <- <-.
  assert (∀ b, b ∈ handed_out r → b.(wb_batch_id) = gen_id 0) as Hid.
  { intros b. eapply handed_out_id; [exact Hexec|apply Hwf]. }
  split; cbn [sy_state sy_coordinator sy_issued].
  - apply Hp.
  - intros sid b Hb. apply elem_of_app. destruct (pr_active _ _ _ Hp _ _ Hb); [right|by left].
    by eapply sys_active.
  - intros b1 b2 [Hb1|Hb1]%elem_of_app [Hb2|Hb2]%elem_of_app Heq.
    + by eapply handed_out_unique.
    + destruct (ok_fresh_batch _ _ _ Hok 0 _ Hb2). rewrite <- Heq. auto.
    + destruct (ok_fresh_batch _ _ _ Hok 0 _ Hb1). rewrite Heq. auto.
    + by eapply sys_unique.
Qed.

Lemma steps_system_wf s s' : steps s s' → system_wf s → system_wf s'.
Proof. induction 1; eauto using step_system_wf. Qed.

Lemma initial_wf g p : system_wf (initial g p).
Proof.
  split; [|by intros sid b|set_solver]. split; [done| |done|done].
  intros sid. apply slot_wf_empty; [by intros []|done|done].
Qed.

Lemma reachable_system_wf s : reachable s → system_wf s.
Proof. intros (g & p & Hs). eapply steps_system_wf; [done|apply initial_wf]. Qed.

Lemma step_evolves s s' :
  system_wf s → step s s' → evolves (sy_state s).(cs_intents) (sy_state s').(cs_intents).
Proof.
  intros Hwf Hstep. destruct Hstep as [env call s0 r c' Hok Hexec|]; [|done].
  destruct (exec_preserved env call s0 Hwf Hok) as (r' & c1 & Hexec' & Hp).
  rewrite Hexec in Hexec'. injection Hexec' as <- <-. apply Hp.
Qed.

Lemma steps_evolves s s' :
  system_wf s → steps s s' → evolves (sy_state s).(cs_intents) (sy_state s').(cs_intents).
Proof.
  intros Hwf Hsteps. induction Hsteps as [|s1 s2 s3 Hstep _ IH]; [done|].
  etrans; [by apply step_evolves|]. apply IH. by eapply step_system_wf.
Qed.

(** A batch that is no longer active never is again. *)
Definition retired (b : WorkBatch) (s : System) : Prop :=
  b ∈ s.(sy_issued) ∧ ∀ sid, active_batch (sy_state s).(cs_slots) sid ≠ Some b.

Lemma step_retired b s s' : system_wf s → step s s' → retired b s → retired b s'.
Proof.
  intros Hwf Hstep [Hb Hnot]. destruct Hstep as [env call s0 r c' Hok Hexec|]; [|done].
  destruct (exec_preserved env call s0 Hwf Hok) as (r' & c1 & Hexec' & Hp).
  rewrite Hexec in Hexec'. injection Hexec' as <- <-.
  split; [cbn; set_solver|]. intros sid Hact.
  destruct (pr_active _ _ _ Hp _ _ Hact) as [|Hin]; [by eapply Hnot|].
  destruct (ok_fresh_batch _ _ _ Hok 0 b Hb). eapply handed_out_id; [done|apply Hwf|done].
Qed.

Lemma steps_retired b s s' : system_wf s → steps s s' → retired b s → retired b s'.
Proof.
  intros Hwf Hsteps. induction Hsteps as [|s1 s2 s3 Hstep _ IH]; [done|].
  intros Hr. apply IH; [by eapply step_system_wf|by eapply step_retired].
Qed.
End system.
Arguments System : clear implicits.
Arguments mkSystem {P} _ _.
