(* ===== verification/WorkDemo.v ===== *)
(** * Concrete executions of the coordinator

    An executable checker of execution traces, and the traces that the concrete
    instances of the theorems start from: one slot, one user message of a run and one
    background message, with the run manager of [TeamRun] behind the port. *)
From Stdlib Require Import Ascii.
From S2P Require Import Prelude WorkModel WorkState WorkCoordinator TeamRun.
From S2P Require Import WorkInvariant WorkOps WorkSystem.

(** ** A concrete environment *)

(** The identifiers of a call are its tag followed by a number. *)
Definition demo_env (tag : Ascii.ascii) (now : Z) : CallEnv :=
  {| call_order := plain_order; gen_id n := String tag (pretty n); now_ms := now |}.

Definition tagged (tag : Ascii.ascii) (id : string) : bool :=
  match id with String a _ => bool_decide (a = tag) | EmptyString => false end.

Definition unused (tag : Ascii.ascii) (ids : list string) : bool :=
  forallb (λ id, negb (tagged tag id)) ids.

Lemma unused_spec tag now ids n :
  unused tag ids = true → gen_id (CallEnv := demo_env tag now) n ∉ ids.
Proof.
  unfold unused. rewrite forallb_forall. intros Hall Hin.
  specialize (Hall _ (proj1 (list_elem_of_In _ _) Hin)). simpl in Hall.
  by rewrite bool_decide_true in Hall.
Qed.

Definition map_keys {V} (m : gmap string V) : list string := (map_to_list m).*1.

Lemma unused_lookup {V} tag now (m : gmap string V) n :
  unused tag (map_keys m) = true → m !! gen_id (CallEnv := demo_env tag now) n = None.
Proof.
  intros Hu. destruct (m !! _) as [v|] eqn:Hv; [|done].
  destruct (unused_spec tag now _ n Hu). unfold map_keys.
  apply (list_elem_of_fmap_2 fst _ (_, v)). by apply elem_of_map_to_list.
Qed.

Lemma demo_fresh tag now st :
  unused tag (map_keys st.(cs_intents)) && unused tag (map_keys st.(cs_enqueue_leases)) = true →
  fresh_ids (H0 := demo_env tag now) st.
Proof.
  intros [Hi Hl]%andb_true_iff. split.
  - intros n1 n2 [= Heq]. by apply (inj pretty) in Heq.
  - intros n. by apply unused_lookup.
  - intros n. by apply unused_lookup.
Qed.

(** ** Traces *)

Section traces.
Context {P : Type} `{RunCausalityPort P}.
Implicit Types s : System P.

Definition demo_ok (tag : Ascii.ascii) (call : Call) s : bool :=
  unused tag (map_keys (sy_state s).(cs_intents)) &&
  unused tag (map_keys (sy_state s).(cs_enqueue_leases)) &&
  unused tag (wb_batch_id <$> s.(sy_issued)) &&
  match call_batch call with
  | Some b => bool_decide (b ∈ s.(sy_issued))
  | None => true
  end.

Lemma demo_call_ok tag now call s :
  demo_ok tag call s = true → call_ok (demo_env tag now) call s.
Proof.
  intros [[Hfresh Hb]%andb_true_iff Hbatch]%andb_true_iff. split.
  - by apply demo_fresh.
  - intros n b Hin Heq. apply (unused_spec tag now _ n Hb). rewrite <- Heq.
    by apply list_elem_of_fmap_2.
  - intros b Hcall. rewrite Hcall in Hbatch. by apply bool_decide_eq_true in Hbatch.
Qed.

(** One checked call: [None] if it panics or breaks an assumption. *)
Definition demo_call s (e : Ascii.ascii * Call) : option (System P) :=
  let '(tag, call) := e in
  if demo_ok tag call s
  then '(r, c) ← exec (H0 := demo_env tag 1000) call s.(sy_coordinator);
       Some (mkSystem c (handed_out r ++ s.(sy_issued)))
  else None.

Lemma demo_call_step s e s' : demo_call s e = Some s' → step s s'.
Proof.
  destruct e as [tag call]. unfold demo_call. destruct (demo_ok _ _ _) eqn:Hok; [|done].
  destruct (exec _ _) as [[r c]|] eqn:Hexec; [|done]. intros [= <-].
  eapply step_call; [by apply (demo_call_ok tag 1000)|exact Hexec].
Qed.

Lemma demo_steps l s s' : for_each demo_call s l = Some s' → steps s s'.
Proof.
  revert s. induction l as [|e l IH]; intros s; cbn [for_each]; [by intros [= <-]|].
  destruct (demo_call s e) as [s1|] eqn:Hstep; [|done]. intros Hl.
  eapply rtc_l; [by eapply demo_call_step|by apply IH].
Qed.

End traces.

Notation demo_system := (System TeamRunManager).

Definition demo_run (l : list (Ascii.ascii * Call)) : option demo_system :=
  for_each demo_call (initial "g" (new_manager "team")) l.

Lemma demo_reachable l s : demo_run l = Some s → reachable s.
Proof. intros Hl. exists "g", (new_manager "team"). by eapply demo_steps. Qed.

(** The state a trace ends in; the trace is checked where it is used. *)
Definition demo_state (l : list (Ascii.ascii * Call)) : demo_system :=
  default (initial "g" (new_manager "team")) (demo_run l).

Lemma demo_state_reachable l : is_Some (demo_run l) → reachable (demo_state l).
Proof. intros [s Hs]. unfold demo_state. rewrite Hs. by apply (demo_reachable l). Qed.

Definition user_request : EnqueueRequest := mkEnqueueRequest "lead" Lead UserMessage UserVisible.
Definition agent_request : EnqueueRequest :=
  mkEnqueueRequest "lead" Lead McpSendMessage BackgroundBinding.
Definition user_lease : EnqueueLease :=
  mkEnqueueLease "b1" "g" "lead" Lead UserMessage (Some "b0").
Definition agent_lease : EnqueueLease :=
  mkEnqueueLease "d1" "g" "lead" Lead McpSendMessage None.

Open Scope char_scope.

(** A message of the user in run [b0], a message of an agent outside any run. *)
Definition trace_leased : list (Ascii.ascii * Call) :=
  [("a", CallConstrain "lead"%string Ready); ("b", CallAcquire user_request)].
Definition trace_queued : list (Ascii.ascii * Call) :=
  trace_leased ++ [("c", CallCommit user_lease (Some "m1"%string)); ("d", CallAcquire agent_request);
                   ("e", CallCommit agent_lease (Some "m2"%string))].
Definition user_batch : WorkBatch :=
  mkWorkBatch "f0"%string "g"%string "lead"%string ["c0"]%string ["m1"]%string Foreground ["b0"]%string 1.
Definition trace_claimed : list (Ascii.ascii * Call) :=
  trace_queued ++ [("f", CallNext "lead"%string)].
Definition trace_started : list (Ascii.ascii * Call) :=
  trace_claimed ++ [("g", CallStarted user_batch "turn"%string)].
Definition trace_completed : list (Ascii.ascii * Call) :=
  trace_started ++ [("h", CallComplete user_batch)].

Close Scope char_scope.

Definition demo_leased : demo_system := demo_state trace_leased.
Definition demo_queued : demo_system := demo_state trace_queued.
Definition demo_claimed : demo_system := demo_state trace_claimed.
Definition demo_started : demo_system := demo_state trace_started.
Definition demo_completed : demo_system := demo_state trace_completed.

Ltac demo := eapply demo_state_reachable; vm_compute; eauto.

Lemma demo_leased_reachable : reachable demo_leased.
Proof. demo. Qed.
Lemma demo_queued_reachable : reachable demo_queued.
Proof. demo. Qed.
Lemma demo_claimed_reachable : reachable demo_claimed.
Proof. demo. Qed.
Lemma demo_started_reachable : reachable demo_started.
Proof. demo. Qed.
Lemma demo_completed_reachable : reachable demo_completed.
Proof. demo. Qed.

(** [retired], executable. *)
Lemma retired_check (b : WorkBatch) (s : demo_system) :
  bool_decide (b ∈ s.(sy_issued)) &&
  forallb (λ e, bool_decide (ab_batch <$> e.2.(sl_active) ≠ Some b))
    (map_to_list (sy_state s).(cs_slots)) = true →
  retired b s.
Proof.
  intros [Hb%bool_decide_eq_true Hall]%andb_true_iff. split; [done|].
  intros sid Hact. unfold active_batch in Hact.
  destruct (_ !! sid) as [slot|] eqn:Hslot; [|done].
  rewrite forallb_forall in Hall. apply elem_of_map_to_list, list_elem_of_In, Hall in Hslot.
  by apply bool_decide_eq_true in Hslot.
Qed.

Lemma demo_wf s : reachable s → coordinator_wf (sy_coordinator s).
Proof. intros Hs. apply (reachable_system_wf (P := TeamRunManager) _ Hs). Qed.
