(* ===== verification/WorkSafety.v ===== *)
(** * Safety of the coordinator

    What holds in every reachable state of the system, whatever the callers do. *)
From Stdlib Require Import Ascii.
From S2P Require Import Prelude WorkModel WorkState WorkCoordinator TeamRun.
From S2P Require Import WorkInvariant WorkOps WorkSystem WorkDemo.

(** Giving a batch back is one of four calls. *)
Definition gives_back (b : WorkBatch) (call : Call) : Prop :=
  call = CallComplete b ∨ call = CallRetry b ∨ (∃ why, call = CallFail b why) ∨
  ∃ why, call = CallCancelBatch b why.

Section safety.
Context {P : Type} `{RunCausalityPort P}.
Implicit Types s : System P.

Lemma active_batch_inv st sid b :
  active_batch st.(cs_slots) sid = Some b →
  ∃ slot a, st.(cs_slots) !! sid = Some slot ∧ slot.(sl_active) = Some a ∧ a.(ab_batch) = b.
Proof.
  unfold active_batch. destruct (cs_slots st !! sid) as [slot|]; [|done]. simpl.
  destruct (sl_active slot) as [a|] eqn:Ha; [|done]. intros [= <-]. eauto.
Qed.

Lemma not_current g st b :
  (∀ sid, active_batch st.(cs_slots) sid ≠ Some b) → known_batch st.(cs_slots) b →
  is_current_batch g st b = false.
Proof.
  intros Hnot Hknown. destruct (is_current_batch g st b) eqn:Hcur; [|done].
  destruct (is_current_batch_spec _ _ _ Hknown Hcur) as (slot & a & Hslot & Ha & Hab).
  destruct (Hnot b.(wb_slot_id)). unfold active_batch. rewrite Hslot. simpl. by rewrite Ha, <- Hab.
Qed.

Lemma stale_gives_back `{CallEnv} b call c :
  is_current_batch c.(co_session_generation) c.(co_state) b = false →
  gives_back b call → exec call c = Some (RetOutcome StaleOwner, c).
Proof.
  intros Hcur [->|[->|[[why ->]|[why ->]]]]; cbn [exec];
    unfold complete_batch, fail_batch, cancel_batch, terminalize_batch, retry_start;
    by rewrite Hcur.
Qed.

(** A batch that is given back is active no longer. *)
Lemma committed_gives_back (env : CallEnv) b call s c' :
  system_wf s → b ∈ s.(sy_issued) → gives_back b call →
  exec call s.(sy_coordinator) = Some (RetOutcome Committed, c') →
  ∀ sid, active_batch c'.(co_state).(cs_slots) sid ≠ Some b.
Proof.
  intros Hwf Hb Hcall Hexec sid Hact. pose proof (sys_wf _ Hwf) as Hc.
  pose proof (system_known _ _ Hwf Hb) as Hknown. unfold sy_state in Hknown.
  set (c := s.(sy_coordinator)) in *.
  destruct (is_current_batch c.(co_session_generation) c.(co_state) b) eqn:Hcur.
  2: { by rewrite (stale_gives_back _ _ _ Hcur Hcall) in Hexec. }
  destruct (is_current_batch_spec _ _ _ Hknown Hcur) as (slot & a & Hslot & Ha & Hab).
  assert (∀ f, active_batch (released_state f b slot c.(co_state)).(cs_slots) sid ≠ Some b) as Hrel.
  { intros f Hf. unfold active_batch in Hf. cbn in Hf. rewrite assign_states_slots in Hf.
    rewrite lookup_insert in Hf. case_decide as Hsid.
    - simpl in Hf. by rewrite requeue_front_active in Hf.
    - apply active_batch_inv in Hf as (slot' & a' & Hslot' & Ha' & Hab').
      destruct (sw_active _ _ _ _ (wf_slot_Some _ _ _ _ Hc Hslot') _ Ha') as [_ Hs _ _].
      congruence. }
  destruct Hcall as [->|[->|[[why ->]|[why ->]]]]; cbn [exec] in Hexec;
    unfold complete_batch, fail_batch, cancel_batch in Hexec;
    [rewrite (terminalize_batch_current _ _ slot a) in Hexec by done
    |rewrite (retry_start_current _ slot a) in Hexec by done
    |rewrite (terminalize_batch_current _ _ slot a) in Hexec by done
    |rewrite (terminalize_batch_current _ _ slot a) in Hexec by done];
    injection Hexec as <-; by apply (Hrel _ Hact).
Qed.

(** C1: In every reachable state the intents, the queues and the active batches tell the
    same story: each queue holds exactly the queued intents of its slot and priority,
    once; each intent that is starting or running belongs to the active batch of its
    slot, with that batch's identifiers; an active batch is one that [next] returned. *)
Theorem reachable_invariant s :
  reachable s →
  state_wf s.(sy_coordinator).(co_session_generation) (sy_state s) ∧
  ∀ sid b, active_batch (sy_state s).(cs_slots) sid = Some b → b ∈ s.(sy_issued).
Proof. intros [Hwf Hact _]%reachable_system_wf. by split. Qed.

(** No call panics in a reachable state: every [expect] and every [unreachable!] of
    the coordinator is unreachable. *)
Theorem reachable_no_panic (env : CallEnv) call s :
  reachable s → call_ok env call s →
  ∃ r c', exec call s.(sy_coordinator) = Some (r, c').
Proof.
  intros Hs%reachable_system_wf Hok.
  destruct (exec_preserved env call s Hs Hok) as (r & c' & ? & _). eauto.
Qed.

(** A terminal intent is final, and the rest of an intent never changes: whatever is
    called later, an intent keeps its fields, and its state once it is terminal. *)
Theorem terminal_is_final s s' k i :
  reachable s → steps s s' → (sy_state s).(cs_intents) !! k = Some i →
  ∃ t, (sy_state s').(cs_intents) !! k = Some (set_wi_state t i) ∧
       (is_terminal i.(wi_state) = true → t = i.(wi_state)).
Proof. intros Hs%reachable_system_wf Hsteps Hk. by apply (steps_evolves s s'). Qed.

(** C2: Two active batches never share an intent: an intent is worked on at most once at
    any time. *)
Theorem no_double_claim s sid1 sid2 b1 b2 k :
  reachable s →
  active_batch (sy_state s).(cs_slots) sid1 = Some b1 →
  active_batch (sy_state s).(cs_slots) sid2 = Some b2 →
  k ∈ b1.(wb_intent_ids) → k ∈ b2.(wb_intent_ids) →
  sid1 = sid2 ∧ b1 = b2.
Proof.
  intros Hs%reachable_system_wf H1 H2 Hk1 Hk2. pose proof (sys_wf _ Hs) as Hwf.
  pose proof (active_batch_inv _ _ _ H1) as (slot1 & a1 & Hslot1 & Ha1 & <-).
  pose proof (active_batch_inv _ _ _ H2) as (slot2 & a2 & Hslot2 & Ha2 & <-).
  destruct (sw_active _ _ _ _ (wf_slot_Some _ _ _ _ Hwf Hslot1) _ Ha1) as [_ _ _ Hi1].
  destruct (sw_active _ _ _ _ (wf_slot_Some _ _ _ _ Hwf Hslot2) _ Ha2) as [_ _ _ Hi2].
  destruct (Hi1 _ Hk1) as (i1 & Hm1 & Hs1 & _), (Hi2 _ Hk2) as (i2 & Hm2 & Hs2 & _).
  assert (sid1 = sid2) as -> by congruence. split; [done|]. congruence.
Qed.

(** C3: A batch is given back at most once: after [complete_batch], [fail_batch],
    [cancel_batch] or [retry_start] has committed for a batch, each of the four
    answers [StaleOwner] for that batch and changes nothing, in every later state. *)
Theorem batch_given_back_once (env env' : CallEnv) b call call' s c' s'' :
  reachable s → call_ok env call s → gives_back b call →
  exec (H0 := env) call s.(sy_coordinator) = Some (RetOutcome Committed, c') →
  steps (mkSystem c' s.(sy_issued)) s'' → gives_back b call' →
  exec (H0 := env') call' s''.(sy_coordinator) =
    Some (RetOutcome StaleOwner, s''.(sy_coordinator)).
Proof.
  intros Hs%reachable_system_wf Hok Hcall Hexec Hsteps Hcall'.
  assert (b ∈ s.(sy_issued)) as Hb.
  { apply (ok_batch _ _ _ Hok). by destruct Hcall as [->|[->|[[? ->]|[? ->]]]]. }
  assert (step s (mkSystem c' s.(sy_issued))) as Hstep
    by (eapply (step_call env call s (RetOutcome Committed)); done).
  pose proof (step_system_wf _ _ Hstep Hs) as Hwf1.
  assert (retired b (mkSystem c' s.(sy_issued))) as Hret.
  { split; [done|]. by apply (committed_gives_back env b call s c'). }
  destruct (steps_retired _ _ _ Hwf1 Hsteps Hret) as [Hb' Hnot].
  apply (stale_gives_back b); [|done]. apply not_current; [done|].
  apply system_known; [by eapply steps_system_wf|done].
Qed.

(** [mark_started] for a batch that is no longer active changes nothing; it tells the
    caller to stop the turn when all the intents of the batch have been cancelled. *)
Theorem mark_started_stale `{CallEnv} b turn_id s :
  reachable s → retired b s →
  mark_started b turn_id s.(sy_coordinator) =
    (if forallb (λ k, match (sy_state s).(cs_intents) !! k with
                      | Some i => is_cancelled i.(wi_state)
                      | None => false
                      end) b.(wb_intent_ids)
     then CancelImmediately else StartStaleOwner, s.(sy_coordinator)).
Proof.
  intros Hs%reachable_system_wf [Hb Hnot]. unfold mark_started.
  rewrite not_current; [|done|by apply system_known]. simpl. by destruct (forallb _ _).
Qed.
End safety.

(** ** Concrete instances *)

Lemma reachable_invariant_witness :
  state_wf "g" (sy_state demo_claimed) ∧
  active_batch (sy_state demo_claimed).(cs_slots) "lead" = Some user_batch.
Proof.
  split; [|vm_compute; reflexivity].
  apply (reachable_invariant demo_claimed demo_claimed_reachable).
Defined.

Lemma reachable_no_panic_witness :
  ∃ r c', exec (H0 := demo_env "h" 1) (CallComplete user_batch) (sy_coordinator demo_started) =
          Some (r, c').
Proof.
  apply (reachable_no_panic (demo_env "h" 1) (CallComplete user_batch) demo_started).
  - exact demo_started_reachable.
  - apply demo_call_ok. vm_compute. reflexivity.
Defined.

Lemma steps_started_completed : steps demo_started demo_completed.
Proof. apply (demo_steps [("h"%char, CallComplete user_batch)]). vm_compute. reflexivity. Qed.

Definition completed_intent : WorkIntent :=
  mkWorkIntent "c0" "g" "lead" Lead UserMessage Foreground (Some "m1")
    (Some "b0") 1000 IntentCompleted.

Definition demo_after : demo_system := demo_state (trace_completed ++ [("i"%char, CallStop)]).

Lemma steps_completed_after : steps demo_completed demo_after.
Proof. apply (demo_steps [("i"%char, CallStop)]). vm_compute. reflexivity. Qed.

Lemma terminal_is_final_witness :
  ∃ t, (sy_state demo_after).(cs_intents) !! "c0" =
         Some (set_wi_state t completed_intent) ∧
       (is_terminal IntentCompleted = true → t = IntentCompleted).
Proof.
  apply (terminal_is_final demo_completed demo_after "c0" completed_intent).
  - exact demo_completed_reachable.
  - exact steps_completed_after.
  - vm_compute. reflexivity.
Defined.

Lemma no_double_claim_witness : "lead" = "lead" ∧ user_batch = user_batch.
Proof.
  apply (no_double_claim demo_claimed "lead" "lead" user_batch user_batch "c0").
  - exact demo_claimed_reachable.
  - vm_compute. reflexivity.
  - vm_compute. reflexivity.
  - apply list_elem_of_singleton. reflexivity.
  - apply list_elem_of_singleton. reflexivity.
Defined.

Lemma batch_given_back_once_witness :
  exec (H0 := demo_env "j" 2) (CallRetry user_batch) (sy_coordinator demo_after) =
    Some (RetOutcome StaleOwner, sy_coordinator demo_after).
Proof.
  apply (batch_given_back_once (demo_env "h" 1000) (demo_env "j" 2) user_batch
    (CallComplete user_batch) (CallRetry user_batch) demo_started
    (sy_coordinator demo_completed)).
  - exact demo_started_reachable.
  - apply demo_call_ok. vm_compute. reflexivity.
  - left. reflexivity.
  - vm_compute. reflexivity.
  - apply (demo_steps [("i"%char, CallStop)]). vm_compute. reflexivity.
  - right. left. reflexivity.
Defined.

Lemma mark_started_stale_witness :
  mark_started (H0 := demo_env "i" 3) user_batch "turn" (sy_coordinator demo_completed) =
    (StartStaleOwner, sy_coordinator demo_completed).
Proof.
  rewrite (mark_started_stale (H0 := demo_env "i" 3) user_batch "turn" demo_completed).
  - vm_compute. reflexivity.
  - exact demo_completed_reachable.
  - apply retired_check. vm_compute. reflexivity.
Defined.
