(* ===== verification/WorkLedger.v ===== *)
(** * The coordinator refines a ledger

    What the coordinator promises its callers, without slots, queues, constraints and
    runs: every intent is free, held by one batch, or done.  Batches claim free intents
    under a new name, hold them together and let go of them together.  Every call of the
    coordinator is a sequence of such steps ([coordinator_refines_ledger]). *)
From stdpp Require Import relations.
From Stdlib Require Import Ascii.
From S2P Require Import Prelude WorkModel WorkState WorkCoordinator TeamRun.
From S2P Require Import WorkInvariant WorkOps WorkSystem WorkDemo.

(** ** The ledger *)

Inductive Status := Free | Held (batch_id : string) | Done.

#[global] Instance Status_eq_dec : EqDecision Status.
Proof. solve_decision. Defined.

(** [ld_used] holds the names that batches have had. *)
Record Ledger := mkLedger {
  ld_status : gmap string Status;
  ld_used : gset string;
}.

Definition assign (v : Status) (ks : gset string) (m : gmap string Status) : gmap string Status :=
  gset_to_gmap v ks ∪ m.

Definition let_go (b : string) (ends : string → bool) (m : gmap string Status) : gmap string Status :=
  map_imap (λ k v, Some (if decide (v = Held b) then if ends k then Done else Free else v)) m.

Inductive ledger_step : Ledger → Ledger → Prop :=
  | ledger_open ks m used :
      (∀ k, k ∈ ks → m !! k = None) →
      ledger_step (mkLedger m used) (mkLedger (assign Free ks m) used)
  | ledger_claim b ks m used :
      b ∉ used → ks ≠ ∅ → (∀ k, k ∈ ks → m !! k = Some Free) →
      ledger_step (mkLedger m used) (mkLedger (assign (Held b) ks m) ({[b]} ∪ used))
  | ledger_release b ends m used :
      ledger_step (mkLedger m used) (mkLedger (let_go b ends m) used)
  | ledger_finish ks m used :
      (∀ k, k ∈ ks → m !! k = Some Free) →
      ledger_step (mkLedger m used) (mkLedger (assign Done ks m) used).

Definition empty_ledger : Ledger := mkLedger ∅ ∅.

Lemma lookup_assign v ks m k : assign v ks m !! k = if decide (k ∈ ks) then Some v else m !! k.
Proof.
  unfold assign. rewrite lookup_union, lookup_gset_to_gmap. case_decide.
  - rewrite option_guard_True by done. by destruct (m !! k).
  - rewrite option_guard_False by done. by destruct (m !! k).
Qed.

(** *** What the ledger itself guarantees *)

(** A batch holds what it has claimed until it lets go of all of it, and its name is not
    used again. *)
Lemma ledger_hold_shrinks l l' b :
  b ∈ l.(ld_used) → rtc ledger_step l l' →
  b ∈ l'.(ld_used) ∧
  ((∀ k, l'.(ld_status) !! k = Some (Held b) ↔ l.(ld_status) !! k = Some (Held b)) ∨
   (∀ k, l'.(ld_status) !! k ≠ Some (Held b))).
Proof.
  intros Hb Hsteps. revert Hb. induction Hsteps as [l|l1 l2 l3 Hstep _ IH]; [auto|]. intros Hb.
  assert (b ∈ ld_used l2 ∧
    ((∀ k, ld_status l2 !! k = Some (Held b) ↔ ld_status l1 !! k = Some (Held b)) ∨
     (∀ k, ld_status l2 !! k ≠ Some (Held b)))) as [Hb2 Hor].
  { destruct Hstep as [ks m used Hks|b' ks m used Hb' _ Hks|b' ends m used|ks m used Hks]; simpl in *.
    - split; [done|]. left. intros k. rewrite lookup_assign. case_decide as Hk; [|done].
      rewrite (Hks _ Hk). naive_solver.
    - split; [set_solver|]. left. intros k. rewrite lookup_assign. case_decide as Hk; [|done].
      rewrite (Hks _ Hk). naive_solver.
    - split; [done|]. unfold let_go. destruct (decide (b' = b)) as [->|Hne]; [right|left]; intros k;
        rewrite map_lookup_imap; destruct (m !! k) as [v|]; simpl; [|done| |done];
        case_decide as Hv; destruct (ends k); naive_solver.
    - split; [done|]. left. intros k. rewrite lookup_assign. case_decide as Hk; [|done].
      rewrite (Hks _ Hk). naive_solver. }
  destruct (IH Hb2) as [Hb3 Hor3]. split; [done|].
  destruct Hor as [Heq|Hnone], Hor3 as [Heq3|Hnone3]; naive_solver.
Qed.

(** *** Many releases *)

Definition held_by (bs : list string) (v : Status) : bool :=
  match v with Held b => bool_decide (b ∈ bs) | _ => false end.

Lemma ledger_release_all bs (ends : string → bool) m used :
  ∃ m' : gmap string Status, rtc ledger_step (mkLedger m used) (mkLedger m' used) ∧
    ∀ k, m' !! k = (λ v, if held_by bs v then if ends k then Done else Free else v) <$> m !! k.
Proof.
  revert m. induction bs as [|b bs IH]; intros m.
  { exists m. split; [done|]. intros k. by destruct (m !! k) as [[]|]. }
  destruct (IH (let_go b ends m)) as (m' & Hrtc & Hm'). exists m'. split.
  { eapply rtc_l; [apply ledger_release|done]. }
  intros k. rewrite Hm'. unfold let_go. rewrite map_lookup_imap.
  destruct (m !! k) as [v|]; simpl; [|done]. f_equal.
  destruct v as [|b'|]; simpl; try done. case_decide as Hb.
  - injection Hb as ->. rewrite (bool_decide_true (b ∈ b :: bs)) by set_solver. by destruct (ends k).
  - assert (b' ∈ b :: bs ↔ b' ∈ bs) as Hiff by set_solver.
    simpl. by rewrite (bool_decide_ext _ _ Hiff).
Qed.

(** *** Any change, as steps *)

Definition holder (v : Status) : option string := match v with Held b => Some b | _ => None end.

Definition holders (m : gmap string Status) : list string := omap holder (map_to_list m).*2.

Lemma elem_of_holders m b : b ∈ holders m ↔ ∃ k, m !! k = Some (Held b).
Proof.
  unfold holders. rewrite list_elem_of_omap. setoid_rewrite list_elem_of_fmap. split.
  - intros ([|b'|] & ([k v] & Hv & Hk%elem_of_map_to_list) & [= ->]). exists k. simpl in Hv. congruence.
  - intros (k & Hk). exists (Held b). split; [|done]. exists (k, Held b).
    by rewrite elem_of_map_to_list.
Qed.

Definition keys_with (Q : string → Status → bool) (m : gmap string Status) : gset string :=
  dom (filter (λ e, Q e.1 e.2 = true) m).

Lemma elem_of_keys_with Q m k : k ∈ keys_with Q m ↔ ∃ v, m !! k = Some v ∧ Q k v = true.
Proof. unfold keys_with. rewrite elem_of_dom. unfold is_Some. by setoid_rewrite map_lookup_filter_Some. Qed.

(** Releases first, then new intents, then ends, then the claim. *)
Lemma ledger_connect m m' used new :
  (∀ k, m !! k = Some Done → m' !! k = Some Done) →
  (∀ k, is_Some (m !! k) → is_Some (m' !! k)) →
  (∀ k b, m' !! k = Some (Held b) → m !! k = Some (Held b) ∨ new = Some b) →
  (∀ k k' b, m !! k = Some (Held b) → m' !! k' = Some (Held b) → m' !! k = Some (Held b)) →
  (∀ b, new = Some b → b ∉ used ∧ (∀ k, m !! k ≠ Some (Held b)) ∧ ∃ k, m' !! k = Some (Held b)) →
  rtc ledger_step (mkLedger m used)
    (mkLedger m' (match new with Some b => {[b]} | None => ∅ end ∪ used)).
Proof.
  intros Hdone Hdom Hheld Hwhole Hnew.
  destruct (ledger_release_all (filter (λ b, b ∉ holders m') (holders m))
    (λ k, bool_decide (m' !! k = Some Done)) m used) as (m1 & Hrelease & Hm1).
  etrans; [exact Hrelease|].
  set (m2 := assign Free (dom m' ∖ dom m) m1).
  set (m3 := assign Done (keys_with (λ k v, bool_decide (v = Done) && bool_decide (m2 !! k = Some Free)) m') m2).
  assert (∀ k, m1 !! k = None ↔ m !! k = None) as Hnone.
  { intros k. rewrite Hm1. by destruct (m !! k). }
  eapply rtc_l; [eapply (ledger_open (dom m' ∖ dom m))|].
  { intros k [_ Hk%not_elem_of_dom]%elem_of_difference. by apply Hnone. }
  eapply rtc_l; [eapply ledger_finish|].
  { intros k (v & _ & [_ Hk%bool_decide_eq_true]%andb_true_iff)%elem_of_keys_with. exact Hk. }
  fold m2. fold m3.
  assert (∀ k, m2 !! k = match m !! k with Some _ => m1 !! k | None => (λ _, Free) <$> m' !! k end) as Hm2.
  { intros k. unfold m2. rewrite lookup_assign. destruct (m !! k) as [v|] eqn:Hk.
    - rewrite decide_False; [done|]. rewrite elem_of_difference, !elem_of_dom, Hk. naive_solver.
    - destruct (m' !! k) eqn:Hk'.
      + rewrite decide_True; [done|]. rewrite elem_of_difference, !elem_of_dom, Hk, Hk'. naive_solver.
      + rewrite decide_False by (rewrite elem_of_difference, !elem_of_dom, Hk'; naive_solver).
        by apply Hnone. }
  assert (∀ k, m3 !! k = if decide (m' !! k = Some Done ∧ m2 !! k = Some Free) then Some Done else m2 !! k) as Hm3.
  { intros k. unfold m3. rewrite lookup_assign. apply decide_ext. rewrite elem_of_keys_with.
    setoid_rewrite andb_true_iff. setoid_rewrite bool_decide_eq_true. naive_solver. }
  assert (∀ k b, m !! k = Some (Held b) →
    held_by (filter (λ b, b ∉ holders m') (holders m)) (Held b) = true ↔ ∀ k', m' !! k' ≠ Some (Held b)) as Hlet.
  { intros k b Hk. unfold held_by. rewrite bool_decide_eq_true, list_elem_of_filter, !elem_of_holders.
    naive_solver. }
  assert (∀ k, m3 !! k = match m' !! k with
                         | Some (Held b) => if decide (new = Some b) then Some Free else Some (Held b)
                         | o => o
                         end) as Hfinal.
  { intros k. rewrite Hm3, Hm2, Hm1. specialize (Hdone k). specialize (Hdom k).
    pose proof (Hheld k) as Hk. pose proof (Hwhole k) as Hw. specialize (Hlet k).
    destruct (m !! k) as [[|b|]|] eqn:Hmk; cbn [fmap option_fmap option_map].
    - destruct (m' !! k) as [[|b'|]|]; simpl; repeat case_decide; naive_solver.
    - specialize (Hlet b eq_refl). destruct (held_by _ (Held b)).
      + pose proof (proj1 Hlet eq_refl) as Hno. case_bool_decide as Hend; simpl.
        * rewrite Hend. by case_decide.
        * destruct (m' !! k) as [[|b'|]|] eqn:Hmk'; simpl; repeat case_decide; naive_solver.
      + destruct (decide (b ∈ holders m')) as [[k' Hk']%elem_of_holders|Hno].
        2: { enough (false = true) by done. apply Hlet. intros k' Hk'. apply Hno, elem_of_holders. eauto. }
        rewrite (Hw _ _ eq_refl Hk'). rewrite decide_False by naive_solver.
        rewrite decide_False; [done|]. intros Hb'.
        destruct (Hnew _ Hb') as (_ & Hn & _). by apply (Hn _ Hmk).
    - rewrite Hdone by done. by case_decide.
    - destruct (m' !! k) as [[|b'|]|] eqn:Hmk'; simpl; repeat case_decide; naive_solver. }
  assert (rtc ledger_step (mkLedger m3 used)
    (mkLedger m' (match new with Some b => {[b]} | None => ∅ end ∪ used))) as Hlast; [|exact Hlast].
  clearbody m3. clear Hm3. destruct new as [b|].
  2: { apply reflexive_eq. f_equal; [|set_solver]. apply map_eq. intros k. etrans; [exact (Hfinal k)|].
       by destruct (m' !! k) as [[]|]. }
  destruct (Hnew b eq_refl) as (Hb & _ & k0 & Hk0). eapply rtc_once.
  replace m' with (assign (Held b) (keys_with (λ _ v, bool_decide (v = Held b)) m') m3).
  - apply ledger_claim; [done| |].
    + intros Hempty. apply (not_elem_of_empty (C := gset string) k0). rewrite <-Hempty.
      apply elem_of_keys_with. exists (Held b). by rewrite bool_decide_true.
    + intros k (v & Hk & ->%bool_decide_eq_true)%elem_of_keys_with.
      by rewrite Hfinal, Hk, decide_True.
  - apply map_eq. intros k. rewrite lookup_assign, Hfinal. case_decide as Hk.
    + apply elem_of_keys_with in Hk as (v & -> & ->%bool_decide_eq_true). done.
    + destruct (m' !! k) as [[|b'|]|] eqn:Hmk; try done. rewrite decide_False; [done|]. intros [= ->].
      destruct Hk. apply elem_of_keys_with. exists (Held b'). by rewrite bool_decide_true.
Qed.

(** ** The ledger of the coordinator *)

Definition status_of (i : WorkIntent) : Status :=
  match i.(wi_state) with
  | IntentQueued => Free
  | IntentStarting b _ | IntentRunning b _ _ => Held b
  | IntentCompleted | IntentFailed _ | IntentCancelled _ => Done
  end.

Section ledger.
Context {P : Type} `{RunCausalityPort P}.
Implicit Types s : System P.

Definition ledger s : Ledger :=
  mkLedger (status_of <$> (sy_state s).(cs_intents)) (list_to_set (wb_batch_id <$> s.(sy_issued))).

Lemma lookup_ledger s k : (ledger s).(ld_status) !! k = status_of <$> (sy_state s).(cs_intents) !! k.
Proof. apply lookup_fmap. Qed.

Lemma status_of_active a i : i.(wi_state) = active_state a → status_of i = Held a.(ab_batch).(wb_batch_id).
Proof. unfold status_of, active_state. intros ->. by destruct (ab_turn_id a). Qed.

(** What an intent is held by is the active batch of its slot. *)
Lemma held_active s k b :
  coordinator_wf s.(sy_coordinator) →
  (ledger s).(ld_status) !! k = Some (Held b) ↔
    ∃ sid batch, active_batch (sy_state s).(cs_slots) sid = Some batch ∧
      batch.(wb_batch_id) = b ∧ k ∈ batch.(wb_intent_ids).
Proof.
  intros Hwf. rewrite lookup_ledger, fmap_Some. unfold sy_state, active_batch. split.
  - intros (i & Hi & Hst). assert (inflight i.(wi_state)) as Hin.
    { unfold status_of in Hst. by destruct (wi_state i). }
    destruct (sw_inflight _ _ _ _ (wf_slot _ _ Hwf i.(wi_slot_id)) k i Hi eq_refl Hin) as (a & Ha & Hk).
    pose proof (sw_active _ _ _ _ (wf_slot _ _ Hwf i.(wi_slot_id)) _ Ha) as Hb.
    rewrite slot_entry_active in Ha. exists i.(wi_slot_id), a.(ab_batch). rewrite Ha. split_and!; [done| |done].
    apply (bw_intents _ _ _ _ Hb) in Hk. apply (intent_at_inv _ _ _ _ _ _ Hk) in Hi as (_ & _ & Hi).
    rewrite (status_of_active _ _ Hi) in Hst. congruence.
  - intros (sid & batch & Hact & <- & Hk). apply fmap_Some in Hact as (a & Ha & ->).
    rewrite <-(slot_entry_active sid Teammate) in Ha.
    pose proof (sw_active _ _ _ _ (wf_slot _ _ Hwf sid) _ Ha) as Hb.
    destruct (bw_intents _ _ _ _ Hb k Hk) as (i & Hi & _ & _ & Hst). exists i. split; [done|].
    by rewrite (status_of_active _ _ Hst).
Qed.

(** A batch that is handed out is new in its slot and holds something. *)
Lemma handed_out_claim (env : CallEnv) call (c : Coordinator P) r c' batch :
  exec call c = Some (r, c') → coordinator_wf c → batch ∈ handed_out r →
  active_batch c.(co_state).(cs_slots) batch.(wb_slot_id) = None ∧
  active_batch c'.(co_state).(cs_slots) batch.(wb_slot_id) = Some batch ∧
  batch.(wb_intent_ids) ≠ [].
Proof.
  intros Hexec Hwf Hb.
  destruct call; cbn [exec] in Hexec;
    try (destruct (_ : option _) as [[??]|]; simplify_eq/=; by apply not_elem_of_nil in Hb).
  all: match type of Hexec with context [?o ≫= _] => destruct o as [[a c1]|] eqn:Ho end;
    simplify_eq/=; try by apply not_elem_of_nil in Hb.
  destruct (next_total slot_id c Hwf) as (d & c2 & Hnext & Hspec).
  rewrite Hnext in Ho. injection Ho as <- <-.
  destruct Hspec as [| | | | | |slot p c2 ids b st Hslot Hact _ _ _ Hids ->]; simpl in Hb; try set_solver.
  apply list_elem_of_singleton in Hb as ->. change (wb_slot_id b) with slot_id. unfold active_batch.
  split_and!; [by rewrite Hslot; simpl; rewrite Hact| |done].
  unfold st, claimed_state. cbn. by rewrite lookup_insert_eq.
Qed.

(** What one call does to one entry of the ledger *)
Lemma call_entry (env : CallEnv) call s r c' :
  system_wf s → call_ok env call s → exec call s.(sy_coordinator) = Some (r, c') →
  let s' := mkSystem c' (handed_out r ++ s.(sy_issued)) in
  (∀ k, (ledger s).(ld_status) !! k = Some Done → (ledger s').(ld_status) !! k = Some Done) ∧
  (∀ k, is_Some ((ledger s).(ld_status) !! k) → is_Some ((ledger s').(ld_status) !! k)) ∧
  (∀ k b, (ledger s').(ld_status) !! k = Some (Held b) →
     (ledger s).(ld_status) !! k = Some (Held b) ∨
     ∃ batch, batch ∈ handed_out r ∧ batch.(wb_batch_id) = b) ∧
  (∀ k k' b, (ledger s).(ld_status) !! k = Some (Held b) →
     (ledger s').(ld_status) !! k' = Some (Held b) → (ledger s').(ld_status) !! k = Some (Held b)).
Proof.
  intros Hs Hok Hexec s'.
  destruct (exec_preserved env call s Hs Hok) as (r' & c1 & Hexec' & Hp).
  rewrite Hexec in Hexec'. injection Hexec' as <- <-.
  assert (system_wf s') as Hs' by (eapply step_system_wf; [by eapply step_call|done]).
  pose proof (sys_wf _ Hs) as Hwf. pose proof (sys_wf _ Hs') as Hwf'.
  split_and!.
  - intros k. rewrite !lookup_ledger. intros (i & Hi & Hst)%fmap_Some.
    change (cs_intents (sy_state s')) with (cs_intents (co_state c')).
    destruct (pr_evolves _ _ _ Hp _ _ Hi) as (t & Hk & Ht). rewrite Hk. simpl.
    rewrite Ht, set_wi_state_id by (unfold status_of in Hst; by destruct (wi_state i)). by rewrite Hst.
  - intros k. rewrite !lookup_ledger. intros [v (i & Hi & _)%fmap_Some].
    change (cs_intents (sy_state s')) with (cs_intents (co_state c')).
    destruct (pr_evolves _ _ _ Hp _ _ Hi) as (t & Hk & _). rewrite Hk. simpl. eauto.
  - intros k b Hk. apply held_active in Hk as (sid & batch & Hact & Hb & Hin); [|done].
    destruct (pr_active _ _ _ Hp _ _ Hact) as [Hact0|Hnew]; [left|right; by exists batch].
    apply held_active; [done|]. by exists sid, batch.
  - intros k k' b Hk Hk'.
    apply held_active in Hk as (sid & batch & Hact & Hb & Hin); [|done].
    apply held_active in Hk' as (sid' & batch' & Hact' & Hb' & Hin'); [|done].
    assert (batch' = batch) as ->.
    { eapply (sys_unique _ Hs'); [by eapply sys_active| |congruence].
      apply elem_of_app. right. by eapply sys_active. }
    apply held_active; [done|]. by exists sid', batch.
Qed.

(** A batch that is handed out gets a new name, and holds intents under it. *)
Lemma new_batch (env : CallEnv) call s r c' batch :
  system_wf s → call_ok env call s → exec call s.(sy_coordinator) = Some (r, c') →
  batch ∈ handed_out r →
  let b := batch.(wb_batch_id) in
  b ∉ (ledger s).(ld_used) ∧ (∀ k, (ledger s).(ld_status) !! k ≠ Some (Held b)) ∧
  ∃ k, (ledger (mkSystem c' (handed_out r ++ s.(sy_issued)))).(ld_status) !! k = Some (Held b).
Proof.
  intros Hs Hok Hexec Hin b. pose proof (sys_wf _ Hs) as Hwf.
  assert (b ∉ (ledger s).(ld_used)) as Hfresh.
  { cbn [ledger ld_used]. rewrite elem_of_list_to_set, list_elem_of_fmap. intros (b' & Hb' & Hin').
    destruct (ok_fresh_batch _ _ _ Hok 0 b' Hin'). rewrite <-Hb'.
    by apply (handed_out_id env call _ _ _ batch Hexec). }
  split_and!; [done| |].
  - intros k (sid & batch' & Hact & Hb' & _)%held_active; [|done]. apply Hfresh.
    cbn [ledger ld_used]. rewrite elem_of_list_to_set, list_elem_of_fmap. exists batch'.
    split; [done|]. by eapply sys_active.
  - destruct (handed_out_claim _ _ _ _ _ _ Hexec Hwf Hin) as (_ & Hact & Hids).
    destruct (wb_intent_ids batch) as [|k ids] eqn:Heq; [done|]. exists k.
    apply held_active; [|exists (wb_slot_id batch), batch; rewrite Heq; set_solver].
    assert (system_wf (mkSystem c' (handed_out r ++ sy_issued s))) as Hs'; [|by apply Hs'].
    eapply step_system_wf; [by eapply step_call|done].
Qed.

Lemma step_ledger s s' : system_wf s → step s s' → rtc ledger_step (ledger s) (ledger s').
Proof.
  intros Hs Hstep. destruct Hstep as [env call s0 r c' Hok Hexec|]; [|done].
  destruct (call_entry _ _ _ _ _ Hs Hok Hexec) as (Hdone & Hdom & Hheld & Hwhole).
  assert (∀ b1 b2, b1 ∈ handed_out r → b2 ∈ handed_out r → b1 = b2) as Huniq
    by (intros b1 b2; eapply handed_out_unique, Hexec).
  set (new := head (wb_batch_id <$> handed_out r)).
  replace (ledger (mkSystem c' (handed_out r ++ sy_issued s0))) with (mkLedger
    ((ledger (mkSystem c' (handed_out r ++ sy_issued s0))).(ld_status))
    (match new with Some b => {[b]} | None => ∅ end ∪ (ledger s0).(ld_used))).
  - eapply ledger_connect; [done..| |done|].
    + intros k b Hk. destruct (Hheld _ _ Hk) as [|(batch & Hin & <-)]; [by left|right].
      unfold new. destruct (handed_out r) as [|b0 l]; [by apply not_elem_of_nil in Hin|].
      simpl. f_equal. f_equal. apply Huniq; set_solver.
    + intros b Hb. unfold new in Hb. destruct (handed_out r) as [|batch l] eqn:Hout; [done|].
      injection Hb as <-. apply (new_batch _ _ _ _ _ _ Hs Hok Hexec). rewrite Hout. set_solver.
  - unfold ledger at 2 3. cbn [ld_status ld_used]. f_equal. unfold sy_issued at 2, new.
    rewrite fmap_app, list_to_set_app_L. f_equal. clear -Huniq.
    destruct (handed_out r) as [|batch l]; [done|]. cbn [fmap list_fmap head list_to_set].
    enough (list_to_set (wb_batch_id <$> l) ⊆ ({[wb_batch_id batch]} : gset string)) by set_solver.
    intros b. rewrite elem_of_list_to_set, list_elem_of_fmap. intros (batch' & -> & Hin).
    rewrite (Huniq batch' batch); set_solver.
Qed.

Lemma steps_ledger s s' : system_wf s → steps s s' → rtc ledger_step (ledger s) (ledger s').
Proof.
  intros Hs Hsteps. induction Hsteps as [|s1 s2 s3 Hstep _ IH]; [done|].
  etrans; [by apply step_ledger|]. apply IH. by eapply step_system_wf.
Qed.

(** C4: the coordinator refines the ledger: its ledger starts empty, and every call in a
    reachable state, whatever it does to the slots and the queues, is for the ledger a
    sequence of steps that open new intents, end free ones, let one batch claim free ones
    under a name never used before, or let go of all that one batch holds. *)
Theorem coordinator_refines_ledger s s' :
  reachable s → step s s' →
  rtc ledger_step empty_ledger (ledger s) ∧ rtc ledger_step (ledger s) (ledger s').
Proof.
  intros Hs Hstep. pose proof (reachable_system_wf _ Hs) as Hwf. split; [|by apply step_ledger].
  destruct Hs as (g & p & Hs). apply (steps_ledger (initial g p)); [apply initial_wf|done].
Qed.
End ledger.

(** ** A concrete instance *)

Lemma coordinator_refines_ledger_witness :
  rtc ledger_step empty_ledger (ledger demo_claimed) ∧
  rtc ledger_step (ledger demo_claimed) (ledger demo_started).
Proof.
  apply (coordinator_refines_ledger demo_claimed demo_started).
  - exact demo_claimed_reachable.
  - apply (demo_call_step demo_claimed ("g"%char, CallStarted user_batch "turn")). vm_compute. reflexivity.
Defined.
