(* ===== verification/WorkFunctional.v ===== *)
(** * What the operations of the coordinator do

    The functional behaviour of enqueueing, claiming, retrying, cancelling and
    stopping, one theorem per contract. *)
From Stdlib Require Import Ascii.
From S2P Require Import Prelude WorkModel WorkState WorkCoordinator TeamRun.
From S2P Require Import WorkInvariant WorkOps WorkSystem WorkDemo.

(** The rank of a priority: the lower, the sooner it is claimed. *)
Definition rank (p : WorkPriority) : nat :=
  match p with Foreground => 0 | Control => 1 | Background => 2 end.

Section functional.
Context {P : Type} `{RunCausalityPort P}.
Implicit Types c : Coordinator P.

(** ** Claiming *)

Lemma selected_priority_spec slot p :
  selected_priority slot = Some p →
  slot_queue p slot ≠ [] ∧ ∀ q, rank q < rank p → slot_queue q slot = [].
Proof.
  unfold selected_priority. cbn [List.find].
  repeat case_bool_decide; intros [= <-]; (split; [done|]); intros [] Hq; cbn in *;
    first [lia|done|by apply dec_stable].
Qed.

Lemma claim_log_messages st ids log :
  (log_of claim_log st log ids).1 =
    log.1 ++ omap (λ k, st.(cs_intents) !! k ≫= wi_mailbox_message_id) ids.
Proof.
  unfold log_of. revert log. induction ids as [|k ids IH]; intros log; cbn [foldl omap list_omap].
  { by rewrite app_nil_r. }
  rewrite IH. destruct (cs_intents st !! k) as [i|]; [|done].
  cbn [mbind option_bind from_option claim_log fst]. rewrite <- app_assoc.
  by destruct (wi_mailbox_message_id i).
Qed.

(** [next] claims by priority and in order: the batch holds the message-carrying
    intents of the first nonempty queue, in queue order, with their messages; only a
    ready, unpaused slot with no active batch is claimed; the claimed intents leave the
    queue, the signals stay, and the other queues are untouched. *)
Theorem next_claims_by_priority `{CallEnv} sid b c c' :
  coordinator_wf c → next sid c = Some (Claim b, c') →
  ∃ slot slot',
    c.(co_state).(cs_slots) !! sid = Some slot ∧
    c'.(co_state).(cs_slots) !! sid = Some slot' ∧
    slot.(sl_active) = None ∧ slot.(sl_runtime_constraint) = Ready ∧ slot.(sl_paused) = false ∧
    (∀ q, rank q < rank b.(wb_highest_priority) → slot_queue q slot = []) ∧
    b.(wb_slot_id) = sid ∧ b.(wb_intent_ids) ≠ [] ∧
    b.(wb_intent_ids) =
      filter (has_message c.(co_state)) (slot_queue b.(wb_highest_priority) slot) ∧
    b.(wb_mailbox_message_ids) =
      omap (λ k, c.(co_state).(cs_intents) !! k ≫= wi_mailbox_message_id) b.(wb_intent_ids) ∧
    slot'.(sl_active) = Some (mkActiveBatch b None None) ∧
    (∀ q, slot_queue q slot' =
       if decide (q = b.(wb_highest_priority))
       then filter (λ k, negb (has_message c.(co_state) k)) (slot_queue q slot)
       else slot_queue q slot).
Proof.
  intros Hwf Hnext. destruct (next_total sid c Hwf) as (d & c1 & Hnext' & Hspec).
  rewrite Hnext in Hnext'. injection Hnext' as <- <-.
  inversion Hspec as [| | | | | |slot p c2 ids batch st Hslot Hact Hready Hpaused Hp Hids Hc' Hb];
    clear Hspec. subst c2 c' b.
  pose proof (wf_slot_Some _ _ _ _ Hwf Hslot) as Hs.
  destruct (selected_priority_spec _ _ Hp) as [_ Hrank].
  exists slot, (set_sl_active (Some (mkActiveBatch batch None None)) (remove_all ids slot)).
  split; [done|]. split; [apply lookup_put_slot_eq|].
  repeat (split; [first [done|apply claim_log_messages]|]). intros q.
  rewrite slot_queue_active, slot_queue_remove_all. cbn. case_decide as Hq.
  - subst q. apply list_filter_iff_in. intros k Hk. unfold ids. rewrite list_elem_of_filter.
    destruct (has_message _ _); naive_solver.
  - apply list_filter_true. intros k Hk [_ Hk']%list_elem_of_filter. apply Hq.
    apply (sw_queue _ _ _ _ Hs) in Hk as (i & Hi & _ & <- & _).
    by apply (sw_queue _ _ _ _ Hs) in Hk' as (i' & ? & _ & <- & _); simplify_eq.
Qed.

(** ** Enqueueing *)

(** [commit_enqueue] turns its lease into exactly one intent: the lease is gone, so
    that a second commit is refused; the new intent is queued at the back of the queue
    of its priority, and no other intent or slot changes.  When it refuses, nothing
    changes. *)
Theorem commit_enqueue_effect `{CallEnv} lease mid r c c' :
  coordinator_wf c → fresh_ids c.(co_state) →
  commit_enqueue lease mid c = Some (r, c') →
  match r with
  | Err _ => c' = c
  | Ok commit =>
      let k := commit.(ec_intent_id) in
      let p := source_priority lease.(el_source) in
      c.(co_state).(cs_enqueue_leases) !! lease.(el_lease_id) ≠ None ∧
      c'.(co_state).(cs_enqueue_leases) =
        delete lease.(el_lease_id) c.(co_state).(cs_enqueue_leases) ∧
      c'.(co_state).(cs_intents) =
        <[k := mkWorkIntent k c.(co_session_generation) lease.(el_slot_id) lease.(el_role)
                 lease.(el_source) p mid lease.(el_team_run_id) now_ms IntentQueued]>
          c.(co_state).(cs_intents) ∧
      (∃ slot slot',
         c.(co_state).(cs_slots) !! lease.(el_slot_id) = Some slot ∧
         c'.(co_state).(cs_slots) = <[lease.(el_slot_id) := slot']> c.(co_state).(cs_slots) ∧
         slot_queue p slot' = slot_queue p slot ++ [k] ∧
         slot'.(sl_paused) = slot.(sl_paused) && negb (resumes_paused_slot lease.(el_source))) ∧
      commit_enqueue lease mid c' =
        Some (Err (InvalidRequest "enqueue lease is no longer active"), c')
  end.
Proof.
  intros Hwf Hfresh. unfold commit_enqueue at 1.
  destruct (cs_enqueue_leases _ !! _) as [record|] eqn:Hrec; [|by intros [= <- <-]].
  destruct (bool_decide _ || _); [by intros [= <- <-]|].
  destruct (requires_mailbox_message _ && _); [by intros [= <- <-]|].
  destruct (cs_slots _ !! _) as [slot|] eqn:Hslot; [|by intros [= <- <-]].
  destruct (validate_enqueue_constraint _ _) as [u|] eqn:Hval; [|by intros [= <- <-]].
  destruct (validate_disposition lease.(el_slot_id) slot) as [d ->]; [by rewrite Hval|].
  cbn [mbind option_bind].
  match goal with |- context [slot_snapshot_locked (put_slot ?sid ?s ?st) ?sid] =>
    destruct (slot_snapshot_put st sid s) as [? ->]; cbn [mbind option_bind] end.
  intros [= <- <-]. cbn [ec_intent_id]. split; [done|]. split; [done|]. split; [done|].
  split.
  - eexists slot, _. split; [done|]. split; [done|]. rewrite slot_queue_push_back.
    rewrite decide_True by done.
    destruct mid, (resumes_paused_slot _); (split; [by destruct (source_priority _)|]); cbn;
      by rewrite ?andb_true_r, ?andb_false_r.
  - unfold commit_enqueue. cbn. by rewrite lookup_delete_eq.
Qed.

Lemma abort_enqueue_state `{CallEnv} lease record c :
  c.(co_state).(cs_enqueue_leases) !! lease.(el_lease_id) = Some record →
  record.(er_lease) = lease → lease.(el_session_generation) = c.(co_session_generation) →
  ∃ c2, abort_enqueue lease c = (Committed, c2) ∧
    c2.(co_state) = set_cs_leases (delete lease.(el_lease_id) c.(co_state).(cs_enqueue_leases))
                      c.(co_state).
Proof.
  intros Hrec Hlease Hgen. unfold abort_enqueue. rewrite Hrec.
  rewrite !bool_decide_eq_false_2 by naive_solver. cbn [orb]. eexists. split; [done|].
  match goal with |- context [if ?b then with_port _ _ else _] => by destruct b end.
Qed.

(** A lease that is aborted leaves no trace but the entry of its slot: the leases and
    the intents are those of before [acquire_enqueue]. *)
Theorem acquire_abort_roundtrip (env env' : CallEnv) request lease c c1 :
  coordinator_wf c → fresh_ids (H0 := env) c.(co_state) →
  acquire_enqueue (H0 := env) request c = (Ok lease, c1) →
  ∃ c2, abort_enqueue (H0 := env') lease c1 = (Committed, c2) ∧
    c2.(co_state).(cs_enqueue_leases) = c.(co_state).(cs_enqueue_leases) ∧
    c2.(co_state).(cs_intents) = c.(co_state).(cs_intents) ∧
    ∀ sid, sid ≠ request.(rq_slot_id) →
      c2.(co_state).(cs_slots) !! sid = c.(co_state).(cs_slots) !! sid.
Proof.
  intros Hwf Hfresh. unfold acquire_enqueue.
  destruct (validate_enqueue_constraint _ _); [|done].
  destruct (match request.(rq_binding) with UserVisible => _ | _ => _ end) as [binding port].
  intros [= <- <-]. edestruct (abort_enqueue_state (H0 := env')) as (c2 & -> & Hc2);
    [apply lookup_insert_eq|done|done|].
  exists c2. split; [done|]. rewrite Hc2. cbn. split; [|split; [done|]].
  - rewrite delete_insert_id; [done|]. apply Hfresh.
  - intros sid Hsid. by rewrite lookup_insert_ne.
Qed.

(** ** Mailbox reconciliation *)

Definition owned (sid m : string) st : Prop :=
  ∃ k i, st.(cs_intents) !! k = Some i ∧ owns_message sid m i = true.

(** What reconciling a slot with its unread messages establishes; [rest] is what the
    loop over the messages has still to do. *)
Record reconciled (sid : string) (unread rest : list string) (role : TeamRunTargetRole) g
    (created : list string) st : Prop := {
  rn_slot : ∃ slot, st.(cs_slots) !! sid = Some slot ∧ slot.(sl_role) = role ∧
    slot.(sl_known_unread_message_ids) = list_to_set unread ∧
    ∀ p k, k ∈ slot_queue p slot → is_stale (list_to_set unread) st k = false;
  rn_owned m : m ∈ unread → m ∉ rest → owned sid m st;
  rn_created k : k ∈ created → ∃ m t, m ∈ unread ∧
    st.(cs_intents) !! k =
      Some (mkWorkIntent k g sid role RecoveryDrain Background (Some m) None t IntentQueued);
  rn_distinct k1 k2 m i1 i2 : k1 ∈ created → k2 ∈ created →
    st.(cs_intents) !! k1 = Some i1 → st.(cs_intents) !! k2 = Some i2 →
    i1.(wi_mailbox_message_id) = Some m → i2.(wi_mailbox_message_id) = Some m → k1 = k2;
}.

Lemma existsb_owns `{HashOrder} sid m st :
  existsb (owns_message sid m) (hash_values st.(cs_intents)) = true ↔ owned sid m st.
Proof.
  rewrite existsb_exists. split.
  - intros (i & Hi%list_elem_of_In%elem_of_hash_values & Ho). destruct Hi as [k Hk].
    by exists k, i.
  - intros (k & i & Hk & Ho). exists i. split; [|done].
    apply list_elem_of_In, elem_of_hash_values. eauto.
Qed.

Lemma recovery_owns `{CallEnv} k g sid role m :
  owns_message sid m (recovery_intent k g sid role m) = true.
Proof. unfold owns_message. simpl. by rewrite !bool_decide_true. Qed.

Lemma is_stale_recovery `{CallEnv} unread st k g sid role m k' :
  m ∈ unread →
  is_stale (list_to_set unread)
    (set_cs_intents (<[k := recovery_intent k g sid role m]> st.(cs_intents)) st) k' =
  if decide (k' = k) then false else is_stale (list_to_set unread) st k'.
Proof.
  intros Hm. unfold is_stale. cbn. destruct (decide (k' = k)) as [->|Hk].
  - rewrite lookup_insert_eq. cbn. apply bool_decide_eq_false. set_solver.
  - by rewrite lookup_insert_ne.
Qed.

Lemma reconcile_message_step `{CallEnv} g sid role unread m rest st0 acc acc' :
  recovering g st0 sid acc → m ∈ unread →
  reconciled sid unread (m :: rest) role g acc.2 acc.1 →
  reconcile_message g sid role acc m = Some acc' →
  reconciled sid unread rest role g acc'.2 acc'.1.
Proof.
  intros Hrec Hm [(slot & Hslot & Hrole & Hknown & Hstale) Hown Hcr Hd].
  pose proof (rc_fresh _ _ _ _ Hrec (length acc.2) (le_n _)) as Hfresh.
  destruct acc as [st created]. cbn [fst snd] in *. cbn [reconcile_message].
  destruct (existsb _ _) eqn:Hex.
  - intros [= <-]. apply existsb_owns in Hex. split; [by exists slot| |done|done].
    intros m' Hm' Hnot. destruct (decide (m' = m)) as [->|]; [done|]. apply Hown; set_solver.
  - cbn [set_cs_intents cs_slots]. rewrite Hslot. cbn [mbind option_bind]. intros [= <-]. cbn [fst snd].
    set (k := gen_id (length created)) in *.
    assert (¬ owned sid m st) as Hno by (intros Ho%existsb_owns; congruence).
    assert (∀ k', k' ∈ created → k' ≠ k) as Hne.
    { intros k' Hk' ->. destruct (Hcr _ Hk') as (? & ? & _ & ?). congruence. }
    split; cbn.
    + eexists. split; [apply lookup_insert_eq|]. split; [done|]. split; [done|].
      intros p k' Hk'. rewrite slot_queue_push_back in Hk'.
      change (is_stale (list_to_set unread) (set_cs_intents
        (<[k := recovery_intent k g sid role m]> st.(cs_intents)) st) k' = false).
      rewrite is_stale_recovery by done. destruct (decide (k' = k)) as [|Hkk]; [done|].
      apply (Hstale p). case_decide; set_solver.
    + intros m' Hm' Hnot. destruct (decide (m' = m)) as [->|Hmm].
      * exists k. eexists. split; [apply lookup_insert_eq|]. apply recovery_owns.
      * destruct (Hown m') as (k' & i & Hk' & Ho); [done|set_solver|]. exists k', i.
        split; [|done]. cbn. rewrite lookup_insert_ne; [done|]. congruence.
    + intros k' Hk'. apply elem_of_app in Hk' as [Hk'|Hk'].
      * rewrite lookup_insert_ne by (by apply not_eq_sym, Hne). auto.
      * apply list_elem_of_singleton in Hk' as ->. exists m, now_ms.
        by rewrite lookup_insert_eq.
    + assert (∀ k' i, k' ∈ created → st.(cs_intents) !! k' = Some i →
        i.(wi_mailbox_message_id) ≠ Some m) as Hother.
      { intros k' i Hk' Hi Him. apply Hno. exists k', i. split; [done|].
        destruct (Hcr _ Hk') as (m' & t & _ & Hi'). rewrite Hi in Hi'. injection Hi' as ->.
        injection Him as ->. unfold owns_message. cbn. by rewrite !bool_decide_true. }
      intros k1 k2 m' i1 i2 H1 H2. rewrite !lookup_insert.
      apply elem_of_app in H1, H2. setoid_rewrite list_elem_of_singleton in H1.
      setoid_rewrite list_elem_of_singleton in H2.
      repeat case_decide; simplify_eq; [done| | |]; intros Hi1 Hi2 Hm1 Hm2; simplify_eq.
      * destruct H2 as [H2|]; [|done]. injection Hm1 as ->. by destruct (Hother k2 i2).
      * destruct H1 as [H1|]; [|done]. injection Hm2 as ->. by destruct (Hother k1 i1).
      * destruct H1 as [H1|]; [|done]. destruct H2 as [H2|]; [|done]. eauto.
Qed.

Lemma is_stale_assign_states unread f ids st k :
  is_stale unread (assign_states f ids st) k = is_stale unread st k.
Proof.
  unfold assign_states. revert st. induction ids as [|id ids IH]; intros st; cbn [foldl]; [done|].
  by rewrite IH, is_stale_assign.
Qed.

Lemma remove_all_fields ids slot :
  (remove_all ids slot).(sl_role) = slot.(sl_role) ∧
  (remove_all ids slot).(sl_known_unread_message_ids) = slot.(sl_known_unread_message_ids).
Proof.
  unfold remove_all. revert slot. induction ids as [|id ids IH]; intros slot; cbn [foldl]; [done|].
  destruct (IH (remove_queued id slot)) as [-> ->]. done.
Qed.

Lemma reconcile_mailbox_reconciled `{CallEnv} sid unread role c :
  coordinator_wf c → fresh_ids c.(co_state) →
  ∃ r c', reconcile_mailbox sid unread role c = Some (r, c') ∧
    preserved [] c c' ∧
    reconciled sid unread [] role c.(co_session_generation)
      r.(rp_created_recovery_intent_ids) c'.(co_state) ∧
    r.(rp_retained_intent_ids) ++ r.(rp_cleared_stale_intent_ids) ≡ₚ
      queued_ids (slot_entry sid role c.(co_state)).
Proof.
  intros Hwf Hfresh. destruct (reconcile_mailbox_preserved sid unread role c Hwf Hfresh)
    as (r & c' & Heq & Hp). exists r, c'. split; [done|]. split; [done|]. clear Hp.
  revert Heq. unfold reconcile_mailbox.
  set (slot := set_sl_known_unread _ _). set (st := put_slot _ _ _).
  assert (state_wf c.(co_session_generation) st) as Hst.
  { apply state_wf_put_slot; [apply slot_entry_same_fields|done]. }
  pose proof (reconcile_first_loop _ sid slot (list_to_set unread) st
    (lookup_put_slot_eq _ _ _) Hst) as Hloop.
  destruct (foldl _ _ _) as [[st' kept] cleared]. destruct Hloop as (-> & -> & ->).
  destruct (cleared_state_wf _ sid slot (list_to_set unread) st
    (lookup_put_slot_eq _ _ _) Hst) as (Hwf' & Hev' & Hact').
  set (st1 := cleared_state sid slot (list_to_set unread) st) in *.
  destruct (for_each_inv (reconcile_message c.(co_session_generation) sid role)
    (λ rest acc, rest `suffix_of` unread ∧ recovering c.(co_session_generation) st1 sid acc ∧
       reconciled sid unread rest role c.(co_session_generation) acc.2 acc.1)
    unread (st1, [])) as ([st2 created] & Hfor & _ & _ & Hrec).
  - intros m rest acc (Hsuf & Hacc & Hr).
    destruct (reconcile_message_recovering c.(co_session_generation) sid role st1 acc m)
      as (acc' & Hacc' & Hrec'); [apply Hfresh|done|].
    exists acc'. split; [done|]. split; [by eapply suffix_cons_l|]. split; [done|].
    eapply (reconcile_message_step _ _ _ _ m); [exact Hacc| |exact Hr|exact Hacc'].
    destruct Hsuf as [pre ->]. set_solver.
  - split; [done|]. split.
    + split; [done| |done|done|].
      * cbn. rewrite lookup_insert_eq. eauto.
      * intros n _. cbn [fst st1 cleared_state put_slot set_cs_slots cs_intents].
        rewrite lookup_assign_states by done. cbn [st put_slot set_cs_slots cs_intents].
        rewrite (fr_intents _ Hfresh). by case_decide.
    + split; [|set_solver..]. cbn [fst].
      exists (remove_all (filter (is_stale (list_to_set unread) st) (queued_ids slot)) slot).
      split; [apply lookup_put_slot_eq|].
      destruct (remove_all_fields (filter (is_stale (list_to_set unread) st) (queued_ids slot)) slot)
        as [-> ->].
      split; [done|]. split; [done|]. intros p k Hk.
      change (is_stale (list_to_set unread) (assign_states (λ _, IntentCompleted)
        (filter (is_stale (list_to_set unread) st) (queued_ids slot)) st) k = false).
      rewrite is_stale_assign_states. apply elem_of_queue_remove_all in Hk as [Hk Hnot].
      destruct (is_stale (list_to_set unread) st k) eqn:Hs; [|done]. destruct Hnot.
      apply list_elem_of_filter. split; [by rewrite Hs|]. apply elem_of_queued_ids. eauto.
  - rewrite Hfor. cbn [mbind option_bind]. intros [= <- <-]. cbn [co_state with_state
      rp_created_recovery_intent_ids rp_retained_intent_ids rp_cleared_stale_intent_ids].
    split; [done|]. change (queued_ids (slot_entry sid role c.(co_state))) with (queued_ids slot).
    rewrite (Permutation_app_comm (filter _ _)).
    etrans; [|apply (filter_app_complement (λ k, is_stale (list_to_set unread) st k))].
    f_equiv. apply reflexive_eq, list_filter_iff. intros k. by rewrite negb_True.
Qed.

Lemma reconciled_noop `{CallEnv} sid unread role g created c :
  coordinator_wf c → reconciled sid unread [] role g created c.(co_state) →
  ∃ kept, reconcile_mailbox sid unread role c = Some (mkReconcileProjection [] kept [], c).
Proof.
  intros Hwf [(slot & Hslot & Hrole & Hknown & Hstale) Hown _ _].
  unfold reconcile_mailbox. rewrite (slot_entry_Some _ _ _ _ Hslot).
  assert (set_sl_known_unread (list_to_set unread) (set_sl_role role slot) = slot) as ->
    by (rewrite <- Hrole, <- Hknown; by destruct slot).
  assert (put_slot sid slot c.(co_state) = c.(co_state)) as ->.
  { unfold put_slot. rewrite insert_id by done. by destruct (co_state c). }
  pose proof (reconcile_first_loop _ sid slot (list_to_set unread) _ Hslot Hwf) as Hloop.
  destruct (foldl _ _ _) as [[st' kept] cleared]. destruct Hloop as (-> & -> & ->).
  assert (filter (is_stale (list_to_set unread) c.(co_state)) (queued_ids slot) = []) as Hnil.
  { apply list_filter_none. intros k [p Hk]%elem_of_queued_ids. rewrite (Hstale p k Hk). intros []. }
  assert (cleared_state sid slot (list_to_set unread) c.(co_state) = c.(co_state)) as ->.
  { unfold cleared_state. rewrite Hnil. cbn. unfold put_slot. cbn.
    rewrite insert_id by done. by destruct (co_state c). }
  assert (∀ l, (∀ m, m ∈ l → m ∈ unread) →
    for_each (reconcile_message c.(co_session_generation) sid role) (c.(co_state), []) l =
      Some (c.(co_state), [])) as Hfor.
  { induction l as [|m l IH]; intros Hl; [done|]. cbn [for_each reconcile_message].
    rewrite (proj2 (existsb_owns sid m c.(co_state)) (Hown m (Hl m ltac:(set_solver))
      ltac:(set_solver))).
    cbn [mbind option_bind]. apply IH. set_solver. }
  rewrite Hfor by done. cbn [mbind option_bind]. rewrite Hnil. eexists. do 2 f_equal.
  by destruct c.
Qed.

(** Reconciling leaves no unread message unattended and no stale work queued: every
    unread message of the slot is carried by a live intent, at most one intent is
    created per message, every queued intent that carries a message carries an unread
    one, and each intent that was queued is either retained or cleared. *)
Theorem reconcile_covers_unread `{CallEnv} sid unread role r c c' :
  coordinator_wf c → fresh_ids c.(co_state) →
  reconcile_mailbox sid unread role c = Some (r, c') →
  (∀ m, m ∈ unread → owned sid m c'.(co_state)) ∧
  (∀ p k i m, k ∈ slot_queue p (slot_entry sid role c'.(co_state)) →
     c'.(co_state).(cs_intents) !! k = Some i → i.(wi_mailbox_message_id) = Some m →
     m ∈ unread) ∧
  (∀ k1 k2 m i1 i2, k1 ∈ r.(rp_created_recovery_intent_ids) →
     k2 ∈ r.(rp_created_recovery_intent_ids) →
     c'.(co_state).(cs_intents) !! k1 = Some i1 → c'.(co_state).(cs_intents) !! k2 = Some i2 →
     i1.(wi_mailbox_message_id) = Some m → i2.(wi_mailbox_message_id) = Some m → k1 = k2) ∧
  r.(rp_retained_intent_ids) ++ r.(rp_cleared_stale_intent_ids) ≡ₚ
    queued_ids (slot_entry sid role c.(co_state)).
Proof.
  intros Hwf Hfresh Heq.
  destruct (reconcile_mailbox_reconciled sid unread role c Hwf Hfresh)
    as (r' & c1 & Heq' & _ & [(slot & Hslot & _ & _ & Hstale) Hown _ Hd] & Hperm).
  rewrite Heq in Heq'. injection Heq' as <- <-. split; [intros m Hm; apply Hown; set_solver|].
  split; [|done]. intros p k i m Hk Hi Hm. rewrite (slot_entry_Some _ _ _ _ Hslot) in Hk.
  specialize (Hstale p k Hk). unfold is_stale in Hstale. rewrite Hi in Hstale. cbn in Hstale.
  rewrite Hm in Hstale. apply bool_decide_eq_false in Hstale. set_solver.
Qed.

(** Reconciling is idempotent: a second call with the same unread messages creates
    nothing, clears nothing and changes nothing. *)
Theorem reconcile_idempotent (env env' : CallEnv) sid unread role r c c' :
  coordinator_wf c → fresh_ids (H0 := env) c.(co_state) →
  reconcile_mailbox (H0 := env) sid unread role c = Some (r, c') →
  ∃ kept, reconcile_mailbox (H0 := env') sid unread role c' =
          Some (mkReconcileProjection [] kept [], c').
Proof.
  intros Hwf Hfresh Heq.
  destruct (reconcile_mailbox_reconciled (H0 := env) sid unread role c Hwf Hfresh)
    as (r' & c1 & Heq' & Hp & Hrec & _).
  rewrite Heq in Heq'. injection Heq' as <- <-. eapply reconciled_noop; [apply Hp|exact Hrec].
Qed.
End functional.

(** ** Concrete instances *)

Lemma next_claims_by_priority_witness :
  ∃ slot, (sy_state demo_queued).(cs_slots) !! "lead" = Some slot ∧
    slot.(sl_paused) = false ∧
    ["c0"] = filter (has_message (sy_state demo_queued)) (slot_queue Foreground slot).
Proof.
  destruct (next_claims_by_priority (H0 := demo_env "f" 1000) "lead" user_batch
    (sy_coordinator demo_queued) (sy_coordinator demo_claimed)) as
    (slot & slot' & Hs & _ & _ & _ & Hp & _ & _ & _ & Hids & _).
  - apply demo_wf, demo_queued_reachable.
  - vm_compute. reflexivity.
  - exists slot. split; [exact Hs|]. split; [exact Hp|exact Hids].
Defined.

(** The state after the commit of the first lease. *)
Definition demo_committed : demo_system :=
  demo_state (trace_leased ++ [("c"%char, CallCommit user_lease (Some "m1"))]).

Lemma commit_enqueue_effect_witness :
  commit_enqueue (H0 := demo_env "c" 1000) user_lease (Some "m1")
    (sy_coordinator demo_committed) =
    Some (Err (InvalidRequest "enqueue lease is no longer active"), sy_coordinator demo_committed).
Proof.
  destruct (commit_enqueue (H0 := demo_env "c" 1000) user_lease (Some "m1")
    (sy_coordinator demo_leased)) as [[r c']|] eqn:Heq; [|vm_compute in Heq; discriminate].
  pose proof (commit_enqueue_effect (H0 := demo_env "c" 1000) user_lease (Some "m1") r
    (sy_coordinator demo_leased) c') as Heffect.
  vm_compute in Heq. injection Heq as <- <-.
  apply Heffect.
  - apply demo_wf, demo_leased_reachable.
  - apply demo_fresh. vm_compute. reflexivity.
  - vm_compute. reflexivity.
Defined.

Lemma acquire_abort_roundtrip_witness :
  ∃ c2, abort_enqueue (H0 := demo_env "c" 1000) user_lease (sy_coordinator demo_leased) =
          (Committed, c2) ∧
    c2.(co_state).(cs_enqueue_leases) = ∅.
Proof.
  destruct (acquire_abort_roundtrip (demo_env "b" 1000) (demo_env "c" 1000) user_request
    user_lease (sy_coordinator (demo_state [("a"%char, CallConstrain "lead" Ready)]))
    (sy_coordinator demo_leased)) as (c2 & Habort & Hleases & _).
  - apply demo_wf. demo.
  - apply demo_fresh. vm_compute. reflexivity.
  - vm_compute. reflexivity.
  - exists c2. split; [exact Habort|]. rewrite Hleases. vm_compute. reflexivity.
Defined.

(** The user's message has been read and a new one has arrived. *)
Definition demo_reconciled : demo_system :=
  demo_state (trace_queued ++ [("f"%char, CallReconcile "lead" ["m2"; "m3"] Lead)]).

Lemma reconcile_covers_unread_witness :
  owned "lead" "m3" (sy_state demo_reconciled).
Proof.
  pose proof (reconcile_covers_unread (H0 := demo_env "f" 1000) "lead" ["m2"; "m3"] Lead
    (mkReconcileProjection ["f0"] ["e0"] ["c0"]) (sy_coordinator demo_queued)
    (sy_coordinator demo_reconciled)) as Hcover.
  apply Hcover.
  - apply demo_wf, demo_queued_reachable.
  - apply demo_fresh. vm_compute. reflexivity.
  - vm_compute. reflexivity.
  - apply list_elem_of_further, list_elem_of_here.
Defined.

Lemma reconcile_idempotent_witness :
  ∃ kept, reconcile_mailbox (H0 := demo_env "g" 1000) "lead" ["m2"; "m3"] Lead
            (sy_coordinator demo_reconciled) =
          Some (mkReconcileProjection [] kept [], sy_coordinator demo_reconciled).
Proof.
  apply (reconcile_idempotent (demo_env "f" 1000) (demo_env "g" 1000) "lead" ["m2"; "m3"] Lead
    (mkReconcileProjection ["f0"] ["e0"] ["c0"]) (sy_coordinator demo_queued)).
  - apply demo_wf, demo_queued_reachable.
  - apply demo_fresh. vm_compute. reflexivity.
  - vm_compute. reflexivity.
Defined.
