(* ===== verification/WorkControl.v ===== *)
(** * Cancelling, retrying, failing, removing and stopping

    The control operations of the coordinator: what they end, what they keep, and what
    the snapshots say afterwards. *)
From Stdlib Require Import Ascii.
From S2P Require Import Prelude WorkModel WorkState WorkCoordinator TeamRun.
From S2P Require Import WorkInvariant WorkOps WorkSystem WorkDemo WorkFunctional.

Section control.
Context {P : Type} `{RunCausalityPort P}.
Implicit Types c : Coordinator P.

(** ** Summaries *)

Lemma filter_hash_values_perm (H1 H2 : HashOrder) {V} (Q : V → Prop) `{∀ x, Decision (Q x)}
    (m : gmap string V) :
  filter Q (hash_values (H := H1) m) ≡ₚ filter Q (hash_values (H := H2) m).
Proof. by rewrite (hash_values_perm H1 H2). Qed.

(** The summary of a run does not depend on the order in which the hash maps are
    iterated: two processes in the same state publish the same summary. *)
Theorem run_summary_order_independent (H1 H2 : HashOrder) st run :
  run_summary_locked (H := H1) st run = run_summary_locked (H := H2) st run.
Proof.
  unfold run_summary_locked, run_intents, run_leases.
  pose proof (filter_hash_values_perm H1 H2 (λ i, in_run run i.(wi_team_run_id)) st.(cs_intents))
    as Hi.
  pose proof (filter_hash_values_perm H1 H2 (λ r, in_run run r.(er_lease).(el_team_run_id))
    st.(cs_enqueue_leases)) as Hl.
  f_equal; [by rewrite Hi|apply hash_set_len_ext|apply hash_set_len_ext|by rewrite Hl
           |by rewrite Hi|by rewrite Hi|f_equal; apply btree_set_ext];
    intros k; by rewrite ?Hi, ?Hl.
Qed.

Lemma filter_empty_length {A} (Q : A → Prop) `{∀ x, Decision (Q x)} (l : list A) :
  (∀ x, x ∈ l → ¬ Q x) → length (filter Q l) = 0.
Proof. intros Hl. by rewrite list_filter_none. Qed.

Lemma omap_none {A B} (f : A → option B) (l : list A) :
  (∀ x, x ∈ l → f x = None) → omap f l = [].
Proof.
  intros Hl. induction l as [|x l IH]; [done|]. cbn. rewrite Hl by set_solver.
  apply IH. set_solver.
Qed.

Lemma run_summary_no_work `{HashOrder} st run :
  (∀ k i, st.(cs_intents) !! k = Some i → i.(wi_team_run_id) = Some run →
     is_terminal i.(wi_state) = true) →
  (∀ k r, st.(cs_enqueue_leases) !! k = Some r → r.(er_lease).(el_team_run_id) ≠ Some run) →
  has_work (run_summary_locked st run) = false.
Proof.
  intros Hi Hl. unfold run_summary_locked, has_work. cbn.
  assert (∀ i, i ∈ run_intents st run → is_terminal i.(wi_state) = true) as Hterm.
  { intros i [Hr [k Hk]%elem_of_hash_values]%list_elem_of_filter.
    apply (Hi k); [done|]. by apply bool_decide_unpack in Hr. }
  assert (run_leases st run = []) as ->.
  { apply list_filter_none. intros r [k Hk]%elem_of_hash_values Hr%bool_decide_unpack.
    by apply (Hl k r). }
  rewrite !filter_empty_length, !omap_none; [done|..];
    intros i Ht%Hterm; destruct (wi_state i); done || intros [].
Qed.

(** [cancel_run] ends the run and nothing else: every intent of the run is terminal
    and its leases are gone, so its summary counts no work; an intent outside the run
    keeps its state, or goes back to its queue if the cancelled batch held it. *)
Theorem cancel_run_ends_the_run `{CallEnv} run c :
  coordinator_wf c →
  ∃ r c', cancel_run run c = Some (r, c') ∧
    (∀ k i, c'.(co_state).(cs_intents) !! k = Some i → i.(wi_team_run_id) = Some run →
       is_terminal i.(wi_state) = true) ∧
    (∀ k i, c.(co_state).(cs_intents) !! k = Some i → i.(wi_team_run_id) ≠ Some run →
       ∃ t, c'.(co_state).(cs_intents) !! k = Some (set_wi_state t i) ∧
            (t = i.(wi_state) ∨ inflight i.(wi_state) ∧ t = IntentQueued)) ∧
    (∀ k rec, c'.(co_state).(cs_enqueue_leases) !! k = Some rec ↔
       c.(co_state).(cs_enqueue_leases) !! k = Some rec ∧
       rec.(er_lease).(el_team_run_id) ≠ Some run) ∧
    has_work r.(cw_summary) = false.
Proof.
  intros Hwf. destruct (cancel_run_total run c Hwf) as (r & c' & Heq & _ & [Hc Ht Hl Hs]).
  assert (∀ k rec, c'.(co_state).(cs_enqueue_leases) !! k = Some rec ↔
    c.(co_state).(cs_enqueue_leases) !! k = Some rec ∧
    rec.(er_lease).(el_team_run_id) ≠ Some run) as Hleases.
  { intros k rec. rewrite Hl. destruct (_ !! k) as [rec'|]; [|naive_solver].
    unfold in_run. case_bool_decide; naive_solver. }
  exists r, c'. split; [done|]. split; [done|]. split; [|split; [done|]].
  - intros k i Hk Hr. destruct (cc_old _ _ _ Hc _ _ Hk) as (t & Ht' & Hct).
    exists t. split; [done|]. destruct Hct as [|[Hlive ->]]; [by left|].
    unfold run_cancelled, in_run. rewrite bool_decide_false by done.
    destruct (wi_state i) eqn:Hst; try done; [by left|by right|by right].
  - rewrite Hs. apply run_summary_no_work; [done|]. intros k rec Hk.
    exact (proj2 (proj1 (Hleases k rec) Hk)).
Qed.

(** ** Retrying *)

Lemma selected_priority_intro slot p :
  slot_queue p slot ≠ [] → (∀ q, rank q < rank p → slot_queue q slot = []) →
  selected_priority slot = Some p.
Proof.
  intros Hp Hq. unfold selected_priority. cbn [List.find].
  repeat case_bool_decide; try destruct p; try done;
    exfalso; match goal with Hn : slot_queue ?q _ ≠ [] |- _ =>
      apply Hn, Hq; cbn; lia end.
Qed.

Lemma assign_states_back t ids st st1 :
  (∀ k i, k ∈ ids → st.(cs_intents) !! k = Some i → i.(wi_state) = IntentQueued) →
  st1.(cs_intents) = (assign_states (λ _, t) ids st).(cs_intents) →
  (assign_states (λ _, IntentQueued) ids st1).(cs_intents) = st.(cs_intents).
Proof.
  intros Hq Hst1. apply map_eq. intros k. rewrite lookup_assign_states, Hst1 by done.
  rewrite !lookup_assign_states by done.
  case_decide as Hk; [|done]. destruct (cs_intents st !! k) as [i|] eqn:Hi; [|done].
  cbn. f_equal. rewrite <- (Hq _ _ Hk Hi). by destruct i.
Qed.

Lemma of_priority_same p ids : of_priority p ((p,.) <$> ids) = ids.
Proof.
  unfold of_priority. induction ids as [|k ids IH]; [done|]. cbn [fmap list_fmap].
  rewrite filter_cons, decide_True by done. cbn [fmap list_fmap snd]. by f_equal.
Qed.

Lemma of_priority_other p q ids : q ≠ p → of_priority q ((p,.) <$> ids) = [].
Proof.
  intros Hq. unfold of_priority. induction ids as [|k ids IH]; [done|]. cbn [fmap list_fmap].
  by rewrite filter_cons, decide_False by (by apply not_eq_sym).
Qed.

(** The slot after a claim and a retry. *)
Definition retried_slot p ids slot : SlotState :=
  requeue_front ((p,.) <$> ids) (set_sl_active None (remove_all ids slot)).

Lemma requeue_front_fields l slot :
  (requeue_front l slot).(sl_runtime_constraint) = slot.(sl_runtime_constraint) ∧
  (requeue_front l slot).(sl_paused) = slot.(sl_paused).
Proof.
  unfold requeue_front. generalize (reverse l). clear l. intros l. revert slot.
  induction l as [|e l IH]; intros slot; cbn [foldl]; [done|].
  by destruct (IH (push_front e.1 e.2 slot)) as [-> ->].
Qed.

Lemma remove_all_control ids slot :
  (remove_all ids slot).(sl_runtime_constraint) = slot.(sl_runtime_constraint) ∧
  (remove_all ids slot).(sl_paused) = slot.(sl_paused).
Proof.
  unfold remove_all. revert slot. induction ids as [|k ids IH]; intros slot; cbn [foldl]; [done|].
  by destruct (IH (remove_queued k slot)) as [-> ->].
Qed.

Lemma retried_slot_facts p ids slot :
  (retried_slot p ids slot).(sl_active) = None ∧
  (retried_slot p ids slot).(sl_runtime_constraint) = slot.(sl_runtime_constraint) ∧
  (retried_slot p ids slot).(sl_paused) = slot.(sl_paused) ∧
  slot_queue p (retried_slot p ids slot) = ids ++ filter (λ k, k ∉ ids) (slot_queue p slot) ∧
  ∀ q, q ≠ p → slot_queue q (retried_slot p ids slot) = filter (λ k, k ∉ ids) (slot_queue q slot).
Proof.
  unfold retried_slot.
  destruct (requeue_front_fields ((p,.) <$> ids) (set_sl_active None (remove_all ids slot)))
    as [-> ->].
  destruct (remove_all_control ids slot) as [Hc Hp].
  split; [apply requeue_front_active|]. split; [done|]. split; [done|].
  split; [|intros q Hq]; rewrite slot_queue_requeue_front, slot_queue_active,
    slot_queue_remove_all; [by rewrite of_priority_same|by rewrite of_priority_other].
Qed.

Lemma retry_after_claim (env' : CallEnv) batch slot st c1 :
  c1.(co_state) = claimed_state batch slot st →
  c1.(co_session_generation) = batch.(wb_session_generation) →
  coordinator_wf c1 →
  (∀ k i, k ∈ batch.(wb_intent_ids) → st.(cs_intents) !! k = Some i →
     i.(wi_state) = IntentQueued) →
  ∃ c2, retry_start (H0 := env') batch c1 = Some (Committed, c2) ∧
    c2.(co_session_generation) = c1.(co_session_generation) ∧
    c2.(co_state).(cs_intents) = st.(cs_intents) ∧
    c2.(co_state).(cs_slots) !! batch.(wb_slot_id) =
      Some (retried_slot batch.(wb_highest_priority) batch.(wb_intent_ids) slot).
Proof.
  intros Hst Hgen Hwf Hq.
  set (slot1 := set_sl_active (Some (mkActiveBatch batch None None))
                  (remove_all batch.(wb_intent_ids) slot)).
  assert (c1.(co_state).(cs_slots) !! batch.(wb_slot_id) = Some slot1) as Hslot1
    by (rewrite Hst; apply lookup_put_slot_eq).
  assert (is_current_batch c1.(co_session_generation) c1.(co_state) batch = true) as Hcur.
  { unfold is_current_batch. rewrite Hslot1. cbn. rewrite Hgen. by rewrite !bool_decide_true. }
  rewrite (retry_start_current (H0 := env') batch slot1 (mkActiveBatch batch None None) c1)
    by done.
  eexists. split; [done|]. split; [done|]. cbn [co_state publish_run_summaries with_port with_state].
  unfold released_state. split.
  - cbn [put_slot set_cs_slots cs_intents]. rewrite Hst.
    by apply (assign_states_back (IntentStarting batch.(wb_batch_id) batch.(wb_operation_id)) _
      (set_cs_next_operation_id batch.(wb_operation_id) st)).
  - rewrite lookup_put_slot_eq.
    by rewrite (retained_queued _ _ batch slot1 (mkActiveBatch batch None None) Hwf Hslot1).
Qed.

Lemma filter_reclaim st1 st2 ids q :
  ids = filter (has_message st1) q → st2.(cs_intents) = st1.(cs_intents) →
  filter (has_message st2) (ids ++ filter (λ k, k ∉ ids) q) = ids.
Proof.
  intros Hids Hst. rewrite filter_app.
  assert (∀ k, has_message st2 k = has_message st1 k) as Hhm
    by (intros k; unfold has_message; by rewrite Hst).
  rewrite list_filter_true, list_filter_none; [by rewrite app_nil_r| |].
  - intros k [Hk Hin]%list_elem_of_filter. rewrite Hhm. intros Hm. apply Hk. rewrite Hids.
    by apply list_elem_of_filter.
  - intros k Hk. rewrite Hhm. rewrite Hids in Hk. by apply list_elem_of_filter in Hk as [? _].
Qed.

(** Retrying the start of a claimed batch undoes the claim and loses no order: the
    intents are those of before, the batch's are back at the head of their queue in
    their order, and the next [next] claims the very same intents again. *)
Theorem retry_start_undoes_claim (env env' env'' : CallEnv) sid b c c1 :
  coordinator_wf c → next (H0 := env) sid c = Some (Claim b, c1) →
  ∃ c2 slot2 rest b' c3, retry_start (H0 := env') b c1 = Some (Committed, c2) ∧
    c2.(co_state).(cs_intents) = c.(co_state).(cs_intents) ∧
    c2.(co_state).(cs_slots) !! sid = Some slot2 ∧ slot2.(sl_active) = None ∧
    slot_queue b.(wb_highest_priority) slot2 = b.(wb_intent_ids) ++ rest ∧
    next (H0 := env'') sid c2 = Some (Claim b', c3) ∧
    b'.(wb_intent_ids) = b.(wb_intent_ids) ∧
    b'.(wb_mailbox_message_ids) = b.(wb_mailbox_message_ids).
Proof.
  intros Hwf Hnext. destruct (next_preserved (H0 := env) sid c Hwf) as (d0 & c0 & Hn0 & Hp0).
  rewrite Hnext in Hn0. injection Hn0 as <- <-. pose proof (pr_wf _ _ _ Hp0) as Hwf1.
  destruct (next_total (H0 := env) sid c Hwf) as (d & c1' & Hnext' & Hspec).
  rewrite Hnext in Hnext'. injection Hnext' as <- <-.
  inversion Hspec as [| | | | | |slot p cx ids batch st Hslot Hact Hready Hpaused Hp Hids Hc1 Hb];
    clear Hspec. subst cx b. destruct (selected_priority_spec _ _ Hp) as [_ Hrank].
  destruct (retry_after_claim env' batch slot c.(co_state) c1)
    as (c2 & Hretry & Hg2 & Hi2 & Hslot2); [by rewrite Hc1|by rewrite Hc1|done| |].
  { intros k i [_ Hk]%list_elem_of_filter Hi.
    apply (wf_queued_lookup _ _ _ _ _ _ Hwf Hslot) in Hk.
    by destruct (intent_at_inv _ _ _ _ _ _ Hk Hi) as (_ & _ & ?). }
  change (wb_slot_id batch) with sid in Hslot2. change (wb_highest_priority batch) with p in *.
  change (wb_intent_ids batch) with ids in *.
  destruct (retried_slot_facts p ids slot) as (Ha2 & Hc2 & Hp2 & Hq2 & Hqo2).
  set (slot2 := retried_slot p ids slot) in *.
  assert (selected_priority slot2 = Some p) as Hsel.
  { apply selected_priority_intro.
    - rewrite Hq2. by destruct ids.
    - intros q Hq. rewrite Hqo2, (Hrank q Hq); [done|]. intros ->. lia. }
  assert (filter (has_message c2.(co_state)) (slot_queue p slot2) = ids) as Hfilter
    by (rewrite Hq2; by apply (filter_reclaim c.(co_state))).
  do 5 eexists. split; [exact Hretry|]. split; [done|]. split; [exact Hslot2|].
  split; [done|]. split; [exact Hq2|]. split.
  - unfold next. rewrite Hslot2, Ha2, Hc2, Hp2, Hready, Hpaused, Hsel, Hfilter. cbn.
    rewrite bool_decide_eq_false_2 by done. apply (claim_batch_eq _ slot2); [done|].
    intros k [_ Hk]%list_elem_of_filter. rewrite Hi2.
    destruct (wf_queued_lookup _ _ _ _ _ _ Hwf Hslot Hk) as (i & -> & _). eauto.
  - split; [done|]. cbn. rewrite !claim_log_messages. by rewrite Hi2.
Qed.

(** ** Runtime failure *)

Lemma requeue_back_constraint l slot :
  (requeue_back l slot).(sl_runtime_constraint) = slot.(sl_runtime_constraint).
Proof.
  unfold requeue_back. revert slot. induction l as [|e l IH]; intros slot; cbn [foldl]; [done|].
  by rewrite IH.
Qed.

(** When the runtime of a slot fails, the work of runs on it fails and the background
    work is kept: every live intent of a run becomes [Failed], every other live intent is
    queued again, the active batch is dropped, and the slot is blocked until its
    constraint changes. *)
Theorem failed_runtime_keeps_background `{CallEnv} sid op why c :
  coordinator_wf c →
  ∃ r c', set_runtime_constraint sid (Failed op why) c = Some (r, c') ∧
    (∀ k i, c.(co_state).(cs_intents) !! k = Some i →
       c'.(co_state).(cs_intents) !! k = Some
         (if bool_decide (i.(wi_slot_id) = sid) && negb (is_terminal i.(wi_state))
          then set_wi_state (if bool_decide (i.(wi_team_run_id) = None) then IntentQueued
                             else IntentFailed why) i
          else i)) ∧
    (∀ k i p, c'.(co_state).(cs_intents) !! k = Some i → i.(wi_slot_id) = sid →
       k ∈ slot_queue p (slot_entry sid Teammate c'.(co_state)) ↔
         i.(wi_priority) = p ∧ i.(wi_state) = IntentQueued) ∧
    next sid c' = Some (Blocked (Failed op why), c').
Proof.
  intros Hwf. destruct (set_runtime_constraint_preserved sid (Failed op why) c Hwf)
    as (r & c' & Heq & Hp).
  destruct (set_runtime_constraint_eq sid (Failed op why) c Hwf) as (r' & runs & Heq').
  rewrite Heq in Heq'. injection Heq' as <- Hc'.
  exists r, c'. split; [done|]. pose proof (pr_wf _ _ _ Hp) as Hwf'.
  assert (c'.(co_state) = constrained_state sid (Failed op why) c.(co_state)) as Hst
    by (by rewrite Hc').
  split; [|split].
  - intros k i Hi. rewrite Hst. unfold constrained_state. cbn [constraint_terminal_state].
    unfold reset_state. cbn [put_slot set_cs_slots cs_intents].
    rewrite lookup_assign_states by done. cbn [put_slot set_cs_slots cs_intents].
    rewrite Hi. case_decide as Hk.
    + apply elem_of_live_intents_of in Hk as (i' & Hi' & Hs & Ht); [|apply Hwf].
      cbn in Hi'. simplify_eq. rewrite Ht, bool_decide_true by done. cbn.
      unfold constrained. cbn. by rewrite andb_true_r.
    + destruct (bool_decide _ && _) eqn:Hb; [|done]. destruct Hk.
      apply elem_of_live_intents_of; [apply Hwf|]. exists i.
      apply andb_true_iff in Hb as [Hs%bool_decide_eq_true Ht]. split; [done|].
      split; [done|]. by destruct (is_terminal _).
  - intros k i p Hi Hs. rewrite (sw_queue _ _ _ _ (wf_slot _ _ Hwf' sid) p k).
    unfold intent_at. naive_solver.
  - assert (∃ slot, c'.(co_state).(cs_slots) !! sid = Some slot ∧ slot.(sl_active) = None ∧
      slot.(sl_runtime_constraint) = Failed op why) as (slot & Hslot & Ha & Hr).
    { rewrite Hst. eexists. split; [apply lookup_put_slot_eq|]. rewrite requeue_back_active.
      by rewrite requeue_back_constraint. }
    unfold next. by rewrite Hslot, Ha, Hr.
Qed.

(** ** Removal *)

(** Removing a slot ends its work and only its work: every live intent of the slot is
    cancelled, no other intent changes, the slot has no queue and no batch left, and
    enqueueing to it is refused. *)
Theorem remove_slot_ends_the_slot `{CallEnv} sid slot c :
  coordinator_wf c → c.(co_state).(cs_slots) !! sid = Some slot →
  ∃ r c', remove_slot sid c = Some (r, c') ∧
    (∀ k i, c.(co_state).(cs_intents) !! k = Some i →
       c'.(co_state).(cs_intents) !! k = Some
         (if bool_decide (i.(wi_slot_id) = sid) && negb (is_terminal i.(wi_state))
          then set_wi_state (IntentCancelled "slot_removed") i else i)) ∧
    c'.(co_state).(cs_slots) = <[sid := remove_slot_update slot]> c.(co_state).(cs_slots) ∧
    ∀ request, request.(rq_slot_id) = sid →
      (acquire_enqueue request c').1 =
        Err (InvalidRequest ("Team slot was removed: " +:+ sid)).
Proof.
  intros Hwf Hslot. destruct (remove_slot_eq sid c Hwf) as (r & runs & Heq).
  eexists r, _. split; [exact Heq|].
  cbn zeta. cbn [co_state publish_run_summaries with_port with_state].
  unfold removed_state. split; [|split].
  - intros k i Hi. cbn [alter_slot set_cs_slots cs_intents].
    rewrite lookup_assign_states, Hi by done. case_decide as Hk.
    + apply (elem_of_removal_order _ _ _ _ Hwf) in Hk as (i' & Hi' & Hs & Ht). simplify_eq.
      by rewrite Ht, bool_decide_true.
    + destruct (bool_decide _ && _) eqn:Hb; [|done]. destruct Hk.
      apply (elem_of_removal_order _ _ _ _ Hwf). exists i.
      apply andb_true_iff in Hb as [Hs%bool_decide_eq_true Ht]. split; [done|].
      split; [done|]. by destruct (is_terminal _).
  - rewrite (alter_slot_put _ _ _ slot) by (by rewrite assign_states_slots). cbn.
    by rewrite assign_states_slots.
  - intros request Hreq. unfold acquire_enqueue. cbn.
    rewrite (alter_slot_put _ _ _ slot) by (by rewrite assign_states_slots).
    unfold slot_entry. cbn. rewrite Hreq, lookup_insert_eq. cbn.
    unfold validate_enqueue_constraint. cbn. done.
Qed.

(** ** Shutdown *)

(** [stop] is final for the slots it knows: every intent is terminal, no lease, queue
    or batch is left, enqueueing is refused, and [next] reports the stop. *)
Theorem stop_is_final `{CallEnv} c :
  coordinator_wf c →
  let c' := (stop c).2 in
  (∀ k i, c'.(co_state).(cs_intents) !! k = Some i → is_terminal i.(wi_state) = true) ∧
  c'.(co_state).(cs_enqueue_leases) = ∅ ∧
  ∀ sid, is_Some (c.(co_state).(cs_slots) !! sid) →
    (∀ p, slot_queue p (slot_entry sid Teammate c'.(co_state)) = []) ∧
    active_batch c'.(co_state).(cs_slots) sid = None ∧
    next sid c' = Some (Blocked SessionStopped, c') ∧
    ∀ request, request.(rq_slot_id) = sid →
      is_ok (acquire_enqueue request c').1 = false.
Proof.
  intros Hwf c'. split; [apply (stopped_terminal c.(co_state))|]. split; [done|].
  intros sid [slot Hslot].
  assert (c'.(co_state).(cs_slots) !! sid = Some (stop_slot slot)) as Hs
    by (cbn; by rewrite lookup_fmap, Hslot).
  split; [intros p; rewrite (slot_entry_Some _ _ _ _ Hs); by destruct p|].
  split; [unfold active_batch; by rewrite Hs|].
  split; [unfold next; by rewrite Hs|].
  intros request Hreq. unfold acquire_enqueue. rewrite Hreq, (slot_entry_Some _ _ _ _ Hs).
  unfold validate_enqueue_constraint. cbn. by destruct (sl_removed slot).
Qed.

(** ** Pausing *)

(** A paused slot claims nothing, and pausing loses nothing: the queues, the batch and
    the intents stay, and [next] does not answer [Claim] while the slot is paused. *)
Theorem paused_slot_claims_nothing `{CallEnv} sid c :
  coordinator_wf c →
  ∃ r c', pause_slot sid c = Some (r, c') ∧
    same_work (slot_entry sid Teammate c.(co_state)) (slot_entry sid Teammate c'.(co_state)) ∧
    c'.(co_state).(cs_intents) = c.(co_state).(cs_intents) ∧
    ∃ d, next sid c' = Some (d, c') ∧ claimed d = [].
Proof.
  intros Hwf. unfold pause_slot. set (slot := set_sl_paused _ _).
  destruct (slot_snapshot_put c.(co_state) sid slot) as [snap Hsnap]. rewrite Hsnap.
  cbn [mbind option_bind]. do 2 eexists. split; [done|].
  cbn [co_state with_state]. rewrite (slot_entry_Some _ _ _ _ (lookup_put_slot_eq _ _ _)).
  split; [by split; [intros []|]|]. split; [done|]. unfold next. cbn [co_state with_state].
  rewrite lookup_put_slot_eq. case_bool_decide; [by eexists|].
  destruct (is_ready _); cbn [negb]; by eexists.
Qed.
End control.

(** ** Concrete instances *)

Lemma run_summary_order_independent_witness :
  run_summary_locked (H := plain_order) (sy_state demo_queued) "b0" =
    run_summary_locked (H := reverse_order) (sy_state demo_queued) "b0".
Proof. apply (run_summary_order_independent plain_order reverse_order). Defined.

Lemma cancel_run_ends_the_run_witness :
  ∃ r c', cancel_run (H0 := demo_env "h" 1000) "b0" (sy_coordinator demo_started) = Some (r, c') ∧
          has_work r.(cw_summary) = false.
Proof.
  destruct (cancel_run_ends_the_run (H0 := demo_env "h" 1000) "b0" (sy_coordinator demo_started))
    as (r & c' & Heq & _ & _ & _ & Hwork).
  - apply demo_wf, demo_started_reachable.
  - exists r, c'. split; [exact Heq|exact Hwork].
Defined.

Lemma retry_start_undoes_claim_witness :
  ∃ c2, retry_start (H0 := demo_env "g" 1000) user_batch (sy_coordinator demo_claimed) =
          Some (Committed, c2) ∧
        c2.(co_state).(cs_intents) = (sy_state demo_queued).(cs_intents).
Proof.
  destruct (retry_start_undoes_claim (demo_env "f" 1000) (demo_env "g" 1000) (demo_env "h" 1000)
    "lead" user_batch (sy_coordinator demo_queued) (sy_coordinator demo_claimed))
    as (c2 & _ & _ & _ & _ & Hretry & Hi & _).
  - apply demo_wf, demo_queued_reachable.
  - vm_compute. reflexivity.
  - exists c2. split; [exact Hretry|exact Hi].
Defined.

Lemma failed_runtime_keeps_background_witness :
  ∃ r c', set_runtime_constraint (H0 := demo_env "h" 1000) "lead" (Failed 7 "crash")
            (sy_coordinator demo_started) = Some (r, c') ∧
          next (H0 := demo_env "h" 1000) "lead" c' = Some (Blocked (Failed 7 "crash"), c').
Proof.
  destruct (failed_runtime_keeps_background (H0 := demo_env "h" 1000) "lead" 7 "crash"
    (sy_coordinator demo_started)) as (r & c' & Heq & _ & _ & Hnext).
  - apply demo_wf, demo_started_reachable.
  - exists r, c'. split; [exact Heq|exact Hnext].
Defined.

Lemma remove_slot_ends_the_slot_witness :
  ∃ r c', remove_slot (H0 := demo_env "h" 1000) "lead" (sy_coordinator demo_started) =
            Some (r, c') ∧
          (acquire_enqueue (H0 := demo_env "h" 1000) user_request c').1 =
            Err (InvalidRequest ("Team slot was removed: lead")).
Proof.
  destruct ((sy_state demo_started).(cs_slots) !! "lead") as [slot|] eqn:Hslot;
    [|vm_compute in Hslot; discriminate].
  destruct (remove_slot_ends_the_slot (H0 := demo_env "h" 1000) "lead" slot
    (sy_coordinator demo_started)) as (r & c' & Heq & _ & _ & Hacq).
  - apply demo_wf, demo_started_reachable.
  - exact Hslot.
  - exists r, c'. split; [exact Heq|]. exact (Hacq user_request eq_refl).
Defined.

Lemma stop_is_final_witness :
  next (H0 := demo_env "h" 1000) "lead"
    (stop (H0 := demo_env "h" 1000) (sy_coordinator demo_started)).2 =
    Some (Blocked SessionStopped,
          (stop (H0 := demo_env "h" 1000) (sy_coordinator demo_started)).2).
Proof.
  pose proof (stop_is_final (H0 := demo_env "h" 1000) (sy_coordinator demo_started)
    (demo_wf _ demo_started_reachable)) as (_ & _ & Hslots).
  apply (Hslots "lead"). vm_compute. eexists. reflexivity.
Defined.

Lemma paused_slot_claims_nothing_witness :
  ∃ r c', pause_slot "lead" (sy_coordinator demo_queued) =
            Some (r, c') ∧
          ∃ d, next (H0 := demo_env "f" 1000) "lead" c' = Some (d, c') ∧ claimed d = [].
Proof.
  destruct (paused_slot_claims_nothing (H0 := demo_env "f" 1000) "lead"
    (sy_coordinator demo_queued)) as (r & c' & Heq & _ & _ & Hnext).
  - apply demo_wf, demo_queued_reachable.
  - exists r, c'. split; [exact Heq|exact Hnext].
Defined.
