(* ===== verification/WorkPublish.v ===== *)
(** * Runs: what the run manager is told, and when

    The coordinator releases its mutex before it tells the run manager of a call:
    [publish_run_summaries] and [abort_binding] of [coordinator.rs] run after [drop(state)],
    while other threads may already be in the next call.  [bind_enqueue] runs under the mutex.

    With the port [Deferred] a call of the coordinator only notes what it is going to tell;
    each note reaches the manager in a step of its own, in any order.  All that is proved of
    the coordinator with an arbitrary port holds with this one. *)
From S2P Require Import Prelude WorkModel WorkState WorkCoordinator.

Inductive Notice :=
  | Aborted (binding : RunBinding)
  | Summarized (summary : RunWorkSummary).

(** [P] is the state of the port itself; the notes are in the order of the calls. *)
Record Deferred (P : Type) := mkDeferred {
  df_port : P;
  df_outbox : list Notice;
}.
Arguments mkDeferred {P} _ _.
Arguments df_port {P} _.
Arguments df_outbox {P} _.

Section deferred.
Context {P : Type} `{RunCausalityPort P}.

Definition note (n : Notice) (d : Deferred P) : Deferred P :=
  mkDeferred d.(df_port) (d.(df_outbox) ++ [n]).

#[global] Instance deferred_port : RunCausalityPort (Deferred P) := {
  bind_enqueue request new_id d :=
    let '(binding, p) := bind_enqueue request new_id d.(df_port) in
    (binding, mkDeferred p d.(df_outbox));
  abort_binding binding d := note (Aborted binding) d;
  apply_work_summary _ summary d := note (Summarized summary) d;
}.

(** The call of the port that a note stands for, at the time it is made *)
Definition deliver (now : Z) (n : Notice) (p : P) : P :=
  match n with
  | Aborted binding => abort_binding binding p
  | Summarized summary => apply_work_summary now summary p
  end.

Lemma foldl_note now (ss : list RunWorkSummary) (d : Deferred P) :
  foldl (λ p s, apply_work_summary now s p) d ss =
    mkDeferred d.(df_port) (d.(df_outbox) ++ (Summarized <$> ss)).
Proof.
  revert d. induction ss as [|s ss IH]; intros [p out]; cbn [foldl fmap list_fmap].
  - by rewrite app_nil_r.
  - rewrite IH. cbn. by rewrite <- app_assoc.
Qed.
End deferred.

(** The run a note is about *)
Definition notice_run (n : Notice) : option string :=
  match n with
  | Aborted binding => binding.(rb_team_run_id)
  | Summarized summary => Some summary.(rs_team_run_id)
  end.

(** The notes about a run that have not reached the manager *)
Definition pending (run : string) (out : list Notice) : list Notice :=
  filter (λ n, notice_run n = Some run) out.

(** A note between [before] and others is the next one about its run. *)
Definition in_turn (before : list Notice) (n : Notice) : Prop :=
  Forall (λ n', notice_run n' ≠ notice_run n) before.

#[global] Instance in_turn_dec before n : Decision (in_turn before n).
Proof. unfold in_turn. apply _. Defined.

Lemma pending_app run out1 out2 : pending run (out1 ++ out2) = pending run out1 ++ pending run out2.
Proof. apply filter_app. Qed.

Lemma pending_in_turn run before n after :
  in_turn before n → notice_run n = Some run →
  pending run (before ++ n :: after) = n :: pending run after ∧
  pending run (before ++ after) = pending run after.
Proof.
  intros Hturn Hn. rewrite !pending_app. unfold pending. rewrite filter_cons, decide_True by done.
  rewrite (list_filter_none _ before); [done|].
  intros n' Hin Hr. apply (proj1 (Forall_forall _ _) Hturn n' Hin). congruence.
Qed.

Lemma pending_other run before n after :
  notice_run n ≠ Some run → pending run (before ++ n :: after) = pending run (before ++ after).
Proof.
  intros Hn. rewrite !pending_app. unfold pending at 2. by rewrite filter_cons, decide_False.
Qed.

Lemma pending_summaries run (ss : list RunWorkSummary) :
  pending run (Summarized <$> ss) = Summarized <$> filter (λ s, s.(rs_team_run_id) = run) ss.
Proof.
  induction ss as [|s ss IH]; [done|]. unfold pending. cbn [fmap list_fmap]. rewrite !filter_cons.
  fold (pending run (Summarized <$> ss)). rewrite IH. cbn [notice_run].
  destruct (decide (rs_team_run_id s = run)) as [->|Hne].
  - by rewrite decide_True.
  - rewrite decide_False; [done|]. by intros [= ?].
Qed.
