(* ===== verification/WorkRuns.v ===== *)
(** * Runs: the coordinator and the run manager together

    The run manager learns of the work of a run only through the summaries that the
    coordinator publishes, each in a step of its own ([WorkPublish]).  This file shows that it
    learns enough: a run that the manager holds active has work in the coordinator, or the
    manager is still to be told that it has none, so that no run is left open when its work is
    over.  There are two exceptions, which the invariant names: a run of which a thread has
    overtaken another one on the way to the manager, and a run an intent of which
    [reconcile_mailbox] has cleared.
    It models the state changes of [TeamSession::cancel_run] ([session.rs]) and shows
    that it ends the run in both. *)
From Stdlib Require Import Ascii.
From S2P Require Import Prelude WorkModel WorkState WorkCoordinator TeamRun WorkPublish.
From S2P Require Import WorkInvariant WorkOps WorkSystem WorkDemo WorkControl.

(** ** Cancelling a run from the session *)

(** [TeamSession::cancel_run], up to the calls that pass the result on to the mailbox
    and to the agents.  [None] is a panic of the coordinator. *)
Definition session_cancel_run `{CallEnv} (team_run_id : string) (reason : option string)
    (c : Coordinator TeamRunManager) :
    option (result CancelRunWorkResult TeamError * Coordinator TeamRunManager) :=
  if bool_decide (current_active_run_id c.(co_run_causality) ≠ Some team_run_id)
  then Some (Err (InvalidRequest ("team run " +:+ team_run_id +:+ " is not active")), c)
  else match begin_cancel now_ms team_run_id reason c.(co_run_causality) with
  | (Err e, m) => Some (Err e, with_port m c)
  | (Ok _, m) =>
      '(r, c) ← cancel_run team_run_id (with_port m c);
      Some (Ok r, c)
  end.

(** ** The work of a run *)

Definition run_work st (run : string) : Prop :=
  (∃ k i, st.(cs_intents) !! k = Some i ∧ i.(wi_team_run_id) = Some run ∧
          is_terminal i.(wi_state) = false) ∨
  (∃ k r, st.(cs_enqueue_leases) !! k = Some r ∧ r.(er_lease).(el_team_run_id) = Some run).

Lemma no_work_has_work s : no_work s = negb (has_work s).
Proof.
  unfold no_work, has_work. rewrite !negb_orb. repeat f_equal;
    match goal with |- (?n =? 0) = _ => by destruct n end.
Qed.

Lemma filter_pos {A} (Q : A → Prop) `{∀ x, Decision (Q x)} (l : list A) :
  0 < length (filter Q l) → ∃ x, x ∈ l ∧ Q x.
Proof.
  destruct (filter Q l) as [|x l'] eqn:Hl; simpl; [lia|]. intros _. exists x.
  assert (x ∈ filter Q l) as [? ?]%list_elem_of_filter by (rewrite Hl; by left). done.
Qed.

Lemma hash_set_len_pos {A} (f : A → option string) (l : list A) :
  0 < hash_set_len (omap f l) → ∃ x y, x ∈ l ∧ f x = Some y.
Proof.
  unfold hash_set_len. destruct (omap f l) as [|y l'] eqn:Hl.
  { vm_compute. lia. }
  intros _. assert (y ∈ omap f l) as (x & ? & ?)%list_elem_of_omap by (rewrite Hl; by left). eauto.
Qed.

Lemma has_work_run_work `{HashOrder} st run :
  has_work (run_summary_locked st run) = true → run_work st run.
Proof.
  assert (∀ i, i ∈ run_intents st run → is_terminal i.(wi_state) = false → run_work st run) as Hi.
  { intros i [Hr [k Hk]%elem_of_hash_values]%list_elem_of_filter Hlive. left.
    exists k, i. split; [done|]. split; [by apply bool_decide_unpack in Hr|done]. }
  unfold has_work. rewrite !orb_true_iff, !Nat.ltb_lt. unfold run_summary_locked.
  cbn [rs_queued_intent_count rs_starting_batch_count rs_running_batch_count
    rs_active_enqueue_lease_count rs_paused_intent_count].
  intros [[[[Hw|Hw]|Hw]|Hw]|Hw].
  - apply filter_pos in Hw as (i & Hin & Hq). apply (Hi i Hin). by destruct (wi_state i).
  - apply hash_set_len_pos in Hw as (i & b & Hin & Hq). apply (Hi i Hin). by destruct (wi_state i).
  - apply hash_set_len_pos in Hw as (i & b & Hin & Hq). apply (Hi i Hin). by destruct (wi_state i).
  - apply filter_pos in Hw as (r & [k Hk]%elem_of_hash_values & Hq). right.
    exists k, r. by apply bool_decide_unpack in Hq.
  - apply filter_pos in Hw as (i & Hin & Hq). apply (Hi i Hin). by destruct (wi_state i).
Qed.

(** ** What the manager makes of the summaries *)

Implicit Types m : TeamRunManager.

Lemma active_run_set run m :
  active_run (set_tm_state (Some run) m) = if run_is_active run then Some run else None.
Proof. done. Qed.

Lemma apply_summary_active now s m run :
  active_run (manager_apply_work_summary now s m) = Some run →
  (run.(tr_team_run_id) = s.(rs_team_run_id) ∧ has_work s = true) ∨
  (run.(tr_team_run_id) ≠ s.(rs_team_run_id) ∧ active_run m = Some run).
Proof.
  unfold manager_apply_work_summary. destruct (tm_state m) as [run0|] eqn:Hm.
  2: { unfold active_run at 1. by rewrite Hm. }
  destruct (decide (tr_team_run_id run0 = rs_team_run_id s)) as [Hid|Hid].
  - intros Hact. left. unfold active_run, broadcast_team_run in Hact. cbn in Hact.
    destruct (run_is_active _) eqn:Hlive in Hact; [|done]. injection Hact as <-.
    revert Hlive. unfold progress. rewrite no_work_has_work.
    destruct (0 <? rs_failed_intent_count s); [done|].
    destruct (has_work s); simpl; [by destruct (0 <? rs_running_batch_count s)|].
    unfold run_is_active. simpl. by case_decide.
  - intros Hact. right. split; [|done]. unfold active_run in Hact. rewrite Hm in Hact. cbn in Hact.
    destruct (run_is_active run0); [|done]. by injection Hact as <-.
Qed.

(** ** What a call makes of the work of the runs *)

Section runs.
Context {P : Type} `{RunCausalityPort P} `{CallEnv}.
Implicit Types c : Coordinator P.

(** Of these runs nothing is said. *)
Context {lost : gset string}.

(** [c'] follows [c]: the port is told [ss], which describe the state of [c'], and the work
    of every other run is still there. *)
Record follows ss c c' : Prop := {
  fo_port : c'.(co_run_causality) =
    foldl (λ p s, apply_work_summary now_ms s p) c.(co_run_causality) ss;
  fo_true s : s ∈ ss → s = run_summary_locked c'.(co_state) s.(rs_team_run_id);
  fo_kept run : run ∉ lost → run_work c.(co_state) run →
    run_work c'.(co_state) run ∨ ∃ s, s ∈ ss ∧ s.(rs_team_run_id) = run;
}.

Lemma follows_clearing st c :
  (∀ run, run ∉ lost → run_work c.(co_state) run → run_work st run) → follows [] c (with_state st c).
Proof. intros Hw. split; [done|by intros ? ?%elem_of_nil|]. intros run Hl Hr. left. auto. Qed.

Lemma follows_silent st c :
  (∀ run, run_work c.(co_state) run → run_work st run) → follows [] c (with_state st c).
Proof. intros Hw. apply follows_clearing. auto. Qed.

Lemma follows_refl c : follows [] c c.
Proof. split; [done|by intros ? ?%elem_of_nil|auto]. Qed.

Lemma follows_publish st (runs : list string) c :
  (∀ run, run_work c.(co_state) run → run_work st run ∨ run ∈ runs) →
  follows (run_summaries_locked st runs) c
    (publish_run_summaries (run_summaries_locked st runs) (with_state st c)).
Proof.
  intros Hw. split; [done| |].
  - by intros s (r & -> & _)%list_elem_of_fmap.
  - intros run _ [?|Hr]%Hw; [by left|]. right. exists (run_summary_locked st run). split; [|done].
    apply list_elem_of_fmap_2. by apply elem_of_btree_set.
Qed.

(** The state changes of the intents, uniformly *)
Lemma run_work_assign f ids st st' (runs : list string) :
  stable f →
  st'.(cs_intents) = (assign_states f ids st).(cs_intents) →
  st'.(cs_enqueue_leases) = st.(cs_enqueue_leases) →
  (∀ k i run, k ∈ ids → st.(cs_intents) !! k = Some i → i.(wi_team_run_id) = Some run →
     is_terminal (f i) = false ∨ run ∈ runs) →
  ∀ run, run_work st run → run_work st' run ∨ run ∈ runs.
Proof.
  intros Hf Hi Hl Hids run [(k & i & Hk & Hr & Hlive)|Hlease].
  2: { left. right. by rewrite Hl. }
  destruct (decide (k ∈ ids)) as [Hin|Hin].
  - destruct (Hids k i run Hin Hk Hr) as [Ht|]; [|by right]. left. left.
    exists k, (set_wi_state (f i) i). rewrite Hi, lookup_assign_states, decide_True, Hk by done. done.
  - left. left. exists k, i. by rewrite Hi, lookup_assign_states, decide_False.
Qed.

Lemma run_work_same st st' :
  st'.(cs_intents) = st.(cs_intents) → st'.(cs_enqueue_leases) = st.(cs_enqueue_leases) →
  ∀ run, run_work st run → run_work st' run.
Proof. intros Hi Hl run. unfold run_work. by rewrite Hi, Hl. Qed.

(** The runs a loop over intents collects *)
Lemma elem_of_log {L} (upd : L → string → WorkIntent → L) (runs : L → list string) st ids k i run :
  (∀ log k i, run ∈ runs log → run ∈ runs (upd log k i)) →
  (∀ log, run ∈ runs (upd log k i)) →
  k ∈ ids → st.(cs_intents) !! k = Some i → ∀ log, run ∈ runs (log_of upd st log ids).
Proof.
  intros Hmono Hnew Hk Hi.
  assert (∀ ids log, run ∈ runs log → run ∈ runs (log_of upd st log ids)) as Hkeep.
  { clear Hk ids. unfold log_of. induction ids as [|k' ids IH]; intros log Hlog; [done|].
    cbn [foldl]. apply IH. destruct (_ !! k'); [by apply Hmono|done]. }
  induction ids as [|k' ids IH]; intros log; [by apply elem_of_nil in Hk|].
  unfold log_of. cbn [foldl]. fold (log_of upd st).
  apply elem_of_cons in Hk as [<-|Hk].
  - apply Hkeep. rewrite Hi. apply Hnew.
  - by apply IH.
Qed.

(** *** Call by call *)

Lemma commit_enqueue_follows lease mid c r c' :
  fresh_ids c.(co_state) → commit_enqueue lease mid c = Some (r, c') → ∃ ss, follows ss c c'.
Proof.
  intros Hfresh. pose proof (follows_refl c) as Hrefl. unfold commit_enqueue.
  destruct (cs_enqueue_leases _ !! _) as [record|] eqn:Hrec; [|intros [= <- <-]; eauto].
  destruct (bool_decide _ || _) eqn:Hstale; [intros [= <- <-]; eauto|].
  apply orb_false_iff in Hstale as [Heq _]. apply bool_decide_eq_false, dec_stable in Heq.
  destruct (requires_mailbox_message _ && _); [intros [= <- <-]; eauto|].
  destruct (cs_slots _ !! _) as [slot|] eqn:Hslot; [|intros [= <- <-]; eauto].
  destruct (validate_enqueue_constraint _ _); [|intros [= <- <-]; eauto].
  destruct (enqueue_disposition slot); [|done]. cbn [mbind option_bind].
  take_snapshot. intros [= _ <-]. eexists. apply follows_publish.
  intros run [(k & i & Hk & Hi)|(k & rec & Hk & Hr)].
  - left. left. exists k, i. split; [|done]. cbn. rewrite lookup_insert_ne; [done|].
    intros <-. by rewrite (fr_intents _ Hfresh) in Hk.
  - destruct (decide (k = el_lease_id lease)) as [->|Hne].
    + right. rewrite Hrec in Hk. injection Hk as <-. rewrite Heq in Hr. rewrite Hr. by left.
    + left. right. exists k, rec. split; [|done]. cbn. by rewrite lookup_delete_ne.
Qed.

Lemma reconcile_keeps g sid role st0 l acc acc' :
  Inj (=) (=) gen_id → recovering g st0 sid acc →
  for_each (reconcile_message g sid role) acc l = Some acc' →
  (∀ k i, acc.1.(cs_intents) !! k = Some i → acc'.1.(cs_intents) !! k = Some i) ∧
  acc'.1.(cs_enqueue_leases) = acc.1.(cs_enqueue_leases).
Proof.
  intros Hinj. revert acc. induction l as [|mid l IH]; intros acc Hacc; cbn [for_each].
  { by intros [= <-]. }
  destruct (reconcile_message_recovering g sid role st0 acc mid Hinj Hacc) as (acc1 & Heq & Hacc1).
  rewrite Heq. cbn [mbind option_bind]. intros [Hk Hl]%IH; [|done].
  pose proof (rc_fresh _ _ _ _ Hacc (length acc.2) ltac:(lia)) as Hfresh.
  destruct acc as [st created]. unfold reconcile_message in Heq.
  destruct (existsb _ _); [injection Heq as <-; done|].
  match type of Heq with context [?o ≫= _] => destruct o as [s|]; [|done] end.
  cbn [mbind option_bind] in Heq. injection Heq as <-. cbn in *. split; [|done].
  intros k i Hi. apply Hk. rewrite lookup_insert_ne; [done|]. congruence.
Qed.

Lemma cleared_state_fresh sid slot unread st k :
  st.(cs_intents) !! k = None → (cleared_state sid slot unread st).(cs_intents) !! k = None.
Proof.
  intros Hk. unfold cleared_state. cbn [put_slot set_cs_slots cs_intents].
  rewrite lookup_assign_states, Hk by done. by case_decide.
Qed.

Lemma reconcile_mailbox_follows sid unread role c r c' :
  coordinator_wf c → fresh_ids c.(co_state) →
  (∀ k i run, k ∈ r.(rp_cleared_stale_intent_ids) → c.(co_state).(cs_intents) !! k = Some i →
     i.(wi_team_run_id) = Some run → run ∈ lost) →
  reconcile_mailbox sid unread role c = Some (r, c') → follows [] c c'.
Proof.
  intros Hwf Hfresh Hclear. unfold reconcile_mailbox.
  set (slot := set_sl_known_unread _ _). set (st := put_slot _ _ _).
  assert (state_wf c.(co_session_generation) st) as Hst.
  { apply state_wf_put_slot; [apply slot_entry_same_fields|done]. }
  pose proof (reconcile_first_loop _ sid slot (list_to_set unread) st
    (lookup_put_slot_eq _ _ _) Hst) as Hloop.
  destruct (foldl _ _ _) as [[st' kept] cleared]. destruct Hloop as (-> & Hcl & _).
  destruct (cleared_state_wf _ sid slot (list_to_set unread) st
    (lookup_put_slot_eq _ _ _) Hst) as (Hwf' & Hev' & Hact').
  set (st1 := cleared_state _ _ _ _) in *.
  destruct (for_each _ _ _) as [[st2 created]|] eqn:Hfor; [|done].
  cbn [mbind option_bind]. intros [= <- <-]. cbn [rp_cleared_stale_intent_ids] in Hclear.
  apply (reconcile_keeps _ _ _ st1) in Hfor as [Hk Hl]; [|apply Hfresh|].
  2: { split; cbn [fst snd length]; [done| |done|intros ? ? ?; by left|].
       - subst st1. unfold cleared_state. rewrite lookup_put_slot_eq. eauto.
       - intros n _. apply cleared_state_fresh, (fr_intents _ Hfresh). }
  apply follows_clearing. intros run Hlost Hrun.
  destruct (run_work_assign (λ _, IntentCompleted) cleared st st1 (elements lost)) with (run := run)
    as [[(k & i & ? & ?)|(k & rec & ? & ?)]|Hin%elem_of_elements]; [done|by subst cleared| | |done| | |done].
  - subst st1. unfold cleared_state. cbn [put_slot set_cs_slots cs_enqueue_leases].
    by rewrite assign_states_leases.
  - intros k i run' Hin Hi Hr. right. apply elem_of_elements. by eapply Hclear.
  - left. exists k, i. split; [by apply Hk|done].
  - right. exists k, rec. cbn in Hl. by rewrite Hl.
Qed.

(** The batch names the runs of its intents. *)
Definition batch_runs st (b : WorkBatch) : Prop :=
  ∀ k, k ∈ b.(wb_intent_ids) → ∃ i, st.(cs_intents) !! k = Some i ∧
    ∀ run, i.(wi_team_run_id) = Some run → run ∈ b.(wb_team_run_ids).

Lemma batch_runs_evolves st st' b :
  evolves st.(cs_intents) st'.(cs_intents) → batch_runs st b → batch_runs st' b.
Proof.
  intros Hev Hb k Hk. destruct (Hb k Hk) as (i & Hi & Hr).
  destruct (Hev k i Hi) as (t & Ht & _). by exists (set_wi_state t i).
Qed.

Lemma claimed_batch_runs g sid p ids st :
  (∀ k, k ∈ ids → is_Some (st.(cs_intents) !! k)) → batch_runs st (claimed_batch g sid p ids st).
Proof.
  intros Hids k Hk. destruct (Hids k Hk) as [i Hi]. exists i. split; [done|]. intros run Hr.
  cbn [claimed_batch wb_team_run_ids].
  apply (elem_of_log claim_log snd st ids k i run); [| |done|done].
  - intros [ms rs] k' i' Hin. cbn in *. destruct (wi_team_run_id i'); [|done].
    case_bool_decide; set_solver.
  - intros [ms rs]. cbn. rewrite Hr. case_bool_decide; set_solver.
Qed.

Lemma next_follows sid d c c' :
  coordinator_wf c → next sid c = Some (d, c') →
  (∃ ss, follows ss c c') ∧ (∀ b, b ∈ claimed d → batch_runs c.(co_state) b).
Proof.
  intros Hwf Hnext. destruct (next_total sid c Hwf) as (d' & c1 & Heq & Hspec).
  rewrite Hnext in Heq. injection Heq as <- <-.
  destruct Hspec as [| | | | | |slot p c' ids batch st Hslot Hact _ _ Hp Hids ->];
    try (split; [eexists; apply follows_refl|by intros b ?%elem_of_nil]).
  assert (∀ k, k ∈ ids → is_Some (c.(co_state).(cs_intents) !! k)) as Hsome.
  { intros k [_ Hk]%list_elem_of_filter.
    destruct (wf_queued_lookup _ _ _ _ _ _ Hwf Hslot Hk) as (i & Hi & _). eauto. }
  split.
  - eexists. apply follows_publish.
    apply (run_work_assign (λ _, IntentStarting batch.(wb_batch_id) batch.(wb_operation_id)) ids
      (set_cs_next_operation_id batch.(wb_operation_id) c.(co_state)));
      [done|reflexivity| |by left].
    unfold st, claimed_state. cbn [put_slot set_cs_slots cs_enqueue_leases].
    by rewrite assign_states_leases.
  - intros b ->%list_elem_of_singleton. by apply claimed_batch_runs.
Qed.

Lemma mark_started_follows batch turn_id c :
  coordinator_wf c → known_batch c.(co_state).(cs_slots) batch →
  ∃ ss, follows ss c (mark_started batch turn_id c).2.
Proof.
  intros Hwf Hknown.
  destruct (is_current_batch_iff c.(co_session_generation) c.(co_state) batch) as [Hcur|Hcur].
  { unfold mark_started. rewrite Hcur. cbn [negb]. destruct (forallb _ _); eexists; apply follows_refl. }
  destruct (is_current_batch_spec _ _ _ Hknown Hcur) as (slot & a & Hslot & Ha & Hab).
  rewrite (mark_started_current _ _ slot) by done. eexists. apply follows_publish.
  eapply (run_work_assign (λ _, IntentRunning _ _ _)); [done|reflexivity| |by left].
  unfold started_state. cbn [put_slot set_cs_slots cs_enqueue_leases].
  by rewrite assign_states_leases.
Qed.

Lemma released_follows f batch slot c :
  stable f →
  (∀ k i, k ∈ batch.(wb_intent_ids) → c.(co_state).(cs_intents) !! k = Some i →
     is_terminal (f i) = false ∨
     ∀ run, i.(wi_team_run_id) = Some run → run ∈ batch.(wb_team_run_ids)) →
  let st := released_state f batch slot c.(co_state) in
  let ss := run_summaries_locked st batch.(wb_team_run_ids) in
  follows ss c (publish_run_summaries ss (with_state st c)).
Proof.
  intros Hf Hids st ss. apply follows_publish. eapply run_work_assign; [done|reflexivity| |].
  - unfold st, released_state. cbn [put_slot set_cs_slots cs_enqueue_leases].
    by rewrite assign_states_leases.
  - intros k i run Hk Hi Hr. destruct (Hids k i Hk Hi) as [?|Hrun]; auto.
Qed.

Lemma retry_start_follows batch r c c' :
  coordinator_wf c → known_batch c.(co_state).(cs_slots) batch →
  retry_start batch c = Some (r, c') → ∃ ss, follows ss c c'.
Proof.
  intros Hwf Hknown.
  destruct (is_current_batch_iff c.(co_session_generation) c.(co_state) batch) as [Hcur|Hcur].
  { unfold retry_start. rewrite Hcur. intros [= <- <-]. eexists. apply follows_refl. }
  destruct (is_current_batch_spec _ _ _ Hknown Hcur) as (slot & a & Hslot & Ha & Hab).
  rewrite (retry_start_current _ slot a) by done. intros [= _ <-]. eexists.
  apply released_follows; [done|]. by left.
Qed.

Lemma terminalize_batch_follows batch t r c c' :
  is_terminal t = true → coordinator_wf c → known_batch c.(co_state).(cs_slots) batch →
  batch_runs c.(co_state) batch →
  terminalize_batch batch t c = Some (r, c') → ∃ ss, follows ss c c'.
Proof.
  intros Ht Hwf Hknown Hruns.
  destruct (is_current_batch_iff c.(co_session_generation) c.(co_state) batch) as [Hcur|Hcur].
  { unfold terminalize_batch. rewrite Hcur. intros [= <- <-]. eexists. apply follows_refl. }
  destruct (is_current_batch_spec _ _ _ Hknown Hcur) as (slot & a & Hslot & Ha & Hab).
  rewrite (terminalize_batch_current _ _ slot a) by done. intros [= _ <-]. eexists.
  apply released_follows; [done|]. intros k i Hk Hi. right. destruct (Hruns k Hk) as (i' & Hi' & Hr).
  by simplify_eq.
Qed.

Lemma cancel_run_port run r c c' :
  cancel_run run c = Some (r, c') →
  c'.(co_run_causality) = apply_work_summary now_ms r.(cw_summary) c.(co_run_causality).
Proof.
  unfold cancel_run. destruct (for_each (cancel_run_slot _) _ _) as [[st [targets msgs]]|]; [|done].
  cbn [mbind option_bind]. destruct (for_each cancel_queued_intent _ _) as [[st' msgs']|]; [|done].
  cbn [mbind option_bind]. by intros [= <- <-].
Qed.

Lemma cancel_run_follows run r c c' :
  coordinator_wf c → cancel_run run c = Some (r, c') → follows [r.(cw_summary)] c c'.
Proof.
  intros Hwf Heq. destruct (cancel_run_total run c Hwf) as (r' & c1 & Heq' & _ & [Hc Ht Hl Hs]).
  rewrite Heq in Heq'. injection Heq' as <- <-. split.
  - by apply cancel_run_port in Heq.
  - intros s ->%list_elem_of_singleton. by rewrite Hs.
  - intros run' _ Hw. destruct (decide (run' = run)) as [->|Hne].
    { right. exists (cw_summary r). split; [by left|by rewrite Hs]. }
    left. destruct Hw as [(k & i & Hi & Hr & Hlive)|(k & rec & Hk & Hr)].
    + destruct (cc_old _ _ _ Hc k i Hi) as (t & Hk & Ht'). left. exists k, (set_wi_state t i).
      split; [done|]. split; [done|]. destruct Ht' as [-> |[_ ->]]; [done|].
      unfold run_cancelled, in_run. rewrite bool_decide_false by (cbn; congruence). done.
    + right. exists k, rec. rewrite Hl, Hk. unfold in_run.
      by rewrite bool_decide_false by congruence.
Qed.

Lemma complete_signals_follows sid ids c : ∃ ss, follows ss c (complete_signals sid ids c).2.
Proof.
  unfold complete_signals. destruct (forallb _ _); [|eexists; apply follows_refl]. cbn [negb snd].
  rewrite foldl_complete_signals. eexists. apply follows_publish.
  eapply (run_work_assign (λ _, IntentCompleted) ids); [done|reflexivity| |].
  - cbn [alter_slot set_cs_slots cs_enqueue_leases]. by rewrite assign_states_leases.
  - intros k i run Hk Hi Hr. right. apply list_elem_of_omap. exists k. by rewrite Hi.
Qed.

Lemma pause_slot_follows sid r c c' : pause_slot sid c = Some (r, c') → ∃ ss, follows ss c c'.
Proof.
  unfold pause_slot. destruct (slot_snapshot_locked _ _); [|done]. cbn [mbind option_bind].
  intros [= _ <-]. eexists. apply follows_silent. by apply run_work_same.
Qed.

Lemma set_runtime_constraint_follows sid constraint r c c' :
  coordinator_wf c → set_runtime_constraint sid constraint c = Some (r, c') →
  ∃ ss, follows ss c c'.
Proof.
  intros Hwf. unfold set_runtime_constraint. set (slot := set_sl_runtime_constraint _ _).
  set (st := put_slot sid slot _).
  destruct (constraint_terminal_state constraint) as [terminal|] eqn:Hterm.
  2: { cbn [mbind option_bind]. destruct (slot_snapshot_locked _ _); [|done]. cbn [mbind option_bind].
       intros [= _ <-]. eexists. apply follows_publish. left. by eapply run_work_same. }
  rewrite for_each_constrain_intent.
  2: { intros k (i & Hi & _)%elem_of_live_intents_of; [eauto|apply Hwf]. }
  cbn [mbind option_bind]. destruct (log_of _ _ _ _) as [[requeue messages] runs] eqn:Hlog.
  destruct (cs_slots _ !! sid) as [slot'|]; [|done]. cbn [mbind option_bind].
  destruct (slot_snapshot_locked _ _); [|done]. cbn [mbind option_bind].
  intros [= _ <-]. eexists. apply follows_publish.
  eapply (run_work_assign (constrained constraint terminal) (live_intents_of st sid) st);
    [done|reflexivity| |].
  - cbn [put_slot set_cs_slots cs_enqueue_leases]. by rewrite assign_states_leases.
  - intros k i run Hk Hi Hr. right. change runs with (requeue, messages, runs).2. rewrite <- Hlog.
    apply (elem_of_log (constrain_log constraint) snd st (live_intents_of st sid) k i run);
      [| |done|done].
    + intros [[q ms] rs] k' i' Hin. unfold constrain_log. destruct (_ && _); cbn in *; set_solver.
    + intros [[q ms] rs]. unfold constrain_log. rewrite Hr. cbn. set_solver.
Qed.

Lemma remove_slot_follows sid r c c' :
  coordinator_wf c → remove_slot sid c = Some (r, c') → ∃ ss, follows ss c c'.
Proof.
  intros Hwf. unfold remove_slot.
  rewrite (for_each_assign _ (λ _, IntentCancelled "slot_removed") slot_removed_log).
  - cbn [mbind option_bind]. destruct (log_of _ _ _ _) as [messages runs] eqn:Hlog.
    cbn [mbind option_bind]. intros [= _ <-]. eexists. apply follows_publish.
    eapply (run_work_assign (λ _, IntentCancelled _) (removal_order c.(co_state) sid));
      [done|reflexivity| |].
    + cbn [alter_slot set_cs_slots cs_enqueue_leases]. by rewrite assign_states_leases.
    + intros k i run Hk Hi Hr. right. change runs with (messages, runs).2. rewrite <- Hlog.
      apply (elem_of_log slot_removed_log snd c.(co_state) (removal_order c.(co_state) sid) k i run);
        [| |done|done].
      * intros [ms rs] k' i' Hin. cbn in *. set_solver.
      * intros [ms rs]. cbn. rewrite Hr. set_solver.
  - intros st [messages runs] id. unfold slot_removed_intent. by destruct (cs_intents st !! id).
  - done.
  - intros k (i & Hi & _)%(elem_of_removal_order _ _ _ _ Hwf). eauto.
Qed.

Lemma stop_follows c : ∃ ss, follows ss c (stop c).2.
Proof.
  unfold stop. set (st := mkCoordinatorState _ _ _ _). eexists. split; [reflexivity| |].
  - by intros s (run & -> & _)%list_elem_of_fmap.
  - intros run _ Hw. right. exists (run_summary_locked st run). split; [|done].
    apply list_elem_of_fmap_2. unfold all_run_ids. rewrite elem_of_btree_set, elem_of_app.
    destruct Hw as [(k & i & Hi & Hr & _)|(k & rec & Hk & Hr)]; [left|right];
      apply list_elem_of_omap; eexists; (split; [apply elem_of_hash_values; eauto|done]).
Qed.
End runs.

(** ** What the manager has been told, and what it is going to be told *)

Section told.
Context `{CallEnv}.
Implicit Types c : Coordinator (Deferred TeamRunManager).
Context {lost : gset string}.

Definition co_manager c : TeamRunManager := c.(co_run_causality).(df_port).
Definition co_outbox c : list Notice := c.(co_run_causality).(df_outbox).

(** What is right about a run: the last note about it, or else what the manager holds *)
Definition run_told c (run : string) : Prop :=
  match last (pending run (co_outbox c)) with
  | Some (Summarized s) => has_work s = true → run_work c.(co_state) run
  | Some (Aborted _) => True
  | None => current_active_run_id (co_manager c) = Some run → run_work c.(co_state) run
  end.

Definition told c : Prop := ∀ run, run ∉ lost → run_told c run.

Lemma follows_told ss c c' : follows (lost := lost) ss c c' → told c → told c'.
Proof.
  intros [Hport Htrue Hkept] Htold run Hl. specialize (Htold run Hl). specialize (Hkept run Hl).
  revert Htold.
  unfold run_told, co_outbox, co_manager. rewrite Hport, foldl_note. cbn [df_port df_outbox].
  rewrite pending_app, pending_summaries, last_app, fmap_last.
  destruct (last (filter _ ss)) as [s|] eqn:Hlast; cbn [fmap option_fmap option_map].
  - intros _ Hw. apply last_Some_elem_of, list_elem_of_filter in Hlast as [<- Hs].
    rewrite (Htrue s Hs) in Hw. by apply has_work_run_work in Hw.
  - assert (run_work c.(co_state) run → run_work c'.(co_state) run) as Hkeep.
    { intros [|(s & Hs & Hid)]%Hkept; [done|]. apply last_None in Hlast.
      destruct (not_elem_of_nil s). rewrite <- Hlast. by apply list_elem_of_filter. }
    destruct (last (pending run _)) as [[b|s]|]; auto.
Qed.

(** The outbox stays as it is, no work is lost, and what the manager holds active has work. *)
Lemma told_keep c c' :
  co_outbox c' = co_outbox c →
  (∀ run, run_work c.(co_state) run → run_work c'.(co_state) run) →
  (∀ run, current_active_run_id (co_manager c') = Some run →
     current_active_run_id (co_manager c) = Some run ∨ run_work c'.(co_state) run) →
  told c → told c'.
Proof.
  intros Hout Hkeep Hact Htold run Hl. specialize (Htold run Hl). revert Htold.
  unfold run_told. rewrite Hout. destruct (last _) as [[b|s]|]; auto.
  intros Hrun [Ha|?]%Hact; auto.
Qed.

Lemma told_aborted b c :
  told c → told (with_port (note (Aborted b) c.(co_run_causality)) c).
Proof.
  intros Htold run Hl. specialize (Htold run Hl). revert Htold. unfold run_told, co_outbox, co_manager.
  cbn [co_run_causality with_port note df_port df_outbox co_state].
  rewrite pending_app, last_app. unfold pending at 2. rewrite filter_cons.
  by destruct (decide _).
Qed.

Lemma acquire_enqueue_told request c :
  fresh_ids c.(co_state) → told c → told (acquire_enqueue request c).2.
Proof.
  intros Hfresh Htold. unfold acquire_enqueue. set (st := put_slot _ _ _).
  destruct (validate_enqueue_constraint _ _).
  2: { eapply follows_told; [|exact Htold]. apply follows_silent. by apply run_work_same. }
  assert (∀ lease binding run, run_work c.(co_state) run →
    run_work (set_cs_leases (<[gen_id 1 := mkEnqueueLeaseRecord lease binding]>
                               st.(cs_enqueue_leases)) st) run) as Hkeep.
  { intros lease binding run [?|(k & r & Hk & Hr)]; [by left|]. right. exists k, r. split; [|done].
    cbn. rewrite lookup_insert_ne; [done|]. intros <-. by rewrite (fr_leases _ Hfresh) in Hk. }
  destruct (rq_binding request) eqn:Hb; cbn [bind_enqueue deferred_port manager_port];
    unfold manager_bind_enqueue; rewrite ?Hb;
    try (apply (told_keep c); [done|apply Hkeep|by left|done]).
  unfold bind_user_enqueue. fold (co_manager c).
  destruct (active_run (co_manager c)) as [run|] eqn:Hrun;
    (apply (told_keep c); [done|apply Hkeep| |done]); intros run' Ha; revert Ha; cbn.
  - intros Ha. left. unfold current_active_run_id. rewrite Hrun. revert Ha.
    by destruct (run_is_active (set_tr_intervention true run)).
  - intros [= <-]. right. right. eexists (gen_id 1), _. cbn. by rewrite lookup_insert_eq.
Qed.

Lemma abort_enqueue_told lease c :
  coordinator_wf c → told c → told (abort_enqueue lease c).2.
Proof.
  intros Hwf Htold. unfold abort_enqueue.
  destruct (cs_enqueue_leases _ !! _) as [record|] eqn:Hrec; [|done].
  destruct (_ || _) eqn:Hstale.
  { apply (told_keep c); [done| |by left|done]. apply run_work_same; [done|]. cbn.
    by rewrite (wf_lease _ _ Hwf _ _ Hrec), insert_delete_eq, insert_id. }
  apply orb_false_iff in Hstale as [Heq _]. apply bool_decide_eq_false, dec_stable in Heq.
  set (st := set_cs_leases _ _).
  assert (∀ run, run_work c.(co_state) run → run_work st run ∨ run ∈ option_list (el_team_run_id lease))
    as Hkeep.
  { intros run [?|(k & rec & Hk & Hr)]; [by left; left|].
    destruct (decide (k = el_lease_id lease)) as [->|Hne].
    - right. rewrite Hrec in Hk. injection Hk as <-. rewrite Heq in Hr. rewrite Hr. by left.
    - left. right. exists k, rec. split; [|done]. cbn. by rewrite lookup_delete_ne. }
  match goal with |- context [if ?b then with_port _ _ else _] => destruct b end.
  2: { eapply follows_told; [by apply follows_publish|done]. }
  set (d := abort_binding _ _).
  eapply (follows_told _ (with_port d c)); [by apply (follows_publish st _ (with_port d c))|].
  exact (told_aborted (er_binding record) c Htold).
Qed.

(** A note reaches the manager, the next one about its run unless this run is lost. *)
Lemma deliver_told now before n after c :
  co_outbox c = before ++ n :: after →
  (∀ run, run ∉ lost → notice_run n = Some run → in_turn before n) → told c →
  told (with_port (mkDeferred (deliver now n (co_manager c)) (before ++ after)) c).
Proof.
  intros Hout Hturn Htold run Hlost. specialize (Htold run Hlost). specialize (Hturn run Hlost). revert Htold.
  unfold run_told. rewrite Hout. change (co_outbox (with_port _ c)) with (before ++ after).
  change (co_manager (with_port _ c)) with (deliver now n (co_manager c)). cbn [co_state with_port].
  assert (notice_run n ≠ Some run →
    current_active_run_id (deliver now n (co_manager c)) = Some run →
    current_active_run_id (co_manager c) = Some run) as Hother.
  { intros Hn. unfold current_active_run_id. destruct n as [b|s]; cbn [deliver abort_binding apply_work_summary manager_port].
    - unfold manager_abort_binding. destruct (tm_state _) as [run0|] eqn:Hm; [|done]. by case_decide.
    - destruct (active_run (manager_apply_work_summary _ _ _)) as [r|] eqn:Hact; [|done].
      intros [= <-]. apply apply_summary_active in Hact as [[Hid _]|[_ ->]]; [|done].
      destruct Hn. cbn. by rewrite Hid. }
  destruct (decide (notice_run n = Some run)) as [Hn|Hn].
  2: { rewrite (pending_other _ _ _ _ Hn). destruct (last _) as [[b|s]|]; auto. }
  destruct (pending_in_turn _ _ _ after (Hturn Hn) Hn) as [-> ->].
  destruct (pending run after) as [|n' l] eqn:Hp.
  2: { change (last (n :: n' :: l)) with (last (n' :: l)).
       destruct (last (n' :: l)) eqn:Hl; [done|]. by apply last_None in Hl. }
  cbn [last]. intros Htold. unfold current_active_run_id.
  destruct (active_run _) as [r|] eqn:Hact; [|done]. intros [= <-].
  destruct n as [b|s]; cbn [deliver abort_binding apply_work_summary manager_port] in Hact.
  - unfold manager_abort_binding in Hact. destruct (tm_state (co_manager c)) as [run0|] eqn:Hm.
    + case_decide as Hd; [done|]. unfold active_run in Hact. rewrite Hm in Hact. cbn in Hact.
      destruct (run_is_active run0); [|done]. injection Hact as <-. destruct Hd. by cbn in Hn.
    + unfold active_run in Hact. by rewrite Hm in Hact.
  - apply apply_summary_active in Hact as [[_ Hw]|[Hne _]]; [auto|]. destruct Hne. by injection Hn as ->.
Qed.
End told.

(** ** The system with its run manager *)

Notation run_system := (System (Deferred TeamRunManager)).
Implicit Types s : run_system.

Definition run_manager s : TeamRunManager := co_manager s.(sy_coordinator).
Definition run_outbox s : list Notice := co_outbox s.(sy_coordinator).

(** The runs of which a call clears an intent *)
Definition cleared_runs (r : CallResult) st : gset string :=
  match r with
  | RetProjection p =>
      list_to_set (omap (λ k, i ← st.(cs_intents) !! k; i.(wi_team_run_id))
                     p.(rp_cleared_stale_intent_ids))
  | _ => ∅
  end.

(** The run that a note is about, if the note overtakes an earlier one about it *)
Definition overtaken_run (before : list Notice) (n : Notice) : gset string :=
  if decide (in_turn before n) then ∅ else list_to_set (option_list (notice_run n)).

Definition with_manager m s : run_system :=
  mkSystem (with_port (mkDeferred m (run_outbox s)) s.(sy_coordinator)) s.(sy_issued).

(** The calls of the coordinator; what they tell the manager, each note by itself and in any
    order; and the calls of the manager that others make.  [lost] collects the runs of which a
    note overtakes another one, and those of which [reconcile_mailbox] clears an intent. *)
Inductive run_step : gset string → run_system → gset string → run_system → Prop :=
  | run_call (env : CallEnv) call lost s r c' :
      call_ok env call s →
      exec call s.(sy_coordinator) = Some (r, c') →
      run_step lost s (lost ∪ cleared_runs r (sy_state s))
        (mkSystem c' (handed_out r ++ s.(sy_issued)))
  | run_deliver now before n after lost s :
      run_outbox s = before ++ n :: after →
      run_step lost s (lost ∪ overtaken_run before n) (mkSystem
        (with_port (mkDeferred (deliver now n (run_manager s)) (before ++ after)) s.(sy_coordinator))
        s.(sy_issued))
  | run_begin_cancel now team_run_id reason lost s :
      run_step lost s lost (with_manager (begin_cancel now team_run_id reason (run_manager s)).2 s)
  | run_publish now snapshot lost s :
      run_step lost s lost (with_manager (publish_snapshot_update now snapshot (run_manager s)) s).

Definition run_initial (generation team_id : string) : run_system :=
  initial generation (mkDeferred (new_manager team_id) []).

Inductive run_reachable : gset string → run_system → Prop :=
  | reached_initially generation team_id : run_reachable ∅ (run_initial generation team_id)
  | reached_by_step lost s lost' s' :
      run_reachable lost s → run_step lost s lost' s' → run_reachable lost' s'.

Lemma run_step_step lost s lost' s' : run_step lost s lost' s' → step s s'.
Proof. destruct 1; [by eapply step_call|apply step_port..]. Qed.

Record run_system_wf (lost : gset string) s : Prop := {
  rw_wf : system_wf s;
  rw_batches b : b ∈ s.(sy_issued) → batch_runs (sy_state s) b;
  rw_told : told (lost := lost) s.(sy_coordinator);
}.

Lemma call_follows (env : CallEnv) call lost s r c' :
  run_system_wf lost s → call_ok env call s → exec call s.(sy_coordinator) = Some (r, c') →
  cleared_runs r (sy_state s) ⊆ lost →
  told (lost := lost) c' ∧ ∀ b, b ∈ handed_out r → batch_runs (sy_state s) b.
Proof.
  intros [Hwf Hbatches Hlive] [Hfresh _ Hbatch] Hexec Hclear. unfold sy_state in *.
  pose proof (sys_wf _ Hwf) as Hc.
  assert (∀ b, call_batch call = Some b →
    known_batch (co_state (sy_coordinator s)).(cs_slots) b ∧
    batch_runs (co_state (sy_coordinator s)) b) as Hb
    by (intros b Hcall; split; [apply system_known|]; auto).
  assert (∀ A (inj : A → CallResult) (o : option (A * Coordinator (Deferred TeamRunManager))),
    ('(a, c) ← o; Some (inj a, c)) = Some (r, c') → ∃ a, o = Some (a, c') ∧ r = inj a) as Hret.
  { intros A inj [[a c1]|]; [|done]. intros [= <- <-]. by exists a. }
  assert ((∃ ss, follows (lost := lost) ss s.(sy_coordinator) c') → told (lost := lost) c') as Hfol
    by (intros [ss Hf]; by eapply follows_told).
  assert (∀ A (o : A * Coordinator (Deferred TeamRunManager)) a, Some o = Some (a, c') → c' = o.2)
    as Hpure by (by intros A o a [= ->]).
  destruct call; cbn [exec call_batch] in *; apply Hret in Hexec as (a & Ho & ->);
    cbn [handed_out]; (split; [|try by intros b ?%elem_of_nil]).
  - apply Hpure in Ho as ->. by apply acquire_enqueue_told.
  - apply Hfol. by eapply commit_enqueue_follows.
  - apply Hpure in Ho as ->. by apply abort_enqueue_told.
  - apply Hfol. eexists. eapply reconcile_mailbox_follows; [done|done| |exact Ho].
    intros k i run Hk Hi Hr. apply Hclear. cbn [cleared_runs].
    apply elem_of_list_to_set, list_elem_of_omap. exists k. by rewrite Hi.
  - apply Hfol. by eapply next_follows.
  - by eapply (next_follows (lost := lost)).
  - apply Hfol. apply Hpure in Ho as ->.
    by apply mark_started_follows, Hb.
  - apply Hfol. eapply retry_start_follows; [done|by apply Hb|done].
  - apply Hfol. eapply terminalize_batch_follows; [|done|by apply Hb|by apply Hb|exact Ho]. done.
  - apply Hfol. eapply terminalize_batch_follows; [|done|by apply Hb|by apply Hb|exact Ho]. done.
  - apply Hfol. eapply terminalize_batch_follows; [|done|by apply Hb|by apply Hb|exact Ho]. done.
  - apply Hfol. eexists. by eapply cancel_run_follows.
  - apply Hfol. apply Hpure in Ho as ->.
    apply complete_signals_follows.
  - apply Hfol. by eapply pause_slot_follows.
  - apply Hfol. by eapply set_runtime_constraint_follows.
  - apply Hfol. by eapply remove_slot_follows.
  - apply Hfol. apply Hpure in Ho as ->. apply stop_follows.
Qed.

Lemma run_system_wf_more lost lost' s : lost ⊆ lost' → run_system_wf lost s → run_system_wf lost' s.
Proof. intros Hl []. split; [done|done|]. intros run Hr. apply rw_told0. auto. Qed.

Lemma run_step_wf lost s lost' s' :
  run_step lost s lost' s' → run_system_wf lost s → run_system_wf lost' s'.
Proof.
  intros Hstep Hwf. pose proof (run_step_step _ _ _ _ Hstep) as Hstep'.
  assert (system_wf s') as Hwf' by (eapply step_system_wf; [done|apply Hwf]).
  pose proof (step_evolves s s' (rw_wf _ _ Hwf) Hstep') as Hev.
  destruct Hstep as [env call lost s r c' Hok Hexec|now before n after lost s Hout
    |now run reason lost s|now snap lost s].
  - apply (run_system_wf_more _ (lost ∪ cleared_runs r (sy_state s))) in Hwf; [|set_solver].
    destruct (call_follows env call _ s r c' Hwf Hok Hexec) as [Hlive Hnew]; [set_solver|].
    split; [done| |done]. cbn [sy_issued]. intros b Hb. eapply batch_runs_evolves; [exact Hev|].
    apply elem_of_app in Hb as [?|?]; [by apply Hnew|by apply Hwf].
  - apply (run_system_wf_more _ (lost ∪ overtaken_run before n)) in Hwf; [|set_solver].
    split; [done|apply Hwf|]. apply deliver_told; [done| |apply Hwf].
    intros run [_ Hrun]%not_elem_of_union Hn. unfold overtaken_run in Hrun.
    destruct (decide (in_turn before n)); [done|]. rewrite Hn in Hrun. cbn in Hrun. set_solver.
  - split; [done|apply Hwf|]. apply (told_keep s.(sy_coordinator)); [done|done| |by apply Hwf].
    intros r' Ha. left. revert Ha. cbn. fold (run_manager s). unfold current_active_run_id, begin_cancel.
    destruct (active_run (run_manager s)) as [run0|] eqn:Hrun; cbn; [|by rewrite Hrun].
    case_decide; cbn; [|by rewrite Hrun]. by destruct (tr_summary run0).
  - split; [done|apply Hwf|]. apply (told_keep s.(sy_coordinator)); [done|done| |by apply Hwf].
    intros r' Ha. left. revert Ha. cbn. fold (run_manager s).
    unfold publish_snapshot_update. destruct (current_payload _ _ _) as [p|]; [|done].
    by destruct (rn_status p).
Qed.

Lemma run_reachable_wf lost s : run_reachable lost s → run_system_wf lost s.
Proof.
  induction 1 as [g t|lost s lost' s' _ IH Hstep]; [|by eapply run_step_wf].
  split; [apply initial_wf|by intros b ?%elem_of_nil|done].
Qed.

(** C5: No run is left open without work, although a call tells the run manager of its runs only
    after it has released the mutex, when others may have overtaken it.  In every state that
    calls, deliveries in any order, cancellations and publications reach: a run that the
    manager holds active has a live intent or an enqueue lease in the coordinator, or the
    manager is still to be told that it is over.  Nothing is said of the [lost] runs: those of
    which a summary has overtaken an earlier one on its way to the manager
    ([overtaken_summary_reopens_run]), and those of which [reconcile_mailbox] has cleared an
    intent ([self_message_strands_run]). *)
Theorem active_run_has_work lost s run :
  run_reachable lost s → active_run (run_manager s) = Some run → run.(tr_team_run_id) ∉ lost →
  run_work (sy_state s) run.(tr_team_run_id) ∨
  ∃ n, last (pending run.(tr_team_run_id) (run_outbox s)) = Some n ∧
    match n with Summarized summary => has_work summary = false | Aborted _ => True end.
Proof.
  intros Hs Hact Hl.
  pose proof (rw_told _ _ (run_reachable_wf _ s Hs) run.(tr_team_run_id) Hl) as Htold.
  revert Htold. unfold run_told. fold (run_outbox s).
  destruct (last _) as [[b|summary]|]; intros Htold.
  - right. by eexists.
  - destruct (has_work summary) eqn:Hw; [left; by apply Htold|right; by eexists].
  - left. apply Htold. unfold current_active_run_id. fold (run_manager s). by rewrite Hact.
Qed.

(** Cancelling a run fails no intent, and keeps the failed ones. *)
Lemma cancelled_failed `{HashOrder} run_id st st' :
  cancels run_id st st' →
  0 < length (filter (λ i, is_failed i.(wi_state)) (run_intents st' run_id)) ↔
  ∃ k i, st.(cs_intents) !! k = Some i ∧ i.(wi_team_run_id) = Some run_id ∧
         is_failed i.(wi_state) = true.
Proof.
  intros Hc. split.
  - intros (i & [Hr%bool_decide_unpack [k Hk]%elem_of_hash_values]%list_elem_of_filter & Hf)%filter_pos.
    destruct (st.(cs_intents) !! k) as [i0|] eqn:Hk0; [|by rewrite (cc_new _ _ _ Hc k Hk0) in Hk].
    destruct (cc_old _ _ _ Hc k i0 Hk0) as (t & Hk' & Ht). rewrite Hk in Hk'. injection Hk' as ->.
    cbn in Hr, Hf. exists k, i0. split; [done|]. split; [done|].
    destruct Ht as [<- |[_ ->]]; [by apply Is_true_true|].
    unfold run_cancelled in Hf. by destruct (in_run _ _).
  - intros (k & i & Hk & Hr & Hf). destruct (cc_old _ _ _ Hc k i Hk) as (t & Hk' & Ht).
    assert (t = wi_state i) as ->.
    { destruct Ht as [|[Hlive _]]; [done|]. by destruct (wi_state i). }
    assert (set_wi_state (wi_state i) i ∈ filter (λ i, is_failed i.(wi_state)) (run_intents st' run_id))
      as Hin.
    { apply list_elem_of_filter. split; [by apply Is_true_true|]. apply list_elem_of_filter.
      split; [by apply bool_decide_pack|]. apply elem_of_hash_values. eauto. }
    destruct (filter _ _); [by apply elem_of_nil in Hin|]. cbn. lia.
Qed.

(** [TeamSession::cancel_run] ends the active run in the coordinator and in the
    manager: no intent of the run is live and no lease is left, and the manager's run is
    no longer active: cancelled, or failed if an intent of the run had failed before.
    For any other run it is refused and nothing changes. *)
Theorem session_cancel_run_spec `{CallEnv} run_id reason (c : Coordinator TeamRunManager) :
  coordinator_wf c →
  (current_active_run_id c.(co_run_causality) ≠ Some run_id →
   session_cancel_run run_id reason c =
     Some (Err (InvalidRequest ("team run " +:+ run_id +:+ " is not active")), c)) ∧
  (current_active_run_id c.(co_run_causality) = Some run_id →
   ∃ r c', session_cancel_run run_id reason c = Some (Ok r, c') ∧
     ¬ run_work c'.(co_state) run_id ∧ current_active_run_id c'.(co_run_causality) = None ∧
     ∃ run, c'.(co_run_causality).(tm_state) = Some run ∧
       run.(tr_team_run_id) = run_id ∧ run.(tr_cancel_reason) = reason ∧
       (run.(tr_status) = RunCancelled ∨ run.(tr_status) = RunFailed) ∧
       (run.(tr_status) = RunFailed ↔
        ∃ k i, c.(co_state).(cs_intents) !! k = Some i ∧
               i.(wi_team_run_id) = Some run_id ∧ is_failed i.(wi_state) = true)).
Proof.
  intros Hwf. unfold session_cancel_run. split; [intros Hne; by rewrite bool_decide_true|].
  intros Hid. rewrite bool_decide_false by (by intros ?). revert Hid.
  unfold current_active_run_id, begin_cancel.
  destruct (active_run (co_run_causality c)) as [run0|] eqn:Hrun0; [|done]. cbn. intros [= Hid].
  rewrite decide_True by done. set (run1 := set_tr_cancel_reason _ _). set (m1 := match _ with Some _ => _ | None => _ end).
  assert (m1.(tm_state) = Some run1) as Hm1 by (unfold m1; by destruct (tr_summary run0)).
  clearbody m1. assert (coordinator_wf (with_port m1 c)) as Hwf1 by done.
  destruct (cancel_run_total run_id _ Hwf1) as (r & c' & Heq & _ & [Hc Ht Hl Hs]).
  rewrite Heq. cbn. exists r, c'. split; [done|].
  assert (∀ k rec, c'.(co_state).(cs_enqueue_leases) !! k = Some rec →
    rec.(er_lease).(el_team_run_id) ≠ Some run_id) as Hnolease.
  { intros k rec. rewrite Hl. destruct (_ !! k) as [rec'|]; [|done]. unfold in_run.
    case_bool_decide; naive_solver. }
  assert (¬ run_work c'.(co_state) run_id) as Hnw.
  { intros [(k & i & Hi & Hr & Hlive)|(k & rec & Hk & Hr)]; [|by eapply Hnolease].
    rewrite (Ht k i Hi Hr) in Hlive. done. }
  assert (has_work r.(cw_summary) = false) as Hhw by (rewrite Hs; by apply run_summary_no_work).
  assert (0 < r.(cw_summary).(rs_failed_intent_count) ↔
    ∃ k i, c.(co_state).(cs_intents) !! k = Some i ∧ i.(wi_team_run_id) = Some run_id ∧
           is_failed i.(wi_state) = true) as Hfailed.
  { rewrite Hs. cbn [run_summary_locked rs_failed_intent_count]. by apply cancelled_failed. }
  pose proof (cancel_run_port _ _ _ _ Heq) as Hport. cbn [co_run_causality with_port] in Hport.
  rewrite Hport. cbn [apply_work_summary manager_port].
  unfold manager_apply_work_summary. rewrite Hm1.
  rewrite decide_True by (by rewrite Hs).
  unfold active_run, broadcast_team_run. cbn [tm_state set_tm_state].
  unfold progress. rewrite no_work_has_work, Hhw. cbn [negb].
  destruct (Nat.ltb_spec 0 (rs_failed_intent_count (cw_summary r))) as [Hpos|Hzero].
  - split; [done|]. split; [done|]. eexists. split; [done|]. cbn. split_and!; [done|done|by right|].
    by rewrite <- Hfailed.
  - cbn. split; [done|]. split; [done|]. eexists. split; [done|]. cbn.
    split_and!; [done|done|by left|]. rewrite <- Hfailed. split; [done|lia].
Qed.

(** ** Concrete instances *)

(** A call with the tag of its identifiers, or a note that reaches the manager *)
Inductive RunEvent :=
  | Called (tag : Ascii.ascii) (call : Call)
  | Delivered (n : nat).

Definition run_event (l : gset string * run_system) (e : RunEvent) :
    option (gset string * run_system) :=
  let '(lost, s) := l in
  match e with
  | Called tag call =>
      if demo_ok tag call s then
        '(r, c) ← exec (H0 := demo_env tag 1000) call s.(sy_coordinator);
        Some (lost ∪ cleared_runs r (sy_state s), mkSystem c (handed_out r ++ s.(sy_issued)))
      else None
  | Delivered i =>
      n ← run_outbox s !! i;
      let before := take i (run_outbox s) in
      Some (lost ∪ overtaken_run before n,
            mkSystem (with_port (mkDeferred (deliver 1000 n (run_manager s))
              (before ++ drop (S i) (run_outbox s))) s.(sy_coordinator)) s.(sy_issued))
  end.

Lemma run_event_step lost s e lost' s' :
  run_event (lost, s) e = Some (lost', s') → run_step lost s lost' s'.
Proof.
  destruct e as [tag call|i]; cbn [run_event].
  - destruct (demo_ok _ _ _) eqn:Hok; [|done].
    destruct (exec _ _) as [[r c]|] eqn:Hexec; [|done]. cbn. intros [= <- <-].
    eapply run_call; [by apply (demo_call_ok tag 1000)|exact Hexec].
  - destruct (run_outbox s !! i) as [n|] eqn:Hn; [|done]. cbn. intros [= <- <-].
    apply (run_deliver 1000 _ n (drop (S i) (run_outbox s))). by rewrite <- drop_S, take_drop.
Qed.

Definition run_trace (l : list RunEvent) : option (gset string * run_system) :=
  for_each run_event (∅, run_initial "g" "team") l.

Lemma run_trace_reachable l lost s : run_trace l = Some (lost, s) → run_reachable lost s.
Proof.
  unfold run_trace.
  assert (∀ lost0 s0, run_reachable lost0 s0 → for_each run_event (lost0, s0) l = Some (lost, s) →
    run_reachable lost s) as Hl; [|apply Hl, reached_initially].
  induction l as [|e l IH]; intros lost0 s0 Hs; cbn [for_each]; [by intros [= <- <-]|].
  destruct (run_event (lost0, s0) e) as [[lost1 s1]|] eqn:Hc; [|done]. apply IH.
  eapply reached_by_step; [exact Hs|by eapply run_event_step].
Qed.

Definition run_state (l : list RunEvent) : gset string * run_system :=
  default (∅, run_initial "g" "team") (run_trace l).

Lemma run_state_reachable l :
  is_Some (run_trace l) → run_reachable (run_state l).1 (run_state l).2.
Proof.
  intros [[lost s] Hs]. unfold run_state. rewrite Hs. by apply (run_trace_reachable l).
Qed.

(** The message of the user is being worked on, and the manager knows of it. *)
Definition events_started : list RunEvent :=
  ((λ e, Called e.1 e.2) <$> trace_started) ++ [Delivered 0; Delivered 0; Delivered 0].

Definition run_started : run_system := (run_state events_started).2.

Lemma active_run_has_work_witness :
  current_active_run_id (run_manager run_started) = Some "b0" ∧ run_outbox run_started = [] ∧
  run_work (sy_state run_started) "b0".
Proof.
  split; [vm_compute; reflexivity|]. split; [vm_compute; reflexivity|].
  destruct (active_run (run_manager run_started)) as [run|] eqn:Hrun;
    [|vm_compute in Hrun; discriminate].
  pose proof (active_run_has_work ∅ run_started run) as Hwork.
  assert (tr_team_run_id run = "b0") as Hid by (vm_compute in Hrun; by injection Hrun as <-).
  rewrite Hid in Hwork. destruct Hwork as [Hwork|(n & Hn & _)].
  - assert ((run_state events_started).1 = ∅) as <- by (vm_compute; reflexivity).
    apply run_state_reachable. vm_compute. eauto.
  - exact Hrun.
  - apply not_elem_of_empty.
  - exact Hwork.
  - vm_compute in Hn. discriminate.
Defined.

(** Two agents work for one run, and one after the other is done.  The thread of the first
    call is late: the manager learns that the run is over, and then that one of the agents is
    still running.  Nothing is left to tell it, and the run stays active. *)
Definition helper_request : EnqueueRequest :=
  mkEnqueueRequest "help" Teammate UserMessage UserVisible.
Definition helper_lease : EnqueueLease :=
  mkEnqueueLease "i1" "g" "help" Teammate UserMessage (Some "b0").
Definition helper_batch : WorkBatch :=
  mkWorkBatch "k0" "g" "help" ["j0"] ["m3"] Foreground ["b0"] 2.

Definition events_overtaken : list RunEvent :=
  (events_started ++
   [Called "h" (CallConstrain "help"%string Ready); Called "i" (CallAcquire helper_request);
    Called "j" (CallCommit helper_lease (Some "m3"%string)); Delivered 0;
    Called "k" (CallNext "help"%string); Delivered 0;
    Called "l" (CallStarted helper_batch "t2"%string); Delivered 0;
    Called "m" (CallComplete user_batch); Called "n" (CallComplete helper_batch);
    Delivered 1; Delivered 0])%char.

Definition run_overtaken : run_system := (run_state events_overtaken).2.

Lemma overtaken_summary_reopens_run :
  run_reachable {["b0"]} run_overtaken ∧ run_outbox run_overtaken = [] ∧
  current_active_run_id (run_manager run_overtaken) = Some "b0" ∧
  has_work (run_summary_locked (H := plain_order) (sy_state run_overtaken) "b0") = false.
Proof.
  split.
  - assert ((run_state events_overtaken).1 = {["b0"]}) as <- by (vm_compute; reflexivity).
    apply run_state_reachable. vm_compute. eauto.
  - vm_compute. done.
Qed.

Lemma session_cancel_run_spec_witness :
  ∃ r c', session_cancel_run (H := demo_env "h" 1000) "b0" None (sy_coordinator demo_started)
            = Some (Ok r, c') ∧
          current_active_run_id c'.(co_run_causality) = None.
Proof.
  destruct (session_cancel_run_spec (H := demo_env "h" 1000) "b0" None (sy_coordinator demo_started))
    as [_ Hcancel].
  - apply demo_wf, demo_started_reachable.
  - destruct Hcancel as (r & c' & Heq & _ & Hnone & _); [vm_compute; reflexivity|].
    exists r, c'. split; [exact Heq|exact Hnone].
Defined.

(** An agent that sends a message to its own slot while its batch is running: the message
    belongs to the run, the session filters it out of the unread messages of the slot,
    and [reconcile_mailbox] completes its intent without telling the manager.  The run
    has no work left and stays active. *)
Definition self_request : EnqueueRequest :=
  mkEnqueueRequest "lead" Lead McpSendMessage (InheritRunningBatch "lead").
Definition self_lease : EnqueueLease := mkEnqueueLease "h1" "g" "lead" Lead McpSendMessage (Some "b0").

Definition trace_self_message : list (Ascii.ascii * Call) :=
  (trace_started ++
   [("h", CallAcquire self_request); ("i", CallCommit self_lease (Some "m3"%string));
    ("j", CallComplete user_batch); ("k", CallReconcile "lead"%string ["m2"%string] Lead)])%char.

Definition demo_self_message : demo_system := demo_state trace_self_message.

Lemma self_message_strands_run :
  reachable demo_self_message ∧
  current_active_run_id demo_self_message.(sy_coordinator).(co_run_causality) = Some "b0" ∧
  has_work (run_summary_locked (H := plain_order) (sy_state demo_self_message) "b0") = false.
Proof.
  split; [unfold demo_self_message; demo|]. vm_compute. done.
Qed.

(** A message of the user that is in the mailbox and whose intent is not committed yet: a
    reconciliation in between takes it for a message to recover, and the batch of the
    recovery reads it.  The intent of the message, committed meanwhile, is completed by the
    next reconciliation without telling the manager, and its run stays active. *)
Definition recovery_batch : WorkBatch :=
  mkWorkBatch "d0" "g" "lead" ["c0"] ["m1"] Background [] 1.

Definition trace_late_commit : list (Ascii.ascii * Call) :=
  [("a", CallConstrain "lead"%string Ready); ("b", CallAcquire user_request);
   ("c", CallReconcile "lead"%string ["m1"%string] Lead); ("d", CallNext "lead"%string);
   ("e", CallStarted recovery_batch "t1"%string); ("f", CallCommit user_lease (Some "m1"%string));
   ("g", CallComplete recovery_batch); ("h", CallReconcile "lead"%string [] Lead)]%char.

Definition demo_late_commit : demo_system := demo_state trace_late_commit.

Lemma late_commit_strands_run :
  reachable demo_late_commit ∧
  current_active_run_id demo_late_commit.(sy_coordinator).(co_run_causality) = Some "b0" ∧
  has_work (run_summary_locked (H := plain_order) (sy_state demo_late_commit) "b0") = false.
Proof.
  split; [unfold demo_late_commit; demo|]. vm_compute. done.
Qed.
