(* ===== verification/WorkLeases.v ===== *)
(** * What the coordinator does to its enqueue leases

    Only [acquire_enqueue] adds a lease; [commit_enqueue], when it succeeds, and
    [abort_enqueue] take theirs away; no other call adds or changes one. *)
From S2P Require Import Prelude WorkModel WorkState WorkCoordinator WorkInvariant WorkOps WorkSystem.

(** A loop that leaves a part of its state alone *)
Lemma for_each_same {S A X} (g : S → X) (f : S → A → option S) l s s' :
  (∀ x s0 s1, f s0 x = Some s1 → g s1 = g s0) → for_each f s l = Some s' → g s' = g s.
Proof.
  intros Hf Hl. apply (for_each_ind f (λ s1, g s1 = g s)) in Hl; [done| |done].
  intros x s0 s1 Hx Hs0. by rewrite (Hf _ _ _ Hx).
Qed.

Lemma foldl_same {S A X} (g : S → X) (f : S → A → S) l s :
  (∀ x s0, g (f s0 x) = g s0) → g (foldl f s l) = g s.
Proof. intros Hf. revert s. induction l as [|x l IH]; intros s; [done|]. cbn. by rewrite IH. Qed.

Section leases.
Context {P : Type} `{RunCausalityPort P}.
Implicit Types (c : Coordinator P) (st : CoordinatorState).

Definition leases c : gmap string EnqueueLeaseRecord := cs_enqueue_leases (co_state c).

Lemma set_intent_states_leases t ids st :
  cs_enqueue_leases (set_intent_states t ids st) = cs_enqueue_leases st.
Proof. unfold set_intent_states. by apply (foldl_same cs_enqueue_leases). Qed.

Lemma reconcile_leases `{CallEnv} sid unread role c r c' :
  reconcile_mailbox sid unread role c = Some (r, c') → leases c' = leases c.
Proof.
  unfold reconcile_mailbox.
  destruct (foldl _ _ _) as [[st retained] cleared] eqn:Hfold.
  destruct (for_each _ _ _) as [[st' created]|] eqn:Hloop; [|done]. intros [= _ <-].
  assert (cs_enqueue_leases st' = cs_enqueue_leases st) as Hst'.
  { refine (for_each_same (λ a, cs_enqueue_leases a.1) _ _ _ _ _ Hloop). intros m [st0 l0] s1.
    unfold reconcile_message. destruct (existsb _ _); [by intros [= <-]|].
    cbn [cs_slots set_cs_intents]. destruct (_ !! sid); [|done]. by intros [= <-]. }
  assert (cs_enqueue_leases st = leases c) as Hst.
  { pose proof (foldl_same (λ a : _ * _ * _, cs_enqueue_leases a.1.1)
      (reconcile_candidate (list_to_set unread))) as Hsame. specialize (Hsame (queued_ids
        (set_sl_known_unread (list_to_set unread) (set_sl_role role (slot_entry sid role (co_state c)))))).
    specialize (Hsame (put_slot sid (set_sl_known_unread (list_to_set unread)
       (set_sl_role role (slot_entry sid role (co_state c)))) (co_state c), [], [])).
    rewrite Hfold in Hsame. apply Hsame. intros k [[st0 l0] l1]. cbn.
    destruct (cs_intents st0 !! k) as [i|]; [|done]. destruct (wi_mailbox_message_id i); [|done].
    by case_bool_decide. }
  unfold leases at 1. cbn. by rewrite Hst'.
Qed.

Lemma claim_leases `{CallEnv} sid p ids c r c' :
  claim_batch sid p ids c = Some (r, c') → leases c' = leases c.
Proof.
  unfold claim_batch. destruct (for_each _ _ _) as [[st' [ms rs]]|] eqn:Hloop; [|done].
  cbn [mbind option_bind]. destruct (_ !! sid); [|done]. intros [= _ <-].
  refine (for_each_same (λ a, cs_enqueue_leases a.1) _ _ _ _ _ Hloop). intros k [st0 [l0 l1]] s1.
  unfold claim_intent. destruct (_ !! k); [|done]. by intros [= <-].
Qed.

Lemma next_leases `{CallEnv} sid c r c' : next sid c = Some (r, c') → leases c' = leases c.
Proof.
  unfold next. destruct (_ !! sid) as [slot|]; [|by intros [= _ <-]].
  repeat (case_bool_decide || case_match); try by intros [= _ <-]. apply claim_leases.
Qed.

Lemma mark_started_leases `{CallEnv} batch turn_id c :
  leases (mark_started batch turn_id c).2 = leases c.
Proof.
  unfold mark_started. destruct (negb _); [by destruct (forallb _ _)|].
  unfold leases. cbn. by rewrite set_intent_states_leases.
Qed.

Lemma retry_start_leases `{CallEnv} batch c r c' :
  retry_start batch c = Some (r, c') → leases c' = leases c.
Proof.
  unfold retry_start. destruct (negb _); [by intros [= _ <-]|]. destruct (_ !! _); [|done].
  intros [= _ <-]. unfold leases. cbn. by rewrite set_intent_states_leases.
Qed.

Lemma terminalize_leases `{CallEnv} batch t c r c' :
  terminalize_batch batch t c = Some (r, c') → leases c' = leases c.
Proof.
  unfold terminalize_batch. destruct (negb _); [by intros [= _ <-]|]. destruct (_ !! _); [|done].
  intros [= _ <-]. unfold leases. cbn. by rewrite set_intent_states_leases.
Qed.

Lemma constrain_leases `{CallEnv} sid constraint c r c' :
  set_runtime_constraint sid constraint c = Some (r, c') → leases c' = leases c.
Proof.
  unfold set_runtime_constraint. destruct (constraint_terminal_state constraint) as [terminal|].
  - destruct (for_each _ _ _) as [[st' [[q ms] rs]]|] eqn:Hloop; [|done]. cbn [mbind option_bind].
    destruct (_ !! sid); [|done]. cbn [mbind option_bind]. destruct (slot_snapshot_locked _ _); [|done].
    intros [= _ <-]. unfold leases. cbn.
    refine (for_each_same (λ a, cs_enqueue_leases a.1) _ _ _ _ _ Hloop). intros k [st0 [[l0 l1] l2]] s1.
    unfold constrain_intent. destruct (_ !! k); [|done]. cbn. destruct (_ && _); by intros [= <-].
  - cbn [mbind option_bind]. destruct (slot_snapshot_locked _ _); [|done]. by intros [= _ <-].
Qed.

Lemma remove_slot_leases `{CallEnv} sid c r c' :
  remove_slot sid c = Some (r, c') → leases c' = leases c.
Proof.
  unfold remove_slot. destruct (for_each _ _ _) as [[st' [ms rs]]|] eqn:Hloop; [|done].
  intros [= _ <-]. unfold leases. cbn.
  refine (for_each_same (λ a, cs_enqueue_leases a.1) _ _ _ _ _ Hloop). intros k [st0 [l0 l1]] s1.
  unfold slot_removed_intent. destruct (_ !! k); [|done]. by intros [= <-].
Qed.

Lemma complete_signals_leases `{CallEnv} sid ids c : leases (complete_signals sid ids c).2 = leases c.
Proof.
  unfold complete_signals. destruct (negb _); [done|]. unfold leases. cbn.
  by apply (foldl_same cs_enqueue_leases).
Qed.

Lemma pause_leases `{CallEnv} sid c r c' : pause_slot sid c = Some (r, c') → leases c' = leases c.
Proof. unfold pause_slot. destruct (slot_snapshot_locked _ _); [|done]. by intros [= _ <-]. Qed.

Lemma delete_all_subseteq {V} (ids : list string) (m : gmap string V) :
  foldl (λ m id, delete id m) m ids ⊆ m.
Proof.
  revert m. induction ids as [|id ids IH]; intros m; [done|]. cbn. etrans; [apply IH|].
  apply delete_subseteq.
Qed.

Lemma cancel_run_leases `{CallEnv} run c r c' : cancel_run run c = Some (r, c') → leases c' ⊆ leases c.
Proof.
  unfold cancel_run. destruct (for_each _ _ _) as [[st1 [ts ms]]|] eqn:Hslots; [|done].
  cbn [mbind option_bind]. destruct (for_each cancel_queued_intent _ _) as [[st2 ms']|] eqn:Hq; [|done].
  intros [= _ <-]. unfold leases at 1. cbn. etrans; [apply delete_all_subseteq|].
  apply (for_each_same (λ a, cs_enqueue_leases a.1)) in Hq; [apply (for_each_same (λ a, cs_enqueue_leases a.1)) in Hslots|].
  - cbn in *. unfold leases. by rewrite Hq, Hslots.
  - intros [sid a] [st0 [l0 l1]] s1. cbn.
    destruct (for_each (cancel_run_intent run) _ _) as [[st3 [ms3 rs3]]|] eqn:Hin; [|done].
    cbn. destruct (_ !! sid); [|done]. intros [= <-]. cbn.
    refine (for_each_same (λ a, cs_enqueue_leases a.1) _ _ _ _ _ Hin). intros k [st4 [l4 l5]] s4. cbn.
    destruct (_ !! k) as [i|]; [|done]. cbn. destruct (in_run _ _); by intros [= <-].
  - intros k [st0 l0] s1. cbn. destruct (_ !! k); [|done]. by intros [= <-].
Qed.

(** ** Every call *)

Lemma acquire_leases `{CallEnv} request c :
  match acquire_enqueue request c with
  | (Ok lease, c') => el_session_generation lease = co_session_generation c ∧
      ∃ rec, er_lease rec = lease ∧ leases c' = <[el_lease_id lease := rec]> (leases c)
  | (Err _, c') => leases c' = leases c
  end.
Proof.
  unfold acquire_enqueue. destruct (validate_enqueue_constraint _ _); [|done].
  destruct (match rq_binding request with UserVisible => _ | _ => _ end) as [binding port].
  split; [done|]. by exists (mkEnqueueLeaseRecord (mkEnqueueLease (gen_id 1) (co_session_generation c)
    (rq_slot_id request) (rq_role request) (rq_source request) (rb_team_run_id binding)) binding).
Qed.

Lemma commit_leases `{CallEnv} lease mid c r c' :
  commit_enqueue lease mid c = Some (r, c') →
  match r with
  | Ok _ => leases c' = delete (el_lease_id lease) (leases c)
  | Err _ => leases c' = leases c
  end.
Proof.
  unfold commit_enqueue. destruct (cs_enqueue_leases _ !! _); [|by intros [= <- <-]].
  destruct (_ || _); [by intros [= <- <-]|]. destruct (_ && _); [by intros [= <- <-]|].
  destruct (cs_slots _ !! _); [|by intros [= <- <-]].
  destruct (validate_enqueue_constraint _ _); [|by intros [= <- <-]].
  destruct (enqueue_disposition _); [|done]. cbn [mbind option_bind].
  destruct (slot_snapshot_locked _ _); [|done]. by intros [= <- <-].
Qed.

(** Leases are stored under their identifiers and are of the generation. *)
Definition leases_wf c : Prop :=
  ∀ id rec, leases c !! id = Some rec →
    el_lease_id (er_lease rec) = id ∧
    el_session_generation (er_lease rec) = co_session_generation c.

Lemma abort_leases `{CallEnv} lease c :
  leases_wf c →
  leases (abort_enqueue lease c).2 ⊆ leases c ∧
  ∀ id rec, leases (abort_enqueue lease c).2 !! id = Some rec → er_lease rec ≠ lease.
Proof.
  intros Hwf. unfold abort_enqueue. fold (leases c).
  destruct (leases c !! el_lease_id lease) as [rec|] eqn:Hrec.
  - destruct (Hwf _ _ Hrec) as [Hid Hgen].
    destruct (bool_decide (er_lease rec ≠ lease) || _) eqn:Hstale.
    + assert (er_lease rec ≠ lease) as Hne.
      { intros Heq. subst lease. rewrite bool_decide_eq_false_2 in Hstale by naive_solver.
        by rewrite bool_decide_eq_false_2 in Hstale by naive_solver. }
      unfold leases at 1 3. cbn [snd co_state with_state set_cs_leases cs_enqueue_leases]. fold (leases c).
      rewrite Hid, insert_delete_id by done. split; [done|]. intros id rec' Hrec' Heq.
      change (leases c !! id = Some rec') in Hrec'. destruct (Hwf _ _ Hrec') as [<- _].
      rewrite Heq, Hrec in Hrec'. congruence.
    + assert (leases (abort_enqueue lease c).2 = delete (el_lease_id lease) (leases c)) as Hleases.
      { unfold abort_enqueue. fold (leases c). rewrite Hrec, Hstale. cbn [snd].
        match goal with |- context [if ?b then with_port _ _ else _] => by destruct b end. }
      unfold abort_enqueue in Hleases. fold (leases c) in Hleases. rewrite Hrec, Hstale in Hleases.
      rewrite Hleases. split; [apply delete_subseteq|]. intros id rec'.
      rewrite lookup_delete_Some. intros [Hne Hrec'] Heq. subst lease. by destruct (Hwf _ _ Hrec') as [Hid' _].
  - split; [done|]. intros id rec Hrec' Heq. change (leases c !! id = Some rec) in Hrec'.
    destruct (Hwf _ _ Hrec') as [<- _]. rewrite Heq, Hrec in Hrec'. done.
Qed.

Lemma stop_leases `{CallEnv} c : leases (stop c).2 = ∅.
Proof. done. Qed.

(** The calls that add no lease *)
Lemma exec_leases (env : CallEnv) call c r c' :
  exec call c = Some (r, c') → (∀ request, call ≠ CallAcquire request) → leases_wf c →
  leases c' ⊆ leases c.
Proof.
  intros Hexec Hno Hwf. destruct call; cbn [exec] in Hexec;
    match type of Hexec with ('(_, _) ← ?o; _) = _ => destruct o as [[x c1]|] eqn:Ho end;
    try done; cbn [mbind option_bind] in Hexec; injection Hexec as <- <-.
  - by destruct (Hno request).
  - apply commit_leases in Ho. destruct x; rewrite Ho; [apply delete_subseteq|done].
  - injection Ho as Ho. pose proof (abort_leases lease c Hwf) as [Hsub _]. by rewrite Ho in Hsub.
  - by rewrite (reconcile_leases _ _ _ _ _ _ Ho).
  - by rewrite (next_leases _ _ _ _ Ho).
  - injection Ho as Ho. pose proof (mark_started_leases batch turn_id c) as Heq. rewrite Ho in Heq.
    cbn in Heq. by rewrite Heq.
  - by rewrite (retry_start_leases _ _ _ _ Ho).
  - by rewrite (terminalize_leases _ _ _ _ _ Ho).
  - by rewrite (terminalize_leases _ _ _ _ _ Ho).
  - by rewrite (terminalize_leases _ _ _ _ _ Ho).
  - by eapply cancel_run_leases.
  - injection Ho as Ho. pose proof (complete_signals_leases slot_id intent_ids c) as Heq.
    rewrite Ho in Heq. cbn in Heq. by rewrite Heq.
  - by rewrite (pause_leases _ _ _ _ Ho).
  - by rewrite (constrain_leases _ _ _ _ _ Ho).
  - by rewrite (remove_slot_leases _ _ _ _ Ho).
  - injection Ho as _ <-. apply map_empty_subseteq.
Qed.
End leases.
