(* ===== verification/MemberRuntime.v ===== *)
(** * Member runtime registry

    Models [crates/aionui-team/src/member_runtime.rs]: the registry which says,
    for each member of a team session, whether its agent runtime is absent, being
    attached, ready, failed or being removed.  An attach or a removal in progress
    is owned by the holder of a lease, and everybody else waits on its channel.

    Every method runs in one critical section of the [entries] mutex, hence is one
    step; [owns_attach] reads [stopped] before it locks, which makes no difference
    since [stop] empties the entries in the critical section in which it sets
    [stopped].

    [tokio::sync::watch] is a dependency: the interface [Watch] states what the
    registry relies on. *)
From S2P Require Import Prelude.

Record MemberRuntimeFailure := MkFailure {
  mf_classification : string;
  mf_public_reason : string;
}.

Inductive AttachOutcome :=
  | OutcomeReady
  | OutcomeFailed (failure : MemberRuntimeFailure)
  | OutcomeRemoved
  | OutcomeSessionStopped.

Inductive AttachSignal :=
  | Pending
  | Terminal (outcome : AttachOutcome).

#[global] Instance MemberRuntimeFailure_eq_dec : EqDecision MemberRuntimeFailure.
Proof. solve_decision. Defined.
#[global] Instance AttachOutcome_eq_dec : EqDecision AttachOutcome.
Proof. solve_decision. Defined.
#[global] Instance AttachSignal_eq_dec : EqDecision AttachSignal.
Proof. solve_decision. Defined.

(** ** [tokio::sync::watch]

    A channel holds one value, the last one sent.  [borrow] is [None] on a channel
    that was not created yet. *)

Class Watch := {
  watch_chan : Type;
  watch_heap : Type;
  watch_chan_eq_dec :: EqDecision watch_chan;
  watch_empty : watch_heap;
  watch_channel : AttachSignal → watch_heap → watch_chan * watch_heap;
  send_replace : watch_chan → AttachSignal → watch_heap → watch_heap;
  borrow : watch_chan → watch_heap → option AttachSignal;
  borrow_empty c : borrow c watch_empty = None;
  watch_channel_fresh v h : borrow (watch_channel v h).1 h = None;
  borrow_channel v h c :
    borrow c (watch_channel v h).2 =
      if decide (c = (watch_channel v h).1) then Some v else borrow c h;
  borrow_send c v h c' :
    is_Some (borrow c h) →
    borrow c' (send_replace c v h) = if decide (c' = c) then Some v else borrow c' h;
}.

(** An implementation: channels are positions in a list of values. *)
Definition list_watch : Watch.
Proof.
  refine {|
    watch_chan := nat;
    watch_heap := list AttachSignal;
    watch_empty := [];
    watch_channel v h := (length h, h ++ [v]);
    send_replace c v h := <[c := v]> h;
    borrow c h := h !! c;
  |}.
  - done.
  - intros v h. by apply lookup_ge_None.
  - intros v h c. case_decide as Hc; simpl in Hc.
    + subst c. by apply list_lookup_middle.
    + destruct (decide (c < length h)); [by apply lookup_app_l|].
      cbn [snd]. rewrite lookup_app_r by lia. rewrite (lookup_ge_None_2 h) by lia.
      apply lookup_ge_None_2. simpl. lia.
  - intros c v h c' Hc%lookup_lt_is_Some. case_decide as Hd.
    + subst c'. by apply list_lookup_insert_eq.
    + by apply list_lookup_insert_ne.
Defined.

Section member_runtime.
Context `{!Watch, !HashOrder}.

(** ** Data *)

Record AttachWaiter := MkWaiter {
  aw_operation_id : Z;
  aw_outcome_rx : watch_chan;
}.

Record AttachLease := MkAttachLease {
  al_session_generation : string;
  al_agent_id : string;
  al_waiter : AttachWaiter;
}.

(** [AttachLease::operation_id] *)
Definition al_operation_id (lease : AttachLease) : Z := aw_operation_id (al_waiter lease).

Record RemoveLease := MkRemoveLease {
  rl_session_generation : string;
  rl_agent_id : string;
  rl_operation_id : Z;
}.

Inductive ReserveAttach :=
  | AttachStart (lease : AttachLease)
  | AttachJoin (w : AttachWaiter)
  | AttachAlreadyReady
  | AttachRemoving (w : AttachWaiter)
  | AttachSessionStopped.

Inductive BeginRemove :=
  | RemoveStart (lease : RemoveLease)
  | RemoveJoin (w : AttachWaiter)
  | RemoveAbsent
  | RemoveSessionStopped.

Inductive MemberRuntimeSnapshot :=
  | SnapAbsent
  | SnapAttaching (operation_id : Z)
  | SnapReady
  | SnapFailed (operation_id : Z) (failure : MemberRuntimeFailure)
  | SnapRemoving (operation_id : Z)
  | SnapSessionStopped.

Inductive MemberRuntimeEntry :=
  | EntryAttaching (operation_id : Z) (outcome_tx : watch_chan)
  | EntryReady
  | EntryFailed (operation_id : Z) (failure : MemberRuntimeFailure) (outcome_tx : watch_chan)
  | EntryRemoving (operation_id : Z) (outcome_tx : watch_chan).

(** [mr_channels] holds the values of the watch channels: the [outcome_tx] of an
    entry and the [outcome_rx] of the waiters on it name the same channel. *)
Record MemberRuntimeRegistry := MkRegistry {
  mr_session_generation : string;
  mr_next_operation_id : Z;
  mr_entries : gmap string MemberRuntimeEntry;
  mr_stopped : bool;
  mr_channels : watch_heap;
}.

Definition registry_new (session_generation : string) : MemberRuntimeRegistry :=
  MkRegistry session_generation 1 ∅ false watch_empty.

Definition set_entries (r : MemberRuntimeRegistry) (es : gmap string MemberRuntimeEntry) :
    MemberRuntimeRegistry :=
  MkRegistry (mr_session_generation r) (mr_next_operation_id r) es (mr_stopped r) (mr_channels r).

Definition set_channels (r : MemberRuntimeRegistry) (h : watch_heap) : MemberRuntimeRegistry :=
  MkRegistry (mr_session_generation r) (mr_next_operation_id r) (mr_entries r) (mr_stopped r) h.

Definition send (c : watch_chan) (outcome : AttachOutcome) (r : MemberRuntimeRegistry) :
    MemberRuntimeRegistry :=
  set_channels r (send_replace c (Terminal outcome) (mr_channels r)).

(** [fetch_add(1)] on an [AtomicU64] returns the old value and wraps around. *)
Definition next_operation_id (r : MemberRuntimeRegistry) : Z * MemberRuntimeRegistry :=
  (mr_next_operation_id r,
   MkRegistry (mr_session_generation r) ((mr_next_operation_id r + 1) mod 2 ^ 64)
     (mr_entries r) (mr_stopped r) (mr_channels r)).

(** ** Operations *)

Definition seed_ready (agent_id : string) (r : MemberRuntimeRegistry) :
    bool * MemberRuntimeRegistry :=
  if mr_stopped r then (false, r) else
  match mr_entries r !! agent_id with
  | None => (true, set_entries r (<[agent_id := EntryReady]> (mr_entries r)))
  | Some EntryReady => (true, r)
  | Some (EntryAttaching _ _ | EntryFailed _ _ _ | EntryRemoving _ _) => (false, r)
  end.

(** The block with which [reserve_attach] and [reserve_repair] start an attach. *)
Definition start_attach (agent_id : string) (r : MemberRuntimeRegistry) :
    ReserveAttach * MemberRuntimeRegistry :=
  let '(operation_id, r) := next_operation_id r in
  let '(outcome_tx, channels) := watch_channel Pending (mr_channels r) in
  let r := set_channels r channels in
  let r := set_entries r (<[agent_id := EntryAttaching operation_id outcome_tx]> (mr_entries r)) in
  (AttachStart (MkAttachLease (mr_session_generation r) agent_id
                  (MkWaiter operation_id outcome_tx)), r).

Definition reserve_attach (agent_id : string) (retry_failed : bool) (r : MemberRuntimeRegistry) :
    ReserveAttach * MemberRuntimeRegistry :=
  if mr_stopped r then (AttachSessionStopped, r) else
  match mr_entries r !! agent_id with
  | Some (EntryAttaching operation_id outcome_tx) => (AttachJoin (MkWaiter operation_id outcome_tx), r)
  | Some EntryReady => (AttachAlreadyReady, r)
  | Some (EntryFailed operation_id _ outcome_tx) =>
      if negb retry_failed then (AttachJoin (MkWaiter operation_id outcome_tx), r)
      else start_attach agent_id r
  | Some (EntryRemoving operation_id outcome_tx) => (AttachRemoving (MkWaiter operation_id outcome_tx), r)
  | None => start_attach agent_id r
  end.

Definition reserve_repair (agent_id : string) (r : MemberRuntimeRegistry) :
    ReserveAttach * MemberRuntimeRegistry :=
  if mr_stopped r then (AttachSessionStopped, r) else
  match mr_entries r !! agent_id with
  | Some (EntryAttaching operation_id outcome_tx) => (AttachJoin (MkWaiter operation_id outcome_tx), r)
  | Some EntryReady => start_attach agent_id r
  | Some (EntryFailed operation_id _ outcome_tx) => (AttachJoin (MkWaiter operation_id outcome_tx), r)
  | Some (EntryRemoving operation_id outcome_tx) => (AttachRemoving (MkWaiter operation_id outcome_tx), r)
  | None => start_attach agent_id r
  end.

Definition owns_attach (lease : AttachLease) (r : MemberRuntimeRegistry) : bool :=
  if negb (String.eqb (al_session_generation lease) (mr_session_generation r)) || mr_stopped r then false
  else match mr_entries r !! al_agent_id lease with
       | Some (EntryAttaching operation_id _) => (operation_id =? al_operation_id lease)%Z
       | _ => false
       end.

Definition commit_ready (lease : AttachLease) (r : MemberRuntimeRegistry) :
    bool * MemberRuntimeRegistry :=
  if negb (String.eqb (al_session_generation lease) (mr_session_generation r)) then (false, r) else
  if mr_stopped r then (false, r) else
  match mr_entries r !! al_agent_id lease with
  | Some (EntryAttaching current_operation_id outcome_tx) =>
      if negb (current_operation_id =? al_operation_id lease)%Z then (false, r) else
      let r := set_entries r (<[al_agent_id lease := EntryReady]> (mr_entries r)) in
      (true, send outcome_tx OutcomeReady r)
  | _ => (false, r)
  end.

Definition commit_failed (lease : AttachLease) (failure : MemberRuntimeFailure)
    (r : MemberRuntimeRegistry) : bool * MemberRuntimeRegistry :=
  if negb (String.eqb (al_session_generation lease) (mr_session_generation r)) then (false, r) else
  if mr_stopped r then (false, r) else
  match mr_entries r !! al_agent_id lease with
  | Some (EntryAttaching current_operation_id outcome_tx) =>
      if negb (current_operation_id =? al_operation_id lease)%Z then (false, r) else
      let r := set_entries r (<[al_agent_id lease :=
                 EntryFailed (al_operation_id lease) failure outcome_tx]> (mr_entries r)) in
      (true, send outcome_tx (OutcomeFailed failure) r)
  | _ => (false, r)
  end.

(** The rest of [begin_remove] once the entry is known not to be [Removing]: the
    [unreachable!] arm of the code is the case it returned from before. *)
Definition start_remove (agent_id : string) (cancelled_outcome_tx : option watch_chan)
    (r : MemberRuntimeRegistry) : BeginRemove * MemberRuntimeRegistry :=
  let r := set_entries r (delete agent_id (mr_entries r)) in
  let '(operation_id, r) := next_operation_id r in
  let '(outcome_tx, channels) := watch_channel Pending (mr_channels r) in
  let r := set_channels r channels in
  let r := set_entries r (<[agent_id := EntryRemoving operation_id outcome_tx]> (mr_entries r)) in
  let r := match cancelled_outcome_tx with Some tx => send tx OutcomeRemoved r | None => r end in
  (RemoveStart (MkRemoveLease (mr_session_generation r) agent_id operation_id), r).

Definition begin_remove (agent_id : string) (r : MemberRuntimeRegistry) :
    BeginRemove * MemberRuntimeRegistry :=
  if mr_stopped r then (RemoveSessionStopped, r) else
  match mr_entries r !! agent_id with
  | Some (EntryRemoving operation_id outcome_tx) => (RemoveJoin (MkWaiter operation_id outcome_tx), r)
  | Some (EntryAttaching _ outcome_tx) => start_remove agent_id (Some outcome_tx) r
  | Some (EntryFailed _ _ _) => start_remove agent_id None r
  | Some EntryReady => start_remove agent_id None r
  | None => (RemoveAbsent, r)
  end.

Definition finish_remove (lease : RemoveLease) (r : MemberRuntimeRegistry) :
    bool * MemberRuntimeRegistry :=
  if negb (String.eqb (rl_session_generation lease) (mr_session_generation r)) then (false, r) else
  if mr_stopped r then (false, r) else
  match mr_entries r !! rl_agent_id lease with
  | Some (EntryRemoving current_operation_id outcome_tx) =>
      if negb (current_operation_id =? rl_operation_id lease)%Z then (false, r) else
      let r := set_entries r (delete (rl_agent_id lease) (mr_entries r)) in
      (true, send outcome_tx OutcomeRemoved r)
  | _ => (false, r)
  end.

Definition restore_attach_required_after_remove_persist_error (lease : RemoveLease)
    (failure : MemberRuntimeFailure) (r : MemberRuntimeRegistry) : bool * MemberRuntimeRegistry :=
  if negb (String.eqb (rl_session_generation lease) (mr_session_generation r)) then (false, r) else
  if mr_stopped r then (false, r) else
  match mr_entries r !! rl_agent_id lease with
  | Some (EntryRemoving current_operation_id outcome_tx) =>
      if negb (current_operation_id =? rl_operation_id lease)%Z then (false, r) else
      let r := set_entries r (<[rl_agent_id lease :=
                 EntryFailed (rl_operation_id lease) failure outcome_tx]> (mr_entries r)) in
      (true, send outcome_tx (OutcomeFailed failure) r)
  | _ => (false, r)
  end.

(** [MemberRuntimeRegistry::snapshot] *)
Definition registry_snapshot (agent_id : string) (r : MemberRuntimeRegistry) : MemberRuntimeSnapshot :=
  if mr_stopped r then SnapSessionStopped else
  match mr_entries r !! agent_id with
  | None => SnapAbsent
  | Some (EntryAttaching operation_id _) => SnapAttaching operation_id
  | Some EntryReady => SnapReady
  | Some (EntryFailed operation_id failure _) => SnapFailed operation_id failure
  | Some (EntryRemoving operation_id _) => SnapRemoving operation_id
  end.

Definition stop_entry (r : MemberRuntimeRegistry) (entry : MemberRuntimeEntry) :
    MemberRuntimeRegistry :=
  match entry with
  | EntryAttaching _ outcome_tx | EntryRemoving _ outcome_tx => send outcome_tx OutcomeSessionStopped r
  | EntryReady | EntryFailed _ _ _ => r
  end.

(** [MemberRuntimeRegistry::stop] *)
Definition registry_stop (r : MemberRuntimeRegistry) : bool * MemberRuntimeRegistry :=
  if mr_stopped r then (false, r) else
  let drained := hash_values (mr_entries r) in
  let r := MkRegistry (mr_session_generation r) (mr_next_operation_id r) ∅ true (mr_channels r) in
  (true, foldl stop_entry r drained).

(** ** Waiting

    A sender of the channel is alive while an entry holds it: a call drops the
    clones it makes before it returns. *)

Definition entry_sender (entry : MemberRuntimeEntry) : option watch_chan :=
  match entry with
  | EntryAttaching _ tx | EntryFailed _ _ tx | EntryRemoving _ tx => Some tx
  | EntryReady => None
  end.

Definition sender_alive (c : watch_chan) (r : MemberRuntimeRegistry) : bool :=
  existsb (λ entry, bool_decide (entry_sender entry = Some c)) (map_to_list (mr_entries r)).*2.

(** One turn of the loop of [AttachWaiter::wait]: [None] while it blocks in
    [changed()], which fails when the senders are gone. *)
Definition wait_poll (w : AttachWaiter) (r : MemberRuntimeRegistry) : option AttachOutcome :=
  match borrow (aw_outcome_rx w) (mr_channels r) with
  | Some (Terminal outcome) => Some outcome
  | Some Pending | None =>
      if sender_alive (aw_outcome_rx w) r then None else Some OutcomeSessionStopped
  end.

(** ** Traces of calls

    The calls may present any lease, those of other registries too. *)

Inductive RegistryCall :=
  | SeedReady (agent_id : string)
  | Reserve (agent_id : string) (retry_failed : bool)
  | Repair (agent_id : string)
  | CommitReady (lease : AttachLease)
  | CommitFailed (lease : AttachLease) (failure : MemberRuntimeFailure)
  | Remove (agent_id : string)
  | FinishRemove (lease : RemoveLease)
  | RestoreAttach (lease : RemoveLease) (failure : MemberRuntimeFailure)
  | Stop.

Inductive Reply :=
  | ReplyBool (b : bool)
  | ReplyAttach (a : ReserveAttach)
  | ReplyRemove (b : BeginRemove).

Definition registry_exec (c : RegistryCall) (r : MemberRuntimeRegistry) : Reply * MemberRuntimeRegistry :=
  match c with
  | SeedReady agent => let '(b, r) := seed_ready agent r in (ReplyBool b, r)
  | Reserve agent retry => let '(a, r) := reserve_attach agent retry r in (ReplyAttach a, r)
  | Repair agent => let '(a, r) := reserve_repair agent r in (ReplyAttach a, r)
  | CommitReady lease => let '(b, r) := commit_ready lease r in (ReplyBool b, r)
  | CommitFailed lease failure => let '(b, r) := commit_failed lease failure r in (ReplyBool b, r)
  | Remove agent => let '(b, r) := begin_remove agent r in (ReplyRemove b, r)
  | FinishRemove lease => let '(b, r) := finish_remove lease r in (ReplyBool b, r)
  | RestoreAttach lease failure =>
      let '(b, r) := restore_attach_required_after_remove_persist_error lease failure r in
      (ReplyBool b, r)
  | Stop => let '(b, r) := registry_stop r in (ReplyBool b, r)
  end.

(** The calls made and their replies, the latest first *)
Definition Trace := list (RegistryCall * Reply).

Inductive trace : Trace → MemberRuntimeRegistry → Prop :=
  | trace_new generation : trace [] (registry_new generation)
  | trace_call tr r c :
      trace tr r → trace ((c, (registry_exec c r).1) :: tr) (registry_exec c r).2.

Definition attach_issued (tr : Trace) (lease : AttachLease) : Prop :=
  ∃ c, (c, ReplyAttach (AttachStart lease)) ∈ tr.

(** The waiters a reply hands out *)
Definition reply_waiter (reply : Reply) : option AttachWaiter :=
  match reply with
  | ReplyAttach (AttachStart lease) => Some (al_waiter lease)
  | ReplyAttach (AttachJoin w) | ReplyAttach (AttachRemoving w) | ReplyRemove (RemoveJoin w) => Some w
  | _ => None
  end.

Definition waiter_of (tr : Trace) (w : AttachWaiter) : Prop :=
  ∃ c reply, (c, reply) ∈ tr ∧ reply_waiter reply = Some w.

(** What a call settles about the attach of [lease] while it is in progress *)
Definition same_attach (l lease : AttachLease) : bool :=
  String.eqb (al_agent_id l) (al_agent_id lease) && (al_operation_id l =? al_operation_id lease)%Z.

Definition event_outcome (lease : AttachLease) (e : RegistryCall * Reply) : option AttachOutcome :=
  match e with
  | (CommitReady l, ReplyBool true) => if same_attach l lease then Some OutcomeReady else None
  | (CommitFailed l failure, ReplyBool true) =>
      if same_attach l lease then Some (OutcomeFailed failure) else None
  | (Remove agent, ReplyRemove (RemoveStart _)) =>
      if String.eqb agent (al_agent_id lease) then Some OutcomeRemoved else None
  | (Stop, ReplyBool true) => Some OutcomeSessionStopped
  | _ => None
  end.

(** The outcome the earliest such call of a trace gives *)
Fixpoint first_outcome (lease : AttachLease) (tr : Trace) : option AttachOutcome :=
  match tr with
  | [] => None
  | e :: tr =>
      match first_outcome lease tr with
      | Some outcome => Some outcome
      | None => event_outcome lease e
      end
  end.

(** A successful commit of [lease] *)
Definition commits_attach (lease : AttachLease) (e : RegistryCall * Reply) : bool :=
  match e with
  | (CommitReady l, ReplyBool true) | (CommitFailed l _, ReplyBool true) => same_attach l lease
  | _ => false
  end.

End member_runtime.
