(* ===== verification/MemberRuntimeProps.v ===== *)
(** * Member runtime registry: properties

    The invariant of the registry ([core]), the effect of one call on an attach in
    progress, and the three properties: what a lease's waiters observe is a function
    of the calls made since the lease was issued, a lease is exclusive, and no
    waiter is forgotten. *)
From S2P Require Import Prelude MemberRuntime.

Section props.
Context `{!Watch, !HashOrder}.
Implicit Types (r : MemberRuntimeRegistry) (e : MemberRuntimeEntry) (c : watch_chan).
Implicit Types (chans : gmap Z watch_chan).

(** The operation and the channel of an entry; those of an operation in progress *)
Definition entry_op e : option (Z * watch_chan) :=
  match e with
  | EntryAttaching op c | EntryFailed op _ c | EntryRemoving op c => Some (op, c)
  | EntryReady => None
  end.

Definition entry_busy e : option (Z * watch_chan) :=
  match e with
  | EntryAttaching op c | EntryRemoving op c => Some (op, c)
  | EntryReady | EntryFailed _ _ _ => None
  end.

Lemma entry_busy_op e oc : entry_busy e = Some oc → entry_op e = Some oc.
Proof. by destruct e. Qed.

Definition in_progress r (op : Z) : Prop :=
  ∃ agent e c, mr_entries r !! agent = Some e ∧ entry_busy e = Some (op, c).

(** [chans] gives the channel of each operation id handed out so far. *)
Record core r chans : Prop := {
  core_next : (1 ≤ mr_next_operation_id r)%Z;
  core_dom op c : chans !! op = Some c → (1 ≤ op < mr_next_operation_id r)%Z;
  core_inj op1 op2 c : chans !! op1 = Some c → chans !! op2 = Some c → op1 = op2;
  core_signal op c : chans !! op = Some c →
    ∃ s, borrow c (mr_channels r) = Some s ∧ (s = Pending ↔ in_progress r op);
  core_entry agent e op c :
    mr_entries r !! agent = Some e → entry_op e = Some (op, c) → chans !! op = Some c;
  core_uniq a1 e1 c1 a2 e2 c2 op :
    mr_entries r !! a1 = Some e1 → entry_op e1 = Some (op, c1) →
    mr_entries r !! a2 = Some e2 → entry_op e2 = Some (op, c2) → a1 = a2;
  core_stopped : mr_stopped r = true → mr_entries r = ∅;
}.

Lemma core_live r chans op c : core r chans → chans !! op = Some c → is_Some (borrow c (mr_channels r)).
Proof. intros Hr Hc. destruct (core_signal _ _ Hr _ _ Hc) as (s & -> & _). eauto. Qed.

Lemma core_new gen : core (registry_new gen) ∅.
Proof. split; simpl; try (intros; by simplify_map_eq); done. Qed.

Lemma busy_lookup r chans agent e op c :
  core r chans → mr_entries r !! agent = Some e → entry_busy e = Some (op, c) →
  chans !! op = Some c ∧ borrow c (mr_channels r) = Some Pending.
Proof.
  intros Hr He Hb. pose proof (core_entry _ _ Hr _ _ _ _ He (entry_busy_op _ _ Hb)) as Hc.
  destruct (core_signal _ _ Hr _ _ Hc) as (s & Hs & Hp). split; [done|].
  rewrite Hs. f_equal. apply Hp. unfold in_progress. eauto.
Qed.

(** ** The three kinds of transition *)

(** An operation in progress ends: its entry becomes [oe], its waiters are told. *)
Lemma core_settle r chans agent e op c oe es o :
  core r chans → mr_entries r !! agent = Some e → entry_busy e = Some (op, c) →
  (∀ e', oe = Some e' →
    entry_busy e' = None ∧ (entry_op e' = None ∨ entry_op e' = Some (op, c))) →
  (∀ a, es !! a = if decide (a = agent) then oe else mr_entries r !! a) →
  let r' := send c o (set_entries r es) in
  core r' chans ∧
  ∀ op' c', chans !! op' = Some c' →
    borrow c' (mr_channels r') =
      if decide (op' = op) then Some (Terminal o) else borrow c' (mr_channels r).
Proof.
  intros Hr He Hb Hoe Hes r'. destruct (busy_lookup _ _ _ _ _ _ Hr He Hb) as [Hc Hpend].
  assert (∀ op' c', chans !! op' = Some c' →
    borrow c' (mr_channels r') =
      if decide (op' = op) then Some (Terminal o) else borrow c' (mr_channels r)) as Hbor.
  { intros op' c' Hc'. subst r'. simpl. rewrite borrow_send by eauto.
    destruct (decide (op' = op)) as [->|Hne]; [by rewrite decide_True by congruence|].
    rewrite decide_False; [done|]. intros ->. apply Hne. by eapply (core_inj _ _ Hr). }
  split; [|done]. split; simpl; [apply Hr|apply Hr|apply Hr| | | |].
  - intros op' c' Hc'. pose proof (Hbor _ _ Hc') as Hb0. case_decide as Hop.
    + subst op'. exists (Terminal o). split; [exact Hb0|]. split; [done|].
      intros (a & e' & c'' & Ha & Hb'). simpl in Ha. rewrite Hes in Ha. case_decide as Hag.
      * apply Hoe in Ha as [Ha _]. congruence.
      * destruct Hag. eapply (core_uniq _ _ Hr); eauto using entry_busy_op.
    + destruct (core_signal _ _ Hr _ _ Hc') as (s & Hs & Hp). exists s.
      split; [exact (eq_trans Hb0 Hs)|].
      rewrite Hp. unfold in_progress. simpl. split; intros (a & e' & c'' & Ha & Hb').
      * exists a, e', c''. rewrite Hes, decide_False; [done|]. intros ->. congruence.
      * rewrite Hes in Ha. case_decide; [|by eauto].
        apply Hoe in Ha as [Ha _]. congruence.
  - intros a e' op' c' Ha Hop. rewrite Hes in Ha. case_decide.
    + apply Hoe in Ha as [_ [?|?]]; congruence.
    + by eapply (core_entry _ _ Hr).
  - intros a1 e1 c1 a2 e2 c2 op' Ha1 Ho1 Ha2 Ho2. rewrite Hes in Ha1, Ha2.
    assert (∀ a e' c', oe = Some e' → entry_op e' = Some (op', c') → a = agent →
      mr_entries r !! a = Some e ∧ entry_op e = Some (op', c)) as Hold.
    { intros a e' c' Hoe' Ho' ->. apply Hoe in Hoe' as [_ [?|Ho'']]; [congruence|].
      apply entry_busy_op in Hb. split; congruence. }
    do 2 case_decide; try congruence.
    + destruct (Hold a2 e2 c2) as [? ?]; [done..|]. by eapply (core_uniq _ _ Hr).
    + destruct (Hold a1 e1 c1) as [? ?]; [done..|]. by eapply (core_uniq _ _ Hr).
    + by eapply (core_uniq _ _ Hr).
  - intros Hst. apply (core_stopped _ _ Hr) in Hst. rewrite Hst in He. by apply lookup_empty_Some in He.
Qed.

(** An entry that holds no operation in progress becomes [Ready]. *)
Lemma core_ready r chans agent :
  core r chans → mr_stopped r = false →
  (∀ e, mr_entries r !! agent = Some e → entry_busy e = None) →
  core (set_entries r (<[agent := EntryReady]> (mr_entries r))) chans.
Proof.
  intros Hr Hst Hidle. split; simpl; [apply Hr|apply Hr|apply Hr| | | |congruence].
  - intros op c Hc. destruct (core_signal _ _ Hr _ _ Hc) as (s & Hs & Hp). exists s.
    split; [done|]. rewrite Hp. unfold in_progress. simpl.
    split; intros (a & e & c' & Ha & Hb).
    + exists a, e, c'. rewrite lookup_insert_ne; [done|]. intros <-. apply Hidle in Ha. congruence.
    + rewrite lookup_insert in Ha. case_decide; [by simplify_eq|eauto].
  - intros a e op c Ha Ho. rewrite lookup_insert in Ha. case_decide; [by simplify_eq|].
    by eapply (core_entry _ _ Hr).
  - intros a1 e1 c1 a2 e2 c2 op Ha1 Ho1 Ha2 Ho2. rewrite lookup_insert in Ha1, Ha2.
    do 2 case_decide; simplify_eq; by eapply (core_uniq _ _ Hr).
Qed.

(** An operation is started for [agent]: [ch] is its channel, [h'] the channels after. *)
Lemma core_open r chans agent mk ch h' :
  core r chans → mr_stopped r = false →
  (∀ e, mr_entries r !! agent = Some e → entry_busy e = None) →
  (∀ op c, entry_busy (mk op c) = Some (op, c)) →
  (mr_next_operation_id r + 1 < 2 ^ 64)%Z →
  borrow ch (mr_channels r) = None → borrow ch h' = Some Pending →
  (∀ op c, chans !! op = Some c → borrow c h' = borrow c (mr_channels r)) →
  let r' := MkRegistry (mr_session_generation r) ((mr_next_operation_id r + 1) mod 2 ^ 64)
    (<[agent := mk (mr_next_operation_id r) ch]> (mr_entries r)) (mr_stopped r) h' in
  core r' (<[mr_next_operation_id r := ch]> chans) ∧ chans ⊆ <[mr_next_operation_id r := ch]> chans ∧
  mr_next_operation_id r' = (mr_next_operation_id r + 1)%Z.
Proof.
  intros Hr Hst Hidle Hmk Hlt Hch Hpend Hbor r'.
  set (chans' := <[mr_next_operation_id r := ch]> chans). pose proof (core_next _ _ Hr).
  assert (mr_next_operation_id r' = (mr_next_operation_id r + 1)%Z) as Hnext
    by (subst r'; simpl; apply Z.mod_small; lia).
  assert (∀ op c, chans !! op = Some c → op ≠ mr_next_operation_id r) as Hfresh.
  { intros op c Hc%(core_dom _ _ Hr). lia. }
  assert (∀ op c, chans !! op = Some c → c ≠ ch) as Hcf.
  { intros op c Hc ->. apply (core_live _ _ _ _ Hr) in Hc. rewrite Hch in Hc. by destruct Hc. }
  assert (∀ op c agent' e, mr_entries r !! agent' = Some e → entry_op e = Some (op, c) →
    op ≠ mr_next_operation_id r) as Hef.
  { intros op c a e He Ho. by eapply Hfresh, (core_entry _ _ Hr). }
  split_and!; [|apply insert_subseteq, eq_None_not_Some; intros [c Hc]; by eapply Hfresh|done].
  split; [lia| | | | | |simpl; congruence]; cbn [mr_entries r'].
  - intros op c. unfold chans'. rewrite lookup_insert. case_decide; [lia|].
    intros Hc%(core_dom _ _ Hr). lia.
  - intros op1 op2 c. unfold chans'. rewrite !lookup_insert. repeat case_decide.
    + congruence.
    + intros [= <-] Hc%Hcf. done.
    + intros Hc%Hcf [= <-]. done.
    + apply (core_inj _ _ Hr).
  - intros op c. unfold chans'. rewrite lookup_insert. case_decide as Hop.
    + intros [= <-]. exists Pending. split; [done|]. split; [intros _|done]. unfold in_progress. simpl.
      eexists agent, _, _. rewrite lookup_insert, decide_True by done. split; [done|].
      by rewrite <-Hop.
    + intros Hc. simpl. rewrite (Hbor _ _ Hc). destruct (core_signal _ _ Hr _ _ Hc) as (s & Hs & Hp).
      exists s. split; [done|]. rewrite Hp. unfold in_progress, r'. simpl.
      split; intros (a & e & c' & Ha & Hb).
      * exists a, e, c'. rewrite lookup_insert_ne; [done|]. intros <-.
        apply Hidle in Ha. congruence.
      * rewrite lookup_insert in Ha. case_decide; [|eauto]. simplify_eq.
        rewrite Hmk in Hb. congruence.
  - intros a e op c Ha Ho. unfold chans'. rewrite lookup_insert in Ha. case_decide.
    + simplify_eq. rewrite (entry_busy_op _ _ (Hmk _ _)) in Ho. simplify_eq.
      by rewrite lookup_insert, decide_True.
    + rewrite lookup_insert_ne; [by eapply (core_entry _ _ Hr)|]. apply not_eq_sym. eauto.
  - intros a1 e1 c1 a2 e2 c2 op Ha1 Ho1 Ha2 Ho2. rewrite lookup_insert in Ha1, Ha2.
    pose proof (λ op c, entry_busy_op _ _ (Hmk op c)) as Hmk'.
    do 2 case_decide; simplify_eq; try done.
    + rewrite Hmk' in Ho2. simplify_eq. by destruct (Hef _ _ _ _ Ha1 Ho1).
    + rewrite Hmk' in Ho1. simplify_eq. by destruct (Hef _ _ _ _ Ha2 Ho2).
    + by eapply (core_uniq _ _ Hr).
Qed.
(** ** Stopping *)

Lemma stop_entries_channels l r chans :
  (∀ e op c, e ∈ l → entry_busy e = Some (op, c) → chans !! op = Some c) →
  (∀ op c, chans !! op = Some c → is_Some (borrow c (mr_channels r))) →
  (∀ op1 op2 c, chans !! op1 = Some c → chans !! op2 = Some c → op1 = op2) →
  let r' := foldl stop_entry r l in
  mr_session_generation r' = mr_session_generation r ∧
  mr_next_operation_id r' = mr_next_operation_id r ∧
  mr_entries r' = mr_entries r ∧ mr_stopped r' = mr_stopped r ∧
  ∀ op c, chans !! op = Some c →
    borrow c (mr_channels r') =
      if existsb (λ e, bool_decide (entry_busy e = Some (op, c))) l
      then Some (Terminal OutcomeSessionStopped) else borrow c (mr_channels r).
Proof.
  intros Hl Hlive Hinj. revert r Hlive. induction l as [|e l IH]; intros r Hlive; simpl; [done|].
  assert (∀ op c, chans !! op = Some c →
    borrow c (mr_channels (stop_entry r e)) =
      if bool_decide (entry_busy e = Some (op, c))
      then Some (Terminal OutcomeSessionStopped) else borrow c (mr_channels r)) as He.
  { intros op c Hc. case_bool_decide as Hb.
    - destruct e; simpl in *; simplify_eq; rewrite borrow_send, decide_True; eauto.
    - destruct e as [op' c'| | |op' c']; simpl in *; [|done..|];
        (rewrite borrow_send by (eapply Hlive, (Hl _ op' c'); [left|done]));
        (rewrite decide_False; [done|]); intros ->; apply Hb; do 2 f_equal;
        (eapply Hinj; [|done]); (eapply Hl; [left|done]). }
  destruct (IH (λ e0 op c H, Hl e0 op c (list_elem_of_further _ _ _ H)) (stop_entry r e))
    as (-> & -> & -> & -> & Hbor).
  { intros op c Hc. rewrite (He _ _ Hc). case_bool_decide; eauto. }
  split_and!; [by destruct e..|]. intros op c Hc. rewrite (Hbor _ _ Hc), (He _ _ Hc).
  by destruct (bool_decide _), (existsb _ _).
Qed.

Lemma core_stop r chans :
  core r chans → mr_stopped r = false →
  let r' := (registry_stop r).2 in
  core r' chans ∧ mr_session_generation r' = mr_session_generation r ∧
  mr_next_operation_id r' = mr_next_operation_id r ∧ mr_stopped r' = true ∧
  ∀ op c s, chans !! op = Some c → borrow c (mr_channels r) = Some s →
    borrow c (mr_channels r') =
      Some (match s with Pending => Terminal OutcomeSessionStopped | _ => s end).
Proof.
  intros Hr Hst. unfold registry_stop. rewrite Hst. cbn [snd].
  set (r0 := MkRegistry _ _ ∅ true _).
  destruct (stop_entries_channels (hash_values (mr_entries r)) r0 chans) as (Hg & Hn & He & Hs & Hb).
  - intros e op c (agent & Ha)%elem_of_hash_values Hbusy. by destruct (busy_lookup _ _ _ _ _ _ Hr Ha Hbusy).
  - intros op c Hc. by apply (core_live _ _ _ _ Hr) in Hc.
  - apply (core_inj _ _ Hr).
  - assert (∀ op c s, chans !! op = Some c → borrow c (mr_channels r) = Some s →
      borrow c (mr_channels (foldl stop_entry r0 (hash_values (mr_entries r)))) =
        Some (match s with Pending => Terminal OutcomeSessionStopped | _ => s end)) as Hsig.
    { intros op c s Hc Hs0. rewrite (Hb _ _ Hc). destruct (core_signal _ _ Hr _ _ Hc) as (s' & Hs' & Hp).
      rewrite Hs0 in Hs'. injection Hs' as <-. destruct (existsb _ _) eqn:Hex.
      - apply existsb_exists in Hex as (e & Hin%list_elem_of_In & Hbusy%bool_decide_eq_true).
        apply elem_of_hash_values in Hin as [agent Ha].
        destruct (busy_lookup _ _ _ _ _ _ Hr Ha Hbusy) as [_ ?]. by simplify_eq.
      - destruct s as [|o]; [|done]. destruct Hp as [Hp _].
        destruct (Hp eq_refl) as (agent & e & c' & Ha & Hbusy).
        destruct (busy_lookup _ _ _ _ _ _ Hr Ha Hbusy) as [Hc' _]. simplify_eq.
        apply not_true_iff_false in Hex as []. apply existsb_exists. exists e.
        rewrite <-list_elem_of_In, elem_of_hash_values, bool_decide_eq_true. eauto. }
    split_and!; try done. split; rewrite ?Hn, ?He, ?Hs; simpl;
      [apply Hr|apply Hr|apply Hr| |by intros * ?%lookup_empty_Some..|done].
    intros op c Hc. destruct (core_signal _ _ Hr _ _ Hc) as (s & Hs' & _). eexists. split; [eauto|].
    unfold in_progress. rewrite He. simpl. split; [by destruct s|].
    by intros (? & ? & ? & ?%lookup_empty_Some & _).
Qed.
(** ** One call *)

(** [lease] is the lease of the attach in progress. *)
Definition attaching r (lease : AttachLease) : Prop :=
  mr_entries r !! al_agent_id lease =
    Some (EntryAttaching (al_operation_id lease) (aw_outcome_rx (al_waiter lease))).

Record step_ok r chans (e : RegistryCall * Reply) r' chans' : Prop := {
  so_core : core r' chans';
  so_mono : chans ⊆ chans';
  so_next : (mr_next_operation_id r ≤ mr_next_operation_id r' ≤ mr_next_operation_id r + 1)%Z;
  so_gen : mr_session_generation r' = mr_session_generation r;
  so_waiter w : reply_waiter e.2 = Some w → chans' !! aw_operation_id w = Some (aw_outcome_rx w);
  so_start lease : e.2 = ReplyAttach (AttachStart lease) →
    al_operation_id lease = mr_next_operation_id r ∧
    al_session_generation lease = mr_session_generation r' ∧ attaching r' lease;
  so_final op c o : chans !! op = Some c →
    borrow c (mr_channels r) = Some (Terminal o) → borrow c (mr_channels r') = Some (Terminal o);
  so_outcome lease : attaching r lease →
    match event_outcome lease e with
    | Some o => borrow (aw_outcome_rx (al_waiter lease)) (mr_channels r') = Some (Terminal o)
    | None => attaching r' lease
    end;
}.

Lemma step_noop r chans (e : RegistryCall * Reply) :
  core r chans → (∀ w, reply_waiter e.2 = Some w → chans !! aw_operation_id w = Some (aw_outcome_rx w)) →
  (∀ lease, e.2 ≠ ReplyAttach (AttachStart lease)) → (∀ lease, event_outcome lease e = None) →
  ∃ chans', step_ok r chans e r chans'.
Proof.
  intros Hr Hw Hs Ho. exists chans. split; try done; [lia|by intros ? ?%Hs|].
  intros lease. by rewrite Ho.
Qed.

Lemma attaching_channel r chans lease :
  core r chans → attaching r lease →
  chans !! al_operation_id lease = Some (aw_outcome_rx (al_waiter lease)) ∧
  borrow (aw_outcome_rx (al_waiter lease)) (mr_channels r) = Some Pending.
Proof. intros Hr Ha. by eapply (busy_lookup _ _ _ _ _ _ Hr Ha). Qed.

Lemma step_start_attach r chans agent (c : RegistryCall) :
  core r chans → mr_stopped r = false →
  (∀ e, mr_entries r !! agent = Some e → entry_busy e = None) →
  (mr_next_operation_id r + 1 < 2 ^ 64)%Z →
  (∀ lease a, event_outcome lease (c, ReplyAttach a) = None) →
  ∃ chans', step_ok r chans (c, ReplyAttach (start_attach agent r).1) (start_attach agent r).2 chans'.
Proof.
  intros Hr Hst Hidle Hlt Hev. unfold start_attach. cbn.
  destruct (watch_channel Pending (mr_channels r)) as [ch h'] eqn:Hw. cbn.
  assert (borrow ch (mr_channels r) = None) as Hfresh
    by (pose proof (watch_channel_fresh Pending (mr_channels r)) as Hf; by rewrite Hw in Hf).
  assert (∀ c, borrow c h' = if decide (c = ch) then Some Pending else borrow c (mr_channels r)) as Hbor
    by (intros c'; pose proof (borrow_channel Pending (mr_channels r) c') as Hb; by rewrite Hw in Hb).
  assert (∀ op c, chans !! op = Some c → borrow c h' = borrow c (mr_channels r)) as Hold.
  { intros op c' Hc%(core_live _ _ _ _ Hr). rewrite Hbor, decide_False; [done|].
    intros ->. rewrite Hfresh in Hc. by destruct Hc. }
  destruct (core_open r chans agent EntryAttaching ch h') as (Hr' & Hsub & Hnext);
    [try done..|]; [by rewrite Hbor, decide_True|].
  eexists. split; [exact Hr'|exact Hsub| |done| | | |].
  - simpl in *. lia.
  - intros w [= <-]. simpl. by rewrite lookup_insert, decide_True.
  - cbn [snd]. intros lease [= <-]. split_and!; [done..|]. unfold attaching. simpl.
    by rewrite lookup_insert, decide_True.
  - intros op c' o Hc Ho. change (borrow c' h' = Some (Terminal o)). by rewrite (Hold _ _ Hc).
  - intros lease Ha. rewrite Hev. unfold attaching in *. simpl. rewrite lookup_insert_ne; [done|].
    intros Heq. rewrite <-Heq in Ha. by apply Hidle in Ha.
Qed.

(** A successful commit, or the end of a removal *)
Lemma step_settle r chans agent e0 op ch oe es o (e : RegistryCall * Reply) :
  core r chans → mr_entries r !! agent = Some e0 → entry_busy e0 = Some (op, ch) →
  (∀ e', oe = Some e' →
    entry_busy e' = None ∧ (entry_op e' = None ∨ entry_op e' = Some (op, ch))) →
  (∀ a, es !! a = if decide (a = agent) then oe else mr_entries r !! a) →
  e.2 = ReplyBool true →
  (∀ lease, attaching r lease →
    event_outcome lease e = if decide (al_agent_id lease = agent) then Some o else None) →
  ∃ chans', step_ok r chans e (send ch o (set_entries r es)) chans'.
Proof.
  intros Hr He Hb Hoe Hes He2 Hev. exists chans.
  destruct (core_settle r chans agent e0 op ch oe es o Hr He Hb Hoe Hes) as [Hr' Hbor].
  destruct (busy_lookup _ _ _ _ _ _ Hr He Hb) as [Hch Hp].
  split; [done|done|simpl; lia|done|by rewrite He2|by rewrite He2| |].
  - intros op' c' o' Hc' Ho'. rewrite (Hbor _ _ Hc'). case_decide; [|done].
    subst op'. congruence.
  - intros lease Ha. rewrite (Hev _ Ha). case_decide as Hag.
    + destruct (attaching_channel _ _ _ Hr Ha) as [Hc _]. rewrite (Hbor _ _ Hc).
      rewrite decide_True; [done|]. unfold attaching in Ha. rewrite Hag in Ha.
      rewrite He in Ha. injection Ha as ->. by injection Hb as -> _.
    + unfold attaching. simpl. by rewrite Hes, decide_False.
Qed.
Lemma attaching_ne r lease r' agent :
  attaching r lease → al_agent_id lease ≠ agent →
  (∀ a, a ≠ agent → mr_entries r' !! a = mr_entries r !! a) → attaching r' lease.
Proof. intros Ha Hne Hs. unfold attaching. by rewrite Hs. Qed.

(** The channel a call creates, as the others see it *)
Lemma new_channel r chans ch h' :
  core r chans → watch_channel Pending (mr_channels r) = (ch, h') →
  borrow ch (mr_channels r) = None ∧ borrow ch h' = Some Pending ∧
  ∀ op c, chans !! op = Some c → c ≠ ch ∧ borrow c h' = borrow c (mr_channels r).
Proof.
  intros Hr Hw. pose proof (watch_channel_fresh Pending (mr_channels r)) as Hf.
  pose proof (borrow_channel Pending (mr_channels r)) as Hb. rewrite Hw in Hf, Hb. simpl in Hf, Hb.
  split_and!; [done|by rewrite Hb, decide_True|]. intros op c Hc.
  assert (c ≠ ch) by (intros ->; apply (core_live _ _ _ _ Hr) in Hc; rewrite Hf in Hc; by destruct Hc).
  by rewrite Hb, decide_False.
Qed.

(** The removal replaces the entry; the waiters of a cancelled attach are told. *)
Definition removing r agent ch h : MemberRuntimeRegistry :=
  MkRegistry (mr_session_generation r) ((mr_next_operation_id r + 1) mod 2 ^ 64)
    (<[agent := EntryRemoving (mr_next_operation_id r) ch]> (mr_entries r)) (mr_stopped r) h.

Lemma removing_cancelled r chans agent e0 op0 c0 ch h' :
  core r chans → mr_stopped r = false → (mr_next_operation_id r + 1 < 2 ^ 64)%Z →
  mr_entries r !! agent = Some e0 → entry_busy e0 = Some (op0, c0) →
  watch_channel Pending (mr_channels r) = (ch, h') →
  let h := send_replace c0 (Terminal OutcomeRemoved) h' in
  let chans' := <[mr_next_operation_id r := ch]> chans in
  core (removing r agent ch h) chans' ∧ chans ⊆ chans' ∧
  mr_next_operation_id (removing r agent ch h) = (mr_next_operation_id r + 1)%Z ∧
  ∀ op c, chans !! op = Some c →
    borrow c h = if decide (op = op0) then Some (Terminal OutcomeRemoved) else borrow c (mr_channels r).
Proof.
  intros Hr Hst Hlt He Hb Hw h chans'. destruct (new_channel _ _ _ _ Hr Hw) as (Hfresh & Hpend & Hold).
  destruct (busy_lookup _ _ _ _ _ _ Hr He Hb) as [Hc0 _]. destruct (Hold _ _ Hc0) as [Hc0n Hc0b].
  pose proof (core_live _ _ _ _ Hr Hc0) as Hlive0.
  assert (is_Some (borrow c0 h')) as Hlive by (by rewrite Hc0b).
  set (r1 := send c0 OutcomeRemoved (set_entries r (delete agent (mr_entries r)))).
  destruct (core_settle r chans agent e0 op0 c0 None (delete agent (mr_entries r)) OutcomeRemoved)
    as [Hr1 Hb1]; [done..|intros a; rewrite lookup_delete; by repeat case_decide|].
  assert (∀ op c, chans !! op = Some c → borrow c h = borrow c (mr_channels r1)) as Hh.
  { intros op c Hc. simpl. unfold h. rewrite !borrow_send by done. case_decide; [done|]. by eapply Hold. }
  destruct (core_open r1 chans agent EntryRemoving ch h) as (Hr' & Hsub & Hnext);
    [done|done| |done|done| | |done|].
  - intros e. simpl. by rewrite lookup_delete_eq.
  - simpl. rewrite borrow_send, decide_False; [done|by apply not_eq_sym|done].
  - unfold h. rewrite borrow_send, decide_False; [done|by apply not_eq_sym|done].
  - unfold removing. simpl in Hr', Hnext. rewrite insert_delete_eq in Hr'. split_and!; [done..|].
    intros op c Hc. rewrite (Hh _ _ Hc). by apply Hb1.
Qed.

Lemma step_start_remove r chans agent e0 :
  core r chans → mr_stopped r = false → (mr_next_operation_id r + 1 < 2 ^ 64)%Z →
  mr_entries r !! agent = Some e0 → (∀ op c, e0 ≠ EntryRemoving op c) →
  let step := start_remove agent (snd <$> entry_busy e0) r in
  ∃ chans', step_ok r chans (Remove agent, ReplyRemove step.1) step.2 chans'.
Proof.
  intros Hr Hst Hlt He Hnr. unfold start_remove, set_entries, set_channels. cbn.
  destruct (watch_channel Pending (mr_channels r)) as [ch h'] eqn:Hw.
  destruct (new_channel _ _ _ _ Hr Hw) as (Hfresh & Hpend & Hold).
  unfold send, set_channels. cbn. rewrite insert_delete_eq.
  assert (∀ h a, a ≠ agent → mr_entries (removing r agent ch h) !! a = mr_entries r !! a) as Hm
    by (intros h a Ha; cbn; by rewrite lookup_insert_ne).
  destruct (entry_busy e0) as [[op0 c0]|] eqn:Hb; cbn.
  - destruct (removing_cancelled r chans agent e0 op0 c0 ch h') as (Hcore & Hsub & Hnext & Hbor); [done..|].
    destruct (busy_lookup _ _ _ _ _ _ Hr He Hb) as [Hc0 Hp0].
    eexists. split; [exact Hcore|exact Hsub|cbn in *; lia|done|done|done| |].
    + intros op c o Hc Ho. cbn. rewrite (Hbor _ _ Hc). case_decide; [|done]. subst op. congruence.
    + intros lease Ha. cbn [event_outcome]. destruct (attaching_channel _ _ _ Hr Ha) as [Hc _].
      destruct (String.eqb_spec agent (al_agent_id lease)) as [Hag|Hag].
      * cbn [mr_channels]. rewrite (Hbor _ _ Hc), decide_True; [done|].
        unfold attaching in Ha. rewrite <-Hag, He in Ha. injection Ha as ->. by injection Hb as <- _.
      * apply (attaching_ne r _ _ agent); [done|by apply not_eq_sym|by apply Hm].
  - destruct (core_open r chans agent EntryRemoving ch h') as (Hcore & Hsub & Hnext);
      [done|done|intros e; rewrite He; by intros [= <-]|done|done|done|done
      |intros op c Hc; by destruct (Hold _ _ Hc)|].
    eexists. split; [exact Hcore|exact Hsub|cbn in *; lia|done|done|done| |].
    + intros op c o Hc Ho. cbn. by destruct (Hold _ _ Hc) as [_ ->].
    + intros lease Ha. cbn [event_outcome].
      destruct (String.eqb_spec agent (al_agent_id lease)) as [Hag|Hag].
      * unfold attaching in Ha. rewrite <-Hag, He in Ha. injection Ha as ->. done.
      * apply (attaching_ne r _ _ agent); [done|by apply not_eq_sym|by apply Hm].
Qed.
Lemma same_attach_lease r l lease ch :
  attaching r lease → mr_entries r !! al_agent_id l = Some (EntryAttaching (al_operation_id l) ch) →
  same_attach l lease = bool_decide (al_agent_id lease = al_agent_id l).
Proof.
  intros Ha Hl. unfold same_attach. case_bool_decide as Hag.
  - unfold attaching in Ha. rewrite Hag, Hl in Ha. injection Ha as -> _.
    by rewrite Hag, String.eqb_refl, Z.eqb_refl.
  - destruct (String.eqb_spec (al_agent_id l) (al_agent_id lease)); [by destruct Hag|done].
Qed.

(** The entries of a settled operation are updated at one agent. *)
Lemma insert_as_update r agent e a :
  <[agent := e]> (mr_entries r) !! a = if decide (a = agent) then Some e else mr_entries r !! a.
Proof. rewrite lookup_insert. repeat case_decide; congruence. Qed.

Lemma delete_as_update r agent a :
  delete agent (mr_entries r) !! a = if decide (a = agent) then None else mr_entries r !! a.
Proof. rewrite lookup_delete. repeat case_decide; congruence. Qed.

Ltac entry_waiter Hr He :=
  intros w; simpl; let Hw := fresh in intros Hw; simplify_eq/=;
  eapply (core_entry _ _ Hr); [exact He|reflexivity].

Lemma commit_ok r chans (c : RegistryCall) lease (e' : watch_chan → MemberRuntimeEntry) o :
  core r chans →
  (c = CommitReady lease ∧ e' = (λ _, EntryReady) ∧ o = OutcomeReady) ∨
  (∃ f, c = CommitFailed lease f ∧
        e' = (λ ch, EntryFailed (al_operation_id lease) f ch) ∧ o = OutcomeFailed f) →
  let commit r :=
    if negb (String.eqb (al_session_generation lease) (mr_session_generation r)) then (false, r) else
    if mr_stopped r then (false, r) else
    match mr_entries r !! al_agent_id lease with
    | Some (EntryAttaching current_operation_id outcome_tx) =>
        if negb (current_operation_id =? al_operation_id lease)%Z then (false, r) else
        let r := set_entries r (<[al_agent_id lease := e' outcome_tx]> (mr_entries r)) in
        (true, send outcome_tx o r)
    | _ => (false, r)
    end in
  ∃ chans', step_ok r chans (c, ReplyBool (commit r).1) (commit r).2 chans'.
Proof.
  intros Hr Hc commit. unfold commit.
  assert (∃ chans', step_ok r chans (c, ReplyBool false) r chans') as Hnoop.
  { apply step_noop; try done. intros l. by destruct Hc as [(-> & _)|(f & -> & _)]. }
  destruct (String.eqb_spec (al_session_generation lease) (mr_session_generation r)); [cbn [negb]|done].
  destruct (mr_stopped r) eqn:Hst; [done|].
  destruct (mr_entries r !! al_agent_id lease) as [[op ch| | |]|] eqn:He; try done.
  destruct (Z.eqb_spec op (al_operation_id lease)) as [->|]; [cbn [negb fst snd]|done].
  eapply (step_settle _ _ (al_agent_id lease) _ _ ch (Some (e' ch))); [done|done|done| | |done|].
  - intros ? [= <-]. destruct Hc as [(_ & -> & _)|(f & _ & -> & _)]; simpl; eauto.
  - intros a. apply insert_as_update.
  - intros l Ha. pose proof (same_attach_lease _ _ _ _ Ha He) as Hs.
    destruct Hc as [(-> & _ & ->)|(f & -> & _ & ->)]; cbn [event_outcome]; rewrite Hs;
      case_bool_decide; by case_decide.
Qed.

Lemma removal_ok r chans (c : RegistryCall) lease (oe : watch_chan → option MemberRuntimeEntry) o :
  core r chans →
  (c = FinishRemove lease ∧ oe = (λ _, None) ∧ o = OutcomeRemoved) ∨
  (∃ f, c = RestoreAttach lease f ∧
        oe = (λ ch, Some (EntryFailed (rl_operation_id lease) f ch)) ∧ o = OutcomeFailed f) →
  let finish r :=
    if negb (String.eqb (rl_session_generation lease) (mr_session_generation r)) then (false, r) else
    if mr_stopped r then (false, r) else
    match mr_entries r !! rl_agent_id lease with
    | Some (EntryRemoving current_operation_id outcome_tx) =>
        if negb (current_operation_id =? rl_operation_id lease)%Z then (false, r) else
        let r := set_entries r (match oe outcome_tx with
                                | Some e => <[rl_agent_id lease := e]> (mr_entries r)
                                | None => delete (rl_agent_id lease) (mr_entries r)
                                end) in
        (true, send outcome_tx o r)
    | _ => (false, r)
    end in
  ∃ chans', step_ok r chans (c, ReplyBool (finish r).1) (finish r).2 chans'.
Proof.
  intros Hr Hc finish. unfold finish.
  assert (∀ b l, event_outcome l (c, ReplyBool b) = None) as Hev
    by (intros b l; by destruct Hc as [(-> & _)|(f & -> & _)]).
  assert (∃ chans', step_ok r chans (c, ReplyBool false) r chans') as Hnoop by (by apply step_noop).
  destruct (String.eqb_spec (rl_session_generation lease) (mr_session_generation r)); [cbn [negb]|done].
  destruct (mr_stopped r) eqn:Hst; [done|].
  destruct (mr_entries r !! rl_agent_id lease) as [[| | |op ch]|] eqn:He; try done.
  destruct (Z.eqb_spec op (rl_operation_id lease)) as [->|]; [cbn [negb fst snd]|done].
  eapply (step_settle _ _ (rl_agent_id lease) _ _ ch (oe ch)); [done|done|done| | |done|].
  - intros e1 He'. destruct Hc as [(_ & -> & _)|(f & _ & -> & _)]; simplify_eq/=; eauto.
  - intros a. destruct (oe ch); [apply insert_as_update|apply delete_as_update].
  - intros l Ha. rewrite Hev, decide_False; [done|]. intros Hag. unfold attaching in Ha. congruence.
Qed.
Lemma reserve_ok r chans agent retry :
  core r chans → (mr_next_operation_id r + 1 < 2 ^ 64)%Z →
  ∃ chans', step_ok r chans (Reserve agent retry, ReplyAttach (reserve_attach agent retry r).1)
              (reserve_attach agent retry r).2 chans'.
Proof.
  intros Hr Hlt. unfold reserve_attach. destruct (mr_stopped r) eqn:Hst; [by apply step_noop|].
  destruct (mr_entries r !! agent) as [[op ch| |op f ch|op ch]|] eqn:He.
  - apply step_noop; try done. entry_waiter Hr He.
  - by apply step_noop.
  - destruct retry; cbn [negb].
    + apply step_start_attach; try done. intros e. rewrite He. by intros [= <-].
    + apply step_noop; try done. entry_waiter Hr He.
  - apply step_noop; try done. entry_waiter Hr He.
  - apply step_start_attach; try done. intros e. by rewrite He.
Qed.

Lemma repair_ok r chans agent :
  core r chans → (mr_next_operation_id r + 1 < 2 ^ 64)%Z →
  ∃ chans', step_ok r chans (Repair agent, ReplyAttach (reserve_repair agent r).1)
              (reserve_repair agent r).2 chans'.
Proof.
  intros Hr Hlt. unfold reserve_repair. destruct (mr_stopped r) eqn:Hst; [by apply step_noop|].
  destruct (mr_entries r !! agent) as [[op ch| |op f ch|op ch]|] eqn:He.
  - apply step_noop; try done. entry_waiter Hr He.
  - apply step_start_attach; try done. intros e. rewrite He. by intros [= <-].
  - apply step_noop; try done. entry_waiter Hr He.
  - apply step_noop; try done. entry_waiter Hr He.
  - apply step_start_attach; try done. intros e. by rewrite He.
Qed.

Lemma begin_remove_ok r chans agent :
  core r chans → (mr_next_operation_id r + 1 < 2 ^ 64)%Z →
  ∃ chans', step_ok r chans (Remove agent, ReplyRemove (begin_remove agent r).1)
              (begin_remove agent r).2 chans'.
Proof.
  intros Hr Hlt. unfold begin_remove. destruct (mr_stopped r) eqn:Hst; [by apply step_noop|].
  destruct (mr_entries r !! agent) as [[op ch| |op f ch|op ch]|] eqn:He.
  1-3: by apply (step_start_remove _ _ _ _ Hr Hst Hlt He).
  - apply step_noop; try done. entry_waiter Hr He.
  - by apply step_noop.
Qed.

Lemma seed_ok r chans agent :
  core r chans → ∃ chans', step_ok r chans (SeedReady agent, ReplyBool (seed_ready agent r).1)
                             (seed_ready agent r).2 chans'.
Proof.
  intros Hr. unfold seed_ready. destruct (mr_stopped r) eqn:Hst; [by apply step_noop|].
  destruct (mr_entries r !! agent) as [[| | |]|] eqn:He; try by apply step_noop.
  exists chans. split; try done; [|simpl; lia|].
  - apply core_ready; [done..|]. intros e. by rewrite He.
  - intros lease Ha. apply (attaching_ne r _ _ agent); [done| |].
    + intros Hag. unfold attaching in Ha. congruence.
    + intros a Hne. simpl. by rewrite lookup_insert_ne.
Qed.

Lemma stop_ok r chans :
  core r chans → ∃ chans', step_ok r chans (Stop, ReplyBool (registry_stop r).1) (registry_stop r).2 chans'.
Proof.
  intros Hr. destruct (mr_stopped r) eqn:Hst.
  { unfold registry_stop. rewrite Hst. by apply step_noop. }
  destruct (core_stop r chans Hr Hst) as (Hr' & Hg & Hn & _ & Hsig). exists chans.
  split; [done|done|lia|done|done|done| |].
  - intros op c o Hc Ho. by rewrite (Hsig _ _ _ Hc Ho).
  - intros lease Ha. destruct (attaching_channel _ _ _ Hr Ha) as [Hc Hp].
    assert ((registry_stop r).1 = true) as -> by (unfold registry_stop; by rewrite Hst).
    cbn [event_outcome]. by rewrite (Hsig _ _ _ Hc Hp).
Qed.

Lemma exec_ok r chans (c : RegistryCall) :
  core r chans → (mr_next_operation_id r + 1 < 2 ^ 64)%Z →
  ∃ chans', step_ok r chans (c, (registry_exec c r).1) (registry_exec c r).2 chans'.
Proof.
  intros Hr Hlt. destruct c; cbn [registry_exec];
    match goal with |- context [let '(_, _) := ?step in _] => rewrite (surjective_pairing step) end;
    cbn [fst snd].
  - by apply seed_ok.
  - by apply reserve_ok.
  - by apply repair_ok.
  - eapply (commit_ok _ _ _ lease (λ _, EntryReady)); eauto.
  - eapply (commit_ok _ _ _ lease (λ ch, EntryFailed (al_operation_id lease) failure ch)); eauto 6.
  - by apply begin_remove_ok.
  - eapply (removal_ok _ _ _ lease (λ _, None)); eauto.
  - eapply (removal_ok _ _ _ lease (λ ch, Some (EntryFailed (rl_operation_id lease) failure ch))); eauto 6.
  - by apply stop_ok.
Qed.
(** ** Traces *)

(** Fewer calls than operation ids: the counter does not wrap around. *)
Definition short (tr : Trace) : Prop := (Z.of_nat (length tr) < 2 ^ 64 - 1)%Z.

Lemma short_cons ev tr : short (ev :: tr) → short tr.
Proof. unfold short. simpl. lia. Qed.

Lemma short_app post tr : short (post ++ tr) → short tr.
Proof. unfold short. rewrite length_app. lia. Qed.

Lemma exec_commit (c : RegistryCall) r lease :
  commits_attach lease (c, (registry_exec c r).1) = true →
  ∃ ch, mr_entries r !! al_agent_id lease = Some (EntryAttaching (al_operation_id lease) ch).
Proof.
  assert (∀ l, same_attach l lease = true →
    al_agent_id l = al_agent_id lease ∧ al_operation_id l = al_operation_id lease) as Hs.
  { intros l [Ha%String.eqb_eq Ho%Z.eqb_eq]%andb_true_iff. done. }
  destruct c as [| | |l|l f| | | |]; try done; cbn [registry_exec]; unfold commit_ready, commit_failed;
    (destruct (negb _); [done|]); (destruct (mr_stopped r); [done|]);
    (destruct (mr_entries r !! al_agent_id l) as [[op ch| | |]|] eqn:He; try done);
    (destruct (Z.eqb_spec op (al_operation_id l)); [|done]);
    intros [Ha Ho]%Hs; exists ch; congruence.
Qed.

(** What is known after a trace *)
Record trace_ok (tr : Trace) r chans : Prop := {
  to_core : core r chans;
  to_next : (mr_next_operation_id r ≤ 1 + Z.of_nat (length tr))%Z;
  to_waiter w : waiter_of tr w → chans !! aw_operation_id w = Some (aw_outcome_rx w);
  to_issued lease : attach_issued tr lease →
    (al_operation_id lease < mr_next_operation_id r)%Z ∧
    al_session_generation lease = mr_session_generation r;
  to_unique l1 l2 : attach_issued tr l1 → attach_issued tr l2 →
    al_operation_id l1 = al_operation_id l2 → l1 = l2;
  to_commits lease ev : ev ∈ tr → commits_attach lease ev = true →
    (al_operation_id lease < mr_next_operation_id r)%Z;
}.

Lemma attach_issued_cons ev tr lease :
  attach_issued (ev :: tr) lease ↔ ev.2 = ReplyAttach (AttachStart lease) ∨ attach_issued tr lease.
Proof.
  unfold attach_issued. setoid_rewrite elem_of_cons. split.
  - intros (c & [<-|Hin]); eauto.
  - intros [Hev|(c & Hin)]; [|eauto]. exists ev.1. left. by rewrite <-Hev, <-surjective_pairing.
Qed.

Lemma trace_step_ok tr r chans (c : RegistryCall) r' chans' :
  trace_ok tr r chans → r' = (registry_exec c r).2 → step_ok r chans (c, (registry_exec c r).1) r' chans' →
  trace_ok ((c, (registry_exec c r).1) :: tr) r' chans'.
Proof.
  intros Ht Hr' Hs. pose proof (so_next _ _ _ _ _ Hs). split; cbn [length].
  - apply Hs.
  - pose proof (to_next _ _ _ Ht). lia.
  - intros w (c' & reply & [Heq|Hin]%elem_of_cons & Hw).
    + injection Heq as -> ->. by apply (so_waiter _ _ _ _ _ Hs).
    + eapply lookup_weaken; [|apply Hs]. apply (to_waiter _ _ _ Ht). unfold waiter_of. eauto.
  - intros lease [Hl|Hl]%attach_issued_cons.
    + destruct (so_start _ _ _ _ _ Hs _ Hl) as (-> & Hg & Ha). split; [|done].
      pose proof (core_entry _ _ (so_core _ _ _ _ _ Hs) _ _ _ _ Ha eq_refl) as Hc.
      apply (core_dom _ _ (so_core _ _ _ _ _ Hs)) in Hc.
      destruct (so_start _ _ _ _ _ Hs _ Hl) as (Heq & _). lia.
    + destruct (to_issued _ _ _ Ht _ Hl). rewrite (so_gen _ _ _ _ _ Hs). split; [lia|done].
  - intros l1 l2 [Hi1|Hi1]%attach_issued_cons [Hi2|Hi2]%attach_issued_cons Heq.
    + congruence.
    + destruct (so_start _ _ _ _ _ Hs _ Hi1) as (? & _), (to_issued _ _ _ Ht _ Hi2). lia.
    + destruct (so_start _ _ _ _ _ Hs _ Hi2) as (? & _), (to_issued _ _ _ Ht _ Hi1). lia.
    + by apply (to_unique _ _ _ Ht).
  - intros lease ev [->|Hin]%elem_of_cons Hev.
    + apply exec_commit in Hev as [ch He].
      pose proof (core_entry _ _ (to_core _ _ _ Ht) _ _ _ _ He eq_refl) as Hc.
      apply (core_dom _ _ (to_core _ _ _ Ht)) in Hc. lia.
    + pose proof (to_commits _ _ _ Ht _ _ Hin Hev). lia.
Qed.

Lemma trace_ok_of tr r : trace tr r → short tr → ∃ chans, trace_ok tr r chans.
Proof.
  induction 1 as [gen|tr r c Ht IH]; intros Hsh.
  - exists ∅. split; [apply core_new|done|..].
    + intros w (c & reply & Hin & _). by apply elem_of_nil in Hin.
    + intros lease [c Hin]. by apply elem_of_nil in Hin.
    + intros l1 l2 [c Hin]. by apply elem_of_nil in Hin.
    + intros lease ev Hin. by apply elem_of_nil in Hin.
  - destruct (IH (short_cons _ _ Hsh)) as [chans Hok].
    destruct (exec_ok r chans c (to_core _ _ _ Hok)) as [chans' Hs].
    { pose proof (to_next _ _ _ Hok). unfold short in Hsh. simpl in Hsh. lia. }
    exists chans'. by eapply trace_step_ok.
Qed.

(** From one moment of a trace to the next *)
Lemma trace_cons_inv ev tr r' :
  trace (ev :: tr) r' → short (ev :: tr) →
  ∃ r chans chans', trace tr r ∧ trace_ok tr r chans ∧ r' = (registry_exec ev.1 r).2 ∧
    ev.2 = (registry_exec ev.1 r).1 ∧ step_ok r chans ev r' chans' ∧ trace_ok (ev :: tr) r' chans'.
Proof.
  intros Ht Hsh. inversion Ht as [|tr0 r c Ht0]; subst.
  destruct (trace_ok_of _ _ Ht0 (short_cons _ _ Hsh)) as [chans Hok].
  destruct (exec_ok r chans c (to_core _ _ _ Hok)) as [chans' Hs].
  { pose proof (to_next _ _ _ Hok). unfold short in Hsh. simpl in Hsh. lia. }
  exists r, chans, chans'. split_and!; try done. by eapply trace_step_ok.
Qed.
Lemma lease_follows post (c : RegistryCall) lease pre r :
  trace (post ++ (c, ReplyAttach (AttachStart lease)) :: pre) r →
  short (post ++ (c, ReplyAttach (AttachStart lease)) :: pre) →
  match first_outcome lease post with
  | Some o => borrow (aw_outcome_rx (al_waiter lease)) (mr_channels r) = Some (Terminal o)
  | None => attaching r lease
  end.
Proof.
  revert r. induction post as [|ev post IH]; intros r Ht Hsh;
    destruct (trace_cons_inv _ _ _ Ht Hsh) as (r0 & chans & chans' & Ht0 & Hok0 & _ & _ & Hs & Hok).
  - simpl. by apply (so_start _ _ _ _ _ Hs).
  - specialize (IH r0 Ht0 (short_cons _ _ Hsh)). cbn [first_outcome].
    destruct (first_outcome lease post) as [o|]; [|by apply (so_outcome _ _ _ _ _ Hs)].
    eapply (so_final _ _ _ _ _ Hs); [|exact IH]. apply (to_waiter _ _ _ Hok0).
    eexists _, _. split; [apply elem_of_app; right; left|]. done.
Qed.

Lemma owns_attaching r chans lease :
  core r chans → chans !! al_operation_id lease = Some (aw_outcome_rx (al_waiter lease)) →
  al_session_generation lease = mr_session_generation r →
  owns_attach lease r = true ↔ attaching r lease.
Proof.
  intros Hr Hc Hg. unfold owns_attach, attaching. rewrite Hg, String.eqb_refl. cbn [negb orb].
  destruct (mr_stopped r) eqn:Hst.
  { rewrite (core_stopped _ _ Hr Hst), lookup_empty. done. }
  destruct (mr_entries r !! al_agent_id lease) as [[op ch| | |]|] eqn:He; try done.
  rewrite Z.eqb_eq. split; [intros ->|congruence].
  pose proof (core_entry _ _ Hr _ _ _ _ He eq_refl). congruence.
Qed.

Lemma issued_channel tr r chans lease :
  trace_ok tr r chans → attach_issued tr lease →
  chans !! al_operation_id lease = Some (aw_outcome_rx (al_waiter lease)) ∧
  al_session_generation lease = mr_session_generation r.
Proof.
  intros Hok [c Hin]. split; [|apply (to_issued _ _ _ Hok); by exists c].
  apply (to_waiter _ _ _ Hok). by eexists _, _.
Qed.

(** A waiter blocks exactly while its operation is in progress, and then a sender
    of its channel is alive. *)
Lemma wait_poll_spec r chans w :
  core r chans → chans !! aw_operation_id w = Some (aw_outcome_rx w) →
  (∀ o, borrow (aw_outcome_rx w) (mr_channels r) = Some (Terminal o) → wait_poll w r = Some o) ∧
  (borrow (aw_outcome_rx w) (mr_channels r) = Some Pending →
   sender_alive (aw_outcome_rx w) r = true ∧ wait_poll w r = None).
Proof.
  intros Hr Hc. unfold wait_poll. split; [by intros o ->|]. intros Hp. rewrite Hp.
  assert (sender_alive (aw_outcome_rx w) r = true) as ->; [|done].
  destruct (core_signal _ _ Hr _ _ Hc) as (s & Hs & Hiff). rewrite Hp in Hs. injection Hs as <-.
  destruct Hiff as [Hip _]. destruct (Hip eq_refl) as (agent & e & c & He & Hb).
  destruct (busy_lookup _ _ _ _ _ _ Hr He Hb) as [Hc' _]. simplify_eq.
  apply existsb_exists. exists e. split.
  - apply list_elem_of_In, list_elem_of_fmap. exists (agent, e). by rewrite elem_of_map_to_list.
  - apply bool_decide_eq_true. by destruct e; simplify_eq/=.
Qed.

(** C32: what the waiters of an attach observe is decided by the calls made since the
    lease was issued: the first of a commit of this attach, a removal of the agent and
    the stop of the session gives the outcome, for good, whatever comes later (a retry,
    a commit that lost the race); until then the waiters block and the lease is owned,
    and only until then. *)
Theorem attach_outcome_spec post (c : RegistryCall) lease pre r :
  trace (post ++ (c, ReplyAttach (AttachStart lease)) :: pre) r →
  short (post ++ (c, ReplyAttach (AttachStart lease)) :: pre) →
  wait_poll (al_waiter lease) r = first_outcome lease post ∧
  owns_attach lease r = bool_decide (first_outcome lease post = None).
Proof.
  intros Ht Hsh. pose proof (lease_follows _ _ _ _ _ Ht Hsh) as Hl.
  destruct (trace_ok_of _ _ Ht Hsh) as [chans Hok].
  destruct (issued_channel _ _ _ lease Hok) as [Hc Hg].
  { exists c. apply elem_of_app. right. left. }
  destruct (wait_poll_spec r chans (al_waiter lease) (to_core _ _ _ Hok) Hc) as [Hterm Hpend].
  pose proof (owns_attaching _ _ _ (to_core _ _ _ Hok) Hc Hg) as Hown.
  destruct (first_outcome lease post) as [o|].
  - split; [by apply Hterm|]. rewrite bool_decide_false by done.
    apply not_true_iff_false. rewrite Hown. intros Ha.
    destruct (attaching_channel _ _ _ (to_core _ _ _ Hok) Ha). congruence.
  - destruct (attaching_channel _ _ _ (to_core _ _ _ Hok) Hl) as [_ Hp].
    split; [by apply Hpend|]. rewrite bool_decide_true by done. by apply Hown.
Qed.

(** Commits of an attach *)
Definition commits lease (tr : list (RegistryCall * Reply)) : nat :=
  length (filter (λ ev, commits_attach lease ev = true) tr).

Lemma commits_cons lease (ev : RegistryCall * Reply) tr :
  commits lease (ev :: tr) = (if commits_attach lease ev then 1 else 0) + commits lease tr.
Proof. unfold commits. rewrite filter_cons. by destruct (commits_attach lease ev). Qed.

Lemma commit_settles lease (ev : RegistryCall * Reply) :
  commits_attach lease ev = true → is_Some (event_outcome lease ev).
Proof. destruct ev as [[] [[]| |]]; simpl; try done; intros ->; eauto. Qed.

Lemma commits_before lease (c : RegistryCall) tr r :
  trace ((c, ReplyAttach (AttachStart lease)) :: tr) r →
  short ((c, ReplyAttach (AttachStart lease)) :: tr) → commits lease tr = 0.
Proof.
  intros Ht Hsh. destruct (trace_cons_inv _ _ _ Ht Hsh) as (r0 & chans & chans' & _ & Hok & _ & _ & Hs & _).
  destruct (so_start _ _ _ _ _ Hs lease eq_refl) as (Hop & _). unfold commits.
  destruct (filter _ tr) as [|ev l] eqn:Hf; [done|].
  assert (ev ∈ filter (λ ev, commits_attach lease ev = true) tr) as [Hc Hin]%list_elem_of_filter
    by (rewrite Hf; left).
  pose proof (to_commits _ _ _ Hok _ _ Hin Hc). lia.
Qed.

Lemma commits_count post (c : RegistryCall) lease pre r :
  trace (post ++ (c, ReplyAttach (AttachStart lease)) :: pre) r →
  short (post ++ (c, ReplyAttach (AttachStart lease)) :: pre) →
  commits lease (post ++ (c, ReplyAttach (AttachStart lease)) :: pre) ≤
    match first_outcome lease post with Some _ => 1 | None => 0 end.
Proof.
  revert r. induction post as [|ev post IH]; intros r Ht Hsh.
  - cbn [app first_outcome]. rewrite commits_cons, (commits_before _ _ _ _ Ht Hsh). destruct c; simpl; lia.
  - destruct (trace_cons_inv _ _ _ Ht Hsh) as (r0 & chans & chans' & Ht0 & Hok0 & _ & Hev & _).
    pose proof (short_cons _ _ Hsh) as Hsh0. specialize (IH r0 Ht0 Hsh0).
    pose proof (lease_follows _ _ _ _ _ Ht0 Hsh0) as Hl.
    cbn [app first_outcome]. rewrite commits_cons.
    destruct (commits_attach lease ev) eqn:Hc.
    + destruct (commit_settles _ _ Hc) as [o ->].
      rewrite (surjective_pairing ev), Hev in Hc. apply exec_commit in Hc as [ch He].
      destruct (first_outcome lease post) as [o'|]; [|simpl; lia].
      destruct (busy_lookup _ _ _ _ _ _ (to_core _ _ _ Hok0) He eq_refl) as [Hch Hp].
      destruct (issued_channel _ _ _ lease Hok0) as [Hc _];
        [exists c; apply elem_of_app; right; left|]. congruence.
    + destruct (first_outcome lease post); [lia|]. destruct (event_outcome lease ev); lia.
Qed.

(** An attach lease is exclusive.  A commit succeeds exactly when the lease is
    owned, whichever of the two commits it is; two leases of one agent that are both
    owned are the same lease; and of all the commits ever tried with a lease at most
    one succeeded, none while it is still owned. *)
Theorem attach_lease_exclusive tr r lease :
  trace tr r → short tr → attach_issued tr lease →
  (commit_ready lease r).1 = owns_attach lease r ∧
  (∀ failure, (commit_failed lease failure r).1 = owns_attach lease r) ∧
  (∀ lease', attach_issued tr lease' → al_agent_id lease' = al_agent_id lease →
    owns_attach lease r = true → owns_attach lease' r = true → lease' = lease) ∧
  commits lease tr ≤ if owns_attach lease r then 0 else 1.
Proof.
  intros Ht Hsh Hiss. destruct (trace_ok_of _ _ Ht Hsh) as [chans Hok].
  split_and!.
  1-2: intros; unfold commit_ready, commit_failed, owns_attach;
    destruct (String.eqb _ _), (mr_stopped r); cbn [negb orb]; try done;
    destruct (mr_entries r !! al_agent_id lease) as [[op ch| | |]|]; try done; by destruct (op =? _)%Z.
  - intros lease' Hiss' Hag. destruct (issued_channel _ _ _ _ Hok Hiss) as [Hc Hg].
    destruct (issued_channel _ _ _ _ Hok Hiss') as [Hc' Hg'].
    rewrite (owns_attaching _ _ _ (to_core _ _ _ Hok) Hc Hg),
      (owns_attaching _ _ _ (to_core _ _ _ Hok) Hc' Hg'). unfold attaching. rewrite Hag.
    intros -> [= ? ?]. by eapply (to_unique _ _ _ Hok).
  - destruct Hiss as [c Hin]. apply list_elem_of_split in Hin as (post & pre & ->).
    pose proof (commits_count _ _ _ _ _ Ht Hsh) as Hle.
    destruct (owns_attach lease r) eqn:Hown; [|by destruct (first_outcome lease post); lia].
    destruct (issued_channel _ _ _ lease Hok) as [Hc Hg]; [exists c; apply elem_of_app; right; left|].
    rewrite (owns_attaching _ _ _ (to_core _ _ _ Hok) Hc Hg) in Hown.
    pose proof (lease_follows _ _ _ _ _ Ht Hsh) as Hl.
    destruct (attaching_channel _ _ _ (to_core _ _ _ Hok) Hown).
    destruct (first_outcome lease post); [congruence|done].
Qed.

Lemma in_progress_snapshot r chans op :
  core r chans →
  in_progress r op ↔
    ∃ agent, registry_snapshot agent r = SnapAttaching op ∨ registry_snapshot agent r = SnapRemoving op.
Proof.
  intros Hr. unfold in_progress, registry_snapshot. destruct (mr_stopped r) eqn:Hst.
  { rewrite (core_stopped _ _ Hr Hst). split.
    - by intros (? & ? & ? & ?%lookup_empty_Some & _).
    - by intros (? & [?|?]). }
  split.
  - intros (agent & e & c & He & Hb). exists agent. rewrite He. destruct e; simplify_eq/=; eauto.
  - intros (agent & Hs). exists agent.
    destruct (mr_entries r !! agent) as [e|]; [|by destruct Hs]. exists e.
    destruct e as [op' c| |op' f c|op' c]; destruct Hs; simplify_eq; eauto.
Qed.

(** No waiter is forgotten.  Whoever holds a waiter the registry handed out blocks
    exactly while the snapshot of some agent shows its operation in progress, and then
    a sender of its channel is alive; once it has an outcome, the next call does not
    change it; after the stop nobody blocks. *)
Theorem waiters_resolved tr r w (c : RegistryCall) :
  trace tr r → short ((c, (registry_exec c r).1) :: tr) → waiter_of tr w →
  (wait_poll w r = None ↔ ∃ agent,
     registry_snapshot agent r = SnapAttaching (aw_operation_id w) ∨
     registry_snapshot agent r = SnapRemoving (aw_operation_id w)) ∧
  (wait_poll w r = None → sender_alive (aw_outcome_rx w) r = true) ∧
  (∀ o, wait_poll w r = Some o → wait_poll w (registry_exec c r).2 = Some o) ∧
  (mr_stopped r = true → is_Some (wait_poll w r)).
Proof.
  intros Ht Hsh Hw. pose proof (trace_call _ _ c Ht) as Ht'.
  destruct (trace_ok_of _ _ Ht (short_cons _ _ Hsh)) as [chans Hok].
  destruct (exec_ok r chans c (to_core _ _ _ Hok)) as [chans' Hs].
  { pose proof (to_next _ _ _ Hok). unfold short in Hsh. simpl in Hsh. lia. }
  pose proof (to_waiter _ _ _ Hok _ Hw) as Hc.
  pose proof (trace_step_ok _ _ _ _ _ _ Hok eq_refl Hs) as Hok'.
  destruct (wait_poll_spec _ _ _ (to_core _ _ _ Hok) Hc) as [Hterm Hpend].
  rewrite <-(in_progress_snapshot _ _ _ (to_core _ _ _ Hok)).
  destruct (core_signal _ _ (to_core _ _ _ Hok) _ _ Hc) as (s & Hsig & Hip).
  rewrite <-Hip. destruct s as [|o]; [destruct (Hpend Hsig) as [Halive ->]|rewrite (Hterm _ Hsig)].
  - split_and!; try done. intros Hst. exfalso. destruct Hip as [Hip _].
    destruct (Hip eq_refl) as (agent & e & ch & He & _).
    rewrite (core_stopped _ _ (to_core _ _ _ Hok) Hst) in He. by apply lookup_empty_Some in He.
  - split_and!; [done|done| |by eauto]. intros ? [= <-].
    apply (wait_poll_spec (registry_exec c r).2 chans' w); [apply Hs| |by eapply (so_final _ _ _ _ _ Hs)].
    by eapply lookup_weaken, Hs.
Qed.

End props.

(** ** A session *)

Section demo.
#[local] Existing Instance list_watch.
#[local] Existing Instance plain_order.

(** The calls made in order, the latest first in the result *)
Definition run_calls (calls : list RegistryCall) (r : MemberRuntimeRegistry) : Trace * MemberRuntimeRegistry :=
  foldl (λ '(tr, r) c, ((c, (registry_exec c r).1) :: tr, (registry_exec c r).2)) ([], r) calls.

Lemma run_calls_trace calls generation :
  trace (run_calls calls (registry_new generation)).1 (run_calls calls (registry_new generation)).2.
Proof.
  unfold run_calls. assert (trace [] (registry_new generation)) as Ht by constructor.
  revert Ht. generalize (registry_new generation) as r. generalize (@nil (RegistryCall * Reply)) as tr.
  induction calls as [|c calls IH]; intros tr r Ht; [done|]. cbn [foldl]. apply IH. by constructor.
Qed.

Definition demo_lease (op : Z) (ch : nat) : AttachLease := MkAttachLease "gen" "dev" (MkWaiter op ch).
Definition demo_failure : MemberRuntimeFailure := MkFailure "spawn" "agent did not start".

(** A failed attach, a retry, a removal that cancels it, a commit that comes too late *)
Definition demo_start : list RegistryCall :=
  [SeedReady "lead"; Reserve "dev" false; Reserve "dev" false;
   CommitFailed (demo_lease 1 0) demo_failure; CommitReady (demo_lease 1 0)].
Definition demo_end : list RegistryCall :=
  [Repair "lead"; Remove "dev"; CommitReady (demo_lease 2 1); Remove "dev";
   FinishRemove (MkRemoveLease "gen" "dev" 4); Stop].
Definition demo_trace : Trace :=
  (run_calls (demo_start ++ [Reserve "dev" true] ++ demo_end) (registry_new "gen")).1.
Definition demo_registry : MemberRuntimeRegistry :=
  (run_calls (demo_start ++ [Reserve "dev" true] ++ demo_end) (registry_new "gen")).2.

Lemma attach_outcome_spec_witness :
  let post := take 6 demo_trace in
  wait_poll (al_waiter (demo_lease 2 1)) demo_registry = Some OutcomeRemoved ∧
  first_outcome (demo_lease 2 1) post = Some OutcomeRemoved ∧
  wait_poll (al_waiter (demo_lease 2 1)) demo_registry = first_outcome (demo_lease 2 1) post ∧
  owns_attach (demo_lease 2 1) demo_registry = false.
Proof.
  intros post.
  assert (demo_trace = post ++ (Reserve "dev" true, ReplyAttach (AttachStart (demo_lease 2 1)))
    :: drop 7 demo_trace) as Htr by (vm_compute; reflexivity).
  destruct (attach_outcome_spec post (Reserve "dev" true) (demo_lease 2 1) (drop 7 demo_trace)
    demo_registry) as [Hw Ho].
  - rewrite <-Htr. apply (run_calls_trace (demo_start ++ [Reserve "dev" true] ++ demo_end)).
  - rewrite <-Htr. vm_compute. reflexivity.
  - split_and!; [vm_compute; reflexivity..|exact Hw|]. rewrite Ho. vm_compute. reflexivity.
Defined.

(** Right after the retry is reserved *)
Definition demo_retry : list RegistryCall := demo_start ++ [Reserve "dev" true; Reserve "dev" false].
Definition retry_trace : Trace := (run_calls demo_retry (registry_new "gen")).1.
Definition retry_registry : MemberRuntimeRegistry := (run_calls demo_retry (registry_new "gen")).2.

Lemma attach_lease_exclusive_witness :
  owns_attach (demo_lease 2 1) retry_registry = true ∧
  (commit_ready (demo_lease 2 1) retry_registry).1 = owns_attach (demo_lease 2 1) retry_registry ∧
  owns_attach (demo_lease 1 0) retry_registry = false ∧
  (commit_ready (demo_lease 1 0) retry_registry).1 = owns_attach (demo_lease 1 0) retry_registry ∧
  commits (demo_lease 1 0) retry_trace = 1.
Proof.
  split_and!; [vm_compute; reflexivity| |vm_compute; reflexivity| |vm_compute; reflexivity].
  - refine (proj1 (attach_lease_exclusive retry_trace retry_registry (demo_lease 2 1) _ _ _));
      [apply (run_calls_trace demo_retry)|vm_compute; reflexivity|].
    exists (Reserve "dev" true). apply (list_elem_of_lookup_2 _ 1). vm_compute. reflexivity.
  - refine (proj1 (attach_lease_exclusive retry_trace retry_registry (demo_lease 1 0) _ _ _));
      [apply (run_calls_trace demo_retry)|vm_compute; reflexivity|].
    exists (Reserve "dev" false). apply (list_elem_of_lookup_2 _ 5). vm_compute. reflexivity.
Defined.

Lemma waiters_resolved_witness :
  let w := MkWaiter 2 1 in
  wait_poll w retry_registry = None ∧ registry_snapshot "dev" retry_registry = SnapAttaching 2 ∧
  sender_alive 1 retry_registry = true ∧
  wait_poll w (registry_exec Stop retry_registry).2 = Some OutcomeSessionStopped.
Proof.
  intros w. assert (wait_poll w retry_registry = None) as Hw by (vm_compute; reflexivity).
  split_and!; [done|vm_compute; reflexivity| |vm_compute; reflexivity].
  apply (waiters_resolved retry_trace retry_registry w Stop);
    [apply (run_calls_trace demo_retry)|vm_compute; reflexivity| |exact Hw].
  exists (Reserve "dev" false), (ReplyAttach (AttachJoin w)). split; [|reflexivity].
  apply (list_elem_of_lookup_2 _ 0). vm_compute. reflexivity.
Defined.

End demo.
