(* ===== verification/PathSafety.v ===== *)
(** * Path checks of the file service

    Models [crates/aionui-file/src/path_safety.rs] and the checks that [FileService] of
    [service.rs] makes before it touches the file system.  Paths are the strings of a
    Unix system; [std::path] is modelled up to its equality of paths, which compares
    components.  [std::fs::canonicalize] is the file system: a parameter, with what its
    documentation promises as a hypothesis where it is needed. *)
From Stdlib Require Import Ascii String.
From S2P Require Import Prelude Text.

(** ** [std::path] *)

Inductive Component := RootDir | CurDir | ParentDir | Normal (name : string).

#[global] Instance Component_eq_dec : EqDecision Component.
Proof. solve_decision. Defined.

Definition is_absolute (path : string) : bool :=
  match path with String a _ => bool_decide (a = "/"%char) | EmptyString => false end.

(** One part between separators; empty ones and [.] are dropped. *)
Definition part_component (part : string) : option Component :=
  if String.eqb part "" || String.eqb part "." then None
  else if String.eqb part ".." then Some ParentDir
  else Some (Normal part).

(** [Path::components] *)
Definition components (path : string) : list Component :=
  let parts := split "/" path in
  (if is_absolute path then [RootDir]
   else match parts with part :: _ => if String.eqb part "." then [CurDir] else [] | [] => [] end)
  ++ omap part_component parts.

Definition component_string (c : Component) : string :=
  match c with RootDir => "/" | CurDir => "." | ParentDir => ".." | Normal name => name end.

(** A path with these components *)
Definition render (cs : list Component) : string :=
  match cs with
  | RootDir :: cs => "/" +:+ String.concat "/" (component_string <$> cs)
  | _ => String.concat "/" (component_string <$> cs)
  end.

(** [Path::parent] *)
Definition parent (path : string) : option string :=
  match last (components path) with
  | None | Some RootDir => None
  | Some _ => Some (render (removelast (components path)))
  end.

(** [Path::file_name] *)
Definition file_name (path : string) : option string :=
  match last (components path) with Some (Normal name) => Some name | _ => None end.

(** [Path::starts_with] *)
Definition path_starts_with (path base : string) : bool :=
  bool_decide (components base `prefix_of` components path).

Fixpoint ends_with_slash (s : string) : bool :=
  match s with
  | EmptyString => false
  | String a EmptyString => bool_decide (a = "/"%char)
  | String _ s => ends_with_slash s
  end.

(** [Path::join] *)
Definition join (base path : string) : string :=
  if is_absolute path then path
  else if String.eqb base "" || ends_with_slash base then base +:+ path
  else base +:+ "/" +:+ path.

(** ** [FileError], the variants that the checks raise *)

Inductive FileError :=
  | BadRequest (message : string)
  | PathOutsideSandbox (message : string) (field operation : option string).

#[global] Instance FileError_eq_dec : EqDecision FileError.
Proof. solve_decision. Defined.

Section file_system.
(** [Err] carries the text of the error. *)
Context (canonicalize : string → result string string).

(** ** [path_safety.rs] *)

(** The closure that tests one root, in both checks *)
Definition under_root (canonical root : string) : bool :=
  match canonicalize root with
  | Ok canonical_root => path_starts_with canonical canonical_root
  | Err _ => false
  end.

Definition outside_sandbox (path operation : string) : FileError :=
  PathOutsideSandbox ("path '" +:+ path +:+ "' is outside the allowed sandbox")
    (Some "path") (Some operation).

Definition validate_path (path : string) (allowed_roots : list string) : result string FileError :=
  match canonicalize path with
  | Err e => Err (BadRequest ("cannot resolve path '" +:+ path +:+ "': " +:+ e))
  | Ok canonical =>
      if existsb (under_root canonical) allowed_roots then Ok canonical
      else Err (outside_sandbox path "access")
  end.

Definition validate_path_with_extra_root (path : string) (base_roots : list string)
    (extra : option string) : result string FileError :=
  validate_path path (base_roots ++ option_list extra).

Definition validate_path_for_write (path : string) (allowed_roots : list string) :
    result string FileError :=
  match parent path with
  | None => Err (BadRequest ("path '" +:+ path +:+ "' has no parent directory"))
  | Some dir =>
      match file_name path with
      | None => Err (BadRequest ("path '" +:+ path +:+ "' has no file name component"))
      | Some name =>
          match canonicalize dir with
          | Err e => Err (BadRequest ("cannot resolve parent of '" +:+ path +:+ "': " +:+ e))
          | Ok canonical_parent =>
              if existsb (under_root canonical_parent) allowed_roots
              then Ok (join canonical_parent name)
              else Err (outside_sandbox path "write")
          end
      end
  end.

Fixpoint contains_nul (s : string) : bool :=
  match s with
  | EmptyString => false
  | String a s => bool_decide (a = "000"%char) || contains_nul s
  end.

Definition has_traversal (path : string) : bool :=
  contains_nul path || existsb (λ c, bool_decide (c = ParentDir)) (components path).

(** ** [FileService]: what is checked before each operation

    [allowed_roots] are the roots of the service. *)

Context (allowed_roots : list string) (current_dir : option string).

Definition traversal_error (path : string) : FileError :=
  BadRequest ("path '" +:+ path +:+ "' contains invalid traversal patterns").

Definition allowed_roots_with_extra (extra_root : option string) : list string :=
  allowed_roots ++ option_list extra_root.

Definition path_uses_allowed_root (path : string) (extra_root : option string) : bool :=
  let candidate := if is_absolute path then path
                   else match current_dir with Some dir => join dir path | None => path end in
  existsb (under_root candidate) (allowed_roots_with_extra extra_root).

Definition is_bad_request (e : FileError) : bool :=
  match e with BadRequest _ => true | PathOutsideSandbox _ _ _ => false end.

(** [read_file] and [read_file_buffer]: [Ok (Some p)] goes on to read [p], [Ok None] is a
    file that does not exist. *)
Definition check_read (path : string) (extra_root : option string) :
    result (option string) FileError :=
  if has_traversal path then Err (traversal_error path)
  else match validate_path_with_extra_root path allowed_roots extra_root with
  | Ok canonical => Ok (Some canonical)
  | Err e =>
      if is_bad_request e && is_ok (validate_path_for_write path (allowed_roots_with_extra extra_root))
      then Ok None
      else if is_bad_request e && path_uses_allowed_root path extra_root then Ok None
      else Err e
  end.

(** [write_file]: the path that is written *)
Definition check_write (path workspace : string) : result string FileError :=
  if has_traversal path then Err (traversal_error path)
  else validate_path_for_write path (allowed_roots_with_extra (Some workspace)).

(** [remove_entry]: the path that is removed *)
Definition check_remove (path workspace : string) : result string FileError :=
  if has_traversal path then Err (traversal_error path)
  else validate_path_with_extra_root path allowed_roots (Some workspace).

(** [rename_entry_with_extra_root], up to the test that the target is free:
    the old and the new path *)
Fixpoint contains_separator (s : string) : bool :=
  match s with
  | EmptyString => false
  | String a s => bool_decide (a = "/"%char) || bool_decide (a = "\"%char) || contains_separator s
  end.

Definition check_rename (path new_name : string) (extra_root : option string) :
    result (string * string) FileError :=
  if has_traversal path then Err (traversal_error path)
  else if contains_separator new_name
  then Err (BadRequest ("new name '" +:+ new_name +:+ "' must not contain path separators"))
  else
    canonical ←? validate_path_with_extra_root path allowed_roots extra_root;
    match parent canonical with
    | None => Err (BadRequest ("path '" +:+ canonical +:+ "' has no parent"))
    | Some dir => Ok (canonical, join dir new_name)
    end.

(** The checks of [create_zip_with_extra_roots]: the path of the archive *)
Fixpoint check_zip_sources (files : list string) (source_root : option string) : result unit FileError :=
  match files with
  | [] => Ok tt
  | file_path :: files =>
      let source_extra := match source_root with Some _ => source_root | None => parent file_path end in
      _ ←? validate_path_with_extra_root file_path (allowed_roots ++ option_list source_root) source_extra;
      check_zip_sources files source_root
  end.

Definition check_zip (path : string) (disk_entries : list string) (output_root source_root : option string) :
    result string FileError :=
  output ←? validate_path_for_write path (allowed_roots_with_extra output_root);
  _ ←? check_zip_sources disk_entries source_root;
  Ok output.
End file_system.
