(* ===== verification/PathSafetyProps.v ===== *)
(** * Path checks: properties

    What the checks let through lies below a root, as the components of the canonical
    paths tell; and what they do not see. *)
From Stdlib Require Import Ascii String.
From S2P Require Import Prelude Text PathSafety.

(** ** Components *)

(** What a component name of a path looks like *)
Definition valid_name (n : string) : Prop :=
  no_char "/" n = true ∧ n ≠ "" ∧ n ≠ "." ∧ n ≠ "..".

Lemma part_component_valid n : valid_name n → part_component n = Some (Normal n).
Proof.
  intros (_ & H1 & H2 & H3). unfold part_component.
  by rewrite (proj2 (String.eqb_neq n "")), (proj2 (String.eqb_neq n ".")), (proj2 (String.eqb_neq n "..")).
Qed.

Lemma part_component_normal part n :
  no_char "/" part = true → part_component part = Some (Normal n) → n = part ∧ valid_name n.
Proof.
  unfold part_component, valid_name. intros Hno.
  destruct (String.eqb_spec part ""); [done|]. destruct (String.eqb_spec part "."); [done|].
  destruct (String.eqb_spec part ".."); [done|]. by intros [= <-].
Qed.

Lemma component_names p n : Normal n ∈ components p → valid_name n.
Proof.
  unfold components. intros [Hin|Hin]%elem_of_app.
  - destruct (is_absolute p); [set_solver|]. destruct (split "/" p) as [|part l]; [set_solver|].
    destruct (String.eqb part "."); set_solver.
  - apply list_elem_of_omap in Hin as (part & Hpart%split_parts & Hn).
    by apply (part_component_normal part n Hpart).
Qed.

Lemma is_absolute_app s t : is_absolute s = true → is_absolute (s +:+ t) = true.
Proof. by destruct s. Qed.

Lemma ends_with_slash_app s : ends_with_slash s = true → ∃ t, s = t +:+ "/".
Proof.
  induction s as [|a s IH]; [done|]. destruct s as [|b s].
  - cbn. intros ->%bool_decide_eq_true. by exists "".
  - intros Hs. destruct (IH Hs) as (t & ->). by exists (String a t).
Qed.

Lemma ends_with_slash_split s : ends_with_slash s = true → ∃ l, split "/" s = l ++ [""].
Proof. intros (t & ->)%ends_with_slash_app. exists (split "/" t). apply split_app_sep. Qed.

Lemma components_absolute p : RootDir ∈ components p → is_absolute p = true.
Proof.
  unfold components. destruct (is_absolute p); [done|]. intros [Hin|Hin]%elem_of_app.
  - destruct (split "/" p) as [|part l]; [set_solver|]. destruct (String.eqb part "."); set_solver.
  - apply list_elem_of_omap in Hin as (x & _ & Hx). unfold part_component in Hx.
    destruct (String.eqb x "" || String.eqb x "."); [done|]. by destruct (String.eqb x "..").
Qed.

(** Joining a name adds one component. *)
Lemma components_join base n :
  is_absolute base = true → valid_name n → components (join base n) = components base ++ [Normal n].
Proof.
  intros Habs Hn. pose proof (part_component_valid _ Hn) as Hpart. destruct Hn as (Hno & Hne & _).
  assert (is_absolute n = false) as Hrel.
  { destruct n as [|a n]; [done|]. cbn in Hno |- *. apply andb_true_iff in Hno as [Ha _].
    apply bool_decide_eq_true in Ha. by apply bool_decide_eq_false. }
  unfold join. rewrite Hrel. assert (String.eqb base "" = false) as -> by (by destruct base).
  unfold components. cbn [orb]. destruct (ends_with_slash base) eqn:Hend.
  - rewrite (is_absolute_app _ n Habs), Habs.
    destruct (ends_with_slash_split _ Hend) as (l & Hl).
    destruct (split_app_no_char "/" base n Hno) as (l' & x & Hl' & ->). rewrite Hl in Hl'.
    apply app_inj_tail in Hl' as [<- <-]. rewrite Hl, string_app_nil, !omap_app. simpl. rewrite Hpart.
    by rewrite app_nil_r.
  - change ("/" +:+ n) with (String "/" n). rewrite (is_absolute_app _ _ Habs), Habs.
    rewrite split_app_sep, (split_no_char "/" n Hno), omap_app. simpl. by rewrite Hpart.
Qed.

Lemma split_concat n ns :
  (∀ m, m ∈ n :: ns → no_char "/" m = true) →
  split "/" (String.concat "/" (n :: ns)) = n :: ns.
Proof.
  revert n. induction ns as [|m ns IH]; intros n Hns; [apply split_no_char, Hns; set_solver|].
  change (String.concat "/" (n :: m :: ns)) with (n +:+ String "/" (String.concat "/" (m :: ns))).
  rewrite split_app by (apply Hns; set_solver). f_equal. apply IH. set_solver.
Qed.

(** An absolute path is read back from its components. *)
Lemma components_render ns :
  (∀ n, n ∈ ns → valid_name n) → components (render (RootDir :: (Normal <$> ns))) = RootDir :: (Normal <$> ns).
Proof.
  intros Hns. unfold render. change ("/" +:+ ?s) with (String "/" s).
  unfold components. cbn [is_absolute]. rewrite bool_decide_eq_true_2 by done. cbn [app]. f_equal.
  rewrite split_here. cbn [omap list_omap]. change (part_component "") with (@None Component). cbn iota.
  rewrite <-list_fmap_compose.
  assert (component_string ∘ Normal <$> ns = ns) as -> by (induction ns; [done|]; cbn; f_equal; auto; apply IHns; set_solver).
  destruct ns as [|n ns]; [done|]. rewrite split_concat by (intros m Hm; by apply Hns).
  clear -Hns. induction (n :: ns) as [|m l IH]; [done|]. cbn [omap list_omap].
  rewrite part_component_valid by (apply Hns; set_solver). cbn. f_equal. apply IH. set_solver.
Qed.

(** ** Below a root *)

Section sandbox.
Context (canonicalize : string → result string string).

(** What [std::fs::canonicalize] promises: an absolute path without [.] and [..] *)
Context (Hcanon : ∀ p c, canonicalize p = Ok c → ∃ names, components c = RootDir :: (Normal <$> names)).

(** [p] is [rest] below one of the roots. *)
Definition below (roots : list string) (p : string) (rest : list string) : Prop :=
  ∃ root canonical_root, root ∈ roots ∧ canonicalize root = Ok canonical_root ∧
    components p = components canonical_root ++ (Normal <$> rest).

Lemma suffix_names (cs : list Component) names l :
  RootDir :: (Normal <$> names) = cs ++ l → head cs = Some RootDir →
  ∃ rest, l = Normal <$> rest.
Proof.
  destruct cs as [|c cs]; [done|]. intros [= <- Heq] _. revert names Heq.
  induction cs as [|c cs IH]; intros names Heq; [by exists names|].
  destruct names as [|n names]; [done|]. injection Heq as _ Heq. eauto.
Qed.

Lemma under_root_below p names roots :
  components p = RootDir :: (Normal <$> names) →
  existsb (under_root canonicalize p) roots = true ↔ ∃ rest, below roots p rest.
Proof.
  intros Hp. rewrite existsb_exists. unfold under_root, path_starts_with, below. split.
  - intros (root & Hin%list_elem_of_In & Hu). destruct (canonicalize root) as [c|] eqn:Hc; [|done].
    apply bool_decide_eq_true in Hu as [l Hl]. destruct (Hcanon _ _ Hc) as (names' & Hnames').
    destruct (suffix_names (components c) names l) as (rest & ->); [by rewrite <-Hp|by rewrite Hnames'|].
    exists rest, root, c. done.
  - intros (rest & root & c & Hin%list_elem_of_In & Hc & Hl). exists root. split; [done|].
    rewrite Hc. apply bool_decide_eq_true. by exists (Normal <$> rest).
Qed.

(** [validate_path] accepts exactly what lies below a root. *)
Lemma validate_path_ok path roots p :
  validate_path canonicalize path roots = Ok p ↔
    canonicalize path = Ok p ∧ ∃ rest, below roots p rest.
Proof.
  unfold validate_path. destruct (canonicalize path) as [c|e] eqn:Hc; [|naive_solver].
  destruct (Hcanon _ _ Hc) as (names & Hnames).
  pose proof (under_root_below c names roots Hnames) as Hiff.
  destruct (existsb _ roots); split; try naive_solver.
Qed.

Lemma validate_path_for_write_ok path roots p :
  validate_path_for_write canonicalize path roots = Ok p →
  ∃ rest name, below roots p (rest ++ [name]) ∧ file_name path = Some name ∧ valid_name name.
Proof.
  unfold validate_path_for_write. destruct (parent path) as [dir|]; [|done].
  destruct (file_name path) as [name|] eqn:Hname; [|done].
  destruct (canonicalize dir) as [c|] eqn:Hc; [|done]. destruct (Hcanon _ _ Hc) as (names & Hnames).
  destruct (existsb _ roots) eqn:He; [|done]. intros [= <-].
  apply (under_root_below c names) in He as (rest & root & cr & Hin & Hcr & Hcs); [|done].
  assert (valid_name name) as Hvalid.
  { apply (component_names path). unfold file_name in Hname.
    destruct (last (components path)) as [[]|] eqn:Hl; simplify_eq. by apply last_Some_elem_of. }
  exists rest, name. split; [|done]. exists root, cr. split_and!; [done..|].
  rewrite components_join, Hcs, fmap_app, app_assoc; [done| |done].
  apply components_absolute. rewrite Hnames. set_solver.
Qed.

Context (allowed_roots : list string) (current_dir : option string).
Notation roots extra := (allowed_roots ++ option_list extra).


(** Without a source root the sources of an archive are not confined to any root: each may
    be anywhere, as long as it is not a link out of its own directory. *)
Lemma zip_sources_unchecked files :
  (∀ f, f ∈ files → ∃ dir c d rest, parent f = Some dir ∧ canonicalize f = Ok c ∧ canonicalize dir = Ok d ∧
     components c = components d ++ (Normal <$> rest)) →
  check_zip_sources canonicalize [] files None = Ok tt.
Proof.
  induction files as [|f files IH]; intros Hf; [done|]. cbn [check_zip_sources].
  destruct (Hf f ltac:(set_solver)) as (dir & c & d & rest & Hdir & Hc & Hd & Hcs). rewrite Hdir.
  unfold validate_path_with_extra_root, result_bind.
  rewrite (proj2 (validate_path_ok f _ c)); [apply IH; set_solver|]. split; [done|].
  exists rest, dir, d. split_and!; [set_solver|done|done].
Qed.
End sandbox.

(** ** A file system *)

Definition canonical_form (p : string) : bool :=
  match components p with
  | RootDir :: cs => forallb (λ c, match c with Normal _ => true | _ => false end) cs
  | _ => false
  end.

(** Every canonical path exists; [link] leads out of the workspace. *)
Definition demo_canonicalize (p : string) : result string string :=
  if String.eqb p "/home/u/ws/link" then Ok "/etc/passwd"
  else if canonical_form p then Ok p else Err "No such file or directory".

Lemma demo_canonical p c :
  demo_canonicalize p = Ok c → ∃ names, components c = RootDir :: (Normal <$> names).
Proof.
  unfold demo_canonicalize. destruct (String.eqb p _).
  { intros [= <-]. by exists ["etc"; "passwd"]. }
  destruct (canonical_form p) eqn:Hp; [|done]. intros [= <-]. unfold canonical_form in Hp.
  destruct (components p) as [|[] cs]; try done.
  enough (∃ names, cs = Normal <$> names) as (names & ->) by (by exists names).
  induction cs as [|[] cs IH]; try done; [by exists []|]. cbn in Hp.
  destruct (IH Hp) as (names & ->). by exists (name :: names).
Qed.


(** A link that exists is written through: the path that the check returns is not
    canonical, and what it leads to lies outside every root. *)
Lemma write_follows_link :
  check_write demo_canonicalize [] "/home/u/ws/link" "/home/u/ws" = Ok "/home/u/ws/link" ∧
  validate_path demo_canonicalize "/home/u/ws/link" ["/home/u/ws"] =
    Err (outside_sandbox "/home/u/ws/link" "access").
Proof. vm_compute. done. Qed.

(** Renaming a root moves it out of itself. *)
Lemma rename_root_leaves_sandbox :
  check_rename demo_canonicalize ["/home/u/ws"] "/home/u/ws" "other" None = Ok ("/home/u/ws", "/home/u/other") ∧
  validate_path demo_canonicalize "/home/u/other" ["/home/u/ws"] = Err (outside_sandbox "/home/u/other" "access").
Proof. vm_compute. done. Qed.
