(* ===== verification/Pairing.v ===== *)
(** * Channel pairing

    Models [PairingService] of [crates/aionui-channel/src/pairing.rs], with the queries on
    [assistant_pairing_codes] and [assistant_users] of
    [aionui-db/src/repository/sqlite_channel.rs]: an unknown user of a chat platform is
    given a code, and an approval of the code makes the user an authorised one.

    Each query is atomic and does not fail in [sqlx] but for the constraints of the
    tables.  The four random bytes are an argument, [None] a failure of the generator. *)
From Stdlib Require Import Ascii.
From S2P Require Import Prelude Storage.

(** ** Data *)

Definition PAIRING_CODE_LENGTH : nat := 6.
(** In milliseconds *)
Definition PAIRING_CODE_TTL : Z := 10 * 60 * 1000.

Inductive PairingStatus := PairingPending | PairingApproved | PairingRejected | PairingExpiredStatus.

Definition pairing_status_to_string (s : PairingStatus) : string :=
  match s with
  | PairingPending => "pending"
  | PairingApproved => "approved"
  | PairingRejected => "rejected"
  | PairingExpiredStatus => "expired"
  end.

(** The variants of [ChannelError] that the service returns *)
Inductive ChannelError :=
  | InvalidConfig (message : string)
  | PairingNotFound (code : string)
  | PairingExpired (code : string)
  | PairingAlreadyProcessed (code : string)
  | ChannelDatabase (error : DbError).

#[global] Instance ChannelError_eq_dec : EqDecision ChannelError.
Proof. solve_decision. Defined.

(** [pc] = [PairingCodeRow] *)
Record PairingCodeRow := mkPairingCodeRow {
  pc_code : string;
  pc_platform_user_id : string;
  pc_platform_type : string;
  pc_display_name : option string;
  pc_requested_at : Z;
  pc_expires_at : Z;
  pc_status : string;
}.

#[global] Instance PairingCodeRow_eq_dec : EqDecision PairingCodeRow.
Proof. solve_decision. Defined.

Definition set_pc_status (s : string) (r : PairingCodeRow) : PairingCodeRow :=
  mkPairingCodeRow r.(pc_code) r.(pc_platform_user_id) r.(pc_platform_type) r.(pc_display_name)
    r.(pc_requested_at) r.(pc_expires_at) s.

(** [au] = [AssistantUserRow] *)
Record AssistantUserRow := mkAssistantUserRow {
  au_id : string;
  au_platform_user_id : string;
  au_platform_type : string;
  au_display_name : option string;
  au_authorized_at : Z;
  au_last_active : option Z;
  au_session_id : option string;
}.

(** The events and their payloads *)
Inductive PairingEvent :=
  | PairingRequested (code platform_user_id platform_type : string) (display_name : option string)
      (expires_at : Z)
  | UserAuthorized (id platform_user_id platform_type : string) (display_name : option string).

(** The tables, by their primary keys, and the events broadcast so far *)
Record PairingStore := mkPairingStore {
  ps_pairings : gmap string PairingCodeRow;
  ps_users : gmap string AssistantUserRow;
  ps_events : list PairingEvent;
}.

Definition set_pairings m s := mkPairingStore m s.(ps_users) s.(ps_events).
Definition set_users m s := mkPairingStore s.(ps_pairings) m s.(ps_events).

Notation pairing_action := (action PairingStore).

(** ** The repository *)

Section repository.
Context `{!SqlOrder}.

Definition get_user_by_platform (platform_user_id platform_type : string) (s : PairingStore) :
    option AssistantUserRow :=
  head (filter (λ u, u.(au_platform_user_id) = platform_user_id ∧ u.(au_platform_type) = platform_type)
    (map_to_list s.(ps_users)).*2).

(** [PRIMARY KEY (id)] and [UNIQUE (platform_user_id, platform_type)] *)
Definition create_user (row : AssistantUserRow) : pairing_action DbError unit := λ s,
  if bool_decide (s.(ps_users) !! row.(au_id) = None ∧
                  get_user_by_platform row.(au_platform_user_id) row.(au_platform_type) s = None)
  then (Ok tt, set_users (<[row.(au_id) := row]> s.(ps_users)) s)
  else (Err (Conflict ("User '" +:+ row.(au_platform_user_id) +:+ "' on platform '" +:+
                       row.(au_platform_type) +:+ "' already exists")), s).

Definition create_pairing (row : PairingCodeRow) : pairing_action DbError unit := λ s,
  match s.(ps_pairings) !! row.(pc_code) with
  | None => (Ok tt, set_pairings (<[row.(pc_code) := row]> s.(ps_pairings)) s)
  | Some _ => (Err (Conflict ("Pairing code '" +:+ row.(pc_code) +:+ "' already exists")), s)
  end.

Definition repo_pending_pairings (s : PairingStore) : list PairingCodeRow :=
  order_by (λ r, - r.(pc_requested_at))%Z
    (filter (λ r, r.(pc_status) = "pending") (map_to_list s.(ps_pairings)).*2).

Definition get_pairing_by_code (code : string) (s : PairingStore) : option PairingCodeRow :=
  s.(ps_pairings) !! code.

Definition update_pairing_status (code status : string) : pairing_action DbError unit := λ s,
  match s.(ps_pairings) !! code with
  | Some row => (Ok tt, set_pairings (<[code := set_pc_status status row]> s.(ps_pairings)) s)
  | None => (Err (NotFound ("Pairing code '" +:+ code +:+ "' not found")), s)
  end.

Definition cleanup_expired_pairings (now : Z) (s : PairingStore) : PairingStore :=
  set_pairings
    ((λ r, if bool_decide (r.(pc_status) = "pending" ∧ (r.(pc_expires_at) <= now)%Z)
           then set_pc_status "expired" r else r) <$> s.(ps_pairings)) s.

(** ** [PairingService] *)

Section service.
Context `{CallEnv}.

Definition broadcast_pairing (e : PairingEvent) {E} : pairing_action E unit :=
  λ s, (Ok tt, mkPairingStore s.(ps_pairings) s.(ps_users) (s.(ps_events) ++ [e])).

(** [u32::from_le_bytes] *)
Fixpoint from_le_bytes (bytes : list Z) : Z :=
  match bytes with
  | [] => 0
  | b :: bytes => b + 256 * from_le_bytes bytes
  end%Z.

Definition decimal_digit (n : Z) : string :=
  String (Ascii.ascii_of_nat (48 + Z.to_nat n)) EmptyString.

(** The decimal digits of a number; ten are enough for a [u32]. *)
Fixpoint decimal (fuel : nat) (n : Z) : string :=
  match fuel with
  | 0 => EmptyString
  | S fuel => if (n <? 10)%Z then decimal_digit n
              else decimal fuel (n / 10)%Z +:+ decimal_digit (n mod 10)%Z
  end.

Fixpoint zeros (n : nat) : string :=
  match n with 0 => EmptyString | S n => String "0"%char (zeros n) end.

Definition generate_pairing_code (rng : option (list Z)) : result string ChannelError :=
  match rng with
  | None => Err (InvalidConfig "RNG failure")
  | Some bytes =>
      let num := (from_le_bytes bytes mod 10 ^ Z.of_nat PAIRING_CODE_LENGTH)%Z in
      let s := decimal 10 num in
      Ok (zeros (PAIRING_CODE_LENGTH - String.length s) +:+ s)
  end.

Definition expire_user_pending_codes (platform_user_id platform_type : string) :
    pairing_action ChannelError unit :=
  pending ←! act_read repo_pending_pairings;
  act_each (λ row : PairingCodeRow,
    if bool_decide (row.(pc_platform_user_id) = platform_user_id ∧
                    row.(pc_platform_type) = platform_type)
    then act_map_err ChannelDatabase
           (update_pairing_status row.(pc_code) (pairing_status_to_string PairingExpiredStatus))
    else act_ret tt) pending.

Definition request_pairing (rng : option (list Z)) (platform_user_id platform_type : string)
    (display_name : option string) : pairing_action ChannelError string :=
  _ ←! expire_user_pending_codes platform_user_id platform_type;
  code ←! (λ s, (generate_pairing_code rng, s));
  let expires_at := (now_ms + PAIRING_CODE_TTL)%Z in
  let row := mkPairingCodeRow code platform_user_id platform_type display_name now_ms expires_at
               (pairing_status_to_string PairingPending) in
  _ ←! act_map_err ChannelDatabase (create_pairing row);
  _ ←! broadcast_pairing (PairingRequested code platform_user_id platform_type display_name expires_at);
  act_ret code.

Definition get_valid_pending_pairing (code : string) : pairing_action ChannelError PairingCodeRow :=
  found ←! act_read (get_pairing_by_code code);
  row ←! act_some (PairingNotFound code) found;
  if negb (bool_decide (row.(pc_status) = pairing_status_to_string PairingPending))
  then act_err (PairingAlreadyProcessed code)
  else if (row.(pc_expires_at) <=? now_ms)%Z then
    λ s, (Err (PairingExpired code),
          (update_pairing_status code (pairing_status_to_string PairingExpiredStatus) s).2)
  else act_ret row.

(** [approve_pairing] after the code was found valid *)
Definition finish_approval (code : string) (row : PairingCodeRow) : pairing_action ChannelError unit :=
  let user_id := gen_id 0 in
  let user_row := mkAssistantUserRow user_id row.(pc_platform_user_id) row.(pc_platform_type)
                    row.(pc_display_name) now_ms None None in
  _ ←! act_map_err ChannelDatabase (create_user user_row);
  _ ←! act_map_err ChannelDatabase
         (update_pairing_status code (pairing_status_to_string PairingApproved));
  broadcast_pairing (UserAuthorized user_id row.(pc_platform_user_id) row.(pc_platform_type)
               row.(pc_display_name)).

Definition approve_pairing (code : string) : pairing_action ChannelError unit :=
  row ←! get_valid_pending_pairing code; finish_approval code row.

(** [reject_pairing] after the code was found valid *)
Definition finish_rejection (code : string) : pairing_action ChannelError unit :=
  act_map_err ChannelDatabase
    (update_pairing_status code (pairing_status_to_string PairingRejected)).

Definition reject_pairing (code : string) : pairing_action ChannelError unit :=
  _ ←! get_valid_pending_pairing code; finish_rejection code.

Definition get_pending_pairings (s : PairingStore) : list PairingCodeRow :=
  filter (λ r, (now_ms < r.(pc_expires_at))%Z) (repo_pending_pairings s).

Definition is_user_authorized (platform_user_id platform_type : string) (s : PairingStore) : bool :=
  bool_decide (is_Some (get_user_by_platform platform_user_id platform_type s)).

Definition get_internal_user_id (platform_user_id platform_type : string) (s : PairingStore) :
    option string :=
  au_id <$> get_user_by_platform platform_user_id platform_type s.
End service.
End repository.
