(* ===== verification/PairingProps.v ===== *)
(** * Channel pairing: properties

    Codes have six digits; one code per user is pending; and whatever the interleaving of
    requests, approvals, rejections and clean-ups, nobody is authorised but through a
    code that they requested and that was pending and unexpired when it was approved. *)
From stdpp Require Import relations.
From Stdlib Require Import Ascii.
From S2P Require Import Prelude Text Storage Pairing WorkDemo.

(** ** The code *)

Definition is_digit (a : ascii) : bool :=
  (48 <=? nat_of_ascii a) && (nat_of_ascii a <=? 57).

Lemma decimal_digit_is_digit n : (0 ≤ n < 10)%Z → string_forall is_digit (decimal_digit n) = true.
Proof.
  intros Hn. unfold decimal_digit, string_forall, is_digit.
  rewrite nat_ascii_embedding by lia. rewrite andb_true_r, andb_true_iff, !Nat.leb_le. lia.
Qed.

Lemma decimal_digits fuel n : (0 ≤ n)%Z → string_forall is_digit (decimal fuel n) = true.
Proof.
  revert n. induction fuel as [|fuel IH]; intros n Hn; [done|]. cbn [decimal].
  destruct (n <? 10)%Z eqn:Hlt; [apply decimal_digit_is_digit; lia|].
  rewrite string_forall_app, IH by (apply Z.div_pos; lia).
  apply decimal_digit_is_digit. apply Z.mod_pos_bound. lia.
Qed.

Lemma decimal_length fuel n (k : nat) :
  (0 ≤ n < 10 ^ Z.of_nat k)%Z → 0 < k → String.length (decimal fuel n) ≤ k.
Proof.
  revert n k. induction fuel as [|fuel IH]; intros n k Hn Hk; [simpl; lia|]. cbn [decimal].
  destruct (n <? 10)%Z eqn:Hlt; [simpl; lia|].
  rewrite string_length_app. destruct k as [|[|k]]; [lia|simpl in Hn; lia|].
  enough (String.length (decimal fuel (n / 10)) ≤ S k) by (simpl; lia).
  apply IH; [|lia]. split; [apply Z.div_pos; lia|]. apply Z.div_lt_upper_bound; [lia|].
  rewrite <-Z.pow_succ_r by lia. replace (Z.succ (Z.of_nat (S k))) with (Z.of_nat (S (S k))) by lia. lia.
Qed.

Lemma zeros_spec n : String.length (zeros n) = n ∧ string_forall is_digit (zeros n) = true.
Proof. induction n as [|n [IH1 IH2]]; [done|]. simpl. by rewrite IH1, IH2. Qed.

Lemma generated_code bytes code :
  generate_pairing_code (Some bytes) = Ok code →
  String.length code = PAIRING_CODE_LENGTH ∧ string_forall is_digit code = true.
Proof.
  cbn [generate_pairing_code]. change PAIRING_CODE_LENGTH with 6.
  set (n := (from_le_bytes bytes mod _)%Z).
  assert (0 ≤ n < 10 ^ Z.of_nat 6)%Z as Hn by (apply Z.mod_pos_bound; lia).
  pose proof (decimal_length 10 n 6 Hn ltac:(lia)) as Hlen.
  pose proof (decimal_digits 10 n ltac:(lia)) as Hdigits.
  set (d := decimal 10 n) in *. clearbody d. destruct (zeros_spec (6 - String.length d)) as [Hl Hd].
  set (z := zeros _) in *. clearbody z. intros [= <-]. split.
  - rewrite string_length_app, Hl. lia.
  - by rewrite string_forall_app, Hd.
Qed.

Section pairing.
Context `{!SqlOrder}.
Implicit Types (s : PairingStore) (r : PairingCodeRow) (u : AssistantUserRow).

Definition is_pending r : bool := bool_decide (r.(pc_status) = "pending").
Definition of_user (user type : string) r : bool :=
  bool_decide (r.(pc_platform_user_id) = user ∧ r.(pc_platform_type) = type).

Definition keyed s : Prop := ∀ k r, s.(ps_pairings) !! k = Some r → r.(pc_code) = k.

Lemma elem_of_pending s r :
  r ∈ repo_pending_pairings s ↔ is_pending r = true ∧ ∃ k, s.(ps_pairings) !! k = Some r.
Proof.
  unfold repo_pending_pairings, is_pending. rewrite order_by_perm, list_elem_of_filter, bool_decide_eq_true.
  rewrite list_elem_of_fmap. split.
  - intros [? ([k r'] & -> & Hk%elem_of_map_to_list)]. eauto.
  - intros [? (k & Hk)]. split; [done|]. exists (k, r). by rewrite elem_of_map_to_list.
Qed.

Lemma NoDup_pending_codes s : keyed s → NoDup (pc_code <$> repo_pending_pairings s).
Proof.
  intros Hk. unfold repo_pending_pairings. rewrite order_by_perm.
  eapply sublist_NoDup; [|apply fmap_sublist, sublist_filter].
  assert (pc_code <$> (map_to_list s.(ps_pairings)).*2 = (map_to_list s.(ps_pairings)).*1) as ->;
    [|apply NoDup_fst_map_to_list].
  rewrite <-list_fmap_compose. apply list_fmap_ext. intros i [k r] Hi.
  apply list_elem_of_lookup_2, elem_of_map_to_list in Hi. by apply Hk in Hi.
Qed.

(** What [expire_user_pending_codes] does to a row *)
Definition expired_for (user type : string) r : PairingCodeRow :=
  if is_pending r && of_user user type r then set_pc_status "expired" r else r.

Lemma expire_ok user type s :
  keyed s →
  expire_user_pending_codes user type s =
    (Ok tt, set_pairings (expired_for user type <$> s.(ps_pairings)) s).
Proof.
  intros Hkeyed. unfold expire_user_pending_codes, act_bind, act_read.
  destruct (act_each_ok (λ row, if bool_decide (pc_platform_user_id row = user ∧ pc_platform_type row = type)
      then act_map_err ChannelDatabase (update_pairing_status (pc_code row)
             (pairing_status_to_string PairingExpiredStatus)) else act_ret tt)
    (λ rest s1, NoDup (pc_code <$> rest) ∧ (∀ r, r ∈ rest → r ∈ repo_pending_pairings s) ∧
       s1.(ps_users) = s.(ps_users) ∧ s1.(ps_events) = s.(ps_events) ∧
       ∀ k, s1.(ps_pairings) !! k =
         if decide (k ∈ pc_code <$> rest) then s.(ps_pairings) !! k
         else expired_for user type <$> s.(ps_pairings) !! k) (repo_pending_pairings s) s)
    as (s1 & -> & _ & _ & Hu & He & Hs1).
  - intros row rest s0 (Hnd & Hin & Hu & He & Hs0). cbn [fmap list_fmap] in Hnd.
    apply NoDup_cons in Hnd as [Hnew Hnd].
    assert (row ∈ repo_pending_pairings s) as [Hpend (k & Hrow)]%elem_of_pending by (apply Hin; set_solver).
    pose proof (Hkeyed _ _ Hrow) as <-.
    assert (s0.(ps_pairings) !! pc_code row = Some row) as Hrow0
      by (rewrite Hs0, decide_True by set_solver; done).
    case_bool_decide as Huser.
    + unfold act_map_err, update_pairing_status. rewrite Hrow0. eexists. split; [done|].
      split_and!; [done|set_solver|done|done|]. intros k. simpl. rewrite lookup_insert. case_decide as Hk.
      * subst k. rewrite decide_False, Hrow by done. simpl. unfold expired_for, of_user.
        by rewrite Hpend, bool_decide_eq_true_2.
      * rewrite Hs0. apply decide_ext. set_solver.
    + exists s0. split; [done|]. split_and!; [done|set_solver|done|done|]. intros k. rewrite Hs0.
      destruct (decide (k = pc_code row)) as [->|Hk].
      * rewrite decide_True, decide_False, Hrow by set_solver. simpl. unfold expired_for, of_user.
        by rewrite Hpend, bool_decide_eq_false_2.
      * apply decide_ext. set_solver.
  - split_and!; [by apply NoDup_pending_codes|done|done|done|]. intros k. case_decide as Hk; [done|].
    destruct (ps_pairings s !! k) as [r|] eqn:Hr; [|done]. simpl. unfold expired_for.
    destruct (is_pending r) eqn:Hp; [|done]. destruct Hk. rewrite <-(Hkeyed _ _ Hr).
    apply list_elem_of_fmap_2, elem_of_pending. eauto.
  - f_equal. destruct s1 as [p1 u1 e1]. unfold set_pairings. simpl in *. subst. f_equal.
    apply map_eq. intros k. rewrite Hs1, lookup_fmap. done.
Qed.

(** ** Requesting *)

Definition requested_row `{CallEnv} (code user type : string) (name : option string) : PairingCodeRow :=
  mkPairingCodeRow code user type name now_ms (now_ms + PAIRING_CODE_TTL) "pending".

Definition requested_event `{CallEnv} (code user type : string) (name : option string) : PairingEvent :=
  PairingRequested code user type name (now_ms + PAIRING_CODE_TTL).

Lemma request_eq `{CallEnv} rng user type name s :
  keyed s →
  let s1 := set_pairings (expired_for user type <$> s.(ps_pairings)) s in
  request_pairing rng user type name s =
    match generate_pairing_code rng with
    | Err e => (Err e, s1)
    | Ok code =>
        if decide (s.(ps_pairings) !! code = None) then
          (Ok code, mkPairingStore (<[code := requested_row code user type name]> s1.(ps_pairings))
             s.(ps_users) (s.(ps_events) ++ [requested_event code user type name]))
        else (Err (ChannelDatabase (Conflict ("Pairing code '" +:+ code +:+ "' already exists"))), s1)
    end.
Proof.
  intros Hk s1. unfold request_pairing, act_bind at 1. rewrite expire_ok by done. fold s1.
  unfold act_bind, act_map_err, create_pairing, broadcast_pairing, act_ret.
  destruct (generate_pairing_code rng) as [code|e]; [|done]. cbn [pc_code].
  assert (s1.(ps_pairings) !! code = expired_for user type <$> s.(ps_pairings) !! code) as -> by apply lookup_fmap.
  destruct (ps_pairings s !! code); [by rewrite decide_False|by rewrite decide_True].
Qed.

Lemma expired_for_pending user type r :
  is_pending (expired_for user type r) = is_pending r && negb (of_user user type r).
Proof. unfold expired_for. destruct (is_pending r) eqn:Hp, (of_user user type r); done. Qed.

Lemma of_user_expired user type r : of_user user type (expired_for user type r) = of_user user type r.
Proof. unfold expired_for. by destruct (is_pending r && of_user user type r). Qed.

Lemma expired_for_fields user type r :
  (expired_for user type r).(pc_code) = r.(pc_code) ∧
  (expired_for user type r).(pc_platform_user_id) = r.(pc_platform_user_id) ∧
  (expired_for user type r).(pc_platform_type) = r.(pc_platform_type) ∧
  (expired_for user type r).(pc_expires_at) = r.(pc_expires_at).
Proof. unfold expired_for. by destruct (_ && _). Qed.

(** [request_pairing] gives the user a code of six digits, pending for ten minutes, and
    it is then the only code of the user that is pending: those of before are expired, and
    no row of another user changes.  When the random digits are those of any code ever
    used, the request fails with a conflict, and the old codes are expired all the same. *)
Theorem request_pairing_spec `{CallEnv} bytes user type name s :
  keyed s →
  ∃ code, generate_pairing_code (Some bytes) = Ok code ∧
    String.length code = PAIRING_CODE_LENGTH ∧ string_forall is_digit code = true ∧
    let '(r, s') := request_pairing (Some bytes) user type name s in
    keyed s' ∧ s'.(ps_users) = s.(ps_users) ∧
    (∀ k row, of_user user type row = false → k ≠ code →
       s'.(ps_pairings) !! k = Some row ↔ s.(ps_pairings) !! k = Some row) ∧
    match s.(ps_pairings) !! code with
    | None => r = Ok code ∧ s'.(ps_events) = s.(ps_events) ++ [requested_event code user type name] ∧
        ∀ k row, of_user user type row = true →
          s'.(ps_pairings) !! k = Some row ∧ is_pending row = true ↔
          k = code ∧ row = requested_row code user type name
    | Some _ => is_ok r = false ∧ s'.(ps_events) = s.(ps_events) ∧
        ∀ k row, s'.(ps_pairings) !! k = Some row → of_user user type row = true → is_pending row = false
    end.
Proof.
  intros Hkeyed. destruct (generate_pairing_code (Some bytes)) as [code|e] eqn:Hcode; [|done].
  destruct (generated_code _ _ Hcode) as [Hlen Hdigits]. exists code. split_and!; [done..|].
  rewrite request_eq, Hcode by done. set (m := expired_for user type <$> ps_pairings s).
  assert (∀ k row, m !! k = Some row → ∃ r, s.(ps_pairings) !! k = Some r ∧ row = expired_for user type r) as Hm.
  { intros k row. unfold m. rewrite lookup_fmap, fmap_Some. naive_solver. }
  assert (∀ k row, m !! k = Some row → of_user user type row = true → is_pending row = false) as Hgone.
  { intros k row (r & Hr & ->)%Hm Hu. rewrite expired_for_pending.
    rewrite of_user_expired in Hu. rewrite Hu.
    by destruct (is_pending r). }
  assert (∀ k row, of_user user type row = false →
    m !! k = Some row ↔ s.(ps_pairings) !! k = Some row) as Hother.
  { intros k row Hu. split.
    - intros (r & Hr & ->)%Hm. rewrite of_user_expired in Hu. rewrite Hr. unfold expired_for.
      by rewrite Hu, andb_false_r.
    - intros Hr. unfold m. rewrite lookup_fmap, Hr. simpl. unfold expired_for. by rewrite Hu, andb_false_r. }
  assert (keyed (set_pairings m s)) as Hkm.
  { intros k row (r & Hr & ->)%Hm. destruct (expired_for_fields user type r) as (-> & _). by apply Hkeyed. }
  destruct (ps_pairings s !! code) as [r0|] eqn:Hc.
  - rewrite decide_False by done. split_and!; [done|done| |done|done|exact Hgone].
    intros k row Hu _. by apply Hother.
  - rewrite decide_True by done. cbn [ps_pairings ps_users ps_events]. split_and!; [|done| |done|done|].
    + intros k row. simpl. rewrite lookup_insert. case_decide; [by intros [= <-]|apply Hkm].
    + intros k row Hu Hk. rewrite lookup_insert_ne by done. by apply Hother.
    + intros k row Hu. rewrite lookup_insert. case_decide as Hk.
      * subst. split; [intros [[= <-] _]; done|intros [_ ->]; done].
      * split; [intros [Hrow Hp]; by rewrite (Hgone _ _ Hrow) in Hp|naive_solver].
Qed.

(** ** Approving *)

Definition approved_user `{CallEnv} r : AssistantUserRow :=
  mkAssistantUserRow (gen_id 0) r.(pc_platform_user_id) r.(pc_platform_type) r.(pc_display_name)
    now_ms None None.

Definition approved_store `{CallEnv} code r s : PairingStore :=
  mkPairingStore (<[code := set_pc_status "approved" r]> s.(ps_pairings))
    (<[gen_id 0 := approved_user r]> s.(ps_users))
    (s.(ps_events) ++ [UserAuthorized (gen_id 0) r.(pc_platform_user_id) r.(pc_platform_type) r.(pc_display_name)]).

Lemma get_user_none user type s :
  get_user_by_platform user type s = None ↔
    ∀ k u, s.(ps_users) !! k = Some u → ¬ (u.(au_platform_user_id) = user ∧ u.(au_platform_type) = type).
Proof.
  unfold get_user_by_platform. destruct (filter _ _) as [|u l] eqn:Hf; simpl.
  - split; [|done]. intros _ k u Hk Hu. apply (not_elem_of_nil u). rewrite <-Hf.
    apply list_elem_of_filter. split; [done|]. apply list_elem_of_fmap. exists (k, u).
    by rewrite elem_of_map_to_list.
  - split; [done|]. intros Hall. assert (u ∈ u :: l) as Hu by set_solver. rewrite <-Hf in Hu.
    apply list_elem_of_filter in Hu as [Hu ([k u'] & -> & Hk%elem_of_map_to_list)%list_elem_of_fmap].
    by destruct (Hall k u').
Qed.

Lemma get_user_some user type s u :
  get_user_by_platform user type s = Some u →
    (∃ k, s.(ps_users) !! k = Some u) ∧ u.(au_platform_user_id) = user ∧ u.(au_platform_type) = type.
Proof.
  unfold get_user_by_platform. intros Hh. apply head_Some_elem_of, list_elem_of_filter in Hh as [Hu Hin].
  apply list_elem_of_fmap in Hin as ([k u'] & -> & Hk%elem_of_map_to_list). eauto.
Qed.

Lemma finish_approval_eq `{CallEnv} code r r0 s :
  s.(ps_pairings) !! code = Some r0 →
  finish_approval code r s =
    if bool_decide (s.(ps_users) !! gen_id 0 = None ∧
                    get_user_by_platform r.(pc_platform_user_id) r.(pc_platform_type) s = None)
    then (Ok tt, mkPairingStore (<[code := set_pc_status "approved" r0]> s.(ps_pairings))
                   (approved_store code r s).(ps_users) (approved_store code r s).(ps_events))
    else (Err (ChannelDatabase (Conflict ("User '" +:+ r.(pc_platform_user_id) +:+ "' on platform '" +:+
                       r.(pc_platform_type) +:+ "' already exists"))), s).
Proof.
  intros Hr. unfold finish_approval, act_bind, act_map_err, create_user, update_pairing_status, broadcast_pairing.
  cbn [au_id au_platform_user_id au_platform_type]. case_bool_decide; [|done].
  cbn [set_users ps_pairings]. by rewrite Hr.
Qed.

(** [approve_pairing], on every branch.  A code that is unknown, already processed or
    expired is refused, the last being marked as expired; when the user is authorised
    already the approval fails and the code stays pending; otherwise the user becomes
    authorised under a new identifier, the code is approved, and approving or rejecting it
    again is refused without a change. *)
Theorem approve_pairing_spec `{CallEnv} code s :
  let '(result, s') := approve_pairing code s in
  match s.(ps_pairings) !! code with
  | None => result = Err (PairingNotFound code) ∧ s' = s
  | Some r =>
      if negb (is_pending r) then result = Err (PairingAlreadyProcessed code) ∧ s' = s
      else if (r.(pc_expires_at) <=? now_ms)%Z then
        result = Err (PairingExpired code) ∧
        s' = set_pairings (<[code := set_pc_status "expired" r]> s.(ps_pairings)) s
      else if bool_decide (s.(ps_users) !! gen_id 0 = None) &&
              negb (is_user_authorized r.(pc_platform_user_id) r.(pc_platform_type) s) then
        result = Ok tt ∧ s' = approved_store code r s ∧
        is_user_authorized r.(pc_platform_user_id) r.(pc_platform_type) s' = true ∧
        (∀ env' : CallEnv, approve_pairing (H0 := env') code s' = (Err (PairingAlreadyProcessed code), s') ∧
                           reject_pairing (H0 := env') code s' = (Err (PairingAlreadyProcessed code), s'))
      else (∃ why, result = Err (ChannelDatabase (Conflict why))) ∧ s' = s
  end.
Proof.
  destruct (approve_pairing code s) as [result s'] eqn:Happ.
  unfold approve_pairing, act_bind, get_valid_pending_pairing, act_read, act_some, get_pairing_by_code in Happ.
  unfold act_bind in Happ.
  destruct (ps_pairings s !! code) as [r|] eqn:Hr; [|by injection Happ as <- <-].
  cbn [ok_or] in Happ. change (bool_decide (pc_status r = _)) with (is_pending r) in Happ.
  destruct (is_pending r) eqn:Hp; cbn [negb] in *; [|by injection Happ as <- <-].
  destruct (pc_expires_at r <=? now_ms)%Z.
  { injection Happ as <- <-. unfold update_pairing_status. by rewrite Hr. }
  unfold act_ret in Happ. rewrite (finish_approval_eq _ _ _ _ Hr) in Happ. unfold is_user_authorized.
  destruct (get_user_by_platform (pc_platform_user_id r) (pc_platform_type r) s) as [u|] eqn:Hu.
  { rewrite bool_decide_eq_false_2 in Happ by naive_solver. injection Happ as <- <-.
    rewrite (bool_decide_eq_true_2 (is_Some _)), andb_false_r by done. eauto. }
  rewrite (bool_decide_eq_false_2 (is_Some None)) by (by intros []). cbn [negb].
  destruct (decide (s.(ps_users) !! gen_id 0 = None)) as [Hid|Hid].
  2: { rewrite bool_decide_eq_false_2 in Happ by naive_solver. injection Happ as <- <-.
       rewrite bool_decide_eq_false_2 by done. split; [by eexists|done]. }
  rewrite bool_decide_eq_true_2 in Happ by done. rewrite bool_decide_eq_true_2 by done. cbn [andb].
  assert (result = Ok tt ∧ s' = approved_store code r s) as [-> ->] by (by injection Happ as <- <-).
  split_and!; [done|done| |].
  - apply bool_decide_eq_true. destruct (get_user_by_platform _ _ (approved_store code r s)) as [u|] eqn:Hu'; [by eexists|].
    rewrite get_user_none in Hu'. destruct (Hu' (gen_id 0) (approved_user r)); [|done].
    apply lookup_insert_eq.
  - intros env'. unfold approve_pairing, reject_pairing, act_bind, get_valid_pending_pairing, act_read, act_some,
      get_pairing_by_code, act_bind. cbn [approved_store ps_pairings]. by rewrite lookup_insert_eq.
Qed.

(** ** Interleavings

    [approve_pairing] and [reject_pairing] read the row of the code first and act on it
    later: in between, other calls may run.  [py_checked] holds the rows that were found
    valid, with the time of the check. *)
Record PairingSystem := mkPairingSystem {
  py_store : PairingStore;
  py_checked : list (PairingCodeRow * Z);
}.

Inductive pairing_step : PairingSystem → PairingSystem → Prop :=
  | step_request (env : CallEnv) rng user type name s checked :
      pairing_step (mkPairingSystem s checked)
        (mkPairingSystem (request_pairing rng user type name s).2 checked)
  | step_check (env : CallEnv) code r s s' checked :
      get_valid_pending_pairing code s = (Ok r, s') →
      pairing_step (mkPairingSystem s checked) (mkPairingSystem s' ((r, now_ms) :: checked))
  | step_refuse (env : CallEnv) code e s s' checked :
      get_valid_pending_pairing code s = (Err e, s') →
      pairing_step (mkPairingSystem s checked) (mkPairingSystem s' checked)
  | step_approve (env : CallEnv) r t s checked :
      (r, t) ∈ checked →
      pairing_step (mkPairingSystem s checked)
        (mkPairingSystem (finish_approval r.(pc_code) r s).2 checked)
  | step_reject r t s checked :
      (r, t) ∈ checked →
      pairing_step (mkPairingSystem s checked)
        (mkPairingSystem (finish_rejection r.(pc_code) s).2 checked)
  | step_cleanup now s checked :
      pairing_step (mkPairingSystem s checked)
        (mkPairingSystem (cleanup_expired_pairings now s) checked).

Definition no_pairings : PairingSystem := mkPairingSystem (mkPairingStore ∅ ∅ []) [].

Definition pairing_reachable (p : PairingSystem) : Prop := rtc pairing_step no_pairings p.

(** The request that a row comes from was broadcast. *)
Definition was_requested (events : list PairingEvent) r : Prop :=
  PairingRequested r.(pc_code) r.(pc_platform_user_id) r.(pc_platform_type) r.(pc_display_name)
    r.(pc_expires_at) ∈ events.

Definition same_user u r : Prop :=
  u.(au_platform_user_id) = r.(pc_platform_user_id) ∧ u.(au_platform_type) = r.(pc_platform_type).

Record pairing_wf (p : PairingSystem) : Prop := {
  py_keyed : keyed p.(py_store);
  py_requested k r : p.(py_store).(ps_pairings) !! k = Some r → was_requested p.(py_store).(ps_events) r;
  py_valid r t : (r, t) ∈ p.(py_checked) →
    is_pending r = true ∧ (t < r.(pc_expires_at))%Z ∧ was_requested p.(py_store).(ps_events) r;
  py_authorized k u : p.(py_store).(ps_users) !! k = Some u →
    ∃ r t, (r, t) ∈ p.(py_checked) ∧ same_user u r;
  py_unique k k' u u' : p.(py_store).(ps_users) !! k = Some u → p.(py_store).(ps_users) !! k' = Some u' →
    u.(au_platform_user_id) = u'.(au_platform_user_id) → u.(au_platform_type) = u'.(au_platform_type) →
    k = k';
}.

(** Rows change in their status only, events are only added, no user is. *)
Lemma pairing_wf_rows (g : string → PairingCodeRow → string) s s' checked :
  (∀ k, s'.(ps_pairings) !! k = (λ r, set_pc_status (g k r) r) <$> s.(ps_pairings) !! k) →
  s'.(ps_users) = s.(ps_users) → s'.(ps_events) = s.(ps_events) →
  pairing_wf (mkPairingSystem s checked) → pairing_wf (mkPairingSystem s' checked).
Proof.
  intros Hg Hu He [Hk Hr Hv Ha Huq]. split; cbn [py_store py_checked] in *; rewrite ?Hu, ?He; try done.
  - intros k r. rewrite Hg, fmap_Some. intros (r0 & Hr0 & ->). by apply Hk in Hr0.
  - intros k r. rewrite Hg, fmap_Some. intros (r0 & Hr0 & ->). by apply Hr in Hr0.
Qed.

Lemma set_pc_status_id r : set_pc_status r.(pc_status) r = r.
Proof. by destruct r. Qed.

Lemma expired_for_status user type r :
  expired_for user type r = set_pc_status (expired_for user type r).(pc_status) r.
Proof. unfold expired_for. destruct (_ && _); [done|by rewrite set_pc_status_id]. Qed.

Lemma update_status_wf code status s checked :
  pairing_wf (mkPairingSystem s checked) →
  pairing_wf (mkPairingSystem (update_pairing_status code status s).2 checked).
Proof.
  unfold update_pairing_status. destruct (ps_pairings s !! code) as [r|] eqn:Hr; [|done].
  apply (pairing_wf_rows (λ k r, if decide (k = code) then status else r.(pc_status))); [|done|done].
  intros k. simpl. rewrite lookup_insert. case_decide as Hk.
  - subst k. rewrite Hr. simpl. by rewrite decide_True.
  - destruct (ps_pairings s !! k); [|done]. simpl. rewrite decide_False by done.
    by rewrite set_pc_status_id.
Qed.

Lemma request_wf `{CallEnv} rng user type name s checked :
  pairing_wf (mkPairingSystem s checked) →
  pairing_wf (mkPairingSystem (request_pairing rng user type name s).2 checked).
Proof.
  intros Hwf. rewrite request_eq by apply Hwf. set (s1 := set_pairings _ s).
  assert (pairing_wf (mkPairingSystem s1 checked)) as Hs1.
  { revert Hwf. apply (pairing_wf_rows (λ _ r, (expired_for user type r).(pc_status))); [|done|done].
    intros k. simpl. rewrite lookup_fmap. destruct (ps_pairings s !! k) as [r|]; [|done]. simpl.
    by rewrite <-expired_for_status. }
  destruct (generate_pairing_code rng) as [code|e]; [|done]. case_decide; [|done].
  assert (∀ r, was_requested (ps_events s) r →
    was_requested (ps_events s ++ [requested_event code user type name]) r) as Hmono
    by (intros r Hr; apply elem_of_app; by left).
  destruct Hs1 as [Hk Hr Hv Ha Huq]. split; cbn [py_store py_checked ps_pairings ps_users ps_events fst snd] in *.
  - intros k r. simpl. rewrite lookup_insert. case_decide; [by intros [= <-]|apply Hk].
  - intros k r. rewrite lookup_insert. case_decide.
    + intros [= <-]. apply elem_of_app. right. apply list_elem_of_singleton. done.
    + intros Hr0. apply Hmono. by apply (Hr k).
  - intros r t Hin. destruct (Hv _ _ Hin) as (? & ? & ?). split_and!; auto.
  - done.
  - done.
Qed.

Lemma approve_wf `{CallEnv} r t s checked :
  (r, t) ∈ checked → pairing_wf (mkPairingSystem s checked) →
  pairing_wf (mkPairingSystem (finish_approval r.(pc_code) r s).2 checked).
Proof.
  intros Hin Hwf. unfold finish_approval, act_bind, act_map_err, create_user.
  cbn [au_id au_platform_user_id au_platform_type]. case_bool_decide as Hnew; [|done].
  destruct Hnew as [Hid Huser]. rewrite get_user_none in Huser.
  set (s1 := set_users _ s).
  assert (pairing_wf (mkPairingSystem s1 checked)) as Hs1.
  { destruct Hwf as [Hk Hr Hv Ha Huq]. split; cbn [py_store py_checked ps_pairings ps_users ps_events s1 set_users] in *;
      try done.
    - intros k u. rewrite lookup_insert. case_decide; [|apply Ha]. intros [= <-]. by exists r, t.
    - intros k k' u u'. rewrite !lookup_insert. repeat case_decide; [congruence| | |apply Huq].
      + intros [= <-] Hu' ? ?. by destruct (Huser _ _ Hu').
      + intros Hu [= <-] ? ?. by destruct (Huser _ _ Hu). }
  pose proof (update_status_wf (pc_code r) (pairing_status_to_string PairingApproved) _ _ Hs1) as Hs2.
  destruct (update_pairing_status _ _ s1) as [[[]|e] s2]; [|done].
  unfold broadcast_pairing. cbn [snd]. destruct Hs2 as [Hk Hr Hv Ha Huq].
  assert (∀ ev r0, was_requested (ps_events s2) r0 → was_requested (ps_events s2 ++ [ev]) r0) as Hmono
    by (intros ev r0 Hr0; apply elem_of_app; by left).
  split; cbn [py_store py_checked ps_pairings ps_users ps_events snd] in *; [done| | |done|done].
  - intros k r0 Hr0. eapply Hmono, Hr, Hr0.
  - intros r0 t0 Hin0. destruct (Hv _ _ Hin0) as (? & ? & ?). split_and!; auto.
Qed.

Lemma check_cases `{CallEnv} code s :
  (∃ r, get_valid_pending_pairing code s = (Ok r, s) ∧ s.(ps_pairings) !! code = Some r ∧
     is_pending r = true ∧ (now_ms < r.(pc_expires_at))%Z) ∨
  (∃ e, get_valid_pending_pairing code s = (Err e, s) ∨
        get_valid_pending_pairing code s = (Err e, (update_pairing_status code "expired" s).2)).
Proof.
  unfold get_valid_pending_pairing, act_bind, act_read, act_some, get_pairing_by_code.
  destruct (ps_pairings s !! code) as [r|] eqn:Hr; cbn [ok_or]; [|eauto].
  change (bool_decide (pc_status r = _)) with (is_pending r).
  destruct (is_pending r) eqn:Hp; cbn [negb]; [|right; eexists; by left].
  destruct (pc_expires_at r <=? now_ms)%Z eqn:He; [right; eexists; by right|].
  left. exists r. split_and!; [done..|lia].
Qed.

Lemma pairing_step_wf p p' : pairing_step p p' → pairing_wf p → pairing_wf p'.
Proof.
  intros Hstep Hwf. destruct Hstep as [env rng user type name s checked|env code r s s' checked Hc|
    env code e s s' checked Hc|env r t s checked Hin|r t s checked Hin|now s checked].
  - by apply request_wf.
  - destruct (check_cases code s) as [(r' & Hok & Hr & Hp & He)|(e & [Herr|Herr])]; rewrite Hc in *; [|done..].
    injection Hok as <- ->. destruct Hwf as [Hk Hreq Hv Ha Huq].
    split; cbn [py_store py_checked] in *; [done|done| | |done].
    + intros r0 t0 [[= -> ->]|Hin]%elem_of_cons; [|by apply Hv]. split_and!; [done..|by eapply Hreq].
    + intros k u Hu. destruct (Ha _ _ Hu) as (r0 & t0 & ? & ?). exists r0, t0. split; [set_solver|done].
  - destruct (check_cases code s) as [(r' & Hok & _)|(e' & [Herr|Herr])]; rewrite Hc in *; [done| |].
    + by injection Herr as _ ->.
    + injection Herr as _ ->. by apply update_status_wf.
  - by eapply approve_wf.
  - pose proof (update_status_wf (pc_code r) (pairing_status_to_string PairingRejected) _ _ Hwf) as Hs.
    unfold finish_rejection, act_map_err. by destruct (update_pairing_status _ _ s) as [[]].
  - revert Hwf. apply (pairing_wf_rows (λ _ r,
      if bool_decide (r.(pc_status) = "pending" ∧ (r.(pc_expires_at) <= now)%Z) then "expired" else r.(pc_status)));
      [|done|done].
    intros k. simpl. rewrite lookup_fmap. destruct (ps_pairings s !! k) as [r|]; [|done]. simpl.
    case_bool_decide; [done|by rewrite set_pc_status_id].
Qed.

(** C34: whatever requests, checks, approvals, rejections and clean-ups interleave, a user is
    authorised only through a code that was requested for this very user, and that was
    pending and not expired when the approval looked it up; and a platform user is
    authorised once at most. *)
Theorem authorized_by_live_code p k u :
  pairing_reachable p → p.(py_store).(ps_users) !! k = Some u →
  (∃ r t, (r, t) ∈ p.(py_checked) ∧ same_user u r ∧ is_pending r = true ∧ (t < r.(pc_expires_at))%Z ∧
     was_requested p.(py_store).(ps_events) r) ∧
  ∀ k' u', p.(py_store).(ps_users) !! k' = Some u' →
    u'.(au_platform_user_id) = u.(au_platform_user_id) → u'.(au_platform_type) = u.(au_platform_type) →
    k' = k.
Proof.
  intros Hp Hu. assert (pairing_wf p) as Hwf.
  { assert (∀ p0 p, rtc pairing_step p0 p → pairing_wf p0 → pairing_wf p) as Hsteps
      by (induction 1; eauto using pairing_step_wf).
    apply (Hsteps _ _ Hp). split; cbn [py_store py_checked no_pairings ps_pairings ps_users];
      [by intros k0 r|by intros k0 r|set_solver|by intros k0 r|by intros k0 k1 r]. }
  destruct (py_authorized _ Hwf _ _ Hu) as (r & t & Hin & Hsame).
  destruct (py_valid _ Hwf _ _ Hin) as (Hpend & Hlive & Hreq). split.
  - by exists r, t.
  - intros k' u' Hu' ? ?. by eapply (py_unique _ Hwf).
Qed.
End pairing.

(** ** Two users of a chat platform *)

Section demo.
#[local] Existing Instance insertion_order.

Definition demo_rng (n : Z) : option (list Z) := Some [n; 0; 0; 0]%Z.

Definition alice_store : PairingStore :=
  (request_pairing (H0 := demo_env "a"%char 1000) (demo_rng 7) "alice" "telegram" None (py_store no_pairings)).2.

Definition alice_row : PairingCodeRow :=
  mkPairingCodeRow "000007" "alice" "telegram" None 1000 601000 "pending".

Definition checked_system : PairingSystem := mkPairingSystem alice_store [(alice_row, 2000%Z)].
Definition approved_system : PairingSystem :=
  mkPairingSystem (finish_approval (H0 := demo_env "c"%char 3000) "000007" alice_row alice_store).2
    [(alice_row, 2000%Z)].

Lemma approved_reachable : pairing_reachable approved_system.
Proof.
  eapply rtc_l; [apply (step_request (demo_env "a"%char 1000) (demo_rng 7) "alice" "telegram" None)|].
  eapply rtc_l; [eapply (step_check (demo_env "b"%char 2000) "000007"); vm_compute; reflexivity|].
  eapply rtc_once. apply (step_approve (demo_env "c"%char 3000) alice_row 2000). set_solver.
Qed.

Lemma authorized_by_live_code_witness :
  ∃ r t, (r, t) ∈ approved_system.(py_checked) ∧ (t < r.(pc_expires_at))%Z ∧
    is_user_authorized "alice" "telegram" approved_system.(py_store) = true.
Proof.
  destruct (authorized_by_live_code approved_system "c0"
    (mkAssistantUserRow "c0" "alice" "telegram" None 3000 None None)) as [(r & t & Hin & _ & _ & Hlive & _) _].
  - exact approved_reachable.
  - vm_compute. reflexivity.
  - exists r, t. split; [exact Hin|]. split; [exact Hlive|]. vm_compute. reflexivity.
Defined.

Lemma request_pairing_spec_witness :
  ∃ code, generate_pairing_code (demo_rng 9) = Ok code ∧ String.length code = 6.
Proof.
  destruct (request_pairing_spec (H0 := demo_env "d"%char 4000) [9; 0; 0; 0]%Z "alice" "telegram" None alice_store)
    as (code & Hcode & Hlen & _).
  - intros k r Hk. assert (alice_store.(ps_pairings) = {["000007" := alice_row]}) as Heq by (vm_compute; reflexivity).
    rewrite Heq in Hk. apply lookup_singleton_Some in Hk as [<- <-]. reflexivity.
  - exists code. split; [exact Hcode|exact Hlen].
Defined.

(** Codes are never removed: once used, a code fails the request that draws it again. *)
Lemma used_code_fails_request :
  (request_pairing (H0 := demo_env "d"%char 900000) (demo_rng 7) "bob" "telegram" None approved_system.(py_store)).1 =
    Err (ChannelDatabase (Conflict "Pairing code '000007' already exists")).
Proof. vm_compute. reflexivity. Qed.

(** A rejection between the two halves of an approval is lost. *)
Lemma approval_overwrites_rejection :
  let s := (reject_pairing (H0 := demo_env "b"%char 2500) "000007" alice_store).2 in
  let s' := (finish_approval (H0 := demo_env "c"%char 3000) "000007" alice_row s).2 in
  (pc_status <$> s.(ps_pairings) !! "000007") = Some "rejected" ∧
  (pc_status <$> s'.(ps_pairings) !! "000007") = Some "approved" ∧
  is_user_authorized "alice" "telegram" s' = true.
Proof. vm_compute. split_and!; reflexivity. Qed.
End demo.
