(* ===== verification/Mailbox.v ===== *)
(** * Mailbox

    Models [crates/aionui-team/src/mailbox.rs], the message types of
    [aionui-team/src/types.rs] and the queries of
    [aionui-db/src/repository/sqlite_team.rs] behind them.  The table is the list of its
    rows in insertion order.  A query that fails is not modelled here: the caller
    decides whether it reaches the table.

    [ORDER BY] and [serde_json] are the interfaces of [Storage]. *)
From S2P Require Import Prelude Storage.

(** [MailboxMessageRow] *)
Record MailboxMessageRow := mkMailboxMessageRow {
  mr_id : string;
  mr_team_id : string;
  mr_to_agent_id : string;
  mr_from_agent_id : string;
  mr_msg_type : string;
  mr_content : string;
  mr_summary : option string;
  mr_files : option string;
  mr_read : bool;
  mr_created_at : Z;
}.

#[global] Instance MailboxMessageRow_eq_dec : EqDecision MailboxMessageRow.
Proof. solve_decision. Defined.

Definition set_read (b : bool) (r : MailboxMessageRow) : MailboxMessageRow :=
  mkMailboxMessageRow (mr_id r) (mr_team_id r) (mr_to_agent_id r) (mr_from_agent_id r)
    (mr_msg_type r) (mr_content r) (mr_summary r) (mr_files r) b (mr_created_at r).

Inductive MailboxMessageType := Message | IdleNotificationMessage | ShutdownRequestMessage.

#[global] Instance MailboxMessageType_eq_dec : EqDecision MailboxMessageType.
Proof. solve_decision. Defined.

(** [Display] and [parse] of [MailboxMessageType] *)
Definition message_type_to_string (t : MailboxMessageType) : string :=
  match t with
  | Message => "message"
  | IdleNotificationMessage => "idle_notification"
  | ShutdownRequestMessage => "shutdown_request"
  end.

Definition message_type_parse (s : string) : option MailboxMessageType :=
  if String.eqb s "message" then Some Message
  else if String.eqb s "idle_notification" then Some IdleNotificationMessage
  else if String.eqb s "shutdown_request" then Some ShutdownRequestMessage
  else None.

Record MailboxMessage := mkMailboxMessage {
  mm_id : string;
  mm_team_id : string;
  mm_to_agent_id : string;
  mm_from_agent_id : string;
  mm_msg_type : MailboxMessageType;
  mm_content : string;
  mm_summary : option string;
  mm_files : option (list string);
  mm_read : bool;
  mm_created_at : Z;
}.

#[global] Instance MailboxMessage_eq_dec : EqDecision MailboxMessage.
Proof. solve_decision. Defined.

Notation Table := (list MailboxMessageRow).

(** [slice::chunks] *)
Fixpoint chunks_fuel {A} (fuel n : nat) (l : list A) : list (list A) :=
  match fuel, l with
  | S fuel, _ :: _ => take n l :: chunks_fuel fuel n (drop n l)
  | _, _ => []
  end.

Definition chunks {A} (n : nat) (l : list A) : list (list A) := chunks_fuel (length l) n l.

(** ** The repository *)

Section mailbox.
Context `{!SqlOrder} `{!SerdeJson}.

Definition unread_row (team_id agent_id : string) (r : MailboxMessageRow) : bool :=
  bool_decide (mr_team_id r = team_id) && bool_decide (mr_to_agent_id r = agent_id) && negb (mr_read r).

(** [SELECT .. WHERE team_id = ? AND to_agent_id = ? AND read = 0 ORDER BY created_at ASC] *)
Definition unread_rows (team_id agent_id : string) (t : Table) : list MailboxMessageRow :=
  order_by mr_created_at (filter (unread_row team_id agent_id) t).

(** [read_unread_and_mark], one transaction *)
Definition read_unread_and_mark (team_id agent_id : string) (t : Table) : list MailboxMessageRow * Table :=
  let rows := unread_rows team_id agent_id t in
  (rows,
   if bool_decide (rows = []) then t
   else (λ r, if unread_row team_id agent_id r then set_read true r else r) <$> t).

(** [UPDATE mailbox SET read = 1 WHERE id IN (..)] *)
Definition mark_rows (ids : list string) (t : Table) : Table :=
  (λ r, if bool_decide (mr_id r ∈ ids) then set_read true r else r) <$> t.

(** [mark_read_batch] of the repository, by chunks of 500 identifiers *)
Definition mark_read_batch (ids : list string) (t : Table) : Table :=
  if bool_decide (ids = []) then t
  else foldl (λ t chunk, mark_rows chunk t) t (chunks 500 ids).

(** ** [Mailbox] *)

(** [MailboxMessage::from_row] *)
Definition from_row (r : MailboxMessageRow) : option MailboxMessage :=
  msg_type ← message_type_parse (mr_msg_type r);
  let files := s ← mr_files r; v ← list_of_json s; if bool_decide (v = []) then None else Some v in
  Some (mkMailboxMessage (mr_id r) (mr_team_id r) (mr_to_agent_id r) (mr_from_agent_id r)
          msg_type (mr_content r) (mr_summary r) files (mr_read r) (mr_created_at r)).

Definition write_with_files `{CallEnv} (team_id to_agent_id from_agent_id : string)
    (msg_type : MailboxMessageType) (content : string) (summary : option string)
    (files : option (list string)) (t : Table) : option MailboxMessage * Table :=
  let files_json := f ← files; if bool_decide (f = []) then None else Some (json_of_list f) in
  let row := mkMailboxMessageRow (gen_id 0) team_id to_agent_id from_agent_id
    (message_type_to_string msg_type) content summary files_json false now_ms in
  (from_row row, t ++ [row]).

Definition mailbox_write `{CallEnv} (team_id to_agent_id from_agent_id : string)
    (msg_type : MailboxMessageType) (content : string) (summary : option string) (t : Table) :
    option MailboxMessage * Table :=
  write_with_files team_id to_agent_id from_agent_id msg_type content summary None t.

Definition read_unread (team_id agent_id : string) (t : Table) : list MailboxMessage * Table :=
  let '(rows, t) := read_unread_and_mark team_id agent_id t in (omap from_row rows, t).

Definition peek_unread (team_id agent_id : string) (t : Table) : list MailboxMessage :=
  omap from_row (unread_rows team_id agent_id t).

Definition mark_all_unread_for_agents_read (team_id : string) (agent_ids : list string) (t : Table) :
    nat * Table :=
  let ids := agent_ids ≫= (λ agent_id, mm_id <$> peek_unread team_id agent_id t) in
  (length ids, if bool_decide (ids = []) then t else mark_read_batch ids t).

(** The repository's [get_history]; a negative [LIMIT] is none. *)
Definition history_rows (team_id agent_id : string) (limit : option Z) (t : Table) :
    list MailboxMessageRow :=
  let rows := order_by mr_created_at
    (filter (λ r, mr_team_id r = team_id ∧ mr_to_agent_id r = agent_id) t) in
  match limit with
  | Some limit => if (limit <? 0)%Z then rows else take (Z.to_nat limit) rows
  | None => rows
  end.

Definition get_history (team_id agent_id : string) (limit : option Z) (t : Table) :
    list MailboxMessage :=
  omap from_row (history_rows team_id agent_id limit t).

Definition has_unread (team_id agent_id : string) (t : Table) : bool :=
  existsb (λ r, negb (mr_read r)) (history_rows team_id agent_id None t).

Definition delete_by_team (team_id : string) (t : Table) : Table :=
  filter (λ r, mr_team_id r ≠ team_id) t.

End mailbox.

(** ** Properties *)

Lemma concat_chunks_fuel {A} fuel n (l : list A) :
  0 < n → length l ≤ fuel → concat (chunks_fuel fuel n l) = l.
Proof.
  intros Hn. revert l. induction fuel as [|fuel IH]; intros l Hl; [by destruct l; simpl in Hl; try lia|].
  destruct l as [|x l]; [done|]. cbn [chunks_fuel concat].
  rewrite IH; [apply take_drop|]. rewrite length_drop. simpl in *. lia.
Qed.

Lemma mark_rows_app ids1 ids2 (t : Table) : mark_rows ids2 (mark_rows ids1 t) = mark_rows (ids1 ++ ids2) t.
Proof.
  unfold mark_rows. rewrite <-list_fmap_compose. apply list_fmap_ext. intros _ r _. unfold compose.
  repeat case_bool_decide; simpl in *; set_solver.
Qed.

Lemma mark_rows_nil (t : Table) : mark_rows [] t = t.
Proof. unfold mark_rows. induction t as [|r t IH]; [done|]. cbn. by rewrite IH. Qed.

(** The chunks make no difference. *)
Lemma mark_read_batch_rows ids (t : Table) : mark_read_batch ids t = mark_rows ids t.
Proof.
  unfold mark_read_batch. case_bool_decide as Hids; [by rewrite Hids, mark_rows_nil|].
  transitivity (mark_rows (concat (chunks 500 ids)) t).
  - generalize (chunks 500 ids) as ls. intros ls. revert t.
    induction ls as [|l ls IH]; intros t; cbn [foldl concat]; [by rewrite mark_rows_nil|].
    by rewrite IH, mark_rows_app.
  - unfold chunks. by rewrite concat_chunks_fuel by lia.
Qed.

Section props.
Context `{!SqlOrder} `{!SerdeJson}.
Implicit Types (t : Table) (r : MailboxMessageRow) (ids : list string).

Lemma unread_rows_perm team agent t : unread_rows team agent t ≡ₚ filter (unread_row team agent) t.
Proof. apply order_by_perm. Qed.

Lemma peek_unread_perm team agent t :
  peek_unread team agent t ≡ₚ omap (from_row) (filter (unread_row team agent) t).
Proof. unfold peek_unread. by rewrite unread_rows_perm. Qed.

Lemma from_row_id r m : from_row r = Some m → mm_id m = mr_id r.
Proof. unfold from_row. destruct (message_type_parse _); simpl; [by intros [= <-]|done]. Qed.

(** Marking removes exactly the marked messages from the unread ones. *)
Lemma peek_unread_mark team agent ids t :
  peek_unread team agent (mark_rows ids t) ≡ₚ
    filter (λ m, mm_id m ∉ ids) (peek_unread team agent t).
Proof.
  rewrite !peek_unread_perm. unfold mark_rows. induction t as [|r t IH]; [done|].
  cbn [fmap list_fmap]. rewrite !filter_cons.
  case_bool_decide as Hin.
  - rewrite decide_False by (unfold unread_row; simpl; rewrite andb_false_r; by intros []).
    destruct (decide (unread_row team agent r)); [|exact IH]. cbn [omap list_omap].
    destruct (from_row r) as [m|] eqn:Hm; [|exact IH].
    rewrite filter_cons, decide_False; [exact IH|]. rewrite (from_row_id _ _ Hm). naive_solver.
  - destruct (decide (unread_row team agent r)); [|exact IH]. cbn [omap list_omap].
    destruct (from_row r) as [m|] eqn:Hm; [|exact IH].
    rewrite filter_cons, decide_True; [by rewrite IH|]. by rewrite (from_row_id _ _ Hm).
Qed.

Lemma parse_to_string ty : message_type_parse (message_type_to_string ty) = Some ty.
Proof. by destruct ty. Qed.

Lemma read_rows_unread team agent team' agent' t :
  filter (unread_row team' agent') (read_unread_and_mark team agent t).2 =
    if decide (team' = team ∧ agent' = agent) then [] else filter (unread_row team' agent') t.
Proof.
  unfold read_unread_and_mark. cbn [snd].
  assert (∀ t, filter (unread_row team' agent')
      ((λ r, if unread_row team agent r then set_read true r else r) <$> t) =
    if decide (team' = team ∧ agent' = agent) then [] else filter (unread_row team' agent') t) as Hmark.
  { clear t. induction t as [|r t IH]; [by case_decide|]. cbn [fmap list_fmap]. rewrite !filter_cons, IH.
    unfold unread_row. simpl. repeat case_bool_decide; repeat case_decide; destruct (mr_read r) eqn:Hr;
      simpl in *; rewrite ?Hr in *; simpl in *; naive_solver. }
  case_bool_decide as Hnil; [|apply Hmark].
  case_decide as Heq; [|done]. destruct Heq as [-> ->].
  apply Permutation_nil_r. by rewrite <-unread_rows_perm, Hnil.
Qed.

(** The row a write appends, and the message it answers *)
Lemma write_appends `{CallEnv} team to from ty content summary files t :
  ∃ row, write_with_files team to from ty content summary files t =
      (Some (mkMailboxMessage (gen_id 0) team to from ty content summary
         (f ← files; if bool_decide (f = []) then None else Some f) false now_ms), t ++ [row]) ∧
    from_row row = Some (mkMailboxMessage (gen_id 0) team to from ty content summary
         (f ← files; if bool_decide (f = []) then None else Some f) false now_ms) ∧
    ∀ team' agent, unread_row team' agent row = bool_decide (team' = team ∧ agent = to).
Proof.
  unfold write_with_files. set (row := mkMailboxMessageRow _ _ _ _ _ _ _ _ _ _). exists row.
  assert (from_row row = Some (mkMailboxMessage (gen_id 0) team to from ty content summary
    (f ← files; if bool_decide (f = []) then None else Some f) false now_ms)) as Hrow.
  { unfold from_row. simpl. rewrite parse_to_string. simpl. do 2 f_equal.
    destruct files as [f|]; [|done]. simpl. case_bool_decide as Hf; [done|]. simpl.
    rewrite list_of_json_of_list. simpl. by rewrite bool_decide_eq_false_2. }
  rewrite Hrow. split; [done|]. split; [done|]. intros team' agent. unfold unread_row. simpl.
  repeat case_bool_decide; simpl; naive_solver.
Qed.

Lemma peek_unread_snoc team agent t row :
  peek_unread team agent (t ++ [row]) ≡ₚ
    peek_unread team agent t ++
    (if unread_row team agent row then option_list (from_row row) else []).
Proof.
  rewrite !peek_unread_perm, filter_app, omap_app, filter_cons.
  destruct (unread_row team agent row); simpl; [|done]. by destruct (from_row row).
Qed.

(** C7: What is written to a mailbox is read from it: after [write_with_files] the
    recipient's unread messages are those of before and the new one, with its type and
    its files as given, and nobody else's change; [read_unread] then returns them, in the
    order of their times, and leaves none of them unread. *)
Theorem mailbox_write_read `{CallEnv} team to from ty content summary files t :
  let message := mkMailboxMessage (gen_id 0) team to from ty content summary
    (f ← files; if bool_decide (f = []) then None else Some f) false now_ms in
  ∃ t', write_with_files team to from ty content summary files t =
      (Some message, t') ∧
    peek_unread team to t' ≡ₚ peek_unread team to t ++ [message] ∧
    (∀ team' agent, (team', agent) ≠ (team, to) →
       peek_unread team' agent t' ≡ₚ peek_unread team' agent t) ∧
    let '(read, t'') := read_unread team to t' in
    read = peek_unread team to t' ∧
    Sorted (λ r1 r2, (mr_created_at r1 ≤ mr_created_at r2)%Z) (unread_rows team to t') ∧
    peek_unread team to t'' = [] ∧
    ∀ team' agent, (team', agent) ≠ (team, to) →
      peek_unread team' agent t'' ≡ₚ peek_unread team' agent t.
Proof.
  intros message. destruct (write_appends team to from ty content summary files t)
    as (row & Hwrite & Hrow & Hunread). exists (t ++ [row]). split; [exact Hwrite|].
  assert (∀ team' agent, (team', agent) ≠ (team, to) → unread_row team' agent row = false) as Hother.
  { intros team' agent Hne. rewrite Hunread. apply bool_decide_eq_false. naive_solver. }
  assert (unread_row team to row = true) as Hself by (rewrite Hunread; by apply bool_decide_eq_true).
  split; [|split].
  - rewrite peek_unread_snoc, Hself, Hrow. done.
  - intros team' agent Hne. rewrite peek_unread_snoc, Hother by done. by rewrite app_nil_r.
  - unfold read_unread. destruct (read_unread_and_mark team to (t ++ [row])) as [rows t''] eqn:Hread.
    assert (∀ team' agent, filter (unread_row team' agent) t'' =
      if decide (team' = team ∧ agent = to) then [] else filter (unread_row team' agent) (t ++ [row])) as Ht''
      by (intros team' agent; rewrite <-read_rows_unread; by rewrite Hread).
    split_and!.
    + by injection Hread as <- _.
    + apply order_by_sorted.
    + apply Permutation_nil_r. by rewrite peek_unread_perm, Ht'', decide_True.
    + intros team' agent Hne. rewrite !peek_unread_perm, Ht'', decide_False by naive_solver.
      rewrite filter_app, omap_app, filter_cons, decide_False by (rewrite Hother by done; by intros []).
      by rewrite app_nil_r.
Qed.

End props.

(** ** Messages are kept *)

(** Every message of [t] is in [t'], read or not. *)
Definition kept (t t' : Table) : Prop := ∀ r, r ∈ t → r ∈ t' ∨ set_read true r ∈ t'.

#[global] Instance kept_preorder : PreOrder kept.
Proof.
  split; [by left|]. intros t1 t2 t3 H12 H23 r Hr.
  destruct (H12 r Hr) as [H2|H2]; [by apply H23|]. by destruct (H23 _ H2); right.
Qed.

Lemma kept_marked (Q : MailboxMessageRow → bool) (t : Table) :
  kept t ((λ r, if Q r then set_read true r else r) <$> t).
Proof.
  intros r Hr. destruct (Q r) eqn:HQ; [right|left]; apply list_elem_of_fmap; exists r; by rewrite HQ.
Qed.

Lemma kept_mark_read_batch ids (t : Table) : kept t (mark_read_batch ids t).
Proof. rewrite mark_read_batch_rows. apply (kept_marked (λ r, bool_decide (mr_id r ∈ ids))). Qed.

Lemma kept_app (t t' : Table) : kept t (t ++ t').
Proof. intros r Hr. left. apply elem_of_app. by left. Qed.

Lemma kept_write `{!SqlOrder, !SerdeJson, CallEnv} team to from ty content summary files (t : Table) :
  kept t (write_with_files team to from ty content summary files t).2.
Proof. apply kept_app. Qed.

Lemma kept_read_unread `{!SqlOrder, !SerdeJson} team agent (t : Table) :
  kept t (read_unread team agent t).2.
Proof.
  unfold read_unread, read_unread_and_mark. cbn. case_bool_decide; [done|].
  apply (kept_marked (unread_row team agent)).
Qed.
