(* ===== verification/TaskBoard.v ===== *)
(** * Task board

    Models [crates/aionui-team/src/task_board.rs], the task types of
    [aionui-team/src/types.rs] and the queries on [team_tasks] of
    [aionui-db/src/repository/sqlite_team.rs].  The table is a map from its primary key;
    each query is atomic and does not fail in [sqlx]. *)
From S2P Require Import Prelude Storage WorkModel.

(** ** Data *)

Inductive TaskStatus := TaskPending | TaskInProgress | TaskCompleted | TaskDeleted.

#[global] Instance TaskStatus_eq_dec : EqDecision TaskStatus.
Proof. solve_decision. Defined.

Definition task_status_to_string (s : TaskStatus) : string :=
  match s with
  | TaskPending => "pending"
  | TaskInProgress => "in_progress"
  | TaskCompleted => "completed"
  | TaskDeleted => "deleted"
  end.

Definition task_status_parse (s : string) : option TaskStatus :=
  if String.eqb s "pending" then Some TaskPending
  else if String.eqb s "in_progress" then Some TaskInProgress
  else if String.eqb s "completed" then Some TaskCompleted
  else if String.eqb s "deleted" then Some TaskDeleted
  else None.

(** [tk] = [TeamTaskRow] *)
Record TeamTaskRow := mkTeamTaskRow {
  tk_id : string;
  tk_team_id : string;
  tk_subject : string;
  tk_description : option string;
  tk_status : string;
  tk_owner : option string;
  tk_blocked_by : string;
  tk_blocks : string;
  tk_metadata : option string;
  tk_created_at : Z;
  tk_updated_at : Z;
}.

(** [UPDATE team_tasks SET blocks = .., updated_at = ..], and the same for [blocked_by] *)
Definition set_tk_blocks blocks now r := mkTeamTaskRow r.(tk_id) r.(tk_team_id) r.(tk_subject)
  r.(tk_description) r.(tk_status) r.(tk_owner) r.(tk_blocked_by) blocks r.(tk_metadata)
  r.(tk_created_at) now.
Definition set_tk_blocked_by blocked_by now r := mkTeamTaskRow r.(tk_id) r.(tk_team_id) r.(tk_subject)
  r.(tk_description) r.(tk_status) r.(tk_owner) blocked_by r.(tk_blocks) r.(tk_metadata)
  r.(tk_created_at) now.

(** [up] = [UpdateTaskParams] *)
Record UpdateTaskParams := mkUpdateTaskParams {
  up_status : option string;
  up_description : option string;
  up_owner : option string;
  up_blocked_by : option string;
  up_metadata : option string;
}.

Notation Board := (gmap string TeamTaskRow).

Section task_board.
Context `{!SerdeJson} `{!SqlOrder}.

(** [tt] = [TeamTask] *)
Record TeamTask := mkTeamTask {
  tt_id : string;
  tt_team_id : string;
  tt_subject : string;
  tt_description : option string;
  tt_status : TaskStatus;
  tt_owner : option string;
  tt_blocked_by : list string;
  tt_blocks : list string;
  tt_metadata : option Value;
  tt_created_at : Z;
  tt_updated_at : Z;
}.

(** [TeamTask::from_row]; [None] is an error of [serde_json]. *)
Definition task_from_row (r : TeamTaskRow) : option TeamTask :=
  let status := default TaskPending (task_status_parse r.(tk_status)) in
  blocked_by ← list_of_json r.(tk_blocked_by);
  blocks ← list_of_json r.(tk_blocks);
  metadata ← match r.(tk_metadata) with
             | Some s => v ← value_of_json s; Some (Some v)
             | None => Some None
             end;
  Some (mkTeamTask r.(tk_id) r.(tk_team_id) r.(tk_subject) r.(tk_description) status r.(tk_owner)
          blocked_by blocks metadata r.(tk_created_at) r.(tk_updated_at)).

(** [tu] = [TaskUpdate] *)
Record TaskUpdate := mkTaskUpdate {
  tu_status : option TaskStatus;
  tu_description : option string;
  tu_owner : option string;
  tu_blocked_by : option (list string);
  tu_metadata : option Value;
}.

(** ** The repository *)

Section calls.
Context `{CallEnv}.

(** [INSERT INTO team_tasks]: a second row with the same key is an error of [sqlx]. *)
Definition repo_create_task (row : TeamTaskRow) : action Board DbError unit := λ b,
  match b !! row.(tk_id) with
  | Some _ => (Err Query, b)
  | None => (Ok tt, <[row.(tk_id) := row]> b)
  end.

Definition find_task_by_id (team_id task_id : string) (b : Board) : option TeamTaskRow :=
  row ← b !! task_id; if bool_decide (row.(tk_team_id) = team_id) then Some row else None.

Definition task_not_found (task_id : string) : DbError := NotFound ("task " +:+ task_id).

Definition repo_update_task (task_id : string) (p : UpdateTaskParams) : action Board DbError unit := λ b,
  if bool_decide (p.(up_status) = None ∧ p.(up_description) = None ∧ p.(up_owner) = None ∧
                  p.(up_blocked_by) = None ∧ p.(up_metadata) = None)
  then (Ok tt, b)
  else match b !! task_id with
  | None => (Err (task_not_found task_id), b)
  | Some r =>
      let or {A} (new : option A) (old : option A) := match new with Some _ => new | None => old end in
      (Ok tt, <[task_id :=
         mkTeamTaskRow r.(tk_id) r.(tk_team_id) r.(tk_subject) (or p.(up_description) r.(tk_description))
           (default r.(tk_status) p.(up_status)) (or p.(up_owner) r.(tk_owner))
           (default r.(tk_blocked_by) p.(up_blocked_by)) r.(tk_blocks)
           (or p.(up_metadata) r.(tk_metadata)) r.(tk_created_at) now_ms]> b)
  end.

Definition append_to_blocks (task_id blocked_task_id : string) : action Board DbError unit := λ b,
  match b !! task_id with
  | None => (Err (task_not_found task_id), b)
  | Some row =>
      let blocks := default [] (list_of_json row.(tk_blocks)) in
      let blocks := if bool_decide (blocked_task_id ∈ blocks) then blocks
                    else blocks ++ [blocked_task_id] in
      (Ok tt, <[task_id := set_tk_blocks (json_of_list blocks) now_ms row]> b)
  end.

Definition remove_from_blocked_by (task_id unblocked_task_id : string) : action Board DbError unit := λ b,
  match b !! task_id with
  | None => (Err (task_not_found task_id), b)
  | Some row =>
      let blocked_by := default [] (list_of_json row.(tk_blocked_by)) in
      let blocked_by := filter (λ id, id ≠ unblocked_task_id) blocked_by in
      (Ok tt, <[task_id := set_tk_blocked_by (json_of_list blocked_by) now_ms row]> b)
  end.

Definition repo_list_tasks (team_id : string) (b : Board) : list TeamTaskRow :=
  order_by tk_created_at (filter (λ r, r.(tk_team_id) = team_id) (map_to_list b).*2).

Definition delete_tasks_by_team (team_id : string) (b : Board) : Board :=
  filter (λ e, e.2.(tk_team_id) ≠ team_id) b.

(** ** [TaskBoard] *)

(** One round of the first loop of [create_task] *)
Definition check_dependency (team_id dep_id : string) : action Board TeamError unit :=
  dep ←! act_read (find_task_by_id team_id dep_id);
  match dep with
  | Some _ => act_ret tt
  | None => act_err (BlockedTaskNotFound dep_id)
  end.

Definition new_task_row (team_id subject : string) (description owner : option string)
    (blocked_by : list string) : TeamTaskRow :=
  mkTeamTaskRow (gen_id 0) team_id subject description (task_status_to_string TaskPending) owner
    (json_of_list blocked_by) "[]" None now_ms now_ms.

Definition create_task (team_id subject : string) (description owner : option string)
    (blocked_by : list string) : action Board TeamError TeamTask :=
  _ ←! act_each (check_dependency team_id) blocked_by;
  let row := new_task_row team_id subject description owner blocked_by in
  _ ←! act_map_err Database (repo_create_task row);
  _ ←! act_each (λ dep_id, act_map_err Database (append_to_blocks dep_id row.(tk_id))) blocked_by;
  act_some Json (task_from_row row).

Definition check_unblocks (completed_task_id : string) (completed_row : TeamTaskRow) :
    action Board TeamError unit :=
  blocks ←! act_some Json (list_of_json completed_row.(tk_blocks));
  act_each (λ downstream_id,
    act_map_err Database (remove_from_blocked_by downstream_id completed_task_id)) blocks.

Definition update_task (team_id task_id : string) (update : TaskUpdate) :
    action Board TeamError TeamTask :=
  found ←! act_read (find_task_by_id team_id task_id);
  existing ←! act_some (TaskNotFound task_id) found;
  let params := mkUpdateTaskParams (task_status_to_string <$> update.(tu_status))
    update.(tu_description) update.(tu_owner) (json_of_list <$> update.(tu_blocked_by))
    (json_of_value <$> update.(tu_metadata)) in
  _ ←! act_map_err Database (repo_update_task task_id params);
  _ ←! (if bool_decide (update.(tu_status) = Some TaskCompleted)
        then check_unblocks task_id existing else act_ret tt);
  found ←! act_read (find_task_by_id team_id task_id);
  updated ←! act_some (TaskNotFound task_id) found;
  act_some Json (task_from_row updated).

Definition list_tasks (team_id : string) (b : Board) : list TeamTask :=
  omap task_from_row (repo_list_tasks team_id b).

(** [TeammateManager::update_task]: an unknown status is dropped. *)
Definition manager_update_task (team_id task_id : string) (status description owner : option string)
    (blocked_by : option (list string)) : action Board TeamError TeamTask :=
  update_task team_id task_id
    (mkTaskUpdate (status ≫= task_status_parse) description owner blocked_by None).
End calls.
End task_board.
