(* ===== verification/TaskBoardProps.v ===== *)
(** * Task board: properties

    Dependencies are links in both directions, between tasks of one team that exist, and
    without cycles; completing a task frees the tasks that wait for it.  This holds of the
    dependencies a task is created with; those that an update sets later link one way only
    ([later_dependency_never_unblocks]), and the invariant says what is left of it then. *)
From stdpp Require Import relations.
From Stdlib Require Import Ascii.
From S2P Require Import Prelude Storage WorkModel TaskBoard WorkDemo.

Section board.
Context `{!SerdeJson} `{!SqlOrder}.
Implicit Types (r : TeamTaskRow) (b : Board) (later : gset string).

Definition blockers r : list string := default [] (list_of_json r.(tk_blocked_by)).
Definition dependents r : list string := default [] (list_of_json r.(tk_blocks)).

(** ** Well-formed boards

    [later]: the tasks whose dependencies an update was to set after their creation *)

Record board_wf later b : Prop := {
  bw_key k r : b !! k = Some r → r.(tk_id) = k;
  bw_readable k r : b !! k = Some r → is_Some (task_from_row r);
  bw_blocker k r a : k ∉ later → b !! k = Some r → a ∈ blockers r →
    ∃ ra, b !! a = Some ra ∧ ra.(tk_team_id) = r.(tk_team_id) ∧ k ∈ dependents ra;
  bw_dependent k r a : b !! a = Some r → k ∈ dependents r →
    ∃ rk, b !! k = Some rk ∧ rk.(tk_team_id) = r.(tk_team_id);
  bw_acyclic : ∃ rank : string → nat,
    ∀ k r a, k ∉ later → b !! k = Some r → a ∈ blockers r → rank a < rank k;
}.

(** What a method does to the rows that exist *)
Definition rows_become (g : string → TeamTaskRow → TeamTaskRow) b b' : Prop :=
  ∀ k, b' !! k = g k <$> b !! k.

(** A row keeps its place in the graph, up to blockers that are gone, or, unless [linked], other
    ones. *)
Record keeps_links (linked : Prop) r r' : Prop := {
  kl_id : r'.(tk_id) = r.(tk_id);
  kl_team : r'.(tk_team_id) = r.(tk_team_id);
  kl_readable : is_Some (task_from_row r) → is_Some (task_from_row r');
  kl_blockers : linked → blockers r' ⊆ blockers r;
  kl_dependents : dependents r' = dependents r;
}.

#[global] Instance keeps_links_preorder linked : PreOrder (keeps_links linked).
Proof.
  split; [by intros r; split|]. intros r1 r2 r3 [????] [????].
  split; [congruence|congruence|auto|set_solver|congruence].
Qed.

Lemma board_wf_rows g later later' b b' :
  later ⊆ later' →
  (∀ k r, b !! k = Some r → keeps_links (k ∉ later') r (g k r)) → rows_become g b b' →
  board_wf later b → board_wf later' b'.
Proof.
  intros Hlater Hg Hb [Hkey Hread Hblocker Hdep (rank & Hrank)].
  assert (∀ k r', b' !! k = Some r' → ∃ r, b !! k = Some r ∧ r' = g k r) as Hinv.
  { intros k r'. rewrite (Hb k), fmap_Some. naive_solver. }
  split.
  - intros k r' (r & Hr & ->)%Hinv. rewrite (kl_id _ _ _ (Hg _ _ Hr)). eauto.
  - intros k r' (r & Hr & ->)%Hinv. apply (kl_readable _ _ _ (Hg _ _ Hr)). eauto.
  - intros k r' a Hk (r & Hr & ->)%Hinv Ha. apply (kl_blockers _ _ _ (Hg _ _ Hr) Hk) in Ha.
    destruct (Hblocker _ _ _ (λ Hin, Hk (Hlater _ Hin)) Hr Ha) as (ra & Hra & Hteam & Hin). exists (g a ra).
    rewrite (Hb a), Hra, (kl_team _ _ _ (Hg _ _ Hra)), (kl_team _ _ _ (Hg _ _ Hr)),
      (kl_dependents _ _ _ (Hg _ _ Hra)). done.
  - intros k r' a (r & Hr & ->)%Hinv Hk. rewrite (kl_dependents _ _ _ (Hg _ _ Hr)) in Hk.
    destruct (Hdep _ _ _ Hr Hk) as (rk & Hrk & Hteam). exists (g k rk).
    rewrite (Hb k), Hrk, (kl_team _ _ _ (Hg _ _ Hrk)), (kl_team _ _ _ (Hg _ _ Hr)). done.
  - exists rank. intros k r' a Hk (r & Hr & ->)%Hinv Ha. apply (kl_blockers _ _ _ (Hg _ _ Hr) Hk) in Ha.
    apply (Hrank _ _ _ (λ Hin, Hk (Hlater _ Hin)) Hr Ha).
Qed.

(** ** Loops over rows *)

(** A query that changes one row and fails if there is none *)
Definition on_row (f : TeamTaskRow → TeamTaskRow) (id : string) : action Board DbError unit := λ b,
  match b !! id with
  | None => (Err (task_not_found id), b)
  | Some row => (Ok tt, <[id := f row]> b)
  end.

Lemma each_on_row f ids b :
  (∀ r, f (f r) = f r) → (∀ k, k ∈ ids → is_Some (b !! k)) →
  ∃ b', act_each (λ id, act_map_err Database (on_row f id)) ids b = (Ok tt, b') ∧
        rows_become (λ k r, if decide (k ∈ ids) then f r else r) b b'.
Proof.
  intros Hf Hids. revert b Hids. induction ids as [|id ids IH]; intros b Hids.
  - exists b. split; [done|]. intros k. by destruct (b !! k).
  - destruct (Hids id) as [r Hr]; [set_solver|].
    destruct (IH (<[id := f r]> b)) as (b' & Heach & Hb').
    { intros k Hk. rewrite lookup_insert. case_decide; [done|]. apply Hids. set_solver. }
    exists b'. split.
    + cbn [act_each]. unfold act_bind, act_map_err, on_row at 1. by rewrite Hr.
    + intros k. rewrite Hb'. destruct (decide (id = k)) as [<-|Hk].
      * rewrite lookup_insert_eq, Hr. simpl. f_equal.
        rewrite (decide_True (P := id ∈ id :: ids)) by set_solver. case_decide; by rewrite ?Hf.
      * rewrite lookup_insert_ne by done. destruct (b !! k); [|done]. simpl. f_equal.
        apply decide_ext. set_solver.
Qed.

Section rows.
Context `{CallEnv}.

Definition appended (x : string) r : TeamTaskRow :=
  set_tk_blocks (json_of_list (if bool_decide (x ∈ dependents r) then dependents r
                               else dependents r ++ [x])) now_ms r.

Definition removed (x : string) r : TeamTaskRow :=
  set_tk_blocked_by (json_of_list (filter (λ id, id ≠ x) (blockers r))) now_ms r.

Lemma append_on_row x id : append_to_blocks id x = on_row (appended x) id.
Proof. done. Qed.

Lemma remove_on_row x id : remove_from_blocked_by id x = on_row (removed x) id.
Proof. done. Qed.

Lemma dependents_appended x r :
  dependents (appended x r) = if bool_decide (x ∈ dependents r) then dependents r else dependents r ++ [x].
Proof. unfold dependents at 1. simpl. by rewrite list_of_json_of_list. Qed.

Lemma blockers_removed x r : blockers (removed x r) = filter (λ id, id ≠ x) (blockers r).
Proof. unfold blockers at 1. simpl. by rewrite list_of_json_of_list. Qed.

Lemma appended_twice x r : appended x (appended x r) = appended x r.
Proof.
  unfold appended at 1. rewrite dependents_appended, (bool_decide_eq_true_2 (x ∈ _)); [done|].
  case_bool_decide; set_solver.
Qed.

Lemma removed_twice x r : removed x (removed x r) = removed x r.
Proof.
  unfold removed at 1. rewrite blockers_removed, list_filter_true; [done|].
  by intros k [? _]%list_elem_of_filter.
Qed.

(** ** [create_task] *)

Lemma check_dependencies team deps b :
  act_each (check_dependency team) deps b =
    match find_map (λ d, match find_task_by_id team d b with Some _ => None | None => Some d end) deps with
    | Some d => (Err (BlockedTaskNotFound d), b)
    | None => (Ok tt, b)
    end.
Proof.
  induction deps as [|d deps IH]; [done|]. cbn [act_each find_map]. unfold act_bind at 1.
  unfold check_dependency at 1, act_bind, act_read. by destruct (find_task_by_id team d b).
Qed.

Lemma find_task_Some team k b r :
  find_task_by_id team k b = Some r ↔ b !! k = Some r ∧ r.(tk_team_id) = team.
Proof.
  unfold find_task_by_id. destruct (b !! k) as [r'|]; simpl; [|naive_solver].
  case_bool_decide; naive_solver.
Qed.

Definition new_task (team subject : string) (description owner : option string) (deps : list string) :
    TeamTask :=
  mkTeamTask (gen_id 0) team subject description TaskPending owner deps [] None now_ms now_ms.

(** The table after a task was created *)
Definition created team subject description owner (deps : list string) b b' : Prop :=
  ∀ k, b' !! k = if decide (k = gen_id 0)
                 then Some (new_task_row team subject description owner deps)
                 else (λ r, if decide (k ∈ deps) then appended (gen_id 0) r else r) <$> b !! k.

Lemma create_task_ok team subject description owner deps b :
  b !! gen_id 0 = None → (∀ d, d ∈ deps → is_Some (find_task_by_id team d b)) →
  ∃ b', create_task team subject description owner deps b =
      (Ok (new_task team subject description owner deps), b') ∧
    created team subject description owner deps b b'.
Proof.
  intros Hnew Hdeps. unfold create_task, act_bind at 1. rewrite check_dependencies.
  assert (find_map (λ d, match find_task_by_id team d b with Some _ => None | None => Some d end) deps
    = None) as ->.
  { clear Hnew. induction deps as [|d deps IH]; [done|]. cbn [find_map].
    destruct (Hdeps d ltac:(set_solver)) as [r ->]. apply IH. set_solver. }
  set (row := new_task_row team subject description owner deps).
  unfold act_bind at 1, act_map_err at 1, repo_create_task. cbn [tk_id row new_task_row]. rewrite Hnew.
  destruct (each_on_row (appended (gen_id 0)) deps (<[gen_id 0 := row]> b)) as (b' & Heach & Hb').
  { apply appended_twice. }
  { intros k Hk. rewrite lookup_insert. case_decide; [done|].
    destruct (Hdeps k Hk) as [r [Hr _]%find_task_Some]. eauto. }
  change (λ id, act_map_err Database (on_row (appended (gen_id 0)) id))
    with (λ id, act_map_err Database (append_to_blocks id (gen_id 0))) in Heach.
  exists b'. unfold act_bind. rewrite Heach. split.
  - unfold act_some, task_from_row. simpl. rewrite list_of_json_of_list. simpl.
    by rewrite list_of_json_empty.
  - intros k. rewrite Hb'. destruct (decide (k = gen_id 0)) as [->|Hk].
    + rewrite lookup_insert_eq. simpl. rewrite decide_False; [done|].
      intros [r [Hr _]%find_task_Some]%Hdeps. congruence.
    + by rewrite lookup_insert_ne.
Qed.

(** ** Rows that stay readable *)

Lemma readable_iff r :
  is_Some (task_from_row r) ↔ is_Some (list_of_json r.(tk_blocked_by)) ∧
    is_Some (list_of_json r.(tk_blocks)) ∧
    ∀ s, r.(tk_metadata) = Some s → is_Some (value_of_json s).
Proof.
  unfold task_from_row. destruct (list_of_json (tk_blocked_by r)), (list_of_json (tk_blocks r));
    simpl; try (split; [by intros []|by intros ([] & [] & _)]).
  destruct (tk_metadata r) as [s|]; simpl; [|by split].
  destruct (value_of_json s) as [v|] eqn:Hv; simpl.
  - split; [intros _; split_and!; [done..|]; intros ? [= <-]; by rewrite Hv|done].
  - split; [by intros []|]. intros (_ & _ & Hs). destruct (Hs s eq_refl). congruence.
Qed.

Lemma removed_keeps linked x r : keeps_links linked r (removed x r).
Proof.
  split; [done|done| | |done].
  - rewrite !readable_iff. simpl. rewrite list_of_json_of_list. naive_solver.
  - intros _. rewrite blockers_removed. intros k [_ Hk]%list_elem_of_filter. done.
Qed.

Lemma appended_readable x r : is_Some (task_from_row r) → is_Some (task_from_row (appended x r)).
Proof. rewrite !readable_iff. simpl. rewrite list_of_json_of_list. naive_solver. Qed.

Lemma created_wf team subject description owner deps later b b' :
  b !! gen_id 0 = None → (∀ d, d ∈ deps → is_Some (find_task_by_id team d b)) →
  created team subject description owner deps b b' → board_wf later b → board_wf later b'.
Proof.
  intros Hnew Hdeps Hb' [Hkey Hread Hblocker Hdep (rank & Hrank)].
  set (row := new_task_row team subject description owner deps) in *.
  assert (blockers row = deps) as Hrow by (unfold blockers; simpl; by rewrite list_of_json_of_list).
  assert (dependents row = []) as Hrow' by (unfold dependents; simpl; by rewrite list_of_json_empty).
  assert (∀ k r', b' !! k = Some r' → k = gen_id 0 ∧ r' = row ∨ k ≠ gen_id 0 ∧ ∃ r, b !! k = Some r ∧
    r'.(tk_id) = r.(tk_id) ∧ r'.(tk_team_id) = r.(tk_team_id) ∧ blockers r' = blockers r ∧
    (is_Some (task_from_row r) → is_Some (task_from_row r')) ∧
    (∀ d, d ∈ dependents r' ↔ d ∈ dependents r ∨ k ∈ deps ∧ d = gen_id 0)) as Hinv.
  { intros k r'. rewrite Hb'. case_decide; [naive_solver|]. intros (r & Hr & ->)%fmap_Some. right.
    split; [done|]. exists r. case_decide; [|naive_solver].
    split_and!; [done..|apply appended_readable|]. intros d. rewrite dependents_appended.
    case_bool_decide; set_solver. }
  assert (∀ k r, b !! k = Some r → k ≠ gen_id 0) as Hold by congruence.
  split.
  - intros k r' [[-> ->]|(_ & r & Hr & -> & _)]%Hinv; [done|eauto].
  - intros k r' [[-> ->]|(_ & r & Hr & _ & _ & _ & Hr' & _)]%Hinv; [|eauto].
    apply readable_iff. simpl. rewrite list_of_json_of_list, list_of_json_empty. naive_solver.
  - intros k r' a Hl Hk Ha. destruct (Hinv _ _ Hk) as [[-> ->]|(_ & r & Hr & _ & Hteam & Hbl & _ & _)].
    + rewrite Hrow in Ha. destruct (Hdeps _ Ha) as [ra [Hra Hteam]%find_task_Some].
      exists (appended (gen_id 0) ra). rewrite Hb', decide_False by eauto.
      rewrite Hra. simpl. rewrite decide_True by done. split_and!; [done..|].
      rewrite dependents_appended. case_bool_decide; set_solver.
    + rewrite Hbl in Ha. destruct (Hblocker _ _ _ Hl Hr Ha) as (ra & Hra & Hteam' & Hin).
      rewrite Hb', decide_False by eauto. rewrite Hra. simpl. eexists. split; [done|].
      rewrite Hteam. case_decide; [|done]. split; [done|]. rewrite dependents_appended.
      case_bool_decide; set_solver.
  - intros k r' a Ha Hk. destruct (Hinv _ _ Ha) as [[-> ->]|(_ & r & Hr & _ & Hteam & _ & _ & Hd)].
    + rewrite Hrow' in Hk. by apply not_elem_of_nil in Hk.
    + destruct (proj1 (Hd _) Hk) as [Hk'|[Hin ->]].
      * destruct (Hdep _ _ _ Hr Hk') as (rk & Hrk & Hteam'). rewrite Hb', decide_False by eauto.
        rewrite Hrk. simpl. eexists. split; [done|]. rewrite Hteam. by case_decide.
      * rewrite Hb', decide_True by done. eexists. split; [done|]. rewrite Hteam.
        destruct (Hdeps _ Hin) as [r0 [Hr0 Ht]%find_task_Some]. simpl. congruence.
  - exists (λ k, if decide (k = gen_id 0) then S (list_max (rank <$> deps)) else rank k).
    intros k r' a Hl Hk Ha. destruct (Hinv _ _ Hk) as [[-> ->]|(Hne & r & Hr & _ & _ & Hbl & _)].
    + rewrite Hrow in Ha. rewrite decide_False, decide_True; [|done|].
      * apply le_n_S. assert (Forall (λ n, n ≤ list_max (rank <$> deps)) (rank <$> deps)) as Hall
          by (apply list_max_le; done).
        rewrite Forall_forall in Hall. apply Hall. by apply list_elem_of_fmap_2.
      * destruct (Hdeps _ Ha) as [ra [Hra _]%find_task_Some]. eauto.
    + rewrite Hbl in Ha. rewrite !decide_False; [eauto|done|].
      destruct (Hblocker _ _ _ Hl Hr Ha) as (ra & Hra & _). eauto.
Qed.

(** ** [update_task] *)

Definition update_params (update : TaskUpdate) : UpdateTaskParams :=
  mkUpdateTaskParams (task_status_to_string <$> update.(tu_status)) update.(tu_description)
    update.(tu_owner) (json_of_list <$> update.(tu_blocked_by)) (json_of_value <$> update.(tu_metadata)).

Definition no_params (p : UpdateTaskParams) : Prop :=
  p.(up_status) = None ∧ p.(up_description) = None ∧ p.(up_owner) = None ∧
  p.(up_blocked_by) = None ∧ p.(up_metadata) = None.

#[local] Instance no_params_dec p : Decision (no_params p).
Proof. unfold no_params. apply _. Defined.

(** The row that the query leaves *)
Definition updated_row (p : UpdateTaskParams) r : TeamTaskRow :=
  if decide (no_params p) then r
  else mkTeamTaskRow r.(tk_id) r.(tk_team_id) r.(tk_subject)
    (from_option Some r.(tk_description) p.(up_description)) (default r.(tk_status) p.(up_status))
    (from_option Some r.(tk_owner) p.(up_owner)) (default r.(tk_blocked_by) p.(up_blocked_by))
    r.(tk_blocks) (from_option Some r.(tk_metadata) p.(up_metadata)) r.(tk_created_at) now_ms.

Lemma repo_update_row p id b r :
  b !! id = Some r → repo_update_task id p b = (Ok tt, <[id := updated_row p r]> b).
Proof.
  intros Hr. unfold repo_update_task, updated_row. case_bool_decide as Hp.
  - rewrite decide_True by exact Hp. by rewrite insert_id.
  - rewrite decide_False, Hr by exact Hp. by destruct p as [? [] [] ? []].
Qed.

Lemma updated_keeps update r :
  keeps_links (update.(tu_blocked_by) = None) r (updated_row (update_params update) r).
Proof.
  unfold updated_row. destruct (decide _); [done|]. split; [done|done| | |done].
  - rewrite !readable_iff. simpl. intros (? & ? & Hm). split_and!.
    { destruct (tu_blocked_by update) as [l|]; simpl; [by rewrite list_of_json_of_list|done]. }
    { done. }
    destruct (tu_metadata update) as [v|]; simpl; [|done]. intros s [= <-].
    by rewrite value_of_json_of_value.
  - intros Hb. unfold blockers. simpl. by rewrite Hb.
Qed.

Definition completes (update : TaskUpdate) : Prop := update.(tu_status) = Some TaskCompleted.

(** What becomes of the row [k] when the task [id], so far [r], is updated *)
Definition after_update (update : TaskUpdate) (id : string) r (k : string) r0 : TeamTaskRow :=
  let r1 := if decide (k = id) then updated_row (update_params update) r0 else r0 in
  if decide (update.(tu_status) = Some TaskCompleted ∧ k ∈ dependents r) then removed id r1 else r1.

Lemma after_update_keeps update id r k r0 :
  keeps_links (k = id → update.(tu_blocked_by) = None) r0 (after_update update id r k r0).
Proof.
  unfold after_update. repeat case_decide; subst; try done; try apply removed_keeps.
  - etrans; [|apply removed_keeps]. pose proof (updated_keeps update r0) as []. split; auto.
  - pose proof (updated_keeps update r0) as []. split; auto.
Qed.

Lemma update_task_ok team id update later b r :
  board_wf later b → find_task_by_id team id b = Some r →
  ∃ task b', update_task team id update b = (Ok task, b') ∧
    rows_become (after_update update id r) b b' ∧
    task_from_row (after_update update id r id r) = Some task.
Proof.
  intros Hwf Hfind. pose proof Hfind as [Hr Hteam]%find_task_Some.
  pose proof (after_update_keeps update id r id r) as Hkeep.
  destruct (kl_readable _ _ _ Hkeep (bw_readable _ _ Hwf _ _ Hr)) as [task Htask].
  set (b1 := <[id := updated_row (update_params update) r]> b).
  assert (∃ b', (if bool_decide (tu_status update = Some TaskCompleted) then check_unblocks id r else act_ret tt) b1
      = (Ok tt, b') ∧ rows_become (after_update update id r) b b') as (b' & Hun & Hb').
  { assert (rows_become (λ k r0, if decide (k = id) then updated_row (update_params update) r0 else r0) b b1)
      as Hb1.
    { intros k. unfold b1. destruct (decide (k = id)) as [->|Hk].
      - by rewrite lookup_insert_eq, Hr.
      - rewrite lookup_insert_ne by done. by destruct (b !! k). }
    case_bool_decide as Hdone.
    - destruct (bw_readable _ _ Hwf _ _ Hr) as [t Ht].
      assert (list_of_json (tk_blocks r) = Some (dependents r)) as Hblocks.
      { unfold task_from_row in Ht. unfold dependents.
        by destruct (list_of_json (tk_blocked_by r)), (list_of_json (tk_blocks r)). }
      destruct (each_on_row (removed id) (dependents r) b1) as (b' & Heach & Hb').
      + apply removed_twice.
      + intros k Hk. destruct (bw_dependent _ _ Hwf _ _ _ Hr Hk) as (rk & Hrk & _).
        rewrite Hb1, Hrk. done.
      + exists b'. split; [|intros k; rewrite Hb', Hb1; destruct (b !! k); [|done]; simpl; f_equal;
          unfold after_update; apply decide_ext; naive_solver].
        unfold check_unblocks, act_bind, act_some. rewrite Hblocks. exact Heach.
    - exists b1. split; [done|]. intros k. rewrite Hb1. destruct (b !! k); [|done]. simpl. f_equal.
      unfold after_update. rewrite (decide_False (P := _ ∧ _)); [done|naive_solver]. }
  exists task, b'. split; [|done]. unfold update_task, act_bind at 1, act_read at 1. rewrite Hfind.
  unfold act_bind, act_some, act_map_err. cbn [ok_or]. fold (update_params update).
  rewrite (repo_update_row _ _ _ _ Hr). fold b1. rewrite Hun. unfold act_read.
  assert (find_task_by_id team id b' = Some (after_update update id r id r)) as ->.
  { apply find_task_Some. rewrite Hb', Hr, (kl_team _ _ _ Hkeep). done. }
  cbn [ok_or]. by rewrite Htask.
Qed.

Lemma update_task_missing team id update b :
  find_task_by_id team id b = None → update_task team id update b = (Err (TaskNotFound id), b).
Proof. intros Hf. unfold update_task, act_bind, act_read, act_some. by rewrite Hf. Qed.

Lemma find_map_none {A B} (f : A → option B) l : find_map f l = None ↔ ∀ x, x ∈ l → f x = None.
Proof.
  induction l as [|x l IH]; cbn [find_map]; [split; [by intros _ x ?%not_elem_of_nil|done]|].
  destruct (f x) eqn:Hx.
  - split; [done|]. intros Hl. rewrite Hl in Hx; [done|]. set_solver.
  - rewrite IH. split; [|set_solver]. intros Hl y [->|Hy]%elem_of_cons; auto.
Qed.

Lemma create_task_missing team subject description owner deps b d :
  d ∈ deps → find_task_by_id team d b = None →
  ∃ d', d' ∈ deps ∧ find_task_by_id team d' b = None ∧
    create_task team subject description owner deps b = (Err (BlockedTaskNotFound d'), b).
Proof.
  intros Hd Hnone. unfold create_task, act_bind at 1. rewrite check_dependencies.
  assert (∀ l d', find_map (λ d, match find_task_by_id team d b with Some _ => None | None => Some d end) l
    = Some d' → d' ∈ l ∧ find_task_by_id team d' b = None) as Hsome.
  { intros l d'. induction l as [|x l IH]; cbn [find_map]; [done|].
    destruct (find_task_by_id team x b) eqn:Hx; [|intros [= <-]; set_solver]. set_solver. }
  destruct (find_map _ deps) as [d'|] eqn:Hm.
  - exists d'. destruct (Hsome _ _ Hm). done.
  - rewrite find_map_none in Hm. specialize (Hm d Hd). simpl in Hm. by rewrite Hnone in Hm.
Qed.
End rows.

(** ** Boards in use

    Tasks are created under new identifiers, updated in every way, and deleted with their
    team. *)
Inductive board_reachable : gset string → Board → Prop :=
  | board_empty : board_reachable ∅ ∅
  | board_create (env : CallEnv) team subject description owner deps later b :
      board_reachable later b → b !! gen_id 0 = None →
      board_reachable later (create_task team subject description owner deps b).2
  | board_update (env : CallEnv) team id update later b :
      board_reachable later b →
      board_reachable (match update.(tu_blocked_by) with Some _ => later ∪ {[id]} | None => later end)
        (update_task team id update b).2
  | board_delete_team team later b :
      board_reachable later b → board_reachable later (delete_tasks_by_team team b).

Lemma deps_found_dec team (deps : list string) b :
  (∀ d, d ∈ deps → is_Some (find_task_by_id team d b)) ∨
  ∃ d, d ∈ deps ∧ find_task_by_id team d b = None.
Proof.
  destruct (decide (Forall (λ d, is_Some (find_task_by_id team d b)) deps)) as [Hall|Hnot].
  - left. by apply Forall_forall.
  - right. apply not_Forall_Exists, Exists_exists in Hnot as (d & Hd & Hn); [|apply _].
    exists d. split; [done|]. by apply eq_None_not_Some.
Qed.

Lemma board_reachable_board_wf later b : board_reachable later b → board_wf later b.
Proof.
  induction 1 as [|env team subject description owner deps later b _ Hwf Hnew|
    env team id update later b _ Hwf|team later b _ Hwf].
  - by split; [..|exists (λ _, 0)].
  - destruct (deps_found_dec team deps b) as [Hdeps|(d & Hd & Hnone)].
    + destruct (create_task_ok team subject description owner deps b Hnew Hdeps) as (b' & -> & Hb').
      by eapply created_wf.
    + destruct (create_task_missing team subject description owner deps b d Hd Hnone)
        as (d' & _ & _ & ->). done.
  - set (later' := match tu_blocked_by update with Some _ => _ | None => _ end).
    assert (later ⊆ later' ∧ (id ∉ later' → update.(tu_blocked_by) = None)) as [Hl Hid]
      by (unfold later'; destruct (tu_blocked_by update); set_solver).
    destruct (find_task_by_id team id b) as [r|] eqn:Hf.
    + destruct (update_task_ok team id update later b r Hwf Hf) as (task & b' & -> & Hb' & _).
      eapply board_wf_rows; [exact Hl| |exact Hb'|done]. intros k r0 _.
      destruct (after_update_keeps update id r k r0) as [H1 H2 H3 H4 H5].
      split; try done. intros Hk. apply H4. intros ->. by apply Hid.
    + rewrite update_task_missing by done.
      apply (board_wf_rows (λ _ r, r) later later' b b); [exact Hl|done| |exact Hwf].
      intros k. by destruct (b !! k).
  - destruct Hwf as [Hkey Hread Hblocker Hdep (rank & Hrank)].
    assert (∀ k r, delete_tasks_by_team team b !! k = Some r ↔ b !! k = Some r ∧ tk_team_id r ≠ team) as Hdel
      by (intros k r; apply map_lookup_filter_Some).
    split.
    + intros k r [Hr _]%Hdel. eauto.
    + intros k r [Hr _]%Hdel. eauto.
    + intros k r a Hl [Hr Ht]%Hdel Ha. destruct (Hblocker _ _ _ Hl Hr Ha) as (ra & Hra & Hteam & Hin).
      exists ra. rewrite Hdel, Hteam. done.
    + intros k r a [Hr Ht]%Hdel Ha. destruct (Hdep _ _ _ Hr Ha) as (ra & Hra & Hteam).
      exists ra. rewrite Hdel, Hteam. done.
    + exists rank. intros k r a Hl [Hr _]%Hdel. eauto.
Qed.

(** C33: every board in use is well formed, whatever updates it has seen: rows have their key as
    identifier and can be read back, and the tasks that a task is said to block exist in its
    team.  Of a task whose dependencies no update was asked to set after its creation: each
    blocker is a task of the same team and lists it among the tasks it blocks, and it does not
    wait for itself through any number of such tasks. *)
Theorem boards_consistent later b :
  board_reachable later b → board_wf later b ∧
    ∀ k, ¬ tc (λ x y, ∃ r, y ∉ later ∧ b !! y = Some r ∧ x ∈ blockers r) k k.
Proof.
  intros Hb%board_reachable_board_wf. split; [done|]. intros k Hk.
  destruct (bw_acyclic _ _ Hb) as (rank & Hrank).
  assert (∀ x y, tc (λ x y, ∃ r, y ∉ later ∧ b !! y = Some r ∧ x ∈ blockers r) x y → rank x < rank y) as Hlt.
  { intros x y Hxy. induction Hxy as [x y (r & Hl & Hr & Hx)|x y z (r & Hl & Hr & Hx) _ IH]; [eauto|].
    specialize (Hrank _ _ _ Hl Hr Hx). lia. }
  specialize (Hlt _ _ Hk). lia.
Qed.

(** [create_task] fails exactly when a dependency is not a task of the team: it names
    one and changes nothing.  Otherwise it returns the pending task with its
    dependencies, stores it, enters it in the [blocks] of each dependency once, and
    leaves every other row as it is. *)
Theorem create_task_spec `{CallEnv} team subject description owner (deps : list string) b :
  b !! gen_id 0 = None →
  ((∃ d, d ∈ deps ∧ find_task_by_id team d b = None) →
     ∃ d, d ∈ deps ∧ find_task_by_id team d b = None ∧
       create_task team subject description owner deps b = (Err (BlockedTaskNotFound d), b)) ∧
  ((∀ d, d ∈ deps → is_Some (find_task_by_id team d b)) →
     ∃ b' row, create_task team subject description owner deps b =
         (Ok (new_task team subject description owner deps), b') ∧
       b' !! gen_id 0 = Some row ∧ task_from_row row = Some (new_task team subject description owner deps) ∧
       ∀ k r, b !! k = Some r → ∃ r', b' !! k = Some r' ∧
         (k ∉ deps → r' = r) ∧
         (k ∈ deps → blockers r' = blockers r ∧
            dependents r' = if decide (gen_id 0 ∈ dependents r) then dependents r
                            else dependents r ++ [gen_id 0])).
Proof.
  intros Hnew. split.
  - intros (d & Hd & Hnone). by eapply create_task_missing.
  - intros Hdeps. destruct (create_task_ok team subject description owner deps b Hnew Hdeps) as (b' & Hok & Hb').
    exists b', (new_task_row team subject description owner deps).
    split_and!; [done|by rewrite Hb', decide_True| |].
    + unfold task_from_row. simpl. rewrite list_of_json_of_list. simpl. by rewrite list_of_json_empty.
    + intros k r Hr. rewrite Hb', decide_False, Hr by congruence. simpl. eexists. split; [done|].
      case_decide; [|done]. split; [done|]. intros _. split; [done|]. rewrite dependents_appended.
      repeat case_decide; case_bool_decide; done.
Qed.

(** Completing a task of the team succeeds, and the task returned is completed; from then on
    no task with the dependencies it was created with waits for it, and none of them stops
    waiting for anything else.  An update of a task that the team does not have fails without a change. *)
Theorem completion_unblocks `{CallEnv} team id update later b :
  board_reachable later b → update.(tu_status) = Some TaskCompleted → update.(tu_blocked_by) = None →
  match find_task_by_id team id b with
  | None => update_task team id update b = (Err (TaskNotFound id), b)
  | Some _ => ∃ task b', update_task team id update b = (Ok task, b') ∧
      task.(tt_id) = id ∧ task.(tt_status) = TaskCompleted ∧
      ∀ k r', k ∉ later → b' !! k = Some r' → ∃ r, b !! k = Some r ∧
        ∀ a, a ∈ blockers r' ↔ a ∈ blockers r ∧ a ≠ id
  end.
Proof.
  intros Hwf%board_reachable_board_wf Hdone Hb.
  destruct (find_task_by_id team id b) as [r|] eqn:Hf; [|by apply update_task_missing].
  destruct (update_task_ok team id update later b r Hwf Hf) as (task & b' & Hok & Hb' & Htask).
  apply find_task_Some in Hf as [Hr _]. exists task, b'. split; [done|].
  assert (task.(tt_id) = id ∧ task.(tt_status) = TaskCompleted) as [Hid Hst].
  { pose proof (kl_id _ _ _ (after_update_keeps update id r id r)) as Hid.
    rewrite (bw_key _ _ Hwf _ _ Hr) in Hid.
    assert (tk_status (after_update update id r id r) = "completed") as Hs.
    { unfold after_update. rewrite (decide_True (P := id = id)) by done.
      assert (tk_status (updated_row (update_params update) r) = "completed") as Hs.
      { unfold updated_row. rewrite decide_False; [simpl; by rewrite Hdone|].
        intros [Hs _]. simpl in Hs. by rewrite Hdone in Hs. }
      case_decide; done. }
    unfold task_from_row in Htask. rewrite Hs, Hid in Htask.
    repeat match type of Htask with context [?o ≫= _] => destruct o; cbn [mbind option_bind] in Htask;
      [|discriminate] end.
    by injection Htask as <-. }
  split_and!; [done..|]. intros k r' Hl. rewrite Hb'. intros (r0 & Hr0 & ->)%fmap_Some. exists r0.
  split; [done|]. intros a. unfold after_update.
  set (r1 := if decide (k = id) then updated_row (update_params update) r0 else r0).
  assert (blockers r1 = blockers r0) as Hr1.
  { unfold r1. case_decide; [|done]. unfold blockers, updated_row. case_decide; [done|]. simpl. by rewrite Hb. }
  case_decide as Hk.
  - rewrite blockers_removed, list_elem_of_filter, Hr1. naive_solver.
  - rewrite Hr1. split; [|naive_solver]. intros Ha. split; [done|]. intros ->.
    destruct (bw_blocker _ _ Hwf _ _ _ Hl Hr0 Ha) as (ra & Hra & _ & Hin). rewrite Hr in Hra. naive_solver.
Qed.
End board.

(** ** A board with two tasks, the second waiting for the first *)

Section demo.
#[local] Existing Instances insertion_order plain_json.

Definition board_one : Board :=
  (create_task (H1 := demo_env "a"%char 1) "team" "first" None None [] ∅).2.
Definition board_two : Board :=
  (create_task (H1 := demo_env "b"%char 2) "team" "second" None (Some "dev") ["a0"] board_one).2.

Lemma board_two_reachable : board_reachable ∅ board_two.
Proof.
  apply (board_create (demo_env "b"%char 2)); [|vm_compute; reflexivity].
  apply (board_create (demo_env "a"%char 1)); [apply board_empty|vm_compute; reflexivity].
Qed.

(** The first task is then told to wait for the second. *)
Definition board_update_three : TaskUpdate := mkTaskUpdate None None None (Some ["b0"]) None.
Definition board_three : Board :=
  (update_task (H1 := demo_env "c"%char 3) "team" "a0" board_update_three board_two).2.

Lemma board_three_reachable : board_reachable {["a0"]} board_three.
Proof.
  replace {["a0"]} with (∅ ∪ {["a0"]} : gset string) by set_solver.
  exact (board_update (demo_env "c"%char 3) "team" "a0" board_update_three ∅ _ board_two_reachable).
Qed.

Definition complete_update : TaskUpdate := mkTaskUpdate (Some TaskCompleted) None None None None.

Lemma boards_consistent_witness :
  board_wf ∅ board_two ∧ (blockers <$> board_two !! "b0") = Some ["a0"] ∧
  board_wf {["a0"]} board_three ∧ (blockers <$> board_three !! "a0") = Some ["b0"].
Proof.
  split; [apply (boards_consistent ∅ board_two board_two_reachable)|].
  split; [vm_compute; reflexivity|].
  split; [apply (boards_consistent _ board_three board_three_reachable)|vm_compute; reflexivity].
Defined.

Lemma create_task_spec_witness :
  ∃ b' row, create_task (H1 := demo_env "c"%char 3) "team" "third" None None ["b0"; "a0"] board_two =
      (Ok (new_task (H1 := demo_env "c"%char 3) "team" "third" None None ["b0"; "a0"]), b') ∧
    b' !! "c0" = Some row.
Proof.
  destruct (create_task_spec (H1 := demo_env "c"%char 3) "team" "third" None None ["b0"; "a0"] board_two)
    as [_ Hok].
  - vm_compute. reflexivity.
  - destruct Hok as (b' & row & Hc & Hrow & _).
    + apply Forall_forall. repeat constructor; vm_compute; eauto.
    + exists b', row. split; [exact Hc|exact Hrow].
Defined.

Lemma completion_unblocks_witness :
  ∃ task b', update_task (H1 := demo_env "d"%char 4) "team" "a0" complete_update board_two = (Ok task, b') ∧
    task.(tt_status) = TaskCompleted ∧ "a0" ∈ default [] (blockers <$> board_two !! "b0").
Proof.
  assert (is_Some (find_task_by_id "team" "a0" board_two)) as [r Hr] by (vm_compute; eauto).
  pose proof (completion_unblocks (H1 := demo_env "d"%char 4) "team" "a0" complete_update ∅ board_two
    board_two_reachable eq_refl eq_refl) as Hu.
  rewrite Hr in Hu. destruct Hu as (task & b' & Hok & _ & Hst & _). exists task, b'.
  split; [exact Hok|]. split; [exact Hst|]. vm_compute. left.
Defined.

(** A dependency that is set by an update is not entered in [blocks]: completing the
    dependency does not free the task. *)
Lemma later_dependency_never_unblocks :
  let b := (create_task (H1 := demo_env "b"%char 2) "team" "second" None None [] board_one).2 in
  let b := (update_task (H1 := demo_env "c"%char 3) "team" "b0"
              (mkTaskUpdate None None None (Some ["a0"]) None) b).2 in
  let '(r, b) := update_task (H1 := demo_env "d"%char 4) "team" "a0" complete_update b in
  (tt_status <$> match r with Ok t => Some t | Err _ => None end) = Some TaskCompleted ∧
  (blockers <$> b !! "b0") = Some ["a0"].
Proof. vm_compute. split; reflexivity. Qed.
End demo.
