(* ===== verification/EventLoop.v ===== *)
(** * Event loop: how a slot drains its mailbox

    Models the inner loop of [run_event_loop] in
    [crates/aionui-team/src/event_loop.rs] with [prepare_next_batch] and
    [handle_signal_intents] of [session.rs]: what they do to the coordinator and to the
    mailbox.  Everything the loop asks of the rest of the system in one turn (which
    queries and preparations succeed, the snapshot of the member's runtime, how the
    agent's turn goes) is an [Answers].  Nothing else happens to the slot in between:
    the loop is modelled while nobody else writes to it.

    Left out: prompts, the conversation mirror, status and events, and the idle
    notification of [finalize_turn], which goes to another slot. *)
From S2P Require Import Prelude Storage WorkModel WorkState WorkCoordinator.
From S2P Require MemberRuntime.
From S2P Require Import Mailbox.

(** ** Data *)

Inductive AgentTurnStatus := TurnCompleted | TurnFailed | TurnSkipped.

Definition is_success (s : AgentTurnStatus) : bool :=
  match s with TurnCompleted => true | TurnFailed | TurnSkipped => false end.

Inductive AgentTurnExecutionError := Skipped (reason : string) | ExecutionFailed (reason : string).

Inductive PrepareBatchResult :=
  | Execute (batch : WorkBatch) (unread : list MailboxMessage)
  | PrepareSettleSignals (intent_ids : list string)
  | PrepareWaitingForCompletion
  | PrepareBlocked
  | PrepareQuiescent.

Inductive ExecuteResult := ContinueDraining | WaitForSignal.

Definition is_retryable_start_skip (error : AgentTurnExecutionError) : bool :=
  match error with Skipped reason => contains "already running" reason | ExecutionFailed _ => false end.

(** The runtime constraint that [prepare_next_batch] and [publish_runtime_constraint]
    derive from the member's runtime; [has_loop] is [event_loops.has(slot_id)]. *)
Definition runtime_constraint_of (has_loop : bool) (s : MemberRuntime.MemberRuntimeSnapshot) :
    RuntimeConstraint :=
  match s with
  | MemberRuntime.SnapAbsent => if has_loop then Ready else Starting 0
  | MemberRuntime.SnapAttaching operation_id => Starting operation_id
  | MemberRuntime.SnapReady => Ready
  | MemberRuntime.SnapFailed operation_id failure =>
      Failed operation_id (MemberRuntime.mf_classification failure)
  | MemberRuntime.SnapRemoving operation_id => Removing operation_id
  | MemberRuntime.SnapSessionStopped => SessionStopped
  end.

(** What one turn of the loop learns from the rest of the system.  [an_env n] is the
    environment of the [n]-th call to the coordinator. *)
Record Answers := mkAnswers {
  an_shutdown : bool;                   (* *shutdown_rx.borrow() *)
  an_role : option TeamRunTargetRole;   (* get_agent: the role, or an error *)
  an_has_loop : bool;
  an_snapshot : MemberRuntime.MemberRuntimeSnapshot;
  an_terminal_marked : bool;            (* mark_read_batch of the terminal messages *)
  an_peeked : bool;                     (* peek_unread *)
  an_tasks_listed : bool;               (* list_tasks *)
  an_transport_found : bool;            (* team_tool_transport_for_agent, when called *)
  an_started : option string;           (* the turn id with which on_started is called *)
  an_turn : result AgentTurnStatus AgentTurnExecutionError;
  an_marked : bool;                     (* mark_read_batch after the turn *)
  an_env : nat → CallEnv;
}.

(** Why the inner loop stops *)
Inductive LoopEnd :=
  | EndShutdown
  | EndWaitForSignal
  | EndWaitingForCompletion
  | EndBlocked
  | EndQuiescent
  | EndError.

#[global] Instance LoopEnd_eq_dec : EqDecision LoopEnd.
Proof. solve_decision. Defined.

Section event_loop.
Context {P : Type} `{RunCausalityPort P} `{!SqlOrder} `{!SerdeJson}.
Context (team_id slot_id : string).

Record Loop := mkLoop {
  lp_coordinator : Coordinator P;
  lp_mailbox : Table;
}.

(** ** [prepare_next_batch]

    The outer [None] is a panic of the coordinator, the inner one the error return. *)

Definition session_unread (t : Table) : list MailboxMessage :=
  filter (λ m, mm_from_agent_id m ≠ slot_id) (peek_unread team_id slot_id t).

Definition prepare_claimed (a : Answers) (batch : WorkBatch) (unread : list MailboxMessage)
    (l : Loop) : option (option PrepareBatchResult * Loop) :=
  let claimed_unread := filter (λ m, mm_id m ∈ wb_mailbox_message_ids batch) unread in
  if negb (an_tasks_listed a) then
    '(_, c) ← retry_start (H0 := an_env a 3) batch (lp_coordinator l);
    Some (None, mkLoop c (lp_mailbox l))
  else if negb (an_transport_found a) then Some (None, l)
  else Some (Some (Execute batch claimed_unread), l).

Definition prepare_next_batch (a : Answers) (l : Loop) : option (option PrepareBatchResult * Loop) :=
  match an_role a with
  | None => Some (None, l)
  | Some role =>
      '(update, c) ← set_runtime_constraint (H0 := an_env a 0) slot_id
                       (runtime_constraint_of (an_has_loop a) (an_snapshot a)) (lp_coordinator l);
      if negb (bool_decide (ru_terminal_message_ids update = [])) && negb (an_terminal_marked a)
      then Some (None, mkLoop c (lp_mailbox l)) else
      let t := if bool_decide (ru_terminal_message_ids update = []) then lp_mailbox l
               else mark_read_batch (ru_terminal_message_ids update) (lp_mailbox l) in
      if negb (an_peeked a) then Some (None, mkLoop c t) else
      let unread := session_unread t in
      '(_, c) ← reconcile_mailbox (H0 := an_env a 1) slot_id (mm_id <$> unread) role c;
      '(decision, c) ← next (H0 := an_env a 2) slot_id c;
      match decision with
      | Claim batch => prepare_claimed a batch unread (mkLoop c t)
      | SettleSignals intent_ids => Some (Some (PrepareSettleSignals intent_ids), mkLoop c t)
      | WaitingForCompletion => Some (Some PrepareWaitingForCompletion, mkLoop c t)
      | Blocked _ => Some (Some PrepareBlocked, mkLoop c t)
      | Quiescent => Some (Some PrepareQuiescent, mkLoop c t)
      end
  end.

(** ** [execute_and_finalize] *)

Definition mark_batch_messages_read (a : Answers) (batch : WorkBatch) (t : Table) : Table :=
  if bool_decide (wb_mailbox_message_ids batch = []) then t
  else if an_marked a then mark_read_batch (wb_mailbox_message_ids batch) t else t.

(** [on_started]: a late start of a cancelled batch is cancelled again. *)
Definition on_started (a : Answers) (batch : WorkBatch) (turn_id : string) (c : Coordinator P) :
    option (Coordinator P) :=
  match mark_started (H0 := an_env a 4) batch turn_id c with
  | (StartAccepted, c) => Some c
  | (CancelImmediately, c) =>
      '(_, c) ← cancel_batch (H0 := an_env a 5) batch "late_start_cancelled" c; Some c
  | (StartStaleOwner, c) => Some c
  end.

Definition execute_and_finalize (a : Answers) (batch : WorkBatch) (l : Loop) :
    option (ExecuteResult * Loop) :=
  c ← match an_started a with
      | Some turn_id => on_started a batch turn_id (lp_coordinator l)
      | None => Some (lp_coordinator l)
      end;
  match an_turn a with
  | Ok status =>
      let t := mark_batch_messages_read a batch (lp_mailbox l) in
      '(_, c) ← (if is_success status then complete_batch (H0 := an_env a 6) batch c
                 else fail_batch (H0 := an_env a 6) batch "turn_failed" c);
      Some (ContinueDraining, mkLoop c t)
  | Err error =>
      if bool_decide (an_started a = None) && is_retryable_start_skip error then
        '(_, c) ← retry_start (H0 := an_env a 6) batch c;
        Some (WaitForSignal, mkLoop c (lp_mailbox l))
      else
        let t := mark_batch_messages_read a batch (lp_mailbox l) in
        '(_, c) ← fail_batch (H0 := an_env a 6) batch "turn_start_failed" c;
        Some (ContinueDraining, mkLoop c t)
  end.

(** ** The inner loop *)

(** One turn: the end of the loop, if it ends, and the messages of the turn that ran *)
Definition drain_turn (a : Answers) (l : Loop) :
    option (option LoopEnd * list MailboxMessage * Loop) :=
  if an_shutdown a then Some (Some EndShutdown, [], l) else
  '(prepared, l) ← prepare_next_batch a l;
  match prepared with
  | Some (Execute batch unread) =>
      '(executed, l) ← execute_and_finalize a batch l;
      Some (match executed with
            | WaitForSignal => (Some EndWaitForSignal, [])
            | ContinueDraining => (None, unread)
            end, l)
  | Some (PrepareSettleSignals intent_ids) =>
      let '(_, c) := complete_signals (H0 := an_env a 3) slot_id intent_ids (lp_coordinator l) in
      Some (None, [], mkLoop c (lp_mailbox l))
  | Some PrepareWaitingForCompletion => Some (Some EndWaitingForCompletion, [], l)
  | Some PrepareBlocked => Some (Some EndBlocked, [], l)
  | Some PrepareQuiescent => Some (Some EndQuiescent, [], l)
  | None => Some (Some EndError, [], l)
  end.

(** The loop, one [Answers] for each turn; its end is [None] when they run out. *)
Fixpoint drain (answers : list Answers) (l : Loop) :
    option (option LoopEnd * list (list MailboxMessage) * Loop) :=
  match answers with
  | [] => Some (None, [], l)
  | a :: answers =>
      '(stop, given, l) ← drain_turn a l;
      match stop with
      | Some _ => Some (stop, [given], l)
      | None => '(stop, turns, l) ← drain answers l; Some (stop, given :: turns, l)
      end
  end.

End event_loop.
