(* ===== verification/EventLoopProps.v ===== *)
(** * Event loop: properties

    The drain loop, undisturbed, ends, and by then it has given every unread message of
    its slot to the agent exactly once. *)
From S2P Require Import Prelude Storage WorkModel WorkState WorkCoordinator TeamRun.
From Stdlib Require Import Ascii.
From S2P Require Import WorkInvariant WorkOps WorkSystem WorkDemo.
From S2P Require Import WorkFunctional WorkControl Mailbox EventLoop.

(** ** Signals

    Intents that carry no message.  The loop never creates one. *)

Definition no_new_signals st st' : Prop :=
  ∀ k i, st'.(cs_intents) !! k = Some i → i.(wi_mailbox_message_id) = None →
    i.(wi_state) = IntentQueued → st.(cs_intents) !! k = Some i.

#[global] Instance no_new_signals_preorder : PreOrder no_new_signals.
Proof. split; [by intros st k i|]. intros st1 st2 st3 H12 H23 k i Hk Hm Hs. eauto. Qed.

Definition signal_of (sid : string) (e : string * WorkIntent) : bool :=
  bool_decide (e.2.(wi_slot_id) = sid) && bool_decide (e.2.(wi_mailbox_message_id) = None) &&
  is_queued e.2.(wi_state).

(** The queued signals of a slot *)
Definition signals (sid : string) st : gset string :=
  dom (filter (λ e, signal_of sid e = true) st.(cs_intents)).

Lemma elem_of_signals sid st k :
  k ∈ signals sid st ↔ ∃ i, st.(cs_intents) !! k = Some i ∧ i.(wi_slot_id) = sid ∧
    i.(wi_mailbox_message_id) = None ∧ i.(wi_state) = IntentQueued.
Proof.
  unfold signals. rewrite elem_of_dom. unfold is_Some. setoid_rewrite map_lookup_filter_Some.
  unfold signal_of. simpl. setoid_rewrite andb_true_iff. setoid_rewrite andb_true_iff.
  setoid_rewrite bool_decide_eq_true. split; intros (i & Hi & H'); exists i.
  - destruct H' as [[? ?] Hq]. split_and!; try done. by destruct (wi_state i).
  - destruct H' as (? & ? & ->). done.
Qed.

Lemma no_new_signals_subseteq sid st st' : no_new_signals st st' → signals sid st' ⊆ signals sid st.
Proof. intros Hn k. rewrite !elem_of_signals. intros (i & Hi & ? & ? & ?). exists i. eauto. Qed.

Lemma no_new_signals_assign f ids st st' :
  stable f → st'.(cs_intents) = (assign_states f ids st).(cs_intents) →
  (∀ k i, k ∈ ids → st.(cs_intents) !! k = Some i →
     is_Some i.(wi_mailbox_message_id) ∨ f i ≠ IntentQueued) →
  no_new_signals st st'.
Proof.
  intros Hf Heq Hids k i Hk Hm Hq. rewrite Heq, lookup_assign_states in Hk by done.
  case_decide as Hin; [|done]. destruct (cs_intents st !! k) as [i0|] eqn:Hi0; [|done].
  injection Hk as <-. simpl in *. destruct (Hids _ _ Hin Hi0) as [[m Hm']|]; congruence.
Qed.

Lemma has_message_spec st k i :
  st.(cs_intents) !! k = Some i → has_message st k = true ↔ is_Some i.(wi_mailbox_message_id).
Proof. intros Hi. unfold has_message. rewrite Hi. apply bool_decide_eq_true. Qed.

(** ** What the calls of one turn keep *)

Section calls.
Context {P : Type} `{RunCausalityPort P} `{CallEnv}.
Implicit Types c : Coordinator P.

Lemma reconcile_message_keeps g sid role acc m acc' st0 con :
  reconcile_message g sid role acc m = Some acc' →
  no_new_signals st0 acc.1 ∧ sl_runtime_constraint <$> acc.1.(cs_slots) !! sid = con →
  no_new_signals st0 acc'.1 ∧ sl_runtime_constraint <$> acc'.1.(cs_slots) !! sid = con.
Proof.
  destruct acc as [st created]. cbn [reconcile_message]. destruct (existsb _ _); [by intros [= <-]|].
  cbn [set_cs_intents cs_slots]. destruct (cs_slots st !! sid) as [slot|] eqn:Hslot; [|done].
  cbn [mbind option_bind]. intros [= <-] [Hn Hc]. cbn [fst snd] in *. split.
  - etrans; [exact Hn|]. intros k i Hk Hm Hq. cbn in Hk. rewrite lookup_insert in Hk.
    case_decide; [by simplify_eq|done].
  - cbn. rewrite lookup_insert_eq. by rewrite Hslot in Hc.
Qed.

Lemma remove_all_constraint ids slot :
  (remove_all ids slot).(sl_runtime_constraint) = slot.(sl_runtime_constraint).
Proof.
  unfold remove_all. revert slot. induction ids as [|id ids IH]; intros slot; cbn [foldl]; [done|].
  by rewrite IH.
Qed.

Lemma reconcile_no_signals sid unread role c r c' :
  coordinator_wf c → reconcile_mailbox sid unread role c = Some (r, c') →
  no_new_signals c.(co_state) c'.(co_state) ∧
  sl_runtime_constraint <$> c'.(co_state).(cs_slots) !! sid =
    Some (slot_entry sid Teammate c.(co_state)).(sl_runtime_constraint).
Proof.
  intros Hwf. unfold reconcile_mailbox. set (slot := set_sl_known_unread _ _).
  set (st := put_slot _ _ _).
  assert (state_wf c.(co_session_generation) st) as Hst
    by (apply state_wf_put_slot; [apply slot_entry_same_fields|done]).
  pose proof (reconcile_first_loop _ sid slot (list_to_set unread) st (lookup_put_slot_eq _ _ _) Hst) as Hl.
  destruct (foldl _ _ _) as [[st' kept] cleared]. destruct Hl as (-> & -> & ->).
  destruct (for_each _ _ _) as [[st2 created]|] eqn:Hfor; [|done]. cbn [mbind option_bind].
  intros [= <- <-]. cbn [co_state with_state].
  eapply (for_each_ind _ (λ acc, no_new_signals c.(co_state) acc.1 ∧
    sl_runtime_constraint <$> acc.1.(cs_slots) !! sid = Some _)) in Hfor; [exact Hfor| |].
  - intros m acc acc' Hm. by apply (reconcile_message_keeps _ _ _ _ _ _ _ _ Hm).
  - cbn [fst]. split.
    + etrans; [|eapply (no_new_signals_assign (λ _, IntentCompleted) _ st);
        [done|reflexivity|intros; right; discriminate]]. by intros k i.
    + unfold cleared_state. rewrite lookup_put_slot_eq. cbn [fmap option_fmap option_map]. f_equal.
      rewrite remove_all_constraint. subst slot. unfold slot_entry.
      by destruct (cs_slots (co_state c) !! sid).
Qed.

(** A runtime that is ready after the call was made ready by it, which changes no intent. *)
Lemma constrain_spec sid constraint c :
  coordinator_wf c →
  ∃ r c', set_runtime_constraint sid constraint c = Some (r, c') ∧ preserved [] c c' ∧
    (slot_entry sid Teammate c'.(co_state)).(sl_runtime_constraint) = constraint ∧
    (constraint = Ready → r.(ru_terminal_message_ids) = [] ∧
       c'.(co_state).(cs_intents) = c.(co_state).(cs_intents)).
Proof.
  intros Hwf. destruct (set_runtime_constraint_preserved sid constraint c Hwf) as (r & c' & Heq & Hp).
  exists r, c'. split; [done|]. split; [done|]. split.
  - destruct (set_runtime_constraint_eq sid constraint c Hwf) as (r' & runs & Heq').
    rewrite Heq in Heq'. injection Heq' as _ ->. cbn [publish_run_summaries with_port with_state co_state].
    unfold constrained_state. destruct (constraint_terminal_state constraint) as [terminal|].
    + unfold reset_state. rewrite (slot_entry_Some _ _ _ _ (lookup_put_slot_eq _ _ _)).
      by rewrite requeue_back_constraint.
    + by rewrite (slot_entry_Some _ _ _ _ (lookup_put_slot_eq _ _ _)).
  - intros ->. revert Heq. unfold set_runtime_constraint. cbn [constraint_terminal_state mbind option_bind].
    destruct (slot_snapshot_locked _ _) as [snap|]; [|done]. cbn [mbind option_bind].
    by intros [= <- <-].
Qed.
(** ** The life of a claimed batch *)

(** [batch] is the active batch of its slot. *)
Definition runs_batch batch slot c : Prop :=
  coordinator_wf c ∧ c.(co_state).(cs_slots) !! batch.(wb_slot_id) = Some slot ∧
  ab_batch <$> slot.(sl_active) = Some batch.

Lemma runs_batch_current batch slot c :
  runs_batch batch slot c → is_current_batch c.(co_session_generation) c.(co_state) batch = true.
Proof.
  intros (Hwf & Hslot & Ha). destruct (sl_active slot) as [a|] eqn:Hact; [|done].
  injection Ha as Hab. pose proof (wf_slot_Some _ _ _ _ Hwf Hslot) as Hs.
  pose proof (bw_generation _ _ _ _ (sw_active _ _ _ _ Hs _ Hact)) as Hgen. rewrite Hab in Hgen.
  unfold is_current_batch. rewrite Hslot. cbn [mbind option_bind]. rewrite Hact, Hab, Hgen.
  by rewrite !bool_decide_true.
Qed.

Lemma runs_batch_known batch slot c : runs_batch batch slot c → known_batch c.(co_state).(cs_slots) batch.
Proof.
  intros (_ & Hslot & Ha) b Hb _. unfold active_batch in Hb. rewrite Hslot in Hb. simpl in Hb. congruence.
Qed.

Lemma end_batch t batch slot c :
  is_terminal t = true → runs_batch batch slot c →
  ∃ r c', terminalize_batch batch t c = Some (r, c') ∧ coordinator_wf c' ∧
    no_new_signals c.(co_state) c'.(co_state).
Proof.
  intros Ht Hrun. pose proof (runs_batch_current _ _ _ Hrun) as Hcur.
  pose proof (runs_batch_known _ _ _ Hrun) as Hknown. destruct Hrun as (Hwf & Hslot & Ha).
  destruct (terminalize_batch_preserved batch t c Ht Hwf Hknown) as (r & c' & Heq & Hp).
  exists r, c'. split; [done|]. split; [apply Hp|].
  destruct (sl_active slot) as [a|] eqn:Hact; [|done]. injection Ha as Hab.
  rewrite (terminalize_batch_current batch t slot a c) in Heq by done. injection Heq as _ <-.
  eapply (no_new_signals_assign (λ _, t) batch.(wb_intent_ids)); [done|reflexivity|].
  intros k i _ _. right. by intros ->.
Qed.

Lemma start_batch batch turn_id slot c :
  runs_batch batch slot c → slot.(sl_runtime_constraint) = Ready → slot.(sl_paused) = false →
  ∃ slot' c', mark_started batch turn_id c = (StartAccepted, c') ∧ runs_batch batch slot' c' ∧
    no_new_signals c.(co_state) c'.(co_state).
Proof.
  intros Hrun Hready Hpaused. pose proof (runs_batch_current _ _ _ Hrun) as Hcur.
  pose proof (runs_batch_known _ _ _ Hrun) as Hknown. destruct Hrun as (Hwf & Hslot & Ha).
  pose proof (mark_started_preserved batch turn_id c Hwf Hknown) as Hp.
  rewrite (mark_started_current batch turn_id slot c Hcur Hslot), Hready, Hpaused in *.
  do 2 eexists. split; [done|]. split; [split; [apply Hp|split; [apply lookup_put_slot_eq|]]|].
  - unfold mark_active_started. by destruct (sl_active slot).
  - eapply (no_new_signals_assign (λ _, IntentRunning batch.(wb_batch_id) batch.(wb_operation_id) turn_id)
      batch.(wb_intent_ids)); [done|reflexivity|]. intros k i _ _. by right.
Qed.

Lemma retry_batch batch slot c :
  runs_batch batch slot c → ∃ r c', retry_start batch c = Some (r, c') ∧ coordinator_wf c'.
Proof.
  intros Hrun. destruct (retry_start_preserved batch c) as (r & c' & Heq & Hp);
    [apply Hrun|by eapply runs_batch_known|]. exists r, c'. split; [done|apply Hp].
Qed.
(** ** What [next] decides *)

Lemma set_active_remove_all_fields ids o slot :
  let s := set_sl_active o (remove_all ids slot) in
  s.(sl_runtime_constraint) = slot.(sl_runtime_constraint) ∧ s.(sl_paused) = slot.(sl_paused) ∧
  s.(sl_active) = o.
Proof.
  cbn. split_and!; [apply remove_all_constraint| |done].
  unfold remove_all. revert slot. induction ids as [|id ids IH]; intros slot; cbn [foldl]; [done|].
  by rewrite IH.
Qed.

Lemma filter_head {A} (Q : A → Prop) `{∀ x, Decision (Q x)} (l : list A) :
  filter Q l ≠ [] → ∃ x, x ∈ l ∧ Q x ∧ x ∈ filter Q l.
Proof.
  destruct (filter Q l) as [|x l'] eqn:Hf; [done|]. intros _. exists x.
  assert (x ∈ filter Q l) as Hx by (rewrite Hf; left). split_and!; [..|left];
    by apply list_elem_of_filter in Hx as [? ?].
Qed.

Lemma next_claim sid batch c c' :
  coordinator_wf c → next sid c = Some (Claim batch, c') →
  ∃ slot slot' k i m, c.(co_state).(cs_slots) !! sid = Some slot ∧
    slot.(sl_runtime_constraint) = Ready ∧ runs_batch batch slot' c' ∧
    slot'.(sl_runtime_constraint) = Ready ∧ slot'.(sl_paused) = false ∧
    no_new_signals c.(co_state) c'.(co_state) ∧
    k ∈ slot_queue batch.(wb_highest_priority) slot ∧ c.(co_state).(cs_intents) !! k = Some i ∧
    i.(wi_mailbox_message_id) = Some m ∧ m ∈ batch.(wb_mailbox_message_ids).
Proof.
  intros Hwf Hnext. destruct (next_preserved sid c Hwf) as (d' & c1 & Heq & Hp).
  rewrite Hnext in Heq. injection Heq as <- <-.
  destruct (next_total sid c Hwf) as (d & c1 & Heq & Hspec). rewrite Hnext in Heq.
  injection Heq as <- <-. remember (Claim batch) as d eqn:Hd.
  destruct Hspec as [| | | | | |slot p c' ids b st Hslot Hact Hready Hpaused Hpr Hids Hc']; try done.
  injection Hd as <-.
  destruct (filter_head _ _ Hids) as (k & Hk & Hmsg%Is_true_true & Hin).
  destruct (wf_queued_lookup _ _ _ _ _ _ Hwf Hslot Hk) as (i & Hi & _).
  rewrite (has_message_spec _ _ _ Hi) in Hmsg. destruct Hmsg as [m Hm].
  destruct (set_active_remove_all_fields b.(wb_intent_ids) (Some (mkActiveBatch b None None)) slot)
    as (Hcon & Hpau & Hac). rewrite Hready in Hcon. rewrite Hpaused in Hpau.
  exists slot. eexists _, k, i, m. split_and!; [done|done| |exact Hcon|exact Hpau| |done|done|done|].
  - split; [apply Hp|]. rewrite Hc'. split; [apply lookup_put_slot_eq|]. by rewrite Hac.
  - rewrite Hc'. transitivity (set_cs_next_operation_id b.(wb_operation_id) c.(co_state)); [by intros k' i'|].
    eapply (no_new_signals_assign (λ _, IntentStarting b.(wb_batch_id) b.(wb_operation_id))
      b.(wb_intent_ids)); [done|reflexivity|]. intros; right; discriminate.
  - unfold b, claimed_batch. cbn [wb_mailbox_message_ids]. rewrite claim_log_messages. cbn [fst app].
    apply list_elem_of_omap. exists k. rewrite Hi. done.
Qed.

Lemma next_signals sid ids c c' :
  coordinator_wf c → next sid c = Some (SettleSignals ids, c') →
  c' = c ∧ ∃ slot, c.(co_state).(cs_slots) !! sid = Some slot ∧
    slot.(sl_runtime_constraint) = Ready ∧ ∀ env : CallEnv, ∃ c'',
    complete_signals (H0 := env) sid ids c = (Committed, c'') ∧ coordinator_wf c'' ∧
    signals sid c''.(co_state) ⊂ signals sid c.(co_state).
Proof.
  intros Hwf Hnext. destruct (next_total sid c Hwf) as (d & c1 & Heq & Hspec). rewrite Hnext in Heq.
  injection Heq as <- <-. remember (SettleSignals ids) as d eqn:Hd.
  destruct Hspec as [| | | | |slot p Hslot Hact Hready Hpaused Hpr Hids|]; try done.
  injection Hd as <-. split; [done|]. exists slot.
  split; [done|]. split; [done|]. intros env.
  pose proof (complete_signals_preserved (H0 := env) sid (slot_queue p slot) c Hwf) as Hp.
  assert (∀ k, k ∈ slot_queue p slot → is_queued_signal c.(co_state) sid k = true) as Hall.
  { intros k Hk. destruct (wf_queued_lookup _ _ _ _ _ _ Hwf Hslot Hk) as (i & Hi & Hs & _ & Hq).
    unfold is_queued_signal. rewrite Hi, Hq, bool_decide_true by done. cbn [is_queued].
    rewrite bool_decide_true; [done|]. apply eq_None_not_Some. intros Hm.
    assert (k ∈ filter (has_message c.(co_state)) (slot_queue p slot)) as Hin;
      [|rewrite Hids in Hin; by apply elem_of_nil in Hin].
    apply list_elem_of_filter. split; [|done]. by apply Is_true_true, (has_message_spec _ _ _ Hi). }
  revert Hp. unfold complete_signals.
  rewrite (proj2 (forallb_forall _ _)) by (intros k Hk; by apply Hall, list_elem_of_In).
  cbn [negb snd]. intros Hp. eexists. split_and!; [done|apply Hp|].
  rewrite foldl_complete_signals. cbn [publish_run_summaries with_port with_state co_state].
  assert (∀ st, (alter_slot sid (remove_all (slot_queue p slot)) st).(cs_intents) = st.(cs_intents))
    as Halt by done.
  assert (no_new_signals c.(co_state) (alter_slot sid (remove_all (slot_queue p slot))
    (assign_states (λ _, IntentCompleted) (slot_queue p slot) c.(co_state)))) as Hn.
  { eapply no_new_signals_assign; [|apply Halt|intros; right; discriminate]. done. }
  split; [by apply no_new_signals_subseteq|].
  destruct (selected_priority_spec _ _ Hpr) as [Hne _].
  destruct (slot_queue p slot) as [|k l] eqn:Hq; [done|]. intros Hsub.
  assert (k ∈ signals sid c.(co_state)) as Hk.
  { destruct (is_queued_signal_spec _ _ _ (Hall k ltac:(left))) as (i & ? & ? & ? & ?).
    apply elem_of_signals. eauto. }
  apply Hsub, elem_of_signals in Hk as (i & Hi & _ & _ & Hqu).
  rewrite Halt, lookup_assign_states, decide_True in Hi by (done || left).
  destruct (cs_intents (co_state c) !! k); [|done]. injection Hi as <-. done.
Qed.

Lemma next_quiescent sid c c' :
  coordinator_wf c → is_Some (c.(co_state).(cs_slots) !! sid) →
  next sid c = Some (Quiescent, c') →
  c' = c ∧ ∃ slot, c.(co_state).(cs_slots) !! sid = Some slot ∧ slot.(sl_active) = None ∧
    slot.(sl_runtime_constraint) = Ready ∧
    (slot.(sl_paused) = true ∨ slot.(sl_paused) = false ∧ ∀ p, slot_queue p slot = []).
Proof.
  intros Hwf [s Hs] Hnext. destruct (next_total sid c Hwf) as (d & c1 & Heq & Hspec).
  rewrite Hnext in Heq. injection Heq as <- <-. remember Quiescent as d eqn:Hd.
  destruct Hspec as [| | |slot Hslot Ha Hr Hp|slot Hslot Ha Hr Hp Hpr| |]; try done; [congruence| |];
    (split; [done|]); exists slot; (split_and!; [done..|]); [by left|right; split; [done|]].
  intros p. revert Hpr. unfold selected_priority. cbn [List.find].
  repeat case_bool_decide; try done. intros _. destruct p; first [done|by apply dec_stable].
Qed.

(** An unread message that reconciling has covered is in a queue of the idle slot. *)
Lemma owned_queued sid m slot c :
  coordinator_wf c → c.(co_state).(cs_slots) !! sid = Some slot → slot.(sl_active) = None →
  owned sid m c.(co_state) → ∃ p k, k ∈ slot_queue p slot.
Proof.
  intros Hwf Hslot Ha (k & i & Hi & Ho). unfold owns_message in Ho.
  apply andb_true_iff in Ho as [[Hs%bool_decide_eq_true _]%andb_true_iff Hl%negb_true_iff].
  exists i.(wi_priority), k. pose proof (wf_slot_Some _ _ _ _ Hwf Hslot) as Hsw.
  apply (sw_queue _ _ _ _ Hsw). exists i. split_and!; try done.
  assert (¬ inflight i.(wi_state)) as Hno.
  { intros Hin. destruct (sw_inflight _ _ _ _ Hsw k i Hi Hs Hin) as (a & ? & _). congruence. }
  destruct (wi_state i); try done; by destruct Hno.
Qed.
End calls.

(** ** The loop *)

Section loop.
Context {P : Type} `{RunCausalityPort P} `{!SqlOrder} `{!SerdeJson}.
Context (team_id slot_id : string).
Notation unread := (session_unread team_id slot_id).
Notation prepare_next_batch := (prepare_next_batch team_id slot_id).
Notation drain_turn := (drain_turn team_id slot_id).
Notation drain := (drain team_id slot_id).
Notation constraint_of a := (runtime_constraint_of (an_has_loop a) (an_snapshot a)).
Implicit Types (l : Loop (P := P)) (a : Answers).

(** What the loop needs of the rest of the system in one turn: the messages of the turn
    can be marked as read, and new identifiers are new. *)
Record answers_ok a l : Prop := {
  ao_marked : an_marked a = true;
  ao_fresh r c :
    set_runtime_constraint (H0 := an_env a 0) slot_id (constraint_of a) (lp_coordinator l) = Some (r, c) →
    fresh_ids (H0 := an_env a 1) c.(co_state);
}.

Definition loop_signals l : gset string := signals slot_id (co_state (lp_coordinator l)).

(** What is left to do: it decreases with every turn. *)
Definition measure l : nat := length (unread (lp_mailbox l)) + size (loop_signals l).

Definition drained l : Prop :=
  ∃ slot, (co_state (lp_coordinator l)).(cs_slots) !! slot_id = Some slot ∧
    (slot.(sl_paused) = true ∨ unread (lp_mailbox l) = [] ∧ ∀ p, slot_queue p slot = []).

Lemma session_unread_mark ids t :
  unread (mark_rows ids t) ≡ₚ filter (λ m, mm_id m ∉ ids) (unread t).
Proof.
  unfold session_unread. rewrite peek_unread_mark, !list_filter_filter.
  apply reflexive_eq, list_filter_iff. naive_solver.
Qed.

(** The messages of the batch and the others *)
Lemma session_unread_split ids t :
  filter (λ m, mm_id m ∈ ids) (unread t) ++ unread (mark_rows ids t) ≡ₚ unread t.
Proof. rewrite session_unread_mark. apply filter_app_complement. Qed.

Lemma session_unread_marked ids t : unread (mark_rows ids t) ⊆+ unread t.
Proof. rewrite session_unread_mark. apply sublist_submseteq, sublist_filter. Qed.

(** The first half of [prepare_next_batch]: the mailbox after the constraint *)
Definition constrained_mailbox (ids : list string) l : Table :=
  if bool_decide (ids = []) then lp_mailbox l else mark_read_batch ids (lp_mailbox l).

Lemma constrained_mailbox_unread ids l : unread (constrained_mailbox ids l) ⊆+ unread (lp_mailbox l).
Proof.
  unfold constrained_mailbox. case_bool_decide; [done|]. rewrite mark_read_batch_rows.
  apply session_unread_marked.
Qed.

(** What [prepare_next_batch] leaves for the rest of the turn *)
Inductive prepared l l' : option PrepareBatchResult → Prop :=
  | PreparedExecute batch slot :
      let given := filter (λ m, mm_id m ∈ batch.(wb_mailbox_message_ids)) (unread (lp_mailbox l)) in
      runs_batch batch slot (lp_coordinator l') →
      slot.(sl_runtime_constraint) = Ready → slot.(sl_paused) = false →
      lp_mailbox l' = lp_mailbox l → given ≠ [] → loop_signals l' ⊆ loop_signals l →
      prepared l l' (Some (Execute batch given))
  | PreparedSignals ids (env : CallEnv) :
      next (H0 := env) slot_id (lp_coordinator l') = Some (SettleSignals ids, lp_coordinator l') →
      lp_mailbox l' = lp_mailbox l → loop_signals l' ⊆ loop_signals l →
      prepared l l' (Some (PrepareSettleSignals ids))
  | PreparedQuiescent :
      lp_mailbox l' = lp_mailbox l → drained l' → prepared l l' (Some PrepareQuiescent)
  | PreparedStop p :
      p = Some PrepareWaitingForCompletion ∨ p = Some PrepareBlocked ∨ p = None →
      unread (lp_mailbox l') ⊆+ unread (lp_mailbox l) → prepared l l' p.
Lemma prepare_claimed_spec a batch slot l l0 :
  runs_batch batch slot (lp_coordinator l) →
  slot.(sl_runtime_constraint) = Ready → slot.(sl_paused) = false →
  lp_mailbox l = lp_mailbox l0 → loop_signals l ⊆ loop_signals l0 →
  filter (λ m, mm_id m ∈ batch.(wb_mailbox_message_ids)) (unread (lp_mailbox l0)) ≠ [] →
  ∃ p l', prepare_claimed a batch (unread (lp_mailbox l0)) l = Some (p, l') ∧
    coordinator_wf (lp_coordinator l') ∧ prepared l0 l' p.
Proof.
  intros Hrun Hready Hpaused Hbox Hsig Hne. unfold prepare_claimed.
  destruct (an_tasks_listed a); cbn [negb].
  - destruct (an_transport_found a); cbn [negb].
    + do 2 eexists. split; [done|]. split; [apply Hrun|]. by eapply PreparedExecute.
    + do 2 eexists. split; [done|]. split; [apply Hrun|]. eapply PreparedStop; [auto|]. by rewrite Hbox.
  - destruct (retry_batch (H0 := an_env a 3) _ _ _ Hrun) as (r & c' & -> & Hwf').
    do 2 eexists. split; [done|]. split; [done|]. eapply PreparedStop; [auto|]. simpl. by rewrite Hbox.
Qed.

(** What the constraint and the reconciliation of one turn establish *)
Record settled a l (c2 : Coordinator P) (t : Table) : Prop := {
  se_wf : coordinator_wf c2;
  se_slot : is_Some (c2.(co_state).(cs_slots) !! slot_id);
  se_owned m : m ∈ unread t → owned slot_id (mm_id m) c2.(co_state);
  se_fresh slot p k i m : c2.(co_state).(cs_slots) !! slot_id = Some slot → k ∈ slot_queue p slot →
    c2.(co_state).(cs_intents) !! k = Some i → i.(wi_mailbox_message_id) = Some m →
    m ∈ mm_id <$> unread t;
  se_ready slot : c2.(co_state).(cs_slots) !! slot_id = Some slot → slot.(sl_runtime_constraint) = Ready →
    t = lp_mailbox l ∧ signals slot_id c2.(co_state) ⊆ loop_signals l;
}.

Lemma reconcile_settled a l r (c1 : Coordinator P) role :
  answers_ok a l → coordinator_wf (lp_coordinator l) →
  set_runtime_constraint (H0 := an_env a 0) slot_id (constraint_of a) (lp_coordinator l) = Some (r, c1) →
  let t := constrained_mailbox r.(ru_terminal_message_ids) l in
  ∃ rp c2, reconcile_mailbox (H0 := an_env a 1) slot_id (mm_id <$> unread t) role c1 = Some (rp, c2) ∧
    settled a l c2 t.
Proof.
  intros Hok Hwf Heq t. pose proof (ao_fresh _ _ Hok _ _ Heq) as Hfresh.
  destruct (constrain_spec (H0 := an_env a 0) slot_id (constraint_of a) _ Hwf)
    as (r' & c1' & Heq' & Hp1 & Hcon & Hready). rewrite Heq in Heq'. injection Heq' as <- <-.
  destruct (reconcile_mailbox_reconciled (H0 := an_env a 1) slot_id (mm_id <$> unread t) role c1)
    as (rp & c2 & Heq2 & Hp2 & [(slot & Hslot & _ & _ & Hstale) Hown _ _] & _); [apply Hp1|done|].
  destruct (reconcile_no_signals (H0 := an_env a 1) slot_id _ role c1 _ _ (pr_wf _ _ _ Hp1) Heq2)
    as [Hn Hcon2]. exists rp, c2. split; [done|]. split; [apply Hp2|by eexists| | |].
  - intros m Hm. apply Hown; [|apply not_elem_of_nil]. by apply list_elem_of_fmap_2.
  - intros slot' p k i m Hslot' Hk Hi Hm. rewrite Hslot in Hslot'. injection Hslot' as <-.
    specialize (Hstale p k Hk). unfold is_stale in Hstale. rewrite Hi in Hstale. simpl in Hstale.
    rewrite Hm in Hstale. apply bool_decide_eq_false in Hstale. by apply dec_stable in Hstale; set_solver.
  - intros slot' Hslot' Hr. rewrite Hslot' in Hcon2. simpl in Hcon2. rewrite Hr, Hcon in Hcon2.
    injection Hcon2 as Hcon2. destruct (Hready (eq_sym Hcon2)) as [Hids Hint]. split.
    + unfold t, constrained_mailbox. by rewrite Hids.
    + apply no_new_signals_subseteq. intros k i Hk Hm Hq. rewrite <- Hint. eauto.
Qed.

Lemma prepare_spec a l :
  coordinator_wf (lp_coordinator l) → answers_ok a l →
  ∃ p l', prepare_next_batch a l = Some (p, l') ∧ coordinator_wf (lp_coordinator l') ∧ prepared l l' p.
Proof.
  intros Hwf Hok. unfold EventLoop.prepare_next_batch. destruct (an_role a) as [role|].
  2: { do 2 eexists. split; [done|]. split; [done|]. by apply PreparedStop; [auto|]. }
  destruct (constrain_spec (H0 := an_env a 0) slot_id (constraint_of a) _ Hwf)
    as (r & c1 & Heq & Hp1 & _). rewrite Heq. cbn [mbind option_bind].
  destruct (negb _ && negb _).
  { do 2 eexists. split; [done|]. split; [apply Hp1|]. by apply PreparedStop; [auto|]. }
  fold (constrained_mailbox r.(ru_terminal_message_ids) l).
  pose proof (constrained_mailbox_unread r.(ru_terminal_message_ids) l) as Hsub.
  destruct (an_peeked a); cbn [negb].
  2: { do 2 eexists. split; [done|]. split; [apply Hp1|]. by apply PreparedStop; [auto|]. }
  destruct (reconcile_settled a l r c1 role Hok Hwf Heq) as (rp & c2 & -> & Hset). cbn [mbind option_bind].
  destruct (next_preserved (H0 := an_env a 2) slot_id c2 (se_wf _ _ _ _ Hset)) as (d & c3 & Hnext & Hp3).
  rewrite Hnext. cbn [mbind option_bind]. destruct d as [batch| |con|ids|].
  - destruct (next_claim (H0 := an_env a 2) _ _ _ _ (se_wf _ _ _ _ Hset) Hnext)
      as (slot & slot' & k & i & m & Hs & Hr & Hrun & Hr' & Hpa & Hn & Hk & Hi & Hm & Hb).
    destruct (se_ready _ _ _ _ Hset _ Hs Hr) as [Ht Hsig].
    pose proof (se_fresh _ _ _ _ Hset _ _ _ _ _ Hs Hk Hi Hm) as Hin. rewrite Ht in *.
    apply (prepare_claimed_spec a batch slot'); try done.
    + etrans; [by apply no_new_signals_subseteq|done].
    + apply list_elem_of_fmap in Hin as (msg & -> & Hin).
      apply (elem_of_not_nil msg), list_elem_of_filter. done.
  - do 2 eexists. split; [done|]. split; [apply Hp3|]. by apply PreparedStop; [auto|].
  - do 2 eexists. split; [done|]. split; [apply Hp3|]. by apply PreparedStop; [auto|].
  - destruct (next_signals (H0 := an_env a 2) _ _ _ _ (se_wf _ _ _ _ Hset) Hnext)
      as (-> & slot & Hs & Hr & _). destruct (se_ready _ _ _ _ Hset _ Hs Hr) as [Ht Hsig].
    do 2 eexists. split; [done|]. split; [apply Hset|]. by apply (PreparedSignals _ _ _ (an_env a 2)).
  - destruct (next_quiescent (H0 := an_env a 2) _ _ _ (se_wf _ _ _ _ Hset) (se_slot _ _ _ _ Hset) Hnext)
      as (-> & slot & Hs & Ha & Hr & Hq). destruct (se_ready _ _ _ _ Hset _ Hs Hr) as [Ht Hsig].
    do 2 eexists. split; [done|]. split; [apply Hset|]. apply PreparedQuiescent; [done|].
    exists slot. split; [done|]. destruct Hq as [|[Hpa Hq]]; [by left|right]. split; [|done]. simpl.
    apply elem_of_nil_inv. intros m Hm. apply (se_owned _ _ _ _ Hset) in Hm.
    destruct (owned_queued _ _ _ _ (se_wf _ _ _ _ Hset) Hs Ha Hm) as (p & k & Hk).
    rewrite Hq in Hk. by apply elem_of_nil in Hk.
Qed.
Lemma execute_spec a batch slot l :
  an_marked a = true → runs_batch batch slot (lp_coordinator l) →
  slot.(sl_runtime_constraint) = Ready → slot.(sl_paused) = false →
  ∃ res l', execute_and_finalize a batch l = Some (res, l') ∧ coordinator_wf (lp_coordinator l') ∧
    match res with
    | WaitForSignal => lp_mailbox l' = lp_mailbox l
    | ContinueDraining =>
        lp_mailbox l' = mark_rows batch.(wb_mailbox_message_ids) (lp_mailbox l) ∧
        loop_signals l' ⊆ loop_signals l
    end.
Proof.
  intros Hmarked Hrun Hready Hpaused. unfold execute_and_finalize.
  assert (∃ slot' c1, match an_started a with
      | Some turn_id => on_started a batch turn_id (lp_coordinator l)
      | None => Some (lp_coordinator l)
      end = Some c1 ∧ runs_batch batch slot' c1 ∧
      no_new_signals (lp_coordinator l).(co_state) c1.(co_state)) as (slot' & c1 & -> & Hrun1 & Hn1).
  { destruct (an_started a) as [turn_id|]; [|by exists slot, (lp_coordinator l)].
    destruct (start_batch (H0 := an_env a 4) batch turn_id slot _ Hrun Hready Hpaused)
      as (slot' & c1 & Hstart & ? & ?). exists slot', c1. unfold on_started. by rewrite Hstart. }
  cbn [mbind option_bind].
  assert (mark_batch_messages_read a batch (lp_mailbox l) =
    mark_rows batch.(wb_mailbox_message_ids) (lp_mailbox l)) as Hbox.
  { unfold mark_batch_messages_read. rewrite Hmarked. case_bool_decide as Hids.
    - by rewrite Hids, mark_rows_nil.
    - apply mark_read_batch_rows. }
  assert (∀ t, is_terminal t = true → ∃ r c2,
    terminalize_batch (H0 := an_env a 6) batch t c1 = Some (r, c2) ∧ coordinator_wf c2 ∧
    signals slot_id c2.(co_state) ⊆ loop_signals l) as Hend.
  { intros t Ht. destruct (end_batch (H0 := an_env a 6) t _ _ _ Ht Hrun1) as (r & c2 & ? & ? & Hn2).
    exists r, c2. split_and!; [done..|]. etrans; apply no_new_signals_subseteq; done. }
  destruct (an_turn a) as [status|error].
  - destruct (Hend (if is_success status then IntentCompleted else IntentFailed "turn_failed"))
      as (r & c2 & Heq & Hwf & Hsig); [by destruct (is_success status)|].
    exists ContinueDraining, (mkLoop c2 (mark_batch_messages_read a batch (lp_mailbox l))).
    split; [|done]. unfold complete_batch, fail_batch. by destruct (is_success status); rewrite Heq.
  - destruct (bool_decide (an_started a = None) && is_retryable_start_skip error).
    + destruct (retry_batch (H0 := an_env a 6) _ _ _ Hrun1) as (r & c2 & -> & Hwf).
      by exists WaitForSignal, (mkLoop c2 (lp_mailbox l)).
    + destruct (Hend (IntentFailed "turn_start_failed")) as (r & c2 & Heq & Hwf & Hsig); [done|].
      exists ContinueDraining, (mkLoop c2 (mark_batch_messages_read a batch (lp_mailbox l))).
      split; [|done]. unfold fail_batch. by rewrite Heq.
Qed.

(** One turn: it returns; unless it ends the loop, it makes progress; the messages it
    gives leave the unread ones, which lose no other unless the loop ends. *)
Lemma drain_turn_spec a l :
  coordinator_wf (lp_coordinator l) → answers_ok a l →
  ∃ stop given l', drain_turn a l = Some (stop, given, l') ∧ coordinator_wf (lp_coordinator l') ∧
    given ++ unread (lp_mailbox l') ⊆+ unread (lp_mailbox l) ∧
    match stop with
    | None => measure l' < measure l ∧ given ++ unread (lp_mailbox l') ≡ₚ unread (lp_mailbox l)
    | Some EndQuiescent => given = [] ∧ lp_mailbox l' = lp_mailbox l ∧ drained l'
    | Some _ => True
    end.
Proof.
  intros Hwf Hok. unfold EventLoop.drain_turn. destruct (an_shutdown a).
  { by do 3 eexists. }
  destruct (prepare_spec a l Hwf Hok) as (p & l1 & -> & Hwf1 & Hp). cbn [mbind option_bind].
  destruct Hp as [batch slot given Hrun Hr Hpa Hbox Hne Hsig|ids env Hnext Hbox Hsig|Hbox Hdr|p Hp Hsub].
  - destruct (execute_spec a batch slot l1 (ao_marked _ _ Hok) Hrun Hr Hpa) as (res & l2 & -> & Hwf2 & Hres).
    cbn [mbind option_bind]. destruct res.
    + destruct Hres as [Hbox2 Hsig2]. exists None, given, l2. split; [done|]. split; [done|].
      assert (given ++ unread (lp_mailbox l2) ≡ₚ unread (lp_mailbox l)) as Hperm
        by (rewrite Hbox2, Hbox; apply session_unread_split).
      split; [by rewrite Hperm|]. split; [|done]. unfold measure. rewrite <-Hperm, length_app.
      pose proof (subseteq_size (loop_signals l2) (loop_signals l) ltac:(by etrans)).
      assert (length given ≠ 0) by (by destruct given). lia.
    + exists (Some EndWaitForSignal), [], l2. split; [done|]. split; [done|]. simpl.
      by rewrite Hres, Hbox.
  - destruct (next_signals (H0 := env) _ _ _ _ Hwf1 Hnext) as (_ & slot & _ & _ & Hcs).
    destruct (Hcs (an_env a 3)) as (c2 & -> & Hwf2 & Hlt).
    exists None, [], (mkLoop c2 (lp_mailbox l1)). simpl. rewrite Hbox.
    split_and!; [done|done|done| |done]. unfold measure. simpl. rewrite ?Hbox.
    pose proof (subset_size _ _ Hlt). pose proof (subseteq_size _ _ Hsig). unfold loop_signals in *.
    simpl. lia.
  - exists (Some EndQuiescent), [], l1. simpl. rewrite Hbox. done.
  - destruct Hp as [->|[->| ->]]; by do 3 eexists.
Qed.

(** The assumptions on the answers, in the states in which they are used *)
Fixpoint answers_along (answers : list Answers) l : Prop :=
  match answers with
  | [] => True
  | a :: answers => answers_ok a l ∧
      ∀ given l', drain_turn a l = Some (None, given, l') → answers_along answers l'
  end.

(** C6: an undisturbed loop drains its slot, as long as every [mark_read_batch] after a turn
    succeeds (the code only warns when one does not: [unmarked_message_given_again]).  It ends
    after at most as many turns as there are unread messages and queued signals, and no call
    of it panics; the messages given to the agent, in all turns together, with those still
    unread are among those that were unread before, so none is given twice; if it ends because
    there is nothing left to do, then every message was given to the agent or is still unread,
    and unless the slot is paused none is unread and the queues of the slot are empty. *)
Theorem drain_empties_mailbox answers l :
  coordinator_wf (lp_coordinator l) → answers_along answers l → measure l < length answers →
  ∃ e turns l', drain answers l = Some (Some e, turns, l') ∧ coordinator_wf (lp_coordinator l') ∧
    length turns ≤ S (measure l) ∧
    concat turns ++ unread (lp_mailbox l') ⊆+ unread (lp_mailbox l) ∧
    (e = EndQuiescent →
       concat turns ++ unread (lp_mailbox l') ≡ₚ unread (lp_mailbox l) ∧ drained l').
Proof.
  revert l. induction answers as [|a answers IH]; intros l Hwf Hok Hlen; [simpl in Hlen; lia|].
  destruct Hok as [Hok Halong]. destruct (drain_turn_spec a l Hwf Hok) as (stop & given & l1 & Hturn & Hwf1 & Hsub & Hstop).
  cbn [EventLoop.drain]. rewrite Hturn. cbn [mbind option_bind]. destruct stop as [e|].
  - exists e, [given], l1. cbn [concat length]. rewrite app_nil_r. split_and!; [done|done|lia|done|].
    intros ->. destruct Hstop as (-> & -> & Hd). done.
  - destruct Hstop as [Hlt Hperm]. destruct (IH l1 Hwf1) as (e & turns & l2 & -> & Hwf2 & Hn & Hsub2 & Hq);
      [by eapply Halong|simpl in Hlen; lia|].
    exists e, (given :: turns), l2. cbn [mbind option_bind concat length].
    split_and!; [done|done|lia| |].
    + rewrite <-app_assoc, <-Hperm. by apply submseteq_skips_l.
    + intros He. destruct (Hq He) as [Hp2 Hd]. split; [|done]. by rewrite <-app_assoc, Hp2.
Qed.

End loop.

(** ** A slot with three unread messages

    One of a run, one outside any run, and one whose intent was lost. *)

Section demo.
#[local] Existing Instances insertion_order plain_json.

Definition demo_row (id from : string) (at_ms : Z) : MailboxMessageRow :=
  mkMailboxMessageRow id "team" "lead" from "message" ("content of " +:+ id) None (Some (json_of_list ["a.txt"])) false at_ms.

Definition demo_loop : Loop :=
  mkLoop (sy_coordinator demo_queued) [demo_row "m1" "user" 1; demo_row "m2" "dev" 2; demo_row "m3" "dev" 2].

(** A turn that runs; its identifiers start with the given characters. *)
Definition demo_answers (tags : Ascii.ascii * Ascii.ascii) : Answers :=
  mkAnswers false (Some Lead) true MemberRuntime.SnapReady true true true true (Some "turn")
    (Ok TurnCompleted) true (λ n, demo_env (if n =? 1 then tags.1 else tags.2) 1000).

Notation demo_turn := (drain_turn "team" "lead").

Fixpoint demo_along (tags : list (Ascii.ascii * Ascii.ascii)) (l : Loop (P := TeamRunManager)) : bool :=
  match tags with
  | [] => true
  | tag :: tags =>
      match set_runtime_constraint (H0 := demo_env tag.2 1000) "lead" Ready (lp_coordinator l) with
      | Some (_, c) => unused tag.1 (map_keys c.(co_state).(cs_intents)) &&
                       unused tag.1 (map_keys c.(co_state).(cs_enqueue_leases))
      | None => true
      end &&
      match demo_turn (demo_answers tag) l with
      | Some (None, _, l) => demo_along tags l
      | _ => true
      end
  end.

Lemma demo_along_spec tags l :
  demo_along tags l = true → answers_along "team" "lead" (demo_answers <$> tags) l.
Proof.
  revert l. induction tags as [|tag tags IH]; intros l; [done|]. cbn [demo_along fmap list_fmap answers_along].
  intros [Hf Ht]%andb_true_iff. split.
  - split; [done|]. intros r c Hc.
    change (set_runtime_constraint (H0 := demo_env tag.2 1000) "lead" Ready (lp_coordinator l) = Some (r, c)) in Hc.
    rewrite Hc in Hf. by apply demo_fresh.
  - intros given l' Hturn. rewrite Hturn in Ht. by apply IH.
Qed.

Definition demo_tags : list (Ascii.ascii * Ascii.ascii) :=
  [("p", "q"); ("r", "s"); ("t", "u"); ("v", "w")]%char.

Definition demo_answer_list : list Answers := demo_answers <$> demo_tags.
Definition turn_ids (turns : list (list MailboxMessage)) : list (list string) := map (map mm_id) turns.

Lemma drain_empties_mailbox_witness :
  ∃ turns l', drain "team" "lead" demo_answer_list demo_loop =
      Some (Some EndQuiescent, turns, l') ∧
    turn_ids turns = [["m1"]; ["m2"; "m3"]; []] ∧
    concat turns ++ session_unread "team" "lead" (lp_mailbox l') ≡ₚ
      session_unread "team" "lead" (lp_mailbox demo_loop).
Proof.
  destruct (drain_empties_mailbox "team" "lead" demo_answer_list demo_loop)
    as (e & turns & l' & Hdrain & _ & _ & _ & Hq).
  - apply demo_wf, demo_queued_reachable.
  - apply demo_along_spec. vm_compute. reflexivity.
  - vm_compute. lia.
  - assert (('(e, turns, _) ← drain "team" "lead" demo_answer_list demo_loop;
             Some (e, turn_ids turns)) = Some (Some EndQuiescent, [["m1"]; ["m2"; "m3"]; []])) as Hd
      by (vm_compute; reflexivity).
    rewrite Hdrain in Hd. cbn [mbind option_bind] in Hd. injection Hd as -> Ht.
    exists turns, l'. split; [done|]. split; [done|]. by apply Hq.
Defined.

(** A turn after which [mark_read_batch] fails: the code warns and goes on, so the same messages
    are given to the next turn. *)
Definition demo_unmarked (tags : Ascii.ascii * Ascii.ascii) : Answers :=
  mkAnswers false (Some Lead) true MemberRuntime.SnapReady true true true true (Some "turn")
    (Ok TurnCompleted) false (λ n, demo_env (if n =? 1 then tags.1 else tags.2) 1000).

Lemma unmarked_message_given_again :
  ('(_, turns, _) ← drain "team" "lead" (demo_unmarked <$> [("p", "q"); ("r", "s"); ("t", "u")]%char)
      (mkLoop (sy_coordinator demo_queued) [demo_row "m2" "dev" 2]);
   Some (turn_ids turns)) = Some [["m2"]; ["m2"]; ["m2"]].
Proof. vm_compute. reflexivity. Qed.

(** A message with an attachment is written and read back. *)
Lemma mailbox_write_read_witness :
  ∃ t', write_with_files (H1 := demo_env "k" 3) "team" "lead" "dev" Message
      "hello" None (Some ["a.txt"]) (lp_mailbox demo_loop) =
    (Some (mkMailboxMessage "k0" "team" "lead" "dev" Message "hello" None (Some ["a.txt"]) false 3), t') ∧
    length (peek_unread "team" "lead" t') = 4.
Proof.
  destruct (mailbox_write_read (H1 := demo_env "k" 3) "team" "lead" "dev" Message
    "hello" None (Some ["a.txt"]) (lp_mailbox demo_loop)) as (t' & Hw & Hp & _).
  exists t'. split; [exact Hw|]. rewrite Hp. vm_compute. reflexivity.
Defined.

End demo.
