(* ===== verification/ConvRuntime.v ===== *)
(** * Conversation runtime state

    Models [aionui-conversation/src/runtime_state.rs] (which turn holds a
    conversation), [runtime_persistence.rs] (which writes the lifecycle allows), the
    policies that decide what follows a turn ([turn_recovery_policy.rs],
    [turn_continuation_policy.rs], [agent_health_policy.rs]) and the outcome types of
    [stream_relay.rs].  Logging and the notification of waiters are left out. *)
From S2P Require Import Prelude.

(** ** Data *)

(** The errors of [ConversationError] that a claim returns. *)
Inductive ClaimError :=
  | Busy (reason : string)
  | Internal (reason : string).

(** [ct] = [ConversationRuntimeState] *)
Record ConversationRuntimeState := mkConversationRuntimeState {
  ct_active_turns : gmap string string;
  ct_deleting_conversations : gset string;
  ct_cancelling_conversations : gset string;
  ct_shutting_down : bool;
}.

Definition set_ct_active m st := mkConversationRuntimeState m
  st.(ct_deleting_conversations) st.(ct_cancelling_conversations) st.(ct_shutting_down).
Definition set_ct_deleting d st := mkConversationRuntimeState st.(ct_active_turns) d
  st.(ct_cancelling_conversations) st.(ct_shutting_down).
Definition set_ct_cancelling d st := mkConversationRuntimeState st.(ct_active_turns)
  st.(ct_deleting_conversations) d st.(ct_shutting_down).
Definition set_ct_shutting_down b st := mkConversationRuntimeState st.(ct_active_turns)
  st.(ct_deleting_conversations) st.(ct_cancelling_conversations) b.

(** [cv] = [ConversationRuntimeStateService]: the state and whether its mutex is poisoned. *)
Record ConversationRuntimeStateService := mkService {
  cv_poisoned : bool;
  cv_state : ConversationRuntimeState;
}.

Definition default_service : ConversationRuntimeStateService :=
  mkService false (mkConversationRuntimeState ∅ ∅ ∅ false).

(** [tc] = [TurnClaim]; its weak reference to the service is an argument of the methods. *)
Record TurnClaim := mkTurnClaim {
  tc_conversation_id : string;
  tc_turn_id : string;
  tc_released : bool;
}.

Inductive RuntimeLifecycleState := Active | Deleting | Cancelling | ShuttingDown.

#[global] Instance RuntimeLifecycleState_eq_dec : EqDecision RuntimeLifecycleState.
Proof. solve_decision. Defined.

Inductive ConversationStatus := StatusPending | StatusRunning | StatusFinished.

#[global] Instance ConversationStatus_eq_dec : EqDecision ConversationStatus.
Proof. solve_decision. Defined.

Inductive ConversationRuntimeStateKind :=
  | KindIdle | KindStarting | KindRunning | KindCancelling | KindWaitingConfirmation.

#[global] Instance ConversationRuntimeStateKind_eq_dec : EqDecision ConversationRuntimeStateKind.
Proof. solve_decision. Defined.

(** [sm] = [ConversationRuntimeSummary] *)
Record ConversationRuntimeSummary := mkRuntimeSummary {
  sm_state : ConversationRuntimeStateKind;
  sm_can_send_message : bool;
  sm_has_task : bool;
  sm_task_status : option ConversationStatus;
  sm_is_processing : bool;
  sm_pending_confirmations : nat;
  sm_turn_id : option string;
}.

(** ** The service *)

Implicit Types sv : ConversationRuntimeStateService.

(** [if let Ok(mut state) = self.state.lock()]: a poisoned mutex leaves the state alone. *)
Definition locked (f : ConversationRuntimeState → ConversationRuntimeState) sv :
    ConversationRuntimeStateService :=
  if sv.(cv_poisoned) then sv else mkService sv.(cv_poisoned) (f sv.(cv_state)).

(** [self.state.lock().map(f).unwrap_or(d)] *)
Definition read_or {A} (d : A) (f : ConversationRuntimeState → A) sv : A :=
  if sv.(cv_poisoned) then d else f sv.(cv_state).

Definition try_claim_turn (conversation_id turn_id : string) sv :
    result TurnClaim ClaimError * ConversationRuntimeStateService :=
  if sv.(cv_poisoned) then (Err (Internal "conversation runtime state lock poisoned"), sv)
  else
    let state := sv.(cv_state) in
    if state.(ct_shutting_down)
    then (Err (Busy "conversation runtime is shutting down"), sv)
    else if bool_decide (conversation_id ∈ state.(ct_deleting_conversations))
    then (Err (Busy ("conversation " +:+ conversation_id +:+ " is being deleted")), sv)
    else if bool_decide (is_Some (state.(ct_active_turns) !! conversation_id))
    then (Err (Busy ("conversation " +:+ conversation_id +:+ " is already running")), sv)
    else (Ok (mkTurnClaim conversation_id turn_id false),
          mkService sv.(cv_poisoned)
            (set_ct_active (<[conversation_id := turn_id]> state.(ct_active_turns)) state)).

Definition is_claimed (conversation_id : string) sv : bool :=
  read_or false (λ state, bool_decide (is_Some (state.(ct_active_turns) !! conversation_id))) sv.

Definition active_turn_id_for (conversation_id : string) sv : option string :=
  read_or None (λ state, state.(ct_active_turns) !! conversation_id) sv.

Definition mark_deleting (conversation_id : string) sv :
    bool * ConversationRuntimeStateService :=
  (is_claimed conversation_id sv,
   locked (λ state, set_ct_deleting ({[conversation_id]} ∪ state.(ct_deleting_conversations))
                      state) sv).

Definition clear_deleting (conversation_id : string) : ConversationRuntimeStateService →
    ConversationRuntimeStateService :=
  locked (λ state, set_ct_deleting (state.(ct_deleting_conversations) ∖ {[conversation_id]}) state).

Definition is_deleting (conversation_id : string) sv : bool :=
  read_or false (λ state, bool_decide (conversation_id ∈ state.(ct_deleting_conversations))) sv.

Definition mark_cancelling (conversation_id : string) : ConversationRuntimeStateService →
    ConversationRuntimeStateService :=
  locked (λ state, set_ct_cancelling ({[conversation_id]} ∪ state.(ct_cancelling_conversations))
                     state).

Definition clear_cancelling (conversation_id : string) : ConversationRuntimeStateService →
    ConversationRuntimeStateService :=
  locked (λ state, set_ct_cancelling (state.(ct_cancelling_conversations) ∖ {[conversation_id]})
                     state).

Definition is_cancelling (conversation_id : string) sv : bool :=
  read_or false (λ state, bool_decide (conversation_id ∈ state.(ct_cancelling_conversations))) sv.

Definition mark_shutting_down sv : nat * ConversationRuntimeStateService :=
  (read_or 0 (λ state, size state.(ct_active_turns)) sv,
   locked (set_ct_shutting_down true) sv).

Definition is_shutting_down sv : bool := read_or true ct_shutting_down sv.

Definition lifecycle_for (conversation_id : string) sv : RuntimeLifecycleState :=
  read_or ShuttingDown (λ state,
    if state.(ct_shutting_down) then ShuttingDown
    else if bool_decide (conversation_id ∈ state.(ct_deleting_conversations)) then Deleting
    else if bool_decide (conversation_id ∈ state.(ct_cancelling_conversations)) then Cancelling
    else Active) sv.

Definition summary_from_parts (conversation_id : string)
    (task_status : option ConversationStatus) (has_task : bool) (pending_confirmations : nat)
    sv : ConversationRuntimeSummary :=
  let '(active_turn_id, cancelling) :=
    read_or (None, false) (λ state,
      (state.(ct_active_turns) !! conversation_id,
       bool_decide (conversation_id ∈ state.(ct_cancelling_conversations)))) sv in
  let claimed := bool_decide (is_Some active_turn_id) in
  let running := bool_decide (task_status = Some StatusRunning) in
  let state :=
    if 0 <? pending_confirmations then KindWaitingConfirmation
    else if cancelling then KindCancelling
    else if claimed && negb running then KindStarting
    else if claimed || running then KindRunning
    else KindIdle in
  let is_processing := bool_decide (state ≠ KindIdle) in
  mkRuntimeSummary state (negb is_processing) has_task task_status is_processing
    pending_confirmations active_turn_id.

(** [ConversationRuntimeStateService::release] *)
Definition release (conversation_id turn_id : string) sv :
    bool * ConversationRuntimeStateService :=
  if sv.(cv_poisoned) then (false, sv)
  else
    let state := sv.(cv_state) in
    match state.(ct_active_turns) !! conversation_id with
    | Some active_turn_id =>
        if bool_decide (active_turn_id = turn_id) then
          (bool_decide (conversation_id ∈ state.(ct_deleting_conversations)),
           mkService sv.(cv_poisoned) (mkConversationRuntimeState
             (delete conversation_id state.(ct_active_turns))
             (state.(ct_deleting_conversations) ∖ {[conversation_id]})
             (state.(ct_cancelling_conversations) ∖ {[conversation_id]})
             state.(ct_shutting_down)))
        else (false, sv)
    | None => (false, sv)
    end.

(** [TurnClaim::release_inner]: [None] is a service that no longer exists. *)
Definition release_inner (claim : TurnClaim) (service : option ConversationRuntimeStateService) :
    bool * TurnClaim * option ConversationRuntimeStateService :=
  if claim.(tc_released) then (false, claim, service)
  else
    let done := mkTurnClaim claim.(tc_conversation_id) claim.(tc_turn_id) true in
    match service with
    | Some sv =>
        let '(was_deleting, sv) := release claim.(tc_conversation_id) claim.(tc_turn_id) sv in
        (was_deleting, done, Some sv)
    | None => (false, done, None)
    end.

Definition release_for_turn (turn_id : string) (claim : TurnClaim)
    (service : option ConversationRuntimeStateService) :
    bool * TurnClaim * option ConversationRuntimeStateService :=
  if bool_decide (claim.(tc_turn_id) ≠ turn_id) then (false, claim, service)
  else release_inner claim service.

(** ** [runtime_persistence.rs] *)

Inductive RuntimeWriteKind :=
  | WriteUserMessage | WriteAssistantTextCreate | WriteAssistantTextFlush
  | WriteAssistantTextFinalize | WriteAssistantThinkingFinalize | WriteToolCallPersist
  | WriteAcpToolCallPersist | WriteToolGroupPersist | WriteTerminalFinalize
  | WriteConversationFinished | WriteSendFailureTip | WriteSessionKey
  | WriteAcpRecoveryCleanup | WriteResolvedWorkspace | WriteStartupRecovery.

#[global] Instance RuntimeWriteKind_eq_dec : EqDecision RuntimeWriteKind.
Proof. solve_decision. Defined.

Inductive RuntimeWriteDecision :=
  | Allow
  | Skip (lifecycle : RuntimeLifecycleState).

Definition decide_write (conversation_id : string) (kind : RuntimeWriteKind) sv :
    RuntimeWriteDecision :=
  let lifecycle := lifecycle_for conversation_id sv in
  let allow := match lifecycle with
    | Active => true
    | Deleting | ShuttingDown =>
        match kind with WriteUserMessage => true | _ => false end
    | Cancelling =>
        match kind with
        | WriteAssistantTextCreate | WriteAssistantTextFlush | WriteAssistantTextFinalize
        | WriteAssistantThinkingFinalize | WriteToolCallPersist | WriteAcpToolCallPersist
        | WriteToolGroupPersist | WriteTerminalFinalize | WriteConversationFinished => true
        | _ => false
        end
    end in
  if allow then Allow else Skip lifecycle.

Definition allows (conversation_id : string) (kind : RuntimeWriteKind) sv : bool :=
  match decide_write conversation_id kind sv with Allow => true | Skip _ => false end.

(** ** The service and the claims that are held

    The claims are handles: a list that only grows, each handle released at most once.
    The mutex may be poisoned at any time. *)

Record RuntimeSystem := mkRuntimeSystem {
  rsy_service : ConversationRuntimeStateService;
  rsy_claims : list TurnClaim;
}.

Inductive runtime_step : RuntimeSystem → RuntimeSystem → Prop :=
  | rt_claim c t sv sv' claim claims :
      try_claim_turn c t sv = (Ok claim, sv') →
      runtime_step (mkRuntimeSystem sv claims) (mkRuntimeSystem sv' (claims ++ [claim]))
  | rt_release n b claim claim' sv sv' claims :
      claims !! n = Some claim →
      release_inner claim (Some sv) = (b, claim', Some sv') →
      runtime_step (mkRuntimeSystem sv claims) (mkRuntimeSystem sv' (<[n := claim']> claims))
  | rt_release_for n t b claim claim' sv sv' claims :
      claims !! n = Some claim →
      release_for_turn t claim (Some sv) = (b, claim', Some sv') →
      runtime_step (mkRuntimeSystem sv claims) (mkRuntimeSystem sv' (<[n := claim']> claims))
  | rt_mark_deleting c sv claims :
      runtime_step (mkRuntimeSystem sv claims) (mkRuntimeSystem (mark_deleting c sv).2 claims)
  | rt_clear_deleting c sv claims :
      runtime_step (mkRuntimeSystem sv claims) (mkRuntimeSystem (clear_deleting c sv) claims)
  | rt_mark_cancelling c sv claims :
      runtime_step (mkRuntimeSystem sv claims) (mkRuntimeSystem (mark_cancelling c sv) claims)
  | rt_clear_cancelling c sv claims :
      runtime_step (mkRuntimeSystem sv claims) (mkRuntimeSystem (clear_cancelling c sv) claims)
  | rt_shutdown sv claims :
      runtime_step (mkRuntimeSystem sv claims) (mkRuntimeSystem (mark_shutting_down sv).2 claims)
  | rt_poison sv claims :
      runtime_step (mkRuntimeSystem sv claims) (mkRuntimeSystem (mkService true sv.(cv_state)) claims).

Definition runtime_steps : RuntimeSystem → RuntimeSystem → Prop := rtc runtime_step.
Definition runtime_initial : RuntimeSystem := mkRuntimeSystem default_service [].
Definition runtime_reachable : RuntimeSystem → Prop := runtime_steps runtime_initial.

Definition held (claims : list TurnClaim) (n : nat) (claim : TurnClaim) : Prop :=
  claims !! n = Some claim ∧ claim.(tc_released) = false.

Record claims_wf (sv : ConversationRuntimeStateService) (claims : list TurnClaim) : Prop := {
  cl_active n claim : held claims n claim →
    sv.(cv_state).(ct_active_turns) !! claim.(tc_conversation_id) = Some claim.(tc_turn_id);
  cl_exclusive n1 n2 claim1 claim2 : held claims n1 claim1 → held claims n2 claim2 →
    claim1.(tc_conversation_id) = claim2.(tc_conversation_id) → n1 = n2;
  cl_held c t : sv.(cv_poisoned) = false →
    sv.(cv_state).(ct_active_turns) !! c = Some t →
    ∃ n claim, held claims n claim ∧ claim.(tc_conversation_id) = c;
}.

(** What a step that claims and releases nothing does. *)
Lemma claims_wf_same sv sv' claims :
  sv'.(cv_state).(ct_active_turns) = sv.(cv_state).(ct_active_turns) →
  (sv'.(cv_poisoned) = false → sv.(cv_poisoned) = false) →
  claims_wf sv claims → claims_wf sv' claims.
Proof.
  intros Ha Hp [H1 H2 H3]. split; [intros n claim; rewrite Ha; apply H1|apply H2|].
  intros c t Hpo. rewrite Ha. apply H3. auto.
Qed.

Lemma claims_wf_locked f sv claims :
  (∀ st, (f st).(ct_active_turns) = st.(ct_active_turns)) →
  claims_wf sv claims → claims_wf (locked f sv) claims.
Proof.
  intros Hf. apply claims_wf_same; unfold locked; destruct (cv_poisoned sv) eqn:Hp; cbn;
    rewrite ?Hp; auto.
Qed.

Lemma try_claim_turn_ok c t sv claim sv' :
  try_claim_turn c t sv = (Ok claim, sv') →
  sv.(cv_poisoned) = false ∧ sv.(cv_state).(ct_shutting_down) = false ∧
  c ∉ sv.(cv_state).(ct_deleting_conversations) ∧
  sv.(cv_state).(ct_active_turns) !! c = None ∧
  claim = mkTurnClaim c t false ∧
  sv' = mkService false (set_ct_active (<[c := t]> sv.(cv_state).(ct_active_turns)) sv.(cv_state)).
Proof.
  unfold try_claim_turn. destruct (cv_poisoned sv); [done|].
  destruct (ct_shutting_down _); [done|]. do 2 (case_bool_decide; [done|]).
  intros [= <- <-]. do 3 (split; [done|]). by rewrite eq_None_not_Some.
Qed.

Lemma held_app claims claim n claim' :
  held (claims ++ [claim]) n claim' → held claims n claim' ∨ n = length claims ∧ claim' = claim.
Proof.
  intros [Hn Hr]. apply lookup_app_Some in Hn as [Hn|[Hlen Hn]]; [by left|right].
  apply list_lookup_singleton_Some in Hn as [Heq <-]. split; [lia|done].
Qed.

Lemma claims_wf_claim c t sv claim sv' claims :
  try_claim_turn c t sv = (Ok claim, sv') → claims_wf sv claims →
  claims_wf sv' (claims ++ [claim]).
Proof.
  intros (Hp & _ & _ & Hnone & -> & ->)%try_claim_turn_ok [H1 H2 H3].
  assert (∀ n claim, held claims n claim → claim.(tc_conversation_id) ≠ c) as Hne.
  { intros n claim Hh Heq. apply H1 in Hh. congruence. }
  split; cbn.
  - intros n claim [Hh|[_ ->]]%held_app; cbn; [|apply lookup_insert_eq].
    rewrite lookup_insert_ne; [by eapply H1|]. apply not_eq_sym. by eapply Hne.
  - intros n1 n2 cl1 cl2 [Hh1|[-> ->]]%held_app [Hh2|[-> ->]]%held_app; cbn; intros Heq;
      [by eapply H2|by apply Hne in Hh1|by apply Hne in Hh2|done].
  - intros c' t' _. rewrite lookup_insert. case_decide as Hc.
    + intros _. exists (length claims), (mkTurnClaim c t false). split; [|done].
      split; [|done]. by rewrite lookup_app_r, Nat.sub_diag.
    + intros Ha. destruct (H3 c' t' Hp Ha) as (n & claim & [Hn Hr] & Hcl).
      exists n, claim. split; [|done]. split; [by apply lookup_app_l_Some|done].
Qed.

Lemma held_insert claims n claim' m claim :
  claim'.(tc_released) = true → held (<[n := claim']> claims) m claim →
  m ≠ n ∧ held claims m claim.
Proof.
  intros Hr [Hm Hrel]. destruct (decide (m = n)) as [->|Hne].
  - apply list_lookup_insert_Some in Hm as [(_ & -> & _)|[? _]]; [congruence|done].
  - rewrite list_lookup_insert_ne in Hm by done. done.
Qed.

Lemma claims_wf_release n b claim claim' sv sv' claims :
  claims !! n = Some claim → release_inner claim (Some sv) = (b, claim', Some sv') →
  claims_wf sv claims → claims_wf sv' (<[n := claim']> claims).
Proof.
  intros Hn. unfold release_inner. destruct (tc_released claim) eqn:Hr.
  { intros [= <- <- <-]. by rewrite list_insert_id. }
  intros Heq Hwf. pose proof Hwf as [H1 H2 H3].
  assert (held claims n claim) as Hh by done. pose proof (H1 _ _ Hh) as Ha.
  set (claim1 := mkTurnClaim _ _ true) in Heq.
  assert (∀ sv1, (∀ c, c ≠ claim.(tc_conversation_id) →
      sv1.(cv_state).(ct_active_turns) !! c = sv.(cv_state).(ct_active_turns) !! c) →
    (sv1.(cv_poisoned) = false → sv.(cv_poisoned) = false ∧
      sv1.(cv_state).(ct_active_turns) !! claim.(tc_conversation_id) = None) →
    claims_wf sv1 (<[n := claim1]> claims)) as Hgoal.
  { intros sv1 Hsame Hpo. split.
    - intros m cl [Hmn Hm]%held_insert; [|done]. rewrite Hsame; [by eapply H1|].
      intros Hc. apply Hmn. by eapply H2.
    - intros m1 m2 cl1 cl2 [_ Hm1]%held_insert [_ Hm2]%held_insert; [by eapply H2|done|done].
    - intros c t Hp1 Hc. destruct (Hpo Hp1) as [Hp Hnone].
      assert (c ≠ claim.(tc_conversation_id)) as Hne by congruence.
      rewrite Hsame in Hc by done. destruct (H3 c t Hp Hc) as (m & cl & [Hm Hmr] & Hcl).
      exists m, cl. split; [|done]. split; [|done]. rewrite list_lookup_insert_ne; [done|].
      intros ->. congruence. }
  unfold release in Heq. destruct (cv_poisoned sv) eqn:Hp.
  - injection Heq as <- <- <-. apply Hgoal; [done|]. congruence.
  - rewrite Ha, bool_decide_true in Heq by done. injection Heq as <- <- <-. apply Hgoal; cbn.
    + intros c Hc. by rewrite lookup_delete_ne.
    + split; [done|]. apply lookup_delete_eq.
Qed.

Lemma runtime_step_wf s s' :
  runtime_step s s' → claims_wf s.(rsy_service) s.(rsy_claims) →
  claims_wf s'.(rsy_service) s'.(rsy_claims).
Proof.
  intros []; cbn; try by apply claims_wf_locked.
  - by eapply claims_wf_claim.
  - by eapply claims_wf_release.
  - unfold release_for_turn in *. case_bool_decide; [|by eapply claims_wf_release].
    simplify_eq. by rewrite list_insert_id.
  - by apply claims_wf_same.
Qed.

Lemma runtime_reachable_wf s :
  runtime_reachable s → claims_wf s.(rsy_service) s.(rsy_claims).
Proof.
  unfold runtime_reachable, runtime_steps. intros Hs.
  assert (claims_wf runtime_initial.(rsy_service) runtime_initial.(rsy_claims)) as Hinit.
  { split; [by intros n claim [Hn _]|by intros n1 n2 c1 c2 [Hn _]|by intros c t _ Ha]. }
  induction Hs as [|s1 s2 s3 Hstep _ IH]; [done|]. apply IH. by eapply runtime_step_wf.
Qed.

(** ** Theorems *)

(** At most one turn holds a conversation: in every reachable state two unreleased
    claims are claims of different conversations, and the service records exactly the
    unreleased claims (as long as its mutex is not poisoned). *)
Theorem turn_claims_exclusive s :
  runtime_reachable s →
  (∀ n1 n2 claim1 claim2, held s.(rsy_claims) n1 claim1 → held s.(rsy_claims) n2 claim2 →
     claim1.(tc_conversation_id) = claim2.(tc_conversation_id) → n1 = n2) ∧
  (s.(rsy_service).(cv_poisoned) = false → ∀ c t,
     active_turn_id_for c s.(rsy_service) = Some t ↔
     ∃ n claim, held s.(rsy_claims) n claim ∧
       claim.(tc_conversation_id) = c ∧ claim.(tc_turn_id) = t).
Proof.
  intros [H1 H2 H3]%runtime_reachable_wf. split; [done|]. intros Hp c t.
  unfold active_turn_id_for, read_or. rewrite Hp. split.
  - intros Ha. destruct (H3 c t Hp Ha) as (n & claim & Hh & Hc). exists n, claim.
    split; [done|]. split; [done|]. apply H1 in Hh. congruence.
  - intros (n & claim & Hh & <- & <-). by apply (H1 n).
Qed.

(** [try_claim_turn] succeeds exactly when the conversation is free: the runtime is
    not shutting down, the conversation is not being deleted and no turn holds it; on
    success the turn holds it, and on failure nothing changes. *)
Theorem try_claim_turn_spec c t sv :
  (match try_claim_turn c t sv with
   | (Ok claim, sv') =>
       claim = mkTurnClaim c t false ∧ active_turn_id_for c sv' = Some t ∧
       ∀ c', c' ≠ c → active_turn_id_for c' sv' = active_turn_id_for c' sv
   | (Err _, sv') => sv' = sv
   end) ∧
  (is_ok (try_claim_turn c t sv).1 = true ↔
     is_shutting_down sv = false ∧ is_deleting c sv = false ∧ is_claimed c sv = false).
Proof.
  destruct (try_claim_turn c t sv) as [[claim|e] sv'] eqn:Heq; cbn.
  - apply try_claim_turn_ok in Heq as (Hp & Hs & Hd & Ha & -> & ->).
    unfold active_turn_id_for, is_shutting_down, is_deleting, is_claimed, read_or. rewrite Hp. cbn.
    split; [split; [done|split; [apply lookup_insert_eq|]]|].
    + intros c' Hc. by rewrite lookup_insert_ne.
    + split; [|done]. intros _. split; [done|]. rewrite Ha.
      split; apply bool_decide_false; [done|by intros []].
  - revert Heq. unfold try_claim_turn, is_shutting_down, is_deleting, is_claimed, read_or.
    destruct (cv_poisoned sv); [intros [= <- <-]; split; [done|]; naive_solver|].
    destruct (ct_shutting_down _); [intros [= <- <-]; split; [done|]; naive_solver|].
    do 2 (case_bool_decide; [intros [= <- <-]; split; [done|]; naive_solver|]). done.
Qed.

(** Releasing a held claim frees its conversation and nothing else: its deleting and
    cancelling flags are cleared, other conversations are untouched, the result says
    whether a deletion was waiting, and releasing again does nothing. *)
Theorem release_frees_conversation s n claim :
  runtime_reachable s → s.(rsy_service).(cv_poisoned) = false →
  held s.(rsy_claims) n claim →
  let c := claim.(tc_conversation_id) in
  ∃ claim' sv', release_inner claim (Some s.(rsy_service)) =
      (is_deleting c s.(rsy_service), claim', Some sv') ∧
    is_claimed c sv' = false ∧ is_deleting c sv' = false ∧ is_cancelling c sv' = false ∧
    (∀ c', c' ≠ c → active_turn_id_for c' sv' = active_turn_id_for c' s.(rsy_service) ∧
                    lifecycle_for c' sv' = lifecycle_for c' s.(rsy_service)) ∧
    release_inner claim' (Some sv') = (false, claim', Some sv').
Proof.
  intros Hwf%runtime_reachable_wf Hp Hh c. pose proof (cl_active _ _ Hwf _ _ Hh) as Ha.
  destruct Hh as [_ Hr]. assert (claim.(tc_conversation_id) = c) as Hc by done. clearbody c.
  unfold release_inner at 1, release. rewrite Hc in *. rewrite Hr, Hp, Ha.
  rewrite bool_decide_true by done. do 2 eexists.
  unfold is_deleting, is_claimed, is_cancelling, active_turn_id_for, lifecycle_for, read_or.
  rewrite Hp. split; [done|]. cbn.
  split; [by rewrite lookup_delete_eq, bool_decide_false by (by intros [])|].
  split; [apply bool_decide_false; set_solver|]. split; [apply bool_decide_false; set_solver|].
  split; [|done]. intros c' Hne. rewrite lookup_delete_ne by done. split; [done|].
  destruct (ct_shutting_down _); [done|].
  assert (∀ X : gset string, bool_decide (c' ∈ X ∖ {[c]}) = bool_decide (c' ∈ X)) as HX.
  { intros X. apply bool_decide_ext. set_solver. }
  by rewrite !HX.
Qed.

Lemma shutting_down_step s s' :
  runtime_step s s' → is_shutting_down s.(rsy_service) = true →
  is_shutting_down s'.(rsy_service) = true.
Proof.
  assert (∀ f sv, (∀ st, (f st).(ct_shutting_down) = st.(ct_shutting_down)) →
    is_shutting_down (locked f sv) = is_shutting_down sv) as Hlocked.
  { intros f sv Hf. unfold is_shutting_down, read_or, locked.
    destruct (cv_poisoned sv) eqn:Hp; cbn; by rewrite ?Hp. }
  assert (∀ claim b claim' sv sv', release_inner claim (Some sv) = (b, claim', Some sv') →
    is_shutting_down sv' = is_shutting_down sv) as Hrelease.
  { intros claim b claim' sv sv'. unfold release_inner, release, is_shutting_down, read_or.
    destruct (tc_released claim); [by intros [= <- <- <-]|].
    destruct (cv_poisoned sv) eqn:Hp; [by intros [= <- <- <-]; rewrite Hp|].
    destruct (_ !! _); [|by intros [= <- <- <-]; rewrite Hp].
    case_bool_decide; intros [= <- <- <-]; cbn; by rewrite ?Hp.
  }
  intros []; cbn; unfold clear_deleting, mark_cancelling, clear_cancelling;
    try by rewrite Hlocked.
  - apply try_claim_turn_ok in H as (Hp & _ & _ & _ & _ & ->).
    unfold is_shutting_down, read_or. by rewrite Hp.
  - match goal with Hr : release_inner _ _ = _ |- _ => by rewrite (Hrelease _ _ _ _ _ Hr) end.
  - unfold release_for_turn in *. case_bool_decide; [by simplify_eq|].
    match goal with Hr : release_inner _ _ = _ |- _ => by rewrite (Hrelease _ _ _ _ _ Hr) end.
  - unfold is_shutting_down, read_or, locked. destruct (cv_poisoned sv) eqn:Hp; cbn;
      by rewrite ?Hp.
  - done.
Qed.

(** Shutdown is final: once the runtime is shutting down no turn is ever claimed. *)
Theorem shutdown_is_final s s' c t :
  runtime_steps s s' → is_shutting_down s.(rsy_service) = true →
  is_ok (try_claim_turn c t s'.(rsy_service)).1 = false.
Proof.
  intros Hs Hdown. assert (is_shutting_down s'.(rsy_service) = true) as Hdown'.
  { induction Hs as [|s1 s2 s3 Hstep _ IH]; [done|]. apply IH. by eapply shutting_down_step. }
  destruct (try_claim_turn c t s'.(rsy_service)) as [[claim|e] sv'] eqn:Heq; [|done].
  apply try_claim_turn_ok in Heq as (Hp & Hs' & _).
  unfold is_shutting_down, read_or in Hdown'. rewrite Hp in Hdown'. congruence.
Qed.

(** The summary that clients see is coherent: a message can be sent exactly when the
    conversation is idle, that is when no turn holds it, no cancellation and no
    confirmation is pending and the agent is not running; and the send is then accepted
    unless the conversation is being deleted or the runtime shuts down. *)
Theorem summary_can_send c status has_task pending t sv :
  let s := summary_from_parts c status has_task pending sv in
  s.(sm_can_send_message) = negb s.(sm_is_processing) ∧
  (s.(sm_can_send_message) = true ↔
     is_claimed c sv = false ∧ is_cancelling c sv = false ∧ pending = 0 ∧
     status ≠ Some StatusRunning) ∧
  (s.(sm_can_send_message) = true → lifecycle_for c sv = Active →
     is_ok (try_claim_turn c t sv).1 = true).
Proof.
  cbn zeta. split.
  { unfold summary_from_parts. by destruct (read_or _ _ _). }
  assert ((summary_from_parts c status has_task pending sv).(sm_can_send_message) = true ↔
    is_claimed c sv = false ∧ is_cancelling c sv = false ∧ pending = 0 ∧
    status ≠ Some StatusRunning) as Hiff.
  { unfold summary_from_parts, is_claimed, is_cancelling, read_or.
    assert ((if cv_poisoned sv then (None, false) else
      (ct_active_turns (cv_state sv) !! c,
       bool_decide (c ∈ ct_cancelling_conversations (cv_state sv)))) =
      (if cv_poisoned sv then None else ct_active_turns (cv_state sv) !! c,
       if cv_poisoned sv then false else
         bool_decide (c ∈ ct_cancelling_conversations (cv_state sv)))) as ->
      by (by destruct (cv_poisoned sv)).
    assert (bool_decide (is_Some (if cv_poisoned sv then None
        else ct_active_turns (cv_state sv) !! c)) =
      if cv_poisoned sv then false
      else bool_decide (is_Some (ct_active_turns (cv_state sv) !! c))) as ->.
    { destruct (cv_poisoned sv); [|done]. by apply bool_decide_false; intros []. }
    destruct (if cv_poisoned sv then false else bool_decide (c ∈ _)),
      (if cv_poisoned sv then false else bool_decide (is_Some _)), pending; cbn;
      repeat case_bool_decide; naive_solver. }
  split; [exact Hiff|]. intros (Hc & _ & _ & _)%Hiff Hl.
  revert Hc Hl. unfold is_claimed, lifecycle_for, try_claim_turn, read_or.
  destruct (cv_poisoned sv); [done|]. destruct (ct_shutting_down _); [done|].
  intros ->. by destruct (bool_decide (c ∈ ct_deleting_conversations _)).
Qed.

(** ** A race between [cancel] and the end of the turn

    [ConversationService::cancel] reads the active turn and, later, calls
    [mark_cancelling]: two acquisitions of the mutex.  If the turn is released in
    between, the flag is set on a free conversation. *)

(** If the turn ends between the check and the mark of a cancellation, the flag stays:
    the conversation is reported as cancelling, and the next send gets its claim but its
    user message is not allowed to be written. *)
Theorem late_cancel_blocks_user_message c t t' sv :
  sv.(cv_poisoned) = false → lifecycle_for c sv = Active →
  active_turn_id_for c sv = Some t →
  let sv1 := (release c t sv).2 in
  let sv2 := mark_cancelling c sv1 in
  is_cancelling c sv2 = true ∧
  ∃ claim sv3, try_claim_turn c t' sv2 = (Ok claim, sv3) ∧
    allows c WriteUserMessage sv3 = false.
Proof.
  intros Hp Hl Ha. unfold lifecycle_for, active_turn_id_for, read_or in *. rewrite Hp in *.
  destruct (ct_shutting_down _) eqn:Hs; [done|]. case_bool_decide as Hd; [done|].
  unfold release. rewrite Hp, Ha, bool_decide_true by done. cbn.
  unfold is_cancelling, read_or, mark_cancelling, locked. cbn.
  split; [apply bool_decide_true; set_solver|].
  unfold try_claim_turn. cbn. rewrite ?Hp. cbn. rewrite Hs, lookup_delete_eq.
  rewrite bool_decide_false by set_solver. rewrite bool_decide_false by (by intros []).
  do 2 eexists. split; [done|]. unfold allows, decide_write, lifecycle_for, read_or. cbn.
  rewrite ?Hs, bool_decide_false, bool_decide_true by set_solver. done.
Qed.

(** ** Concrete instances *)

Definition claimed_service : ConversationRuntimeStateService :=
  (try_claim_turn "conv" "turn" default_service).2.

Definition claimed_system : RuntimeSystem :=
  mkRuntimeSystem claimed_service [mkTurnClaim "conv" "turn" false].

Lemma claimed_system_reachable : runtime_reachable claimed_system.
Proof. apply rtc_once. apply (rt_claim "conv" "turn" default_service _ _ []). reflexivity. Qed.

Lemma turn_claims_exclusive_witness :
  active_turn_id_for "conv" claimed_service = Some "turn".
Proof.
  destruct (turn_claims_exclusive claimed_system claimed_system_reachable) as [_ Hactive].
  apply (Hactive eq_refl "conv" "turn"). exists 0, (mkTurnClaim "conv" "turn" false).
  split; [split; reflexivity|split; reflexivity].
Defined.

Lemma release_frees_conversation_witness :
  ∃ claim' sv', release_inner (mkTurnClaim "conv" "turn" false) (Some claimed_service) =
                  (false, claim', Some sv') ∧ is_claimed "conv" sv' = false.
Proof.
  destruct (release_frees_conversation claimed_system 0 (mkTurnClaim "conv" "turn" false)
    claimed_system_reachable eq_refl (conj eq_refl eq_refl)) as (claim' & sv' & Heq & Hfree & _).
  exists claim', sv'. split; [exact Heq|exact Hfree].
Defined.

Lemma shutdown_is_final_witness :
  is_ok (try_claim_turn "other" "turn" (mark_shutting_down claimed_service).2).1 = false.
Proof.
  apply (shutdown_is_final (mkRuntimeSystem (mark_shutting_down claimed_service).2 [])
    (mkRuntimeSystem (mark_shutting_down claimed_service).2 []) "other" "turn").
  - apply rtc_refl.
  - vm_compute. reflexivity.
Defined.

Lemma late_cancel_blocks_user_message_witness :
  is_cancelling "conv" (mark_cancelling "conv" (release "conv" "turn" claimed_service).2) = true.
Proof.
  apply (late_cancel_blocks_user_message "conv" "turn" "next" claimed_service);
    vm_compute; reflexivity.
Defined.
