(* ===== verification/ConvPolicy.v ===== *)
(** * What follows a turn: recovery, continuation, agent health

    Models [turn_recovery_policy.rs], [turn_continuation_policy.rs] and
    [agent_health_policy.rs] of [aionui-conversation], with the outcome of a relayed
    turn ([stream_relay.rs]) and its error ([aionui-api-types/src/agent_error.rs]). *)
From Stdlib Require Import Ascii String.
From S2P Require Import Prelude ConvRuntime.

(** ** Data *)

Inductive AgentErrorOwnership :=
  | OwnerAionui | OwnerUserAgent | OwnerUserLlmProvider | OwnerUnknownUpstream.

Inductive AgentErrorCode :=
  | AionuiConversationBusy | AionuiStreamBroken | AionuiStateInconsistent
  | AionuiPermissionError | AionuiInternalError | WorkspacePathRuntimeUnavailable
  | UserAgentHandshakeFailed | UserAgentHandshakeTimeout | UserAgentAcpInitFailed
  | UserAgentProtocolMismatch | UserAgentNotInstalled | UserAgentStartupFailed
  | UserAgentOpenClawGatewayUnreachable | UserAgentDisconnected | UserAgentAuthRequired
  | UserAgentSessionNotFound | UserAgentNoPreviousSession | UserAgentProtocolParseError
  | UserAgentInvalidRequest | UserAgentResourceNotFound | UserAgentProtocolError
  | UserAgentCommandNotFound | UserAgentMissingEnv | UserAgentUnsupportedMethod
  | UserAgentInvalidParams | UserLlmProviderAuthFailed | UserLlmProviderAwsSsoExpired
  | UserLlmProviderPermissionDenied | UserLlmProviderBillingRequired
  | UserLlmProviderConfigError | UserLlmProviderModelNotFound
  | UserLlmProviderUnsupportedModel | UserLlmProviderEndpointNotFound
  | UserLlmProviderInvalidRequest | UserLlmProviderInvalidToolSchema
  | UserLlmProviderContextTooLarge | UserLlmProviderRateLimited | UserLlmProviderTimeout
  | UserLlmProviderNetworkError | UserLlmProviderEmptyResponse | UserLlmProviderGatewayError
  | UnknownUpstreamError.

#[global] Instance AgentErrorCode_eq_dec : EqDecision AgentErrorCode.
Proof. solve_decision. Defined.

Inductive AgentErrorResolutionKind :=
  | ResolveRetry | ResolveWaitForCurrentResponse | ResolveStartNewSession
  | ResolveReconnectAgent | ResolveCheckAgentLogin | ResolveCheckAgentInstallation
  | ResolveCheckAgentVersion | ResolveCheckLocalCommand | ResolveCheckProviderCredentials
  | ResolveCheckProviderBilling | ResolveCheckProviderBaseUrl | ResolveChangeModel
  | ResolveReduceContext | ResolveSendFeedback.

Inductive AgentErrorResolutionTarget :=
  | TargetProviderSettings | TargetAgentSettings | TargetNewConversation | TargetFeedback.

(** [ar] = [AgentErrorResolution] *)
Record AgentErrorResolution := mkAgentErrorResolution {
  ar_kind : AgentErrorResolutionKind;
  ar_target : option AgentErrorResolutionTarget;
}.

(** [ed] = [AgentStreamErrorData], alias [ErrorEventData] *)
Record AgentStreamErrorData := mkAgentStreamErrorData {
  ed_message : string;
  ed_code : option AgentErrorCode;
  ed_ownership : option AgentErrorOwnership;
  ed_detail : option string;
  ed_workspace_path : option string;
  ed_retryable : option bool;
  ed_feedback_recommended : option bool;
  ed_resolution : option AgentErrorResolution;
}.

(** [ta] = [TurnAttemptSummary] *)
Record TurnAttemptSummary := mkTurnAttemptSummary {
  ta_saw_visible_output : bool;
  ta_saw_tool_or_side_effect : bool;
  ta_persisted_assistant_output : bool;
  ta_terminal_error : option AgentStreamErrorData;
  ta_terminal_error_deferred : bool;
}.

Definition default_attempt : TurnAttemptSummary := mkTurnAttemptSummary false false false None false.

Definition safe_to_auto_replay (a : TurnAttemptSummary) : bool :=
  negb a.(ta_saw_visible_output) && negb a.(ta_saw_tool_or_side_effect) &&
  negb a.(ta_persisted_assistant_output).

(** [TurnAttemptSummary::merge] *)
Definition merge_attempt (other self : TurnAttemptSummary) : TurnAttemptSummary :=
  mkTurnAttemptSummary
    (self.(ta_saw_visible_output) || other.(ta_saw_visible_output))
    (self.(ta_saw_tool_or_side_effect) || other.(ta_saw_tool_or_side_effect))
    (self.(ta_persisted_assistant_output) || other.(ta_persisted_assistant_output))
    (match other.(ta_terminal_error) with
     | Some e => Some e
     | None => self.(ta_terminal_error)
     end)
    (self.(ta_terminal_error_deferred) || other.(ta_terminal_error_deferred)).

Inductive RelayTerminal :=
  | TerminalFinish
  | TerminalError (code : option AgentErrorCode) (retryable : option bool)
  | TerminalChannelClosed.

Definition terminal_is_error (t : RelayTerminal) : bool :=
  match t with TerminalError _ _ => true | _ => false end.
Definition terminal_code (t : RelayTerminal) : option AgentErrorCode :=
  match t with TerminalError code _ => code | _ => None end.
Definition terminal_retryable (t : RelayTerminal) : option bool :=
  match t with TerminalError _ retryable => retryable | _ => None end.

(** [ro] = [RelayOutcome] *)
Record RelayOutcome := mkRelayOutcome {
  ro_system_responses : list string;
  ro_terminal : RelayTerminal;
  ro_attempt : TurnAttemptSummary;
}.

Inductive AgentType :=
  | Acp | OpenclawGateway | Nanobot | Remote | Aionrs | Gemini | Codex.

#[global] Instance AgentType_eq_dec : EqDecision AgentType.
Proof. solve_decision. Defined.

Inductive AgentKillReason :=
  | KillIdleTimeout | KillAgentErrorRecovery | KillTeamMcpRebuild | KillTeamDeleted
  | KillConversationDeleted | KillUserCancelTimeout | KillRuntimeCapabilityChanged.

Inductive SessionRecoverySignal := CompactFailed | ResumeFailed.

Inductive TurnRecoveryDecision :=
  | RecoveryNone
  | AutoReplayOnce (reason : AgentKillReason) (safe : bool)
      (session_recovery_signal : option SessionRecoverySignal).

(** ** [TurnRecoveryPolicy] *)

Definition classify_session_recovery_signal (outcome : RelayOutcome) :
    option SessionRecoverySignal :=
  data ← outcome.(ro_attempt).(ta_terminal_error);
  let haystack := to_ascii_lowercase
    (data.(ed_message) +:+ newline +:+ default "" data.(ed_detail)) in
  if contains "/responses/compact" haystack || contains "remote compact failed" haystack
  then Some CompactFailed
  else if contains "session/load" haystack || contains "resume" haystack
  then Some ResumeFailed
  else None.

(** [TurnRecoveryPolicy::decide]; [backend] is only logged. *)
Definition decide_recovery (agent_type : AgentType) (outcome : RelayOutcome)
    (lifecycle : RuntimeLifecycleState) (already_replayed : bool) : TurnRecoveryDecision :=
  let error_code := terminal_code outcome.(ro_terminal) in
  let retryable := terminal_retryable outcome.(ro_terminal) in
  let safe := safe_to_auto_replay outcome.(ro_attempt) in
  if bool_decide (lifecycle = Active) && bool_decide (agent_type = Acp) &&
     terminal_is_error outcome.(ro_terminal) && bool_decide (retryable = Some true) &&
     bool_decide (error_code ≠ Some UserLlmProviderModelNotFound) && safe &&
     negb already_replayed
  then AutoReplayOnce KillAgentErrorRecovery safe (classify_session_recovery_signal outcome)
  else RecoveryNone.

(** ** [TurnContinuationPolicy] *)

Inductive ContinuationStopReason :=
  | NoSystemResponses | TerminalNotFinish | LifecycleNotActive | LimitReached.

Inductive ContinuationDecision :=
  | Continue (content : string) (next_count : nat)
  | Stop (reason : ContinuationStopReason).

Definition decide_continuation (max_continuations continuation_count : nat)
    (outcome : RelayOutcome) (lifecycle : RuntimeLifecycleState) : ContinuationDecision :=
  if bool_decide (lifecycle ≠ Active) then Stop LifecycleNotActive
  else if terminal_is_error outcome.(ro_terminal) then Stop TerminalNotFinish
  else if bool_decide (outcome.(ro_system_responses) = []) then Stop NoSystemResponses
  else if max_continuations <=? continuation_count then Stop LimitReached
  else Continue (String.concat newline outcome.(ro_system_responses)) (continuation_count + 1).

(** ** [AgentHealthPolicy] *)

Inductive AgentHealthAction :=
  | Keep
  | EvictAcpTask (error_code : option AgentErrorCode) (retryable : option bool)
      (clear_model_seed : bool).

Definition decide_health (agent_type : AgentType) (outcome : RelayOutcome)
    (lifecycle : RuntimeLifecycleState) : AgentHealthAction :=
  match lifecycle with
  | Deleting | ShuttingDown => Keep
  | Active | Cancelling =>
      if bool_decide (agent_type ≠ Acp) || negb (terminal_is_error outcome.(ro_terminal))
      then Keep
      else
        let error_code := terminal_code outcome.(ro_terminal) in
        EvictAcpTask error_code (terminal_retryable outcome.(ro_terminal))
          (bool_decide (error_code = Some UserLlmProviderModelNotFound))
  end.

(** ** Theorems *)

(** A turn is replayed automatically only when nothing of the failed attempt can have
    been seen or done: the decision is to replay exactly when the lifecycle is active,
    the agent is an ACP agent, the turn ended in a retryable error other than a missing
    model, nothing was shown, persisted or executed, and it was not replayed already. *)
Theorem recovery_replays_iff agent_type outcome lifecycle already :
  decide_recovery agent_type outcome lifecycle already ≠ RecoveryNone ↔
    lifecycle = Active ∧ agent_type = Acp ∧
    (∃ code, outcome.(ro_terminal) = TerminalError code (Some true) ∧
             code ≠ Some UserLlmProviderModelNotFound) ∧
    outcome.(ro_attempt).(ta_saw_visible_output) = false ∧
    outcome.(ro_attempt).(ta_saw_tool_or_side_effect) = false ∧
    outcome.(ro_attempt).(ta_persisted_assistant_output) = false ∧
    already = false.
Proof.
  unfold decide_recovery, safe_to_auto_replay.
  destruct (ro_terminal outcome) as [|code retryable|]; cbn.
  - rewrite !andb_false_r. cbn. naive_solver.
  - destruct (ro_attempt outcome) as [v tool p err d]; cbn.
    repeat case_bool_decide; cbn; destruct v, tool, p, already; cbn; naive_solver.
  - rewrite !andb_false_r. cbn. naive_solver.
Qed.

(** The attempts of a turn add up: merging attempts is associative with the empty
    attempt as unit, and the merged attempt is safe to replay exactly when each is. *)
Theorem merge_attempts a b c :
  merge_attempt c (merge_attempt b a) = merge_attempt (merge_attempt c b) a ∧
  merge_attempt a default_attempt = a ∧ merge_attempt default_attempt a = a ∧
  safe_to_auto_replay (merge_attempt b a) = safe_to_auto_replay a && safe_to_auto_replay b.
Proof.
  destruct a as [va ta pa ea da], b as [vb tb pb eb db], c as [vc tc pc ec dc].
  unfold merge_attempt, safe_to_auto_replay, default_attempt. cbn.
  split; [by destruct ec; rewrite !orb_assoc|]. split; [by destruct ea|].
  split; [by rewrite !orb_false_r|]. by destruct va, ta, pa, vb, tb, pb.
Qed.

(** The number of automatic continuations when every turn asks for one. *)
Fixpoint continuations (max count : nat) (outcomes : list RelayOutcome)
    (lifecycle : RuntimeLifecycleState) : nat :=
  match outcomes with
  | [] => 0
  | outcome :: outcomes =>
      match decide_continuation max count outcome lifecycle with
      | Continue _ next => S (continuations max next outcomes lifecycle)
      | Stop _ => 0
      end
  end.

(** A turn is continued at most [max_continuations] times in a row, whatever the agent
    answers, and never once its conversation is being cancelled, deleted or shut down. *)
Theorem continuations_bounded max outcomes lifecycle :
  continuations max 0 outcomes lifecycle ≤ max ∧
  (lifecycle ≠ Active → continuations max 0 outcomes lifecycle = 0).
Proof.
  assert (∀ count, count ≤ max → continuations max count outcomes lifecycle + count ≤ max)
    as Hbound.
  { induction outcomes as [|outcome outcomes IH]; intros count Hc; cbn; [lia|].
    unfold decide_continuation. case_bool_decide; [lia|].
    destruct (terminal_is_error _); [lia|]. case_bool_decide; [lia|].
    destruct (Nat.leb_spec max count); [lia|].
    specialize (IH (count + 1) ltac:(lia)). lia. }
  split; [specialize (Hbound 0); lia|]. intros Hl. destruct outcomes; [done|]. cbn.
  unfold decide_continuation. by rewrite bool_decide_true.
Qed.

(** The policies do not contradict each other: a turn that is replayed is not also
    continued, and the health policy evicts its agent task but keeps the seed of the model
    choice. *)
Theorem policies_consistent agent_type outcome lifecycle already max count :
  decide_recovery agent_type outcome lifecycle already ≠ RecoveryNone →
  decide_continuation max count outcome lifecycle = Stop TerminalNotFinish ∧
  ∃ code, decide_health agent_type outcome lifecycle = EvictAcpTask code (Some true) false.
Proof.
  unfold decide_recovery, decide_continuation, decide_health.
  destruct (bool_decide (lifecycle = Active)) eqn:Hl; [|done].
  apply bool_decide_eq_true in Hl as ->. case_bool_decide as Ha; [|done].
  destruct (ro_terminal outcome) as [|code retryable|]; cbn; [done| |done].
  destruct (bool_decide (retryable = Some true)) eqn:Hr; [|done].
  apply bool_decide_eq_true in Hr as ->.
  destruct (bool_decide (code ≠ Some _)) eqn:Hcode; [|done].
  apply bool_decide_eq_true in Hcode. intros _. split; [done|].
  rewrite bool_decide_false by naive_solver. cbn. exists code.
  by rewrite (bool_decide_false (code = _)).
Qed.

(** ** Concrete instances *)

Definition overloaded_outcome : RelayOutcome :=
  mkRelayOutcome [] (TerminalError (Some UserLlmProviderTimeout) (Some true)) default_attempt.

Lemma policies_consistent_witness :
  decide_continuation 3 0 overloaded_outcome Active = Stop TerminalNotFinish ∧
  ∃ code, decide_health Acp overloaded_outcome Active = EvictAcpTask code (Some true) false.
Proof.
  apply (policies_consistent Acp overloaded_outcome Active false 3 0).
  vm_compute. discriminate.
Defined.
