(* ===== verification/AuthLimits.v ===== *)
(** * Rate limiting and QR login tokens

    Models [aionui-auth/src/rate_limit.rs] and [qr_token.rs].  Both keep a concurrent
    map whose entries are locked one at a time: a call is one transition of the map.
    [now] is the reading of the clock; a middleware gets the rest of the request's
    handling as a function.  Times are [u64] milliseconds (rate limits) and [i64]
    milliseconds (tokens), counters are [u32]. *)
From S2P Require Import Prelude.

Inductive AuthError :=
  | InvalidCredentials
  | WeakPassword (why : string)
  | InvalidUsername (why : string)
  | TokenExpired
  | TokenInvalid (why : string)
  | TokenBlacklisted
  | RateLimited
  | HashError (why : string).

#[global] Instance AuthError_eq_dec : EqDecision AuthError.
Proof. solve_decision. Defined.

(** ** [rate_limit.rs] *)

(** [en] = [RateLimitEntry] *)
Record RateLimitEntry := mkRateLimitEntry {
  en_count : Z;
  en_reset_time_ms : Z;
}.

(** [rl] = [RateLimiter] *)
Record RateLimiter := mkRateLimiter {
  rl_entries : gmap string RateLimitEntry;
  rl_max_requests : Z;
  rl_window_ms : Z;
}.

Definition new_limiter (max_requests window_ms : Z) : RateLimiter :=
  mkRateLimiter ∅ max_requests window_ms.

Definition auth_limiter : RateLimiter := new_limiter 5 (15 * 60 * 1000).
Definition api_limiter : RateLimiter := new_limiter 60 (60 * 1000).
Definition authenticated_action_limiter : RateLimiter := new_limiter 20 (60 * 1000).

(** [+=] on [u32] and [+] on [u64] in a release build. *)
Definition add_u32 (a b : Z) : Z := (a + b) mod 2 ^ 32.
Definition add_u64 (a b : Z) : Z := (a + b) mod 2 ^ 64.

Definition set_entry (key : string) (e : RateLimitEntry) (rl : RateLimiter) : RateLimiter :=
  mkRateLimiter (<[key := e]> rl.(rl_entries)) rl.(rl_max_requests) rl.(rl_window_ms).

Definition check (now : Z) (key : string) (rl : RateLimiter) : result unit AuthError :=
  match rl.(rl_entries) !! key with
  | Some entry =>
      if (now <? entry.(en_reset_time_ms))%Z && (rl.(rl_max_requests) <=? entry.(en_count))%Z
      then Err RateLimited else Ok tt
  | None => Ok tt
  end.

(** The entry a counting call works on: a new one, or the old one with its window reset
    if it is over. *)
Definition current_entry (now window_ms : Z) (o : option RateLimitEntry) : RateLimitEntry :=
  let fresh := mkRateLimitEntry 0 (add_u64 now window_ms) in
  let entry := default fresh o in
  if (entry.(en_reset_time_ms) <=? now)%Z then fresh else entry.

Definition check_and_increment (now : Z) (key : string) (rl : RateLimiter) :
    result unit AuthError * RateLimiter :=
  let entry := current_entry now rl.(rl_window_ms) (rl.(rl_entries) !! key) in
  if (rl.(rl_max_requests) <=? entry.(en_count))%Z
  then (Err RateLimited, set_entry key entry rl)
  else (Ok tt, set_entry key
                 (mkRateLimitEntry (add_u32 entry.(en_count) 1) entry.(en_reset_time_ms)) rl).

Definition record_attempt (now : Z) (key : string) (rl : RateLimiter) : RateLimiter :=
  let entry := current_entry now rl.(rl_window_ms) (rl.(rl_entries) !! key) in
  set_entry key (mkRateLimitEntry (add_u32 entry.(en_count) 1) entry.(en_reset_time_ms)) rl.

Definition cleanup (now : Z) (rl : RateLimiter) : RateLimiter :=
  mkRateLimiter (filter (λ e, (now < e.2.(en_reset_time_ms))%Z) rl.(rl_entries))
    rl.(rl_max_requests) rl.(rl_window_ms).

Definition entry_count (rl : RateLimiter) : nat := size rl.(rl_entries).

(** [auth_rate_limit_middleware]: [next] is the rest of the handling, with the status of
    its response; the limiter is read at [now] and written at [later]. *)
Definition auth_rate_limit_middleware {R} (is_success : R → bool) (now later : Z) (ip : string)
    (next : R) (rl : RateLimiter) : result R AuthError * RateLimiter :=
  match check now ip rl with
  | Err e => (Err e, rl)
  | Ok _ => (Ok next, if is_success next then rl else record_attempt later ip rl)
  end.

(** [api_rate_limit_middleware] and [authenticated_action_rate_limit_middleware]; they
    differ in the key. *)
Definition counting_middleware {R} (now : Z) (key : string) (next : R) (rl : RateLimiter) :
    result R AuthError * RateLimiter :=
  let '(r, rl) := check_and_increment now key rl in
  match r with Err e => (Err e, rl) | Ok _ => (Ok next, rl) end.

Definition authenticated_action_key (user_id : option string) (client_ip : string) : string :=
  match user_id with
  | Some id => "user:" +:+ id
  | None => "ip:" +:+ client_ip
  end.

(** ** [qr_token.rs] *)

Definition QR_TOKEN_TTL_MS : Z := 5 * 60 * 1000.
Definition QR_TOKEN_BYTES : nat := 32.

(** [qd] = [QrTokenData] *)
Record QrTokenData := mkQrTokenData {
  qd_created_at_ms : Z;
  qd_used : bool;
}.

Notation QrTokenStore := (gmap string QrTokenData).

Definition hex_digit (n : Z) : Ascii.ascii :=
  Ascii.ascii_of_nat (Z.to_nat (if (n <? 10)%Z then 48 + n else 87 + n)).

(** [write!(token, "{byte:02x}")] for every byte of the buffer *)
Fixpoint hex_encode (bytes : list Z) : string :=
  match bytes with
  | [] => EmptyString
  | b :: bytes => String (hex_digit (b / 16)) (String (hex_digit (b mod 16)) (hex_encode bytes))
  end.

(** [generate_with_expiry]: [entropy] is the buffer that the operating system fills. *)
Definition generate_with_expiry (now : Z) (entropy : list Z) (store : QrTokenStore) :
    string * Z * QrTokenStore :=
  let token := hex_encode entropy in
  (token, (now + QR_TOKEN_TTL_MS)%Z, <[token := mkQrTokenData now false]> store).

Definition validate_and_consume (now : Z) (token : string) (store : QrTokenStore) :
    result unit AuthError * QrTokenStore :=
  match store !! token with
  | None => (Err (TokenInvalid "Invalid QR token"), store)
  | Some entry =>
      if entry.(qd_used) then (Err (TokenInvalid "QR token already used"), store)
      else if (QR_TOKEN_TTL_MS <? saturating_sub_i64 now entry.(qd_created_at_ms))%Z
      then (Err (TokenInvalid "QR token expired"), store)
      else (Ok tt, <[token := mkQrTokenData entry.(qd_created_at_ms) true]> store)
  end.

Definition cleanup_tokens (now : Z) (store : QrTokenStore) : QrTokenStore :=
  filter (λ e, (saturating_sub_i64 now e.2.(qd_created_at_ms) ≤ QR_TOKEN_TTL_MS)%Z) store.

(** ** The fixed window bounds the requests *)

(** The number of requests of [key] that are let through, at the times given. *)
Fixpoint admitted (key : string) (times : list Z) (rl : RateLimiter) : nat :=
  match times with
  | [] => 0
  | now :: times =>
      let '(r, rl) := check_and_increment now key rl in
      (if is_ok r then 1 else 0) + admitted key times rl
  end.

(** The requests an entry still admits before its window is over. *)
Definition room (rl : RateLimiter) (key : string) : Z :=
  match rl.(rl_entries) !! key with
  | Some e => Z.max 0 (rl.(rl_max_requests) - e.(en_count))
  | None => rl.(rl_max_requests)
  end.

Record limiter_wf (rl : RateLimiter) : Prop := {
  lw_max : (0 ≤ rl.(rl_max_requests) < 2 ^ 32)%Z;
  lw_window : (0 < rl.(rl_window_ms))%Z;
  lw_count k e : rl.(rl_entries) !! k = Some e → (0 ≤ e.(en_count) < 2 ^ 32)%Z;
}.

Section limiter.
Local Open Scope Z_scope.

Lemma current_entry_cases now w o :
  current_entry now w o = mkRateLimitEntry 0 (add_u64 now w) ∧
    (∀ e, o = Some e → e.(en_reset_time_ms) ≤ now) ∨
  ∃ e, o = Some e ∧ now < e.(en_reset_time_ms) ∧ current_entry now w o = e.
Proof.
  unfold current_entry. destruct o as [e|]; cbn.
  - destruct (Z.leb_spec (en_reset_time_ms e) now); [left|right; eauto].
    split; [done|]. by intros ? [= ->].
  - left. destruct (_ <=? _); done.
Qed.

Lemma check_and_increment_wf now key rl :
  limiter_wf rl → limiter_wf (check_and_increment now key rl).2.
Proof.
  intros [Hm Hw Hc]. unfold check_and_increment.
  assert (0 ≤ (current_entry now rl.(rl_window_ms) (rl.(rl_entries) !! key)).(en_count) < 2 ^ 32)
    as He.
  { destruct (current_entry_cases now rl.(rl_window_ms) (rl.(rl_entries) !! key))
      as [[-> _]|(e & He & _ & ->)]; [cbn; lia|by eapply Hc]. }
  destruct (_ <=? _) eqn:Hle; split; try done; cbn; intros k e;
    rewrite lookup_insert; case_decide; try apply Hc; intros [= <-]; cbn; [done|].
  apply Z.leb_gt in Hle. unfold add_u32. rewrite Z.mod_small; lia.
Qed.

(** A request of an open window takes one unit of its room. *)
Lemma check_and_increment_open now key rl e :
  limiter_wf rl → rl.(rl_entries) !! key = Some e → now < e.(en_reset_time_ms) →
  let '(r, rl') := check_and_increment now key rl in
  ∃ e', rl'.(rl_entries) !! key = Some e' ∧ e'.(en_reset_time_ms) = e.(en_reset_time_ms) ∧
    room rl' key = room rl key - (if is_ok r then 1 else 0).
Proof.
  intros [Hm Hw Hc] He Hnow. pose proof (Hc _ _ He) as Hcount. unfold check_and_increment.
  destruct (current_entry_cases now rl.(rl_window_ms) (rl.(rl_entries) !! key))
    as [[_ Hold]|(e' & He' & _ & ->)]; [apply Hold in He; lia|].
  rewrite He in He'. injection He' as <-.
  unfold room. rewrite He. destruct (Z.leb_spec rl.(rl_max_requests) e.(en_count)); cbn;
    rewrite lookup_insert_eq; (eexists; split; [done|]; split; [done|]); cbn; [lia|].
  unfold add_u32. rewrite Z.mod_small by lia. lia.
Qed.

(** A request after the window opens a new one. *)
Lemma check_and_increment_reset now key rl :
  limiter_wf rl → (∀ e, rl.(rl_entries) !! key = Some e → e.(en_reset_time_ms) ≤ now) →
  let '(r, rl') := check_and_increment now key rl in
  ∃ e', rl'.(rl_entries) !! key = Some e' ∧
    e'.(en_reset_time_ms) = add_u64 now rl.(rl_window_ms) ∧
    room rl' key = rl.(rl_max_requests) - (if is_ok r then 1 else 0).
Proof.
  intros [Hm Hw Hc] Hold. unfold check_and_increment.
  destruct (current_entry_cases now rl.(rl_window_ms) (rl.(rl_entries) !! key))
    as [[-> _]|(e' & He' & ? & _)]; [|apply Hold in He'; lia].
  unfold room. destruct (Z.leb_spec rl.(rl_max_requests) (en_count (mkRateLimitEntry 0
    (add_u64 now (rl_window_ms rl))))) as [Hle|Hle]; cbn in Hle |- *;
    rewrite lookup_insert_eq; (eexists; split; [done|]; split; [done|]); cbn; [lia|].
  unfold add_u32. rewrite Z.mod_small by lia. lia.
Qed.

Lemma check_and_increment_config now key rl :
  (check_and_increment now key rl).2.(rl_max_requests) = rl.(rl_max_requests) ∧
  (check_and_increment now key rl).2.(rl_window_ms) = rl.(rl_window_ms).
Proof. unfold check_and_increment. by destruct (_ <=? _). Qed.

Lemma admitted_open key times rl e :
  limiter_wf rl → rl.(rl_entries) !! key = Some e →
  (∀ t, t ∈ times → t < e.(en_reset_time_ms)) →
  Z.of_nat (admitted key times rl) ≤ room rl key.
Proof.
  revert rl e. induction times as [|t times IH]; intros rl e Hwf He Ht.
  { cbn. unfold room. rewrite He. lia. }
  cbn [admitted]. pose proof (check_and_increment_wf t key rl Hwf) as Hwf'.
  pose proof (check_and_increment_open t key rl e Hwf He (Ht t ltac:(set_solver))) as Hopen.
  destruct (check_and_increment t key rl) as [r rl']. destruct Hopen as (e' & He' & Hr & Hroom).
  specialize (IH rl' e' Hwf' He'). rewrite Nat2Z.inj_add.
  assert (∀ t0, t0 ∈ times → t0 < e'.(en_reset_time_ms)) as Ht'
    by (intros t0 ?; rewrite Hr; apply Ht; set_solver).
  specialize (IH Ht'). destruct (is_ok r); lia.
Qed.

Lemma admitted_interval key a times rl :
  limiter_wf rl → 0 ≤ a → a + 2 * rl.(rl_window_ms) < 2 ^ 64 →
  (∀ t, t ∈ times → a ≤ t < a + rl.(rl_window_ms)) →
  Z.of_nat (admitted key times rl) ≤ Z.min rl.(rl_max_requests) (room rl key) + rl.(rl_max_requests).
Proof.
  intros Hwf Ha Hbig. revert rl Hwf Hbig. induction times as [|t times IH]; intros rl Hwf Hbig Ht.
  { cbn. pose proof (lw_max _ Hwf). unfold room. destruct (_ !! _); lia. }
  pose proof Hwf as [Hm Hw Hc]. pose proof (Ht t ltac:(set_solver)) as Htt.
  cbn [admitted]. pose proof (check_and_increment_wf t key rl Hwf) as Hwf'.
  pose proof (check_and_increment_config t key rl) as [Hmax Hwin].
  destruct (rl.(rl_entries) !! key) as [e|] eqn:He.
  - destruct (Z.leb_spec e.(en_reset_time_ms) t) as [Hr|Hr].
    + pose proof (check_and_increment_reset t key rl Hwf) as Hres.
      destruct (check_and_increment t key rl) as [r rl'].
      destruct Hres as (e' & He' & Hr' & Hroom); [intros ? ?; by simplify_eq|].
      cbn [snd] in *. assert (Z.of_nat (admitted key times rl') ≤ room rl' key) as Hopen.
      { eapply admitted_open; [done|exact He'|]. intros t0 Ht0. rewrite Hr'. unfold add_u64.
        rewrite Z.mod_small by lia. specialize (Ht t0 ltac:(set_solver)). lia. }
      rewrite Nat2Z.inj_add. unfold room at 1. rewrite He. destruct (is_ok r); lia.
    + pose proof (check_and_increment_open t key rl e Hwf He Hr) as Hopen.
      destruct (check_and_increment t key rl) as [r rl'].
      destruct Hopen as (e' & He' & Hr' & Hroom). cbn [snd] in *.
      specialize (IH rl' Hwf'). rewrite Hmax, Hwin in IH.
      specialize (IH Hbig ltac:(intros; apply Ht; set_solver)).
      assert (room rl key ≤ rl.(rl_max_requests)) as Hle.
      { unfold room. rewrite He. pose proof (Hc _ _ He). lia. }
      rewrite Nat2Z.inj_add. destruct (is_ok r); lia.
  - pose proof (check_and_increment_reset t key rl Hwf) as Hres.
    destruct (check_and_increment t key rl) as [r rl'].
    destruct Hres as (e' & He' & Hr' & Hroom); [intros ? ?; by simplify_eq|].
    cbn [snd] in *. assert (Z.of_nat (admitted key times rl') ≤ room rl' key) as Hopen.
    { eapply admitted_open; [done|exact He'|]. intros t0 Ht0. rewrite Hr'. unfold add_u64.
      rewrite Z.mod_small by lia. specialize (Ht t0 ltac:(set_solver)). lia. }
    rewrite Nat2Z.inj_add. unfold room at 1. rewrite He. destruct (is_ok r); lia.
Qed.
End limiter.

Lemma current_entry_cleanup now t w (key : string) (m : gmap string RateLimitEntry) :
  (now ≤ t)%Z →
  current_entry t w (filter (λ e : string * RateLimitEntry, (now < e.2.(en_reset_time_ms))%Z) m !! key)
    = current_entry t w (m !! key).
Proof.
  intros Ht. rewrite map_lookup_filter. destruct (m !! key) as [e|]; [|done]. cbn.
  case_guard as Hg; [done|]. cbn in *. unfold current_entry. cbn.
  destruct (add_u64 t w <=? t)%Z; by rewrite (proj2 (Z.leb_le (en_reset_time_ms e) t)) by lia.
Qed.

Lemma admitted_same key times rl1 rl2 :
  rl1.(rl_entries) !! key = rl2.(rl_entries) !! key →
  rl1.(rl_window_ms) = rl2.(rl_window_ms) → rl1.(rl_max_requests) = rl2.(rl_max_requests) →
  admitted key times rl1 = admitted key times rl2.
Proof.
  revert rl1 rl2. induction times as [|t times IH]; intros rl1 rl2 He Hw Hm; [done|].
  cbn [admitted]. unfold check_and_increment. rewrite He, Hw, Hm.
  destruct (_ <=? _)%Z; cbn; [|f_equal]; apply IH; try done; cbn; by rewrite !lookup_insert_eq.
Qed.

Lemma admitted_ext key t times rl1 rl2 :
  current_entry t rl1.(rl_window_ms) (rl1.(rl_entries) !! key) =
    current_entry t rl1.(rl_window_ms) (rl2.(rl_entries) !! key) →
  rl1.(rl_window_ms) = rl2.(rl_window_ms) → rl1.(rl_max_requests) = rl2.(rl_max_requests) →
  admitted key (t :: times) rl1 = admitted key (t :: times) rl2.
Proof.
  intros Hc Hw Hm. cbn [admitted]. unfold check_and_increment. rewrite Hc, Hw, Hm.
  destruct (_ <=? _)%Z; cbn; [|f_equal]; apply admitted_same; try done; cbn;
    by rewrite !lookup_insert_eq.
Qed.

(** C40: The fixed window bounds the requests: whatever has happened before, in any
    interval as long as the window at most twice the maximum is let through, and at most
    the maximum if the key has not been seen. *)
Theorem fixed_window_bound key a times rl :
  limiter_wf rl → (0 ≤ a)%Z → (a + 2 * rl.(rl_window_ms) < 2 ^ 64)%Z →
  (∀ t, t ∈ times → (a ≤ t < a + rl.(rl_window_ms))%Z) →
  (Z.of_nat (admitted key times rl) ≤ 2 * rl.(rl_max_requests))%Z ∧
  (rl.(rl_entries) !! key = None →
     match times with
     | [] => True
     | first :: _ => (∀ t, t ∈ times → first ≤ t)%Z →
         (Z.of_nat (admitted key times rl) ≤ rl.(rl_max_requests))%Z
     end).
Proof.
  intros Hwf Ha Hbig Ht. pose proof (lw_max _ Hwf). split.
  { pose proof (admitted_interval key a times rl Hwf Ha Hbig Ht). lia. }
  intros Hnone. destruct times as [|t times]; [done|]. intros Hfirst.
  pose proof (lw_window _ Hwf). cbn [admitted].
  pose proof (check_and_increment_wf t key rl Hwf) as Hwf'.
  pose proof (check_and_increment_reset t key rl Hwf) as Hres.
  destruct (check_and_increment t key rl) as [r rl'].
  destruct Hres as (e' & He' & Hr' & Hroom); [intros ? ?; by simplify_eq|].
  cbn [snd] in *. assert (Z.of_nat (admitted key times rl') ≤ room rl' key)%Z as Hopen.
  { eapply admitted_open; [done|exact He'|]. intros t0 Ht0. rewrite Hr'. unfold add_u64.
    pose proof (Ht t ltac:(set_solver)). pose proof (Ht t0 ltac:(set_solver)).
    rewrite Z.mod_small by lia. specialize (Hfirst t0 ltac:(set_solver)). lia. }
  rewrite Nat2Z.inj_add. destruct (is_ok r); lia.
Qed.

(** Cleaning up is invisible: it only forgets windows that are over, so every later
    check, count and record of any key comes out the same. *)
Theorem cleanup_invisible now key times rl :
  (∀ t, t ∈ times → (now ≤ t)%Z) →
  admitted key times (cleanup now rl) = admitted key times rl ∧
  (∀ t, t ∈ times → check t key (cleanup now rl) = check t key rl) ∧
  (∀ t, t ∈ times → (record_attempt t key (cleanup now rl)).(rl_entries) !! key =
                    (record_attempt t key rl).(rl_entries) !! key).
Proof.
  intros Ht. split; [|split].
  - destruct times as [|t times]; [done|]. apply admitted_ext; [|done|done].
    apply current_entry_cleanup, Ht. set_solver.
  - intros t Hin. specialize (Ht t Hin). unfold check, cleanup. cbn.
    rewrite map_lookup_filter. destruct (rl_entries rl !! key) as [e|]; [|done]. cbn.
    case_guard as Hg; [done|]. cbn in *. by rewrite (proj2 (Z.ltb_ge _ _)) by lia.
  - intros t Hin. specialize (Ht t Hin). unfold record_attempt, cleanup. cbn.
    rewrite current_entry_cleanup by done. by rewrite !lookup_insert_eq.
Qed.

(** The failed logins of [key], at the times given. *)
Definition record_all (key : string) (times : list Z) (rl : RateLimiter) : RateLimiter :=
  foldl (λ rl t, record_attempt t key rl) rl times.

Lemma record_all_open key times rl n reset :
  rl.(rl_entries) !! key = Some (mkRateLimitEntry n reset) →
  (∀ t, t ∈ times → (t < reset)%Z) → (0 ≤ n)%Z → (n + Z.of_nat (length times) < 2 ^ 32)%Z →
  (record_all key times rl).(rl_entries) !! key =
    Some (mkRateLimitEntry (n + Z.of_nat (length times)) reset) ∧
  (record_all key times rl).(rl_max_requests) = rl.(rl_max_requests).
Proof.
  unfold record_all. revert rl n. induction times as [|t times IH]; intros rl n He Ht Hn Hlen.
  { cbn. by rewrite Z.add_0_r. }
  cbn [foldl length]. cbn [length] in Hlen.
  destruct (IH (record_attempt t key rl) (n + 1)%Z) as [H1 H2]; [|set_solver|lia|lia|].
  - unfold record_attempt. rewrite He. unfold current_entry. cbn.
    rewrite (proj2 (Z.leb_gt _ _)) by (apply Ht; set_solver). cbn. rewrite lookup_insert_eq.
    unfold add_u32. rewrite Z.mod_small by lia. done.
  - rewrite H1, H2. split; [do 2 f_equal; lia|done].
Qed.

(** Login attempts of a client are refused exactly when it has failed too often: after
    failures from [first] on, all within one window of the first, the check refuses if
    and only if the failures have reached the maximum and the window is not over; and a
    successful login is never counted. *)
Theorem failed_logins_lock key first times rl t :
  rl.(rl_entries) !! key = None → (0 ≤ first)%Z → (0 < rl.(rl_window_ms))%Z →
  (first + rl.(rl_window_ms) < 2 ^ 64)%Z →
  (∀ t, t ∈ times → (t < first + rl.(rl_window_ms))%Z) →
  (Z.of_nat (S (length times)) < 2 ^ 32)%Z →
  (check t key (record_all key (first :: times) rl) = Err RateLimited ↔
     (rl.(rl_max_requests) ≤ Z.of_nat (S (length times)))%Z ∧
     (t < first + rl.(rl_window_ms))%Z) ∧
  (∀ later, (auth_rate_limit_middleware id t later key true
              (record_all key (first :: times) rl)).2 = record_all key (first :: times) rl).
Proof.
  intros Hnone Hfirst Hw Hbig Ht Hlen. split.
  2: { intros later. unfold auth_rate_limit_middleware. by destruct (check _ _ _). }
  assert ((record_attempt first key rl).(rl_entries) !! key =
    Some (mkRateLimitEntry 1 (first + rl.(rl_window_ms)))) as He.
  { unfold record_attempt. rewrite Hnone. unfold current_entry, add_u64. cbn.
    rewrite Z.mod_small by lia. rewrite (proj2 (Z.leb_gt _ _)) by lia.
    by rewrite lookup_insert_eq. }
  unfold record_all. cbn [foldl]. fold (record_all key times (record_attempt first key rl)).
  destruct (record_all_open key times _ 1 _ He Ht) as [Hall Hmax]; [lia|lia|].
  unfold check. rewrite Hall, Hmax. cbn [en_count en_reset_time_ms rl_max_requests record_attempt
    set_entry]. destruct (Z.ltb_spec t (first + rl_window_ms rl)),
    (Z.leb_spec (rl_max_requests rl) (1 + Z.of_nat (length times))); cbn;
    (split; [intros Heq|intros [? ?]]); try done; lia.
Qed.

(** ** QR login tokens *)

Lemma hex_encode_length bytes : String.length (hex_encode bytes) = 2 * length bytes.
Proof. induction bytes as [|b bytes IH]; [done|]. cbn. rewrite IH. lia. Qed.

(** A QR token logs in exactly once and only in time: a token just generated is
    accepted until it expires and refused afterwards; once accepted it is refused for
    ever, also after a cleanup; and a cleanup never makes a valid token invalid. *)
Theorem qr_token_single_use created entropy store now :
  let '(token, expires_at, store1) := generate_with_expiry created entropy store in
  in_i64 (now - created) = true → (created ≤ now)%Z →
  (is_ok (validate_and_consume now token store1).1 = true ↔ (now ≤ expires_at)%Z) ∧
  (∀ store2, validate_and_consume now token store1 = (Ok tt, store2) →
     ∀ later cleaned, is_ok (validate_and_consume later token store2).1 = false ∧
       is_ok (validate_and_consume later token (cleanup_tokens cleaned store2)).1 = false) ∧
  (is_ok (validate_and_consume now token (cleanup_tokens now store1)).1 =
     is_ok (validate_and_consume now token store1).1) ∧
  String.length token = 2 * length entropy.
Proof.
  unfold generate_with_expiry. intros Hin Hle.
  assert (saturating_sub_i64 now created = now - created)%Z as Hsub.
  { unfold in_i64 in Hin. apply andb_true_iff in Hin as [?%Z.leb_le ?%Z.leb_le].
    unfold saturating_sub_i64, clamp_i64. lia. }
  set (token := hex_encode entropy). unfold QR_TOKEN_TTL_MS.
  assert (∀ s : QrTokenStore, is_ok (validate_and_consume now token
    (<[token := mkQrTokenData created false]> s)).1 = (now - created <=? 5 * 60 * 1000)%Z) as Hok.
  { intros s. unfold validate_and_consume. rewrite lookup_insert_eq. cbn. rewrite Hsub.
    unfold QR_TOKEN_TTL_MS. by destruct (Z.ltb_spec (5 * 60 * 1000) (now - created)),
      (Z.leb_spec (now - created) (5 * 60 * 1000)); try lia. }
  split; [rewrite Hok, Z.leb_le; lia|]. split; [|split; [|apply hex_encode_length]].
  - intros store2 Hval later cleaned. unfold validate_and_consume in Hval.
    rewrite lookup_insert_eq in Hval. cbn in Hval. destruct (_ <? _)%Z; [done|].
    injection Hval as <-. unfold validate_and_consume, cleanup_tokens.
    rewrite map_lookup_filter, !lookup_insert_eq. cbn. split; [done|].
    by case_guard.
  - rewrite Hok. unfold cleanup_tokens, validate_and_consume.
    rewrite map_lookup_filter, lookup_insert_eq. cbn. rewrite Hsub.
    case_guard as Hg; cbn in *; unfold QR_TOKEN_TTL_MS in *.
    + rewrite (proj2 (Z.ltb_ge _ _)), (proj2 (Z.leb_le _ _)) by lia. done.
    + symmetry. apply Z.leb_gt. lia.
Qed.

(** ** Concrete instances *)

Definition small_limiter : RateLimiter := new_limiter 2 1000.

Lemma fixed_window_bound_witness :
  (Z.of_nat (admitted "ip" [0; 10; 20; 30]%Z small_limiter) ≤ 4)%Z.
Proof.
  apply (fixed_window_bound "ip" 0 [0; 10; 20; 30]%Z small_limiter).
  - split; cbn; [lia|lia|]. intros k e He. discriminate.
  - lia.
  - cbn. lia.
  - intros t Ht. rewrite !elem_of_cons, elem_of_nil in Ht. cbn. lia.
Defined.

Lemma cleanup_invisible_witness :
  admitted "ip" [2000]%Z (cleanup 1500 small_limiter) = admitted "ip" [2000]%Z small_limiter.
Proof.
  apply (cleanup_invisible 1500 "ip" [2000]%Z small_limiter).
  intros t ->%list_elem_of_singleton. lia.
Defined.

Lemma failed_logins_lock_witness :
  check 500 "ip" (record_all "ip" [0; 100]%Z small_limiter) = Err RateLimited.
Proof.
  apply (failed_logins_lock "ip" 0 [100]%Z small_limiter 500); cbn; try lia; [done|].
  intros t ->%list_elem_of_singleton. lia.
Defined.

Lemma qr_token_single_use_witness :
  is_ok (validate_and_consume 300000 (hex_encode [171; 5]%Z)
           (generate_with_expiry 0 [171; 5]%Z ∅).2).1 = true.
Proof.
  apply (qr_token_single_use 0 [171; 5]%Z ∅ 300000); vm_compute; [done|discriminate|discriminate].
Defined.
