(* ===== verification/AuthTokens.v ===== *)
(** * Credentials, tokens in headers, cookies and CSRF

    Models [validation.rs], [extract.rs], [cookie.rs] and [csrf.rs] of [aionui-auth].
    Header values that [to_str] accepts are strings of bytes; the header map of the
    [http] crate is a function from header names to such values. *)
From Stdlib Require Import Ascii String.
From S2P Require Import Prelude Text AuthLimits.

(** ** [extract.rs] *)

Definition COOKIE_NAME : string := "aionui-session".
Definition CSRF_COOKIE_NAME : string := "aionui-csrf-token".
Definition CSRF_HEADER_NAME : string := "x-csrf-token".
Definition COOKIE_MAX_AGE_DAYS : Z := 30.

Definition Headers : Type := string → option string.

Definition extract_client_ip_from_headers (headers : Headers) : string :=
  let forwarded := f ← headers "x-forwarded-for"; ip ← head (split "," f); non_empty (trim ip) in
  match forwarded with
  | Some ip => ip
  | None => default "unknown" (ip ← headers "x-real-ip"; non_empty (trim ip))
  end.

Definition extract_bearer_token (headers : Headers) : option string :=
  auth ← headers "authorization"; token ← strip_prefix "Bearer " auth; non_empty token.

(** One turn of the loop over the parts of the [Cookie] header. *)
Definition cookie_part (name part : string) : option string :=
  '(key, value) ← split_once "=" (trim part);
  if bool_decide (trim key = name) then non_empty (trim value) else None.

Fixpoint first_cookie (name : string) (parts : list string) : option string :=
  match parts with
  | [] => None
  | part :: parts =>
      match cookie_part name part with Some v => Some v | None => first_cookie name parts end
  end.

Definition extract_cookie_value (headers : Headers) (name : string) : option string :=
  cookie_header ← headers "cookie"; first_cookie name (split ";" cookie_header).

Definition extract_token_from_headers (headers : Headers) : option string :=
  match extract_bearer_token headers with
  | Some token => Some token
  | None => extract_cookie_value headers COOKIE_NAME
  end.

Definition extract_token_from_ws_headers (headers : Headers) : option string :=
  match extract_bearer_token headers with
  | Some token => Some token
  | None =>
      match extract_cookie_value headers COOKIE_NAME with
      | Some token => Some token
      | None =>
          protocols ← headers "sec-websocket-protocol";
          first ← head (split "," protocols); non_empty (trim first)
      end
  end.

(** ** [cookie.rs] *)

(** [cc] = [CookieConfig] *)
Record CookieConfig := mkCookieConfig {
  cc_secure : bool;
  cc_same_site : string;
}.

(** [CookieConfig::from_env]: the value of [AIONUI_HTTPS]. *)
Definition cookie_config_from_env (aionui_https : option string) : CookieConfig :=
  let https := match aionui_https with
    | Some v => bool_decide (to_ascii_lowercase v = "true")
    | None => false
    end in
  mkCookieConfig https (if https then "Strict" else "Lax").

Definition secure_flag (cfg : CookieConfig) : string := if cfg.(cc_secure) then "; Secure" else "".

Definition cookie_max_age : Z := COOKIE_MAX_AGE_DAYS * 24 * 60 * 60.

Definition build_session_cookie (token : string) (cfg : CookieConfig) : string :=
  COOKIE_NAME +:+ "=" +:+ token +:+ "; Path=/; HttpOnly; SameSite=" +:+ cfg.(cc_same_site) +:+
  secure_flag cfg +:+ "; Max-Age=" +:+ pretty cookie_max_age.

Definition clear_session_cookie (cfg : CookieConfig) : string :=
  COOKIE_NAME +:+ "=; Path=/; HttpOnly; SameSite=" +:+ cfg.(cc_same_site) +:+
  secure_flag cfg +:+ "; Max-Age=0".

Definition build_csrf_cookie (token : string) (cfg : CookieConfig) : string :=
  CSRF_COOKIE_NAME +:+ "=" +:+ token +:+ "; Path=/; SameSite=" +:+ cfg.(cc_same_site) +:+
  secure_flag cfg +:+ "; Max-Age=" +:+ pretty cookie_max_age.

(** ** [csrf.rs] *)

Inductive Method := GET | HEAD | OPTIONS | POST | PUT | DELETE | PATCH | CONNECT | TRACE
  | Extension (name : string).

(** [sq] = the parts of a request that the middleware reads *)
Record CsrfRequest := mkCsrfRequest {
  sq_method : Method;
  sq_path : string;
  sq_headers : Headers;
}.

Definition csrf_needs_validation (m : Method) : bool :=
  match m with POST | PUT | DELETE | PATCH => true | _ => false end.

Definition csrf_exempt (path : string) : bool :=
  bool_decide (path = "/login") || bool_decide (path = "/api/auth/qr-login").

Definition csrf_valid (cookie header : option string) : bool :=
  match cookie, header with
  | Some c, Some h => bool_decide (c ≠ "") && bool_decide (c = h)
  | _, _ => false
  end.

(** [csrf_middleware]: the response of [next] and the cookie that is set on it, or
    [ApiError::CsrfInvalid].  [token] is what [generate_csrf_token] returns; a header value
    that [HeaderValue::from_str] refuses is not set. *)
Definition csrf_middleware {R} (valid_header : string → bool) (cfg : CookieConfig)
    (token : string) (request : CsrfRequest) (next : R) : result (R * option string) unit :=
  let csrf_cookie := extract_cookie_value request.(sq_headers) CSRF_COOKIE_NAME in
  if csrf_needs_validation request.(sq_method) && negb (csrf_exempt request.(sq_path)) &&
     negb (csrf_valid csrf_cookie (request.(sq_headers) CSRF_HEADER_NAME))
  then Err tt
  else
    let cookie_str := build_csrf_cookie token cfg in
    Ok (next, match csrf_cookie with
              | None => if valid_header cookie_str then Some cookie_str else None
              | Some _ => None
              end).

(** ** [validation.rs] *)

Definition MIN_PASSWORD_LENGTH : nat := 8.
Definition MAX_PASSWORD_LENGTH : nat := 128.
Definition MIN_USERNAME_LENGTH : nat := 3.
Definition MAX_USERNAME_LENGTH : nat := 32.

Definition WEAK_PASSWORDS : list string :=
  ["password"; "12345678"; "123456789"; "qwertyui"; "abcdefgh"]%string.

(** [str::to_lowercase] is Unicode's; on ASCII it is [to_ascii_lowercase]. *)
Definition validate_password (to_lowercase : string → string) (password : string) :
    result unit AuthError :=
  if String.length password <? MIN_PASSWORD_LENGTH
  then Err (WeakPassword ("Password must be at least " +:+ pretty MIN_PASSWORD_LENGTH +:+
                          " characters"))
  else if MAX_PASSWORD_LENGTH <? String.length password
  then Err (WeakPassword ("Password must not exceed " +:+ pretty MAX_PASSWORD_LENGTH +:+
                          " characters"))
  else if bool_decide (to_lowercase password ∈ WEAK_PASSWORDS)
  then Err (WeakPassword "Password is too common")
  else Ok tt.

(** [u8::is_ascii_alphanumeric] *)
Definition is_ascii_alphanumeric (a : ascii) : bool :=
  let n := nat_of_ascii a in
  ((48 <=? n) && (n <=? 57)) || ((65 <=? n) && (n <=? 90)) || ((97 <=? n) && (n <=? 122)).

Definition username_char (a : ascii) : bool :=
  is_ascii_alphanumeric a || bool_decide (a = "_"%char) || bool_decide (a = "-"%char).

Definition is_separator (a : ascii) : bool :=
  bool_decide (a = "-"%char) || bool_decide (a = "_"%char).

(** [None] is the panic of an index out of range. *)
Definition validate_username (username : string) : option (result unit AuthError) :=
  if String.length username <? MIN_USERNAME_LENGTH
  then Some (Err (InvalidUsername ("Username must be at least " +:+ pretty MIN_USERNAME_LENGTH +:+
                                   " characters")))
  else if MAX_USERNAME_LENGTH <? String.length username
  then Some (Err (InvalidUsername ("Username must not exceed " +:+ pretty MAX_USERNAME_LENGTH +:+
                                   " characters")))
  else if negb (forallb username_char (list_ascii_of_string username))
  then Some (Err (InvalidUsername
                    "Username may only contain letters, digits, underscores, and hyphens"))
  else
    first ← String.get 0 username;
    last ← String.get (String.length username - 1) username;
    if is_separator first || is_separator last
    then Some (Err (InvalidUsername
                      "Username must not start or end with a hyphen or underscore"))
    else Some (Ok tt).

(** ** Facts on cookies *)

Lemma split_cookies x l :
  (∀ s, s ∈ x :: l → no_char ";" s = true) →
  split ";" (String.concat "; " (x :: l)) = x :: (String " " <$> l).
Proof.
  revert x. induction l as [|y l IH]; intros x Hl; [apply split_no_char, Hl; set_solver|].
  change (String.concat "; " (x :: y :: l)) with
    (x +:+ String ";" (String " " (String.concat "; " (y :: l)))).
  rewrite split_app by (apply Hl; set_solver). f_equal.
  apply split_cons; [done|]. apply IH. set_solver.
Qed.

Lemma cookie_part_space name s : cookie_part name (String " " s) = cookie_part name s.
Proof. done. Qed.

(** A cookie pair whose value has no white space is read back. *)
Lemma cookie_part_pair name value :
  no_space name = true → no_char "=" name = true → no_space value = true →
  cookie_part name (name +:+ "=" +:+ value) = non_empty value.
Proof.
  intros Hn He Hv. unfold cookie_part. rewrite trim_no_space.
  - change (name +:+ "=" +:+ value) with (name +:+ String "=" value).
    rewrite split_once_app by done. cbn. rewrite !trim_no_space by done.
    by rewrite bool_decide_true.
  - by rewrite !no_space_app, Hn, Hv.
Qed.

Lemma first_cookie_app name l1 v part l2 :
  (∀ p, p ∈ l1 → cookie_part name p = None) → cookie_part name part = Some v →
  first_cookie name (l1 ++ part :: l2) = Some v.
Proof.
  intros Hl Hp. induction l1 as [|p l1 IH]; cbn; [by rewrite Hp|].
  rewrite Hl by set_solver. apply IH. set_solver.
Qed.

Lemma first_cookie_none name l :
  (∀ p, p ∈ l → cookie_part name p = None) → first_cookie name l = None.
Proof.
  intros Hl. induction l as [|p l IH]; [done|]. cbn. rewrite Hl by set_solver.
  apply IH. set_solver.
Qed.

(** ** What a browser does with the cookies *)

(** The pair of a [Set-Cookie] value: what comes before the first [;]. *)
Definition set_cookie_pair (set_cookie : string) : string := default "" (head (split ";" set_cookie)).

(** The headers of a request that sends the pairs, and nothing else. *)
Definition cookie_headers (pairs : list string) : Headers :=
  λ name, if bool_decide (name = "cookie"%string) then Some (String.concat "; " pairs) else None.

Lemma extract_cookie_value_headers pairs name :
  extract_cookie_value (cookie_headers pairs) name =
    first_cookie name (split ";" (String.concat "; " pairs)).
Proof. reflexivity. Qed.

Lemma extract_token_cookies pairs :
  extract_token_from_headers (cookie_headers pairs) =
    extract_cookie_value (cookie_headers pairs) COOKIE_NAME.
Proof. reflexivity. Qed.

Lemma extract_cookie_headers name before value after :
  no_space name = true → no_char "=" name = true → no_char ";" name = true →
  no_space value = true → no_char ";" value = true → value ≠ EmptyString →
  (∀ p, p ∈ before ++ after → no_char ";" p = true) →
  (∀ p, p ∈ before → cookie_part name p = None) →
  extract_cookie_value (cookie_headers (before ++ (name +:+ "=" +:+ value) :: after)) name =
    Some value.
Proof.
  intros Hn He Hs Hv Hvs Hne Hp Hb. rewrite extract_cookie_value_headers.
  assert (no_char ";" (name +:+ "=" +:+ value) = true) as Hpair
    by (rewrite !no_char_app, Hs; cbn; by rewrite Hvs).
  assert (cookie_part name (name +:+ "=" +:+ value) = Some value) as Hval
    by (rewrite cookie_part_pair by done; by destruct value).
  destruct before as [|x before]; cbn [app].
  - rewrite split_cookies by set_solver. cbn [first_cookie]. by rewrite Hval.
  - rewrite split_cookies by set_solver. rewrite fmap_app. cbn [fmap list_fmap].
    apply (first_cookie_app _ (x :: (String " " <$> before))).
    + intros p [->|Hin]%elem_of_cons; [apply Hb, list_elem_of_here|].
      apply list_elem_of_fmap in Hin as (q & -> & Hq). by apply (Hb q), list_elem_of_further.
    + apply Hval.
Qed.

(** ** Theorems *)

Lemma session_cookie_pair cfg token :
  no_char ";" token = true →
  set_cookie_pair (build_session_cookie token cfg) = COOKIE_NAME +:+ "=" +:+ token.
Proof.
  intros Hc. unfold set_cookie_pair, build_session_cookie.
  set (rest := cc_same_site cfg +:+ _).
  replace (COOKIE_NAME +:+ "=" +:+ token +:+ "; Path=/; HttpOnly; SameSite=" +:+ rest) with
    ((COOKIE_NAME +:+ "=" +:+ token) +:+ String ";" (" Path=/; HttpOnly; SameSite=" +:+ rest))
    by (by rewrite !string_app_assoc).
  rewrite split_app; [done|]. by rewrite !no_char_app, Hc.
Qed.

Lemma clear_cookie_pair cfg : set_cookie_pair (clear_session_cookie cfg) = COOKIE_NAME +:+ "=".
Proof. done. Qed.

(** The session cookie makes the round trip: what [build_session_cookie] sets is read
    back by [extract_token_from_headers] from any request that sends it among other
    cookies, and after [clear_session_cookie] no token is read. *)
Theorem session_cookie_roundtrip cfg token before after :
  no_space token = true → no_char ";" token = true → token ≠ EmptyString →
  (∀ p, p ∈ before ++ after → no_char ";" p = true ∧ cookie_part COOKIE_NAME p = None) →
  extract_token_from_headers
    (cookie_headers (before ++ set_cookie_pair (build_session_cookie token cfg) :: after)) =
    Some token ∧
  extract_token_from_headers
    (cookie_headers (before ++ set_cookie_pair (clear_session_cookie cfg) :: after)) = None.
Proof.
  intros Hs Hc Hne Hp. rewrite session_cookie_pair, clear_cookie_pair by done.
  rewrite !extract_token_cookies. split.
  - apply extract_cookie_headers; try done; intros p Hin; apply Hp; set_solver.
  - rewrite extract_cookie_value_headers.
    assert (∀ p, p ∈ before ++ (COOKIE_NAME +:+ "=") :: after →
      no_char ";" p = true ∧ cookie_part COOKIE_NAME p = None) as Hall.
    { intros p Hin. destruct (decide (p = COOKIE_NAME +:+ "=")) as [->|]; [done|].
      apply Hp. set_solver. }
    destruct (before ++ (COOKIE_NAME +:+ "=") :: after) as [|x l]; [done|].
    rewrite split_cookies by (intros; by apply Hall).
    apply first_cookie_none. intros p [->|Hin]%elem_of_cons; [apply Hall, list_elem_of_here|].
    apply list_elem_of_fmap in Hin as (q & -> & Hq). by apply (Hall q), list_elem_of_further.
Qed.

(** The double submit check lets a state-changing request through exactly when it
    carries the CSRF cookie and the same token in its header, or its path is exempt; other
    methods pass; and a client that takes the cookie it is given and repeats its token in
    the header passes the next time. *)
Theorem csrf_double_submit {R} valid_header cfg token request (next : R) :
  (is_ok (csrf_middleware valid_header cfg token request next) = true ↔
     csrf_needs_validation request.(sq_method) = false ∨
     csrf_exempt request.(sq_path) = true ∨
     ∃ t, extract_cookie_value request.(sq_headers) CSRF_COOKIE_NAME = Some t ∧
          request.(sq_headers) CSRF_HEADER_NAME = Some t ∧ t ≠ EmptyString) ∧
  (no_space token = true → no_char ";" token = true → token ≠ EmptyString →
   ∀ method path,
     is_ok (csrf_middleware valid_header cfg token (mkCsrfRequest method path (λ name,
       if bool_decide (name = CSRF_HEADER_NAME) then Some token
       else cookie_headers [CSRF_COOKIE_NAME +:+ "=" +:+ token] name)) next) = true).
Proof.
  assert (∀ request, is_ok (csrf_middleware valid_header cfg token request next) = true ↔
     csrf_needs_validation request.(sq_method) = false ∨
     csrf_exempt request.(sq_path) = true ∨
     ∃ t, extract_cookie_value request.(sq_headers) CSRF_COOKIE_NAME = Some t ∧
          request.(sq_headers) CSRF_HEADER_NAME = Some t ∧ t ≠ EmptyString) as Hiff.
  { intros rq. unfold csrf_middleware, csrf_valid.
    destruct (csrf_needs_validation _), (csrf_exempt _); cbn; try naive_solver.
    destruct (extract_cookie_value _ _) as [c|], (sq_headers rq _) as [h|]; cbn;
      repeat case_bool_decide; naive_solver. }
  split; [apply Hiff|]. intros Hs Hc Hne method path. apply Hiff. right; right. exists token.
  split; [|done]. apply (extract_cookie_headers _ [] token []); try done; set_solver.
Qed.

(** [s] starts and ends with a letter or a digit. *)
Definition proper_ends (s : string) : Prop :=
  match list_ascii_of_string s with
  | [] => False
  | a :: l => is_separator a = false ∧ is_separator (List.last l a) = false
  end.

Lemma get_last s a :
  String.get (String.length (String a s) - 1) (String a s) =
    Some (List.last (list_ascii_of_string s) a).
Proof.
  cbn [String.length]. rewrite Nat.sub_1_r. cbn [Nat.pred].
  revert a. induction s as [|b s IH]; intros a; [done|].
  change (String.get (String.length s) (String b s) =
    Some (List.last (b :: list_ascii_of_string s) a)).
  rewrite IH. f_equal. symmetry. generalize (list_ascii_of_string s). clear. intros l.
  revert a b. induction l as [|c l IH]; intros a b; [done|].
  change (List.last (c :: l) a = List.last (c :: l) b). by rewrite !IH.
Qed.

(** [validate_username] never panics, and accepts exactly the names of 3 to 32 letters,
    digits, [_] and [-] that neither start nor end with [_] or [-]. *)
Theorem validate_username_spec username :
  ∃ r, validate_username username = Some r ∧
    (is_ok r = true ↔
       3 ≤ String.length username ≤ 32 ∧
       Forall (λ a, username_char a = true) (list_ascii_of_string username) ∧
       proper_ends username).
Proof.
  unfold validate_username, MIN_USERNAME_LENGTH, MAX_USERNAME_LENGTH.
  destruct (Nat.ltb_spec (String.length username) 3).
  { eexists. split; [done|]. cbn. split; [done|lia]. }
  destruct (Nat.ltb_spec 32 (String.length username)).
  { eexists. split; [done|]. cbn. split; [done|lia]. }
  destruct (forallb _ _) eqn:Hall; cbn [negb].
  2: { eexists. split; [done|]. cbn. split; [done|]. intros (_ & Hf & _).
       rewrite Forall_forall in Hf. assert (forallb username_char
         (list_ascii_of_string username) = true); [|congruence].
       apply forallb_forall. intros a Ha. by apply Hf, list_elem_of_In. }
  destruct username as [|a s]; [cbn in *; lia|]. rewrite get_last. cbn [String.get mbind option_bind].
  assert (Forall (λ a, username_char a = true) (list_ascii_of_string (String a s))) as Hf.
  { apply Forall_forall. intros b Hb. rewrite forallb_forall in Hall.
    by apply Hall, list_elem_of_In. }
  unfold proper_ends. cbn [list_ascii_of_string].
  destruct (is_separator a) eqn:Ha, (is_separator (List.last _ _)) eqn:Hl; cbn [orb];
    eexists; (split; [done|]); cbn [is_ok]; naive_solver.
Qed.

(** The length of a password is counted in bytes: four characters of two bytes each are
    accepted. *)
Lemma password_length_in_bytes (to_lowercase : string → string) (s := String.concat "" (replicate 4
    (String (ascii_of_nat 195) (String (ascii_of_nat 169) EmptyString)))) :
  to_lowercase s = s → validate_password to_lowercase s = Ok tt.
Proof. intros Hs. unfold validate_password. rewrite Hs. vm_compute. done. Qed.

(** ** Concrete instances *)

Lemma session_cookie_roundtrip_witness :
  extract_token_from_headers
    (cookie_headers ["theme=dark"; set_cookie_pair (build_session_cookie "abc.def" (mkCookieConfig true "Strict"))]) =
    Some "abc.def"%string.
Proof.
  apply (session_cookie_roundtrip (mkCookieConfig true "Strict") "abc.def" ["theme=dark"%string] []).
  - reflexivity.
  - reflexivity.
  - discriminate.
  - intros p ->%list_elem_of_singleton. split; vm_compute; reflexivity.
Defined.

Lemma csrf_double_submit_witness :
  is_ok (csrf_middleware (λ _, true) (mkCookieConfig false "Lax") "c0ffee" (mkCsrfRequest POST
    "/api/x" (λ name, if bool_decide (name = CSRF_HEADER_NAME) then Some "c0ffee"%string
       else cookie_headers [CSRF_COOKIE_NAME +:+ "=" +:+ "c0ffee"] name)) tt) = true.
Proof.
  apply (csrf_double_submit (λ _, true) (mkCookieConfig false "Lax") "c0ffee"
    (mkCsrfRequest POST "/api/x" (λ _, None)) tt); [reflexivity|reflexivity|discriminate].
Defined.
