(* ===== verification/ExtensionDeps.v ===== *)
(** * Extension dependencies: validation, load order, cycles

    Models [aionui-extension/src/dependency.rs].  The semantic versions are those of
    the [semver] crate: parsing and matching are parameters.  A [HashMap] or [HashSet]
    iterates in the order of a [HashOrder]. *)
From S2P Require Import Prelude.

(** ** Data *)

Inductive ExtensionSource := SourceLocal | SourceAppdata | SourceEnv.

(** [xs] = [ExtensionState] *)
Record ExtensionState := mkExtensionState {
  xs_name : string;
  xs_version : string;
  xs_enabled : bool;
  xs_installed_at : option Z;
  xs_last_activated_at : option Z;
}.

(** [EngineConfig]: its field [aionui] *)
Record EngineConfig := mkEngineConfig { ec_aionui : option string }.

(** [xt] = [LoadedExtension], the read fields of its manifest among its own *)
Record LoadedExtension := mkLoadedExtension {
  xt_name : string;
  xt_version : string;
  xt_engine : option EngineConfig;
  xt_api_version : option string;
  xt_dependencies : gmap string string;
  xt_directory : string;
  xt_source : ExtensionSource;
  xt_state : ExtensionState;
}.

Inductive DependencyIssue :=
  | Missing (extension dependency required : string)
  | VersionMismatch (extension dependency required actual : string)
  | Circular (cycle : list string).

(** [dv] = [DependencyValidationResult] *)
Record DependencyValidationResult := mkDependencyValidationResult {
  dv_valid : bool;
  dv_issues : list DependencyIssue;
  dv_load_order : list string;
}.

(** [sort_unstable] on strings *)
Definition sort_strings : list string → list string := merge_sort String.le.

(** ** The load order *)

Section order.
Context `{HashOrder}.
Implicit Types exts : list LoadedExtension.

Definition known_names exts : gset string := list_to_set (xt_name <$> exts).

Definition dependency_names (ext : LoadedExtension) : list string :=
  (hash_iter ext.(xt_dependencies)).*1.

Definition Graph : Type := gmap string (list string) * gmap string nat.

(** One turn of the loop over the dependencies of [name]. *)
Definition add_dependency (known : gset string) (name : string) (g : Graph) (dep : string) :
    Graph :=
  if bool_decide (dep ∈ known)
  then (<[dep := default [] (g.1 !! dep) ++ [name]]> g.1,
        <[name := default 0 (g.2 !! name) + 1]> g.2)
  else g.

Definition add_extension (known : gset string) (g : Graph) (ext : LoadedExtension) : Graph :=
  foldl (add_dependency known ext.(xt_name))
    (g.1, <[ext.(xt_name) := default 0 (g.2 !! ext.(xt_name))]> g.2) (dependency_names ext).

Definition build_graph exts : Graph := foldl (add_extension (known_names exts)) (∅, ∅) exts.

(** One turn of the loop over the dependents of a node: [None] is the panic of the
    [expect] or of the subtraction. *)
Definition release_dependent (acc : gmap string nat * list string) (dep : string) :
    option (gmap string nat * list string) :=
  let '(in_degree, ready) := acc in
  deg ← in_degree !! dep;
  match deg with
  | O => None
  | S deg => Some (<[dep := deg]> in_degree,
                   if bool_decide (deg = 0) then ready ++ [dep] else ready)
  end.

(** [while let Some(node) = queue.pop_front()]; [None] is a panic or the end of the fuel. *)
Fixpoint kahn (fuel : nat) (adj : gmap string (list string))
    (queue : list string) (in_degree : gmap string nat) (order : list string) :
    option (list string) :=
  match queue with
  | [] => Some order
  | node :: queue =>
      match fuel with
      | O => None
      | S fuel =>
          '(in_degree, ready) ←
            for_each release_dependent (in_degree, []) (default [] (adj !! node));
          kahn fuel adj (queue ++ sort_strings ready) in_degree (order ++ [node])
      end
  end.

Definition seeds (in_degree : gmap string nat) : list string :=
  sort_strings (fst <$> filter (λ e, e.2 = 0) (hash_iter in_degree)).

(** ** Cycles *)

(** [dc] = the four accumulators of [dfs_find_cycles] *)
Record DfsState := mkDfsState {
  dc_visited : gset string;
  dc_on_stack : gset string;
  dc_path : list string;
  dc_cycles : list (list string);
}.

(** [path.iter().position(|&n| n == next)] and the slice from there *)
Fixpoint suffix_from (next : string) (path : list string) : option (list string) :=
  match path with
  | [] => None
  | n :: rest => if bool_decide (n = next) then Some path else suffix_from next rest
  end.

Definition record_cycle (next : string) (d : DfsState) : DfsState :=
  match suffix_from next d.(dc_path) with
  | Some cycle => mkDfsState d.(dc_visited) d.(dc_on_stack) d.(dc_path)
                    (d.(dc_cycles) ++ [cycle ++ [next]])
  | None => d
  end.

(** [None] is the end of the fuel. *)
Fixpoint dfs_find_cycles (fuel : nat) (adj : gmap string (list string)) (node : string)
    (d : DfsState) : option DfsState :=
  match fuel with
  | O => None
  | S fuel =>
      let d := mkDfsState ({[node]} ∪ d.(dc_visited)) ({[node]} ∪ d.(dc_on_stack))
                 (d.(dc_path) ++ [node]) d.(dc_cycles) in
      d ← for_each (λ d next,
            if bool_decide (next ∉ d.(dc_visited)) then dfs_find_cycles fuel adj next d
            else if bool_decide (next ∈ d.(dc_on_stack)) then Some (record_cycle next d)
            else Some d) d (default [] (adj !! node));
      Some (mkDfsState d.(dc_visited) (d.(dc_on_stack) ∖ {[node]}) (removelast d.(dc_path))
              d.(dc_cycles))
  end.

Definition cycle_adjacency (involved : gset string) exts : gmap string (list string) :=
  foldl (λ adj ext,
    if bool_decide (ext.(xt_name) ∈ involved)
    then <[ext.(xt_name) := sort_strings (filter (.∈ involved) (dependency_names ext))]> adj
    else adj) ∅ exts.

Definition find_cycles exts (involved : gset string) : option (list (list string)) :=
  let adj := cycle_adjacency involved exts in
  d ← for_each (λ d node,
        if bool_decide (node ∉ d.(dc_visited))
        then dfs_find_cycles (size involved) adj node d else Some d)
      (mkDfsState ∅ ∅ [] []) (sort_strings (elements involved));
  Some d.(dc_cycles).

(** ** The public functions *)

Definition compute_topological_order exts : option (list string * list (list string)) :=
  let known := known_names exts in
  let '(adj, in_degree) := build_graph exts in
  order ← kahn (S (size known)) adj (seeds in_degree) in_degree [];
  let remaining := known ∖ list_to_set order in
  cycles ← (if bool_decide (remaining = ∅) then Some [] else find_cycles exts remaining);
  Some (order ++ sort_strings (elements remaining), cycles).

Definition topological_sort exts : option (list string) := fst <$> compute_topological_order exts.

Context {V R : Type} (parse_version : string → option V) (parse_req : string → option R)
  (req_matches : R → V → bool).

Definition starts_with_digit (s : string) : bool :=
  match s with
  | String a _ => let n := Ascii.nat_of_ascii a in (48 <=? n) && (n <=? 57)
  | EmptyString => false
  end.

Definition version_matches (requirement actual : string) : bool :=
  match parse_version actual with
  | None => false
  | Some version =>
      let req_str := if starts_with_digit requirement then "=" +:+ requirement else requirement in
      match parse_req req_str with
      | None => false
      | Some req => req_matches req version
      end
  end.

Definition installed_versions exts : gmap string string :=
  foldl (λ m ext, <[ext.(xt_name) := ext.(xt_version)]> m) ∅ exts.

Definition dependency_issue (versions : gmap string string) (ext : LoadedExtension)
    (dep : string * string) : option DependencyIssue :=
  match versions !! dep.1 with
  | None => Some (Missing ext.(xt_name) dep.1 dep.2)
  | Some actual =>
      if version_matches dep.2 actual then None
      else Some (VersionMismatch ext.(xt_name) dep.1 dep.2 actual)
  end.

Definition validate_dependencies exts : option DependencyValidationResult :=
  let versions := installed_versions exts in
  let issues := exts ≫= λ ext, omap (dependency_issue versions ext) (hash_iter ext.(xt_dependencies)) in
  '(load_order, cycles) ← compute_topological_order exts;
  let issues := issues ++ (Circular <$> cycles) in
  Some (mkDependencyValidationResult (bool_decide (length issues = 0)) issues load_order).
End order.
