(* ===== verification/ExtensionOrder.v ===== *)
(** * Extension dependencies: the load order and the cycles

    The facts on the graph of [ExtensionDeps]: what [build_graph] stores, the loop
    invariant of Kahn's algorithm, the depth-first search for cycles; then the
    properties of [compute_topological_order] and [validate_dependencies]. *)
From S2P Require Import Prelude.
From S2P Require Import ExtensionDeps.

(** ** Counting *)

Definition occ (n : string) (l : list string) : nat := length (filter (.= n) l).

Lemma occ_cons n m l : occ n (m :: l) = (if decide (m = n) then 1 else 0) + occ n l.
Proof. unfold occ. rewrite filter_cons. by case_decide. Qed.

Lemma occ_zero n l : n ∉ l → occ n l = 0.
Proof. intros Hn. unfold occ. rewrite list_filter_none; [done|]. by intros x Hx ->. Qed.

Lemma occ_pos n l : n ∈ l → 0 < occ n l.
Proof.
  induction l as [|m l IH]; [by intros ?%elem_of_nil|]. rewrite occ_cons.
  intros [->|Hn]%elem_of_cons; [rewrite decide_True by done; lia|]. specialize (IH Hn). lia.
Qed.

(** ** The edges: pairs (dependency, dependent) *)

Section edges.
Context `{HashOrder}.
Implicit Types exts : list LoadedExtension.

Definition edges_of (known : gset string) (ext : LoadedExtension) : list (string * string) :=
  (λ d, (d, ext.(xt_name))) <$> filter (.∈ known) (dependency_names ext).

Definition edges exts : list (string * string) := exts ≫= edges_of (known_names exts).

(** [n] declares a dependency on the installed [d] *)
Definition depends_on exts (n d : string) : Prop :=
  d ∈ known_names exts ∧
  ∃ ext, ext ∈ exts ∧ xt_name ext = n ∧ is_Some (xt_dependencies ext !! d).

Lemma elem_of_known exts n : n ∈ known_names exts ↔ ∃ ext, ext ∈ exts ∧ xt_name ext = n.
Proof.
  unfold known_names. rewrite elem_of_list_to_set, list_elem_of_fmap. naive_solver.
Qed.

Lemma elem_of_dependency_names ext d :
  d ∈ dependency_names ext ↔ is_Some (xt_dependencies ext !! d).
Proof.
  unfold dependency_names. rewrite list_elem_of_fmap. split.
  - intros ([k v] & -> & Hin%elem_of_hash_iter). simpl. eauto.
  - intros [v Hv]. exists (d, v). by rewrite elem_of_hash_iter.
Qed.

Lemma elem_of_edges exts n d : (d, n) ∈ edges exts ↔ depends_on exts n d.
Proof.
  unfold depends_on, edges, edges_of. rewrite list_elem_of_bind.
  setoid_rewrite list_elem_of_fmap. setoid_rewrite list_elem_of_filter.
  setoid_rewrite elem_of_dependency_names. naive_solver.
Qed.

Lemma depends_on_known exts n d :
  depends_on exts n d → n ∈ known_names exts ∧ d ∈ known_names exts.
Proof. unfold depends_on. rewrite !elem_of_known. naive_solver. Qed.

(** The graph of the edges [es] on the nodes [ns] *)
Definition graph_of (es : list (string * string)) (ns : gset string) (g : Graph) : Prop :=
  (∀ d, default [] (g.1 !! d) = (filter (λ e, e.1 = d) es).*2) ∧
  (∀ n, g.2 !! n = if decide (n ∈ ns) then Some (occ n es.*2) else None).

Lemma add_dependency_graph known n es ns g d :
  graph_of es ns g → n ∈ ns →
  graph_of (es ++ ((λ d, (d, n)) <$> filter (.∈ known) [d])) ns (add_dependency known n g d).
Proof.
  intros [Hadj Hdeg] Hn. unfold add_dependency. rewrite filter_cons, filter_nil.
  destruct (decide (d ∈ known)) as [Hd|Hd].
  2: { rewrite bool_decide_false by done. simpl. by rewrite app_nil_r. }
  rewrite bool_decide_true by done. split; cbn [fst snd fmap list_fmap].
  - intros d'. rewrite filter_app, fmap_app, <- Hadj, filter_cons, filter_nil. cbn [fst].
    rewrite lookup_insert. destruct (decide (d = d')) as [->|]; [done|].
    simpl. by rewrite app_nil_r.
  - intros n'. rewrite fmap_app. unfold occ. rewrite filter_app, length_app. fold (occ n' es.*2).
    change (length (filter (λ x, x = n') [(d, n)].*2)) with (occ n' [n]). rewrite occ_cons.
    rewrite lookup_insert. destruct (decide (n = n')) as [<-|]; rewrite Hdeg.
    + rewrite !decide_True by done. done.
    + change (occ n' []) with 0. case_decide; [f_equal; lia|done].
Qed.

Lemma add_extension_graph known es ns g ext :
  graph_of es ns g → es.*2 ⊆ elements ns →
  graph_of (es ++ edges_of known ext) ({[xt_name ext]} ∪ ns) (add_extension known g ext).
Proof.
  intros [Hadj Hdeg] Hes. unfold add_extension, edges_of.
  assert (graph_of es ({[xt_name ext]} ∪ ns)
            (g.1, <[xt_name ext := default 0 (g.2 !! xt_name ext)]> g.2)) as Hg.
  { split; [done|]. cbn [fst snd]. intros n. rewrite lookup_insert.
    destruct (decide (xt_name ext = n)) as [<-|Hn].
    - rewrite (decide_True (P := _ ∈ {[_]} ∪ _)) by set_solver. rewrite Hdeg. case_decide; [done|].
      simpl. rewrite occ_zero; [done|]. intros Hin%Hes%elem_of_elements. done.
    - rewrite Hdeg. repeat case_decide; set_solver. }
  generalize dependent (g.1, <[xt_name ext := default 0 (g.2 !! xt_name ext)]> g.2).
  intros g' Hg. clear g Hadj Hdeg Hes. revert es g' Hg.
  induction (dependency_names ext) as [|d ds IH]; intros es g' Hg.
  { simpl. by rewrite app_nil_r. }
  rewrite (filter_app _ [d] ds), fmap_app, (assoc_L (++)).
  apply (IH _ (add_dependency known (xt_name ext) g' d)).
  apply add_dependency_graph; [done|set_solver].
Qed.

Lemma build_graph_spec exts : graph_of (edges exts) (known_names exts) (build_graph exts).
Proof.
  unfold edges, build_graph.
  assert (∀ known es ns g, graph_of es ns g → es.*2 ⊆ elements ns →
    graph_of (es ++ (exts ≫= edges_of known)) (known_names exts ∪ ns)
      (foldl (add_extension known) g exts)) as Hgen.
  { intros known. induction exts as [|ext exts IH]; intros es ns g Hg Hes.
    - simpl. rewrite app_nil_r. unfold known_names. simpl. by rewrite (left_id_L ∅ (∪)).
    - cbn [foldl mbind list_bind]. rewrite (assoc_L (++)).
      replace (known_names (ext :: exts) ∪ ns) with (known_names exts ∪ ({[xt_name ext]} ∪ ns))
        by (unfold known_names; cbn; set_solver).
      apply IH; [by apply add_extension_graph|].
      intros n. rewrite fmap_app, elem_of_app, elem_of_elements. intros [Hn|Hn].
      + apply Hes, elem_of_elements in Hn. set_solver.
      + unfold edges_of in Hn. rewrite <- list_fmap_compose in Hn.
        apply list_elem_of_fmap in Hn as (d & -> & _). simpl. set_solver. }
  specialize (Hgen (known_names exts) [] ∅ (∅, ∅)). rewrite (right_id_L ∅ (∪)) in Hgen. apply Hgen; [|done].
  split; intros x; cbn [fst snd]; rewrite lookup_empty; [done|]. by case_decide; [set_solver|].
Qed.
End edges.

(** ** Kahn's algorithm *)

Section kahn.
Implicit Types (m : gmap string nat) (adj : gmap string (list string)).
Implicit Types (es : list (string * string)) (order : list string).

Lemma release_all m ready ds :
  (∀ n, n ∈ ds → ∃ k, m !! n = Some k ∧ occ n ds ≤ k) →
  ∃ m' fresh,
    for_each release_dependent (m, ready) ds = Some (m', ready ++ fresh) ∧
    (∀ n, m' !! n = (λ k, k - occ n ds) <$> m !! n) ∧
    NoDup fresh ∧
    (∀ n, n ∈ fresh ↔ n ∈ ds ∧ m !! n = Some (occ n ds)).
Proof.
  revert m ready. induction ds as [|d ds IH]; intros m ready Hds.
  { exists m, []. rewrite app_nil_r. split_and!; [done| |constructor|set_solver].
    intros n. unfold occ. simpl. destruct (m !! n); simpl; [f_equal; lia|done]. }
  destruct (Hds d) as (k & Hk & Hle); [set_solver|].
  rewrite occ_cons, decide_True in Hle by done. destruct k as [|k]; [lia|].
  cbn [for_each release_dependent]. rewrite Hk. cbn [mbind option_bind].
  destruct (IH (<[d:=k]> m) (if bool_decide (k = 0) then ready ++ [d] else ready))
    as (m' & fresh & -> & Hm' & Hnd & Hfresh).
  { intros n Hn. destruct (Hds n) as (k' & Hk' & Hle'); [set_solver|].
    rewrite occ_cons in Hle'. rewrite lookup_insert. case_decide; [|naive_solver lia].
    subst. rewrite Hk in Hk'. simplify_eq. eexists. split; [done|]. lia. }
  assert (∀ n, m' !! n = (λ k, k - occ n (d :: ds)) <$> m !! n) as Hm.
  { intros n. rewrite Hm', lookup_insert, occ_cons. case_decide; [subst; rewrite Hk; simpl; f_equal; lia|done]. }
  assert (∀ n, n ∈ fresh ↔ n ∈ ds ∧ (if decide (d = n) then k else default 0 (m !! n)) = occ n ds) as Hf.
  { intros n. rewrite Hfresh. rewrite lookup_insert. case_decide; [naive_solver|].
    split; [intros [? ->]; by split|]. intros [Hn Heq]. split; [done|].
    destruct (Hds n) as (k' & Hk' & _); [set_solver|]. rewrite Hk' in *. simpl in *. by f_equal. }
  destruct (decide (k = 0)) as [->|Hk0].
  - rewrite bool_decide_true by done. assert (d ∉ ds) as Hd by (intros ?%occ_pos; lia).
    exists m', (d :: fresh). rewrite <- (assoc_L (++)). split_and!; [done|done| |].
    + constructor; [rewrite Hf; naive_solver|done].
    + intros n. rewrite !elem_of_cons, Hf, occ_cons. destruct (decide (d = n)) as [<-|Hne].
      * rewrite Hk, (occ_zero d ds) by done. split; [split; [by left|done]|by left].
      * split; [|intros [[?|Hn] Heq]; [by left|right; by rewrite Heq]].
        intros [->|[Hn Heq]]; [done|]. split; [by right|].
        destruct (Hds n) as (k' & Hk' & _); [set_solver|]. rewrite Hk' in *. simpl in *. by f_equal.
  - rewrite bool_decide_false by done. exists m', fresh. split_and!; [done..|].
    intros n. rewrite elem_of_cons, Hf, occ_cons. destruct (decide (d = n)) as [<-|Hne].
    + rewrite Hk. split; [intros [? ->]; eauto|]. intros [_ [= Heq]]. split; [|done].
      destruct (decide (d ∈ ds)) as [|Hd]; [done|]. rewrite occ_zero in Heq by done. lia.
    + split.
      * intros [Hn Heq]. split; [by right|].
        destruct (Hds n) as (k' & Hk' & _); [set_solver|]. rewrite Hk' in *. simpl in *. by f_equal.
      * intros [[?|Hn] Heq]; [done|]. rewrite Heq. done.
Qed.

(** The edges into [n] whose source is not emitted yet *)
Definition pending es order (n : string) : nat :=
  length (filter (λ e, e.2 = n ∧ e.1 ∉ order) es).

Lemma pending_nil es n : pending es [] n = occ n es.*2.
Proof.
  unfold pending. induction es as [|[d n'] es IH]; [done|].
  rewrite filter_cons, fmap_cons, occ_cons, <- IH. cbn [fst snd].
  repeat case_decide; set_solver.
Qed.

Lemma pending_snoc es order node n :
  node ∉ order →
  pending es order n = pending es (order ++ [node]) n + occ n (filter (λ e, e.1 = node) es).*2.
Proof.
  intros Hnode. unfold pending. induction es as [|[d n'] es IH]; [done|].
  rewrite !filter_cons. cbn [fst snd].
  destruct (decide (d = node)) as [->|Hd]; cbn [fmap list_fmap]; rewrite ?occ_cons.
  - rewrite (decide_False (P := _ ∧ node ∉ order ++ [node])) by set_solver.
    cbn [snd]. repeat case_decide; cbn [length]; [naive_solver lia|naive_solver|naive_solver|lia].
  - assert (d ∉ order ++ [node] ↔ d ∉ order) by set_solver.
    repeat case_decide; cbn [length]; naive_solver lia.
Qed.

Lemma pending_zero es order n : pending es order n = 0 ↔ ∀ d, (d, n) ∈ es → d ∈ order.
Proof.
  unfold pending. rewrite length_zero_iff_nil. split.
  - intros Hnil d Hd. destruct (decide (d ∈ order)) as [|Hd']; [done|].
    assert ((d, n) ∈ filter (λ e, e.2 = n ∧ e.1 ∉ order) es) as Hin
      by (apply list_elem_of_filter; done).
    rewrite Hnil in Hin. by apply elem_of_nil in Hin.
  - intros Hall. apply list_filter_none. intros [d n'] Hin [Hn Hd]. simpl in *. naive_solver.
Qed.

(** [order] lists dependencies before their dependents. *)
Definition dependencies_first es order : Prop :=
  ∀ l1 n l2 d, order = l1 ++ n :: l2 → (d, n) ∈ es → d ∈ l1.

Record kahn_inv es (known : gset string) queue m order : Prop := {
  kahn_nodup : NoDup (order ++ queue);
  kahn_degree : ∀ n, m !! n = if decide (n ∈ known) then Some (pending es order n) else None;
  kahn_ready : ∀ n, n ∈ order ++ queue ↔ n ∈ known ∧ pending es order n = 0;
  kahn_sorted : dependencies_first es order;
}.

Lemma dependencies_first_snoc es order node :
  dependencies_first es order → pending es order node = 0 →
  dependencies_first es (order ++ [node]).
Proof.
  intros Hord Hz l1 n l2 d Heq Hd. destruct l2 as [|x l2 _] using rev_ind.
  - apply app_inj_tail in Heq as [-> ->]. by apply (pending_zero es l1 n).
  - rewrite app_comm_cons, (assoc_L (++)) in Heq. apply app_inj_tail in Heq as [-> _]. eauto.
Qed.

Lemma kahn_step es known adj node queue m order :
  (∀ d, default [] (adj !! d) = (filter (λ e, e.1 = d) es).*2) →
  (∀ d n, (d, n) ∈ es → n ∈ known) →
  kahn_inv es known (node :: queue) m order →
  ∃ m' ready,
    for_each release_dependent (m, []) (default [] (adj !! node)) = Some (m', ready) ∧
    kahn_inv es known (queue ++ sort_strings ready) m' (order ++ [node]).
Proof.
  intros Hadj Hes [Hnd Hdeg Hready Hsort].
  assert (node ∉ order) as Hnode.
  { intros Hin. apply NoDup_app in Hnd as (_ & Hdis & _). apply (Hdis _ Hin). by left. }
  assert (node ∈ known ∧ pending es order node = 0) as [Hk Hz].
  { apply Hready, elem_of_app. right. by left. }
  pose proof (pending_snoc es order node) as Hsnoc. rewrite Hadj.
  assert (∀ n, n ∈ (filter (λ e, e.1 = node) es).*2 → n ∈ known) as Hdep.
  { intros n ([d n'] & -> & [_ Hin]%list_elem_of_filter)%list_elem_of_fmap. eauto. }
  destruct (release_all m [] (filter (λ e, e.1 = node) es).*2) as (m' & ready & -> & Hm' & Hnd' & Hr).
  { intros n Hn. rewrite Hdeg, decide_True by auto. eexists. split; [done|].
    rewrite Hsnoc by done. lia. }
  exists m', ready. split; [done|].
  assert (∀ n, n ∈ sort_strings ready ↔ n ∈ known ∧ n ∈ (filter (λ e, e.1 = node) es).*2 ∧
            pending es (order ++ [node]) n = 0) as Hready'.
  { intros n. unfold sort_strings. rewrite merge_sort_Permutation, Hr, Hdeg. split.
    - intros [Hin Heq]. rewrite decide_True in Heq by auto. rewrite Hsnoc in Heq by done.
      split_and!; [auto|done|]. injection Heq. lia.
    - intros (Hn & Hin & Hz'). split; [done|]. rewrite decide_True by done.
      rewrite Hsnoc, Hz' by done. done. }
  assert (∀ n, n ∈ (filter (λ e, e.1 = node) es).*2 → n ∉ order ++ node :: queue) as Hfresh.
  { intros n Hin [_ Hz']%Hready. rewrite Hsnoc in Hz' by done. apply occ_pos in Hin. lia. }
  assert (order ++ [node] ++ queue ++ sort_strings ready
          = (order ++ node :: queue) ++ sort_strings ready) as Hshape
    by (rewrite <- (assoc_L (++)); done).
  split.
  - rewrite <- (assoc_L (++)), Hshape. apply NoDup_app. split_and!; [done| |].
    + intros n Hn (_ & Hin & _)%Hready'. by apply (Hfresh n).
    + unfold sort_strings. by rewrite merge_sort_Permutation.
  - intros n. rewrite Hm', Hdeg. case_decide; [|done]. simpl. f_equal. rewrite Hsnoc by done. lia.
  - intros n. rewrite <- (assoc_L (++)), Hshape, elem_of_app, Hready, Hready', Hsnoc by done.
    destruct (decide (n ∈ (filter (λ e, e.1 = node) es).*2)) as [Hin|Hin].
    + pose proof (occ_pos _ _ Hin). naive_solver lia.
    + rewrite (occ_zero _ _ Hin). naive_solver lia.
  - by apply dependencies_first_snoc.
Qed.

Lemma kahn_total es known adj fuel queue m order :
  (∀ d, default [] (adj !! d) = (filter (λ e, e.1 = d) es).*2) →
  (∀ d n, (d, n) ∈ es → n ∈ known) →
  kahn_inv es known queue m order →
  size known ≤ fuel + length order →
  ∃ m' order', kahn fuel adj queue m order = Some order' ∧ kahn_inv es known [] m' order'.
Proof.
  intros Hadj Hes. revert queue m order.
  induction fuel as [|fuel IH]; intros [|node queue] m order Hinv Hfuel; simpl; eauto.
  - exfalso. destruct Hinv as [Hnd _ Hready _].
    assert (length (order ++ node :: queue) ≤ size known) as Hlen.
    { rewrite <- (size_list_to_set (C := gset string) _ Hnd). apply subseteq_size.
      intros n Hn%elem_of_list_to_set. by apply Hready. }
    rewrite length_app in Hlen. simpl in Hlen. lia.
  - destruct (kahn_step _ _ _ _ _ _ _ Hadj Hes Hinv) as (m' & ready & -> & Hinv'). simpl.
    apply (IH _ _ _ Hinv'). rewrite length_app. simpl. lia.
Qed.
End kahn.

(** ** The search for cycles *)

Section walks.
Context {A : Type} (R : A → A → Prop).

Definition walk (l : list A) : Prop := ∀ l1 a b l2, l = l1 ++ a :: b :: l2 → R a b.

(** first node repeated at the end *)
Definition closed_walk (c : list A) : Prop := walk c ∧ ∃ n rest, c = n :: rest ++ [n].

Lemma walk_app_r l1 l2 : walk (l1 ++ l2) → walk l2.
Proof. intros Hw k1 a b k2 ->. apply (Hw (l1 ++ k1) a b k2). by rewrite (assoc_L (++)). Qed.

Lemma walk_app_l l1 l2 : walk (l1 ++ l2) → walk l1.
Proof.
  intros Hw k1 a b k2 ->. apply (Hw k1 a b (k2 ++ l2)). by rewrite <- (assoc_L (++)).
Qed.

Lemma walk_snoc l a b : walk (l ++ [a]) → R a b → walk (l ++ [a] ++ [b]).
Proof.
  intros Hw Hab k1 x y k2 Heq. destruct k2 as [|z k2 _] using rev_ind.
  - replace (l ++ [a] ++ [b]) with ((l ++ [a]) ++ [b]) in Heq by by rewrite (assoc_L (++)).
    replace (k1 ++ [x; y]) with ((k1 ++ [x]) ++ [y]) in Heq by by rewrite <- (assoc_L (++)).
    apply app_inj_tail in Heq as [Heq ->]. by apply app_inj_tail in Heq as [_ ->].
  - apply (Hw k1 x y k2). rewrite (assoc_L (++)), !app_comm_cons, (assoc_L (++)) in Heq.
    by apply app_inj_tail in Heq as [-> _].
Qed.

Lemma walk_tc a l b : walk (a :: l ++ [b]) → tc R a b.
Proof.
  revert a. induction l as [|x l IH]; intros a Hw.
  - apply tc_once. by apply (Hw [] a b []).
  - eapply tc_l; [by apply (Hw [] a x (l ++ [b]))|]. apply IH. by apply (walk_app_r [a]).
Qed.

Lemma closed_walk_tc c : closed_walk c → ∃ n, tc R n n.
Proof. intros (Hw & n & rest & ->). exists n. by apply (walk_tc n rest). Qed.
End walks.

Lemma walk_mono {A} (R1 R2 : A → A → Prop) l :
  (∀ a b, R1 a b → R2 a b) → walk R1 l → walk R2 l.
Proof. intros HR Hw l1 a b l2 Heq. eapply HR, Hw, Heq. Qed.

Lemma suffix_from_spec n path :
  match suffix_from n path with
  | Some c => ∃ l1 l2, path = l1 ++ n :: l2 ∧ c = n :: l2
  | None => n ∉ path
  end.
Proof.
  induction path as [|x path IH]; simpl; [apply not_elem_of_nil|].
  case_bool_decide as Hx; [subst; by exists [], path|].
  destruct (suffix_from n path) as [c|]; [|set_solver].
  destruct IH as (l1 & l2 & -> & ->). by exists (x :: l1), l2.
Qed.

Section dfs.
Context (adj : gmap string (list string)) (involved : gset string).
Implicit Types d : DfsState.

Definition adj_edge (a b : string) : Prop := b ∈ default [] (adj !! a).

Context (Hadj : ∀ a b, adj_edge a b → b ∈ involved).

Record dfs_inv d : Prop := {
  dfs_visited : d.(dc_visited) ⊆ involved;
  dfs_nodup : NoDup d.(dc_path);
  dfs_stack : d.(dc_on_stack) = list_to_set d.(dc_path);
  dfs_on_path : d.(dc_on_stack) ⊆ d.(dc_visited);
  dfs_walk : walk adj_edge d.(dc_path);
  dfs_closed : Forall (closed_walk adj_edge) d.(dc_cycles);
}.

(** Before the first cycle is found, no visited node is finished. *)
Definition none_finished d : Prop := d.(dc_cycles) ≠ [] ∨ d.(dc_visited) ⊆ d.(dc_on_stack).

Definition dfs_post d d' (node : string) : Prop :=
  dfs_inv d' ∧ d'.(dc_path) = d.(dc_path) ∧ {[node]} ∪ d.(dc_visited) ⊆ d'.(dc_visited) ∧
  ((∀ a, a ∈ involved → default [] (adj !! a) ≠ []) → none_finished d → d'.(dc_cycles) ≠ []).

(** The state of the loop over the neighbours of [node], with [todo] left *)
Definition loop_inv d0 (node : string) (todo : list string) d : Prop :=
  dfs_inv d ∧ d.(dc_path) = d0.(dc_path) ++ [node] ∧
  {[node]} ∪ d0.(dc_visited) ⊆ d.(dc_visited) ∧
  Forall (adj_edge node) todo ∧
  ((∀ a, a ∈ involved → default [] (adj !! a) ≠ []) → none_finished d0 →
   d.(dc_cycles) ≠ [] ∨
   todo = default [] (adj !! node) ∧ d.(dc_visited) ⊆ d.(dc_on_stack)).

Definition enter (node : string) d : DfsState :=
  mkDfsState ({[node]} ∪ d.(dc_visited)) ({[node]} ∪ d.(dc_on_stack))
    (d.(dc_path) ++ [node]) d.(dc_cycles).

Lemma enter_inv d node :
  dfs_inv d → node ∈ involved → node ∉ d.(dc_visited) → walk adj_edge (d.(dc_path) ++ [node]) →
  loop_inv d node (default [] (adj !! node)) (enter node d).
Proof.
  intros [Hv Hnd Hs Hp Hw Hc] Hin Hnew Hwalk. split_and!; simpl; [|done|set_solver| |].
  - split; simpl; [set_solver| | |set_solver|done|done].
    + apply NoDup_app. split_and!; [done| |apply NoDup_singleton]. set_solver.
    + rewrite list_to_set_app_L, Hs. set_solver.
  - apply Forall_forall. auto.
  - intros _ [Hcyc|Hsub]; [by left|]. right. split; [done|set_solver].
Qed.

Lemma record_cycle_inv d0 node next todo d :
  loop_inv d0 node (next :: todo) d → next ∈ d.(dc_on_stack) →
  loop_inv d0 node todo (record_cycle next d) .
Proof.
  intros ([Hv Hnd Hs Hp Hw Hc] & Hpath & Hvis & [Hedge Htodo]%Forall_cons & _) Hin.
  unfold record_cycle. pose proof (suffix_from_spec next (dc_path d)) as Hsuf.
  destruct (suffix_from next (dc_path d)) as [c|].
  2: { exfalso. apply Hsuf. rewrite Hs in Hin. by apply elem_of_list_to_set in Hin. }
  destruct Hsuf as (l1 & l2 & Heq & ->).
  split_and!; [split; simpl; try done|done|done|done|intros _ _; left; simpl; by destruct (dc_cycles d)].
  apply Forall_app. split; [done|]. constructor; [|constructor]. split.
  - apply (walk_app_r _ l1). change (next :: l2 ++ [next]) with ((next :: l2) ++ [next]).
    rewrite (assoc_L (++)), <- Heq, Hpath, <- (assoc_L (++)).
    apply walk_snoc; [by rewrite <- Hpath|done].
  - by exists next, l2.
Qed.

Lemma leave_post d0 d node :
  dfs_inv d0 → node ∉ d0.(dc_visited) → node ∈ involved → loop_inv d0 node [] d →
  dfs_post d0 (mkDfsState d.(dc_visited) (d.(dc_on_stack) ∖ {[node]}) (removelast d.(dc_path))
                 d.(dc_cycles)) node.
Proof.
  intros Hinv0 Hnew Hin ([Hv Hnd Hs Hp Hw Hc] & Hpath & Hvis & _ & Hprog).
  assert (removelast (dc_path d) = dc_path d0) as Hrem by (rewrite Hpath; apply removelast_last).
  split_and!; simpl; [|done|done|].
  - destruct Hinv0 as [Hv0 Hnd0 Hs0 Hp0 Hw0 Hc0].
    split; simpl; rewrite ?Hrem; [done|done| |set_solver|done|done].
    rewrite Hs, Hpath, list_to_set_app_L. set_solver.
  - intros Hne Hnf. destruct (Hprog Hne Hnf) as [|[Hnil _]]; [done|]. by destruct (Hne node Hin).
Qed.

Lemma dfs_find_cycles_post fuel node d :
  dfs_inv d → node ∈ involved → node ∉ d.(dc_visited) → walk adj_edge (d.(dc_path) ++ [node]) →
  size (involved ∖ d.(dc_visited)) ≤ fuel →
  ∃ d', dfs_find_cycles fuel adj node d = Some d' ∧ dfs_post d d' node.
Proof.
  revert node d. induction fuel as [|fuel IH]; intros node d Hinv Hin Hnew Hwalk Hfuel.
  { assert (involved ∖ dc_visited d ≡ ∅) as Hemp by (apply size_empty_inv; lia). set_solver. }
  simpl. fold (enter node d).
  pose proof (enter_inv d node Hinv Hin Hnew Hwalk) as Hloop.
  match goal with |- context [for_each ?f ?s ?l] =>
    destruct (for_each_inv f (loop_inv d node) l s) as (d' & -> & Hd'); [|done|] end.
  - intros next todo d1 Hl. pose proof Hl as (Hinv1 & Hpath1 & Hvis1 & [Hedge Htodo]%Forall_cons & Hprog1).
    case_bool_decide as Hnv; [|case_bool_decide as Hstk].
    + assert (size (involved ∖ dc_visited d1) < size (involved ∖ dc_visited d)).
      { apply subset_size. split; [set_solver|]. intros Hsub.
        specialize (Hsub node). rewrite !elem_of_difference in Hsub. set_solver. }
      destruct (IH next d1) as (d2 & Heq & Hinv2 & Hpath2 & Hvis2 & Hprog2); [done|eauto|done| |lia|].
      { rewrite Hpath1, <- (assoc_L (++)). apply walk_snoc; [done|done]. }
      exists d2. split; [done|]. split_and!; [done|congruence|set_solver|done|].
      intros Hne Hnf. left. apply Hprog2; [done|]. destruct (Hprog1 Hne Hnf) as [|[_ ?]]; [by left|by right].
    + eexists. split; [done|]. by apply (record_cycle_inv d node next).
    + eexists. split; [done|]. split_and!; [done..|]. intros Hne Hnf. left.
      destruct (Hprog1 Hne Hnf) as [|[_ Hsub]]; [done|]. set_solver.
  - eexists. split; [done|]. by apply leave_post.
Qed.
End dfs.

(** ** The two passes together *)

Section topological.
Context `{HashOrder}.
Implicit Types exts : list LoadedExtension.

Lemma seeds_inv exts :
  let '(_, in_degree) := build_graph exts in
  kahn_inv (edges exts) (known_names exts) (seeds in_degree) in_degree [].
Proof.
  destruct (build_graph exts) as [adj m] eqn:Hg.
  destruct (build_graph_spec exts) as [_ Hdeg]. rewrite Hg in Hdeg. cbn [snd] in Hdeg.
  unfold seeds, sort_strings. split; cbn [app].
  - rewrite merge_sort_Permutation. eapply sublist_NoDup; [apply (NoDup_hash_keys m)|].
    apply fmap_sublist, sublist_filter.
  - intros n. by rewrite Hdeg, pending_nil.
  - intros n. rewrite merge_sort_Permutation, list_elem_of_fmap, pending_nil. split.
    + intros ([n' k] & -> & [Hz Hin]%list_elem_of_filter). simpl in *. subst.
      apply elem_of_hash_iter in Hin. rewrite Hdeg in Hin. case_decide; naive_solver.
    + intros [Hn Hz]. exists (n, 0). split; [done|]. apply list_elem_of_filter. split; [done|].
      apply elem_of_hash_iter. rewrite Hdeg, decide_True, Hz by done. done.
  - intros l1 n l2 d Heq. by destruct l1.
Qed.

Lemma kahn_emits exts :
  let '(adj, in_degree) := build_graph exts in
  ∃ m emitted,
    kahn (S (size (known_names exts))) adj (seeds in_degree) in_degree [] = Some emitted ∧
    kahn_inv (edges exts) (known_names exts) [] m emitted.
Proof.
  pose proof (seeds_inv exts) as Hinv. pose proof (build_graph_spec exts) as [Hadj _].
  destruct (build_graph exts) as [adj in_degree]. cbn [fst] in Hadj.
  destruct (kahn_total (edges exts) (known_names exts) adj (S (size (known_names exts)))
              (seeds in_degree) in_degree [])
    as (m & emitted & Heq & Hfin); [done| |done|simpl; lia|by exists m, emitted].
  intros d n Hdn%elem_of_edges. by apply (depends_on_known exts n d).
Qed.

Lemma elem_of_cycle_adjacency involved exts a b :
  adj_edge (cycle_adjacency involved exts) a b →
  a ∈ involved ∧ b ∈ involved ∧
  ∃ ext, ext ∈ exts ∧ xt_name ext = a ∧ is_Some (xt_dependencies ext !! b).
Proof.
  unfold adj_edge, cycle_adjacency.
  apply (foldl_inv _ (λ todo adj, (∀ x, x ∈ todo → x ∈ exts) ∧ (b ∈ default [] (adj !! a) →
    a ∈ involved ∧ b ∈ involved ∧
    ∃ ext, ext ∈ exts ∧ xt_name ext = a ∧ is_Some (xt_dependencies ext !! b)))).
  2: { split; [done|]. rewrite lookup_empty. by intros ?%elem_of_nil. }
  intros ext todo adj [Htodo Hadj]. split; [set_solver|].
  case_bool_decide as Hin; [|done]. rewrite lookup_insert. case_decide as Ha; [|done].
  simpl. unfold sort_strings.
  rewrite merge_sort_Permutation, list_elem_of_filter, elem_of_dependency_names.
  intros [Hb Hdep]. split_and!; [by subst|done|]. exists ext. split_and!; [set_solver|done|done].
Qed.

Lemma lookup_cycle_adjacency involved exts ext :
  NoDup (xt_name <$> exts) → ext ∈ exts → xt_name ext ∈ involved →
  cycle_adjacency involved exts !! xt_name ext =
    Some (sort_strings (filter (.∈ involved) (dependency_names ext))).
Proof.
  intros Hnd Hext Hin. unfold cycle_adjacency. generalize (∅ : gmap string (list string)).
  induction exts as [|e exts IH]; [by apply elem_of_nil in Hext|]. intros adj.
  cbn [foldl fmap list_fmap] in *. apply NoDup_cons in Hnd as [Hfresh Hnd].
  apply elem_of_cons in Hext as [->|Hext]; [|by apply IH].
  rewrite bool_decide_true by done.
  apply (foldl_inv _ (λ todo adj, (∀ x, x ∈ todo → x ∈ exts) ∧
    adj !! xt_name e = Some (sort_strings (filter (.∈ involved) (dependency_names e))))).
  2: { split; [done|]. by rewrite lookup_insert_eq. }
  intros x todo adj' [Htodo Hadj]. split; [set_solver|]. case_bool_decide; [|done].
  rewrite lookup_insert_ne; [done|]. intros Heq. apply Hfresh. rewrite <- Heq.
  apply list_elem_of_fmap_2. apply Htodo. by left.
Qed.

Lemma find_cycles_spec exts involved :
  let R := adj_edge (cycle_adjacency involved exts) in
  ∃ cycles, find_cycles exts involved = Some cycles ∧
    Forall (closed_walk R) cycles ∧
    ((∀ a, a ∈ involved → ∃ b, R a b) → involved ≠ ∅ → cycles ≠ []).
Proof.
  intros R. unfold find_cycles. set (adj := cycle_adjacency involved exts).
  set (todo0 := sort_strings (elements involved)).
  assert (∀ a, a ∈ todo0 ↔ a ∈ involved) as Htodo0.
  { intros a. unfold todo0, sort_strings. by rewrite merge_sort_Permutation, elem_of_elements. }
  assert (∀ a b, adj_edge adj a b → b ∈ involved) as Hadj
    by (intros a b (_ & Hb & _)%elem_of_cycle_adjacency; done).
  match goal with |- context [for_each ?f ?s ?l] =>
    destruct (for_each_inv f (λ todo d, dfs_inv adj involved d ∧ d.(dc_path) = [] ∧
      Forall (.∈ involved) todo ∧
      ((∀ a, a ∈ involved → default [] (adj !! a) ≠ []) →
       d.(dc_cycles) ≠ [] ∨ todo = todo0 ∧ d.(dc_visited) = ∅)) l s)
      as (d & -> & Hinv & _ & _ & Hprog) end.
  - intros node todo d (Hinv & Hpath & [Hnode Htodo]%Forall_cons & Hprog).
    case_bool_decide as Hnew.
    + destruct (dfs_find_cycles_post adj involved Hadj (size involved) node d)
        as (d' & -> & Hinv' & Hpath' & _ & Hprog'); [done..| |by apply subseteq_size; set_solver|].
      { rewrite Hpath. intros l1 a b l2 Heq. by destruct l1 as [|? [|]]. }
      exists d'. split_and!; [done|done|congruence|done|]. intros Hne. left. apply Hprog'; [done|].
      destruct (Hprog Hne) as [|[_ Hv]]; [by left|right; set_solver].
    + exists d. split_and!; [done..|]. intros Hne. left. destruct (Hprog Hne) as [|[_ Hv]]; [done|].
      set_solver.
  - split_and!; [|done| |by right].
    + split; simpl; [set_solver|constructor|done|done| |constructor].
      intros l1 a b l2 Heq. by destruct l1.
    + apply Forall_forall. intros a. by rewrite Htodo0.
  - exists (dc_cycles d). split_and!; [done|apply Hinv|]. intros Hne Hnonempty.
    destruct Hprog as [|[Htodo _]]; [|done|].
    + intros a Ha Hnil. destruct (Hne a Ha) as [b Hb]. unfold R, adj_edge in Hb. fold adj in Hb.
      rewrite Hnil in Hb. by apply elem_of_nil in Hb.
    + exfalso. apply Hnonempty. apply set_eq. intros a. rewrite <- Htodo0, <- Htodo. set_solver.
Qed.

Record order_facts exts (emitted rest : list string) (cycles : list (list string)) : Prop := {
  of_all : emitted ++ rest ≡ₚ elements (known_names exts);
  of_first : ∀ l1 n l2 d, emitted = l1 ++ n :: l2 → depends_on exts n d → d ∈ l1;
  of_rest : ∀ n, n ∈ rest → ∃ d, d ∈ rest ∧ depends_on exts n d;
  of_sorted : Sorted String.le rest;
  of_none : rest = [] → cycles = [];
  of_closed : Forall (closed_walk (depends_on exts)) cycles;
  of_some : NoDup (xt_name <$> exts) → rest ≠ [] → cycles ≠ [];
}.

Lemma topological_order_facts exts :
  ∃ emitted rest cycles,
    compute_topological_order exts = Some (emitted ++ rest, cycles) ∧
    order_facts exts emitted rest cycles.
Proof.
  unfold compute_topological_order. pose proof (kahn_emits exts) as Hk.
  destruct (build_graph exts) as [adj in_degree]. destruct Hk as (m & emitted & -> & [Hnd _ Hready Hsort]).
  rewrite app_nil_r in Hnd. simpl. set (remaining := known_names exts ∖ list_to_set emitted).
  assert (∀ n, n ∈ remaining ↔ n ∈ known_names exts ∧ n ∉ emitted) as Hrem by set_solver.
  assert (∀ n, n ∈ sort_strings (elements remaining) ↔ n ∈ remaining) as Hsorted.
  { intros n. unfold sort_strings. by rewrite merge_sort_Permutation, elem_of_elements. }
  assert (∀ n, n ∈ remaining → ∃ d, d ∈ remaining ∧ depends_on exts n d) as Hblocked.
  { intros n [Hn Hout]%Hrem. specialize (Hready n). rewrite app_nil_r in Hready.
    destruct (decide (Exists (λ e, e.2 = n ∧ e.1 ∉ emitted) (edges exts))) as [Hex|Hno].
    - apply Exists_exists in Hex as ([d n'] & Hin & <- & Hd). exists d.
      apply elem_of_edges in Hin. split; [|done]. apply Hrem. split; [|done].
      by apply (depends_on_known exts n').
    - exfalso. apply Hout, Hready. split; [done|]. apply pending_zero. intros d Hd.
      apply dec_stable. intros Hd'. apply Hno, Exists_exists. by exists (d, n). }
  assert (∃ cycles, (if bool_decide (remaining = ∅) then Some [] else find_cycles exts remaining)
    = Some cycles ∧ (remaining = ∅ → cycles = []) ∧ Forall (closed_walk (depends_on exts)) cycles ∧
    (NoDup (xt_name <$> exts) → remaining ≠ ∅ → cycles ≠ [])) as (cycles & -> & Hnone & Hclosed & Hsome).
  { case_bool_decide as Hempty; [by exists []|].
    destruct (find_cycles_spec exts remaining) as (cycles & -> & Hclosed & Hsome).
    exists cycles. split_and!; [done|done| |].
    - eapply Forall_impl; [exact Hclosed|]. intros c [Hw Hc]. split; [|done].
      eapply walk_mono; [|exact Hw]. intros a b (_ & [Hb _]%Hrem & Hext)%elem_of_cycle_adjacency.
      by split.
    - intros Hnames _. apply Hsome; [|done]. intros n Hn.
      destruct (Hblocked n Hn) as (d & Hd & _ & ext & Hext & <- & Hdep).
      exists d. unfold adj_edge. rewrite lookup_cycle_adjacency by done. simpl. unfold sort_strings.
      by rewrite merge_sort_Permutation, list_elem_of_filter, elem_of_dependency_names. }
  simpl. exists emitted, (sort_strings (elements remaining)), cycles. split; [done|].
  assert (sort_strings (elements remaining) = [] ↔ remaining = ∅) as Hnil.
  { split; intros Heq; [apply set_eq; intros n; rewrite <- Hsorted, Heq; set_solver|].
    by rewrite Heq. }
  split.
  - unfold sort_strings. rewrite merge_sort_Permutation. symmetry.
    assert (known_names exts = list_to_set emitted ∪ remaining) as ->.
    { apply set_eq. intros n. rewrite elem_of_union, elem_of_list_to_set, Hrem.
      specialize (Hready n). rewrite app_nil_r in Hready.
      destruct (decide (n ∈ emitted)); naive_solver. }
    rewrite elements_disj_union by set_solver. by rewrite elements_list_to_set.
  - intros l1 n l2 d Heq Hd%elem_of_edges. eauto.
  - intros n [d Hd]%Hsorted%Hblocked. exists d. by rewrite Hsorted.
  - apply Sorted_merge_sort. apply _.
  - intros ?%Hnil. auto.
  - done.
  - rewrite Hnil. auto.
Qed.
End topological.
