(* ===== verification/ExtensionProps.v ===== *)
(** * Extension dependencies: properties

    What [topological_sort] and [validate_dependencies] promise to the loader, and
    concrete instances: a chain, a two-element cycle with two dependents. *)
From S2P Require Import Prelude.
From S2P Require Import ExtensionDeps ExtensionOrder.

Section properties.
Context `{HashOrder}.
Implicit Types exts : list LoadedExtension.

Definition acyclic exts : Prop := ∀ n, ¬ tc (depends_on exts) n n.

(** [topological_sort] returns (neither the [expect] nor the subtraction of the
    loop panics, and the loop ends) and its result lists every installed extension
    exactly once: first extensions in an order where each one comes after all of its
    installed dependencies, then, in alphabetical order, those that cannot be ordered,
    each of which still depends on another of them.  With distinct names and no
    cyclic dependency, nothing is left for the second part. *)
Theorem load_order_spec exts :
  ∃ ordered rest,
    topological_sort exts = Some (ordered ++ rest) ∧
    ordered ++ rest ≡ₚ elements (known_names exts) ∧
    (∀ l1 n l2 d, ordered = l1 ++ n :: l2 → depends_on exts n d → d ∈ l1) ∧
    (∀ n, n ∈ rest → ∃ d, d ∈ rest ∧ depends_on exts n d) ∧
    Sorted String.le rest ∧
    (NoDup (xt_name <$> exts) → acyclic exts → rest = []).
Proof.
  destruct (topological_order_facts exts) as (ordered & rest & cycles & Heq & Hf).
  exists ordered, rest. unfold topological_sort. rewrite Heq. destruct Hf.
  split_and!; [done..|]. intros Hnames Hacyc. destruct rest as [|n rest]; [done|].
  destruct cycles as [|c cycles]; [by destruct of_some|].
  apply Forall_cons in of_closed as [(m & Hm)%closed_walk_tc _]. by destruct (Hacyc m).
Qed.

(** Everything before a node in the order can be reached from nowhere behind it. *)
Lemma ordered_acyclic exts ordered :
  ordered ≡ₚ elements (known_names exts) →
  (∀ l1 n l2 d, ordered = l1 ++ n :: l2 → depends_on exts n d → d ∈ l1) →
  acyclic exts.
Proof.
  intros Hall Hfirst n Hn.
  assert (NoDup ordered) as Hnd by (rewrite Hall; apply NoDup_elements).
  assert (∀ a b, tc (depends_on exts) a b → ∀ l1 l2, ordered = l1 ++ a :: l2 → b ∈ l1) as Hbefore.
  { induction 1 as [a b Hab|a m b Ham Hmb IH]; intros l1 l2 Heq; [eauto|].
    apply (Hfirst _ _ _ _ Heq) in Ham as (k1 & k2 & ->)%list_elem_of_split.
    rewrite <- (assoc_L (++)) in Heq. apply IH in Heq. set_solver. }
  assert (n ∈ ordered) as Hin.
  { rewrite Hall, elem_of_elements.
    inversion Hn as [? ? Hd|? m ? Hd]; by apply depends_on_known in Hd as [? _]. }
  apply list_elem_of_split in Hin as (l1 & l2 & Heq).
  pose proof (Hbefore _ _ Hn _ _ Heq) as Hin. subst.
  apply NoDup_app in Hnd as (_ & Hdis & _). apply (Hdis n Hin). by left.
Qed.

Context {V R : Type} (parse_version : string → option V) (parse_req : string → option R)
  (req_matches : R → V → bool).

Definition satisfied exts (dep req : string) : Prop :=
  ∃ other, other ∈ exts ∧ xt_name other = dep ∧
    version_matches parse_version parse_req req_matches req (xt_version other) = true.

Lemma lookup_installed_versions exts ext :
  NoDup (xt_name <$> exts) → ext ∈ exts →
  installed_versions exts !! xt_name ext = Some (xt_version ext).
Proof.
  unfold installed_versions. generalize (∅ : gmap string string).
  induction exts as [|e exts IH]; [by intros ? _ ?%elem_of_nil|]. intros m.
  cbn [foldl fmap list_fmap]. intros [Hfresh Hnd]%NoDup_cons [->|Hin]%elem_of_cons; [|by apply IH].
  apply (foldl_inv _ (λ todo m, (∀ x, x ∈ todo → x ∈ exts) ∧
    m !! xt_name e = Some (xt_version e))).
  - intros x todo m' [Htodo Hm']. split; [set_solver|]. rewrite lookup_insert_ne; [done|].
    intros Heq. apply Hfresh. rewrite <- Heq. apply list_elem_of_fmap_2, Htodo. by left.
  - split; [done|]. by rewrite lookup_insert_eq.
Qed.

Lemma installed_versions_none exts dep :
  dep ∉ known_names exts → installed_versions exts !! dep = None.
Proof.
  intros Hdep. unfold installed_versions.
  apply (foldl_inv _ (λ todo m, (∀ x, x ∈ todo → x ∈ exts) ∧ m !! dep = None)).
  - intros x todo m [Htodo Hm]. split; [set_solver|]. rewrite lookup_insert_ne; [done|].
    intros <-. apply Hdep, elem_of_known. exists x. split; [apply Htodo; by left|done].
  - by rewrite lookup_empty.
Qed.

Lemma dependency_issue_none exts ext dep req :
  NoDup (xt_name <$> exts) →
  dependency_issue parse_version parse_req req_matches (installed_versions exts) ext (dep, req) = None
  ↔ satisfied exts dep req.
Proof.
  intros Hnames. unfold dependency_issue, satisfied. cbn [fst snd].
  destruct (decide (dep ∈ known_names exts)) as [(other & Hin & <-)%elem_of_known|Hno].
  - rewrite lookup_installed_versions by done. split.
    + intros Hm. exists other. split_and!; [done|done|]. by destruct (version_matches _ _ _ _ _).
    + intros (other' & Hin' & Hname & Hm).
      pose proof (lookup_installed_versions exts other Hnames Hin) as Hv.
      rewrite <- Hname, lookup_installed_versions in Hv by done. injection Hv as Hv.
      by rewrite <- Hv, Hm.
  - rewrite installed_versions_none by done. split; [done|].
    intros (other & Hin & <- & _). destruct Hno. apply elem_of_known. eauto.
Qed.

Notation validate := (validate_dependencies parse_version parse_req req_matches).

(** The parts of the result *)
Record validation_facts exts res (rest : list string) : Prop := {
  vf_order : topological_sort exts = Some res.(dv_load_order);
  vf_all : res.(dv_load_order) ≡ₚ elements (known_names exts);
  vf_issue : ∀ i, i ∈ res.(dv_issues) ↔
    (∃ c, i = Circular c ∧ Circular c ∈ res.(dv_issues)) ∨
    ∃ ext dep req, ext ∈ exts ∧ xt_dependencies ext !! dep = Some req ∧
      dependency_issue parse_version parse_req req_matches (installed_versions exts) ext (dep, req)
      = Some i;
  vf_valid : res.(dv_valid) = true ↔ res.(dv_issues) = [];
  vf_closed : ∀ c, Circular c ∈ res.(dv_issues) → closed_walk (depends_on exts) c;
  vf_first : rest = [] → ∀ l1 n l2 d,
    res.(dv_load_order) = l1 ++ n :: l2 → depends_on exts n d → d ∈ l1;
  vf_none : rest = [] → ∀ c, Circular c ∉ res.(dv_issues);
  vf_some : NoDup (xt_name <$> exts) → rest ≠ [] → ∃ c, Circular c ∈ res.(dv_issues);
}.

Lemma not_circular exts ext dep c :
  dependency_issue parse_version parse_req req_matches (installed_versions exts) ext dep
  ≠ Some (Circular c).
Proof. unfold dependency_issue. repeat case_match; congruence. Qed.

Lemma validate_facts exts : ∃ res rest, validate exts = Some res ∧ validation_facts exts res rest.
Proof.
  unfold validate_dependencies.
  destruct (topological_order_facts exts) as (ordered & rest & cycles & Heq & Hf).
  rewrite Heq. simpl. set (issues := exts ≫= _).
  assert (∀ i, i ∈ issues ↔ ∃ ext dep req, ext ∈ exts ∧ xt_dependencies ext !! dep = Some req ∧
    dependency_issue parse_version parse_req req_matches (installed_versions exts) ext (dep, req)
      = Some i) as Hissues.
  { intros i. unfold issues. rewrite list_elem_of_bind. setoid_rewrite list_elem_of_omap. split.
    - intros (ext & ([dep req] & Hdep%elem_of_hash_iter & Hi) & Hext). eauto 10.
    - intros (ext & dep & req & Hext & Hdep & Hi). exists ext. split; [|done].
      exists (dep, req). by rewrite elem_of_hash_iter. }
  assert (∀ c, Circular c ∈ issues ++ (Circular <$> cycles) ↔ c ∈ cycles) as Hcirc.
  { intros c. rewrite elem_of_app, Hissues, list_elem_of_fmap. split.
    - intros [(ext & dep & req & _ & _ & Hi)|(? & [= ->] & ?)]; [by apply not_circular in Hi|done].
    - intros Hc. right. eauto. }
  clearbody issues. destruct Hf. eexists _, rest. split; [done|]. split; simpl.
  - unfold topological_sort. by rewrite Heq.
  - done.
  - intros i. rewrite elem_of_app, Hissues, list_elem_of_fmap. setoid_rewrite Hcirc. naive_solver.
  - by rewrite bool_decide_eq_true, length_zero_iff_nil.
  - intros c Hc%Hcirc. by eapply (proj1 (Forall_forall _ _) of_closed).
  - intros ->. by rewrite app_nil_r.
  - intros Hnil c Hc%Hcirc. rewrite of_none in Hc by done. by apply elem_of_nil in Hc.
  - intros Hnames Hne. specialize (of_some Hnames Hne). destruct cycles as [|c cycles]; [done|].
    exists c. apply Hcirc. by left.
Qed.

Lemma validation_valid exts res rest :
  NoDup (xt_name <$> exts) → validation_facts exts res rest →
  dv_valid res = true ↔
  (∀ ext dep req, ext ∈ exts → xt_dependencies ext !! dep = Some req → satisfied exts dep req) ∧
  rest = [].
Proof.
  intros Hnames [_ _ Hissue Hvalid _ _ Hnone Hsome]. rewrite Hvalid. split.
  - intros Hnil. rewrite Hnil in *. split.
    + intros ext dep req Hext Hdep. apply (dependency_issue_none exts ext); [done|].
      destruct (dependency_issue _ _ _ _ _ _) as [i|] eqn:Hi; [|done].
      destruct (elem_of_nil i) as [Hno _]. destruct Hno. apply Hissue. right. eauto 10.
    + destruct rest; [done|]. destruct Hsome as [c Hc]; [done..|]. by apply elem_of_nil in Hc.
  - intros [Hsat Hrest]. destruct (dv_issues res) as [|i rest_issues]; [done|]. exfalso.
    destruct (proj1 (Hissue i)) as [(c & -> & Hc)|(ext & dep & req & Hext & Hdep & Hi)]; [by left| |].
    + by eapply Hnone.
    + apply Hsat, (dependency_issue_none exts ext) in Hdep; [congruence|done..].
Qed.

(** [validate_dependencies] returns, and accepts exactly the sets of extensions in
    which every declared dependency is installed in a version that satisfies the
    requirement and no extension depends on itself through others.  Every cycle it
    reports is one: a walk along declared dependencies back to its first extension.
    A dependency that is not installed is reported as missing, with its extension. *)
Theorem validate_dependencies_spec exts (Hnames : NoDup (xt_name <$> exts)) :
  ∃ res, validate_dependencies parse_version parse_req req_matches exts = Some res ∧
    topological_sort exts = Some res.(dv_load_order) ∧
    (res.(dv_valid) = true ↔
     (∀ ext dep req, ext ∈ exts → xt_dependencies ext !! dep = Some req → satisfied exts dep req) ∧
     acyclic exts) ∧
    (∀ c, Circular c ∈ res.(dv_issues) → closed_walk (depends_on exts) c) ∧
    (∀ ext dep req, ext ∈ exts → xt_dependencies ext !! dep = Some req →
       dep ∉ known_names exts → Missing ext.(xt_name) dep req ∈ res.(dv_issues)).
Proof.
  destruct (validate_facts exts) as (res & rest & Heq & Hf). exists res.
  pose proof Hf as [Horder Hall Hissue _ Hclosed Hfirst _ Hsome].
  split_and!; [done|done| |done|].
  - rewrite (validation_valid exts res rest) by done. split; intros [Hsat Hr]; (split; [done|]).
    + apply (ordered_acyclic exts (dv_load_order res)); [done|]. by apply Hfirst.
    + destruct rest; [done|]. destruct Hsome as [c [m Hm]%Hclosed%closed_walk_tc]; [done..|].
      by destruct (Hr m).
  - intros ext dep req Hext Hdep Hno. apply Hissue. right. exists ext, dep, req.
    split_and!; [done..|]. unfold dependency_issue. cbn [fst snd].
    by rewrite installed_versions_none.
Qed.
End properties.

(** ** Concrete instances *)

Definition demo_ext (name : string) (deps : list (string * string)) : LoadedExtension :=
  mkLoadedExtension name "1.0.0" None None (list_to_map deps) ("/extensions/" +:+ name) SourceLocal
    (mkExtensionState name "1.0.0" true None None).

Definition demo_chain : list LoadedExtension :=
  [demo_ext "ui" [("core", "1.0.0"); ("net", "^1")]; demo_ext "core" []; demo_ext "net" [("core", "1.0.0")]].

(** "x" and "y" depend on each other; "a" depends on "b", which depends on "x". *)
Definition demo_cycle : list LoadedExtension :=
  [demo_ext "a" [("b", "1.0.0")]; demo_ext "b" [("x", "1.0.0")];
   demo_ext "x" [("y", "1.0.0")]; demo_ext "y" [("x", "1.0.0")]].

(** A toy version scheme: a version is its text, a requirement accepts it or not. *)
Definition demo_matches (req version : string) : bool := String.prefix "^" req || String.eqb req ("=" +:+ version).

Example chain_order : topological_sort (H := plain_order) demo_chain = Some ["core"; "net"; "ui"].
Proof. vm_compute. reflexivity. Qed.

Example cycle_reported :
  validate_dependencies (H := plain_order) Some Some demo_matches demo_cycle =
  Some (mkDependencyValidationResult false [Circular ["x"; "y"; "x"]] ["a"; "b"; "x"; "y"]).
Proof. vm_compute. reflexivity. Qed.

(** Only "x" and "y" lie on a cycle, yet "a" is loaded before its dependency "b":
    whatever depends on a cycle is appended with it, in alphabetical order. *)
Lemma dependent_loaded_before_dependency :
  depends_on demo_cycle "a" "b" ∧
  topological_sort (H := plain_order) demo_cycle = Some ["a"; "b"; "x"; "y"] ∧
  ∃ res, validate_dependencies (H := plain_order) Some Some demo_matches demo_cycle = Some res ∧
    ∀ c, Circular c ∈ res.(dv_issues) → "a" ∉ c ∧ "b" ∉ c.
Proof.
  split_and!.
  - split; [by apply (bool_decide_unpack _); vm_compute|].
    exists (demo_ext "a" [("b", "1.0.0")]). split_and!; [by left|done|]. by exists "1.0.0".
  - vm_compute. reflexivity.
  - eexists. split; [apply cycle_reported|]. simpl. intros c [[= ->]|[]%elem_of_nil]%elem_of_cons. set_solver.
Qed.

Lemma validate_dependencies_spec_witness :
  ∃ res, validate_dependencies (H := plain_order) Some Some demo_matches demo_chain = Some res ∧
    topological_sort (H := plain_order) demo_chain = Some res.(dv_load_order) ∧
    (res.(dv_valid) = true ↔
     (∀ ext dep req, ext ∈ demo_chain → xt_dependencies ext !! dep = Some req →
        satisfied Some Some demo_matches demo_chain dep req) ∧
     acyclic demo_chain) ∧
    (∀ c, Circular c ∈ res.(dv_issues) → closed_walk (depends_on demo_chain) c) ∧
    (∀ ext dep req, ext ∈ demo_chain → xt_dependencies ext !! dep = Some req →
       dep ∉ known_names demo_chain → Missing ext.(xt_name) dep req ∈ res.(dv_issues)).
Proof.
  apply (validate_dependencies_spec (H := plain_order) Some Some demo_matches demo_chain).
  apply (bool_decide_unpack _). vm_compute. exact I.
Defined.
