(* ===== verification/ExtensionLoader.v ===== *)
(** * Loading extensions: duplicates, compatibility, order, persisted states

    Models [load_all] and [filter_by_engine_compatibility] of
    [aionui-extension/src/loader.rs] and the pipeline of
    [aionui-extension/src/registry_helpers.rs].  The directory scans are inputs: the
    list of what each scanned directory holds.  Versions are those of [semver]. *)
From S2P Require Import Prelude.
From S2P Require Import ExtensionDeps ExtensionOrder ExtensionProps.

(** ** Operations *)

Section loader.
Context `{HashOrder}.
Implicit Types exts : list LoadedExtension.

(** [seen] is the set of the keys of the map of that name: its values are not read. *)
Definition load_extension (acc : gset string * list LoadedExtension) (ext : LoadedExtension) :
    gset string * list LoadedExtension :=
  if bool_decide (ext.(xt_name) ∈ acc.1) then acc
  else ({[ext.(xt_name)]} ∪ acc.1, acc.2 ++ [ext]).

Definition load_all (scanned : list (list LoadedExtension)) : list LoadedExtension :=
  (foldl (foldl load_extension) (∅, []) scanned).2.

(** A [Version] of [semver] has a major number and an order. *)
Context {V R : Type} (parse_version : string → option V) (parse_req : string → option R)
  (req_matches : R → V → bool) (major : V → Z) (version_le : V → V → bool).

Definition EXTENSION_API_VERSION : string := "1.0.0".

Definition is_engine_compatible (app_version : V) (ext : LoadedExtension) : bool :=
  match ext.(xt_engine) with
  | None => true
  | Some engine =>
      match engine.(ec_aionui) with
      | None => true
      | Some required =>
          match parse_req required with
          | Some req => req_matches req app_version
          | None => false
          end
      end
  end.

Definition is_api_version_compatible (ext : LoadedExtension) : bool :=
  match ext.(xt_api_version) with
  | None => true
  | Some api_ver_str =>
      match parse_version api_ver_str with
      | None => false
      | Some declared =>
          match parse_version EXTENSION_API_VERSION with
          | None => true
          | Some supported => (major declared =? major supported)%Z && version_le declared supported
          end
      end
  end.

Definition filter_by_engine_compatibility exts (app_version : string) : list LoadedExtension :=
  match parse_version app_version with
  | None => exts
  | Some app_ver =>
      filter (λ ext, is_engine_compatible app_ver ext && is_api_version_compatible ext) exts
  end.

Definition by_name exts : gmap string LoadedExtension :=
  foldl (λ m ext, <[ext.(xt_name) := ext]> m) ∅ exts.

(** One turn of the loop over [load_order] *)
Definition take_extension (acc : gmap string LoadedExtension * list LoadedExtension) (name : string) :
    gmap string LoadedExtension * list LoadedExtension :=
  match acc.1 !! name with
  | Some ext => (delete name acc.1, acc.2 ++ [ext])
  | None => acc
  end.

Definition sort_by_load_order exts (load_order : list string) : list LoadedExtension :=
  let '(by_name, sorted) := foldl take_extension (by_name exts, []) load_order in
  sorted ++ merge_sort (λ a b, String.le a.(xt_name) b.(xt_name)) (hash_values by_name).

Definition load_and_validate (scanned : list (list LoadedExtension)) (app_version : string) :
    option (list LoadedExtension * DependencyValidationResult) :=
  let filtered := filter_by_engine_compatibility (load_all scanned) app_version in
  dep_result ← validate_dependencies parse_version parse_req req_matches filtered;
  Some (sort_by_load_order filtered dep_result.(dv_load_order), dep_result).

Definition set_xt_state st (ext : LoadedExtension) : LoadedExtension :=
  mkLoadedExtension ext.(xt_name) ext.(xt_version) ext.(xt_engine) ext.(xt_api_version)
    ext.(xt_dependencies) ext.(xt_directory) ext.(xt_source) st.

Definition merge_persisted_states exts (persisted : gmap string ExtensionState) :
    list LoadedExtension :=
  (λ ext, match persisted !! ext.(xt_name) with
          | Some saved => set_xt_state (mkExtensionState ext.(xt_state).(xs_name)
              ext.(xt_state).(xs_version) saved.(xs_enabled) saved.(xs_installed_at)
              saved.(xs_last_activated_at)) ext
          | None => ext
          end) <$> exts.

Definition build_state_map exts : gmap string ExtensionState :=
  foldl (λ m ext, <[ext.(xt_state).(xs_name) := ext.(xt_state)]> m) ∅ exts.
End loader.

(** ** Lookups in the maps built from a list of distinct keys *)

Section collect.
Context {A : Type} (key : A → string).

Definition collect (m : gmap string A) (l : list A) : gmap string A :=
  foldl (λ m x, <[key x := x]> m) m l.

Lemma lookup_collect_ne m l k : k ∉ key <$> l → collect m l !! k = m !! k.
Proof.
  unfold collect. revert m. induction l as [|x l IH]; intros m Hk; [done|].
  cbn [foldl fmap list_fmap] in *. apply not_elem_of_cons in Hk as [Hne Hk].
  by rewrite IH, lookup_insert_ne by done.
Qed.

Lemma lookup_collect m l x : NoDup (key <$> l) → x ∈ l → collect m l !! key x = Some x.
Proof.
  revert m. induction l as [|y l IH]; intros m Hnd Hin; [by apply elem_of_nil in Hin|].
  cbn [fmap list_fmap] in Hnd. apply NoDup_cons in Hnd as [Hfresh Hnd].
  apply elem_of_cons in Hin as [->|Hin]; [|by apply IH].
  change (collect m (y :: l)) with (collect (<[key y := y]> m) l).
  by rewrite lookup_collect_ne, lookup_insert_eq.
Qed.

Lemma lookup_collect_inv l k x :
  NoDup (key <$> l) → collect ∅ l !! k = Some x → x ∈ l ∧ key x = k.
Proof.
  intros Hnd Hk. destruct (decide (k ∈ key <$> l)) as [(y & -> & Hy)%list_elem_of_fmap|Hno].
  - rewrite lookup_collect in Hk by done. naive_solver.
  - by rewrite lookup_collect_ne, lookup_empty in Hk.
Qed.
End collect.

(** ** What each step does *)

Section facts.
Context `{HashOrder}.
Implicit Types exts : list LoadedExtension.

Lemma load_all_distinct scanned : NoDup (xt_name <$> load_all scanned).
Proof.
  unfold load_all.
  set (P := λ acc : gset string * list LoadedExtension,
    NoDup (xt_name <$> acc.2) ∧ ∀ n, n ∈ xt_name <$> acc.2 → n ∈ acc.1).
  assert (∀ l acc, P acc → P (foldl load_extension acc l)) as Hinner.
  { intros l acc Hacc. apply (foldl_inv _ (λ _, P)); [|done].
    intros ext _ [seen out] [Hnd Hseen]. unfold load_extension. cbn [fst snd] in *.
    case_bool_decide as Hin; [done|]. split; cbn [fst snd]; rewrite fmap_app; cbn [fmap list_fmap].
    - apply NoDup_app. split_and!; [done| |apply NoDup_singleton].
      intros n Hn ->%list_elem_of_singleton. auto.
    - intros n. rewrite elem_of_app, list_elem_of_singleton. intros [?%Hseen| ->]; set_solver. }
  apply (foldl_inv (foldl load_extension) (λ _, P)); [eauto|]. split; [constructor|].
  by intros n ?%elem_of_nil.
Qed.

Lemma filter_names_distinct {V R} (parse_version : string → option V) (parse_req : string → option R)
    req_matches major version_le exts app_version :
  NoDup (xt_name <$> exts) →
  NoDup (xt_name <$> filter_by_engine_compatibility parse_version parse_req req_matches major
                       version_le exts app_version).
Proof.
  intros Hnd. unfold filter_by_engine_compatibility. destruct (parse_version app_version); [|done].
  eapply sublist_NoDup; [exact Hnd|]. apply fmap_sublist, sublist_filter.
Qed.

Lemma elem_of_by_name exts n ext :
  NoDup (xt_name <$> exts) → by_name exts !! n = Some ext ↔ ext ∈ exts ∧ xt_name ext = n.
Proof.
  intros Hnd. change (by_name exts) with (collect xt_name ∅ exts). split.
  - by apply lookup_collect_inv.
  - intros [Hin <-]. by apply lookup_collect.
Qed.

(** The loop takes the extensions of distinct names [order] out of the map, in order. *)
Lemma take_all (m : gmap string LoadedExtension) out order :
  NoDup order → (∀ n, n ∈ order → ∃ ext, m !! n = Some ext ∧ xt_name ext = n) →
  (∀ n, is_Some (m !! n) → n ∈ order) →
  ∃ taken, foldl take_extension (m, out) order = (∅, out ++ taken) ∧
    xt_name <$> taken = order ∧ ∀ ext, ext ∈ taken → m !! xt_name ext = Some ext.
Proof.
  revert m out. induction order as [|n order IH]; intros m out Hnd Hm Hall.
  { exists []. rewrite app_nil_r. split_and!; [|done|by intros ? ?%elem_of_nil]. simpl. f_equal.
    apply map_eq. intros n. rewrite lookup_empty. destruct (m !! n) as [ext|] eqn:Hn; [|done].
    destruct (elem_of_nil n) as [Hnil _]. destruct Hnil. apply Hall. by rewrite Hn. }
  apply NoDup_cons in Hnd as [Hfresh Hnd].
  destruct (Hm n) as (ext & Hn & Hname); [by left|].
  cbn [foldl]. unfold take_extension at 2. cbn [fst snd]. rewrite Hn.
  destruct (IH (delete n m) (out ++ [ext])) as (taken & -> & Htaken & Hin); [done| | |].
  - intros n' Hn'. rewrite lookup_delete_ne by (intros ->; done). apply Hm. by right.
  - intros n' [x Hx]. rewrite lookup_delete in Hx. case_decide; [done|].
    destruct (proj1 (elem_of_cons _ _ _) (Hall n' (mk_is_Some _ _ Hx))); [congruence|done].
  - exists (ext :: taken). rewrite <- (assoc_L (++)). split_and!; [done|by rewrite fmap_cons, Hname, Htaken|].
    intros x [->|Hx]%elem_of_cons; [by rewrite Hname|].
    specialize (Hin x Hx). rewrite lookup_delete in Hin. by case_decide.
Qed.

Lemma sort_by_load_order_spec exts order :
  NoDup (xt_name <$> exts) → order ≡ₚ elements (known_names exts) →
  xt_name <$> sort_by_load_order exts order = order ∧ sort_by_load_order exts order ≡ₚ exts.
Proof.
  intros Hnames Horder. unfold sort_by_load_order.
  assert (NoDup order) as Hnd by (rewrite Horder; apply NoDup_elements).
  assert (∀ n, n ∈ order ↔ ∃ ext, ext ∈ exts ∧ xt_name ext = n) as Hin.
  { intros n. by rewrite Horder, elem_of_elements, elem_of_known. }
  destruct (take_all (by_name exts) [] order) as (taken & -> & Htaken & Hfrom); [done| | |].
  { intros n (ext & Hext & <-)%Hin. exists ext. by rewrite elem_of_by_name. }
  { intros n [ext Hext%elem_of_by_name]; [|done]. apply Hin. eauto. }
  assert (hash_values (∅ : gmap string LoadedExtension) = []) as ->.
  { unfold hash_values. pose proof (hash_iter_perm (V := LoadedExtension) ∅) as Hp.
    rewrite map_to_list_empty in Hp. by apply Permutation_nil_r in Hp as ->. }
  change (merge_sort _ []) with (@nil LoadedExtension). rewrite app_nil_l, app_nil_r.
  split; [done|]. apply NoDup_Permutation.
  - apply (NoDup_fmap_1 xt_name). by rewrite Htaken.
  - by apply (NoDup_fmap_1 xt_name).
  - intros ext. split; [intros Hext%Hfrom; by apply elem_of_by_name in Hext as [? _]|].
    intros Hext. assert (xt_name ext ∈ xt_name <$> taken) as (other & Hname & Hother)%list_elem_of_fmap.
    { rewrite Htaken. apply Hin. eauto. }
    pose proof (Hfrom _ Hother) as Hlook. rewrite <- Hname in Hlook.
    assert (by_name exts !! xt_name ext = Some ext) as Heq by (by apply elem_of_by_name).
    rewrite Heq in Hlook. by injection Hlook as ->.
Qed.
End facts.

(** ** Properties *)

Section loader_properties.
Context `{HashOrder} {V R : Type} (parse_version : string → option V)
  (parse_req : string → option R) (req_matches : R → V → bool) (major : V → Z)
  (version_le : V → V → bool).

(** Loading never fails: it returns the accepted extensions, each name once,
    in the validated load order.  When
    the validation finds nothing wrong, every dependency of an extension is loaded
    before it. *)
Theorem load_and_validate_spec scanned app_version :
  ∃ sorted res,
    load_and_validate parse_version parse_req req_matches major version_le scanned app_version
      = Some (sorted, res) ∧
    sorted ≡ₚ filter_by_engine_compatibility parse_version parse_req req_matches major version_le
                (load_all scanned) app_version ∧
    NoDup (xt_name <$> sorted) ∧
    xt_name <$> sorted = res.(dv_load_order) ∧
    (res.(dv_valid) = true → ∀ l1 ext l2 dep req,
       sorted = l1 ++ ext :: l2 → xt_dependencies ext !! dep = Some req →
       ∃ other, other ∈ l1 ∧ xt_name other = dep ∧
         version_matches parse_version parse_req req_matches req (xt_version other) = true).
Proof.
  unfold load_and_validate.
  pose proof (filter_names_distinct parse_version parse_req req_matches major version_le
                (load_all scanned) app_version (load_all_distinct scanned)) as Hnames.
  set (exts := filter_by_engine_compatibility _ _ _ _ _ _ _) in *. clearbody exts.
  destruct (validate_facts parse_version parse_req req_matches exts) as (res & rest & -> & Hf).
  simpl. destruct (sort_by_load_order_spec exts (dv_load_order res)) as [Hsorted Hperm];
    [done|apply Hf|].
  eexists _, res. split_and!; [done|done| |done|].
  { rewrite Hsorted, (vf_all _ _ _ _ _ _ Hf). apply NoDup_elements. }
  intros [Hsat Hrest]%(validation_valid _ _ _ _ _ _ Hnames Hf) l1 ext l2 dep req Heq Hdep.
  rewrite Heq in Hsorted, Hperm. rewrite fmap_app, fmap_cons in Hsorted.
  assert (ext ∈ exts) as Hext by (rewrite <- Hperm; set_solver).
  destruct (Hsat _ _ _ Hext Hdep) as (other & Hother & <- & Hm). exists other. split; [|done].
  assert (xt_name other ∈ xt_name <$> l1) as (x & Hname & Hx)%list_elem_of_fmap.
  { eapply (vf_first _ _ _ _ _ _ Hf Hrest); [symmetry; exact Hsorted|]. split.
    - apply elem_of_known. eauto.
    - exists ext. split_and!; [done|done|by exists req]. }
  assert (x ∈ exts) as Hxin by (rewrite <- Hperm; set_solver).
  assert (by_name exts !! xt_name x = Some x) as Hbx by (by apply elem_of_by_name).
  assert (by_name exts !! xt_name other = Some other) as Hbo by (by apply elem_of_by_name).
  rewrite Hname, Hbx in Hbo. by injection Hbo as ->.
Qed.
End loader_properties.

(** The state [load_single_extension] gives an extension read from disk *)
Definition fresh_state (ext : LoadedExtension) : ExtensionState :=
  mkExtensionState ext.(xt_name) ext.(xt_version) true None None.

Definition reloaded (ext : LoadedExtension) : LoadedExtension := set_xt_state (fresh_state ext) ext.

(** Saving the states of the extensions and merging them into the same extensions
    read again from disk restores every state: whether it is enabled, when it was
    installed and last activated. *)
Theorem persisted_states_roundtrip (exts : list LoadedExtension)
    (Hnames : NoDup (xt_name <$> exts))
    (Hstate : ∀ ext, ext ∈ exts → xs_name (xt_state ext) = xt_name ext ∧
                                  xs_version (xt_state ext) = xt_version ext) :
  merge_persisted_states (reloaded <$> exts) (build_state_map exts) = exts.
Proof.
  assert (∀ ext, ext ∈ exts → build_state_map exts !! xt_name ext = Some (xt_state ext)) as Hmap.
  { assert (build_state_map exts = collect xs_name ∅ (xt_state <$> exts)) as ->.
    { unfold build_state_map, collect. generalize (∅ : gmap string ExtensionState).
      clear. induction exts as [|ext exts IH]; intros m; [done|]. apply IH. }
    assert (xs_name <$> (xt_state <$> exts) = xt_name <$> exts) as Hkeys.
    { rewrite <- list_fmap_compose. apply list_fmap_ext. intros i x Hx.
      apply Hstate. by apply list_elem_of_lookup_2 in Hx. }
    intros ext Hext. rewrite <- (proj1 (Hstate ext Hext)). apply lookup_collect.
    - by rewrite Hkeys.
    - by apply list_elem_of_fmap_2. }
  unfold merge_persisted_states. rewrite <- list_fmap_compose.
  rewrite <- (list_fmap_id exts) at 2. apply list_fmap_ext. intros i ext Hi.
  apply list_elem_of_lookup_2 in Hi. unfold compose, id, reloaded. cbn [set_xt_state xt_name].
  rewrite (Hmap ext Hi). destruct (Hstate ext Hi) as [Hn Hv].
  destruct ext as [n v e a d dir src [sn sv en inst act]]. simpl in *. by subst.
Qed.

Definition demo_disabled : LoadedExtension :=
  set_xt_state (mkExtensionState "net" "1.0.0" false (Some 5%Z) None)
    (demo_ext "net" [("core", "1.0.0")]).

Lemma persisted_states_roundtrip_witness :
  merge_persisted_states (reloaded <$> [demo_ext "core" []; demo_disabled])
    (build_state_map [demo_ext "core" []; demo_disabled]) = [demo_ext "core" []; demo_disabled].
Proof.
  apply persisted_states_roundtrip.
  - apply (bool_decide_unpack _). vm_compute. exact I.
  - intros ext [->|[->|[]%elem_of_nil]%elem_of_cons]%elem_of_cons; done.
Defined.
