(* ===== verification/Realtime.v ===== *)
(** * Realtime: the WebSocket connections

    Models [crates/aionui-realtime/src/{types,manager,handler,router}.rs]: the registry of
    connections, the messages queued to them, the heartbeat, and what an incoming text
    does.  A [tokio] channel is a bounded queue with a receiver that may be gone; the
    registry holds its sending end, the send loop of the connection its receiving end.
    Instants and durations count nanoseconds.

    [serde_json] is the interface [JsonValue] of [Storage]. *)
From S2P Require Import Prelude Text Storage.

(** ** Types *)

Notation ConnectionId := Z (only parsing).

Inductive WebSocketCloseCode := NormalClosure | PolicyViolation.

#[global] Instance WebSocketCloseCode_eq_dec : EqDecision WebSocketCloseCode.
Proof. solve_decision. Defined.

Definition close_code_as_u16 (c : WebSocketCloseCode) : Z :=
  match c with NormalClosure => 1000 | PolicyViolation => 1008 end.

Inductive WsOutbound :=
  | OutText (text : string)
  | OutClose (code : WebSocketCloseCode) (reason : string)
  | OutTextThenClose (text : string) (code : WebSocketCloseCode) (reason : string).

#[global] Instance WsOutbound_eq_dec : EqDecision WsOutbound.
Proof. solve_decision. Defined.

Inductive RealtimeError :=
  | AuthMissing | AuthExpired | InvalidMessage | UnsupportedMessage
  | HeartbeatTimeout | Backpressure | SendFailed | Internal.

#[global] Instance RealtimeError_eq_dec : EqDecision RealtimeError.
Proof. solve_decision. Defined.

Definition realtime_code (e : RealtimeError) : string :=
  match e with
  | AuthMissing => "REALTIME_AUTH_MISSING"
  | AuthExpired => "REALTIME_AUTH_EXPIRED"
  | InvalidMessage => "REALTIME_INVALID_MESSAGE"
  | UnsupportedMessage => "REALTIME_UNSUPPORTED_MESSAGE"
  | HeartbeatTimeout => "REALTIME_HEARTBEAT_TIMEOUT"
  | Backpressure => "REALTIME_BACKPRESSURE"
  | SendFailed => "REALTIME_SEND_FAILED"
  | Internal => "REALTIME_INTERNAL_ERROR"
  end.

Definition realtime_message (e : RealtimeError) : string :=
  match e with
  | AuthMissing => "Authentication is required."
  | AuthExpired => "Authentication has expired."
  | InvalidMessage => "Message must use the standard realtime envelope."
  | UnsupportedMessage => "Realtime message is not supported."
  | HeartbeatTimeout => "Realtime connection heartbeat timed out."
  | Backpressure => "Realtime connection is temporarily overloaded."
  | SendFailed => "Realtime message could not be delivered."
  | Internal => "Realtime service encountered an internal error."
  end.

Definition realtime_recoverable (e : RealtimeError) : bool :=
  match e with
  | AuthMissing | AuthExpired => false
  | InvalidMessage => true
  | UnsupportedMessage => true
  | HeartbeatTimeout => false
  | Backpressure => true
  | SendFailed | Internal => false
  end.

Definition HEARTBEAT_INTERVAL : Z := 30 * 10 ^ 9.
Definition HEARTBEAT_TIMEOUT : Z := 60 * 10 ^ 9.
Definition PER_CONNECTION_BUFFER : nat := 64.

(** [r#"{ .. }"#] of [details]: a double quote is byte 34. *)
Definition dq : string := String (Ascii.ascii_of_nat 34) EmptyString.

Definition expected_envelope : string :=
  "{ " +:+ dq +:+ "name" +:+ dq +:+ ": " +:+ dq +:+ "event-name" +:+ dq +:+ ", " +:+
  dq +:+ "data" +:+ dq +:+ ": {...} }".

Section messages.
Context `{!JsonValue}.

(** [WebSocketMessage<Value>] *)
Record WebSocketMessage := mkWebSocketMessage { ws_name : string; ws_data : json }.

(** [derive(Serialize)] and [to_string] *)
Definition ws_to_string (m : WebSocketMessage) : option string :=
  json_to_string (json_object [("name", json_string (ws_name m)); ("data", ws_data m)]).

Definition realtime_details (e : RealtimeError) : json :=
  match e with
  | InvalidMessage => json_object [("expected", json_string expected_envelope)]
  | _ => json_object []
  end.

Definition into_event (e : RealtimeError) : WebSocketMessage :=
  mkWebSocketMessage "realtime.error" (json_object [
    ("code", json_string (realtime_code e));
    ("message", json_string (realtime_message e));
    ("recoverable", json_bool (realtime_recoverable e));
    ("details", realtime_details e)]).

Definition terminal_realtime_error (e : RealtimeError) (reason : string) : WsOutbound :=
  match ws_to_string (into_event e) with
  | Some text => OutTextThenClose text PolicyViolation reason
  | None => OutClose PolicyViolation reason
  end.
End messages.

(** ** Channels of [tokio::sync::mpsc] *)

Record Channel := mkChannel {
  ch_queue : list WsOutbound;
  ch_capacity : nat;
  ch_open : bool;                       (* the receiver is alive *)
}.

Inductive TrySend := Sent | Full | Closed.

#[global] Instance TrySend_eq_dec : EqDecision TrySend.
Proof. solve_decision. Defined.

Definition push_channel (o : WsOutbound) (ch : Channel) : Channel :=
  mkChannel (ch_queue ch ++ [o]) (ch_capacity ch) (ch_open ch).

Definition channel_state (ch : Channel) : TrySend :=
  if negb (ch_open ch) then Closed
  else if length (ch_queue ch) <? ch_capacity ch then Sent else Full.

Definition try_push (o : WsOutbound) (ch : Channel) : Channel :=
  match channel_state ch with Sent => push_channel o ch | Full | Closed => ch end.

(** ** The registry *)

Record ClientInfo := mkClientInfo {
  cl_token : string;
  cl_last_ping : Z;
  cl_tx : nat;                          (* the channel [tx] sends to *)
}.

#[global] Instance ClientInfo_eq_dec : EqDecision ClientInfo.
Proof. solve_decision. Defined.

(** [connections] and [next_id] of [WebSocketManager], and the channels *)
Record Realtime := mkRealtime {
  rt_connections : gmap ConnectionId ClientInfo;
  rt_next_id : Z;
  rt_channels : gmap nat Channel;
}.

Definition set_connections (m : gmap Z ClientInfo) (w : Realtime) : Realtime :=
  mkRealtime m (rt_next_id w) (rt_channels w).
Definition set_rt_channels (m : gmap nat Channel) (w : Realtime) : Realtime :=
  mkRealtime (rt_connections w) (rt_next_id w) m.

(** [WebSocketManager::new] *)
Definition new_realtime : Realtime := mkRealtime ∅ 1 ∅.

(** [tx.try_send(o)]: the queue of a closed or full channel is left alone. *)
Definition try_send (tx : nat) (o : WsOutbound) (w : Realtime) : TrySend * Realtime :=
  match rt_channels w !! tx with
  | Some ch => (channel_state ch, set_rt_channels (<[tx := try_push o ch]> (rt_channels w)) w)
  | None => (Closed, w)
  end.

(** [fetch_add] wraps around. *)
Definition add_client (now : Z) (token : string) (tx : nat) (w : Realtime) : ConnectionId * Realtime :=
  let id := rt_next_id w in
  (id, mkRealtime (<[id := mkClientInfo token now tx]> (rt_connections w))
         ((id + 1) mod 2 ^ 64) (rt_channels w)).

Definition remove_client (id : ConnectionId) (w : Realtime) : Realtime :=
  set_connections (delete id (rt_connections w)) w.

Definition update_last_ping (now : Z) (id : ConnectionId) (w : Realtime) : Realtime :=
  set_connections
    (alter (λ c, mkClientInfo (cl_token c) now (cl_tx c)) id (rt_connections w)) w.

Definition client_count (w : Realtime) : nat := size (rt_connections w).

Definition send_raw_to (id : ConnectionId) (o : WsOutbound) (w : Realtime) : Realtime :=
  match rt_connections w !! id with
  | None => w
  | Some client =>
      match try_send (cl_tx client) o w with
      | (Sent, w) | (Full, w) => w
      | (Closed, w) => remove_client id w
      end
  end.

(** A [DashMap] iterates in no specified order. *)
Class ConnOrder := {
  conn_iter : gmap Z ClientInfo → list (Z * ClientInfo);
  conn_iter_perm m : conn_iter m ≡ₚ map_to_list m;
}.

Definition plain_conn_order : ConnOrder :=
  {| conn_iter m := map_to_list m; conn_iter_perm _ := reflexivity _ |}.

Section manager.
Context `{!JsonValue} `{!ConnOrder}.

Definition send_to (id : ConnectionId) (m : WebSocketMessage) (w : Realtime) : Realtime :=
  match ws_to_string m with
  | None => w
  | Some text => send_raw_to id (OutText text) w
  end.

(** One connection of the loop: what it leaves in [disconnected]. *)
Definition broadcast_one (text : string) (s : Realtime * list Z) (e : Z * ClientInfo) : Realtime * list Z :=
  match try_send (cl_tx e.2) (OutText text) s.1 with
  | (Sent, w) | (Full, w) => (w, s.2)
  | (Closed, w) => (w, s.2 ++ [e.1])
  end.

Definition broadcast_all (m : WebSocketMessage) (w : Realtime) : Realtime :=
  match ws_to_string m with
  | None => w
  | Some text =>
      let '(w, disconnected) := foldl (broadcast_one text) (w, []) (conn_iter (rt_connections w)) in
      foldl (λ w id, remove_client id w) w disconnected
  end.

(** [u64] arithmetic: milliseconds since the epoch, 0 for a clock before it *)
Definition ping_message (epoch_ms : Z) : WebSocketMessage :=
  mkWebSocketMessage "ping" (json_object [("timestamp", json_number (Z.max 0 epoch_ms))]).

(** One connection of the tick: what it leaves in [to_remove]. *)
Definition heartbeat_one (now epoch_ms : Z) (token_validator : string → bool)
    (s : Realtime * list Z) (e : Z * ClientInfo) : Realtime * list Z :=
  let '(w, to_remove) := s in
  let '(id, client) := e in
  if (HEARTBEAT_TIMEOUT <? Z.max 0 (now - cl_last_ping client))%Z then
    ((try_send (cl_tx client) (terminal_realtime_error HeartbeatTimeout "heartbeat timeout") w).2,
     to_remove ++ [id])
  else if negb (token_validator (cl_token client)) then
    ((try_send (cl_tx client) (terminal_realtime_error AuthExpired "token expired") w).2,
     to_remove ++ [id])
  else
    match ws_to_string (ping_message epoch_ms) with
    | None => (w, to_remove)
    | Some text =>
        match try_send (cl_tx client) (OutText text) w with
        | (Sent, w) | (Full, w) => (w, to_remove)
        | (Closed, w) => (w, to_remove ++ [id])
        end
    end.

Definition heartbeat_tick (now epoch_ms : Z) (token_validator : string → bool) (w : Realtime) : Realtime :=
  let '(w, to_remove) :=
    foldl (heartbeat_one now epoch_ms token_validator) (w, []) (conn_iter (rt_connections w)) in
  foldl (λ w id, remove_client id w) w to_remove.
End manager.

(** ** [handler.rs] *)

(** What is written to the socket *)
Inductive Frame := FrameText (text : string) | FrameClose (code : Z) (reason : string).

#[global] Instance Frame_eq_dec : EqDecision Frame.
Proof. solve_decision. Defined.

Definition frames_of (o : WsOutbound) : list Frame :=
  match o with
  | OutText text => [FrameText text]
  | OutClose code reason => [FrameClose (close_code_as_u16 code) reason]
  | OutTextThenClose text code reason =>
      [FrameText text; FrameClose (close_code_as_u16 code) reason]
  end.

(** Writes in order until one fails: what was written, and whether all of it was. *)
Fixpoint write_frames (ok : Frame → bool) (l : list Frame) : list Frame * bool :=
  match l with
  | [] => ([], true)
  | f :: l =>
      if ok f then let '(written, all) := write_frames ok l in (f :: written, all)
      else ([], false)
  end.

(** The receiver is dropped: what is queued is lost. *)
Definition close_channel (tx : nat) (w : Realtime) : Realtime :=
  set_rt_channels (alter (λ ch, mkChannel [] (ch_capacity ch) false) tx (rt_channels w)) w.

(** One turn of [send_loop]; [ok] says which writes to the socket succeed. *)
Definition send_loop_turn (ok : Frame → bool) (tx : nat) (w : Realtime) : list Frame * Realtime :=
  match rt_channels w !! tx with
  | Some (mkChannel (o :: queue) capacity true) =>
      let w := set_rt_channels (<[tx := mkChannel queue capacity true]> (rt_channels w)) w in
      let '(written, all) := write_frames ok (frames_of o) in
      (written, if all then w else close_channel tx w)
  | _ => ([], w)
  end.

Section handler.
Context `{!JsonValue} `{!ConnOrder}.
(** The [MessageRouter], and [serde_json::from_str] with [derive(Deserialize)] *)
Context (route : ConnectionId → string → json → bool)
  (ws_from_str : string → option WebSocketMessage).

(** [NoopMessageRouter] *)
Definition noop_route (id : ConnectionId) (name : string) (data : json) : bool := false.

Definition send_realtime_error_and_close (e : RealtimeError) (reason : string) : list Frame :=
  match ws_to_string (into_event e) with Some text => [FrameText text] | None => [] end ++
  [FrameClose (close_code_as_u16 PolicyViolation) reason].

(** [handle_socket] up to the loops: the frames of a refusal, or the new connection with
    its channel *)
Definition handle_socket (token_validator : string → bool) (now : Z) (token : option string)
    (w : Realtime) :
    (list Frame + ConnectionId * nat) * Realtime :=
  match token with
  | None => (inl (send_realtime_error_and_close AuthMissing "authentication required"), w)
  | Some token =>
      if negb (token_validator token) then
        (inl (send_realtime_error_and_close AuthExpired "authentication failed"), w)
      else
        let tx := fresh (dom (rt_channels w)) in
        let w := set_rt_channels (<[tx := mkChannel [] PER_CONNECTION_BUFFER true]> (rt_channels w)) w in
        let '(id, w) := add_client now token tx w in
        (inr (id, tx), w)
  end.

(** [handle_socket] after [recv_loop]: [send_handle.abort()] drops the receiver. *)
Definition handle_socket_end (id : ConnectionId) (tx : nat) (w : Realtime) : Realtime :=
  remove_client id (close_channel tx w).

Definition send_realtime_error (id : ConnectionId) (e : RealtimeError) (w : Realtime) : Realtime :=
  send_to id (into_event e) w.

Definition send_error_response (id : ConnectionId) (w : Realtime) : Realtime :=
  send_realtime_error id InvalidMessage w.

(** The data is [{ id, data: { properties } }]. *)
Definition show_open_response (data : json) : WebSocketMessage :=
  let id := default EmptyString (json_get "id" data ≫= json_as_str) in
  let inner := default json_null (json_get "data" data) in
  let properties := default [] (json_get "properties" inner ≫= json_as_array) in
  let has s := existsb (λ v, bool_decide (json_as_str v = Some s)) properties in
  let is_file_mode := has "openFile" && negb (has "openDirectory") in
  mkWebSocketMessage "show-open-request" (json_object [
    ("id", json_string id);
    ("properties", json_array properties);
    ("isFileMode", json_bool is_file_mode)]).

Definition handle_subscribe_show_open (id : ConnectionId) (data : json) (w : Realtime) : Realtime :=
  send_to id (show_open_response data) w.

Definition handle_text_message (now : Z) (id : ConnectionId) (text : string) (w : Realtime) : Realtime :=
  match ws_from_str text with
  | None => send_error_response id w
  | Some msg =>
      if is_blank (ws_name msg) then send_error_response id w
      else if String.eqb (ws_name msg) "pong" then update_last_ping now id w
      else if String.eqb (ws_name msg) "subscribe-show-open" then
        handle_subscribe_show_open id (ws_data msg) w
      else if route id (ws_name msg) (ws_data msg) then w
      else send_realtime_error id UnsupportedMessage w
  end.

(** ** Runs: what may happen, in any order

    The tokens that are valid differ from one call to the next: they expire and are revoked. *)

Inductive RtOp :=
  | RtConnect (token_validator : string → bool) (now : Z) (token : option string)
  | RtDisconnect (id : ConnectionId) (tx : nat)
  | RtText (now : Z) (id : ConnectionId) (text : string)
  | RtSend (tx : nat) (ok : Frame → bool)
  | RtBroadcast (m : WebSocketMessage)
  | RtSendTo (id : ConnectionId) (m : WebSocketMessage)
  | RtTick (token_validator : string → bool) (now epoch_ms : Z).

Definition rt_step (w : Realtime) (op : RtOp) : Realtime :=
  match op with
  | RtConnect token_validator now token => (handle_socket token_validator now token w).2
  | RtDisconnect id tx => handle_socket_end id tx w
  | RtText now id text => handle_text_message now id text w
  | RtSend tx ok => (send_loop_turn ok tx w).2
  | RtBroadcast m => broadcast_all m w
  | RtSendTo id m => send_to id m w
  | RtTick token_validator now epoch_ms => heartbeat_tick now epoch_ms token_validator w
  end.

Definition rt_run (ops : list RtOp) (w : Realtime) : Realtime := foldl rt_step w ops.
End handler.
