(* ===== verification/RealtimeProps.v ===== *)
(** * Realtime: properties

    A broadcast and a heartbeat tick are both sweeps: each connection is sent at most one
    message through its own channel, and some connections are dropped at the end.  One
    lemma on sweeps gives both, whatever the order of the [DashMap]. *)
From S2P Require Import Prelude Text Storage Realtime.

(** ** The registry *)

(** Each connection has a channel of its own; a queue never holds more than its capacity,
    and nothing when the receiver is gone. *)
Record rt_inv (w : Realtime) : Prop := {
  inv_known id c : rt_connections w !! id = Some c → is_Some (rt_channels w !! cl_tx c);
  inv_own id1 id2 c1 c2 :
    rt_connections w !! id1 = Some c1 → rt_connections w !! id2 = Some c2 →
    cl_tx c1 = cl_tx c2 → id1 = id2;
  inv_bounded tx ch : rt_channels w !! tx = Some ch →
    ch_capacity ch = PER_CONNECTION_BUFFER ∧ length (ch_queue ch) ≤ PER_CONNECTION_BUFFER ∧
    (ch_open ch = false → ch_queue ch = []);
}.

Definition channel_ok (ch : Channel) : Prop :=
  ch_capacity ch = PER_CONNECTION_BUFFER ∧ length (ch_queue ch) ≤ PER_CONNECTION_BUFFER ∧
  (ch_open ch = false → ch_queue ch = []).

Lemma try_push_ok o ch : channel_ok ch → channel_ok (try_push o ch).
Proof.
  unfold channel_ok, try_push, channel_state. intros (Hcap & Hlen & Hclosed).
  destruct (ch_open ch) eqn:Hopen; cbn [negb]; [|by auto].
  destruct (Nat.ltb_spec (length (ch_queue ch)) (ch_capacity ch)); [|by rewrite Hopen].
  cbn. rewrite length_app. cbn. split; [done|]. split; [lia|congruence].
Qed.

(** What a call that changes no connection keeps *)
Lemma channels_inv w m :
  rt_inv w →
  (∀ tx, is_Some (rt_channels w !! tx) → is_Some (m !! tx)) →
  (∀ tx ch, m !! tx = Some ch → channel_ok ch) →
  rt_inv (set_rt_channels m w).
Proof. intros [Hknown Hown _] Hm Hok. split; cbn; eauto. Qed.

Lemma update_channel_inv w tx ch ch' :
  rt_inv w → rt_channels w !! tx = Some ch → channel_ok ch' →
  rt_inv (set_rt_channels (<[tx := ch']> (rt_channels w)) w).
Proof.
  intros Hw Htx Hok. apply channels_inv; [done| |].
  - intros tx'. rewrite lookup_insert. by case_decide.
  - intros tx' ch''. rewrite lookup_insert. case_decide; [by intros [= <-]|].
    apply (inv_bounded _ Hw).
Qed.

Lemma try_send_inv tx o w : rt_inv w → rt_inv (try_send tx o w).2.
Proof.
  intros Hw. unfold try_send. destruct (rt_channels w !! tx) as [ch|] eqn:Htx; [|done].
  eapply update_channel_inv; [done..|]. apply try_push_ok, (inv_bounded _ Hw _ _ Htx).
Qed.

Lemma connections_inv w m :
  rt_inv w →
  (∀ id c, m !! id = Some c → ∃ c', rt_connections w !! id = Some c' ∧ cl_tx c' = cl_tx c) →
  rt_inv (set_connections m w).
Proof.
  intros [Hknown Hown Hb] Hm. split; cbn; [| |done].
  - intros id c (c' & Hc & <-)%Hm. eauto.
  - intros id1 id2 c1 c2 (c1' & Hc1 & <-)%Hm (c2' & Hc2 & <-)%Hm. eauto.
Qed.

Lemma remove_client_inv id w : rt_inv w → rt_inv (remove_client id w).
Proof.
  intros Hw. apply connections_inv; [done|]. intros id' c [_ Hc]%lookup_delete_Some. eauto.
Qed.

Lemma update_last_ping_inv now id w : rt_inv w → rt_inv (update_last_ping now id w).
Proof.
  intros Hw. apply connections_inv; [done|]. intros id' c.
  rewrite lookup_alter_Some. intros [(-> & c' & Hc & ->)|[_ Hc]]; eauto.
Qed.

Lemma close_channel_inv tx w : rt_inv w → rt_inv (close_channel tx w).
Proof.
  intros Hw. apply channels_inv; [done| |].
  - intros tx'. rewrite lookup_alter. case_decide; [|done]. subst. by rewrite fmap_is_Some.
  - intros tx' ch. rewrite lookup_alter_Some.
    intros [(-> & ch' & Hch & ->)|[_ Hch]]; [|by apply (inv_bounded _ Hw _ _ Hch)].
    destruct (inv_bounded _ Hw _ _ Hch) as (Hcap & _). split; [done|]. cbn. split; [lia|done].
Qed.

Lemma add_client_inv now token tx ch w :
  rt_inv w → rt_channels w !! tx = None → channel_ok ch →
  rt_inv (add_client now token tx
            (set_rt_channels (<[tx := ch]> (rt_channels w)) w)).2.
Proof.
  intros [Hknown Hown Hb] Htx Hch. split; cbn.
  - intros id c. rewrite lookup_insert. case_decide; intros Hc.
    + injection Hc as <-. cbn. by rewrite lookup_insert_eq.
    + rewrite lookup_insert. case_decide; [done|eauto].
  - assert (Hne : ∀ id c, rt_connections w !! id = Some c → cl_tx c ≠ tx).
    { intros id c Hc Heq. destruct (Hknown _ _ Hc). congruence. }
    intros id1 id2 c1 c2. rewrite !lookup_insert.
    repeat case_decide; intros Hc1 Hc2; simplify_eq; cbn; [done|..|eauto];
      intros Heq; exfalso; naive_solver.
  - intros tx' ch'. rewrite lookup_insert. case_decide; [by intros [= <-]|eauto].
Qed.

Lemma send_raw_to_inv id o w : rt_inv w → rt_inv (send_raw_to id o w).
Proof.
  intros Hw. unfold send_raw_to. destruct (rt_connections w !! id) as [c|]; [|done].
  pose proof (try_send_inv (cl_tx c) o w Hw) as Hw'.
  destruct (try_send (cl_tx c) o w) as [[] w']; cbn in Hw'; auto using remove_client_inv.
Qed.

Lemma send_to_inv `{JsonValue} id m w : rt_inv w → rt_inv (send_to id m w).
Proof. unfold send_to. destruct (ws_to_string m); auto using send_raw_to_inv. Qed.

Lemma remove_clients_inv ids w :
  rt_inv w → rt_inv (foldl (λ w id, remove_client id w) w ids).
Proof. intros Hw. apply (foldl_inv _ (λ _, rt_inv)); auto using remove_client_inv. Qed.

Lemma send_loop_turn_inv ok tx w : rt_inv w → rt_inv (send_loop_turn ok tx w).2.
Proof.
  intros Hw. unfold send_loop_turn.
  destruct (rt_channels w !! tx) as [[[|o queue] capacity []]|] eqn:Htx; try done.
  assert (Hw' : rt_inv (set_rt_channels (<[tx:=mkChannel queue capacity true]> (rt_channels w)) w)).
  { eapply update_channel_inv; [done..|].
    destruct (inv_bounded _ Hw _ _ Htx) as (Hcap & Hlen & _). cbn in *.
    split; [done|]. cbn. split; [lia|done]. }
  destruct (write_frames ok (frames_of o)) as [written []]; cbn; auto using close_channel_inv.
Qed.

Lemma handle_socket_inv `{JsonValue} v now token w :
  rt_inv w → rt_inv (handle_socket v now token w).2.
Proof.
  intros Hw. unfold handle_socket. destruct token as [token|]; [|done].
  destruct (negb (v token)); [done|]. cbv zeta. set (tx := fresh (dom (rt_channels w))).
  destruct (add_client now token tx _) as [id w'] eqn:Hadd. cbn.
  pose proof (add_client_inv now token tx (mkChannel [] PER_CONNECTION_BUFFER true) w Hw) as Hw'.
  rewrite Hadd in Hw'. apply Hw'.
  - apply not_elem_of_dom, is_fresh.
  - split; [done|]. cbn. split; [lia|done].
Qed.

(** ** Sweeps *)

Section sweep.
Context (msg : ClientInfo → option WsOutbound) (drop : ClientInfo → Channel → bool).

(** What a sweep does to the channel of one connection *)
Definition swept (c : ClientInfo) (ch : Channel) : Channel :=
  match msg c with Some o => try_push o ch | None => ch end.

Definition sweep_one (s : Realtime * list Z) (e : Z * ClientInfo) : Realtime * list Z :=
  match rt_channels s.1 !! cl_tx e.2 with
  | Some ch => (set_rt_channels (<[cl_tx e.2 := swept e.2 ch]> (rt_channels s.1)) s.1,
                if drop e.2 ch then s.2 ++ [e.1] else s.2)
  | None => s
  end.

Definition sweep (l : list (Z * ClientInfo)) (w : Realtime) : Realtime :=
  let '(w, dropped) := foldl sweep_one (w, []) l in
  foldl (λ w id, remove_client id w) w dropped.

(** The result of sweeping [l] from [(w, r)] *)
Definition swept_to (l : list (Z * ClientInfo)) (w : Realtime) (r : list Z) (s : Realtime * list Z) : Prop :=
  rt_connections s.1 = rt_connections w ∧ rt_next_id s.1 = rt_next_id w ∧
  (∀ tx, tx ∉ (cl_tx <$> l.*2) → rt_channels s.1 !! tx = rt_channels w !! tx) ∧
  (∀ id c, (id, c) ∈ l →
    rt_channels s.1 !! cl_tx c = swept c <$> rt_channels w !! cl_tx c) ∧
  (∀ id, id ∈ s.2 ↔ id ∈ r ∨ ∃ c ch, (id, c) ∈ l ∧
    rt_channels w !! cl_tx c = Some ch ∧ drop c ch = true).

Lemma sweep_one_spec w r id c : swept_to [(id, c)] w r (sweep_one (w, r) (id, c)).
Proof.
  unfold swept_to, sweep_one. cbn [fst snd fmap list_fmap].
  destruct (rt_channels w !! cl_tx c) as [ch|] eqn:Hch; cbn [fst snd]; split_and!; try done.
  - intros tx Htx. cbn. rewrite lookup_insert_ne; [done|set_solver].
  - intros id' c' [= -> ->]%list_elem_of_singleton. cbn. by rewrite lookup_insert_eq, Hch.
  - intros id'. split.
    + destruct (drop c ch) eqn:Hd; [|auto].
      intros [Hid| ->%list_elem_of_singleton]%elem_of_app; [auto|]. right. exists c, ch. set_solver.
    + intros [Hid|(c' & ch' & [= -> ->]%list_elem_of_singleton & Hch' & Hd)].
      * destruct (drop c ch); set_solver.
      * rewrite Hch in Hch'. injection Hch' as <-. rewrite Hd. set_solver.
  - intros id' c' [= -> ->]%list_elem_of_singleton. by rewrite Hch.
  - intros id'. split; [auto|].
    intros [Hid|(c' & ch' & [= -> ->]%list_elem_of_singleton & Hch' & Hd)]; [done|congruence].
Qed.

Lemma sweep_loop l w r : NoDup (cl_tx <$> l.*2) → swept_to l w r (foldl sweep_one (w, r) l).
Proof.
  revert w r. induction l as [|[id c] l IH]; intros w r; cbn [fmap list_fmap foldl].
  { intros _. unfold swept_to. cbn. split_and!; try done; set_solver. }
  intros [Hc Hl]%NoDup_cons. cbn in Hc.
  assert (Hne : ∀ id' c', (id', c') ∈ l → cl_tx c' ≠ cl_tx c).
  { intros id' c' Hin Heq. apply Hc. rewrite <- Heq.
    apply list_elem_of_fmap_2, (list_elem_of_fmap_2 snd _ _ Hin). }
  destruct (sweep_one (w, r) (id, c)) as [w1 r1] eqn:Hone.
  destruct (IH w1 r1 Hl) as (Hconn & Hnext & Hother & Hin & Hr).
  pose proof (sweep_one_spec w r id c) as Hspec. rewrite Hone in Hspec.
  destruct Hspec as (Hconn1 & Hnext1 & Hother1 & Hin1 & Hr1). cbn in Hother1, Hin1, Hr1.
  assert (Hrest : ∀ id' c', (id', c') ∈ l → rt_channels w1 !! cl_tx c' = rt_channels w !! cl_tx c').
  { intros id' c' Hin'%Hne. apply Hother1. set_solver. }
  split_and!; [by rewrite Hconn|by rewrite Hnext|..].
  - intros tx [Hx Htx]%not_elem_of_cons. rewrite Hother by done. apply Hother1. set_solver.
  - intros id' c' [ [= -> ->] | Hin' ]%elem_of_cons.
    + rewrite Hother by done. apply (Hin1 id). by apply list_elem_of_singleton.
    + by rewrite (Hin _ _ Hin'), (Hrest _ _ Hin').
  - intros id'. rewrite Hr, Hr1. split.
    + intros [ [ ? | (c' & ch & [= -> ->]%list_elem_of_singleton & ?) ] | (c' & ch & Hin' & Hch & ?)];
        [by left|right; exists c, ch; split; [left|done]|].
      right. exists c', ch. rewrite <- (Hrest _ _ Hin'). split; [by right|done].
    + intros [ ? | (c' & ch & [ Heq | Hin' ]%elem_of_cons & Hch & ?)]; [auto|..].
      * injection Heq as -> ->. left. right. exists c, ch.
        split; [by apply list_elem_of_singleton|done].
      * right. exists c', ch. by rewrite (Hrest _ _ Hin').
Qed.

(** A loop whose body is [sweep_one] where the channel exists *)
Lemma sweep_agrees f l w r :
  (∀ w r id c, is_Some (rt_channels w !! cl_tx c) → f (w, r) (id, c) = sweep_one (w, r) (id, c)) →
  (∀ id c, (id, c) ∈ l → is_Some (rt_channels w !! cl_tx c)) →
  foldl f (w, r) l = foldl sweep_one (w, r) l.
Proof.
  intros Hf. revert w r. induction l as [|[id c] l IH]; intros w r Hl; [done|]. cbn [foldl].
  rewrite Hf by (apply (Hl id); left).
  destruct (sweep_one (w, r) (id, c)) as [w1 r1] eqn:Hone. apply IH. intros id' c' Hin.
  pose proof (Hl id' c' ltac:(by right)) as [ch Hch]. revert Hone. unfold sweep_one. cbn.
  destruct (rt_channels w !! cl_tx c) as [ch0|]; intros [= <- _]; cbn; [|eauto].
  rewrite lookup_insert. case_decide; eauto.
Qed.

Lemma connections_remove_clients ids w :
  rt_connections (foldl (λ w id, remove_client id w) w ids) =
    foldl (λ m id, delete id m) (rt_connections w) ids ∧
  rt_channels (foldl (λ w id, remove_client id w) w ids) = rt_channels w ∧
  rt_next_id (foldl (λ w id, remove_client id w) w ids) = rt_next_id w.
Proof. revert w. induction ids as [|id ids IH]; intros w; [done|]. apply IH. Qed.

(** A sweep decides for each connection alone. *)
Lemma sweep_spec `{ConnOrder} w :
  rt_inv w →
  let w' := sweep (conn_iter (rt_connections w)) w in
  (∀ id, rt_connections w' !! id =
    c ← rt_connections w !! id; ch ← rt_channels w !! cl_tx c;
    if drop c ch then None else Some c) ∧
  (∀ id c, rt_connections w !! id = Some c →
    rt_channels w' !! cl_tx c = swept c <$> rt_channels w !! cl_tx c) ∧
  (∀ tx, (∀ id c, rt_connections w !! id = Some c → cl_tx c ≠ tx) →
    rt_channels w' !! tx = rt_channels w !! tx).
Proof.
  intros Hw. unfold sweep. set (l := conn_iter (rt_connections w)).
  assert (Hl : ∀ id c, (id, c) ∈ l ↔ rt_connections w !! id = Some c).
  { intros id c. unfold l. by rewrite conn_iter_perm, elem_of_map_to_list. }
  assert (Htx : NoDup (cl_tx <$> l.*2)).
  { rewrite <- list_fmap_compose. apply NoDup_fmap_2_strong.
    - intros [id1 c1] [id2 c2] Hin1%Hl Hin2%Hl Heq. cbn in Heq.
      pose proof (inv_own _ Hw _ _ _ _ Hin1 Hin2 Heq) as ->. congruence.
    - unfold l. rewrite conn_iter_perm. apply NoDup_map_to_list. }
  destruct (sweep_loop l w [] Htx) as (Hconn & _ & Hother & Hin & Hr).
  destruct (foldl sweep_one (w, []) l) as [w1 r1]. cbn in Hconn, Hother, Hin, Hr. cbn zeta.
  destruct (connections_remove_clients r1 w1) as (Hc & Hch & _). rewrite Hc, Hch, Hconn.
  split_and!.
  - intros id. rewrite lookup_delete_all.
    destruct (rt_connections w !! id) as [c|] eqn:Hid; cbn; [|by case_decide].
    destruct (inv_known _ Hw _ _ Hid) as [ch Hchc]. rewrite Hchc. cbn.
    destruct (drop c ch) eqn:Hd; [apply decide_True, Hr|apply decide_False; intros Hdrop%Hr].
    + right. exists c, ch. by rewrite Hl.
    + destruct Hdrop as [Hnil|(c' & ch' & Hin'%Hl & Hch' & Hd')]; [by apply elem_of_nil in Hnil|].
      congruence.
  - intros id c Hid. by apply (Hin id), Hl.
  - intros tx Hne. apply Hother. intros (c & -> & (e & -> & He)%list_elem_of_fmap)%list_elem_of_fmap.
    destruct e as [id c]. by apply Hl, Hne in He.
Qed.
End sweep.

Lemma set_channels_same tx ch w :
  rt_channels w !! tx = Some ch → set_rt_channels (<[tx := ch]> (rt_channels w)) w = w.
Proof. intros Htx. unfold set_rt_channels. rewrite insert_id by done. by destruct w. Qed.

(** ** The heartbeat and the broadcast as sweeps *)

Section verdicts.
Context `{!JsonValue}.
Context (token_validator : string → bool).

Definition timed_out (now : Z) (c : ClientInfo) : bool :=
  (HEARTBEAT_TIMEOUT <? Z.max 0 (now - cl_last_ping c))%Z.

(** What a connection is sent at a tick *)
Definition heartbeat_message (now epoch_ms : Z) (c : ClientInfo) : option WsOutbound :=
  if timed_out now c then Some (terminal_realtime_error HeartbeatTimeout "heartbeat timeout")
  else if negb (token_validator (cl_token c)) then
    Some (terminal_realtime_error AuthExpired "token expired")
  else OutText <$> ws_to_string (ping_message epoch_ms).

(** Whether it is dropped *)
Definition heartbeat_drop (now epoch_ms : Z) (c : ClientInfo) (ch : Channel) : bool :=
  timed_out now c || negb (token_validator (cl_token c)) ||
  bool_decide (is_Some (ws_to_string (ping_message epoch_ms))) && negb (ch_open ch).

Definition broadcast_message (m : WebSocketMessage) (c : ClientInfo) : option WsOutbound :=
  OutText <$> ws_to_string m.

Definition broadcast_drop (m : WebSocketMessage) (c : ClientInfo) (ch : Channel) : bool :=
  bool_decide (is_Some (ws_to_string m)) && negb (ch_open ch).

Lemma try_send_known tx o w ch :
  rt_channels w !! tx = Some ch →
  try_send tx o w = (channel_state ch, set_rt_channels (<[tx := try_push o ch]> (rt_channels w)) w).
Proof. intros Htx. unfold try_send. by rewrite Htx. Qed.

Lemma channel_state_open ch : ch_open ch = false ↔ channel_state ch = Closed.
Proof.
  unfold channel_state. destruct (ch_open ch); cbn [negb]; [|done].
  by destruct (_ <? _).
Qed.

(** Sending a text: the connection is dropped exactly when its channel is closed. *)
Lemma send_text_sweep o (r : list Z) (id : Z) tx w ch :
  rt_channels w !! tx = Some ch →
  match try_send tx o w with
  | (Sent, w) | (Full, w) => (w, r)
  | (Closed, w) => (w, r ++ [id])
  end = (set_rt_channels (<[tx := try_push o ch]> (rt_channels w)) w,
         if negb (ch_open ch) then r ++ [id] else r).
Proof.
  intros Htx. rewrite (try_send_known _ _ _ _ Htx).
  unfold channel_state. destruct (ch_open ch); cbn [negb]; [|done]. by destruct (_ <? _).
Qed.

Lemma heartbeat_one_sweep now epoch_ms w r id c :
  is_Some (rt_channels w !! cl_tx c) →
  heartbeat_one now epoch_ms token_validator (w, r) (id, c) =
  sweep_one (heartbeat_message now epoch_ms) (heartbeat_drop now epoch_ms) (w, r) (id, c).
Proof.
  intros [ch Hch]. unfold heartbeat_one, sweep_one, swept, heartbeat_message, heartbeat_drop.
  cbn [fst snd]. rewrite Hch. unfold timed_out.
  destruct (_ <? _)%Z; cbn [orb]; [by rewrite (try_send_known _ _ _ _ Hch)|].
  destruct (negb (token_validator (cl_token c))); cbn [orb]; [by rewrite (try_send_known _ _ _ _ Hch)|].
  destruct (ws_to_string (ping_message epoch_ms)) as [text|]; cbn [fmap option_fmap option_map].
  - rewrite (send_text_sweep _ _ _ _ _ _ Hch), bool_decide_true by done. done.
  - rewrite (set_channels_same _ _ _ Hch), bool_decide_false by by intros [? ?]. done.
Qed.

Lemma heartbeat_tick_sweep `{ConnOrder} now epoch_ms w :
  rt_inv w →
  heartbeat_tick now epoch_ms token_validator w =
  sweep (heartbeat_message now epoch_ms) (heartbeat_drop now epoch_ms) (conn_iter (rt_connections w)) w.
Proof.
  intros Hw. unfold heartbeat_tick, sweep.
  rewrite (sweep_agrees (heartbeat_message now epoch_ms) (heartbeat_drop now epoch_ms));
    auto using heartbeat_one_sweep.
  intros id c. rewrite conn_iter_perm, elem_of_map_to_list. apply (inv_known _ Hw).
Qed.

Lemma broadcast_one_sweep m text w r id c :
  ws_to_string m = Some text → is_Some (rt_channels w !! cl_tx c) →
  broadcast_one text (w, r) (id, c) =
  sweep_one (broadcast_message m) (broadcast_drop m) (w, r) (id, c).
Proof.
  intros Hm [ch Hch]. unfold broadcast_one, sweep_one, swept, broadcast_message, broadcast_drop.
  cbn [fst snd]. rewrite Hch, Hm. cbn [fmap option_fmap option_map].
  by rewrite (send_text_sweep _ _ _ _ _ _ Hch), bool_decide_true.
Qed.

Lemma broadcast_all_sweep `{ConnOrder} m w :
  rt_inv w → is_Some (ws_to_string m) →
  broadcast_all m w =
  sweep (broadcast_message m) (broadcast_drop m) (conn_iter (rt_connections w)) w.
Proof.
  intros Hw [text Hm]. unfold broadcast_all, sweep. rewrite Hm.
  rewrite (sweep_agrees (broadcast_message m) (broadcast_drop m));
    eauto using broadcast_one_sweep.
  intros id c. rewrite conn_iter_perm, elem_of_map_to_list. apply (inv_known _ Hw).
Qed.
End verdicts.

Lemma sweep_inv msg drop l w : rt_inv w → rt_inv (sweep msg drop l w).
Proof.
  intros Hw. unfold sweep.
  assert (Hl : rt_inv (foldl (sweep_one msg drop) (w, []) l).1).
  { apply (foldl_inv _ (λ _ s, rt_inv s.1)); [|done]. intros [id c] _ [w0 r0] Hw0.
    unfold sweep_one. cbn. destruct (rt_channels w0 !! cl_tx c) as [ch|] eqn:Hch; [|done].
    eapply update_channel_inv; [done..|]. pose proof (inv_bounded _ Hw0 _ _ Hch) as Hok.
    unfold swept. destruct (msg c); [|done]. by apply try_push_ok. }
  destruct (foldl _ _ _) as [w1 r1]. by apply remove_clients_inv.
Qed.

(** ** Every reachable state *)

Section reachable.
Context `{!JsonValue} `{!ConnOrder}.
Context (route : Z → string → json → bool)
  (ws_from_str : string → option WebSocketMessage).

Lemma rt_step_inv w op : rt_inv w → rt_inv (rt_step route ws_from_str w op).
Proof.
  intros Hw. destruct op as [valid now token|id tx|now id text|tx ok|m|id m|valid now epoch_ms]; cbn.
  - by apply handle_socket_inv.
  - by apply remove_client_inv, close_channel_inv.
  - unfold handle_text_message, send_error_response, send_realtime_error, handle_subscribe_show_open.
    destruct (ws_from_str text) as [msg|]; [|by apply send_to_inv].
    destruct (is_blank _); [by apply send_to_inv|].
    destruct (String.eqb _ _); [by apply update_last_ping_inv|].
    destruct (String.eqb _ _); [by apply send_to_inv|].
    destruct (route _ _ _); [done|by apply send_to_inv].
  - by apply send_loop_turn_inv.
  - destruct (ws_to_string m) as [text|] eqn:Hm; [|by unfold broadcast_all; rewrite Hm].
    rewrite broadcast_all_sweep; [by apply sweep_inv|done..].
  - by apply send_to_inv.
  - rewrite heartbeat_tick_sweep; [by apply sweep_inv|done].
Qed.

Lemma rt_run_inv ops : rt_inv (rt_run route ws_from_str ops new_realtime).
Proof.
  apply (foldl_inv _ (λ _, rt_inv)); [intros; by apply rt_step_inv|]. split; cbn; set_solver.
Qed.
End reachable.

(** ** Identifiers *)

(** No call but a connection registers anything. *)
Definition shrinks (w w' : Realtime) : Prop :=
  rt_next_id w' = rt_next_id w ∧
  ∀ id, is_Some (rt_connections w' !! id) → is_Some (rt_connections w !! id).

#[global] Instance shrinks_preorder : PreOrder shrinks.
Proof.
  split; [by intros w; split|]. intros w1 w2 w3 [H1 H1'] [H2 H2']. split; [congruence|auto].
Qed.

Lemma shrinks_channels m w : shrinks w (set_rt_channels m w).
Proof. done. Qed.

Lemma shrinks_remove id w : shrinks w (remove_client id w).
Proof. split; [done|]. intros id'. cbn. rewrite lookup_delete. case_decide; [by intros [? ?]|done]. Qed.

Lemma shrinks_try_send tx o w : shrinks w (try_send tx o w).2.
Proof. unfold try_send. by destruct (rt_channels w !! tx). Qed.

Lemma shrinks_send_to `{JsonValue} id m w : shrinks w (send_to id m w).
Proof.
  unfold send_to, send_raw_to. destruct (ws_to_string m) as [text|]; [|done].
  destruct (rt_connections w !! id) as [c|]; [|done].
  pose proof (shrinks_try_send (cl_tx c) (OutText text) w) as Hs.
  destruct (try_send _ _ w) as [[] w']; cbn in Hs; [done|done|].
  by etrans; [|apply shrinks_remove].
Qed.

Lemma shrinks_ping now id w : shrinks w (update_last_ping now id w).
Proof.
  split; [done|]. intros id'. cbn. rewrite lookup_alter. case_decide; [|done].
  subst. by rewrite fmap_is_Some.
Qed.

Lemma shrinks_sweep msg drop l w : shrinks w (sweep msg drop l w).
Proof.
  unfold sweep. pose proof (foldl_inv (sweep_one msg drop) (λ _ s, shrinks w s.1) l (w, [])) as Hs.
  destruct (foldl _ (w, []) l) as [w1 r1]. cbn in Hs.
  etrans; [apply Hs; [|reflexivity]|].
  - intros [id c] _ [w0 r0] Hw0. unfold sweep_one. cbn. by destruct (rt_channels w0 !! cl_tx c).
  - split; [apply connections_remove_clients|]. destruct (connections_remove_clients r1 w1) as [-> _].
    intros id. rewrite lookup_delete_all. case_decide; [by intros [? ?]|done].
Qed.

Section identifiers.
Context `{!JsonValue} `{!ConnOrder}.
Context (route : Z → string → json → bool)
  (ws_from_str : string → option WebSocketMessage).

Notation step := (rt_step route ws_from_str).
Notation run ops := (rt_run route ws_from_str ops new_realtime).

Definition is_connect (op : RtOp) : bool :=
  match op with RtConnect _ _ _ => true | _ => false end.

Lemma step_shrinks w op : rt_inv w → is_connect op = false → shrinks w (step w op).
Proof.
  intros Hw Hop. destruct op as [valid now token|id tx|now id text|tx ok|m|id m|valid now epoch_ms]; cbn.
  - done.
  - unfold handle_socket_end. etrans; [apply shrinks_channels|apply shrinks_remove].
  - unfold handle_text_message, send_error_response, send_realtime_error, handle_subscribe_show_open.
    destruct (ws_from_str text) as [msg|]; [|apply shrinks_send_to].
    destruct (is_blank _); [apply shrinks_send_to|].
    destruct (String.eqb _ _); [apply shrinks_ping|].
    destruct (String.eqb _ _); [apply shrinks_send_to|].
    destruct (route _ _ _); [done|apply shrinks_send_to].
  - unfold send_loop_turn. destruct (rt_channels w !! tx) as [[[|] ? []]|]; try done.
    by destruct (write_frames _ _) as [? []].
  - destruct (ws_to_string m) as [text|] eqn:Hm; [|by unfold broadcast_all; rewrite Hm].
    rewrite broadcast_all_sweep by done. apply shrinks_sweep.
  - apply shrinks_send_to.
  - rewrite heartbeat_tick_sweep by done. apply shrinks_sweep.
Qed.

Definition connects (ops : list RtOp) : Z := Z.of_nat (length (filter is_connect ops)).

(** After [n] connections at most the identifiers are 1 to [n]. *)
Definition ids_below (n : Z) (w : Realtime) : Prop :=
  (1 ≤ rt_next_id w ≤ n + 1)%Z ∧
  ∀ id, is_Some (rt_connections w !! id) → (1 ≤ id < rt_next_id w)%Z.

Lemma run_ids ops :
  (connects ops < 2 ^ 64 - 1)%Z → ids_below (connects ops) (run ops).
Proof.
  induction ops as [|op ops IH] using rev_ind.
  { intros _. split; [by vm_compute|]. intros id. cbn. rewrite lookup_empty. by intros [? ?]. }
  assert (Hone : length (filter is_connect [op]) = if is_connect op then 1 else 0).
  { rewrite filter_cons, filter_nil. case_decide as Hd; by destruct (is_connect op). }
  unfold connects, rt_run in *. rewrite filter_app, length_app, Hone, foldl_app. cbn [foldl].
  pose proof (rt_run_inv route ws_from_str ops) as Hw. unfold rt_run in Hw.
  set (w := foldl step new_realtime ops) in *. clearbody w. intros Hn.
  destruct (IH ltac:(lia)) as [Hnext Hids].
  destruct (is_connect op) eqn:Hop; rewrite ?Hop in Hn.
  - destruct op as [valid now token| | | | | | ]; try done. cbn [rt_step]. unfold handle_socket.
    assert (Hsame : ids_below (Z.of_nat (length (filter is_connect ops) + 1)) w).
    { split; [lia|done]. }
    destruct token as [token|]; [|done]. destruct (negb (valid token)); [done|].
    clear Hsame. cbn. rewrite Z.mod_small by lia.
    split; cbn [rt_next_id rt_connections]; [lia|]. intros id. rewrite lookup_insert.
    case_decide; [lia|]. intros Hid%Hids. lia.
  - destruct (step_shrinks w op Hw Hop) as [Hnext' Hdom].
    split; [rewrite Hnext'; lia|]. intros id Hid%Hdom%Hids. by rewrite Hnext'.
Qed.
End identifiers.

(** ** Properties *)

Section properties.
Context `{!JsonValue} `{!ConnOrder}.
Context (route : Z → string → json → bool)
  (ws_from_str : string → option WebSocketMessage).

Notation run ops := (rt_run route ws_from_str ops new_realtime).

(** C37: In every reachable state, whatever tokens were valid when, a heartbeat tick decides for
    each connection alone and in whatever order the registry iterates: a connection that has
    been silent for more than 60 seconds, or whose token is not valid any more, is dropped and its channel is offered
    the terminal error; any other is offered a ping and dropped only if its receiver is
    gone.  An offer to a full or closed channel leaves it unchanged, and channels of no
    connection are not touched. *)
Theorem heartbeat_verdicts (ops : list RtOp) (token_validator : string → bool) (now epoch_ms : Z) :
  let w := run ops in
  let w' := heartbeat_tick now epoch_ms token_validator w in
  (∀ id, rt_connections w' !! id =
    c ← rt_connections w !! id; ch ← rt_channels w !! cl_tx c;
    if heartbeat_drop token_validator now epoch_ms c ch then None else Some c) ∧
  (∀ id c, rt_connections w !! id = Some c →
    rt_channels w' !! cl_tx c =
      swept (heartbeat_message token_validator now epoch_ms) c <$> rt_channels w !! cl_tx c) ∧
  (∀ tx, (∀ id c, rt_connections w !! id = Some c → cl_tx c ≠ tx) →
    rt_channels w' !! tx = rt_channels w !! tx).
Proof.
  intros w w'. pose proof (rt_run_inv route ws_from_str ops) as Hw.
  unfold w'. rewrite heartbeat_tick_sweep by done. by apply sweep_spec.
Qed.

(** A broadcast offers its text once to every connection and drops those whose receiver is
    gone; a full channel loses the message and keeps the connection. *)
Lemma broadcast_verdicts (ops : list RtOp) (m : WebSocketMessage) :
  is_Some (ws_to_string m) →
  let w := run ops in
  let w' := broadcast_all m w in
  (∀ id, rt_connections w' !! id =
    c ← rt_connections w !! id; ch ← rt_channels w !! cl_tx c;
    if broadcast_drop m c ch then None else Some c) ∧
  (∀ id c, rt_connections w !! id = Some c →
    rt_channels w' !! cl_tx c = swept (broadcast_message m) c <$> rt_channels w !! cl_tx c) ∧
  (∀ tx, (∀ id c, rt_connections w !! id = Some c → cl_tx c ≠ tx) →
    rt_channels w' !! tx = rt_channels w !! tx).
Proof.
  intros Hm w w'. pose proof (rt_run_inv route ws_from_str ops) as Hw.
  unfold w'. rewrite broadcast_all_sweep by done. by apply sweep_spec.
Qed.

(** Before the counter of identifiers wraps around, that is for fewer than 2^64 - 1
    attempts to connect, an accepted connection gets an identifier and a channel that no
    connection has: it is entered with the token and the time of the call and an empty
    open channel, and every other connection and channel stays as it is. *)
Theorem connection_ids_fresh (ops : list RtOp) (token_validator : string → bool) (now : Z)
    (token : string) :
  (connects ops < 2 ^ 64 - 1)%Z → token_validator token = true →
  let w := run ops in
  ∃ id tx w',
    handle_socket token_validator now (Some token) w = (inr (id, tx), w') ∧
    (1 ≤ id < 2 ^ 64)%Z ∧ rt_connections w !! id = None ∧ rt_channels w !! tx = None ∧
    (∀ id' c, rt_connections w !! id' = Some c → cl_tx c ≠ tx) ∧
    rt_connections w' = <[id := mkClientInfo token now tx]> (rt_connections w) ∧
    rt_channels w' = <[tx := mkChannel [] PER_CONNECTION_BUFFER true]> (rt_channels w).
Proof.
  intros Hops Htoken w. destruct (run_ids route ws_from_str ops Hops) as [Hnext Hids].
  pose proof (rt_run_inv route ws_from_str ops) as Hw. fold w in Hnext, Hids, Hw.
  unfold handle_socket. rewrite Htoken. cbn [negb]. cbv zeta.
  set (tx := fresh (dom (rt_channels w))).
  assert (Htx : rt_channels w !! tx = None) by apply not_elem_of_dom, is_fresh.
  exists (rt_next_id w), tx. eexists. split; [reflexivity|]. cbn. split_and!; [lia|lia| |done| |done|done].
  - apply eq_None_not_Some. intros Hid%Hids. lia.
  - intros id c Hc Heq. destruct (inv_known _ Hw _ _ Hc). congruence.
Qed.

(** A queue never holds more than 64 messages. *)
Lemma queues_bounded ops tx ch :
  rt_channels (run ops) !! tx = Some ch → length (ch_queue ch) ≤ PER_CONNECTION_BUFFER.
Proof.
  intros Hch. by apply (inv_bounded _ (rt_run_inv route ws_from_str ops) _ _ Hch).
Qed.

(** Of what a client sends, only [pong] counts against the timeout. *)
Lemma only_pong_refreshes now id text w :
  (∀ m, ws_from_str text = Some m → ws_name m ≠ "pong") →
  ∀ id' c, rt_connections (handle_text_message route ws_from_str now id text w) !! id' = Some c →
    rt_connections w !! id' = Some c.
Proof.
  intros Htext id' c. unfold handle_text_message, send_error_response, send_realtime_error,
    handle_subscribe_show_open.
  assert (Hsend : ∀ m, rt_connections (send_to id m w) !! id' = Some c →
                       rt_connections w !! id' = Some c).
  { intros m. unfold send_to, send_raw_to. destruct (ws_to_string m) as [t|]; [|done].
    destruct (rt_connections w !! id) as [c'|]; [|done].
    unfold try_send. destruct (rt_channels w !! cl_tx c') as [ch|]; [destruct (channel_state ch)|];
      cbn; [done|done|..]; by intros [_ Hc]%lookup_delete_Some. }
  destruct (ws_from_str text) as [m|]; [|apply Hsend]. destruct (is_blank _); [apply Hsend|].
  destruct (String.eqb_spec (ws_name m) "pong") as [Hpong|_]; [by destruct (Htext m)|].
  destruct (String.eqb _ _); [apply Hsend|]. destruct (route _ _ _); [done|apply Hsend].
Qed.
End properties.

(** ** Concrete runs *)

Module RealtimeDemo.
#[local] Existing Instance plain_values.
#[local] Existing Instance plain_conn_order.

Definition valid (token : string) : bool := negb (String.eqb token "revoked" || String.eqb token "").
Definition valid_before (token : string) : bool := negb (String.eqb token "").
Definition parse (text : string) : option WebSocketMessage :=
  if String.eqb text "?" then None else Some (mkWebSocketMessage text json_null).
Definition hello : WebSocketMessage := mkWebSocketMessage "hello" json_null.

(** Three connections: the first silent, the second with a token revoked later, the third
    answers its ping. *)
Definition three : list RtOp :=
  [RtConnect valid_before 0 (Some "a"); RtConnect valid_before 0 (Some "revoked");
   RtConnect valid_before 0 (Some "c"); RtConnect valid_before 0 None;
   RtText (50 * 10 ^ 9) 3 "pong"].

Definition three_state : Realtime := rt_run noop_route parse three new_realtime.

Example tick_drops_two :
  let w := heartbeat_tick (61 * 10 ^ 9) 1700000000000 valid three_state in
  (map_to_list (rt_connections w), (λ ch, length (ch_queue ch)) <$> (map_to_list (rt_channels w)).*2)
  = ([(3%Z, mkClientInfo "c" (50 * 10 ^ 9) 2)], [1; 1; 1]).
Proof. vm_compute. reflexivity. Qed.

(** The connection that is dropped while its queue is full is not sent a close frame: its
    send loop writes the 64 texts and ends, and what it sends is still routed. *)
Definition stuck : Realtime :=
  rt_run noop_route parse
    (RtConnect valid_before 0 (Some "revoked") :: replicate 64 (RtBroadcast hello)) new_realtime.

Definition drain_frames (n tx : nat) (w : Realtime) : list Frame :=
  (Nat.iter n (λ s, let '(l, w) := send_loop_turn (λ _, true) tx s.2 in (s.1 ++ l, w)) ([], w)).1.

Definition is_close (f : Frame) : bool := match f with FrameClose _ _ => true | FrameText _ => false end.

Example dropped_without_close :
  let w := heartbeat_tick 1 1700000000000 valid stuck in
  client_count w = 0 ∧ length (drain_frames 64 0 w) = 64 ∧
  existsb is_close (drain_frames 64 0 w) = false ∧
  handle_text_message (λ _ _ _, true) parse 2 1 "work" w = w.
Proof. vm_compute. split_and!; reflexivity. Qed.

(** The second connection is dropped at once when its token has been revoked; the others stay. *)
Example heartbeat_verdicts_witness :
  let w := heartbeat_tick 1 1700000000000 valid three_state in
  rt_connections w !! 2%Z = None ∧ is_Some (rt_connections w !! 1%Z).
Proof.
  destruct (heartbeat_verdicts noop_route parse three valid 1 1700000000000) as [Hconn _].
  split; [refine (eq_trans (Hconn 2%Z) _)|exists (mkClientInfo "a" 0 0); refine (eq_trans (Hconn 1%Z) _)];
    vm_compute; reflexivity.
Defined.

Example connection_ids_fresh_witness :
  (connects three < 2 ^ 64 - 1)%Z ∧ valid "c" = true ∧
  ∃ id tx w', handle_socket valid 9 (Some "c") (rt_run noop_route parse three new_realtime)
    = (inr (id, tx), w') ∧ (1 ≤ id < 2 ^ 64)%Z.
Proof.
  assert (H1 : (connects three < 2 ^ 64 - 1)%Z) by (by vm_compute).
  split; [exact H1|]. split; [reflexivity|].
  destruct (connection_ids_fresh noop_route parse three valid 9 "c" H1 eq_refl)
    as (id & tx & w' & Hw & Hid & _).
  exists id, tx, w'. exact (conj Hw Hid).
Defined.
End RealtimeDemo.
