(* ===== verification/Permissions.v ===== *)
(** * Agents: permission requests of ACP agents

    Models [crates/aionui-ai-agent/src/manager/acp/permission_router.rs], the confirmation
    data of [protocol/events/{permission,translate}.rs], the answer that
    [protocol/acp.rs] gives back, and how [manager/acp/agent.rs] uses the router.

    A request comes with the sender of a [oneshot] channel.  The senders are numbered in
    the order of the requests; a send is recorded with its number, and fails when the
    receiver is gone.  The loop of [start] publishes a request after it has released the
    lock, so that receiving and publishing are two steps. *)
From S2P Require Import Prelude Text Storage.

(** ** The request, as the ACP library has it: the fields that are read *)

Inductive SdkPermissionOptionKind := AllowOnce | AllowAlways | RejectOnce | RejectAlways | UnknownOptionKind.

#[global] Instance SdkPermissionOptionKind_eq_dec : EqDecision SdkPermissionOptionKind.
Proof. solve_decision. Defined.

Inductive SdkToolKind :=
  | ToolRead | ToolEdit | ToolDelete | ToolMove | ToolSearch | ToolExecute | ToolThink
  | ToolFetch | ToolSwitchMode | ToolOther.

Record PermissionOption := mkPermissionOption {
  po_option_id : string;
  po_name : string;
  po_kind : SdkPermissionOptionKind;
}.

Section permissions.
Context `{!JsonValue}.

Record RequestPermissionRequest := mkRequestPermissionRequest {
  rp_session_id : string;
  rp_tool_call_id : string;
  rp_title : option string;
  rp_kind : option SdkToolKind;
  rp_raw_input : option json;
  rp_options : list PermissionOption;
}.

(** ** Event data; status, output, content, locations and metadata are only copied *)

Inductive AcpToolCallKind := AcpRead | AcpEdit | AcpExecute.
Inductive AcpPermissionOptionKind := AcpAllowOnce | AcpAllowAlways | AcpRejectOnce | AcpRejectAlways.

Record AcpPermissionToolCall := mkAcpPermissionToolCall {
  tc_tool_call_id : string;
  tc_title : option string;
  tc_kind : option AcpToolCallKind;
  tc_raw_input : option json;
}.

Record AcpPermissionOptionData := mkAcpPermissionOptionData {
  od_option_id : string;
  od_name : string;
  od_kind : AcpPermissionOptionKind;
}.

Record AcpPermissionRequestData := mkAcpPermissionRequestData {
  rd_session_id : string;
  rd_tool_call : AcpPermissionToolCall;
  rd_options : list AcpPermissionOptionData;
}.

Record ConfirmationOption := mkConfirmationOption {
  co_label : string;
  co_value : json;
  co_params : option (gmap string string);
}.

Record Confirmation := mkConfirmation {
  cf_id : string;
  cf_call_id : string;
  cf_title : option string;
  cf_action : option string;
  cf_description : string;
  cf_command_type : option string;
  cf_options : list ConfirmationOption;
}.

Inductive AcpPermissionEventData :=
  | EventRequest (d : AcpPermissionRequestData)
  | EventConfirmation (c : Confirmation).

Definition map_sdk_tool_kind (k : SdkToolKind) : AcpToolCallKind :=
  match k with
  | ToolRead | ToolSearch => AcpRead
  | ToolEdit | ToolDelete | ToolMove => AcpEdit
  | ToolExecute | ToolThink | ToolFetch | ToolSwitchMode | ToolOther => AcpExecute
  end.

Definition map_sdk_permission_option_kind (k : SdkPermissionOptionKind) : AcpPermissionOptionKind :=
  match k with
  | AllowOnce => AcpAllowOnce
  | AllowAlways => AcpAllowAlways
  | RejectOnce => AcpRejectOnce
  | RejectAlways => AcpRejectAlways
  | UnknownOptionKind => AcpRejectOnce
  end.

Definition map_permission_tool_call (r : RequestPermissionRequest) : AcpPermissionToolCall :=
  mkAcpPermissionToolCall (rp_tool_call_id r) (rp_title r) (map_sdk_tool_kind <$> rp_kind r)
    (rp_raw_input r).

Definition map_permission_option (o : PermissionOption) : AcpPermissionOptionData :=
  mkAcpPermissionOptionData (po_option_id o) (po_name o) (map_sdk_permission_option_kind (po_kind o)).

Definition permission_request_to_event_data (r : RequestPermissionRequest) : AcpPermissionEventData :=
  EventRequest (mkAcpPermissionRequestData (rp_session_id r) (map_permission_tool_call r)
    (map_permission_option <$> rp_options r)).

Definition command_type (k : AcpToolCallKind) : string :=
  match k with AcpRead => "read" | AcpEdit => "edit" | AcpExecute => "execute" end.

Definition to_confirmation (d : AcpPermissionRequestData) : Confirmation :=
  let tc := rd_tool_call d in
  mkConfirmation (tc_tool_call_id tc) (tc_tool_call_id tc) (tc_title tc) None
    match tc_raw_input tc ≫= λ raw, json_get "description" raw ≫= json_as_str with
    | Some s => s
    | None => match tc_raw_input tc with Some raw => json_display raw | None => EmptyString end
    end
    (command_type <$> tc_kind tc)
    ((λ o, mkConfirmationOption (od_name o) (json_string (od_option_id o)) None) <$> rd_options d).

Definition as_confirmation (d : AcpPermissionEventData) : option Confirmation :=
  match d with
  | EventConfirmation c => Some c
  | EventRequest r => Some (to_confirmation r)
  end.

(** ** Automatic approval *)

Definition TEAM_MCP_SERVER_NAME : string := "aionui-team".
Definition AUTO_APPROVE_MCP_SERVERS : list string := [TEAM_MCP_SERVER_NAME].

Definition extract_mcp_server_from_raw_input (r : RequestPermissionRequest) : option string :=
  raw ← rp_raw_input r;
  server_name ← json_get "server_name" raw ≫= json_as_str;
  non_empty server_name.

Definition extract_mcp_server_from_prefixed_title (title : string) : option string :=
  rest ← strip_prefix "mcp__" title;
  '(server_name, tool_name) ← split_once_str "__" rest;
  if bool_decide (server_name = EmptyString) || bool_decide (tool_name = EmptyString) then None
  else Some server_name.

Definition extract_mcp_server_name (r : RequestPermissionRequest) : option string :=
  match extract_mcp_server_from_raw_input r with
  | Some s => Some s
  | None => rp_title r ≫= extract_mcp_server_from_prefixed_title
  end.

Definition is_kind (k : SdkPermissionOptionKind) (o : PermissionOption) : bool :=
  bool_decide (po_kind o = k).

Definition select_allow_option_id (r : RequestPermissionRequest) : option string :=
  po_option_id <$>
    match List.find (is_kind AllowAlways) (rp_options r) with
    | Some o => Some o
    | None => List.find (is_kind AllowOnce) (rp_options r)
    end.

Definition auto_approve_option_id (r : RequestPermissionRequest) : option string :=
  server_name ← extract_mcp_server_name r;
  if negb (bool_decide (server_name ∈ AUTO_APPROVE_MCP_SERVERS)) then None
  else select_allow_option_id r.

(** ** The router *)

Inductive PermissionDecision := Selected (option_id : string) | Cancelled.

#[global] Instance PermissionDecision_eq_dec : EqDecision PermissionDecision.
Proof. solve_decision. Defined.

Record PendingPermission := mkPendingPermission {
  pp_responder : nat;
  pp_confirmation : Confirmation;
}.

(** [PermissionRouter]; the senders that have been used, with what they sent; the
    receivers that are gone; where the loop of [start] stands; and the requests and events
    so far *)
Record Permissions := mkPermissions {
  pm_pending : gmap string PendingPermission;
  pm_closing : bool;
  pm_sent : list (nat * PermissionDecision);
  pm_gone : gset nat;
  pm_inflight : option (string * AcpPermissionEventData);
  pm_received : list RequestPermissionRequest;
  pm_events : list AcpPermissionEventData;
}.

Definition new_permissions : Permissions := mkPermissions ∅ false [] ∅ None [] [].

Definition set_pending (m : gmap string PendingPermission) (w : Permissions) : Permissions :=
  mkPermissions m (pm_closing w) (pm_sent w) (pm_gone w) (pm_inflight w) (pm_received w) (pm_events w).
Definition set_inflight (i : option (string * AcpPermissionEventData)) (w : Permissions) : Permissions :=
  mkPermissions (pm_pending w) (pm_closing w) (pm_sent w) (pm_gone w) i (pm_received w) (pm_events w).

(** [responder.send(decision)], and whether it succeeds *)
Definition respond (responder : nat) (d : PermissionDecision) (w : Permissions) : bool * Permissions :=
  (negb (bool_decide (responder ∈ pm_gone w)),
   mkPermissions (pm_pending w) (pm_closing w) (pm_sent w ++ [(responder, d)]) (pm_gone w)
     (pm_inflight w) (pm_received w) (pm_events w)).

(** [pending.remove(call_id)] and, if there was one, [send(Cancelled)] *)
Definition cancel_pending (call_id : string) (w : Permissions) : Permissions :=
  match pm_pending w !! call_id with
  | None => w
  | Some p => (respond (pp_responder p) Cancelled (set_pending (delete call_id (pm_pending w)) w)).2
  end.

(** The loop of [start], up to the release of the lock; a panic is [None]. *)
Definition receive_request (r : RequestPermissionRequest) (w : Permissions) : option Permissions :=
  let responder := length (pm_received w) in
  let w := mkPermissions (pm_pending w) (pm_closing w) (pm_sent w) (pm_gone w) (pm_inflight w)
             (pm_received w ++ [r]) (pm_events w) in
  match auto_approve_option_id r with
  | Some option_id => Some (respond responder (Selected option_id) w).2
  | None =>
      let event := permission_request_to_event_data r in
      confirmation ← as_confirmation event;
      let call_id := rp_tool_call_id r in
      let w := match pm_pending w !! call_id with
               | Some previous => (respond (pp_responder previous) Cancelled w).2
               | None => w
               end in
      let w := set_pending (<[call_id := mkPendingPermission responder confirmation]> (pm_pending w)) w in
      Some (set_inflight (Some (call_id, event)) w)
  end.

(** The rest of the body: sending an event fails when nobody is subscribed. *)
Definition publish_request (subscribed : bool) (w : Permissions) : Permissions :=
  match pm_inflight w with
  | None => w
  | Some (call_id, event) =>
      let w := set_inflight None w in
      if subscribed then
        mkPermissions (pm_pending w) (pm_closing w) (pm_sent w) (pm_gone w) (pm_inflight w)
          (pm_received w) (pm_events w ++ [event])
      else cancel_pending call_id w
  end.

Definition get_confirmations `{HashOrder} (w : Permissions) : list Confirmation :=
  pp_confirmation <$> hash_values (pm_pending w).

Inductive AgentError := BadRequest (message : string).

Definition confirm (call_id option_id : string) (w : Permissions) : result unit AgentError * Permissions :=
  match pm_pending w !! call_id with
  | None => (Err (BadRequest ("Pending ACP permission not found: " +:+ call_id)), w)
  | Some p =>
      let w := set_pending (delete call_id (pm_pending w)) w in
      match respond (pp_responder p) (Selected option_id) w with
      | (true, w) => (Ok tt, w)
      | (false, w) => (Err (BadRequest ("Pending ACP permission expired: " +:+ call_id)), w)
      end
  end.

Definition cancel_all `{HashOrder} (w : Permissions) : Permissions :=
  foldl (λ w e, (respond (pp_responder e.2) Cancelled w).2) (set_pending ∅ w) (hash_iter (pm_pending w)).

Definition is_closing (w : Permissions) : bool := pm_closing w.

Definition set_closing (w : Permissions) : Permissions :=
  mkPermissions (pm_pending w) true (pm_sent w) (pm_gone w) (pm_inflight w) (pm_received w) (pm_events w).

(** ** The callers *)

(** [confirm_option_id] of [agent.rs] *)
Definition confirm_option_id (data : json) : option string :=
  match json_as_str data with
  | Some v => Some v
  | None =>
      match json_get "option_id" data with
      | Some v => json_as_str v
      | None =>
          match json_get "optionId" data with
          | Some v => json_as_str v
          | None => json_get "value" data ≫= json_as_str
          end
      end
  end.

(** [AcpAgentManager::confirm] *)
Definition agent_confirm (call_id : string) (data : json) (w : Permissions) :
    result unit AgentError * Permissions :=
  match confirm_option_id data with
  | None => (Err (BadRequest "ACP confirmation requires an option_id string"), w)
  | Some option_id => confirm call_id option_id w
  end.

(** [AcpAgentManager::kill], as far as the router is concerned *)
Definition agent_kill `{HashOrder} (w : Permissions) : Permissions := cancel_all (set_closing w).

(** [RequestPermissionOutcome] of [handle_permission_request]: [None] stands for a sender
    dropped without a send. *)
Inductive RequestPermissionOutcome := OutcomeSelected (option_id : string) | OutcomeCancelled.

Definition permission_outcome (d : option PermissionDecision) : RequestPermissionOutcome :=
  match d with
  | Some (Selected option_id) => OutcomeSelected option_id
  | Some Cancelled | None => OutcomeCancelled
  end.

(** ** Runs *)

Inductive PermOp :=
  | PmReceive (r : RequestPermissionRequest)
  | PmPublish (subscribed : bool)
  | PmConfirm (call_id : string) (data : json)
  | PmCancel
  | PmKill
  | PmReceiverGone (responder : nat).

(** The loop receives the next request when it has published the last one. *)
Definition pm_step `{HashOrder} (w : Permissions) (op : PermOp) : option Permissions :=
  match op with
  | PmReceive r => match pm_inflight w with Some _ => Some w | None => receive_request r w end
  | PmPublish subscribed => Some (publish_request subscribed w)
  | PmConfirm call_id data => Some (agent_confirm call_id data w).2
  | PmCancel => Some (cancel_all w)
  | PmKill => Some (agent_kill w)
  | PmReceiverGone responder =>
      Some (mkPermissions (pm_pending w) (pm_closing w) (pm_sent w) ({[responder]} ∪ pm_gone w)
              (pm_inflight w) (pm_received w) (pm_events w))
  end.

Definition pm_run `{HashOrder} (ops : list PermOp) (w : Permissions) : option Permissions :=
  for_each pm_step w ops.
End permissions.
