(* ===== verification/PermissionsProps.v ===== *)
(** * Agents: properties of the permission router

    Every request is answered once or pending, nothing is allowed that the user or the
    rule for the tools of the team did not allow, and what that rule is. *)
From Stdlib Require Import Ascii.
From S2P Require Import Prelude Text Storage Permissions.

Section properties.
Context `{!JsonValue} `{!HashOrder}.
Implicit Types (m : gmap string PendingPermission) (w : Permissions) (r : RequestPermissionRequest).

(** ** Senders *)

(** The senders a table of pending requests holds *)
Definition responders m : list nat := pp_responder <$> (map_to_list m).*2.

Lemma responders_insert k p m : responders (<[k := p]> m) ≡ₚ pp_responder p :: responders (delete k m).
Proof.
  unfold responders. rewrite <- (insert_delete_eq m k p).
  by rewrite (map_to_list_insert (delete k m) k p (lookup_delete_eq _ _)).
Qed.

Lemma responders_delete k p m :
  m !! k = Some p → responders m ≡ₚ pp_responder p :: responders (delete k m).
Proof. intros Hk. by rewrite <- responders_insert, insert_id. Qed.

(** Everything received is answered or pending, once. *)
Definition pm_settled (w : Permissions) : Prop :=
  seq 0 (length (pm_received w)) ≡ₚ (pm_sent w).*1 ++ responders (pm_pending w).

(** A pending entry belongs to a request with its call id, and shows it. *)
Definition pending_of (w : Permissions) (id : string) (p : PendingPermission) : Prop :=
  ∃ r, pm_received w !! pp_responder p = Some r ∧ rp_tool_call_id r = id ∧
    Some (pp_confirmation p) = as_confirmation (permission_request_to_event_data r).

Definition pm_inv (w : Permissions) : Prop :=
  pm_settled w ∧ ∀ id p, pm_pending w !! id = Some p → pending_of w id p.

Lemma pm_inv_new : pm_inv new_permissions.
Proof.
  split; [|intros id p; cbn; by rewrite lookup_empty].
  unfold pm_settled, responders. cbn. by rewrite map_to_list_empty.
Qed.

(** Answering a pending request and forgetting it *)
Lemma settle_pending id p d w :
  pm_inv w → pm_pending w !! id = Some p →
  pm_inv (respond (pp_responder p) d (set_pending (delete id (pm_pending w)) w)).2.
Proof.
  intros [Hs Hp] Hid. split.
  - unfold pm_settled in *. cbn. rewrite Hs, (responders_delete _ _ _ Hid), fmap_app, <- app_assoc. done.
  - intros id' p'. cbn. intros [_ Hid']%lookup_delete_Some. by apply Hp in Hid'.
Qed.

Lemma cancel_pending_inv id w : pm_inv w → pm_inv (cancel_pending id w).
Proof.
  intros Hw. unfold cancel_pending. destruct (pm_pending w !! id) eqn:Hid; [|done].
  by apply settle_pending.
Qed.

Lemma confirm_inv id o w : pm_inv w → pm_inv (confirm id o w).2.
Proof.
  intros Hw. unfold confirm. destruct (pm_pending w !! id) as [p|] eqn:Hid; [|done].
  pose proof (settle_pending id p (Selected o) w Hw Hid) as Hw'.
  by destruct (respond _ _ _) as [[] w'].
Qed.

Lemma cancel_loop l w :
  foldl (λ w (e : string * PendingPermission), (respond (pp_responder e.2) Cancelled w).2) w l =
  mkPermissions (pm_pending w) (pm_closing w)
    (pm_sent w ++ ((λ e, (pp_responder e.2, Cancelled)) <$> l)) (pm_gone w)
    (pm_inflight w) (pm_received w) (pm_events w).
Proof.
  revert w. induction l as [|e l IH]; intros w; cbn [foldl fmap list_fmap].
  - rewrite app_nil_r. by destruct w.
  - rewrite IH. cbn. by rewrite <- app_assoc.
Qed.

Lemma cancel_all_inv w : pm_inv w → pm_inv (cancel_all w).
Proof.
  intros [Hs _]. unfold cancel_all. rewrite cancel_loop. split; [|intros id p; cbn; by rewrite lookup_empty].
  unfold pm_settled in *. cbn. rewrite Hs, fmap_app, <- list_fmap_compose. unfold responders at 2.
  rewrite map_to_list_empty, app_nil_r. f_equiv. unfold responders.
  by rewrite <- list_fmap_compose, (hash_iter_perm (pm_pending w)).
Qed.

Lemma receive_request_total r w : is_Some (receive_request r w).
Proof. unfold receive_request. by destruct (auto_approve_option_id r); cbn; eexists. Qed.

Lemma receive_request_inv r w w' : receive_request r w = Some w' → pm_inv w → pm_inv w'.
Proof.
  intros Hr [Hs Hp]. unfold receive_request in Hr.
  assert (Hold : ∀ id p, pm_pending w !! id = Some p →
    ∃ r', (pm_received w ++ [r]) !! pp_responder p = Some r' ∧ rp_tool_call_id r' = id ∧
      Some (pp_confirmation p) = as_confirmation (permission_request_to_event_data r')).
  { intros id p (r' & Hr' & Hid & Hc)%Hp. exists r'. by rewrite (lookup_app_l_Some _ _ _ _ Hr'). }
  destruct (auto_approve_option_id r) as [o|]; cbn in Hr; apply (inj Some) in Hr; subst w'.
  - split; [|exact Hold]. unfold pm_settled in *. cbn.
    rewrite length_app, seq_app, Hs, fmap_app. cbn.
    rewrite <- !app_assoc. f_equiv. apply Permutation_app_comm.
  - split.
    + unfold pm_settled in *.
      destruct (pm_pending w !! rp_tool_call_id r) as [q|] eqn:Hq; cbn;
        rewrite length_app, seq_app, Hs; cbn; rewrite responders_insert; cbn.
      * rewrite (responders_delete _ _ _ Hq), fmap_app. cbn. rewrite <- !app_assoc. f_equiv. cbn.
        f_equiv. by rewrite Permutation_app_comm.
      * rewrite delete_id, <- app_assoc by done. f_equiv. by rewrite Permutation_app_comm.
    + intros id p. unfold pending_of.
      destruct (pm_pending w !! rp_tool_call_id r); cbn;
        (rewrite lookup_insert; case_decide; [|apply Hold]); intros [= <-]; cbn;
        exists r; by rewrite lookup_app_r, Nat.sub_diag by done.
Qed.

(** ** Runs *)

Lemma publish_request_inv b w : pm_inv w → pm_inv (publish_request b w).
Proof.
  intros Hw. unfold publish_request. destruct (pm_inflight w) as [[id event]|]; [|done].
  destruct b; [done|]. by apply cancel_pending_inv.
Qed.

Lemma agent_confirm_inv id data w : pm_inv w → pm_inv (agent_confirm id data w).2.
Proof.
  intros Hw. unfold agent_confirm. destruct (confirm_option_id data); [by apply confirm_inv|done].
Qed.

Lemma pm_step_inv op w : pm_inv w → ∃ w', pm_step w op = Some w' ∧ pm_inv w'.
Proof.
  intros Hw. destruct op as [r|b|id data| | |n]; cbn.
  - destruct (pm_inflight w); [by eexists|]. destruct (receive_request_total r w) as [w' Hw'].
    exists w'. split; [done|]. by eapply receive_request_inv.
  - eexists. split; [done|]. by apply publish_request_inv.
  - eexists. split; [done|]. by apply agent_confirm_inv.
  - eexists. split; [done|]. by apply cancel_all_inv.
  - eexists. split; [done|]. by apply cancel_all_inv.
  - eexists. split; [done|]. exact Hw.
Qed.

Lemma pm_run_inv ops w : pm_inv w → ∃ w', pm_run ops w = Some w' ∧ pm_inv w'.
Proof.
  intros Hw. apply (for_each_inv pm_step (λ _, pm_inv)); [|done].
  intros op _ w0 Hw0. by apply pm_step_inv.
Qed.

(** ** Why something was selected *)

(** Senders are used for what [Q] allows. *)
Definition sent_ok (Q : nat → PermissionDecision → Prop) (w : Permissions) : Prop :=
  ∀ n d, (n, d) ∈ pm_sent w → Q n d.

Lemma respond_sent n d w : pm_sent (respond n d w).2 = pm_sent w ++ [(n, d)].
Proof. done. Qed.

(** What a step sends, and what it keeps of the requests *)
Lemma step_sends op w w' :
  pm_inv w → pm_step w op = Some w' →
  (∀ n r, pm_received w !! n = Some r → pm_received w' !! n = Some r) ∧
  ∀ n o, (n, Selected o) ∈ pm_sent w' → (n, Selected o) ∈ pm_sent w ∨
    ∃ r, pm_received w' !! n = Some r ∧
      (auto_approve_option_id r = Some o ∨
       ∃ data, op = PmConfirm (rp_tool_call_id r) data ∧ confirm_option_id data = Some o).
Proof.
  intros [_ Hpend] Hop.
  assert (Hcancel : ∀ l, (∀ n o, (n, Selected o) ∈ pm_sent w ++
    ((λ e : string * PendingPermission, (pp_responder e.2, Cancelled)) <$> l) → (n, Selected o) ∈ pm_sent w)).
  { intros l n o [Hin|(e & Heq & _)%list_elem_of_fmap]%elem_of_app; [done|congruence]. }
  destruct op as [r|b|id data| | |n]; cbn in Hop.
  - destruct (pm_inflight w) as [i|]; [injection Hop as <-; auto|]. unfold receive_request in Hop.
    destruct (auto_approve_option_id r) as [o|] eqn:Hauto; cbn in Hop; apply (inj Some) in Hop; subst w'.
    + split; cbn; [intros n r' Hr; by apply lookup_app_l_Some|].
      intros n o' [Hin|Heq%list_elem_of_singleton]%elem_of_app; [auto|]. injection Heq as -> ->.
      right. exists r. split; [by rewrite lookup_app_r, Nat.sub_diag|auto].
    + destruct (pm_pending w !! rp_tool_call_id r) as [q|]; cbn;
        (split; [intros n r' Hr; by apply lookup_app_l_Some|]); [|auto].
      intros n o' [Hin|Heq%list_elem_of_singleton]%elem_of_app; [auto|discriminate].
  - injection Hop as <-. unfold publish_request, cancel_pending.
    destruct (pm_inflight w) as [[id event]|]; [|auto]. destruct b; [by auto|]. cbn.
    destruct (pm_pending w !! id) as [p|]; [|by auto]. cbn. split; [done|].
    intros n o [Hin|Heq%list_elem_of_singleton]%elem_of_app; [auto|discriminate].
  - injection Hop as <-. unfold agent_confirm, confirm.
    destruct (confirm_option_id data) as [o|] eqn:Hdata; [|auto].
    destruct (pm_pending w !! id) as [p|] eqn:Hid; [|auto]. cbn.
    destruct (negb _); cbn; (split; [done|]);
      intros n o' [Hin|Heq%list_elem_of_singleton]%elem_of_app; auto; injection Heq as -> ->; right;
      destruct (Hpend _ _ Hid) as (r & Hr & <- & _); exists r; (split; [done|]); right; by exists data.
  - injection Hop as <-. unfold cancel_all. rewrite cancel_loop. cbn. eauto.
  - injection Hop as <-. unfold agent_kill, cancel_all. rewrite cancel_loop. cbn. eauto.
  - injection Hop as <-. cbn. auto.
Qed.

Definition selected_by (ops : list PermOp) (w : Permissions) (n : nat) (o : string) : Prop :=
  ∃ r, pm_received w !! n = Some r ∧
    (auto_approve_option_id r = Some o ∨
     ∃ data, PmConfirm (rp_tool_call_id r) data ∈ ops ∧ confirm_option_id data = Some o).

Lemma run_selected ops ops0 w w' :
  pm_inv w → (∀ n o, (n, Selected o) ∈ pm_sent w → selected_by ops0 w n o) →
  pm_run ops w = Some w' →
  ∀ n o, (n, Selected o) ∈ pm_sent w' → selected_by (ops0 ++ ops) w' n o.
Proof.
  revert ops0 w. induction ops as [|op ops IH]; intros ops0 w Hw Hsel.
  { intros [= <-]. rewrite app_nil_r. done. }
  unfold pm_run. cbn. destruct (pm_step_inv op w Hw) as (w1 & Hop & Hw1). rewrite Hop. cbn.
  destruct (step_sends op w w1 Hw Hop) as [Hkeep Hsent].
  intros Hrun n o Hin. rewrite cons_middle, app_assoc. apply (IH (ops0 ++ [op]) w1); [done| |done..].
  intros n' o' [Hold|(r & Hr & Hwhy)]%Hsent.
  - destruct (Hsel _ _ Hold) as (r & Hr & Hwhy). exists r. split; [by apply Hkeep|].
    set_solver.
  - exists r. split; [done|]. destruct Hwhy as [?|(data & -> & ?)]; [by left|]. right. exists data. set_solver.
Qed.

(** ** Automatic approval *)

Lemma prefixed_title_iff title server :
  no_char "_"%char server = true → server ≠ EmptyString →
  extract_mcp_server_from_prefixed_title title = Some server ↔
  ∃ tool, tool ≠ EmptyString ∧ title = "mcp__" +:+ server +:+ "__" +:+ tool.
Proof.
  intros Hserver Hne. unfold extract_mcp_server_from_prefixed_title. split.
  - destruct (strip_prefix "mcp__" title) as [rest|] eqn:Hrest; [|done]. cbn.
    destruct (split_once_str "__" rest) as [[x y]|] eqn:Hsplit; [|done]. cbn.
    destruct (_ || _) eqn:Hempty; [done|]. apply orb_false_iff in Hempty as [_ Hy].
    intros [= ->]. exists y. apply bool_decide_eq_false in Hy. split; [done|].
    apply strip_prefix_Some in Hrest as ->. by apply split_once_str_Some in Hsplit as ->.
  - intros (tool & Htool & ->). rewrite strip_prefix_app. cbn.
    rewrite (split_once_str_app "__" "_"%char "_") by done. cbn.
    by rewrite !bool_decide_false.
Qed.

Lemma find_first {A} (f : A → bool) l x :
  List.find f l = Some x ↔ ∃ l1 l2, l = l1 ++ x :: l2 ∧ f x = true ∧ Forall (λ y, f y = false) l1.
Proof.
  split.
  - induction l as [|y l IH]; [done|]. cbn. destruct (f y) eqn:Hy.
    + intros [= ->]. by exists [], l.
    + intros (l1 & l2 & -> & Hx & Hl1)%IH. exists (y :: l1), l2. split_and!; [done..|by constructor].
  - intros (l1 & l2 & -> & Hx & Hl1). induction Hl1 as [|y l1 Hy Hl1 IH]; cbn; [by rewrite Hx|].
    by rewrite Hy.
Qed.

(** The first option of a kind *)
Definition first_of (k : SdkPermissionOptionKind) (l : list PermissionOption) (o : PermissionOption) : Prop :=
  ∃ l1 l2, l = l1 ++ o :: l2 ∧ po_kind o = k ∧ Forall (λ o', po_kind o' ≠ k) l1.

Lemma find_kind k l o : List.find (is_kind k) l = Some o ↔ first_of k l o.
Proof.
  rewrite find_first. unfold is_kind.
  split; intros (l1 & l2 & -> & Hk & Hl); exists l1, l2; (split; [done|]); split;
    try (by apply bool_decide_eq_true in Hk || by apply bool_decide_eq_true);
    eapply Forall_impl; try exact Hl; intros y; cbn; by rewrite bool_decide_eq_false.
Qed.

Lemma find_kind_none k l : List.find (is_kind k) l = None ↔ Forall (λ o, po_kind o ≠ k) l.
Proof.
  rewrite Forall_forall. split.
  - intros Hnone o Ho%list_elem_of_In. pose proof (List.find_none _ _ Hnone o Ho) as Hk.
    by apply bool_decide_eq_false in Hk.
  - intros Hl. destruct (List.find (is_kind k) l) as [o|] eqn:Ho; [|done].
    apply List.find_some in Ho as [Hin%list_elem_of_In Hk%bool_decide_eq_true]. by destruct (Hl o Hin).
Qed.

(** The request comes from the MCP server of the team: its raw input says so, or says
    nothing of a server and the title is that of one of its tools. *)
Definition from_team (r : RequestPermissionRequest) : Prop :=
  extract_mcp_server_from_raw_input r = Some TEAM_MCP_SERVER_NAME ∨
  extract_mcp_server_from_raw_input r = None ∧
  ∃ tool, tool ≠ EmptyString ∧
    rp_title r = Some ("mcp__" +:+ TEAM_MCP_SERVER_NAME +:+ "__" +:+ tool).

Lemma from_team_iff r : extract_mcp_server_name r = Some TEAM_MCP_SERVER_NAME ↔ from_team r.
Proof.
  unfold extract_mcp_server_name, from_team.
  destruct (extract_mcp_server_from_raw_input r) as [s|]; [naive_solver|].
  destruct (rp_title r) as [title|]; cbn [mbind option_bind]; [|naive_solver].
  rewrite prefixed_title_iff by done. naive_solver.
Qed.

(** ** Properties *)

(** C35: Whatever requests, confirmations, cancellations and kills come in whatever order,
    and whichever receivers and subscribers are gone: no call panics, every request
    received has been answered once or is pending, and never both; and what is pending under a
    call id is a request with that call id, shown as its own confirmation. *)
Theorem permission_requests_settled (ops : list PermOp) :
  ∃ w, pm_run ops new_permissions = Some w ∧
    seq 0 (length (pm_received w)) ≡ₚ (pm_sent w).*1 ++ responders (pm_pending w) ∧
    ∀ id p, pm_pending w !! id = Some p →
      ∃ r, pm_received w !! pp_responder p = Some r ∧ rp_tool_call_id r = id ∧
        Some (pp_confirmation p) = as_confirmation (permission_request_to_event_data r).
Proof.
  destruct (pm_run_inv ops new_permissions pm_inv_new) as (w & Hrun & Hs & Hp).
  by exists w.
Qed.

(** C36: Nothing is allowed by itself: an answer that selects an option goes back to a request
    that is approved automatically with that option, or whose call id the user confirmed
    with it. *)
Theorem selections_are_justified (ops : list PermOp) (w : Permissions) (n : nat) (o : string) :
  pm_run ops new_permissions = Some w → (n, Selected o) ∈ pm_sent w →
  ∃ r, pm_received w !! n = Some r ∧
    (auto_approve_option_id r = Some o ∨
     ∃ data, PmConfirm (rp_tool_call_id r) data ∈ ops ∧ confirm_option_id data = Some o).
Proof.
  intros Hrun Hin. apply (run_selected ops [] new_permissions w pm_inv_new); [|done..].
  intros n' o' Hin'. by apply elem_of_nil in Hin'.
Qed.

(** A request is approved automatically exactly when it comes from the MCP server of the
    team and has an option that allows; then the first that allows always is chosen, and
    only without one the first that allows once. *)
Theorem auto_approve_iff (r : RequestPermissionRequest) (id : string) :
  auto_approve_option_id r = Some id ↔
  from_team r ∧ ∃ o, po_option_id o = id ∧
    (first_of AllowAlways (rp_options r) o ∨
     Forall (λ o', po_kind o' ≠ AllowAlways) (rp_options r) ∧ first_of AllowOnce (rp_options r) o).
Proof.
  unfold auto_approve_option_id. rewrite <- from_team_iff.
  assert (Hsel : select_allow_option_id r = Some id ↔ ∃ o, po_option_id o = id ∧
    (first_of AllowAlways (rp_options r) o ∨
     Forall (λ o', po_kind o' ≠ AllowAlways) (rp_options r) ∧ first_of AllowOnce (rp_options r) o)).
  { unfold select_allow_option_id. rewrite fmap_Some. setoid_rewrite <- find_kind_none.
    setoid_rewrite <- find_kind. destruct (List.find (is_kind AllowAlways) (rp_options r)); naive_solver. }
  rewrite <- Hsel. destruct (extract_mcp_server_name r) as [s|]; cbn; [|naive_solver].
  unfold AUTO_APPROVE_MCP_SERVERS. case_bool_decide as Hs; cbn; rewrite list_elem_of_singleton in Hs; [|naive_solver].
  subst s. naive_solver.
Qed.

(** A kill leaves nothing pending: every request received before has its answer. *)
Lemma kill_settles (ops : list PermOp) w :
  pm_run ops new_permissions = Some w →
  pm_pending (agent_kill w) = ∅ ∧
  seq 0 (length (pm_received (agent_kill w))) ≡ₚ (pm_sent (agent_kill w)).*1.
Proof.
  intros Hrun. destruct (pm_run_inv ops new_permissions pm_inv_new) as (w0 & Hrun0 & Hw).
  assert (w0 = w) as -> by congruence. clear Hrun0.
  pose proof (cancel_all_inv (set_closing w) Hw) as [Hs _].
  assert (Hempty : pm_pending (agent_kill w) = ∅) by (unfold agent_kill, cancel_all; by rewrite cancel_loop).
  split; [done|]. unfold pm_settled in Hs. fold (agent_kill w) in Hs. rewrite Hs, Hempty.
  unfold responders. by rewrite map_to_list_empty, app_nil_r.
Qed.
End properties.

(** ** Concrete runs *)

Module PermissionsDemo.
#[local] Existing Instance plain_values.
#[local] Existing Instance plain_order.

Definition options : list PermissionOption :=
  [mkPermissionOption "no" "Reject" RejectOnce; mkPermissionOption "yes" "Allow" AllowOnce;
   mkPermissionOption "ever" "Always" AllowAlways].

Definition write_file (id : string) : RequestPermissionRequest :=
  mkRequestPermissionRequest "session" id (Some "Write file") (Some ToolEdit)
    (Some (PObject [("description", PString "Write a file")])) options.

Definition team_tool : RequestPermissionRequest :=
  mkRequestPermissionRequest "session" "t" (Some "mcp__aionui-team__team_members") (Some ToolOther)
    None options.

(** Five requests: confirmed, approved automatically, replaced, cancelled by the kill, and
    not published. *)
Definition story : list PermOp :=
  [PmReceive (write_file "a"); PmPublish true; PmConfirm "a" (PString "yes");
   PmReceive team_tool;
   PmReceive (write_file "b"); PmPublish true; PmReceive (write_file "b"); PmPublish true;
   PmReceive (write_file "c"); PmPublish false; PmKill].

Definition answers (ops : list PermOp) : option (list (nat * PermissionDecision)) :=
  pm_sent <$> pm_run ops new_permissions.

Example story_answers :
  answers story = Some [(0, Selected "yes"); (1, Selected "ever"); (2, Cancelled); (4, Cancelled);
                        (3, Cancelled)].
Proof. vm_compute. reflexivity. Qed.

(** Nothing looks at the closing flag: a request that arrives after a kill is routed and
    stays pending. *)
Example closing_does_not_stop_routing :
  (λ w, (is_closing w, cf_call_id <$> get_confirmations w, length (pm_events w))) <$>
    pm_run (PmKill :: take 2 story) new_permissions = Some (true, ["a"], 1).
Proof. vm_compute. reflexivity. Qed.

Example selections_are_justified_witness :
  ∃ w, pm_run (take 3 story) new_permissions = Some w ∧ (0, Selected "yes") ∈ pm_sent w ∧
    is_Some (pm_received w !! 0).
Proof.
  destruct (pm_run (take 3 story) new_permissions) as [w|] eqn:Hrun; [|discriminate Hrun].
  assert (Hin : (0, Selected "yes") ∈ pm_sent w).
  { assert (Hw : answers (take 3 story) = Some [(0, Selected "yes")]) by (vm_compute; reflexivity).
    unfold answers in Hw. rewrite Hrun in Hw.
    change (Some (pm_sent w) = Some [(0, Selected "yes")]) in Hw. apply (inj Some) in Hw.
    rewrite Hw. apply list_elem_of_singleton. reflexivity. }
  exists w. split; [reflexivity|]. split; [exact Hin|].
  destruct (selections_are_justified (take 3 story) w 0 "yes" Hrun Hin) as (r & Hr & _).
  exists r. exact Hr.
Defined.

Example permission_requests_settled_witness :
  ∃ w, pm_run story new_permissions = Some w.
Proof. destruct (permission_requests_settled story) as (w & Hrun & _). exists w. exact Hrun. Defined.
End PermissionsDemo.
