(* ===== verification/HistorySanitize.v ===== *)
(** * Agents: cleaning a resumed history

    Models [crates/aionui-ai-agent/src/manager/aionrs/history_sanitize.rs].  The message
    types are those of the library [aion_types]: of a block only what is read is given,
    the payload of the others is a parameter. *)
From Stdlib Require Import Btauto.
From S2P Require Import Prelude Text.

Inductive Role := Assistant | OtherRole (name : string).

#[global] Instance Role_eq_dec : EqDecision Role.
Proof. solve_decision. Defined.

Section history.
Context {Payload : Type}.

Inductive ContentBlock :=
  | BlockText (text : string)
  | BlockToolUse (id name : string) (rest : Payload)
  | BlockToolResult (tool_use_id : string) (rest : Payload)
  | BlockThinking (rest : Payload)
  | BlockImage (rest : Payload)
  | BlockProviderItem (rest : Payload).

Record HistoryMessage := mkHistoryMessage {
  hm_role : Role;
  hm_content : list ContentBlock;
}.

Definition set_content (l : list ContentBlock) (m : HistoryMessage) : HistoryMessage :=
  mkHistoryMessage (hm_role m) l.

(** The loop over the blocks: [has_tool_use], [has_unanswered] and [has_text] *)
Definition scan_block (answered : gset string) (s : bool * bool * bool) (b : ContentBlock) : bool * bool * bool :=
  let '(has_tool_use, has_unanswered, has_text) := s in
  match b with
  | BlockToolUse id _ _ => (true, has_unanswered || negb (bool_decide (id ∈ answered)), has_text)
  | BlockText text => (has_tool_use, has_unanswered, has_text || negb (is_blank text))
  | BlockThinking _ | BlockProviderItem _ | BlockToolResult _ _ | BlockImage _ => s
  end.

Definition is_orphaned_assistant_tool_call (m : HistoryMessage) (answered : gset string) : bool :=
  if bool_decide (hm_role m ≠ Assistant) then false
  else
    let '(has_tool_use, has_unanswered, has_text) :=
      foldl (scan_block answered) (false, false, false) (hm_content m) in
    has_tool_use && has_unanswered && negb has_text.

(** The [filter_map] over the blocks *)
Definition malformed_id (b : ContentBlock) : option string :=
  match b with
  | BlockToolUse id name _ => if is_blank name then Some id else None
  | _ => None
  end.

Definition blocks (messages : list HistoryMessage) : list ContentBlock := messages ≫= hm_content.

Definition malformed_tool_use_ids (messages : list HistoryMessage) : gset string :=
  list_to_set (omap malformed_id (blocks messages)).

(** The [retain] over the blocks *)
Definition keep_block (malformed : gset string) (b : ContentBlock) : bool :=
  match b with
  | BlockToolUse _ name _ => negb (is_blank name)
  | BlockToolResult tool_use_id _ => negb (bool_decide (tool_use_id ∈ malformed))
  | BlockText _ | BlockThinking _ | BlockImage _ | BlockProviderItem _ => true
  end.

Definition has_content (m : HistoryMessage) : bool :=
  match hm_content m with [] => false | _ => true end.

(** How many messages are removed, and what is left *)
Definition strip_malformed_tool_calls (messages : list HistoryMessage) : nat * list HistoryMessage :=
  let malformed := malformed_tool_use_ids messages in
  if bool_decide (malformed = ∅) then (0, messages)
  else
    let messages := (λ m, set_content (filter (keep_block malformed) (hm_content m)) m) <$> messages in
    let kept := filter has_content messages in
    (length messages - length kept, kept).

(** The first loop of [sanitize_session_messages] *)
Definition result_id (b : ContentBlock) : option string :=
  match b with BlockToolResult tool_use_id _ => Some tool_use_id | _ => None end.

Definition answered_tool_use_ids (messages : list HistoryMessage) : gset string :=
  list_to_set (omap result_id (blocks messages)).

Definition sanitize_session_messages (messages : list HistoryMessage) : nat * list HistoryMessage :=
  if bool_decide (length messages = 0) then (0, messages)
  else
    let '(removed, messages) := strip_malformed_tool_calls messages in
    let answered := answered_tool_use_ids messages in
    let kept := filter (λ m, negb (is_orphaned_assistant_tool_call m answered)) messages in
    (removed + (length messages - length kept), kept).
End history.
Arguments ContentBlock : clear implicits.
Arguments HistoryMessage : clear implicits.

(** ** Properties *)

Section properties.
Context {Payload : Type}.
Implicit Types (b : ContentBlock Payload) (m : HistoryMessage Payload) (l : list (HistoryMessage Payload)).

(** What the scan of a message finds *)
Lemma scan_spec answered (bs : list (ContentBlock Payload)) x y z :
  foldl (scan_block answered) (x, y, z) bs =
  (x || existsb (λ b, match b with BlockToolUse _ _ _ => true | _ => false end) bs,
   y || existsb (λ b, match b with BlockToolUse id _ _ => negb (bool_decide (id ∈ answered)) | _ => false end) bs,
   z || existsb (λ b, match b with BlockText t => negb (is_blank t) | _ => false end) bs).
Proof.
  revert x y z. induction bs as [|b bs IH]; intros x y z; cbn [foldl existsb]; [by rewrite !orb_false_r|].
  destruct b; cbn [scan_block]; rewrite IH;
    (apply (f_equal2 pair); [apply (f_equal2 pair)|]); btauto.
Qed.

(** An orphan: a message of the assistant with a call nobody answered and no text *)
Definition orphan (answered : gset string) m : Prop :=
  hm_role m = Assistant ∧
  (∃ id name rest, BlockToolUse id name rest ∈ hm_content m ∧ id ∉ answered) ∧
  ∀ t, BlockText t ∈ hm_content m → is_blank t = true.

Lemma existsb_elem {A} (f : A → bool) (l : list A) : existsb f l = true ↔ ∃ x, x ∈ l ∧ f x = true.
Proof. rewrite existsb_exists. by setoid_rewrite list_elem_of_In. Qed.

Lemma orphaned_iff answered m : is_orphaned_assistant_tool_call m answered = true ↔ orphan answered m.
Proof.
  unfold is_orphaned_assistant_tool_call, orphan. case_bool_decide as Hrole; [naive_solver|].
  rewrite scan_spec. cbn [orb].
  rewrite !andb_true_iff, negb_true_iff, <- not_true_iff_false, !existsb_elem. split.
  - intros [[_ (b & Hb & Hid)] Htext]. split; [done|]. split.
    + destruct b as [|id name rest| | | |]; try discriminate Hid.
      apply negb_true_iff, bool_decide_eq_false in Hid. eauto.
    + intros t Ht. apply not_false_iff_true. intros Hblank. apply Htext. exists (BlockText t).
      by rewrite Hblank.
  - intros (_ & (id & name & rest & Hin & Hid) & Htext). split; [split|].
    + by exists (BlockToolUse id name rest).
    + exists (BlockToolUse id name rest). by rewrite bool_decide_false.
    + intros (b & Hb & Ht). destruct b as [t| | | | |]; try discriminate Ht.
      by rewrite (Htext t Hb) in Ht.
Qed.

(** ** Removing the malformed calls *)

Lemma elem_of_blocks b l : b ∈ blocks l ↔ ∃ m, m ∈ l ∧ b ∈ hm_content m.
Proof. unfold blocks. rewrite list_elem_of_bind. naive_solver. Qed.

Lemma elem_of_malformed id l :
  id ∈ malformed_tool_use_ids l ↔
  ∃ name rest, BlockToolUse id name rest ∈ blocks l ∧ is_blank name = true.
Proof.
  unfold malformed_tool_use_ids. rewrite elem_of_list_to_set, list_elem_of_omap. split.
  - intros (b & Hb & Hid). destruct b as [|id' name rest| | | |]; try discriminate Hid.
    cbn in Hid. destruct (is_blank name) eqn:Hname; [|done]. injection Hid as ->. eauto.
  - intros (name & rest & Hb & Hname). exists (BlockToolUse id name rest). cbn. by rewrite Hname.
Qed.

Lemma elem_of_answered id l :
  id ∈ answered_tool_use_ids l ↔ ∃ rest, BlockToolResult id rest ∈ blocks l.
Proof.
  unfold answered_tool_use_ids. rewrite elem_of_list_to_set, list_elem_of_omap. split.
  - intros (b & Hb & Hid). destruct b; try discriminate Hid. injection Hid as ->. eauto.
  - intros [rest Hb]. by exists (BlockToolResult id rest).
Qed.

(** What is left of the messages, and how many are gone *)
Definition cleaned l : list (HistoryMessage Payload) := (strip_malformed_tool_calls l).2.

Definition clean_message (malformed : gset string) m : HistoryMessage Payload :=
  set_content (filter (keep_block malformed) (hm_content m)) m.

Lemma strip_cases l :
  malformed_tool_use_ids l = ∅ ∧ strip_malformed_tool_calls l = (0, l) ∨
  cleaned l = filter has_content (clean_message (malformed_tool_use_ids l) <$> l) ∧
  (strip_malformed_tool_calls l).1 = length l - length (cleaned l).
Proof.
  unfold cleaned, strip_malformed_tool_calls. case_bool_decide; [by left|right]. cbn.
  by rewrite length_fmap.
Qed.

Lemma cleaned_count l : (strip_malformed_tool_calls l).1 + length (cleaned l) = length l.
Proof.
  destruct (strip_cases l) as [[_ Hl]|[Hc ->]]; [unfold cleaned; by rewrite Hl|].
  assert (length (cleaned l) ≤ length l); [|lia].
  rewrite Hc. etrans; [apply length_filter|]. by rewrite length_fmap.
Qed.

(** Without malformed calls every block is kept. *)
Lemma keep_block_empty b l :
  malformed_tool_use_ids l = ∅ → b ∈ blocks l → keep_block (malformed_tool_use_ids l) b = true.
Proof.
  intros Hnone Hb. destruct b as [|id name rest|id| | |]; try done; cbn.
  - destruct (is_blank name) eqn:Hname; [|done].
    assert (Hid : id ∈ malformed_tool_use_ids l) by (apply elem_of_malformed; eauto). set_solver.
  - by rewrite bool_decide_false by set_solver.
Qed.

Lemma cleaned_blocks b l :
  b ∈ blocks (cleaned l) ↔ b ∈ blocks l ∧ keep_block (malformed_tool_use_ids l) b = true.
Proof.
  destruct (strip_cases l) as [[Hnone Hl]|[Hc _]].
  { unfold cleaned. rewrite Hl. cbn. pose proof (keep_block_empty b l Hnone). naive_solver. }
  rewrite Hc, !elem_of_blocks. split.
  - intros (m & [_ (m0 & -> & Hm0)%list_elem_of_fmap]%list_elem_of_filter & Hb).
    cbn in Hb. apply list_elem_of_filter in Hb as [Hk%Is_true_true Hb]. eauto.
  - intros [(m & Hm & Hb) Hk]. exists (clean_message (malformed_tool_use_ids l) m).
    assert (Hb' : b ∈ filter (keep_block (malformed_tool_use_ids l)) (hm_content m)).
    { apply list_elem_of_filter. split; [by apply Is_true_true|done]. }
    split; [|done]. apply list_elem_of_filter. split; [|by apply list_elem_of_fmap_2].
    unfold has_content, clean_message. cbn. revert Hb'.
    destruct (filter _ (hm_content m)); [by intros ?%elem_of_nil|done].
Qed.

Lemma cleaned_malformed l : malformed_tool_use_ids (cleaned l) = ∅.
Proof.
  apply set_eq. intros id. rewrite elem_of_malformed. split; [|set_solver].
  intros (name & rest & [_ Hk]%cleaned_blocks & Hname). cbn in Hk. by rewrite Hname in Hk.
Qed.

Lemma cleaned_answered l :
  answered_tool_use_ids (cleaned l) = answered_tool_use_ids l ∖ malformed_tool_use_ids l.
Proof.
  apply set_eq. intros id. rewrite elem_of_difference, !elem_of_answered.
  setoid_rewrite cleaned_blocks. cbn. split.
  - intros (rest & Hb & Hid%negb_true_iff%bool_decide_eq_false). eauto.
  - intros [(rest & Hb) Hid]. exists rest. by rewrite bool_decide_false.
Qed.

(** The roles of the messages are kept. *)
Lemma cleaned_role m l : m ∈ cleaned l → ∃ m0, m0 ∈ l ∧ hm_role m0 = hm_role m ∧
  ∀ b, b ∈ hm_content m → b ∈ hm_content m0.
Proof.
  destruct (strip_cases l) as [[_ Hl]|[Hc _]]; [unfold cleaned; rewrite Hl; eauto|].
  rewrite Hc. intros [_ (m0 & -> & Hm0)%list_elem_of_fmap]%list_elem_of_filter. exists m0.
  split_and!; [done..|]. intros b [_ Hb]%list_elem_of_filter. done.
Qed.

(** A message without a block to remove is left as it is. *)
Lemma cleaned_keeps m l :
  m ∈ l → hm_content m ≠ [] → Forall (λ b, keep_block (malformed_tool_use_ids l) b = true) (hm_content m) →
  m ∈ cleaned l.
Proof.
  intros Hm Hne Hk. destruct (strip_cases l) as [[_ Hl]|[Hc _]]; [unfold cleaned; by rewrite Hl|].
  assert (Hsame : clean_message (malformed_tool_use_ids l) m = m).
  { unfold clean_message, set_content. destruct m as [role content]. cbn in *. f_equal.
    apply list_filter_true. intros b Hb. apply Is_true_true. by apply (proj1 (Forall_forall _ _) Hk). }
  rewrite Hc. apply list_elem_of_filter. split; [|rewrite <- Hsame; by apply list_elem_of_fmap_2].
  unfold has_content. by destruct (hm_content m).
Qed.

(** ** The whole pass *)

(** Results are not on messages of the assistant. *)
Definition results_elsewhere l : Prop :=
  ∀ m id rest, m ∈ l → hm_role m = Assistant → BlockToolResult id rest ∉ hm_content m.

(** What is kept of the cleaned messages *)
Definition kept l : list (HistoryMessage Payload) :=
  filter (λ m, negb (is_orphaned_assistant_tool_call m (answered_tool_use_ids (cleaned l)))) (cleaned l).

Lemma sanitize_eq l :
  sanitize_session_messages l = (length l - length (kept l), kept l).
Proof.
  unfold sanitize_session_messages, kept. case_bool_decide as Hl.
  { by apply nil_length_inv in Hl as ->. }
  pose proof (cleaned_count l) as Hcount. unfold cleaned in *.
  destruct (strip_malformed_tool_calls l) as [removed l1]. cbn [fst snd] in *.
  apply (f_equal2 pair); [|done].
  pose proof (length_filter (λ m, negb (is_orphaned_assistant_tool_call m (answered_tool_use_ids l1))) l1).
  lia.
Qed.

Lemma elem_of_kept m l :
  m ∈ kept l ↔ m ∈ cleaned l ∧ ¬ orphan (answered_tool_use_ids l ∖ malformed_tool_use_ids l) m.
Proof.
  unfold kept. rewrite list_elem_of_filter, Is_true_true, negb_true_iff, <- not_true_iff_false.
  rewrite orphaned_iff, cleaned_answered. naive_solver.
Qed.

(** No answer is lost with the orphans. *)
Lemma kept_answered l :
  results_elsewhere l →
  answered_tool_use_ids (kept l) = answered_tool_use_ids l ∖ malformed_tool_use_ids l.
Proof.
  intros Hres. rewrite <- cleaned_answered. apply set_eq. intros id. rewrite !elem_of_answered.
  split; intros (rest & (m & Hm & Hb)%elem_of_blocks); exists rest; apply elem_of_blocks; exists m;
    (split; [|done]); [by apply elem_of_kept in Hm as [Hm _]|].
  apply elem_of_kept. split; [done|]. intros [Hrole _].
  destruct (cleaned_role _ _ Hm) as (m0 & Hm0 & Hrole0 & Hsub).
  apply (Hres m0 id rest Hm0); [congruence|auto].
Qed.

Lemma kept_malformed l : malformed_tool_use_ids (kept l) = ∅.
Proof.
  apply set_eq. intros id. split; [|set_solver].
  rewrite elem_of_malformed. intros (name & rest & (m & [Hm _]%elem_of_kept & Hb)%elem_of_blocks & Hname).
  rewrite <- (cleaned_malformed l), elem_of_malformed. exists name, rest.
  split; [apply elem_of_blocks; eauto|done].
Qed.

(** A history without malformed calls and orphans stays as it is. *)
Lemma sanitize_fixed l :
  malformed_tool_use_ids l = ∅ → (∀ m, m ∈ l → ¬ orphan (answered_tool_use_ids l) m) →
  sanitize_session_messages l = (0, l).
Proof.
  intros Hnone Horphan. assert (Hkept : kept l = l).
  { unfold kept. assert (Hc : cleaned l = l).
    { unfold cleaned, strip_malformed_tool_calls. by rewrite bool_decide_true. }
    rewrite Hc. apply list_filter_true. intros m Hm%Horphan.
    apply Is_true_true, negb_true_iff, not_true_iff_false. by rewrite orphaned_iff. }
  rewrite sanitize_eq, Hkept. f_equal. lia.
Qed.

(** Of a message all but the malformed calls and their results is kept. *)
Lemma clean_message_same m l :
  m ∈ l → malformed_tool_use_ids l = ∅ → clean_message (malformed_tool_use_ids l) m = m.
Proof.
  intros Hm Hnone. unfold clean_message, set_content. destruct m as [role content]. cbn in *. f_equal.
  apply list_filter_true. intros b Hb. apply Is_true_true. apply keep_block_empty; [done|].
  apply elem_of_blocks. eauto.
Qed.

Lemma kept_sublist l : kept l `sublist_of` (clean_message (malformed_tool_use_ids l) <$> l).
Proof.
  unfold kept. etrans; [apply sublist_filter|].
  destruct (strip_cases l) as [[Hnone Hl]|[-> _]]; [|apply sublist_filter].
  unfold cleaned. rewrite Hl. cbn.
  replace (clean_message (malformed_tool_use_ids l) <$> l) with l; [done|].
  rewrite <- (list_fmap_id l) at 1. apply list_fmap_ext. intros i m Hm. symmetry.
  apply clean_message_same; [by eapply list_elem_of_lookup_2|done].
Qed.

End properties.

(** ** Concrete histories *)

Module HistoryDemo.
Definition user (l : list (ContentBlock unit)) := mkHistoryMessage (OtherRole "user") l.
Definition assistant (l : list (ContentBlock unit)) := mkHistoryMessage Assistant l.
Definition call (id : string) := BlockToolUse id "read_file" tt.
Definition nameless (id : string) : ContentBlock unit := BlockToolUse id " " tt.
Definition answer (id : string) : ContentBlock unit := BlockToolResult id tt.

(** A complete pair, a call without a name and its result, and a call that was stopped *)
Definition stopped : list (HistoryMessage unit) :=
  [user [BlockText "hi"]; assistant [call "a"]; user [answer "a"];
   assistant [BlockText "so"; nameless "b"]; user [answer "b"]; assistant [call "c"]].

Definition resumed : list (HistoryMessage unit) :=
  [user [BlockText "hi"]; assistant [call "a"]; user [answer "a"]; assistant [BlockText "so"]].

(** Of two calls in one message one is answered: the message goes, its answer stays. *)
Definition half : list (HistoryMessage unit) := [assistant [call "a"; call "b"]; user [answer "a"]].

Example half_answered_is_dropped : sanitize_session_messages half = (1, [user [answer "a"]]).
Proof. vm_compute. reflexivity. Qed.

Lemma stopped_results : results_elsewhere stopped.
Proof.
  intros m id rest Hm Hrole Hb. unfold stopped in Hm.
  repeat (apply elem_of_cons in Hm as [->|Hm]; [first [discriminate Hrole|
    repeat (apply elem_of_cons in Hb as [Hb|Hb]; [discriminate Hb|]); by apply elem_of_nil in Hb]|]).
  by apply elem_of_nil in Hm.
Qed.

End HistoryDemo.
