(* ===== verification/Roster.v ===== *)
(** * Roster: the agents of a team and what becomes of them

    Models [TeammateManager] of [crates/aionui-team/src/scheduler/*.rs]: the slots with
    the status of their agents, what an agent that ends its turn or crashes sets off, the
    actions of an agent, the window in which a second end of a turn is ignored, and the
    watchdogs of woken agents.  Of [types.rs] the agents, of [events.rs] the events the
    manager broadcasts, of [crash_detection.rs] the reasons.

    The mailbox and the task board are shared with the session; they are fields here.  A
    method takes its queries one after the other: the [n]-th takes its clock and its
    identifier from [query n] and fails if [query_fails n].  The lock on the slots is let
    go of between the queries; nothing comes between them here.  Reading the clock is an
    argument of [begin_finalize]; the task it spawns is an entry of [mg_removals] that
    [run_removals] carries out when its time has come. *)
From Stdlib Require Import Ascii.
From S2P Require Import Prelude Text Storage WorkModel Mailbox TaskBoard.

(** ** [types.rs]: agents *)

Inductive TeammateRole := RoleLead | RoleTeammate.

#[global] Instance TeammateRole_eq_dec : EqDecision TeammateRole.
Proof. solve_decision. Defined.

Definition teammate_role_to_string (r : TeammateRole) : string :=
  match r with RoleLead => "lead" | RoleTeammate => "teammate" end.

Definition teammate_role_parse (s : string) : option TeammateRole :=
  if String.eqb s "lead" || String.eqb s "leader" then Some RoleLead
  else if String.eqb s "teammate" then Some RoleTeammate
  else None.

(** [target_role_for] of [team_run/mod.rs] *)
Definition target_role_for (r : TeammateRole) : TeamRunTargetRole :=
  match r with RoleLead => Lead | RoleTeammate => Teammate end.

Inductive TeammateStatus :=
  | AgentIdle | AgentWorking | AgentThinking | AgentToolUse | AgentCompleted | AgentError.

#[global] Instance TeammateStatus_eq_dec : EqDecision TeammateStatus.
Proof. solve_decision. Defined.

Definition teammate_status_to_string (s : TeammateStatus) : string :=
  match s with
  | AgentIdle => "idle" | AgentWorking => "working" | AgentThinking => "thinking"
  | AgentToolUse => "tool_use" | AgentCompleted => "completed" | AgentError => "error"
  end.

Definition teammate_status_parse (s : string) : option TeammateStatus :=
  if String.eqb s "idle" || String.eqb s "pending" then Some AgentIdle
  else if String.eqb s "working" || String.eqb s "active" then Some AgentWorking
  else if String.eqb s "thinking" then Some AgentThinking
  else if String.eqb s "tool_use" then Some AgentToolUse
  else if String.eqb s "completed" then Some AgentCompleted
  else if String.eqb s "error" || String.eqb s "failed" then Some AgentError
  else None.

(** [is_settled] *)
Definition is_settled (s : TeammateStatus) : bool :=
  match s with AgentIdle | AgentCompleted | AgentError => true | _ => false end.

(** [ta] = [TeamAgent] *)
Record TeamAgent := MkTeamAgent {
  ta_slot_id : string;
  ta_name : string;
  ta_role : TeammateRole;
  ta_conversation_id : string;
  ta_backend : string;
  ta_model : string;
  ta_assistant_id : option string;
  ta_status : option TeammateStatus;
  ta_conversation_type : option string;
  ta_cli_path : option string;
}.

Definition TeamAgent_eta (a : TeamAgent) : TeamAgent :=
  MkTeamAgent (ta_slot_id a) (ta_name a) (ta_role a) (ta_conversation_id a) (ta_backend a)
    (ta_model a) (ta_assistant_id a) (ta_status a) (ta_conversation_type a) (ta_cli_path a).
Definition set_ta_name : string → TeamAgent → TeamAgent :=
  ltac:(mk_setter TeamAgent_eta ta_name).
Definition set_ta_status : option TeammateStatus → TeamAgent → TeamAgent :=
  ltac:(mk_setter TeamAgent_eta ta_status).

(** [ar] = [TeamAgentResponse] *)
Record TeamAgentResponse := MkTeamAgentResponse {
  ar_slot_id : string;
  ar_assistant_name : string;
  ar_name : string;
  ar_role : string;
  ar_conversation_id : string;
  ar_assistant_backend : string;
  ar_backend : string;
  ar_icon : option string;
  ar_model : string;
  ar_assistant_id : option string;
  ar_status : option string;
  ar_pending_confirmations : nat;
}.

Definition to_response_with_icon (icon : option string) (a : TeamAgent) : TeamAgentResponse :=
  {| ar_slot_id := ta_slot_id a; ar_assistant_name := ta_name a; ar_name := ta_name a;
     ar_role := teammate_role_to_string (ta_role a);
     ar_conversation_id := ta_conversation_id a;
     ar_assistant_backend := ta_backend a; ar_backend := ta_backend a; ar_icon := icon;
     ar_model := ta_model a; ar_assistant_id := ta_assistant_id a;
     ar_status := teammate_status_to_string <$> ta_status a;
     ar_pending_confirmations := 0 |}.

Definition to_response : TeamAgent → TeamAgentResponse := to_response_with_icon None.

(** [TeamEventEmitter]: what the manager broadcasts *)
Inductive RosterEvent :=
  | AgentStatusChanged (slot_id status : string)
  | AgentSpawned (assistant : TeamAgentResponse)
  | AgentRemoved (slot_id : string)
  | AgentRenamed (slot_id name : string).

Inductive CrashReason := ProcessExited | CrashSessionNotFound | CrashUnknown (message : string).

(** [as] = [AgentSlot] *)
Record AgentSlot := MkAgentSlot {
  as_agent : TeamAgent;
  as_status : TeammateStatus;
  as_needs_role_prompt : bool;
}.

Definition is_lead (s : AgentSlot) : bool :=
  bool_decide (ta_role (as_agent s) = RoleLead).

(** ** Names *)

(** [s.chars().filter(|c| !c.is_control())]: the control characters are U+0000 to U+001F
    and U+007F to U+009F, of which the last 32 have two bytes in UTF-8. *)
Fixpoint drop_control (s : string) : string :=
  match s with
  | EmptyString => EmptyString
  | String a s' =>
      let x := nat_of_ascii a in
      if (x <? 32) || (x =? 127) then drop_control s' else
      match s' with
      | String b s'' =>
          if (x =? 194) && (128 <=? nat_of_ascii b) && (nat_of_ascii b <=? 159)
          then drop_control s'' else String a (drop_control s')
      | EmptyString => String a EmptyString
      end
  end.

(** [str::to_lowercase] is Unicode's; on ASCII it is [to_ascii_lowercase]. *)
Class Lowercase := to_lowercase : string → string.

Definition normalize_name `{Lowercase} (name : string) : string :=
  to_lowercase (drop_control (utrim name)).

(** ** The manager *)

Definition WAKE_TIMEOUT_MS : Z := 60000.
Definition FINALIZE_DEDUP_WINDOW : Z := 5000.

(** [mg] = [TeammateManager].  [mg_wake_timeouts] holds the number of the task of a
    watchdog, [mg_aborted] the tasks that were aborted. *)
Record TeammateManager := MkTeammateManager {
  mg_team_id : string;
  mg_slots : gmap string AgentSlot;
  mg_mailbox : Table;
  mg_board : Board;
  mg_events : list RosterEvent;
  mg_active_wakes : gset string;
  mg_finalized_turns : gmap string Z;
  mg_removals : list (string * Z);
  mg_wake_timeouts : gmap string nat;
  mg_next_task : nat;
  mg_aborted : list nat;
}.

Definition TeammateManager_eta (m : TeammateManager) : TeammateManager :=
  MkTeammateManager (mg_team_id m) (mg_slots m) (mg_mailbox m) (mg_board m) (mg_events m)
    (mg_active_wakes m) (mg_finalized_turns m) (mg_removals m) (mg_wake_timeouts m)
    (mg_next_task m) (mg_aborted m).
Definition set_mg_slots : gmap string AgentSlot → TeammateManager → TeammateManager :=
  ltac:(mk_setter TeammateManager_eta mg_slots).
Definition set_mg_mailbox : Table → TeammateManager → TeammateManager :=
  ltac:(mk_setter TeammateManager_eta mg_mailbox).
Definition set_mg_board : Board → TeammateManager → TeammateManager :=
  ltac:(mk_setter TeammateManager_eta mg_board).
Definition set_mg_events : list RosterEvent → TeammateManager → TeammateManager :=
  ltac:(mk_setter TeammateManager_eta mg_events).
Definition set_mg_active_wakes : gset string → TeammateManager → TeammateManager :=
  ltac:(mk_setter TeammateManager_eta mg_active_wakes).
Definition set_mg_finalized_turns : gmap string Z → TeammateManager → TeammateManager :=
  ltac:(mk_setter TeammateManager_eta mg_finalized_turns).
Definition set_mg_removals : list (string * Z) → TeammateManager → TeammateManager :=
  ltac:(mk_setter TeammateManager_eta mg_removals).
Definition set_mg_wake_timeouts : gmap string nat → TeammateManager → TeammateManager :=
  ltac:(mk_setter TeammateManager_eta mg_wake_timeouts).
Definition set_mg_next_task : nat → TeammateManager → TeammateManager :=
  ltac:(mk_setter TeammateManager_eta mg_next_task).
Definition set_mg_aborted : list nat → TeammateManager → TeammateManager :=
  ltac:(mk_setter TeammateManager_eta mg_aborted).

(** The queries of a method *)
Class QueryEnv := {
  query_order :: HashOrder;
  query : nat → CallEnv;
  query_fails : nat → bool;
}.

Section manager.
Context `{QueryEnv, Lowercase, !SqlOrder, !SerdeJson}.
Implicit Types (m : TeammateManager) (a : TeamAgent).

Notation act := (action TeammateManager TeamError).

(** [TeammateManager::new] *)
Definition new_roster (team_id : string) (agents : list TeamAgent) (mailbox : Table)
    (board : Board) : TeammateManager :=
  MkTeammateManager team_id
    (foldl (λ slots a,
       let a := set_ta_status (Some AgentIdle) a in
       <[ta_slot_id a := MkAgentSlot a AgentIdle true]> slots) ∅ agents)
    mailbox board [] ∅ ∅ [] ∅ 0 [].

Definition broadcast (e : RosterEvent) m : TeammateManager :=
  set_mg_events (mg_events m ++ [e]) m.

(** [slots.get(slot_id).ok_or_else(|| TeamError::AgentNotFound(..))?] *)
Definition find_slot (slot_id : string) : act AgentSlot := λ m,
  (ok_or (mg_slots m !! slot_id) (AgentNotFound slot_id), m).

Definition get_agent (slot_id : string) : act TeamAgent :=
  slot ←! find_slot slot_id; act_ret (as_agent slot).

Definition list_agents m : list TeamAgent := as_agent <$> hash_values (mg_slots m).

Definition find_lead_slot_id m : option string :=
  (λ s, ta_slot_id (as_agent s)) <$> List.find is_lead (hash_values (mg_slots m)).

(** [self.mailbox.write_with_files(..).await], the [n]-th query of the method *)
Definition mailbox_query (n : nat) (to_agent_id from_agent_id : string)
    (msg_type : MailboxMessageType) (content : string) (summary : option string)
    (files : option (list string)) : act MailboxMessage := λ m,
  if query_fails n then (Err (Database Query), m) else
  let '(message, t) := write_with_files (H1 := query n) (mg_team_id m) to_agent_id from_agent_id
                         msg_type content summary files (mg_mailbox m) in
  (ok_or message
     (InvalidRequest ("invalid message type: " +:+ message_type_to_string msg_type)),
   set_mg_mailbox t m).

(** A call of the task board *)
Definition board_query (n : nat) (f : action Board TeamError TeamTask) : act TeamTask := λ m,
  if query_fails n then (Err (Database Query), m) else
  let '(r, b) := f (mg_board m) in (r, set_mg_board b m).

(** ** [state.rs] *)

Definition set_status (slot_id : string) (status : TeammateStatus) : act unit :=
  slot ←! find_slot slot_id;
  λ m,
    let slot := MkAgentSlot (set_ta_status (Some status) (as_agent slot)) status
                  (as_needs_role_prompt slot) in
    (Ok tt, broadcast (AgentStatusChanged slot_id (teammate_status_to_string status))
              (set_mg_slots (<[slot_id := slot]> (mg_slots m)) m)).

Definition get_status (slot_id : string) : act TeammateStatus :=
  slot ←! find_slot slot_id; act_ret (as_status slot).

Definition take_needs_role_prompt (slot_id : string) m : bool * TeammateManager :=
  match mg_slots m !! slot_id with
  | Some slot =>
      (as_needs_role_prompt slot,
       set_mg_slots (<[slot_id := MkAgentSlot (as_agent slot) (as_status slot) false]>
                       (mg_slots m)) m)
  | None => (false, m)
  end.

(** The loop of [maybe_wake_leader_when_all_idle]: the lead, whether there are
    teammates, whether all are settled; it breaks at one that is not. *)
Fixpoint scan_slots (lead_slot_id : option string) (has_teammates : bool)
    (slots : list AgentSlot) : option string * bool * bool :=
  match slots with
  | [] => (lead_slot_id, has_teammates, true)
  | slot :: slots =>
      if is_lead slot then scan_slots (Some (ta_slot_id (as_agent slot))) has_teammates slots
      else if is_settled (as_status slot) then scan_slots lead_slot_id true slots
      else (lead_slot_id, true, false)
  end.

Definition maybe_wake_leader_when_all_idle m : option string :=
  let '(lead_slot_id, has_teammates, all_teammates_settled) :=
    scan_slots None false (hash_values (mg_slots m)) in
  lead_id ← lead_slot_id;
  if negb has_teammates then None else
  if negb all_teammates_settled then None else
  let lead_is_idle := match mg_slots m !! lead_id with
                      | Some s => bool_decide (as_status s = AgentIdle)
                      | None => false
                      end in
  if lead_is_idle then Some lead_id else None.

Definition mark_idle (slot_id : string) (summary : option string) : act (option string) :=
  _ ←! set_status slot_id AgentIdle;
  slot ←! find_slot slot_id;
  if is_lead slot then act_ret None else
  lead ←! act_read find_lead_slot_id;
  _ ←! match lead with
       | Some lead_slot_id =>
           if bool_decide (lead_slot_id ≠ slot_id) then
             _ ←! mailbox_query 0 lead_slot_id slot_id IdleNotificationMessage
                    (default "idle" summary) summary None;
             act_ret tt
           else act_ret tt
       | None => act_ret tt
       end;
  act_read maybe_wake_leader_when_all_idle.

(** ** [dedup.rs] *)

Definition begin_finalize (now : Z) (conversation_id : string) m : bool * TeammateManager :=
  let recent := match mg_finalized_turns m !! conversation_id with
                | Some at_ => (now - at_ <? FINALIZE_DEDUP_WINDOW)%Z
                | None => false
                end in
  if recent then (false, m)
  else (true,
        set_mg_removals (mg_removals m ++ [(conversation_id, now + FINALIZE_DEDUP_WINDOW)%Z])
          (set_mg_finalized_turns (<[conversation_id := now]> (mg_finalized_turns m)) m)).

Definition clear_finalized_turn (conversation_id : string) m : TeammateManager :=
  set_mg_finalized_turns (delete conversation_id (mg_finalized_turns m)) m.

(** The spawned tasks whose sleep is over at [now] *)
Definition run_removals (now : Z) m : TeammateManager :=
  let over := filter (λ r, (r.2 ≤ now)%Z) (mg_removals m) in
  set_mg_removals (filter (λ r, (now < r.2)%Z) (mg_removals m))
    (foldl (λ m r, clear_finalized_turn r.1 m) m over).

(** ** [wake.rs] *)

Definition acquire_wake_lock (slot_id : string) m : bool * TeammateManager :=
  (bool_decide (slot_id ∉ mg_active_wakes m),
   set_mg_active_wakes ({[slot_id]} ∪ mg_active_wakes m) m).

Definition release_wake_lock (slot_id : string) m : TeammateManager :=
  set_mg_active_wakes (mg_active_wakes m ∖ {[slot_id]}) m.

Definition is_wake_active (slot_id : string) m : bool := bool_decide (slot_id ∈ mg_active_wakes m).

Definition clear_wake_timeout (slot_id : string) m : TeammateManager :=
  match mg_wake_timeouts m !! slot_id with
  | Some task => set_mg_aborted (mg_aborted m ++ [task])
                   (set_mg_wake_timeouts (delete slot_id (mg_wake_timeouts m)) m)
  | None => m
  end.

(** [arm_wake_timeout] up to the spawned task, whose number it is *)
Definition arm_wake_timeout (slot_id : string) m : nat * TeammateManager :=
  let task := mg_next_task m in
  let old := mg_wake_timeouts m !! slot_id in
  let m := set_mg_next_task (S task)
             (set_mg_wake_timeouts (<[slot_id := task]> (mg_wake_timeouts m)) m) in
  (task, match old with Some old => set_mg_aborted (mg_aborted m ++ [old]) m | None => m end).

Inductive WatchEvent := WatchFinish | WatchError | WatchClosed | WatchLagged | WatchOther.

(** The loop of the watchdog: the events of the stream with their times, until it
    decides; [None] while it waits at [now]. *)
Fixpoint watchdog (deadline : Z) (events : list (Z * WatchEvent)) (now : Z) : option bool :=
  match events with
  | [] => if (deadline <=? now)%Z then Some true else None
  | (at_, e) :: events =>
      if (deadline <=? at_)%Z then Some true else
      match e with
      | WatchFinish | WatchError | WatchClosed => Some false
      | WatchLagged | WatchOther => watchdog (at_ + WAKE_TIMEOUT_MS) events now
      end
  end.

(** The end of the task: [map_for_task.remove(&slot_id_owned)] *)
Definition watchdog_ends (slot_id : string) m : TeammateManager :=
  set_mg_wake_timeouts (delete slot_id (mg_wake_timeouts m)) m.

(** [wp] = [WakePayload] *)
Record WakePayload := MkWakePayload {
  wp_agent : TeamAgent;
  wp_tasks : list TeamTask;
  wp_unread_messages : list MailboxMessage;
}.

Definition build_wake_payload (slot_id : string) : act WakePayload :=
  agent ←! get_agent slot_id;
  λ m,
    if query_fails 0 then (Err (Database Query), m) else
    let tasks := list_tasks (mg_team_id m) (mg_board m) in
    if query_fails 1 then (Err (Database Query), m) else
    let '(unread, t) := read_unread (mg_team_id m) slot_id (mg_mailbox m) in
    (Ok (MkWakePayload agent tasks unread), set_mg_mailbox t m).

Definition try_wake (slot_id : string) : act (option WakePayload) :=
  current ←! get_status slot_id;
  if bool_decide (current ≠ AgentIdle) then act_ret None else
  _ ←! set_status slot_id AgentWorking;
  payload ←! build_wake_payload slot_id;
  act_ret (Some payload).

(** ** [agent_lifecycle.rs] *)

Definition add_agent (a : TeamAgent) m : TeammateManager :=
  broadcast (AgentSpawned (to_response a))
    (set_mg_slots (<[ta_slot_id a := MkAgentSlot a AgentIdle true]> (mg_slots m)) m).

Definition clear_agent_state (slot_id conversation_id : string) m : TeammateManager :=
  clear_finalized_turn conversation_id
    (clear_wake_timeout slot_id (release_wake_lock slot_id m)).

Definition remove_agent (slot_id : string) : act (option string) :=
  removed ←! find_slot slot_id;
  λ m,
    let conversation_id := ta_conversation_id (as_agent removed) in
    let m := set_mg_slots (delete slot_id (mg_slots m)) m in
    (Ok (Some conversation_id),
     broadcast (AgentRemoved slot_id) (clear_agent_state slot_id conversation_id m)).

(** [slots.iter().any(..)]: another agent with the normalized name *)
Definition name_conflict (slot_id normalized : string) m : bool :=
  existsb (λ e, negb (bool_decide (e.1 = slot_id)) &&
                bool_decide (normalize_name (ta_name (as_agent e.2)) = normalized))
    (hash_iter (mg_slots m)).

Definition rename_agent (slot_id new_name : string) : act unit :=
  let normalized := normalize_name new_name in
  if bool_decide (normalized = EmptyString)
  then act_err (InvalidRequest "rename_agent.new_name is empty after normalization") else
  slot ←! find_slot slot_id;
  conflict ←! act_read (name_conflict slot_id normalized);
  if conflict : bool then act_err (DuplicateAgentName new_name) else
  λ m,
    let slot := MkAgentSlot (set_ta_name new_name (as_agent slot)) (as_status slot)
                  (as_needs_role_prompt slot) in
    (Ok tt, broadcast (AgentRenamed slot_id new_name)
              (set_mg_slots (<[slot_id := slot]> (mg_slots m)) m)).

(** ** [crash_recovery.rs] *)

Definition format_with_unknown (agent_name reason_msg : string) (last_message : option string) :
    string :=
  match last_message with
  | Some msg =>
      "Teammate '" +:+ agent_name +:+ "' crashed during task (reason: Unknown — " +:+ reason_msg +:+
      "). Last message: " +:+ msg +:+ ". Please investigate."
  | None =>
      "Teammate '" +:+ agent_name +:+ "' crashed during task (reason: Unknown — " +:+ reason_msg +:+
      "). Please investigate."
  end.

Definition format_crash_testament (agent_name : string) (reason : CrashReason)
    (last_message : option string) : string :=
  let known reason_str :=
    match last_message with
    | Some msg =>
        "Teammate '" +:+ agent_name +:+ "' crashed during task (reason: " +:+ reason_str +:+
        "). Last message: " +:+ msg +:+ ". Please investigate."
    | None =>
        "Teammate '" +:+ agent_name +:+ "' crashed during task (reason: " +:+ reason_str +:+
        "). Please investigate."
    end in
  match reason with
  | ProcessExited => known "ProcessExited"
  | CrashSessionNotFound => known "SessionNotFound"
  | CrashUnknown msg => format_with_unknown agent_name msg last_message
  end.

Definition write_crash_testament (slot_id agent_name : string) (reason : CrashReason)
    (last_message : option string) : act unit :=
  lead ←! act_read find_lead_slot_id;
  match lead with
  | None => act_ret tt
  | Some lead_slot_id =>
      if bool_decide (lead_slot_id = slot_id) then act_ret tt else
      _ ←! mailbox_query 0 lead_slot_id slot_id Message
             (format_crash_testament agent_name reason last_message) None None;
      act_ret tt
  end.

Definition handle_agent_crash (slot_id : string) (reason : CrashReason)
    (last_message : option string) : act (option string) :=
  slot ←! find_slot slot_id;
  _ ←! write_crash_testament slot_id (ta_name (as_agent slot)) reason last_message;
  _ ←! set_status slot_id AgentError;
  λ m,
    let m := clear_wake_timeout slot_id (release_wake_lock slot_id m) in
    (Ok (if is_lead slot then None else find_lead_slot_id m), m).

Definition handle_inactivity_timeout (slot_id : string) : act (option string) :=
  slot ←! find_slot slot_id;
  _ ←! set_status slot_id AgentError;
  _ ←! (λ m, (Ok tt, clear_wake_timeout slot_id (release_wake_lock slot_id m)));
  if is_lead slot then act_ret None else
  lead ←! act_read find_lead_slot_id;
  match lead with
  | None => act_ret None
  | Some lead_slot_id =>
      _ ←! mailbox_query 0 lead_slot_id slot_id Message
             ("Teammate '" +:+ ta_name (as_agent slot) +:+
              "' timed out after 60s of inactivity. Please investigate.") None None;
      act_ret (Some lead_slot_id)
  end.

Definition notify_shutdown_rejected (from_slot_id reason : string) : act unit :=
  lead ←! act_read find_lead_slot_id;
  match lead with
  | None => act_ret tt
  | Some lead_slot_id =>
      if bool_decide (lead_slot_id = from_slot_id) then act_ret tt else
      slot ←! act_read (λ m, mg_slots m !! from_slot_id);
      let agent_name := match slot with
                        | Some s => ta_name (as_agent s)
                        | None => from_slot_id
                        end in
      _ ←! mailbox_query 0 lead_slot_id from_slot_id Message
             ("Teammate '" +:+ agent_name +:+ "' declined shutdown: " +:+ reason) None None;
      act_ret tt
  end.

(** ** [actions.rs] *)

Inductive SchedulerAction :=
  | ActSendMessage (to message : string) (files : list string)
  | ActTaskCreate (subject : string) (description owner : option string) (blocked_by : list string)
  | ActTaskUpdate (task_id : string) (status description owner : option string)
      (blocked_by : option (list string))
  | ActSpawnAgent (name role backend : string)
  | ActIdleNotification (summary : option string)
  | ActShutdownAgent (slot_id : string) (reason : option string)
  | ActRenameAgent (slot_id new_name : string).

(** The loop over the targets of a broadcast *)
Fixpoint send_each (n : nat) (from_slot_id message : string) (files : list string)
    (targets : list string) : act unit :=
  match targets with
  | [] => act_ret tt
  | target :: targets =>
      _ ←! mailbox_query n target from_slot_id Message message None (Some files);
      send_each (S n) from_slot_id message files targets
  end.

Definition handle_send_message (from_slot_id to message : string) (files : list string) : act unit :=
  if String.eqb to "*" then
    targets ←! act_read (λ m, filter (λ id, id ≠ from_slot_id) (hash_iter (mg_slots m)).*1);
    send_each 0 from_slot_id message files targets
  else
    _ ←! mailbox_query 0 to from_slot_id Message message None (Some files);
    act_ret tt.

Definition request_shutdown_agent (from_slot_id target_slot_id : string) (reason : option string) :
    act MailboxMessage :=
  slot ←! find_slot from_slot_id;
  if negb (is_lead slot) then act_err (InvalidRequest "only lead can shutdown agents") else
  target ←! find_slot target_slot_id;
  if is_lead target then act_err (InvalidRequest "cannot shutdown the team lead") else
  mailbox_query 0 target_slot_id from_slot_id ShutdownRequestMessage
    (default "shutdown requested" reason) None None.

Definition execute_action (from_slot_id : string) (action : SchedulerAction) : act (option string) :=
  match action with
  | ActSendMessage to message files =>
      _ ←! handle_send_message from_slot_id to message files; act_ret None
  | ActTaskCreate subject description owner blocked_by =>
      team_id ←! act_read mg_team_id;
      _ ←! board_query 0 (create_task (H1 := query 0) team_id subject description owner blocked_by);
      act_ret None
  | ActTaskUpdate task_id status description owner blocked_by =>
      team_id ←! act_read mg_team_id;
      _ ←! board_query 0 (manager_update_task (H1 := query 0) team_id task_id status description
                            owner blocked_by);
      act_ret None
  | ActIdleNotification summary => mark_idle from_slot_id summary
  | ActSpawnAgent _ _ _ => act_ret None
  | ActShutdownAgent slot_id reason =>
      _ ←! request_shutdown_agent from_slot_id slot_id reason; act_ret None
  | ActRenameAgent slot_id new_name => _ ←! rename_agent slot_id new_name; act_ret None
  end.
End manager.

(** ** [finalize_turn]: the [i]-th action in the environment [env i] *)

Section finalize.
Context `{Lowercase, !SqlOrder, !SerdeJson}.

Fixpoint finalize_actions (env : nat → QueryEnv) (slot_id : string) (summary : option string)
    (actions : list SchedulerAction) : action TeammateManager TeamError (option string) :=
  match actions with
  | [] => mark_idle (H := env 0) slot_id summary
  | ActIdleNotification s :: actions =>
      finalize_actions (env ∘ S) slot_id (match summary with None => s | Some _ => summary end) actions
  | action :: actions =>
      _ ←! execute_action (H := env 0) slot_id action;
      finalize_actions (env ∘ S) slot_id summary actions
  end.

Definition finalize_turn (env : nat → QueryEnv) (slot_id : string)
    (actions : list SchedulerAction) : action TeammateManager TeamError (option string) :=
  finalize_actions env slot_id None actions.
End finalize.
