(* ===== verification/RosterProps.v ===== *)
(** * Roster: properties

    Whatever the manager is called for, slots are found under their identifier, there is
    one lead at most, and only [add_agent] can give two agents the same name; the lead is woken exactly when
    everybody else is done; and what the end of a turn and a broadcast leave behind. *)
From S2P Require Import Prelude Text Storage WorkModel Mailbox TaskBoard Roster.

(** ** The roster of a team *)

Section roster_ok.
Context `{Lowercase}.

Definition unique_lead (slots : gmap string AgentSlot) : Prop :=
  ∀ i j s t, slots !! i = Some s → slots !! j = Some t → is_lead s → is_lead t → i = j.

Definition unique_names (slots : gmap string AgentSlot) : Prop :=
  ∀ i j s t, slots !! i = Some s → slots !! j = Some t →
    normalize_name (ta_name (as_agent s)) = normalize_name (ta_name (as_agent t)) → i = j.

Definition keyed (slots : gmap string AgentSlot) : Prop :=
  ∀ i s, slots !! i = Some s → ta_slot_id (as_agent s) = i.

(** With [names], also the names differ. *)
Definition roster_ok (names : Prop) (slots : gmap string AgentSlot) : Prop :=
  keyed slots ∧ unique_lead slots ∧ (names → unique_names slots).

(** A slot that may be put in place of [slot_id] *)
Definition fits (names : Prop) (slots : gmap string AgentSlot) (slot_id : string) (s : AgentSlot) :
    Prop :=
  ta_slot_id (as_agent s) = slot_id ∧
  (is_lead s → ∀ j t, slots !! j = Some t → is_lead t → j = slot_id) ∧
  (names → ∀ j t, slots !! j = Some t →
    normalize_name (ta_name (as_agent t)) = normalize_name (ta_name (as_agent s)) → j = slot_id).

Lemma roster_ok_insert names slots slot_id s :
  roster_ok names slots → fits names slots slot_id s → roster_ok names (<[slot_id := s]> slots).
Proof.
  intros (Hk & Hl & Hn) (Hid & Hlead & Hname). split; [|split].
  - intros i t. rewrite lookup_insert_Some. intros [[<- <-]|[_ Ht]]; [done|by apply Hk].
  - intros i j t u. rewrite !lookup_insert_Some.
    intros [[<- <-]|[? Ht]] [[<- <-]|[? Hu]] Ha Hb; eauto using eq_sym.
  - intros Hnames i j t u. rewrite !lookup_insert_Some.
    specialize (Hn Hnames). specialize (Hname Hnames).
    intros [[<- <-]|[? Ht]] [[<- <-]|[? Hu]] Heq; eauto using eq_sym.
Qed.

Lemma roster_ok_delete names slots slot_id :
  roster_ok names slots → roster_ok names (delete slot_id slots).
Proof.
  intros (Hk & Hl & Hn). unfold roster_ok, keyed, unique_lead, unique_names in *.
  setoid_rewrite lookup_delete_Some. naive_solver.
Qed.

Lemma fits_same names slots slot_id s t :
  roster_ok names slots → slots !! slot_id = Some s →
  ta_slot_id (as_agent t) = ta_slot_id (as_agent s) → ta_role (as_agent t) = ta_role (as_agent s) →
  ta_name (as_agent t) = ta_name (as_agent s) → fits names slots slot_id t.
Proof.
  intros (Hk & Hl & Hn) Hs Hid Hrole Hname. split; [by rewrite Hid, (Hk _ _ Hs)|].
  assert (is_lead t = is_lead s) as Hlead by (unfold is_lead; by rewrite Hrole).
  split; [rewrite Hlead; eauto|]. intros Hnames. specialize (Hn Hnames). rewrite Hname. eauto.
Qed.
End roster_ok.

(** ** Every operation keeps it *)

Definition mg_ok `{Lowercase} (names : Prop) (m : TeammateManager) : Prop :=
  roster_ok names (mg_slots m).

Section keeps.
Context `{Lowercase, !SqlOrder, !SerdeJson} (names : Prop).
Notation mg_ok := (mg_ok names).

Lemma set_status_keeps slot_id status : act_keeps mg_ok (set_status slot_id status).
Proof.
  intros m Hm. unfold set_status, find_slot, act_bind.
  destruct (mg_slots m !! slot_id) as [s|] eqn:Hs; [|done].
  by apply roster_ok_insert; [|eapply fits_same].
Qed.

Lemma take_needs_role_prompt_keeps slot_id m :
  mg_ok m → mg_ok (take_needs_role_prompt slot_id m).2.
Proof.
  intros Hm. unfold take_needs_role_prompt.
  destruct (mg_slots m !! slot_id) as [s|] eqn:Hs; [|done].
  by apply roster_ok_insert; [|eapply fits_same].
Qed.

(** Methods that leave the slots alone *)
Lemma mailbox_query_slots `{!QueryEnv} n to from ty content summary files m :
  mg_slots (mailbox_query n to from ty content summary files m).2 = mg_slots m.
Proof.
  unfold mailbox_query. destruct (query_fails n); [done|]. by destruct (write_with_files _ _ _ _ _ _ _ _).
Qed.

Lemma mailbox_query_keeps `{!QueryEnv} n to from ty content summary files :
  act_keeps mg_ok (mailbox_query n to from ty content summary files).
Proof. intros m Hm. unfold mg_ok. by rewrite mailbox_query_slots. Qed.

Lemma board_query_keeps `{!QueryEnv} n f : act_keeps mg_ok (board_query n f).
Proof.
  intros m Hm. unfold board_query. destruct (query_fails n); [done|]. by destruct (f (mg_board m)).
Qed.

Lemma find_slot_keeps P slot_id : act_keeps P (find_slot slot_id).
Proof. by apply act_keeps_pure. Qed.
End keeps.

#[export] Hint Resolve set_status_keeps mailbox_query_keeps board_query_keeps find_slot_keeps :
  act_keeps.

(** Goes through the branches of a method. *)
Ltac keeps :=
  repeat first
    [ solve [auto with act_keeps]
    | apply act_keeps_bind; [|intros ?]
    | case_match
    | case_bool_decide ].

Section keeps_methods.
Context `{Lowercase, !SqlOrder, !SerdeJson} (names : Prop).
Context `{!QueryEnv}.
Notation mg_ok := (mg_ok names).

Lemma mark_idle_keeps slot_id summary : act_keeps mg_ok (mark_idle slot_id summary).
Proof. unfold mark_idle. keeps. Qed.

Lemma send_each_keeps n from message files targets :
  act_keeps mg_ok (send_each n from message files targets).
Proof.
  revert n. induction targets as [|target targets IH]; intros n; cbn [send_each]; keeps.
Qed.

Lemma request_shutdown_agent_keeps from target reason :
  act_keeps mg_ok (request_shutdown_agent from target reason).
Proof. unfold request_shutdown_agent. keeps. Qed.

Lemma write_crash_testament_keeps slot_id name reason last :
  act_keeps mg_ok (write_crash_testament slot_id name reason last).
Proof. unfold write_crash_testament. keeps. Qed.

Lemma notify_shutdown_rejected_keeps from reason :
  act_keeps mg_ok (notify_shutdown_rejected from reason).
Proof. unfold notify_shutdown_rejected. keeps. Qed.

Lemma clear_wake_timeout_slots slot_id m : mg_slots (clear_wake_timeout slot_id m) = mg_slots m.
Proof. unfold clear_wake_timeout. by destruct (mg_wake_timeouts m !! slot_id). Qed.

Lemma name_conflict_false slot_id normalized m :
  name_conflict slot_id normalized m = false ↔
  ∀ j t, mg_slots m !! j = Some t → normalize_name (ta_name (as_agent t)) = normalized → j = slot_id.
Proof.
  unfold name_conflict. rewrite <-not_true_iff_false, existsb_exists. split.
  - intros Hno j t Ht Heq. destruct (decide (j = slot_id)); [done|]. exfalso. apply Hno.
    exists (j, t). split; [by apply list_elem_of_In, elem_of_hash_iter|].
    cbn [fst snd]. by rewrite bool_decide_eq_false_2, bool_decide_eq_true_2.
  - intros Hall ([j t] & Hin & Hj). apply list_elem_of_In, elem_of_hash_iter in Hin. cbn [fst snd] in Hj.
    apply andb_true_iff in Hj as [Hj Hn%bool_decide_eq_true]. apply (Hall _ _ Hin) in Hn as ->.
    by rewrite bool_decide_eq_true_2 in Hj.
Qed.

Lemma rename_agent_keeps slot_id new_name : act_keeps mg_ok (rename_agent slot_id new_name).
Proof.
  intros m Hm. unfold rename_agent, find_slot, act_read, act_bind. case_bool_decide; [done|].
  destruct (mg_slots m !! slot_id) as [s|] eqn:Hs; cbn [ok_or]; [|done].
  destruct (name_conflict _ _ _) eqn:Hc; [done|]. rewrite name_conflict_false in Hc.
  apply roster_ok_insert; [done|]. destruct Hm as (Hk & Hl & Hn). split; [by apply Hk in Hs|].
  split; [|intros _; exact Hc]. intros Hlead j t Ht Hlt. by apply (Hl j slot_id t s).
Qed.

Lemma remove_agent_keeps slot_id : act_keeps mg_ok (remove_agent slot_id).
Proof.
  intros m Hm. unfold remove_agent, find_slot, act_bind.
  destruct (mg_slots m !! slot_id) as [s|]; cbn [ok_or]; [|done]. unfold mg_ok. cbn [snd].
  unfold broadcast, clear_agent_state, clear_finalized_turn.
  cbn [mg_slots set_mg_events set_mg_finalized_turns]. rewrite clear_wake_timeout_slots.
  by apply roster_ok_delete.
Qed.

Lemma execute_action_keeps from a : act_keeps mg_ok (execute_action from a).
Proof.
  destruct a; cbn [execute_action]; unfold handle_send_message; keeps;
    auto using send_each_keeps, mark_idle_keeps, request_shutdown_agent_keeps, rename_agent_keeps.
Qed.
End keeps_methods.

(** ** The manager as a transition system *)

Section system.
Context `{Lowercase, !SqlOrder, !SerdeJson}.

Inductive RosterOp :=
  | OpSetStatus (slot_id : string) (status : TeammateStatus)
  | OpTakeNeedsRolePrompt (slot_id : string)
  | OpMarkIdle (slot_id : string) (summary : option string)
  | OpTryWake (slot_id : string)
  | OpBeginFinalize (now : Z) (conversation_id : string)
  | OpClearFinalizedTurn (conversation_id : string)
  | OpRunRemovals (now : Z)
  | OpAcquireWakeLock (slot_id : string)
  | OpReleaseWakeLock (slot_id : string)
  | OpArmWakeTimeout (slot_id : string)
  | OpClearWakeTimeout (slot_id : string)
  | OpWatchdogEnds (slot_id : string)
  | OpAddAgent (a : TeamAgent)
  | OpRemoveAgent (slot_id : string)
  | OpRenameAgent (slot_id new_name : string)
  | OpAgentCrash (slot_id : string) (reason : CrashReason) (last_message : option string)
  | OpInactivityTimeout (slot_id : string)
  | OpShutdownRejected (from_slot_id reason : string)
  | OpAction (from_slot_id : string) (action : SchedulerAction)
  | OpFinalizeTurn (slot_id : string) (actions : list SchedulerAction).

Definition run_roster_op (env : nat → QueryEnv) (op : RosterOp) (m : TeammateManager) :
    TeammateManager :=
  let _ : QueryEnv := env 0 in
  match op with
  | OpSetStatus slot_id status => (set_status slot_id status m).2
  | OpTakeNeedsRolePrompt slot_id => (take_needs_role_prompt slot_id m).2
  | OpMarkIdle slot_id summary => (mark_idle slot_id summary m).2
  | OpTryWake slot_id => (try_wake slot_id m).2
  | OpBeginFinalize now c => (begin_finalize now c m).2
  | OpClearFinalizedTurn c => clear_finalized_turn c m
  | OpRunRemovals now => run_removals now m
  | OpAcquireWakeLock slot_id => (acquire_wake_lock slot_id m).2
  | OpReleaseWakeLock slot_id => release_wake_lock slot_id m
  | OpArmWakeTimeout slot_id => (arm_wake_timeout slot_id m).2
  | OpClearWakeTimeout slot_id => clear_wake_timeout slot_id m
  | OpWatchdogEnds slot_id => watchdog_ends slot_id m
  | OpAddAgent a => add_agent a m
  | OpRemoveAgent slot_id => (remove_agent slot_id m).2
  | OpRenameAgent slot_id new_name => (rename_agent slot_id new_name m).2
  | OpAgentCrash slot_id reason last => (handle_agent_crash slot_id reason last m).2
  | OpInactivityTimeout slot_id => (handle_inactivity_timeout slot_id m).2
  | OpShutdownRejected from reason => (notify_shutdown_rejected from reason m).2
  | OpAction from a => (execute_action from a m).2
  | OpFinalizeTurn slot_id actions => (finalize_turn env slot_id actions m).2
  end.

(** [add_agent] checks nothing; all its callers add teammates. *)
Definition may_run (op : RosterOp) : Prop :=
  match op with OpAddAgent a => ta_role a = RoleTeammate | _ => True end.

Definition adds_agent (op : RosterOp) : bool :=
  match op with OpAddAgent _ => true | _ => false end.

(** One lead at most *)
Definition team_ok (agents : list TeamAgent) : Prop :=
  ∀ a b, a ∈ agents → b ∈ agents → ta_role a = RoleLead → ta_role b = RoleLead → a = b.

Inductive roster_reachable : TeammateManager → Prop :=
  | roster_new team_id agents mailbox board :
      team_ok agents → roster_reachable (new_roster team_id agents mailbox board)
  | roster_step env op m :
      roster_reachable m → may_run op → roster_reachable (run_roster_op env op m).

Lemma new_roster_slot team_id agents mailbox board i s :
  mg_slots (new_roster team_id agents mailbox board) !! i = Some s →
  ∃ a, a ∈ agents ∧ i = ta_slot_id a ∧ as_agent s = set_ta_status (Some AgentIdle) a.
Proof.
  unfold new_roster. cbn [mg_slots].
  apply (foldl_inv _ (λ rest slots, (∀ a, a ∈ rest → a ∈ agents) ∧
    (slots !! i = Some s → ∃ a, a ∈ agents ∧ i = ta_slot_id a ∧
       as_agent s = set_ta_status (Some AgentIdle) a))); [|done].
  intros a rest slots [Hin Hs]. split; [set_solver|]. cbn.
  rewrite lookup_insert_Some. intros [[<- <-]|[_ Hi]]; [|auto].
  exists a. split; [apply Hin; set_solver|done].
Qed.

Lemma new_roster_ok team_id agents mailbox board :
  team_ok agents → mg_ok False (new_roster team_id agents mailbox board).
Proof.
  intros Hlead. split; [|split; [|done]].
  - intros i s (a & _ & -> & Hs)%new_roster_slot. by rewrite Hs.
  - intros i j s t (a & Ha & -> & Hs)%new_roster_slot (b & Hb & -> & Ht)%new_roster_slot.
    unfold is_lead. rewrite Hs, Ht. intros Hla%bool_decide_unpack Hlb%bool_decide_unpack.
    by rewrite (Hlead a b).
Qed.

Lemma try_wake_keeps `{!QueryEnv} names slot_id : act_keeps (mg_ok names) (try_wake slot_id).
Proof.
  unfold try_wake, get_status, build_wake_payload, get_agent. keeps.
  all: intros m Hm; by repeat case_match.
Qed.

Lemma crash_keeps `{!QueryEnv} names slot_id reason last :
  act_keeps (mg_ok names) (handle_agent_crash slot_id reason last).
Proof.
  unfold handle_agent_crash.
  assert (∀ name, act_keeps (mg_ok names) (write_crash_testament slot_id name reason last))
    by (intros; apply write_crash_testament_keeps).
  keeps. all: intros m Hm; unfold mg_ok; cbn [snd]; by rewrite clear_wake_timeout_slots.
Qed.

Lemma timeout_keeps `{!QueryEnv} names slot_id : act_keeps (mg_ok names) (handle_inactivity_timeout slot_id).
Proof.
  unfold handle_inactivity_timeout.
  keeps. all: intros m Hm; unfold mg_ok; cbn [snd]; by rewrite clear_wake_timeout_slots.
Qed.

Lemma finalize_turn_keeps names env slot_id actions : act_keeps (mg_ok names) (finalize_turn env slot_id actions).
Proof.
  unfold finalize_turn. generalize (None : option string) as summary. revert env.
  induction actions as [|a actions IH]; intros env summary; cbn [finalize_actions];
    [apply mark_idle_keeps|].
  destruct a; try (apply act_keeps_bind; [apply execute_action_keeps|intros _]); apply IH.
Qed.

Lemma clear_finalized_slots (l : list (string * Z)) m :
  mg_slots (foldl (λ m r, clear_finalized_turn r.1 m) m l) = mg_slots m.
Proof. revert m. induction l as [|r l IH]; intros m; [done|]. cbn [foldl]. by rewrite IH. Qed.

Lemma run_roster_op_ok names env op m :
  mg_ok names m → may_run op → (names → adds_agent op = false) → mg_ok names (run_roster_op env op m).
Proof.
  intros Hm Hop Hadd. destruct op; cbn [run_roster_op].
  - by apply set_status_keeps.
  - by apply take_needs_role_prompt_keeps.
  - by apply mark_idle_keeps.
  - by apply try_wake_keeps.
  - unfold begin_finalize. by destruct (match mg_finalized_turns m !! _ with Some _ => _ | None => _ end).
  - done.
  - unfold mg_ok, run_removals. cbn [mg_slots set_mg_removals]. by rewrite clear_finalized_slots.
  - done.
  - done.
  - unfold mg_ok, arm_wake_timeout. cbn [snd].
    by destruct (mg_wake_timeouts m !! slot_id).
  - unfold mg_ok. by rewrite clear_wake_timeout_slots.
  - done.
  - apply roster_ok_insert; [done|]. split; [done|]. split; [|intros Hnames; by apply Hadd in Hnames].
    unfold is_lead. cbn. by rewrite Hop.
  - by apply remove_agent_keeps.
  - by apply rename_agent_keeps.
  - by apply crash_keeps.
  - by apply timeout_keeps.
  - by apply notify_shutdown_rejected_keeps.
  - by apply execute_action_keeps.
  - by apply finalize_turn_keeps.
Qed.

Lemma reachable_ok m : roster_reachable m → mg_ok False m.
Proof. induction 1; [by apply new_roster_ok|by apply run_roster_op_ok]. Qed.
End system.

(** ** Messages are kept

    No method of the manager loses a message of the mailbox, or changes its team. *)

Definition mailbox_kept (m0 m : TeammateManager) : Prop :=
  mg_team_id m = mg_team_id m0 ∧ kept (mg_mailbox m0) (mg_mailbox m).

#[global] Instance mailbox_kept_preorder : PreOrder mailbox_kept.
Proof.
  split; [by split|]. intros m1 m2 m3 [Ht12 Hk12] [Ht23 Hk23]. split; [congruence|by etrans].
Qed.

(** The fields that matter here *)
Definition same_mailbox (m m' : TeammateManager) : Prop :=
  mg_team_id m' = mg_team_id m ∧ mg_mailbox m' = mg_mailbox m.

Section mailbox.
Context `{Lowercase, !SqlOrder, !SerdeJson} (m0 : TeammateManager).
Notation mailbox_kept := (mailbox_kept m0).

(** A method that leaves the mailbox alone *)
Lemma keeps_same {A} (f : action TeammateManager TeamError A) :
  (∀ m, same_mailbox m (f m).2) → act_keeps mailbox_kept f.
Proof. intros Hf m Hm. unfold RosterProps.mailbox_kept. by destruct (Hf m) as [-> ->]. Qed.

Lemma set_status_mailbox slot_id status : act_keeps mailbox_kept (set_status slot_id status).
Proof.
  apply keeps_same. intros m. unfold set_status, find_slot, act_bind.
  by destruct (mg_slots m !! slot_id).
Qed.

Lemma mailbox_query_mailbox `{!QueryEnv} n to from ty content summary files :
  act_keeps mailbox_kept (mailbox_query n to from ty content summary files).
Proof.
  intros m Hm. unfold mailbox_query. destruct (query_fails n); [done|].
  destruct Hm as [Hteam Hm]. split; [done|]. etrans; [exact Hm|]. apply kept_app.
Qed.

Lemma board_query_mailbox `{!QueryEnv} n f : act_keeps mailbox_kept (board_query n f).
Proof.
  apply keeps_same. intros m. unfold board_query. destruct (query_fails n); [done|].
  by destruct (f (mg_board m)).
Qed.

Lemma rename_agent_mailbox `{!QueryEnv} slot_id name : act_keeps mailbox_kept (rename_agent slot_id name).
Proof.
  apply keeps_same. intros m. unfold rename_agent, find_slot, act_read, act_bind. case_bool_decide; [done|].
  destruct (mg_slots m !! slot_id); cbn [ok_or]; [|done]. by destruct (name_conflict _ _ _).
Qed.

Lemma clear_wake_timeout_mailbox slot_id m :
  same_mailbox m (clear_wake_timeout slot_id m).
Proof. unfold clear_wake_timeout. by destruct (mg_wake_timeouts m !! slot_id). Qed.

Lemma remove_agent_mailbox slot_id : act_keeps mailbox_kept (remove_agent slot_id).
Proof.
  apply keeps_same. intros m. unfold remove_agent, find_slot, act_bind.
  destruct (mg_slots m !! slot_id) as [a|]; cbn [ok_or]; [|done]. cbn [snd].
  exact (clear_wake_timeout_mailbox slot_id
    (release_wake_lock slot_id (set_mg_slots (delete slot_id (mg_slots m)) m))).
Qed.
End mailbox.

#[export] Hint Resolve set_status_mailbox mailbox_query_mailbox board_query_mailbox
  rename_agent_mailbox : act_keeps.

Section mailbox_methods.
Context `{Lowercase, !SqlOrder, !SerdeJson} (m0 : TeammateManager).
Notation mailbox_kept := (mailbox_kept m0).

Lemma send_each_mailbox `{!QueryEnv} n from message files targets :
  act_keeps mailbox_kept (send_each n from message files targets).
Proof. revert n. induction targets as [|target targets IH]; intros n; cbn [send_each]; keeps. Qed.

Lemma mark_idle_mailbox `{!QueryEnv} slot_id summary : act_keeps mailbox_kept (mark_idle slot_id summary).
Proof. unfold mark_idle. keeps. Qed.

Lemma request_shutdown_agent_mailbox `{!QueryEnv} from target reason :
  act_keeps mailbox_kept (request_shutdown_agent from target reason).
Proof. unfold request_shutdown_agent. keeps. Qed.

Lemma execute_action_mailbox `{!QueryEnv} from a : act_keeps mailbox_kept (execute_action from a).
Proof.
  destruct a; cbn [execute_action]; unfold handle_send_message; keeps;
    auto using send_each_mailbox, mark_idle_mailbox, request_shutdown_agent_mailbox, rename_agent_mailbox.
Qed.

Lemma finalize_turn_mailbox env slot_id actions : act_keeps mailbox_kept (finalize_turn env slot_id actions).
Proof.
  unfold finalize_turn. generalize (None : option string) as summary. revert env.
  induction actions as [|a actions IH]; intros env summary; cbn [finalize_actions];
    [apply mark_idle_mailbox|].
  destruct a; try (apply act_keeps_bind; [apply execute_action_mailbox|intros _]); apply IH.
Qed.

Lemma try_wake_mailbox `{!QueryEnv} slot_id : act_keeps mailbox_kept (try_wake slot_id).
Proof.
  unfold try_wake, get_status, build_wake_payload, get_agent. keeps.
  all: intros m Hm; repeat case_match; try done.
  all: destruct Hm as [Hteam Hm]; split; [done|]; etrans; [exact Hm|].
  all: match goal with Heq : read_unread ?x ?y ?z = (_, ?u) |- _ =>
    pose proof (kept_read_unread x y z) as Hk; by rewrite Heq in Hk end.
Qed.

Lemma crash_mailbox `{!QueryEnv} slot_id reason last :
  act_keeps mailbox_kept (handle_agent_crash slot_id reason last).
Proof.
  unfold handle_agent_crash, write_crash_testament. keeps.
  all: apply keeps_same; intros m.
  all: exact (clear_wake_timeout_mailbox slot_id (release_wake_lock slot_id m)).
Qed.

Lemma timeout_mailbox `{!QueryEnv} slot_id : act_keeps mailbox_kept (handle_inactivity_timeout slot_id).
Proof.
  unfold handle_inactivity_timeout. keeps.
  all: apply keeps_same; intros m.
  all: exact (clear_wake_timeout_mailbox slot_id (release_wake_lock slot_id m)).
Qed.

Lemma shutdown_rejected_mailbox `{!QueryEnv} from reason :
  act_keeps mailbox_kept (notify_shutdown_rejected from reason).
Proof. unfold notify_shutdown_rejected. keeps. Qed.

Lemma run_roster_op_mailbox env op m :
  mailbox_kept m → mailbox_kept (run_roster_op env op m).
Proof.
  intros Hm. destruct op; cbn [run_roster_op]; try done.
  - by apply set_status_mailbox.
  - unfold take_needs_role_prompt. by destruct (mg_slots m !! slot_id).
  - by apply mark_idle_mailbox.
  - by apply try_wake_mailbox.
  - unfold begin_finalize. by destruct (match mg_finalized_turns m !! _ with Some _ => _ | None => _ end).
  - unfold run_removals.
    assert (∀ (l : list (string * Z)) m1,
      same_mailbox m1 (foldl (λ m r, clear_finalized_turn r.1 m) m1 l)) as Hl.
    { induction l as [|r l IH]; intros m1; [done|]. exact (IH (clear_finalized_turn r.1 m1)). }
    destruct (Hl (filter (λ r, r.2 ≤ now)%Z (mg_removals m)) m) as [Hteam Hmail]. destruct Hm as [? ?].
    split; cbn [mg_team_id mg_mailbox set_mg_removals]; by rewrite ?Hteam, ?Hmail.
  - unfold arm_wake_timeout. by destruct (mg_wake_timeouts m !! slot_id).
  - destruct (clear_wake_timeout_mailbox slot_id m) as [Hteam Hmail]. destruct Hm as [? ?].
    split; by rewrite ?Hteam, ?Hmail.
  - by apply remove_agent_mailbox.
  - by apply rename_agent_mailbox.
  - by apply crash_mailbox.
  - by apply timeout_mailbox.
  - by apply shutdown_rejected_mailbox.
  - by apply execute_action_mailbox.
  - by apply finalize_turn_mailbox.
Qed.
End mailbox_methods.

(** ** Who is woken *)

Section wake.
Context `{Lowercase, !SqlOrder, !SerdeJson}.

(** All are done but the lead. *)
Definition others_settled (m : TeammateManager) : Prop :=
  ∀ j t, mg_slots m !! j = Some t → is_lead t = false → is_settled (as_status t) = true.

Definition has_teammate (m : TeammateManager) : Prop :=
  ∃ j t, mg_slots m !! j = Some t ∧ is_lead t = false.

Lemma scan_slots_settled l lead has :
  (∀ t, t ∈ l → is_lead t = false → is_settled (as_status t) = true) →
  scan_slots lead has l =
    (match last (filter is_lead l) with Some s => Some (ta_slot_id (as_agent s)) | None => lead end,
     has || existsb (λ t, negb (is_lead t)) l, true).
Proof.
  revert lead has. induction l as [|t l IH]; intros lead has Hall; cbn [scan_slots existsb].
  { by rewrite orb_false_r. }
  assert (∀ u, u ∈ l → is_lead u = false → is_settled (as_status u) = true) as Hl
    by (intros u Hu; apply Hall; by right).
  rewrite filter_cons. destruct (is_lead t) eqn:Ht.
  - rewrite decide_True by done. rewrite IH by done. cbn [negb orb].
    destruct (filter is_lead l) as [|u l'] eqn:Hf; [done|]. rewrite last_cons_cons.
    destruct (last (u :: l')) eqn:Hlast; [done|by apply last_None in Hlast].
  - rewrite decide_False by (by intros []). rewrite Hall by (done || by left). rewrite IH by done.
    cbn [negb orb]. by rewrite orb_true_r.
Qed.

Lemma scan_slots_unsettled l lead has t :
  t ∈ l → is_lead t = false → is_settled (as_status t) = false → (scan_slots lead has l).2 = false.
Proof.
  revert lead has. induction l as [|u l IH]; intros lead has Hin Ht Hs; [by apply not_elem_of_nil in Hin|].
  cbn [scan_slots]. apply elem_of_cons in Hin as [<-|Hin].
  - by rewrite Ht, Hs.
  - destruct (is_lead u); [by apply IH|]. destruct (is_settled (as_status u)); [by apply IH|done].
Qed.

Lemma lead_in_order `{!HashOrder} m l s :
  roster_ok False (mg_slots m) → mg_slots m !! l = Some s → is_lead s →
  ∀ t, t ∈ filter is_lead (hash_values (mg_slots m)) → t = s.
Proof.
  intros (_ & Hlead & _) Hs Hl t [Ht Hin]%list_elem_of_filter.
  apply elem_of_hash_values in Hin as [j Hj]. rewrite (Hlead _ _ _ _ Hj Hs Ht Hl) in Hj. congruence.
Qed.

Lemma find_lead_spec `{!HashOrder} m :
  roster_ok False (mg_slots m) →
  ∀ l, (λ s, ta_slot_id (as_agent s)) <$> List.find is_lead (hash_values (mg_slots m)) = Some l ↔
       ∃ s, mg_slots m !! l = Some s ∧ is_lead s.
Proof.
  intros (Hk & Hlead & _) l. rewrite fmap_Some. split.
  - intros (s & Hs & ->). apply find_some in Hs as [Hin Hl].
    apply list_elem_of_In, elem_of_hash_values in Hin as [j Hj].
    exists s. rewrite (Hk _ _ Hj). split; [done|by rewrite Hl].
  - intros (s & Hs & Hl). destruct (List.find is_lead _) as [t|] eqn:Hf.
    + apply find_some in Hf as [Hin Ht]. apply list_elem_of_In, elem_of_hash_values in Hin as [j Hj].
      exists t. split; [done|]. rewrite (Hlead _ _ _ _ Hs Hj Hl ltac:(by rewrite Ht)). by rewrite (Hk _ _ Hj).
    + assert (In s (hash_values (mg_slots m))) as Hin
        by (apply list_elem_of_In, elem_of_hash_values; eauto).
      apply (find_none _ _ Hf) in Hin. by rewrite Hin in Hl.
Qed.

Lemma maybe_wake_spec `{!QueryEnv} m l :
  roster_ok False (mg_slots m) →
  maybe_wake_leader_when_all_idle m = Some l ↔
    (∃ s, mg_slots m !! l = Some s ∧ is_lead s ∧ as_status s = AgentIdle) ∧
    has_teammate m ∧ others_settled m.
Proof.
  intros Hm. pose proof Hm as (Hk & Hlead & _). unfold maybe_wake_leader_when_all_idle.
  destruct (decide (Forall (λ t, is_lead t = false → is_settled (as_status t) = true)
                      (hash_values (mg_slots m)))) as [Hall|Hall].
  - rewrite Forall_forall in Hall. rewrite scan_slots_settled by done. cbn [orb].
    assert (others_settled m) as Hothers.
    { intros j t Ht. apply Hall. apply elem_of_hash_values. eauto. }
    assert (existsb (λ t, negb (is_lead t)) (hash_values (mg_slots m)) = true ↔ has_teammate m) as Hhas.
    { rewrite existsb_exists. split.
      - intros (t & Hin & Ht). apply list_elem_of_In, elem_of_hash_values in Hin as [j Hj].
        exists j, t. by apply negb_true_iff in Ht.
      - intros (j & t & Hj & Ht). exists t. rewrite Ht. split; [|done].
        apply list_elem_of_In, elem_of_hash_values. eauto. }
    destruct (last (filter is_lead _)) as [s|] eqn:Hlast.
    + assert (s ∈ filter is_lead (hash_values (mg_slots m))) as [Hs Hin]%list_elem_of_filter.
      { apply last_Some in Hlast as [l' ->]. set_solver. }
      apply elem_of_hash_values in Hin as [j Hj]. cbn [mbind option_bind]. rewrite (Hk _ _ Hj), Hj.
      destruct (existsb _ _) eqn:He; cbn [negb].
      2: { split; [done|]. intros (_ & Ht%Hhas & _). congruence. }
      case_bool_decide as Hidle; (split; [|intros [(u & Hu & Hul & Hui) _];
        assert (l = j) as -> by eauto; congruence]); [|done].
      intros [= <-]. split; [by exists s|]. by rewrite <-Hhas.
    + split; [done|]. intros [(u & Hu & Hul & _) _]. exfalso.
      apply last_None in Hlast. apply (not_elem_of_nil u). rewrite <-Hlast.
      apply list_elem_of_filter. split; [done|]. apply elem_of_hash_values. eauto.
  - apply not_Forall_Exists in Hall; [|apply _]. apply Exists_exists in Hall as (t & Hin & Ht).
    assert (is_lead t = false ∧ is_settled (as_status t) = false) as [Htl Hts].
    { destruct (is_lead t) eqn:Htl; [exfalso; apply Ht; congruence|].
      destruct (is_settled (as_status t)) eqn:Hts; [exfalso; by apply Ht|done]. }
    pose proof (scan_slots_unsettled _ None false _ Hin Htl Hts) as Hscan.
    destruct (scan_slots _ _ _) as [[lead has] all]. cbn [snd] in Hscan. subst all. cbn [negb].
    split.
    + destruct lead; cbn [mbind option_bind]; [|done]. by destruct (negb has).
    + intros (_ & _ & Hothers). apply elem_of_hash_values in Hin as [j Hj].
      by rewrite (Hothers _ _ Hj Htl) in Hts.
Qed.
End wake.

(** ** The theorems *)

Section theorems.
Context `{Lowercase, !SqlOrder, !SerdeJson}.

(** C26: However the manager is called, as long as [add_agent] gets teammates, a slot is found
    under the identifier of its agent and one agent at most is the lead; no operation but
    [add_agent] makes two agents share a name, up to case, control characters and
    surrounding white space; and [rename_agent] succeeds exactly with a name that is not
    empty and nobody else has. *)
Theorem roster_invariant m :
  roster_reachable m →
  (∀ i s, mg_slots m !! i = Some s → ta_slot_id (as_agent s) = i) ∧
  (∀ i j s t, mg_slots m !! i = Some s → mg_slots m !! j = Some t → is_lead s → is_lead t → i = j) ∧
  (∀ env op, adds_agent op = false →
     unique_names (mg_slots m) → unique_names (mg_slots (run_roster_op env op m))) ∧
  ∀ `{!QueryEnv} slot_id new_name,
    (rename_agent slot_id new_name m).1 =
      if bool_decide (normalize_name new_name = EmptyString)
      then Err (InvalidRequest "rename_agent.new_name is empty after normalization")
      else if bool_decide (mg_slots m !! slot_id = None) then Err (AgentNotFound slot_id)
      else if name_conflict slot_id (normalize_name new_name) m
      then Err (DuplicateAgentName new_name) else Ok tt.
Proof.
  intros Hm%reachable_ok. pose proof Hm as (Hk & Hl & _). split; [done|]. split; [done|]. split.
  - intros env op Hop Hn.
    destruct (run_roster_op_ok True env op m) as (_ & _ & Hnames); [by split|by destruct op|done|auto].
  - intros QE slot_id new_name. unfold rename_agent, find_slot, act_read, act_bind.
    case_bool_decide; [done|].
    destruct (mg_slots m !! slot_id) as [s|]; cbn [ok_or]; [|done].
    rewrite bool_decide_eq_false_2 by done. by destruct (name_conflict _ _ _).
Qed.

(** The lead is woken exactly when it is idle, it has teammates, and all of them are
    idle, have completed or have failed, in whatever order the slots are looked at. *)
Theorem leader_woken_iff `{!QueryEnv} m l :
  roster_reachable m →
  maybe_wake_leader_when_all_idle m = Some l ↔
    (∃ s, mg_slots m !! l = Some s ∧ is_lead s ∧ as_status s = AgentIdle) ∧
    (∃ j t, mg_slots m !! j = Some t ∧ is_lead t = false) ∧
    ∀ j t, mg_slots m !! j = Some t → is_lead t = false →
      as_status t ∈ [AgentIdle; AgentCompleted; AgentError].
Proof.
  intros Hm%reachable_ok. rewrite maybe_wake_spec by done. unfold has_teammate, others_settled.
  assert (∀ st, is_settled st = true ↔ st ∈ [AgentIdle; AgentCompleted; AgentError]) as Hst
    by (intros []; cbn; set_solver).
  by setoid_rewrite Hst.
Qed.

Lemma mailbox_query_ok `{!QueryEnv} n to from ty content summary files m :
  query_fails n = false →
  let message := mkMailboxMessage (@gen_id (query n) 0) (mg_team_id m) to from ty content summary
    (f ← files; if bool_decide (f = []) then None else Some f) false (@now_ms (query n)) in
  ∃ row, mailbox_query n to from ty content summary files m =
      (Ok message, set_mg_mailbox (mg_mailbox m ++ [row]) m) ∧
    from_row row = Some message ∧
    ∀ team' agent, unread_row team' agent row = bool_decide (team' = mg_team_id m ∧ agent = to).
Proof.
  intros Hq message. unfold mailbox_query. rewrite Hq.
  destruct (@write_appends _ (query n) (mg_team_id m) to from ty content summary files (mg_mailbox m))
    as (row & Hw & Hrow & Hunread).
  exists row. rewrite Hw. cbn [ok_or]. by split.
Qed.

Definition idle_slot (s : AgentSlot) : AgentSlot :=
  MkAgentSlot (set_ta_status (Some AgentIdle) (as_agent s)) AgentIdle (as_needs_role_prompt s).

(** The manager once [set_status] has made an agent idle *)
Definition agent_idle (slot_id : string) (s : AgentSlot) (m : TeammateManager) : TeammateManager :=
  broadcast (AgentStatusChanged slot_id "idle")
    (set_mg_slots (<[slot_id := idle_slot s]> (mg_slots m)) m).

Lemma finalize_turn_teammate env slot_id s lead m :
  mg_slots m !! slot_id = Some s → is_lead s = false → slot_id ≠ lead →
  @find_lead_slot_id (env 0) (agent_idle slot_id s m) = Some lead →
  finalize_turn env slot_id [] m =
    let '(r, m') := mailbox_query (H := env 0) 0 lead slot_id IdleNotificationMessage "idle" None None
                      (agent_idle slot_id s m) in
    match r with
    | Ok _ => (Ok (maybe_wake_leader_when_all_idle (H := env 0) m'), m')
    | Err e => (Err e, m')
    end.
Proof.
  intros Hs Hsl Hne Hlead.
  unfold finalize_turn, finalize_actions, mark_idle, set_status, find_slot, act_bind.
  rewrite Hs. cbn [ok_or]. fold (idle_slot s).
  change (broadcast _ (set_mg_slots _ _)) with (agent_idle slot_id s m).
  assert (mg_slots (agent_idle slot_id s m) !! slot_id = Some (idle_slot s)) as ->
    by (cbn; by rewrite lookup_insert_eq).
  cbn [ok_or]. change (is_lead (idle_slot s)) with (is_lead s). rewrite Hsl. unfold act_read.
  rewrite Hlead, bool_decide_eq_true_2 by done. unfold default.
  by destruct (mailbox_query _ _ _ _ _ _ _ _) as [[] ?].
Qed.

(** When a teammate ends its turn it becomes idle; the lead has one more unread message
    that says so, nobody else has; and the lead is to be woken exactly when it is idle and
    all others are done.  If the message cannot be written nobody is woken. *)
Theorem turn_end_reported env slot_id m s lead :
  roster_reachable m →
  mg_slots m !! slot_id = Some s → is_lead s = false →
  (∃ t, mg_slots m !! lead = Some t ∧ is_lead t) →
  let m' := (finalize_turn env slot_id [] m).2 in
  mg_slots m' = <[slot_id := idle_slot s]> (mg_slots m) ∧
  if @query_fails (env 0) 0
  then (finalize_turn env slot_id [] m).1 = Err (Database Query) ∧ mg_mailbox m' = mg_mailbox m
  else
    (∃ id at_, peek_unread (mg_team_id m) lead (mg_mailbox m') ≡ₚ
       peek_unread (mg_team_id m) lead (mg_mailbox m) ++
       [mkMailboxMessage id (mg_team_id m) lead slot_id IdleNotificationMessage "idle" None None
          false at_]) ∧
    (∀ agent, agent ≠ lead → peek_unread (mg_team_id m) agent (mg_mailbox m') ≡ₚ
       peek_unread (mg_team_id m) agent (mg_mailbox m)) ∧
    ∃ wake, (finalize_turn env slot_id [] m).1 = Ok wake ∧
      (wake = Some lead ↔
         (∃ t, mg_slots m !! lead = Some t ∧ as_status t = AgentIdle) ∧ others_settled m') ∧
      (wake = None ∨ wake = Some lead).
Proof.
  intros Hm%reachable_ok Hs Hsl (t & Ht & Htl). cbv zeta.
  set (m1 := agent_idle slot_id s m).
  assert (slot_id ≠ lead) as Hne by (intros ->; simplify_eq; by rewrite Hsl in Htl).
  assert (mg_ok False m1) as Hm1 by (by apply roster_ok_insert; [|eapply fits_same]).
  assert (mg_slots m1 !! lead = Some t) as Ht1 by (cbn; by rewrite lookup_insert_ne).
  assert (@find_lead_slot_id (env 0) m1 = Some lead) as Hlead
    by (apply (find_lead_spec m1 Hm1); eauto).
  rewrite (finalize_turn_teammate _ _ _ _ _ Hs Hsl Hne Hlead). fold m1.
  destruct (@query_fails (env 0) 0) eqn:Hq; [unfold mailbox_query; by rewrite Hq|].
  destruct (mailbox_query_ok (H2 := env 0) 0 lead slot_id IdleNotificationMessage "idle" None None m1 Hq)
    as (row & Hw & Hrow & Hunread).
  rewrite Hw. cbn [fst snd]. split; [done|].
  cbn [mg_mailbox set_mg_mailbox]. split; [|split].
  - exists (@gen_id (@query (env 0) 0) 0), (@now_ms (@query (env 0) 0)).
    rewrite peek_unread_snoc, Hunread, bool_decide_eq_true_2 by done. rewrite Hrow. reflexivity.
  - intros agent Ha. rewrite peek_unread_snoc, Hunread, bool_decide_eq_false_2 by naive_solver.
    by rewrite app_nil_r.
  - set (m2 := set_mg_mailbox _ m1). eexists. split; [done|].
    assert (∀ l, maybe_wake_leader_when_all_idle (H := env 0) m2 = Some l ↔ _) as Hwake
      by (intros l; by apply (maybe_wake_spec (H2 := env 0) m2 l)).
    split.
    + rewrite Hwake. split.
      * intros ((u & Hu & _ & Hi) & _ & Ho). split; [|done].
        exists u. split; [|done]. cbn in Hu. by rewrite lookup_insert_ne in Hu.
      * intros ((u & Hu & Hi) & Ho). split; [|split; [|done]].
        -- exists t. split; [done|]. split; [done|]. congruence.
        -- exists slot_id, (idle_slot s). split; [cbn; by rewrite lookup_insert_eq|done].
    + destruct (maybe_wake_leader_when_all_idle (H := env 0) m2) as [l|] eqn:Hl; [right|by left].
      destruct (proj1 (Hwake l) eq_refl) as ((u & Hu & Hul & _) & _). destruct Hm1 as (_ & Huniq & _).
      f_equal. by apply (Huniq l lead u t).
Qed.
(** ** Broadcasts *)

Lemma send_each_ok `{!QueryEnv} from message files targets n m :
  (∀ i, query_fails i = false) → NoDup targets →
  ∃ t, send_each n from message files targets m = (Ok tt, set_mg_mailbox t m) ∧
    ∀ agent,
      if decide (agent ∈ targets)
      then ∃ i, peek_unread (mg_team_id m) agent t ≡ₚ
        peek_unread (mg_team_id m) agent (mg_mailbox m) ++
        [mkMailboxMessage (@gen_id (query i) 0) (mg_team_id m) agent from Message message None
           (if bool_decide (files = []) then None else Some files) false (@now_ms (query i))]
      else peek_unread (mg_team_id m) agent t ≡ₚ peek_unread (mg_team_id m) agent (mg_mailbox m).
Proof.
  intros Hq. revert n m. induction targets as [|target targets IH]; intros n m Hnd.
  { exists (mg_mailbox m). cbn [send_each]. split; [by destruct m|].
    intros agent. by rewrite decide_False by set_solver. }
  apply NoDup_cons in Hnd as [Hnew Hnd]. cbn [send_each]. unfold act_bind.
  destruct (mailbox_query_ok n target from Message message None (Some files) m (Hq n))
    as (row & -> & Hrow & Hunread).
  destruct (IH (S n) (set_mg_mailbox (mg_mailbox m ++ [row]) m) Hnd) as (t & -> & Ht).
  exists t. split; [done|]. intros agent. specialize (Ht agent).
  cbn [mg_mailbox mg_team_id set_mg_mailbox] in Ht. destruct (decide (agent = target)) as [->|Hne].
  - rewrite decide_False in Ht by done. rewrite decide_True by set_solver. exists n.
    rewrite Ht, peek_unread_snoc, Hunread, bool_decide_eq_true_2 by done. rewrite Hrow. reflexivity.
  - assert (peek_unread (mg_team_id m) agent (mg_mailbox m ++ [row]) ≡ₚ
            peek_unread (mg_team_id m) agent (mg_mailbox m)) as Hsame.
    { rewrite peek_unread_snoc, Hunread, bool_decide_eq_false_2 by naive_solver. by rewrite app_nil_r. }
    destruct (decide (agent ∈ targets)).
    + rewrite decide_True by set_solver. destruct Ht as [i Ht]. exists i. by rewrite Ht, Hsame.
    + rewrite decide_False by set_solver. by rewrite Ht, Hsame.
Qed.

(** A message to [*] reaches every agent of the team but its sender, each once, and
    nobody else, in whatever order the slots are looked at. *)
Theorem broadcast_reaches_everyone_else `{!QueryEnv} from message files m :
  (∀ i, query_fails i = false) →
  ∃ t, handle_send_message from "*" message files m = (Ok tt, set_mg_mailbox t m) ∧
    ∀ agent,
      if decide (is_Some (mg_slots m !! agent) ∧ agent ≠ from)
      then ∃ id at_, peek_unread (mg_team_id m) agent t ≡ₚ
        peek_unread (mg_team_id m) agent (mg_mailbox m) ++
        [mkMailboxMessage id (mg_team_id m) agent from Message message None
           (if bool_decide (files = []) then None else Some files) false at_]
      else peek_unread (mg_team_id m) agent t ≡ₚ peek_unread (mg_team_id m) agent (mg_mailbox m).
Proof.
  intros Hq. set (targets := filter (λ id, id ≠ from) (hash_iter (mg_slots m)).*1).
  assert (NoDup targets) as Hnd by apply NoDup_filter, NoDup_hash_keys.
  destruct (send_each_ok from message files targets 0 m Hq Hnd) as (t & Ht & Hall).
  exists t. split; [exact Ht|]. intros agent. specialize (Hall agent).
  assert (agent ∈ targets ↔ is_Some (mg_slots m !! agent) ∧ agent ≠ from) as Hin.
  { unfold targets. rewrite list_elem_of_filter, list_elem_of_fmap. split.
    - intros (Hne & [k s] & -> & Hk%elem_of_hash_iter). by split; [eexists|].
    - intros ([s Hs] & Hne). split; [done|]. exists (agent, s). by rewrite elem_of_hash_iter. }
  destruct (decide (agent ∈ targets)); destruct (decide (is_Some _ ∧ _)); try tauto.
  destruct Hall as [i Hi]. eauto.
Qed.

(** The status [Error] that the event loop and [on_agent_finish] set when a turn has failed
    does not outlive the end of the turn, which sets [Idle]. *)
Lemma failed_turn_ends_idle env slot_id actions m :
  is_ok (finalize_turn env slot_id actions m).1 →
  ∃ s, mg_slots (finalize_turn env slot_id actions m).2 !! slot_id = Some s ∧ as_status s = AgentIdle.
Proof.
  unfold finalize_turn. generalize (None : option string) as summary. revert env m.
  induction actions as [|a actions IH]; intros env m summary; cbn [finalize_actions].
  2: { destruct a; try apply IH; unfold act_bind;
       destruct (execute_action _ _ _) as [[?|?] ?]; by try apply IH. }
  unfold mark_idle, set_status, find_slot, act_bind, act_read.
  destruct (mg_slots m !! slot_id) as [s|] eqn:Hs; cbn [ok_or fst snd]; [|done].
  unfold broadcast. cbn [mg_slots set_mg_events set_mg_slots]. rewrite lookup_insert_eq. cbn [ok_or].
  case_match; [intros _; cbn; rewrite lookup_insert_eq; eauto|].
  destruct (find_lead_slot_id _) as [lead|]; [|intros _; cbn; rewrite lookup_insert_eq; eauto].
  case_bool_decide; [|intros _; cbn; rewrite lookup_insert_eq; eauto].
  match goal with |- context [mailbox_query ?n ?a ?b ?c ?d ?e ?f ?m0] =>
    pose proof (mailbox_query_slots (H2 := env 0) n a b c d e f m0) as Hq; revert Hq;
    destruct (mailbox_query (H := env 0) n a b c d e f m0) as [[?|?] m2] end; intros Hq; [|done].
  intros _. cbn [snd] in Hq. cbn [act_ret fst snd]. rewrite Hq. cbn. rewrite lookup_insert_eq. eauto.
Qed.
End theorems.

(** ** A team at work *)

Module RosterDemo.
#[local] Instance demo_lowercase : Lowercase := to_ascii_lowercase.
#[local] Existing Instance insertion_order.
#[local] Existing Instance plain_json.

Definition demo_query (n : nat) : CallEnv :=
  {| call_order := plain_order; gen_id k := "m" +:+ pretty (n + k); now_ms := 1000 |}.
#[local] Instance demo_queries : QueryEnv :=
  {| query_order := plain_order; query := demo_query; query_fails _ := false |}.

Definition demo_agent (id name : string) (role : TeammateRole) : TeamAgent :=
  MkTeamAgent id name role ("conversation-" +:+ id) "claude" "m" None None None None.
Definition demo_team : list TeamAgent :=
  [demo_agent "lead" "Leader" RoleLead; demo_agent "w1" "Ann" RoleTeammate;
   demo_agent "w2" "Bob" RoleTeammate].

Definition demo_roster : TeammateManager :=
  run_roster_op (λ _, demo_queries) (OpSetStatus "w1" AgentWorking) (new_roster "team" demo_team [] ∅).

Lemma demo_team_ok : team_ok demo_team.
Proof.
  assert (Forall (λ a, ta_role a = RoleLead → a = demo_agent "lead" "Leader" RoleLead) demo_team) as Hlead
    by (repeat constructor; done).
  rewrite Forall_forall in Hlead. intros a b Ha Hb Hla Hlb.
  by rewrite (Hlead _ Ha Hla), (Hlead _ Hb Hlb).
Qed.

Lemma demo_roster_reachable : roster_reachable demo_roster.
Proof. apply roster_step; [apply roster_new, demo_team_ok|exact I]. Qed.

Lemma roster_invariant_witness :
  (rename_agent "w1" " BOB " demo_roster).1 = Err (DuplicateAgentName " BOB ") ∧
  ∀ i s, mg_slots demo_roster !! i = Some s → ta_slot_id (as_agent s) = i.
Proof.
  split; [|exact (proj1 (roster_invariant demo_roster demo_roster_reachable))].
  destruct (roster_invariant demo_roster demo_roster_reachable) as (_ & _ & _ & Hrename).
  rewrite Hrename. vm_compute. reflexivity.
Defined.

Lemma leader_woken_iff_witness :
  maybe_wake_leader_when_all_idle demo_roster ≠ Some "lead".
Proof.
  rewrite (leader_woken_iff demo_roster "lead" demo_roster_reachable). intros (_ & _ & Hall).
  specialize (Hall "w1" (MkAgentSlot (set_ta_status (Some AgentWorking) (demo_agent "w1" "Ann" RoleTeammate))
                           AgentWorking true) ltac:(vm_compute; reflexivity) ltac:(reflexivity)).
  revert Hall. apply (bool_decide_unpack (_ ∉ _)). vm_compute. exact I.
Defined.

Definition demo_ended : TeammateManager := (finalize_turn (λ _, demo_queries) "w1" [] demo_roster).2.

Lemma turn_end_reported_witness :
  mg_slots demo_ended = <[ "w1" := idle_slot (MkAgentSlot
      (set_ta_status (Some AgentWorking) (demo_agent "w1" "Ann" RoleTeammate)) AgentWorking true)]>
    (mg_slots demo_roster) ∧
  (finalize_turn (λ _, demo_queries) "w1" [] demo_roster).1 = Ok (Some "lead").
Proof.
  split; [|vm_compute; reflexivity].
  apply (turn_end_reported (λ _, demo_queries) "w1" demo_roster _ "lead" demo_roster_reachable);
    [vm_compute; reflexivity|reflexivity|].
  eexists. split; [vm_compute; reflexivity|exact I].
Defined.

Lemma broadcast_reaches_everyone_else_witness :
  ∃ t, handle_send_message "w1" "*" "hello" [] demo_roster = (Ok tt, set_mg_mailbox t demo_roster) ∧
    peek_unread "team" "w1" t ≡ₚ [] ∧ length (peek_unread "team" "lead" t) = 1.
Proof.
  destruct (broadcast_reaches_everyone_else (H2 := demo_queries) "w1" "hello" [] demo_roster ltac:(done))
    as (t & Ht & Hall). exists t. split; [exact Ht|]. split.
  - specialize (Hall "w1"). rewrite decide_False in Hall by (intros [_ []]; reflexivity). exact Hall.
  - specialize (Hall "lead").
    rewrite decide_True in Hall by (split; [by eexists; vm_compute|done]).
    destruct Hall as (id & at_ & Hp). rewrite Hp. vm_compute. reflexivity.
Defined.

(** A task that removes the entry of a conversation after the window is left behind when
    [on_agent_finish] clears the entry; it then removes the entry of the next end, so that
    a third end only a millisecond after the second is not taken for a repetition. *)
Example stale_removal_reopens_window :
  let m := (begin_finalize 0 "c" demo_roster).2 in
  let m := clear_finalized_turn "c" m in
  let '(second, m) := begin_finalize 4999 "c" m in
  let m := run_removals 5000 m in
  second = true ∧ (begin_finalize 5000 "c" m).1 = true.
Proof. vm_compute. by split. Qed.

(** Adding an agent does not look at its name. *)
Example added_agent_may_share_name :
  let m := add_agent (demo_agent "w3" " ann" RoleTeammate) demo_roster in
  normalize_name "Ann" = normalize_name " ann" ∧ length (list_agents m) = 4.
Proof. vm_compute. by split. Qed.

(** An action that fails ends [finalize_turn] before [mark_idle]: the agent stays at work
    and the lead is not told. *)
Example failed_action_leaves_agent_working :
  let '(r, m) := finalize_turn (λ _, demo_queries) "w1" [ActShutdownAgent "w2" None] demo_roster in
  r = Err (InvalidRequest "only lead can shutdown agents") ∧
  as_status <$> mg_slots m !! "w1" = Some AgentWorking ∧ mg_mailbox m = [].
Proof. vm_compute. by repeat split. Qed.
End RosterDemo.
