(* ===== verification/Session.v ===== *)
(** * Team session: how messages, members and turns become work

    Models [TeamSession] of [crates/aionui-team/src/session.rs] but for the preparation of
    a batch, which is in [EventLoop]: sending messages, shutting down, spawning, adding
    and removing agents, cancelling and pausing their turns, attaching their runtimes and
    the recovery of what was left unread; and the end of a turn in
    [event_loop.rs].

    A method is a program ([prog]) of atomic steps: one call of the coordinator, of the
    manager of the agents, of the run manager or of the registry of runtimes, one query of
    the mailbox, one look at the state, or one question to the rest of the system
    ([Question]: the cancellation port, the projection of messages to the clients, the
    service above).  Between two steps anything may happen; [run_prog] runs a method on its
    own.  What a step takes from outside is a [StepEnv].  The methods of the manager that
    make several queries are one step, and the wait for another removal is left out, as are
    logging and the events that the service above broadcasts. *)
From stdpp Require Import gmap.
From S2P Require Import Prelude Text Storage WorkModel WorkState WorkCoordinator TeamRun.
From S2P Require MemberRuntime.
From S2P Require Import WorkSystem Mailbox TaskBoard Roster EventLoop.

(** ** Data *)

(** [TeamChildTurnPayload] *)
Record TeamChildTurnPayload := MkTeamChildTurnPayload {
  ct_team_id : string;
  ct_team_run_id : string;
  ct_slot_id : string;
  ct_role : TeamRunTargetRole;
  ct_conversation_id : string;
  ct_turn_id : string;
  ct_status : TeamRunStatus;
}.

Definition TEAM_CHILD_TURN_COMPLETED_EVENT : string := "team.childTurnCompleted".
Definition TEAM_CHILD_TURN_CANCELLED_EVENT : string := "team.childTurnCancelled".

(** [TeamMessageEnqueueStatus], [TeamRunAckResponse] *)
Inductive TeamMessageEnqueueStatus := EnqueueAccepted | EnqueueQueued | EnqueueBlockedRuntimeStarting.

Record TeamRunAckResponse := MkTeamRunAckResponse {
  ak_enqueue_status : TeamMessageEnqueueStatus;
  ak_message_id : string;
  ak_run : TeamRunPayload;
}.

(** [AgentMessageQueueResult] *)
Record AgentMessageQueueResult := MkAgentMessageQueueResult {
  qr_team_run_id : option string;
  qr_target : TeamSlotWorkPayload;
}.

(** [SpawnAgentRequest], [PersistSpawnedAgentRequest] *)
Record SpawnAgentRequest := MkSpawnAgentRequest {
  sp_name : string;
  sp_assistant_id : option string;
}.

Record PersistSpawnedAgentRequest := MkPersistSpawnedAgentRequest {
  pq_team_id : string;
  pq_user_id : string;
  pq_slot_id : string;
  pq_name : string;
  pq_backend : string;
  pq_model : string;
  pq_assistant_id : option string;
}.

Section session.
Context `{!MemberRuntime.Watch, Lowercase, !SqlOrder, !SerdeJson}.

(** What the session asks of the rest of the system, with the type of the answer *)
Inductive Question : Type → Type :=
  | CancelAgentTurn (user_id conversation_id turn_id : string) : Question (result unit string)
  | Project (slot_id conversation_id content : string) (files : list string) :
      Question (result unit string)
  | KillAndWait (conversation_id : string) : Question unit
  | ServiceAlive : Question bool
  | ResolveSpawnBackendAndModel (assistant_id backend model : string) :
      Question (result (string * string) TeamError)
  | PersistSpawnedAgent (request : PersistSpawnedAgentRequest) : Question (result TeamAgent TeamError)
  | ServiceRemoveAgent (slot_id : string) : Question unit
  | CapturePublishedSession : Question bool
  | SpawnAttachBg (agent : TeamAgent) (reservation : MemberRuntime.ReserveAttach) : Question unit
  | AttachAgentProcess (agent : TeamAgent) : Question (result unit TeamError)
  | RegisterEventLoop (slot_id : string) : Question (result bool unit)
  | PublishReadyIfCurrent (slot_id : string) : Question bool
  | CleanupStaleTask (conversation_id : string) : Question unit
  | LoadOwnedTeam : Question (result (list TeamAgent) TeamError)
  | PersistAgents (agents : list TeamAgent) : Question (result unit TeamError)
  | DeleteTeamConversation (conversation_id : string) : Question (result unit string).

(** [ss] = [TeamSession].  The mailbox and the task board are those of the manager.
    [ss_issued] are the batches [next] has returned; [ss_loops] the slots with an event
    loop, [ss_notified] the notifications they got; [ss_asked] the questions so far. *)
Record Session := MkSession {
  ss_scheduler : TeammateManager;
  ss_coordinator : Coordinator TeamRunManager;
  ss_issued : list WorkBatch;
  ss_registry : MemberRuntime.MemberRuntimeRegistry;
  ss_loops : gset string;
  ss_notified : list string;
  ss_recovery_scan_completed : bool;
  ss_turn_events : list (string * TeamChildTurnPayload);
  ss_asked : list {X : Type & Question X};
}.

Definition Session_eta (s : Session) : Session :=
  MkSession (ss_scheduler s) (ss_coordinator s) (ss_issued s) (ss_registry s) (ss_loops s)
    (ss_notified s) (ss_recovery_scan_completed s) (ss_turn_events s) (ss_asked s).
Definition set_ss_scheduler : TeammateManager → Session → Session :=
  ltac:(mk_setter Session_eta ss_scheduler).
Definition set_ss_coordinator : Coordinator TeamRunManager → Session → Session :=
  ltac:(mk_setter Session_eta ss_coordinator).
Definition set_ss_issued : list WorkBatch → Session → Session :=
  ltac:(mk_setter Session_eta ss_issued).
Definition set_ss_registry : MemberRuntime.MemberRuntimeRegistry → Session → Session :=
  ltac:(mk_setter Session_eta ss_registry).
Definition set_ss_loops : gset string → Session → Session :=
  ltac:(mk_setter Session_eta ss_loops).
Definition set_ss_notified : list string → Session → Session :=
  ltac:(mk_setter Session_eta ss_notified).
Definition set_ss_recovery_scan_completed : bool → Session → Session :=
  ltac:(mk_setter Session_eta ss_recovery_scan_completed).
Definition set_ss_turn_events : list (string * TeamChildTurnPayload) → Session → Session :=
  ltac:(mk_setter Session_eta ss_turn_events).
Definition set_ss_asked : list {X : Type & Question X} → Session → Session :=
  ltac:(mk_setter Session_eta ss_asked).

Definition ss_team_id (s : Session) : string := mg_team_id (ss_scheduler s).
Definition ss_mailbox (s : Session) : Table := mg_mailbox (ss_scheduler s).
Definition set_ss_mailbox (t : Table) (s : Session) : Session :=
  set_ss_scheduler (set_mg_mailbox t (ss_scheduler s)) s.
Definition ss_runs (s : Session) : TeamRunManager := co_run_causality (ss_coordinator s).

(** [TeamSession::start] on a new session generation *)
Definition session_start (team_id generation : string) (agents : list TeamAgent) (mailbox : Table)
    (board : Board) : Session :=
  MkSession (new_roster team_id agents mailbox board)
    (new_coordinator generation (new_manager team_id)) [] (MemberRuntime.registry_new generation)
    ∅ [] false [] [].

(** ** Steps *)

(** The calls of the coordinator *)
Inductive CoordinatorOp : Type → Type :=
  | CoAcquire (request : EnqueueRequest) : CoordinatorOp (result EnqueueLease TeamError)
  | CoCommit (lease : EnqueueLease) (mailbox_message_id : option string) :
      CoordinatorOp (result EnqueueCommit TeamError)
  | CoAbort (lease : EnqueueLease) : CoordinatorOp CommitResult
  | CoConstrain (slot_id : string) (constraint : RuntimeConstraint) :
      CoordinatorOp RuntimeConstraintUpdate
  | CoCancelBatch (batch : WorkBatch) (classification : string) : CoordinatorOp CommitResult
  | CoCancelRun (team_run_id : string) : CoordinatorOp CancelRunWorkResult
  | CoPause (slot_id : string) : CoordinatorOp PauseWorkResult
  | CoRemove (slot_id : string) : CoordinatorOp RemoveWorkResult
  | CoSignals (slot_id : string) (intent_ids : list string) : CoordinatorOp CommitResult
  | CoStop : CoordinatorOp (list RunWorkSummary).

Definition coordinator_op `{CallEnv} {X} (op : CoordinatorOp X) (c : Coordinator TeamRunManager) :
    option (X * Coordinator TeamRunManager) :=
  match op with
  | CoAcquire request => Some (acquire_enqueue request c)
  | CoCommit lease message_id => commit_enqueue lease message_id c
  | CoAbort lease => Some (abort_enqueue lease c)
  | CoConstrain slot_id constraint => set_runtime_constraint slot_id constraint c
  | CoCancelBatch batch classification => cancel_batch batch classification c
  | CoCancelRun team_run_id => cancel_run team_run_id c
  | CoPause slot_id => pause_slot slot_id c
  | CoRemove slot_id => remove_slot slot_id c
  | CoSignals slot_id intent_ids => Some (complete_signals slot_id intent_ids c)
  | CoStop => Some (stop c)
  end.

(** What a step takes from outside: the clock and the identifiers, the queries of a method
    of the manager, whether the query of the step fails, and the answers. *)
Class StepEnv := {
  st_call :: CallEnv;
  st_queries : nat → QueryEnv;
  st_fails : bool;
  st_answer : ∀ X, Question X → X;
}.

Inductive atom : Type → Type :=
  | Read {X} (f : StepEnv → Session → X) : atom X
  | SlotSnapshot (slot_id : string) : atom (option SlotWorkSnapshot)
  | Coord {X} (op : CoordinatorOp X) : atom X
  | Sched {X} (f : (nat → QueryEnv) → action TeammateManager TeamError X) : atom (result X TeamError)
  | Runs {X} (f : CallEnv → TeamRunManager → X * TeamRunManager) : atom X
  | Registry {X} (f : CallEnv → MemberRuntime.MemberRuntimeRegistry →
                       X * MemberRuntime.MemberRuntimeRegistry) : atom X
  | WriteMessage (to_agent_id from_agent_id : string) (msg_type : MailboxMessageType)
      (content : string) (summary : option string) (files : option (list string)) :
      atom (result MailboxMessage TeamError)
  | PeekUnread (slot_id : string) : atom (result (list MailboxMessage) TeamError)
  | MarkRead (ids : list string) : atom (result unit TeamError)
  | Notify (slot_id : string) : atom unit
  | RemoveLoop (slot_id : string) : atom unit
  | ShutdownLoops : atom unit
  | SwapRecoveryScan : atom bool
  | ChildTurn (event : string) (payload : TeamChildTurnPayload) : atom unit
  | Ask {X} (q : Question X) : atom X.

(** [None] is a panic of the coordinator. *)
Definition atom_step (e : StepEnv) {X} (a : atom X) (s : Session) : option (X * Session) :=
  match a in atom X return option (X * Session) with
  | Read f => Some (f e s, s)
  | SlotSnapshot slot_id => Some (slot_snapshot slot_id (ss_coordinator s), s)
  | Coord op =>
      '(x, c) ← coordinator_op (H3 := st_call) op (ss_coordinator s);
      Some (x, set_ss_coordinator c s)
  | Sched f => let '(r, m) := f st_queries (ss_scheduler s) in Some (r, set_ss_scheduler m s)
  | Runs f =>
      let '(x, m) := f st_call (ss_runs s) in
      Some (x, set_ss_coordinator (with_port m (ss_coordinator s)) s)
  | Registry f => let '(x, r) := f st_call (ss_registry s) in Some (x, set_ss_registry r s)
  | WriteMessage to_agent_id from_agent_id msg_type content summary files =>
      if st_fails then Some (Err (Database Query), s) else
      let '(message, t) := write_with_files (H1 := st_call) (ss_team_id s) to_agent_id from_agent_id
                             msg_type content summary files (ss_mailbox s) in
      Some (ok_or message
              (InvalidRequest ("invalid message type: " +:+ message_type_to_string msg_type)),
            set_ss_mailbox t s)
  | PeekUnread slot_id =>
      Some (if st_fails then Err (Database Query) else Ok (peek_unread (ss_team_id s) slot_id (ss_mailbox s)), s)
  | MarkRead ids =>
      if st_fails then Some (Err (Database Query), s)
      else Some (Ok tt, set_ss_mailbox (mark_read_batch ids (ss_mailbox s)) s)
  | Notify slot_id =>
      Some (tt, if bool_decide (slot_id ∈ ss_loops s)
                then set_ss_notified (ss_notified s ++ [slot_id]) s else s)
  | RemoveLoop slot_id => Some (tt, set_ss_loops (ss_loops s ∖ {[slot_id]}) s)
  | ShutdownLoops => Some (tt, set_ss_loops ∅ s)
  | SwapRecoveryScan => Some (ss_recovery_scan_completed s, set_ss_recovery_scan_completed true s)
  | ChildTurn event payload => Some (tt, set_ss_turn_events (ss_turn_events s ++ [(event, payload)]) s)
  | @Ask X q => Some (st_answer X q, set_ss_asked (ss_asked s ++ [existT X q]) s)
  end.

(** ** Programs *)

Inductive prog (A : Type) : Type :=
  | Ret (a : A)
  | Do {X : Type} (at_ : atom X) (k : X → prog A).
Arguments Ret {A} a.
Arguments Do {A X} at_ k.

Fixpoint pbind {A B} (p : prog A) (f : A → prog B) : prog B :=
  match p with
  | Ret a => f a
  | Do a k => Do a (λ x, pbind (k x) f)
  end.

(** A method that runs on its own, its [n]-th step in the environment [env n] *)
Fixpoint run_prog (env : nat → StepEnv) {A} (p : prog A) (s : Session) : option (A * Session) :=
  match p with
  | Ret a => Some (a, s)
  | Do a k => '(x, s) ← atom_step (env 0) a s; run_prog (env ∘ S) (k x) s
  end.
End session.

Arguments Ret {_ A} a.
Arguments Do {_ A X} at_ k.

Notation "x '⟵' a ; k" := (Do a (λ x, k))
  (at level 20, a at level 100, k at level 200, right associativity) : aion_scope.
(** [x = a?] of a step *)
Notation "x '⟵?' a ; k" := (Do a (λ r, match r with Ok x => k | Err e => Ret (Err e) end))
  (at level 20, a at level 100, k at level 200, right associativity) : aion_scope.
(** [x = p?] of a method, and [_ = p] *)
Notation "x '⇐?' p ; k" := (pbind p (λ r, match r with Ok x => k | Err e => Ret (Err e) end))
  (at level 20, p at level 100, k at level 200, right associativity) : aion_scope.
Notation "x '⇐' p ; k" := (pbind p (λ x, k))
  (at level 20, p at level 100, k at level 200, right associativity) : aion_scope.
