(* ===== verification/SessionOps.v ===== *)
(** * Team session: the methods

    The methods of [TeamSession] ([session.rs]) and the end of a turn
    ([execute_and_finalize] of [event_loop.rs]) as programs of the steps of [Session]. *)
From S2P Require Import Prelude Text Storage WorkModel WorkState WorkCoordinator TeamRun.
From S2P Require MemberRuntime.
From S2P Require Import WorkSystem Mailbox TaskBoard Roster EventLoop Session.

Section methods.
Context `{!MemberRuntime.Watch, Lowercase, !SqlOrder, !SerdeJson}.
Context (user_id : string).

Definition agent_of (slot_id : string) : atom (result TeamAgent TeamError) :=
  Sched (λ _, get_agent slot_id).
Definition lead_of : atom (option string) :=
  Read (λ _ s, find_lead_slot_id (H := st_queries 0) (ss_scheduler s)).
Definition agents_of : atom (list TeamAgent) :=
  Read (λ _ s, list_agents (H := st_queries 0) (ss_scheduler s)).
Definition active_run_id : atom (option string) :=
  Read (λ _ s, current_active_run_id (ss_runs s)).
Definition team_id_of : atom string := Read (λ _ s, ss_team_id s).

(** ** Enqueueing *)

Definition runtime_constraint (slot_id : string) : atom RuntimeConstraint :=
  Read (λ _ s, runtime_constraint_of (bool_decide (slot_id ∈ ss_loops s))
                 (MemberRuntime.registry_snapshot slot_id (ss_registry s))).

(** [if !ids.is_empty() { self.mailbox.mark_read_batch(&ids).await?; }] *)
Definition mark_terminal (ids : list string) : prog (result unit TeamError) :=
  if bool_decide (ids = []) then Ret (Ok tt) else r ⟵ MarkRead ids; Ret r.

Definition publish_runtime_constraint (slot_id : string) : prog (result unit TeamError) :=
  constraint ⟵ runtime_constraint slot_id;
  update ⟵ Coord (CoConstrain slot_id constraint);
  mark_terminal (ru_terminal_message_ids update).

Definition commit_persisted_enqueue (lease : EnqueueLease) (mailbox_message_id : string) :
    prog (result EnqueueCommit TeamError) :=
  committed ⟵ Coord (CoCommit lease (Some mailbox_message_id));
  match committed with
  | Ok commit => Ret (Ok commit)
  | Err error =>
      _ ⟵ Coord (CoAbort lease);
      _ ⟵ MarkRead [mailbox_message_id];
      Ret (Err error)
  end.

(** What is left of an enqueue once its message is in the mailbox, or was refused *)
Definition enqueue_written (lease : EnqueueLease) (written : result MailboxMessage TeamError)
    (conversation_id content : string) (files : list string) :
    prog (result (MailboxMessage * EnqueueCommit) TeamError) :=
  match written with
  | Err error => _ ⟵ Coord (CoAbort lease); Ret (Err error)
  | Ok message =>
      _ ⟵ Ask (Project (el_slot_id lease) conversation_id content files);
      commit ⇐? commit_persisted_enqueue lease (mm_id message);
      _ ⟵ Notify (el_slot_id lease);
      Ret (Ok (message, commit))
  end.

Definition enqueue_status (d : EnqueueDisposition) : TeamMessageEnqueueStatus :=
  match d with
  | DispositionAccepted => EnqueueAccepted
  | DispositionQueued => EnqueueQueued
  | BlockedRuntimeStarting => EnqueueBlockedRuntimeStarting
  end.

Definition enqueue_user_message (slot_id : string) (role : TeamRunTargetRole) (content : string)
    (files : option (list string)) : prog (result TeamRunAckResponse TeamError) :=
  _ ⇐? publish_runtime_constraint slot_id;
  agent ⟵? agent_of slot_id;
  active ⟵ active_run_id;
  let source := match active with Some _ => UserIntervention | None => UserMessage end in
  lease ⟵? Coord (CoAcquire (mkEnqueueRequest slot_id role source UserVisible));
  written ⟵ WriteMessage slot_id "user" Message content None files;
  enqueued ⇐? enqueue_written lease written (ta_conversation_id agent) content (default [] files);
  snapshot ⟵ Read (λ _ s, snapshot (ss_coordinator s));
  run ⟵ Read (λ _ s, current_payload now_ms snapshot (ss_runs s));
  Ret (match run with
       | None => Err (InvalidRequest "user-visible enqueue lost its team run")
       | Some run =>
           Ok (MkTeamRunAckResponse (enqueue_status (ec_disposition enqueued.2))
                 (mm_id enqueued.1) run)
       end).

Definition send_message (content : string) (files : option (list string)) :
    prog (result TeamRunAckResponse TeamError) :=
  lead ⟵ lead_of;
  match lead with
  | None => Ret (Err (AgentNotFound "no lead agent in team"))
  | Some lead_slot_id => enqueue_user_message lead_slot_id Lead content files
  end.

Definition send_message_to_agent (slot_id content : string) (files : option (list string)) :
    prog (result TeamRunAckResponse TeamError) :=
  agent ⟵? agent_of slot_id;
  enqueue_user_message slot_id (target_role_for (ta_role agent)) content files.

Definition send_agent_message_from_agent (from_slot_id to_slot_id content : string)
    (files : option (list string)) : prog (result AgentMessageQueueResult TeamError) :=
  to_agent ⟵? agent_of to_slot_id;
  _ ⟵? agent_of from_slot_id;
  _ ⇐? publish_runtime_constraint to_slot_id;
  lease ⟵? Coord (CoAcquire (mkEnqueueRequest to_slot_id (target_role_for (ta_role to_agent))
                     McpSendMessage (InheritRunningBatch from_slot_id)));
  written ⟵ WriteMessage to_slot_id from_slot_id Message content None files;
  enqueued ⇐? enqueue_written lease written (ta_conversation_id to_agent) content (default [] files);
  now ⟵ Read (λ _ _, now_ms);
  Ret (Ok (MkAgentMessageQueueResult (ec_team_run_id enqueued.2)
             (slot_payload now (ec_slot enqueued.2)))).

Definition shutdown_agent (caller_slot_id target_slot_id : string) (reason : option string) :
    prog (result unit TeamError) :=
  caller ⟵? agent_of caller_slot_id;
  if bool_decide (ta_role caller ≠ RoleLead) then Ret (Err (LeaderOnly "team_shutdown_agent")) else
  target ⟵? agent_of target_slot_id;
  if bool_decide (ta_role target = RoleLead)
  then Ret (Err (InvalidRequest "cannot shutdown the team lead")) else
  _ ⇐? publish_runtime_constraint target_slot_id;
  lease ⟵? Coord (CoAcquire (mkEnqueueRequest target_slot_id (target_role_for (ta_role target))
                     McpShutdownRequest (InheritRunningBatch caller_slot_id)));
  shutdown_message ⟵ Sched (λ env, request_shutdown_agent (H := env 0) caller_slot_id
                                     target_slot_id reason);
  match shutdown_message with
  | Err error => _ ⟵ Coord (CoAbort lease); Ret (Err error)
  | Ok message =>
      if bool_decide (mm_to_agent_id message ≠ target_slot_id) then
        _ ⟵ Coord (CoAbort lease);
        Ret (Err (InvalidRequest ("shutdown mailbox target mismatch: expected " +:+ target_slot_id +:+
                                  ", got " +:+ mm_to_agent_id message)))
      else
        _ ⇐? commit_persisted_enqueue lease (mm_id message);
        _ ⟵ Notify target_slot_id;
        Ret (Ok tt)
  end.

Definition enqueue_existing_work (slot_id : string) (source : WorkSource)
    (mailbox_message_id : option string) (binding : CausalBinding) :
    prog (result (option string) TeamError) :=
  agent ⟵? agent_of slot_id;
  _ ⇐? publish_runtime_constraint slot_id;
  lease ⟵? Coord (CoAcquire (mkEnqueueRequest slot_id (target_role_for (ta_role agent)) source binding));
  commit ⇐? match mailbox_message_id with
            | Some message_id => commit_persisted_enqueue lease message_id
            | None =>
                committed ⟵ Coord (CoCommit lease None);
                match committed with
                | Ok commit => Ret (Ok commit)
                | Err error => _ ⟵ Coord (CoAbort lease); Ret (Err error)
                end
            end;
  _ ⟵ Notify slot_id;
  Ret (Ok (ec_team_run_id commit)).

Definition enqueue_leader_settle_signal (slot_id : string) (source : WorkSource) :
    prog (result unit TeamError) :=
  _ ⇐? enqueue_existing_work slot_id source None ActiveRunOrBackground;
  Ret (Ok tt).

(** ** Recovery *)

(** The inner loop of [try_start_recovery_drain] *)
Fixpoint recover_messages (slot_id : string) (unread : list string) : prog (result unit TeamError) :=
  match unread with
  | [] => Ret (Ok tt)
  | message_id :: unread =>
      _ ⇐? enqueue_existing_work slot_id RecoveryDrain (Some message_id) BackgroundBinding;
      recover_messages slot_id unread
  end.

(** The loop over the agents *)
Fixpoint recover_slots (agents : list TeamAgent) (recovered_slots : list string) :
    prog (result (list string) TeamError) :=
  match agents with
  | [] => Ret (Ok recovered_slots)
  | agent :: agents =>
      peeked ⟵? PeekUnread (ta_slot_id agent);
      let unread := mm_id <$> filter (λ m, mm_from_agent_id m ≠ ta_slot_id agent) peeked in
      if bool_decide (unread = []) then recover_slots agents recovered_slots else
      _ ⇐? recover_messages (ta_slot_id agent) unread;
      recover_slots agents (recovered_slots ++ [ta_slot_id agent])
  end.

Definition try_start_recovery_drain : prog (result (list string) TeamError) :=
  completed ⟵ SwapRecoveryScan;
  if completed : bool then Ret (Ok []) else
  agents ⟵ agents_of;
  recover_slots agents [].

(** ** Telling the lead *)

Definition wake_leader_after_recovery_message (source_slot_id : string) (source : WorkSource) :
    prog (result unit TeamError) :=
  lead ⟵ lead_of;
  match lead with
  | None => Ret (Err (AgentNotFound "lead"))
  | Some lead_slot_id =>
      peeked ⟵? PeekUnread lead_slot_id;
      match List.find (λ m, bool_decide (mm_from_agent_id m = source_slot_id)) (reverse peeked) with
      | None => Ret (Ok tt)
      | Some message =>
          _ ⇐? enqueue_existing_work lead_slot_id source (Some (mm_id message))
                 (InheritRunningBatch source_slot_id);
          Ret (Ok tt)
      end
  end.

Definition notify_leader_child_interrupted (slot_id : string) (reason : option string) :
    prog (result unit TeamError) :=
  lead ⟵ lead_of;
  match lead with
  | None => Ret (Ok tt)
  | Some lead_slot_id =>
      let content := default ("Agent " +:+ slot_id +:+ " was interrupted by the user.") reason in
      _ ⟵? WriteMessage lead_slot_id slot_id IdleNotificationMessage content
             (Some "Interrupted by user") None;
      _ ⇐? wake_leader_after_recovery_message slot_id InterruptedNotification;
      Ret (Ok tt)
  end.

Definition notify_leader_spawn_attach_failed (failed_slot_id error : string) :
    prog (result unit TeamError) :=
  lead ⟵ lead_of;
  match lead with
  | None => Ret (Err (AgentNotFound "lead"))
  | Some lead_slot_id =>
      _ ⟵? WriteMessage lead_slot_id failed_slot_id Message
             ("Spawned teammate " +:+ failed_slot_id +:+
              " failed to attach its runtime. Error: " +:+ error) None None;
      wake_leader_after_recovery_message failed_slot_id SpawnAttachFailure
  end.

(** ** Cancelling and pausing *)

Definition cancelled_turn (team_run_id slot_id turn_id : string) (role : TeamRunTargetRole)
    (agent : TeamAgent) : prog unit :=
  team_id ⟵ team_id_of;
  _ ⟵ ChildTurn TEAM_CHILD_TURN_CANCELLED_EVENT
        (MkTeamChildTurnPayload team_id team_run_id slot_id role (ta_conversation_id agent) turn_id
           RunCancelled);
  Ret tt.

(** The loop of [cancel_run] over the batches to cancel *)
Fixpoint cancel_targets (team_run_id : string) (targets : list BatchCancelTarget) :
    prog (result unit TeamError) :=
  match targets with
  | [] => Ret (Ok tt)
  | target :: targets =>
      match bt_turn_id target with
      | None => cancel_targets team_run_id targets
      | Some turn_id =>
          agent ⟵? agent_of (wb_slot_id (bt_batch target));
          _ ⟵ Ask (CancelAgentTurn user_id (ta_conversation_id agent) turn_id);
          _ ⇐ cancelled_turn team_run_id (wb_slot_id (bt_batch target)) turn_id
                (target_role_for (ta_role agent)) agent;
          cancel_targets team_run_id targets
      end
  end.

Definition team_cancel_run (team_run_id : string) (reason : option string) :
    prog (result unit TeamError) :=
  active ⟵ active_run_id;
  if bool_decide (active ≠ Some team_run_id)
  then Ret (Err (InvalidRequest ("team run " +:+ team_run_id +:+ " is not active"))) else
  _ ⟵? Runs (λ _, begin_cancel now_ms team_run_id reason);
  cancelled ⟵ Coord (CoCancelRun team_run_id);
  _ ⇐? mark_terminal (cw_terminal_message_ids cancelled);
  cancel_targets team_run_id (cw_cancel_targets cancelled).

(** [cancel_agent_turn(..).await.map_err(|error| InvalidRequest(error.to_string()))?] and the event *)
Definition cancel_turn_of (team_run_id slot_id : string) (role : TeamRunTargetRole)
    (turn_id : string) : prog (result unit TeamError) :=
  agent ⟵? agent_of slot_id;
  cancelled ⟵ Ask (CancelAgentTurn user_id (ta_conversation_id agent) turn_id);
  match cancelled with
  | Err error => Ret (Err (InvalidRequest error))
  | Ok _ => _ ⇐ cancelled_turn team_run_id slot_id turn_id role agent; Ret (Ok tt)
  end.

Definition cancel_child_turn (team_run_id slot_id : string) (reason : option string) :
    prog (result unit TeamError) :=
  snapshot ⟵ SlotSnapshot slot_id;
  match snapshot with
  | None => Ret (Err (AgentNotFound slot_id))
  | Some snapshot =>
      match sn_active_batch snapshot with
      | None => Ret (Err (InvalidRequest ("slot has no active batch: " +:+ slot_id)))
      | Some batch =>
          if bool_decide (team_run_id ∉ wb_team_run_ids batch)
          then Ret (Err (InvalidRequest ("agent " +:+ slot_id +:+ " is not active in team run " +:+
                                         team_run_id))) else
          _ ⇐? match sn_active_turn_id snapshot with
               | Some turn_id => cancel_turn_of team_run_id slot_id (sn_role snapshot) turn_id
               | None => Ret (Ok tt)
               end;
          _ ⟵ Coord (CoCancelBatch batch "child_cancelled");
          if bool_decide (sn_role snapshot = Teammate)
          then notify_leader_child_interrupted slot_id reason else Ret (Ok tt)
      end
  end.

Definition pause_slot_work (team_run_id slot_id : string) (reason : option string) :
    prog (result unit TeamError) :=
  active ⟵ active_run_id;
  if bool_decide (active ≠ Some team_run_id)
  then Ret (Err (InvalidRequest ("team run " +:+ team_run_id +:+ " is not active"))) else
  outcome ⟵ Coord (CoPause slot_id);
  match pw_cancel_target outcome with
  | None => Ret (Ok tt)
  | Some target =>
      _ ⇐? match bt_turn_id target with
           | Some turn_id => cancel_turn_of team_run_id slot_id (sn_role (pw_slot outcome)) turn_id
           | None => Ret (Ok tt)
           end;
      _ ⟵ Coord (CoCancelBatch (bt_batch target) "slot_paused");
      if bool_decide (sn_role (pw_slot outcome) = Teammate)
      then notify_leader_child_interrupted slot_id reason else Ret (Ok tt)
  end.

(** ** Members *)

Definition session_add_agent (agent : TeamAgent) : prog unit :=
  _ ⟵ Sched (λ _ m, (Ok tt, add_agent agent m)); Ret tt.

Definition reserve_dynamic_member_attach (agent : TeamAgent) : atom MemberRuntime.ReserveAttach :=
  Registry (λ _, MemberRuntime.reserve_attach (ta_slot_id agent) false).

Definition project_team_system_message (slot_id conversation_id content : string) : prog unit :=
  _ ⟵ Ask (Project slot_id conversation_id content []); Ret tt.

Definition member_facts (agent : TeamAgent) : string :=
  "(slot_id=" +:+ ta_slot_id agent +:+ ", assistant_id=" +:+ default "" (ta_assistant_id agent) +:+
  ", model=" +:+ ta_model agent +:+
  "). Call team_members to get the latest roster before delegating work.".

Definition add_manual_agent (agent : TeamAgent) : prog (result unit TeamError) :=
  _ ⇐ session_add_agent agent;
  lead ⟵ lead_of;
  match lead with
  | None => Ret (Err (InvalidRequest "team lead not found"))
  | Some lead_slot_id =>
      welcome ⟵? WriteMessage (ta_slot_id agent) "team_system" Message
        "You were manually added to this team. Read your mailbox and wait for instructions." None None;
      leader_notice ⟵? WriteMessage lead_slot_id "team_system" Message
        ("The user manually added teammate '" +:+ ta_name agent +:+ "' " +:+ member_facts agent) None None;
      _ ⇐ project_team_system_message (ta_slot_id agent) (ta_conversation_id agent) (mm_content welcome);
      lead_agent ⟵? agent_of lead_slot_id;
      _ ⇐ project_team_system_message lead_slot_id (ta_conversation_id lead_agent)
            (mm_content leader_notice);
      _ ⇐? enqueue_existing_work (ta_slot_id agent) SpawnWelcome (Some (mm_id welcome))
             ActiveRunOrBackground;
      _ ⇐? enqueue_existing_work lead_slot_id TeamMembershipChanged (Some (mm_id leader_notice))
             ActiveRunOrBackground;
      Ret (Ok tt)
  end.

Definition notify_leader_membership_removed (removed : TeamAgent) : prog (result unit TeamError) :=
  lead ⟵ lead_of;
  match lead with
  | None => Ret (Err (InvalidRequest "team lead not found"))
  | Some lead_slot_id =>
      notice ⟵? WriteMessage lead_slot_id "team_system" Message
        ("Teammate '" +:+ ta_name removed +:+ "' was removed from the team " +:+ member_facts removed)
        None None;
      lead_agent ⟵? agent_of lead_slot_id;
      _ ⇐ project_team_system_message lead_slot_id (ta_conversation_id lead_agent) (mm_content notice);
      _ ⇐? enqueue_existing_work lead_slot_id TeamMembershipChanged (Some (mm_id notice))
             ActiveRunOrBackground;
      Ret (Ok tt)
  end.

(** [remove_agent], for an agent that nobody else is removing *)
Definition remove_agent_work (slot_id : string) : prog (result unit TeamError) :=
  work ⟵ Coord (CoRemove slot_id);
  _ ⇐? mark_terminal (rw_terminal_message_ids work);
  _ ⇐? match rw_cancel_target work ≫= bt_turn_id with
       | Some turn_id =>
           agent ⟵? agent_of slot_id;
           _ ⟵ Ask (CancelAgentTurn user_id (ta_conversation_id agent) turn_id);
           Ret (Ok tt)
       | None => Ret (Ok tt)
       end;
  _ ⟵ RemoveLoop slot_id;
  conversation_id ⟵? Sched (λ _, remove_agent slot_id);
  match conversation_id with
  | Some conversation_id => _ ⟵ Ask (KillAndWait conversation_id); Ret (Ok tt)
  | None => Ret (Ok tt)
  end.

Definition session_remove_agent (slot_id : string) : prog (result unit TeamError) :=
  removal ⟵ Registry (λ _, MemberRuntime.begin_remove slot_id);
  match removal with
  | MemberRuntime.RemoveJoin _ => Ret (Ok tt)
  | MemberRuntime.RemoveStart lease =>
      _ ⟵ Coord (CoConstrain slot_id (Removing (MemberRuntime.rl_operation_id lease)));
      _ ⇐? remove_agent_work slot_id;
      _ ⟵ Registry (λ _, MemberRuntime.finish_remove lease);
      Ret (Ok tt)
  | MemberRuntime.RemoveAbsent | MemberRuntime.RemoveSessionStopped => remove_agent_work slot_id
  end.

(** [TeamSessionService::remove_agent] of [service.rs] on the published session, which it
    takes instead of [TeamSession::remove_agent] *)
Definition finish_service_removal (removed : TeamAgent) (lease : option MemberRuntime.RemoveLease) :
    prog (result unit TeamError) :=
  _ ⟵ RemoveLoop (ta_slot_id removed);
  _ ⟵ Ask (KillAndWait (ta_conversation_id removed));
  gone ⟵ Sched (λ _, remove_agent (ta_slot_id removed));
  match gone with
  | Ok _ | Err (AgentNotFound _) =>
      _ ⇐ match lease with
          | Some lease => _ ⟵ Registry (λ _, MemberRuntime.finish_remove lease); Ret tt
          | None => Ret tt
          end;
      _ ⟵ Ask (DeleteTeamConversation (ta_conversation_id removed));
      captured ⟵ Ask CapturePublishedSession;
      if captured : bool then notify_leader_membership_removed removed else Ret (Ok tt)
  | Err error => Ret (Err error)
  end.

Definition service_remove_agent (slot_id : string) : prog (result unit TeamError) :=
  team ⟵? Ask LoadOwnedTeam;
  match List.find (λ a, bool_decide (ta_slot_id a = slot_id)) team with
  | None => Ret (Err (AgentNotFound slot_id))
  | Some removed =>
      if bool_decide (ta_role removed = RoleLead)
      then Ret (Err (InvalidRequest "cannot remove the team lead")) else
      removal ⟵ Registry (λ _, MemberRuntime.begin_remove slot_id);
      let go lease :=
        _ ⟵ RemoveLoop slot_id;
        _ ⟵ Ask (KillAndWait (ta_conversation_id removed));
        current ⟵? Ask LoadOwnedTeam;
        persisted ⟵ Ask (PersistAgents (filter (λ a, ta_slot_id a ≠ slot_id) current));
        match persisted with
        | Err error =>
            _ ⇐ match lease with
                | Some lease =>
                    _ ⟵ Registry (λ _, MemberRuntime.restore_attach_required_after_remove_persist_error
                          lease (MemberRuntime.MkFailure "membership_persist_failed"
                            "Agent runtime needs to restart after membership update failed"));
                    Ret tt
                | None => Ret tt
                end;
            Ret (Err error)
        | Ok _ => finish_service_removal removed lease
        end in
      match removal with
      | MemberRuntime.RemoveJoin _ => Ret (Ok tt)
      | MemberRuntime.RemoveStart lease => go (Some lease)
      | MemberRuntime.RemoveAbsent | MemberRuntime.RemoveSessionStopped => go None
      end
  end.

Definition session_rename_agent (slot_id new_name : string) : prog (result unit TeamError) :=
  r ⟵ Sched (λ env, rename_agent (H := env 0) slot_id new_name); Ret r.

Definition spawn_agent (caller_slot_id : string) (req : SpawnAgentRequest) :
    prog (result TeamAgent TeamError) :=
  caller ⟵? agent_of caller_slot_id;
  if bool_decide (ta_role caller ≠ RoleLead) then Ret (Err (LeaderOnly "spawn_agent")) else
  let requested_name := utrim (sp_name req) in
  if bool_decide (requested_name = EmptyString)
  then Ret (Err (InvalidRequest "spawn_agent.name must not be empty")) else
  let normalized := normalize_name requested_name in
  if bool_decide (normalized = EmptyString)
  then Ret (Err (InvalidRequest "spawn_agent.name is empty after normalization")) else
  existing ⟵ agents_of;
  if existsb (λ a, bool_decide (normalize_name (ta_name a) = normalized)) existing
  then Ret (Err (DuplicateAgentName requested_name)) else
  match s ← sp_assistant_id req; non_empty (utrim s) with
  | None => Ret (Err (InvalidRequest "spawn_agent.assistant_id is required"))
  | Some assistant_id =>
      alive ⟵ Ask ServiceAlive;
      if negb alive then Ret (Err (InvalidRequest "spawn_agent requires a live TeamSessionService")) else
      resolved ⟵? Ask (ResolveSpawnBackendAndModel assistant_id (ta_backend caller) (ta_model caller));
      new_slot_id ⟵ Read (λ _ _, gen_id 0);
      team_id ⟵ team_id_of;
      new_agent ⟵? Ask (PersistSpawnedAgent
        {| pq_team_id := team_id; pq_user_id := user_id; pq_slot_id := new_slot_id;
           pq_name := requested_name; pq_backend := resolved.1; pq_model := resolved.2;
           pq_assistant_id := Some assistant_id |});
      reservation ⟵ reserve_dynamic_member_attach new_agent;
      _ ⇐ session_add_agent new_agent;
      welcome ⟵ WriteMessage (ta_slot_id new_agent) caller_slot_id Message
        "You have been spawned as a teammate. Read your mailbox and wait for instructions." None None;
      match welcome with
      | Err err =>
          alive ⟵ Ask ServiceAlive;
          if alive : bool then _ ⟵ Ask (ServiceRemoveAgent (ta_slot_id new_agent)); Ret (Err err)
          else _ ⟵ Sched (λ _, remove_agent (ta_slot_id new_agent)); Ret (Err err)
      | Ok welcome_message =>
          _ ⇐? enqueue_existing_work (ta_slot_id new_agent) SpawnWelcome (Some (mm_id welcome_message))
                 (InheritRunningBatch caller_slot_id);
          captured ⟵ Ask CapturePublishedSession;
          if negb captured then Ret (Err (SessionNotFound team_id)) else
          _ ⟵ Ask (SpawnAttachBg new_agent reservation);
          Ret (Ok new_agent)
      end
  end.

(** ** Attaching a runtime *)

Definition sanitize_member_runtime_failure (error : TeamError) : MemberRuntime.MemberRuntimeFailure :=
  MemberRuntime.MkFailure
    match error with
    | Database _ => "runtime_configuration_failed"
    | SessionNotFound _ => "session_stopped"
    | _ => "runtime_start_failed"
    end "Agent runtime failed to start".

(** [attach_member_runtime] when the process could not be attached *)
Definition attach_failed (agent : TeamAgent) (lease : MemberRuntime.AttachLease) (error : TeamError) :
    prog unit :=
  _ ⟵ Ask (CleanupStaleTask (ta_conversation_id agent));
  let failure := sanitize_member_runtime_failure error in
  committed ⟵ Registry (λ _, MemberRuntime.commit_failed lease failure);
  if negb committed then Ret tt else
  _ ⟵ Sched (λ _, set_status (ta_slot_id agent) AgentError);
  update ⟵ Coord (CoConstrain (ta_slot_id agent)
    (Failed (MemberRuntime.al_operation_id lease) (MemberRuntime.mf_classification failure)));
  _ ⇐ mark_terminal (ru_terminal_message_ids update);
  _ ⇐ notify_leader_spawn_attach_failed (ta_slot_id agent) (MemberRuntime.mf_public_reason failure);
  Ret tt.

(** [attach_member_runtime] once the process is attached *)
Definition attach_succeeded (agent : TeamAgent) (lease : MemberRuntime.AttachLease) : prog unit :=
  owned ⟵ Read (λ _ s, MemberRuntime.owns_attach lease (ss_registry s));
  if negb owned then _ ⟵ Ask (CleanupStaleTask (ta_conversation_id agent)); Ret tt else
  has ⟵ Read (λ _ s, bool_decide (ta_slot_id agent ∈ ss_loops s));
  registered ⇐ (if has : bool then Ret (Ok false)
                else r ⟵ Ask (RegisterEventLoop (ta_slot_id agent)); Ret r);
  match registered with
  | Err _ =>
      _ ⟵ Ask (CleanupStaleTask (ta_conversation_id agent));
      let failure := MemberRuntime.MkFailure "event_loop_registration_failed"
                       "Agent runtime event loop could not be registered" in
      _ ⟵ Registry (λ _, MemberRuntime.commit_failed lease failure);
      _ ⟵ Coord (CoConstrain (ta_slot_id agent)
            (Failed (MemberRuntime.al_operation_id lease) (MemberRuntime.mf_classification failure)));
      Ret tt
  | Ok registered =>
      committed ⟵ Registry (λ _, MemberRuntime.commit_ready lease);
      if negb committed then
        _ ⇐ (if registered : bool then _ ⟵ RemoveLoop (ta_slot_id agent); Ret tt else Ret tt);
        _ ⟵ Ask (CleanupStaleTask (ta_conversation_id agent)); Ret tt
      else
        _ ⟵ Coord (CoConstrain (ta_slot_id agent) Ready);
        _ ⟵ Notify (ta_slot_id agent);
        current ⟵ Ask (PublishReadyIfCurrent (ta_slot_id agent));
        if current : bool then Ret tt else
        _ ⇐ (if registered : bool then _ ⟵ RemoveLoop (ta_slot_id agent); Ret tt else Ret tt);
        _ ⟵ Ask (CleanupStaleTask (ta_conversation_id agent)); Ret tt
  end.

Definition attach_member_runtime (agent : TeamAgent) (lease : MemberRuntime.AttachLease) : prog unit :=
  _ ⟵ Coord (CoConstrain (ta_slot_id agent) (Starting (MemberRuntime.al_operation_id lease)));
  attached ⟵ Ask (AttachAgentProcess agent);
  match attached with
  | Err error => attach_failed agent lease error
  | Ok _ => attach_succeeded agent lease
  end.

(** ** Ends *)

Definition handle_signal_intents (slot_id : string) (intent_ids : list string) : prog unit :=
  _ ⟵ Coord (CoSignals slot_id intent_ids); Ret tt.

Definition on_agent_finish (now : Z) (conversation_id : string) (is_error : bool) :
    prog (result (option string) TeamError) :=
  proceed ⟵? Sched (λ _ m, let '(b, m) := begin_finalize now conversation_id m in (Ok b, m));
  if negb proceed then Ret (Ok None) else
  agents ⟵ agents_of;
  match List.find (λ a, bool_decide (ta_conversation_id a = conversation_id)) agents with
  | None => Ret (Err (AgentNotFound ("no agent with conversation_id=" +:+ conversation_id)))
  | Some agent =>
      let slot_id := ta_slot_id agent in
      _ ⇐? (if is_error then r ⟵ Sched (λ _, set_status slot_id AgentError); Ret r else Ret (Ok tt));
      wake_target ⟵? Sched (λ env, finalize_turn env slot_id []);
      _ ⟵ Sched (λ _ m, (Ok tt, clear_finalized_turn conversation_id m));
      if bool_decide (wake_target ≠ Some slot_id) then
        unread ⟵ Read (λ e s, if st_fails then false else
                                has_unread (ss_team_id s) slot_id (ss_mailbox s));
        Ret (Ok (if unread : bool then Some slot_id else wake_target))
      else Ret (Ok wake_target)
  end.

(** The end of [execute_and_finalize]: the roster hears of the turn, and the lead gets a
    signal when it is to be woken. *)
Definition finish_turn (slot_id : string) (failed : bool) : prog unit :=
  _ ⇐ (if failed then _ ⟵ Sched (λ _, set_status slot_id AgentError); Ret tt else Ret tt);
  finalized ⟵ Sched (λ env, finalize_turn env slot_id []);
  match finalized with
  | Ok (Some wake_target) =>
      if bool_decide (wake_target ≠ slot_id)
      then _ ⇐ enqueue_leader_settle_signal wake_target IdleNotification; Ret tt
      else Ret tt
  | _ => Ret tt
  end.

Definition session_stop : prog unit :=
  _ ⟵ Coord CoStop;
  _ ⟵ Registry (λ _, MemberRuntime.registry_stop);
  _ ⟵ ShutdownLoops;
  Ret tt.
End methods.
