(* ===== verification/SessionSafety.v ===== *)
(** * Team session: any interleaving of its methods is safe

    The session as a pool of running methods.  A step advances one of them by one atomic
    step, starts a method, drops one (its future is no longer polled), or is one of the
    steps that the event loops, the manager and the service take on their own.  Whatever
    the interleaving, the coordinator keeps its invariant and never panics, the roster and
    the registry of runtimes keep theirs.

    A method is [safe] when each of its steps keeps the invariants and passes to the
    coordinator only batches that the session has been given; that is a property of the
    text of the method ([safe_bind] and [safe_do]), proved once for each. *)
From S2P Require Import Prelude Text Storage WorkModel WorkState WorkCoordinator TeamRun.
From S2P Require Import WorkInvariant WorkOps.
From S2P Require MemberRuntime MemberRuntimeProps.
From S2P Require Import WorkSystem Mailbox TaskBoard Roster RosterProps EventLoop Session SessionOps.

Section safety.
Context `{!MemberRuntime.Watch, Lowercase, !SqlOrder, !SerdeJson}.

(** ** The calls of the coordinator *)

Definition op_call {X} (op : CoordinatorOp X) : Call :=
  match op with
  | CoAcquire request => CallAcquire request
  | CoCommit lease message_id => CallCommit lease message_id
  | CoAbort lease => CallAbort lease
  | CoConstrain slot_id constraint => CallConstrain slot_id constraint
  | CoCancelBatch batch classification => CallCancelBatch batch classification
  | CoCancelRun team_run_id => CallCancelRun team_run_id
  | CoPause slot_id => CallPause slot_id
  | CoRemove slot_id => CallRemove slot_id
  | CoSignals slot_id intent_ids => CallSignals slot_id intent_ids
  | CoStop => CallStop
  end.

Lemma coordinator_op_exec `{CallEnv} {X} (op : CoordinatorOp X) c r c' :
  exec (op_call op) c = Some (r, c') →
  handed_out r = [] ∧ ∃ x, coordinator_op op c = Some (x, c').
Proof.
  destruct op; cbn [op_call exec coordinator_op];
    match goal with |- ('(_, _) ← ?o; _) = _ → _ => destruct o as [[x c1]|] end;
    intros [= <- <-]; eauto.
Qed.

(** ** What a method may do *)

(** The batches that a step hands to its method *)
Definition learned {X} (a : atom X) : X → WorkBatch → Prop :=
  match a in atom X return X → WorkBatch → Prop with
  | SlotSnapshot _ => λ x b, (x ≫= sn_active_batch) = Some b
  | Coord op =>
      match op in CoordinatorOp X return X → WorkBatch → Prop with
      | CoPause _ => λ x b, bt_batch <$> pw_cancel_target x = Some b
      | _ => λ _ _, False
      end
  | _ => λ _ _, False
  end.

(** [persist_spawned_agent] makes a teammate. *)
Definition question_ok {X} (q : Question X) : X → Prop :=
  match q in Question X return X → Prop with
  | PersistSpawnedAgent _ => λ r, ∀ a, r = Ok a → ta_role a = RoleTeammate
  | _ => λ _, True
  end.

Definition answer_ok {X} (a : atom X) : X → Prop :=
  match a in atom X return X → Prop with Ask q => question_ok q | _ => λ _, True end.

(** A method of the manager that keeps its invariant and loses no message *)
Definition sched_safe {X} (f : action TeammateManager TeamError X) : Prop :=
  act_keeps (mg_ok False) f ∧ ∀ m, act_keeps (mailbox_kept m) f.

(** [K] are the batches the method knows. *)
Definition atom_safe (K : WorkBatch → Prop) {X} (a : atom X) : Prop :=
  match a with
  | Coord op => ∀ b, call_batch (op_call op) = Some b → K b
  | Sched f => ∀ env, sched_safe (f env)
  | Registry f => ∀ env r, ∃ c, (f env r).2 = (MemberRuntime.registry_exec c r).2
  | _ => True
  end.

Fixpoint safe (K : WorkBatch → Prop) {A} (p : prog A) : Prop :=
  match p with
  | Ret _ => True
  | Do a k =>
      atom_safe K a ∧ ∀ x, answer_ok a x → safe (λ b, K b ∨ learned a x b) (k x)
  end.

Lemma atom_safe_mono K K' {X} (a : atom X) : (∀ b, K b → K' b) → atom_safe K a → atom_safe K' a.
Proof. intros HK. destruct a; cbn [atom_safe]; auto. Qed.

Lemma safe_mono K K' {A} (p : prog A) : (∀ b, K b → K' b) → safe K p → safe K' p.
Proof.
  revert K K'. induction p as [a|X a k IH]; intros K K' HK; [done|]. intros [Ha Hk].
  split; [by eapply atom_safe_mono|]. intros x Hx. eapply IH; [|by apply Hk].
  cbn. intros b [?|?]; auto.
Qed.

Lemma safe_bind K {A B} (p : prog A) (f : A → prog B) :
  safe K p → (∀ x, safe K (f x)) → safe K (pbind p f).
Proof.
  revert K. induction p as [a|X a k IH]; intros K; cbn [pbind safe]; [auto|].
  intros [Ha Hk] Hf. split; [done|]. intros x Hx. apply IH; [by apply Hk|].
  intros y. eapply safe_mono; [|apply Hf]. auto.
Qed.

Lemma safe_ret K {A} (x : A) : safe K (Ret x).
Proof. done. Qed.

Lemma safe_do K {A X} (a : atom X) (k : X → prog A) :
  atom_safe K a → (∀ x, answer_ok a x → safe (λ b, K b ∨ learned a x b) (k x)) → safe K (Do a k).
Proof. done. Qed.
End safety.

Create HintDb safe.
#[export] Hint Resolve safe_ret : safe.

Section steps.
Context `{!MemberRuntime.Watch, Lowercase, !SqlOrder, !SerdeJson}.
Implicit Types K : WorkBatch → Prop.

Lemma registry_safe K {X}
    (f : CallEnv → MemberRuntime.MemberRuntimeRegistry → X * MemberRuntime.MemberRuntimeRegistry) c :
  (∀ (env : CallEnv) r, (MemberRuntime.registry_exec c r).2 = (f env r).2) → atom_safe K (Registry f).
Proof. intros Hc env r. exists c. by rewrite Hc. Qed.

Lemma get_agent_safe slot_id : sched_safe (get_agent slot_id).
Proof. split; [|intros t]; unfold get_agent; keeps. Qed.

Lemma set_status_safe slot_id status : sched_safe (set_status slot_id status).
Proof. split; auto with act_keeps. Qed.

Lemma remove_agent_safe K slot_id : atom_safe K (Sched (λ _, remove_agent slot_id)).
Proof. intros env. split; [apply remove_agent_keeps|]. intros t. apply remove_agent_mailbox. Qed.

Lemma finalize_turn_safe K slot_id actions :
  atom_safe K (Sched (λ env, finalize_turn env slot_id actions)).
Proof. intros env. split; [apply finalize_turn_keeps|]. intros t. apply finalize_turn_mailbox. Qed.

Lemma add_agent_safe K a :
  ta_role a = RoleTeammate → atom_safe K (Sched (λ _ m, (Ok tt, add_agent a m))).
Proof.
  intros Ha env. split; intros m Hm.
  - by apply (run_roster_op_ok False env (OpAddAgent a)).
  - apply (run_roster_op_mailbox _ env (OpAddAgent a)).
Qed.
End steps.

#[export] Hint Resolve remove_agent_safe finalize_turn_safe add_agent_safe : safe.
#[export] Hint Extern 1 (atom_safe _ (agent_of _)) => intros ?; apply get_agent_safe : safe.
#[export] Hint Extern 1 (atom_safe _ (Sched (λ _, set_status _ _))) =>
  intros ?; apply set_status_safe : safe.
#[export] Hint Extern 2 (atom_safe _ (Coord _)) => intros ? [=]; fail : safe.
#[export] Hint Extern 1 (atom_safe _ _) => exact I : safe.

(** The step is the call [c] of the registry. *)
Ltac registry_call c :=
  apply (registry_safe _ _ c); intros ? ?; cbn;
  match goal with |- (let '(_, _) := ?o in _).2 = _ => by destruct o end.

(** Goes through the text of a method. *)
Ltac safety :=
  repeat first
    [ solve [auto with safe]
    | progress intros
    | apply safe_bind
    | apply safe_do
    | case_match ].

Section methods.
Context `{!MemberRuntime.Watch, Lowercase, !SqlOrder, !SerdeJson} (user_id : string).
Implicit Types K : WorkBatch → Prop.

Lemma mark_terminal_safe K ids : safe K (mark_terminal ids).
Proof. unfold mark_terminal. safety. Qed.
Hint Resolve mark_terminal_safe : safe.

Lemma publish_runtime_constraint_safe K slot_id : safe K (publish_runtime_constraint slot_id).
Proof. unfold publish_runtime_constraint. safety. Qed.
Hint Resolve publish_runtime_constraint_safe : safe.

Lemma commit_persisted_enqueue_safe K lease message_id :
  safe K (commit_persisted_enqueue lease message_id).
Proof. unfold commit_persisted_enqueue. safety. Qed.
Hint Resolve commit_persisted_enqueue_safe : safe.

Lemma enqueue_written_safe K lease written c content files :
  safe K (enqueue_written lease written c content files).
Proof. unfold enqueue_written. safety. Qed.
Hint Resolve enqueue_written_safe : safe.

Lemma enqueue_user_message_safe K slot_id role content files :
  safe K (enqueue_user_message slot_id role content files).
Proof. unfold enqueue_user_message. safety. Qed.
Hint Resolve enqueue_user_message_safe : safe.

Lemma enqueue_existing_work_safe K slot_id source message_id binding :
  safe K (enqueue_existing_work slot_id source message_id binding).
Proof. unfold enqueue_existing_work. safety. Qed.
Hint Resolve enqueue_existing_work_safe : safe.

Lemma send_message_safe K content files : safe K (send_message content files).
Proof. unfold send_message. safety. Qed.

Lemma send_message_to_agent_safe K slot_id content files :
  safe K (send_message_to_agent slot_id content files).
Proof. unfold send_message_to_agent. safety. Qed.

Lemma send_agent_message_safe K from to content files :
  safe K (send_agent_message_from_agent from to content files).
Proof. unfold send_agent_message_from_agent. safety. Qed.

Lemma shutdown_agent_safe K caller target reason : safe K (shutdown_agent caller target reason).
Proof.
  unfold shutdown_agent.
  assert (∀ K, atom_safe K (Sched (λ env, request_shutdown_agent (H := env 0) caller target reason)))
    by (intros K' env; split; [apply request_shutdown_agent_keeps|];
        intros t; apply request_shutdown_agent_mailbox).
  safety.
Qed.

Lemma enqueue_leader_settle_signal_safe K slot_id source :
  safe K (enqueue_leader_settle_signal slot_id source).
Proof. unfold enqueue_leader_settle_signal. safety. Qed.
Hint Resolve enqueue_leader_settle_signal_safe : safe.

Lemma recover_messages_safe K slot_id unread : safe K (recover_messages slot_id unread).
Proof. revert K. induction unread; intros K; cbn [recover_messages]; safety. Qed.
Hint Resolve recover_messages_safe : safe.

Lemma recover_slots_safe K agents recovered : safe K (recover_slots agents recovered).
Proof. revert K recovered. induction agents; intros K recovered; cbn [recover_slots]; safety. Qed.
Hint Resolve recover_slots_safe : safe.

Lemma try_start_recovery_drain_safe K : safe K try_start_recovery_drain.
Proof. unfold try_start_recovery_drain. safety. Qed.

Lemma wake_leader_after_recovery_message_safe K slot_id source :
  safe K (wake_leader_after_recovery_message slot_id source).
Proof. unfold wake_leader_after_recovery_message. safety. Qed.
Hint Resolve wake_leader_after_recovery_message_safe : safe.

Lemma notify_leader_child_interrupted_safe K slot_id reason :
  safe K (notify_leader_child_interrupted slot_id reason).
Proof. unfold notify_leader_child_interrupted. safety. Qed.
Hint Resolve notify_leader_child_interrupted_safe : safe.

Lemma notify_leader_spawn_attach_failed_safe K slot_id error :
  safe K (notify_leader_spawn_attach_failed slot_id error).
Proof. unfold notify_leader_spawn_attach_failed. safety. Qed.
Hint Resolve notify_leader_spawn_attach_failed_safe : safe.

Lemma cancelled_turn_safe K run slot_id turn_id role agent :
  safe K (cancelled_turn run slot_id turn_id role agent).
Proof. unfold cancelled_turn. safety. Qed.
Hint Resolve cancelled_turn_safe : safe.

Lemma cancel_targets_safe K run targets : safe K (cancel_targets user_id run targets).
Proof. revert K. induction targets; intros K; cbn [cancel_targets]; safety. Qed.
Hint Resolve cancel_targets_safe : safe.

Lemma team_cancel_run_safe K run reason : safe K (team_cancel_run user_id run reason).
Proof. unfold team_cancel_run. safety. Qed.

Lemma cancel_turn_of_safe K run slot_id role turn_id :
  safe K (cancel_turn_of user_id run slot_id role turn_id).
Proof. unfold cancel_turn_of. safety. Qed.
Hint Resolve cancel_turn_of_safe : safe.

(** The batch is that of the snapshot. *)
Lemma cancel_child_turn_safe K run slot_id reason :
  safe K (cancel_child_turn user_id run slot_id reason).
Proof.
  unfold cancel_child_turn. apply safe_do; [exact I|]. intros snapshot _.
  destruct snapshot as [snapshot|]; [|done].
  destruct (sn_active_batch snapshot) as [batch|] eqn:Hb; [|done].
  case_match; [done|]. apply safe_bind; [safety|].
  intros [|]; [|done]. apply safe_do; [|safety].
  intros b [= ->]. by right.
Qed.

Lemma pause_slot_work_safe K run slot_id reason :
  safe K (pause_slot_work user_id run slot_id reason).
Proof.
  unfold pause_slot_work. apply safe_do; [exact I|]. intros active _. case_match; [done|].
  apply safe_do; [by intros ?|]. intros outcome _.
  destruct (pw_cancel_target outcome) as [target|] eqn:Ht; [|done].
  apply safe_bind; [safety|].
  intros [|]; [|done]. apply safe_do; [|safety].
  intros b [= <-]. right. cbn. by rewrite Ht.
Qed.

(** *** Members *)

Lemma session_add_agent_safe K a : ta_role a = RoleTeammate → safe K (session_add_agent a).
Proof. unfold session_add_agent. safety. Qed.
Hint Resolve session_add_agent_safe : safe.

Lemma project_team_system_message_safe K slot_id c content :
  safe K (project_team_system_message slot_id c content).
Proof. unfold project_team_system_message. safety. Qed.
Hint Resolve project_team_system_message_safe : safe.

Lemma add_manual_agent_safe K a : ta_role a = RoleTeammate → safe K (add_manual_agent a).
Proof. unfold add_manual_agent. safety. Qed.

Lemma notify_leader_membership_removed_safe K removed : safe K (notify_leader_membership_removed removed).
Proof. unfold notify_leader_membership_removed. safety. Qed.
Hint Resolve notify_leader_membership_removed_safe : safe.

Lemma begin_remove_safe K slot_id : atom_safe K (Registry (λ _, MemberRuntime.begin_remove slot_id)).
Proof. registry_call (MemberRuntime.Remove slot_id). Qed.

Lemma finish_remove_safe K lease : atom_safe K (Registry (λ _, MemberRuntime.finish_remove lease)).
Proof. registry_call (MemberRuntime.FinishRemove lease). Qed.

Lemma restore_attach_safe K lease failure :
  atom_safe K (Registry (λ _,
    MemberRuntime.restore_attach_required_after_remove_persist_error lease failure)).
Proof. registry_call (MemberRuntime.RestoreAttach lease failure). Qed.

Lemma reserve_safe K a : atom_safe K (reserve_dynamic_member_attach a).
Proof. unfold reserve_dynamic_member_attach. registry_call (MemberRuntime.Reserve (ta_slot_id a) false). Qed.

Lemma commit_ready_safe K lease : atom_safe K (Registry (λ _, MemberRuntime.commit_ready lease)).
Proof. registry_call (MemberRuntime.CommitReady lease). Qed.

Lemma commit_failed_safe K lease failure :
  atom_safe K (Registry (λ _, MemberRuntime.commit_failed lease failure)).
Proof. registry_call (MemberRuntime.CommitFailed lease failure). Qed.

Hint Resolve begin_remove_safe finish_remove_safe restore_attach_safe reserve_safe commit_ready_safe
  commit_failed_safe : safe.

Lemma remove_agent_work_safe K slot_id : safe K (remove_agent_work user_id slot_id).
Proof. unfold remove_agent_work. safety. Qed.
Hint Resolve remove_agent_work_safe : safe.

Lemma session_remove_agent_safe K slot_id : safe K (session_remove_agent user_id slot_id).
Proof. unfold session_remove_agent. safety. Qed.

Lemma finish_service_removal_safe K removed lease : safe K (finish_service_removal removed lease).
Proof. unfold finish_service_removal. safety. Qed.
Hint Resolve finish_service_removal_safe : safe.

Lemma service_remove_agent_safe K slot_id : safe K (service_remove_agent slot_id).
Proof. unfold service_remove_agent. safety. Qed.

Lemma session_rename_agent_safe K slot_id name : safe K (session_rename_agent slot_id name).
Proof.
  unfold session_rename_agent. apply safe_do; [|done]. intros env.
  split; [apply rename_agent_keeps|]. intros t. apply rename_agent_mailbox.
Qed.

Lemma spawn_agent_safe K caller req : safe K (spawn_agent user_id caller req).
Proof. unfold spawn_agent. safety. Qed.

(** *** Runtimes and ends *)

Lemma attach_member_runtime_safe K a lease : safe K (attach_member_runtime a lease).
Proof. unfold attach_member_runtime, attach_failed, attach_succeeded. safety. Qed.

Lemma handle_signal_intents_safe K slot_id ids : safe K (handle_signal_intents slot_id ids).
Proof. unfold handle_signal_intents. safety. Qed.

Lemma on_agent_finish_safe K now c is_error : safe K (on_agent_finish now c is_error).
Proof.
  assert (∀ K, atom_safe K (Sched (λ _ m, let '(b, m) := begin_finalize now c m in (Ok b, m)))).
  { intros K' env. split; [intros m Hm|intros t m Hm]; unfold begin_finalize;
    by destruct (match mg_finalized_turns m !! c with Some _ => _ | None => _ end). }
  assert (∀ K, atom_safe K (Sched (λ _ m, (Ok tt, clear_finalized_turn c m))))
    by (intros K' env; split; [intros m Hm|intros t m Hm]; exact Hm).
  unfold on_agent_finish. safety.
Qed.

Lemma finish_turn_safe K slot_id failed : safe K (finish_turn slot_id failed).
Proof. unfold finish_turn. safety. Qed.

Lemma session_stop_safe K : safe K session_stop.
Proof.
  assert (∀ K, atom_safe K (Registry (λ _, MemberRuntime.registry_stop)))
    by (intros; registry_call MemberRuntime.Stop).
  unfold session_stop. safety.
Qed.
End methods.

(** ** The pool of methods *)

Section pool.
Context `{!MemberRuntime.Watch, Lowercase, !SqlOrder, !SerdeJson} (user_id : string).

(** The methods that callers start, and the end of a turn in the event loop *)
Inductive session_method : ∀ A : Type, prog A → Prop :=
  | m_send_message content files : session_method _ (send_message content files)
  | m_send_message_to_agent slot_id content files :
      session_method _ (send_message_to_agent slot_id content files)
  | m_send_agent_message from to content files :
      session_method _ (send_agent_message_from_agent from to content files)
  | m_shutdown_agent caller target reason : session_method _ (shutdown_agent caller target reason)
  | m_recovery_drain : session_method _ try_start_recovery_drain
  | m_cancel_run team_run_id reason : session_method _ (team_cancel_run user_id team_run_id reason)
  | m_cancel_child_turn team_run_id slot_id reason :
      session_method _ (cancel_child_turn user_id team_run_id slot_id reason)
  | m_pause_slot_work team_run_id slot_id reason :
      session_method _ (pause_slot_work user_id team_run_id slot_id reason)
  | m_add_agent agent : ta_role agent = RoleTeammate → session_method _ (session_add_agent agent)
  | m_add_manual_agent agent : ta_role agent = RoleTeammate → session_method _ (add_manual_agent agent)
  | m_remove_agent slot_id : session_method _ (session_remove_agent user_id slot_id)
  | m_service_remove_agent slot_id : session_method _ (service_remove_agent slot_id)
  | m_rename_agent slot_id new_name : session_method _ (session_rename_agent slot_id new_name)
  | m_spawn_agent caller req : session_method _ (spawn_agent user_id caller req)
  | m_attach_member_runtime agent lease : session_method _ (attach_member_runtime agent lease)
  | m_signals slot_id intent_ids : session_method _ (handle_signal_intents slot_id intent_ids)
  | m_publish slot_id : session_method _ (publish_runtime_constraint slot_id)
  | m_settle_signal slot_id source : session_method _ (enqueue_leader_settle_signal slot_id source)
  | m_on_agent_finish now conversation_id is_error :
      session_method _ (on_agent_finish now conversation_id is_error)
  | m_finish_turn slot_id failed : session_method _ (finish_turn slot_id failed)
  | m_stop : session_method _ session_stop.

Lemma method_safe A (p : prog A) : session_method A p → safe (λ _, False) p.
Proof.
  destruct 1;
    first [apply send_message_safe | apply send_message_to_agent_safe | apply send_agent_message_safe
      | apply shutdown_agent_safe | apply try_start_recovery_drain_safe | apply team_cancel_run_safe
      | apply cancel_child_turn_safe | apply pause_slot_work_safe | by apply session_add_agent_safe
      | by apply add_manual_agent_safe | apply session_remove_agent_safe
      | apply service_remove_agent_safe | apply session_rename_agent_safe | apply spawn_agent_safe
      | apply attach_member_runtime_safe | apply handle_signal_intents_safe
      | apply publish_runtime_constraint_safe | apply enqueue_leader_settle_signal_safe
      | apply on_agent_finish_safe | apply finish_turn_safe | apply session_stop_safe].
Qed.

(** *** The invariant *)

Definition session_system (s : Session) : System TeamRunManager :=
  mkSystem (ss_coordinator s) (ss_issued s).

Record session_wf (s : Session) : Prop := {
  sw_system : system_wf (session_system s);
  sw_roster : mg_ok False (ss_scheduler s);
  sw_registry : ∃ chans, MemberRuntimeProps.core (ss_registry s) chans;
}.

(** New identifiers are new, answers are as documented, and fewer than 2^64 operations
    were begun. *)
Record env_ok (e : StepEnv) (s : Session) : Prop := {
  eo_fresh : fresh_ids (H0 := st_call) (co_state (ss_coordinator s));
  eo_batch n b : b ∈ ss_issued s → wb_batch_id b ≠ gen_id (CallEnv := st_call) n;
  eo_answer X (q : Question X) : question_ok q (st_answer X q);
  eo_bound : (MemberRuntime.mr_next_operation_id (ss_registry s) + 1 < 2 ^ 64)%Z;
}.

Lemma snapshot_active slot_id (c : Coordinator TeamRunManager) s b :
  slot_snapshot slot_id c = Some s → sn_active_batch s = Some b →
  active_batch (cs_slots (co_state c)) slot_id = Some b.
Proof.
  unfold slot_snapshot, slot_snapshot_locked, active_batch.
  destruct (cs_slots (co_state c) !! slot_id) as [slot|]; [|done].
  by intros [= <-].
Qed.

Lemma pause_target_active `{CallEnv} slot_id (c : Coordinator TeamRunManager) r c' t :
  pause_slot slot_id c = Some (r, c') → pw_cancel_target r = Some t →
  active_batch (cs_slots (co_state c)) slot_id = Some (bt_batch t).
Proof.
  unfold pause_slot, cancel_target, active_batch, slot_entry.
  destruct (slot_snapshot_locked _ _); [|done]. intros [= <- _]. cbn.
  destruct (cs_slots (co_state c) !! slot_id) as [slot|]; [|done]. cbn.
  destruct (sl_active slot); [|done]. by intros [= <-].
Qed.

Lemma set_roster_wf m s : session_wf s → mg_ok False m → session_wf (set_ss_scheduler m s).
Proof. by destruct 1. Qed.

Lemma set_mailbox_wf t s : session_wf s → session_wf (set_ss_mailbox t s).
Proof. intros Hs. apply set_roster_wf; [done|apply Hs]. Qed.

(** What no step undoes: an intent stays, only its state changes, and a terminal one does
    not; a message stays, and is at most marked. *)
Definition later (s s' : Session) : Prop :=
  evolves (cs_intents (co_state (ss_coordinator s))) (cs_intents (co_state (ss_coordinator s'))) ∧
  mailbox_kept (ss_scheduler s) (ss_scheduler s').

#[global] Instance later_preorder : PreOrder later.
Proof.
  split; [by split|]. intros s1 s2 s3 [Hi12 Hk12] [Hi23 Hk23]. split; [by etrans|by etrans].
Qed.

(** A call of the coordinator *)
Lemma coordinator_call_wf (env : CallEnv) call s :
  session_wf s → call_ok env call (session_system s) →
  ∃ r c, exec call (ss_coordinator s) = Some (r, c) ∧
    system_wf (mkSystem c (handed_out r ++ ss_issued s)) ∧
    evolves (cs_intents (co_state (ss_coordinator s))) (cs_intents (co_state c)).
Proof.
  intros [Hsys _ _] Hok. destruct (exec_preserved env call _ Hsys Hok) as (r & c & Hexec & Hp).
  exists r, c. split; [done|]. split; [|apply Hp]. by apply (step_system_wf (session_system s)); [apply (step_call env call)|].
Qed.

Lemma coordinator_op_wf (e : StepEnv) {X} (op : CoordinatorOp X) s :
  session_wf s → env_ok e s → atom_safe (λ b, b ∈ ss_issued s) (Coord op) →
  ∃ x c, coordinator_op (H3 := st_call) op (ss_coordinator s) = Some (x, c) ∧
    session_wf (set_ss_coordinator c s) ∧ later s (set_ss_coordinator c s).
Proof.
  intros Hwf He Ha. pose proof Hwf as [_ Hm Hr].
  destruct (coordinator_call_wf st_call (op_call op) s Hwf) as (r & c & Hexec & Hsys & Hev).
  { split; [apply He|apply He|done]. }
  destruct (coordinator_op_exec op _ _ _ Hexec) as (Hout & x & Hop). rewrite Hout in Hsys.
  exists x, c. split; [done|]. split; [by split|]. by split.
Qed.

(** What a step learns was issued. *)
Lemma learned_issued (e : StepEnv) {X} (a : atom X) s x s' b :
  session_wf s → atom_step e a s = Some (x, s') → learned a x b → b ∈ ss_issued s.
Proof.
  intros [Hsys _ _] Hstep Hb.
  destruct a as [|slot_id| X op| | | | | | | | | | | |]; cbn [learned] in Hb; try done.
  - cbn [atom_step] in Hstep. injection Hstep as <- _.
    destruct (slot_snapshot _ _) as [sn|] eqn:Hsn; [|done].
    eapply (sys_active _ Hsys). by eapply snapshot_active.
  - destruct op; try done. cbn [atom_step coordinator_op] in Hstep.
    destruct (pause_slot _ _) as [[r c]|] eqn:Hp; [|done]. cbn in Hstep. injection Hstep as <- _.
    destruct (pw_cancel_target r) as [t|] eqn:Ht; [|done]. injection Hb as <-.
    eapply (sys_active _ Hsys). by eapply pause_target_active.
Qed.

Lemma atom_step_wf (e : StepEnv) {X} (a : atom X) s :
  session_wf s → env_ok e s → atom_safe (λ b, b ∈ ss_issued s) a →
  ∃ x s', atom_step e a s = Some (x, s') ∧ session_wf s' ∧ ss_issued s' = ss_issued s ∧
    answer_ok a x ∧ later s s'.
Proof.
  intros Hwf He Ha. pose proof Hwf as [Hsys Hm [chans Hr]].
  assert (∀ (x : X) s', session_wf s' → ss_issued s' = ss_issued s → answer_ok a x → later s s' →
    ∃ y s'', Some (x, s') = Some (y, s'') ∧ session_wf s'' ∧ ss_issued s'' = ss_issued s ∧
      answer_ok a y ∧ later s s'') as Hdone by eauto 10.
  destruct a as [| | X op|X f|X f|X f|to from ty content summary files| |ids|slot_id| | | | |X q];
    cbn [atom_step]; try (apply Hdone; [split; [done|done|by exists chans]|done|done|done]).
  - destruct (coordinator_op_wf e op s Hwf He Ha) as (x & c & -> & Hc & Hl). by apply Hdone.
  - destruct (Ha st_queries) as [Hkeep Hmail]. specialize (Hkeep _ Hm).
    specialize (Hmail _ _ (conj eq_refl (reflexivity (R := kept) (ss_mailbox s)))).
    destruct (f st_queries (ss_scheduler s)) as [r m].
    apply Hdone; [by apply set_roster_wf|done|done|by split].
  - destruct (f st_call (ss_runs s)) as [x m]. apply Hdone; [|done|done|done].
    split; [|done|by exists chans].
    by apply (step_system_wf (session_system s)); [apply step_port|].
  - destruct (Ha st_call (ss_registry s)) as [c Hc].
    destruct (MemberRuntimeProps.exec_ok (ss_registry s) chans c Hr (eo_bound _ _ He)) as [chans' Hok].
    destruct (f st_call (ss_registry s)) as [x r]. cbn [snd] in Hc. subst r.
    apply Hdone; [|done|done|done]. split; [done|done|]. exists chans'. apply Hok.
  - destruct st_fails; [by apply Hdone|].
    pose proof (kept_write (H1 := st_call) (ss_team_id s) to from ty content summary files (ss_mailbox s)) as Hk.
    destruct (write_with_files _ _ _ _ _ _ _ _) as [message t].
    apply Hdone; [by apply set_mailbox_wf|done|done|by split].
  - destruct st_fails; [by apply Hdone|].
    apply Hdone; [by apply set_mailbox_wf|done|done|]. split; [done|]. split; [done|].
    apply kept_mark_read_batch.
  - destruct (bool_decide (slot_id ∈ ss_loops s)); apply Hdone; try done.
    split; [done|done|by exists chans].
  - apply Hdone; [split; [done|done|by exists chans]|done| |done]. apply He.
Qed.
(** *** Interleavings *)

(** A running method *)
Definition task {A : Type} (p : prog A) : {A : Type & prog A} := existT A p.

Record Team := MkTeam {
  tm_session : Session;
  tm_tasks : list {A : Type & prog A};
}.

(** The calls of the event loops *)
Definition loop_call (call : Call) : Prop :=
  match call with
  | CallReconcile _ _ _ | CallNext _ | CallStarted _ _ | CallRetry _ | CallComplete _ | CallFail _ _
  | CallCancelBatch _ _ => True
  | _ => False
  end.

(** The steps but for the dropping of a future; the last five are what the event loops do of their own (claim, start, end and
    reconcile batches; wake agents and hear of their crashes) and the service (repair and
    seed runtimes). *)
Inductive team_step : Team → Team → Prop :=
  | ts_begin (A : Type) (p : prog A) s ts :
      session_method A p → team_step (MkTeam s ts) (MkTeam s (task p :: ts))
  | ts_advance (e : StepEnv) (A X : Type) (a : atom X) (k : X → prog A) x s s' ts1 ts2 :
      env_ok e s → atom_step e a s = Some (x, s') →
      team_step (MkTeam s (ts1 ++ task (Do a k) :: ts2)) (MkTeam s' (ts1 ++ task (k x) :: ts2))
  | ts_coordinator (env : CallEnv) call r c s ts :
      loop_call call → call_ok env call (session_system s) →
      exec call (ss_coordinator s) = Some (r, c) →
      team_step (MkTeam s ts) (MkTeam (set_ss_issued (handed_out r ++ ss_issued s)
                                         (set_ss_coordinator c s)) ts)
  | ts_roster env op s ts :
      may_run op →
      team_step (MkTeam s ts) (MkTeam (set_ss_scheduler (run_roster_op env op (ss_scheduler s)) s) ts)
  | ts_registry (env : CallEnv) c s ts :
      (MemberRuntime.mr_next_operation_id (ss_registry s) + 1 < 2 ^ 64)%Z →
      team_step (MkTeam s ts)
        (MkTeam (set_ss_registry (MemberRuntime.registry_exec c (ss_registry s)).2 s) ts)
  | ts_mailbox ids s ts :
      team_step (MkTeam s ts) (MkTeam (set_ss_mailbox (mark_read_batch ids (ss_mailbox s)) s) ts)
  | ts_loops loops s ts : team_step (MkTeam s ts) (MkTeam (set_ss_loops loops s) ts).

(** With [drops], the future of a method may be dropped at any of its steps. *)
Inductive team_reachable (drops : Prop) : Team → Prop :=
  | team_start team_id generation agents mailbox board :
      team_ok agents →
      team_reachable drops (MkTeam (session_start team_id generation agents mailbox board) [])
  | team_next t t' : team_reachable drops t → team_step t t' → team_reachable drops t'
  | team_dropped s ts1 t ts2 :
      drops → team_reachable drops (MkTeam s (ts1 ++ t :: ts2)) →
      team_reachable drops (MkTeam s (ts1 ++ ts2)).

Definition team_wf (t : Team) : Prop :=
  session_wf (tm_session t) ∧
  Forall (λ task, safe (λ b, b ∈ ss_issued (tm_session t)) (projT2 task)) (tm_tasks t).

Lemma session_start_wf team_id generation agents mailbox board :
  team_ok agents → session_wf (session_start team_id generation agents mailbox board).
Proof.
  intros Hteam. split.
  - apply (initial_wf generation (new_manager team_id)).
  - by apply new_roster_ok.
  - exists ∅. apply MemberRuntimeProps.core_new.
Qed.

Lemma team_step_wf t t' : team_wf t → team_step t t' → team_wf t'.
Proof.
  intros [Hs Hts] Hstep. destruct Hstep as [A p s ts Hp|e A X a k x s s' ts1 ts2 He Hstep|env call r c s ts _ Hok Hexec|env op s ts Hop|env c s ts Hlt|ids s ts|loops s ts];
    cbn [tm_session tm_tasks] in *.
  - split; [done|]. constructor; [|done]. eapply safe_mono; [|by apply method_safe]. done.
  - apply Forall_app in Hts as [Hts1 [Hp Hts2]%Forall_cons]. cbn [projT2 safe] in Hp.
    destruct Hp as [Ha Hk].
    destruct (atom_step_wf e a s Hs He Ha) as (y & s'' & Hstep' & Hs' & Hiss & Hans & _).
    rewrite Hstep in Hstep'. injection Hstep' as <- <-. split; [done|]. cbn [tm_session tm_tasks].
    rewrite Hiss. apply Forall_app. split; [done|]. constructor; [|done]. cbn [projT2].
    eapply safe_mono; [|by apply Hk]. intros b [Hb|Hb]; [done|]. by eapply learned_issued.
  - destruct (coordinator_call_wf env call s Hs Hok) as (r' & c' & Hexec' & Hsys & _).
    rewrite Hexec in Hexec'. injection Hexec' as <- <-. split; [by destruct Hs|].
    eapply Forall_impl; [done|]. intros [A p] Hp. eapply safe_mono; [|done].
    intros b Hb. cbn. apply elem_of_app. by right.
  - split; [|done]. apply set_roster_wf; [done|]. apply run_roster_op_ok; [apply Hs|done|done].
  - split; [|done]. destruct Hs as [Hsys Hm [chans Hr]]. split; [done|done|].
    destruct (MemberRuntimeProps.exec_ok (ss_registry s) chans c Hr Hlt) as [chans' Hok].
    exists chans'. apply Hok.
  - split; [|done]. by apply set_mailbox_wf.
  - split; [by destruct Hs|done].
Qed.

Lemma team_step_issued t t' b :
  team_wf t → team_step t t' → b ∈ ss_issued (tm_session t) → b ∈ ss_issued (tm_session t').
Proof.
  intros [Hs Hts] Hstep Hb. destruct Hstep as [|e A X a k x s s' ts1 ts2 He Hstep| | | | |]; try done.
  - cbn [tm_session tm_tasks] in *. apply Forall_app in Hts as [_ [[Ha _] _]%Forall_cons].
    destruct (atom_step_wf e a s Hs He Ha) as (y & s'' & Hstep' & _ & Hiss & _).
    rewrite Hstep in Hstep'. injection Hstep' as <- <-. by rewrite Hiss.
  - cbn. apply elem_of_app. by right.
Qed.

Lemma team_step_later t t' : team_wf t → team_step t t' → later (tm_session t) (tm_session t').
Proof.
  intros [Hs Hts] Hstep. destruct Hstep as [A p s ts Hp|e A X a k x s s' ts1 ts2 He Hstep
    |env call r c s ts _ Hok Hexec|env op s ts Hop|env c s ts Hlt|ids s ts|loops s ts];
    cbn [tm_session tm_tasks] in *; try done.
  - apply Forall_app in Hts as [_ [[Ha _] _]%Forall_cons].
    destruct (atom_step_wf e a s Hs He Ha) as (y & s'' & Hstep' & _ & _ & _ & Hl).
    rewrite Hstep in Hstep'. by injection Hstep' as <- <-.
  - destruct (coordinator_call_wf env call s Hs Hok) as (r' & c' & Hexec' & _ & Hev).
    rewrite Hexec in Hexec'. injection Hexec' as <- <-. by split.
  - split; [done|]. by apply run_roster_op_mailbox.
  - split; [done|]. split; [done|]. apply kept_mark_read_batch.
Qed.

Lemma team_reachable_wf drops t : team_reachable drops t → team_wf t.
Proof.
  induction 1 as [| |s ts1 t ts2 _ _ [Hs Hts]];
    [split; [by apply session_start_wf|constructor]|by eapply team_step_wf|].
  split; [done|]. cbn in *. apply Forall_app in Hts as [? [? ?]%Forall_cons]. by apply Forall_app.
Qed.

(** C8: whatever methods of a session run, however their steps are interleaved with each
    other, with those of the event loops and with futures that are dropped, the coordinator
    keeps its invariant, the roster has its slots under their identifiers and one lead at
    most, and no step of a running method and no call of an event loop panics. *)
Theorem session_never_panics drops t :
  team_reachable drops t →
  coordinator_wf (ss_coordinator (tm_session t)) ∧ mg_ok False (ss_scheduler (tm_session t)) ∧
  (∀ (e : StepEnv) (A X : Type) (a : atom X) (k : X → prog A),
     task (Do a k) ∈ tm_tasks t → env_ok e (tm_session t) →
     is_Some (atom_step e a (tm_session t))) ∧
  (∀ (env : CallEnv) call, call_ok env call (session_system (tm_session t)) →
     is_Some (exec call (ss_coordinator (tm_session t)))).
Proof.
  intros [Hs Hts]%team_reachable_wf. split_and!; [apply Hs|apply Hs|..].
  - intros e A X a k Hin He. rewrite Forall_forall in Hts. specialize (Hts _ Hin) as [Ha _].
    destruct (atom_step_wf e a _ Hs He Ha) as (x & s' & -> & _). eauto.
  - intros env call Hok. destruct (coordinator_call_wf env call _ Hs Hok) as (r & c & -> & _). eauto.
Qed.
End pool.
