(* ===== verification/SessionLeases.v ===== *)
(** * Team session: every enqueue lease is given back

    A lease counts as work of its run, so that a lease that nobody gives back keeps the run
    from ending.  In the text of every method, each way on from [acquire_enqueue] leads to
    an [abort_enqueue] of the lease, or to a [commit_enqueue] of it which succeeds
    ([due]); hence, however the methods are interleaved, every lease that the coordinator
    holds is one that a running method will still give back.  A future that is dropped in
    between does not. *)
From S2P Require Import Prelude Text Storage WorkModel WorkState WorkCoordinator TeamRun.
From S2P Require Import WorkInvariant WorkOps.
From S2P Require MemberRuntime.
From S2P Require Import WorkSystem WorkLeases Mailbox TaskBoard Roster RosterProps EventLoop.
From S2P Require Import Session SessionOps SessionSafety.

Section due.
Context `{!MemberRuntime.Watch, Lowercase, !SqlOrder, !SerdeJson}.

(** ** In the text of a method *)

(** Every way on gives [lease] back. *)
Fixpoint gives_back (lease : EnqueueLease) {A} (p : prog A) : Prop :=
  match p with
  | Ret _ => False
  | @Do _ _ X a k =>
      match a in atom X return (X → prog A) → Prop with
      | Coord op =>
          match op in CoordinatorOp X return (X → prog A) → Prop with
          | CoAbort other => λ k, other = lease ∨ ∀ x, gives_back lease (k x)
          | CoCommit other _ => λ k,
              (other = lease ∧ ∀ e, gives_back lease (k (Err e))) ∨ ∀ x, gives_back lease (k x)
          | _ => λ k, ∀ x, gives_back lease (k x)
          end
      | _ => λ k, ∀ x, gives_back lease (k x)
      end k
  end.

(** Every lease it acquires is given back. *)
Fixpoint due {A} (p : prog A) : Prop :=
  match p with
  | Ret _ => True
  | @Do _ _ X a k =>
      match a in atom X return (X → prog A) → Prop with
      | Coord op =>
          match op in CoordinatorOp X return (X → prog A) → Prop with
          | CoAcquire _ => λ k, (∀ e, due (k (Err e))) ∧
              ∀ lease, due (k (Ok lease)) ∧ gives_back lease (k (Ok lease))
          | _ => λ k, ∀ x, due (k x)
          end
      | _ => λ k, ∀ x, due (k x)
      end k
  end.

(** Steps that do not concern leases *)
Definition plain {X} (a : atom X) : Prop :=
  match a with
  | Coord (CoAbort _) | Coord (CoCommit _ _) | Coord (CoAcquire _) => False
  | _ => True
  end.

Lemma gives_back_step lease {A X} (a : atom X) (k : X → prog A) :
  (∀ x, gives_back lease (k x)) → gives_back lease (Do a k).
Proof. intros Hk. destruct a as [| |Y op| | | | | | | | | | | |]; cbn; try done. destruct op; cbn; eauto. Qed.

Lemma due_step {A X} (a : atom X) (k : X → prog A) : plain a → (∀ x, due (k x)) → due (Do a k).
Proof. intros Ha Hk. destruct a as [| |Y op| | | | | | | | | | | |]; cbn; try done. by destruct op. Qed.

Lemma due_abort {A} lease (k : CommitResult → prog A) : (∀ x, due (k x)) → due (Do (Coord (CoAbort lease)) k).
Proof. done. Qed.

Lemma due_commit {A} lease mid (k : result EnqueueCommit TeamError → prog A) :
  (∀ x, due (k x)) → due (Do (Coord (CoCommit lease mid)) k).
Proof. done. Qed.

Lemma due_acquire {A} request (k : result EnqueueLease TeamError → prog A) :
  (∀ e, due (k (Err e))) → (∀ lease, due (k (Ok lease)) ∧ gives_back lease (k (Ok lease))) →
  due (Do (Coord (CoAcquire request)) k).
Proof. done. Qed.

Lemma gives_back_bind lease {A B} (p : prog A) (f : A → prog B) :
  gives_back lease p → gives_back lease (pbind p f).
Proof.
  induction p as [|X a k IH]; [done|]. destruct a as [| |Y op| | | | | | | | | | | |]; cbn; eauto.
  destruct op; cbn; naive_solver.
Qed.

Lemma gives_back_after lease {A B} (p : prog A) (f : A → prog B) :
  (∀ x, gives_back lease (f x)) → gives_back lease (pbind p f).
Proof.
  intros Hf. induction p as [x|X a k IH]; cbn [pbind]; [apply Hf|]. apply gives_back_step. auto.
Qed.

Lemma due_bind {A B} (p : prog A) (f : A → prog B) :
  due p → (∀ x, due (f x)) → due (pbind p f).
Proof.
  intros Hp Hf. induction p as [x|X a k IH]; cbn [pbind]; [apply Hf|].
  destruct a as [| |Y op| | | | | | | | | | | |]; cbn in *; eauto.
  destruct op; cbn in *; eauto. destruct Hp as [He Hok]. split; [eauto|]. intros lease.
  destruct (Hok lease). auto using gives_back_bind.
Qed.
End due.

Create HintDb due.

(** Goes through the text of a method. *)
Ltac dues :=
  repeat (intros; match goal with
    | |- due (Ret _) => exact I
    | |- due (pbind _ _) => apply due_bind
    | |- due (Do (Coord (CoAbort _)) _) => apply due_abort
    | |- due (Do (Coord (CoCommit _ _)) _) => apply due_commit
    | |- due (Do (Coord (CoAcquire _)) _) => fail 1
    | |- due (Do _ _) => apply due_step; [exact I|]
    | |- due (let _ := _ in _) => cbv zeta
    | |- due (match _ with _ => _ end) => case_match
    | |- due _ => solve [auto with due]
    end).

Section methods.
Context `{!MemberRuntime.Watch, Lowercase, !SqlOrder, !SerdeJson} (user_id : string).

Lemma mark_terminal_due ids : due (mark_terminal ids).
Proof. unfold mark_terminal. dues. Qed.
Hint Resolve mark_terminal_due : due.

Lemma publish_runtime_constraint_due slot_id : due (publish_runtime_constraint slot_id).
Proof. unfold publish_runtime_constraint. dues. Qed.
Hint Resolve publish_runtime_constraint_due : due.

Lemma commit_persisted_enqueue_due lease message_id : due (commit_persisted_enqueue lease message_id).
Proof. unfold commit_persisted_enqueue. dues. Qed.
Hint Resolve commit_persisted_enqueue_due : due.

Lemma commit_persisted_enqueue_gives lease message_id :
  gives_back lease (commit_persisted_enqueue lease message_id).
Proof. cbn. left. split; [done|]. intros e. cbn. by left. Qed.

Lemma enqueue_written_due lease written c content files : due (enqueue_written lease written c content files).
Proof. unfold enqueue_written. dues. Qed.
Hint Resolve enqueue_written_due : due.

Lemma enqueue_written_gives lease written c content files :
  gives_back lease (enqueue_written lease written c content files).
Proof.
  destruct written as [message|e]; [|by left]. unfold enqueue_written. apply gives_back_step. intros _.
  apply gives_back_bind, commit_persisted_enqueue_gives.
Qed.

Lemma enqueue_user_message_due slot_id role content files :
  due (enqueue_user_message slot_id role content files).
Proof.
  unfold enqueue_user_message. dues. intros. apply due_acquire; [dues|]. intros lease. split; [dues|].
  apply gives_back_step. intros written. apply gives_back_bind, enqueue_written_gives.
Qed.
Hint Resolve enqueue_user_message_due : due.

Lemma send_agent_message_due from to content files :
  due (send_agent_message_from_agent from to content files).
Proof.
  unfold send_agent_message_from_agent. dues. intros. apply due_acquire; [dues|]. intros lease. split; [dues|].
  apply gives_back_step. intros written. apply gives_back_bind, enqueue_written_gives.
Qed.

Lemma shutdown_agent_due caller target reason : due (shutdown_agent caller target reason).
Proof.
  unfold shutdown_agent. dues. intros. apply due_acquire; [dues|]. intros lease. split; [dues|].
  apply gives_back_step. intros [message|e]; [|by left]. case_match; [by left|].
  apply gives_back_bind, commit_persisted_enqueue_gives.
Qed.

Lemma enqueue_existing_work_due slot_id source message_id binding :
  due (enqueue_existing_work slot_id source message_id binding).
Proof.
  unfold enqueue_existing_work. dues. intros. apply due_acquire; [dues|]. intros lease. split; [dues|].
  apply gives_back_bind. destruct message_id as [m|]; [apply commit_persisted_enqueue_gives|].
  left. split; [done|]. intros e. by left.
Qed.
Hint Resolve enqueue_existing_work_due : due.

Lemma enqueue_leader_settle_signal_due slot_id source : due (enqueue_leader_settle_signal slot_id source).
Proof. unfold enqueue_leader_settle_signal. dues. Qed.

Lemma recover_messages_due slot_id unread : due (recover_messages slot_id unread).
Proof. induction unread; cbn [recover_messages]; dues. Qed.
Hint Resolve recover_messages_due : due.

Lemma recover_slots_due agents recovered : due (recover_slots agents recovered).
Proof. revert recovered. induction agents; intros recovered; cbn [recover_slots]; dues. Qed.

Lemma wake_leader_after_recovery_message_due slot_id source :
  due (wake_leader_after_recovery_message slot_id source).
Proof. unfold wake_leader_after_recovery_message. dues. Qed.
Hint Resolve enqueue_leader_settle_signal_due recover_slots_due wake_leader_after_recovery_message_due : due.

Lemma notify_leader_child_interrupted_due slot_id reason : due (notify_leader_child_interrupted slot_id reason).
Proof. unfold notify_leader_child_interrupted. dues. Qed.

Lemma notify_leader_spawn_attach_failed_due slot_id error :
  due (notify_leader_spawn_attach_failed slot_id error).
Proof. unfold notify_leader_spawn_attach_failed. dues. Qed.

Lemma notify_leader_membership_removed_due removed : due (notify_leader_membership_removed removed).
Proof. unfold notify_leader_membership_removed, project_team_system_message. dues. Qed.
Hint Resolve notify_leader_child_interrupted_due notify_leader_spawn_attach_failed_due
  notify_leader_membership_removed_due : due.

Lemma cancel_targets_due run targets : due (cancel_targets user_id run targets).
Proof. induction targets; cbn [cancel_targets]; unfold cancelled_turn; dues. Qed.

Lemma cancel_turn_of_due run slot_id role turn_id : due (cancel_turn_of user_id run slot_id role turn_id).
Proof. unfold cancel_turn_of, cancelled_turn. dues. Qed.

Lemma remove_agent_work_due slot_id : due (remove_agent_work user_id slot_id).
Proof. unfold remove_agent_work. dues. Qed.
Hint Resolve cancel_targets_due cancel_turn_of_due remove_agent_work_due : due.

Lemma method_due A (p : prog A) : session_method user_id A p → due p.
Proof.
  destruct 1; [unfold send_message | unfold send_message_to_agent | apply send_agent_message_due
    | apply shutdown_agent_due | unfold try_start_recovery_drain | unfold team_cancel_run
    | unfold cancel_child_turn | unfold pause_slot_work | unfold session_add_agent
    | unfold add_manual_agent, session_add_agent, project_team_system_message
    | unfold session_remove_agent | unfold service_remove_agent, finish_service_removal
    | unfold session_rename_agent | unfold spawn_agent, session_add_agent
    | unfold attach_member_runtime, attach_failed, attach_succeeded | unfold handle_signal_intents
    | auto with due | auto with due | unfold on_agent_finish | unfold finish_turn
    | unfold session_stop ]; dues.
Qed.
End methods.

(** ** In the pool *)

Lemma coordinator_op_exec' `{!MemberRuntime.Watch, Lowercase, !SqlOrder, !SerdeJson, CallEnv} {X}
    (op : CoordinatorOp X) c x c' :
  coordinator_op op c = Some (x, c') → ∃ r, exec (op_call op) c = Some (r, c').
Proof.
  destruct op; cbn [op_call exec coordinator_op];
    match goal with |- ?o = _ → _ => intros -> || intros [= Heq] end; cbn [mbind option_bind]; eauto;
    rewrite Heq; eauto.
Qed.

Section pool.
Context `{!MemberRuntime.Watch, Lowercase, !SqlOrder, !SerdeJson} (user_id : string).

Definition session_leases (s : Session) : gmap string EnqueueLeaseRecord := leases (ss_coordinator s).

Definition coordinates {X} (a : atom X) : Prop := match a with Coord _ => True | _ => False end.

Lemma other_step_leases (e : StepEnv) {X} (a : atom X) s x s' :
  ¬ coordinates a → atom_step e a s = Some (x, s') →
  session_leases s' = session_leases s ∧
  co_session_generation (ss_coordinator s') = co_session_generation (ss_coordinator s).
Proof.
  intros Ha. destruct a as [| | |Y f|Y f|Y f| | | |slot_id| | | | |]; cbn [atom_step];
    try (by intros [= _ <-]).
  - by destruct Ha.
  - destruct (f _ _). by intros [= _ <-].
  - destruct (f _ _). by intros [= _ <-].
  - destruct (f _ _). by intros [= _ <-].
  - destruct st_fails; [by intros [= _ <-]|]. destruct (write_with_files _ _ _ _ _ _ _ _).
    by intros [= _ <-].
  - destruct st_fails; by intros [= _ <-].
  - destruct (bool_decide (slot_id ∈ ss_loops s)); by intros [= _ <-].
Qed.

(** What one step does to the leases, and to what its method has yet to give back *)
Definition step_gives_back {A X} (a : atom X) (k : X → prog A) s x s' : Prop :=
  ∀ id rec, session_leases s' !! id = Some rec →
    gives_back (er_lease rec) (k x) ∨
    (session_leases s !! id = Some rec ∧ (gives_back (er_lease rec) (Do a k) → gives_back (er_lease rec) (k x))).

Lemma op_step_leases `{CallEnv} {A X} (op : CoordinatorOp X) (k : X → prog A) s x c :
  leases_wf (ss_coordinator s) → coordinator_op op (ss_coordinator s) = Some (x, c) →
  due (Do (Coord op) k) →
  due (k x) ∧ step_gives_back (Coord op) k s x (set_ss_coordinator c s).
Proof.
  intros Hwf Hop Hdue. unfold step_gives_back, session_leases. cbn [ss_coordinator set_ss_coordinator].
  assert (leases c ⊆ leases (ss_coordinator s) → plain (Coord op) → due (k x) ∧
    ∀ id rec, leases c !! id = Some rec → gives_back (er_lease rec) (k x) ∨
      (leases (ss_coordinator s) !! id = Some rec ∧
        (gives_back (er_lease rec) (Do (Coord op) k) → gives_back (er_lease rec) (k x)))) as Hplain.
  { intros Hsub Hpl. split; [by destruct op; cbn in Hdue|]. intros id rec Hrec. right.
    split; [by eapply lookup_weaken|]. by destruct op; cbn. }
  destruct (coordinator_op_exec' op _ _ _ Hop) as [r Hexec].
  destruct op; try (apply Hplain; [|exact I]; by eapply exec_leases; [exact Hexec|..]).
  - injection Hop as Hop. pose proof (acquire_leases request (ss_coordinator s)) as Hacq.
    rewrite Hop in Hacq. destruct Hdue as [Herr Hok]. destruct x as [lease|error].
    + destruct Hacq as (_ & rec & Hlease & Heq). destruct (Hok lease) as [Hd Hg]. split; [done|].
      intros id rec'. rewrite Heq, lookup_insert_Some. intros [[_ <-]|[_ Hrec]].
      * left. by rewrite Hlease.
      * right. split; [done|]. cbn. auto.
    + split; [done|]. intros id rec. rewrite Hacq. intros Hrec. right. split; [done|]. cbn. auto.
  - pose proof (commit_leases _ _ _ _ _ Hop) as Hcommit. split; [apply Hdue|]. intros id rec Hrec. right.
    destruct x as [commit|error]; rewrite Hcommit in Hrec.
    + rewrite lookup_delete_Some in Hrec. destruct Hrec as [Hne Hrec]. split; [done|].
      destruct (Hwf _ _ Hrec) as [Hid _]. cbn. intros [[Heq _]|Hall]; [|done]. congruence.
    + split; [done|]. cbn. intros [[_ Herr]|Hall]; auto.
  - injection Hop as Hop. pose proof (abort_leases lease (ss_coordinator s) Hwf) as [Hsub Hno].
    rewrite Hop in Hsub, Hno. cbn [snd] in *. split; [apply Hdue|]. intros id rec Hrec. right.
    split; [by eapply lookup_weaken|]. cbn. intros [Heq|Hall]; [|done]. by destruct (Hno _ _ Hrec).
Qed.

Lemma leases_wf_sub (c c' : Coordinator TeamRunManager) :
  leases_wf c → leases c' ⊆ leases c → co_session_generation c' = co_session_generation c →
  leases_wf c'.
Proof. intros Hwf Hsub Hgen id rec Hrec. rewrite Hgen. apply Hwf. by eapply lookup_weaken. Qed.

Lemma op_leases_wf `{CallEnv} call (c : Coordinator TeamRunManager) r c' :
  leases_wf c → exec call c = Some (r, c') → co_session_generation c' = co_session_generation c →
  leases_wf c'.
Proof.
  intros Hwf Hexec Hgen. destruct call as [request| | | | | | | | | | | | | | |];
    try (eapply leases_wf_sub; [done| |done]; by eapply exec_leases; [exact Hexec|..]).
  cbn [exec] in Hexec. pose proof (acquire_leases request c) as Hacq.
  destruct (acquire_enqueue request c) as [[lease|error] c1]; cbn in Hexec; injection Hexec as _ <-.
  - destruct Hacq as (Hg & rec & Hlease & Heq). intros id rec'. rewrite Heq, lookup_insert_Some, Hgen.
    intros [[<- <-]|[_ Hrec]]; [by rewrite Hlease|by apply Hwf].
  - intros id rec. rewrite Hacq, Hgen. apply Hwf.
Qed.

(** *** The invariant *)

Definition team_due (t : Team) : Prop :=
  leases_wf (ss_coordinator (tm_session t)) ∧
  Forall (λ p, due (projT2 p)) (tm_tasks t) ∧
  ∀ id rec, session_leases (tm_session t) !! id = Some rec →
    Exists (λ p, gives_back (er_lease rec) (projT2 p)) (tm_tasks t).

Lemma atom_step_due (e : StepEnv) {A X} (a : atom X) (k : X → prog A) s x s' :
  session_wf s → env_ok e s → atom_safe (λ b, b ∈ ss_issued s) a →
  leases_wf (ss_coordinator s) → due (Do a k) → atom_step e a s = Some (x, s') →
  leases_wf (ss_coordinator s') ∧ due (k x) ∧ step_gives_back a k s x s'.
Proof.
  intros Hs He Ha Hwf Hdue Hstep.
  destruct a as [| |Y op| | | | | | | | | | | |]; 
    try (match type of Hstep with atom_step _ ?a _ = _ =>
           destruct (other_step_leases e a s x s' ltac:(intros []) Hstep) as [Heq Hgen] end;
         split; [intros id rec; unfold session_leases in Heq; rewrite Heq, Hgen; apply Hwf|];
         split; [apply Hdue|]; intros id rec Hrec; right; rewrite Heq in Hrec; split; [done|];
         intros Hg; apply Hg).
  cbn [atom_step] in Hstep. destruct (coordinator_op op _) as [[y c]|] eqn:Hop; [|done].
  cbn in Hstep. injection Hstep as <- <-.
  destruct (op_step_leases op k s y c Hwf Hop Hdue) as [Hd Hg]. split; [|done].
  destruct (coordinator_op_exec' op _ _ _ Hop) as [r Hexec].
  destruct (exec_preserved st_call (op_call op) (session_system s)) as (r' & c' & Hexec' & Hp).
  { apply Hs. }
  { split; [apply He|apply He|done]. }
  cbn [session_system sy_coordinator] in Hexec'. rewrite Hexec in Hexec'. injection Hexec' as <- <-.
  eapply op_leases_wf; [exact Hwf|exact Hexec|apply Hp].
Qed.

Lemma team_step_due t t' : team_wf t → team_due t → team_step user_id t t' → team_due t'.
Proof.
  intros [Hs Hts] (Hwf & Hdue & Hheld) Hstep.
  destruct Hstep as [A p s ts Hp|e A X a k x s s' ts1 ts2 He Hstep
    |env call r c s ts Hloop Hok Hexec|env op s ts Hop|env c s ts Hlt|ids s ts|loops s ts];
    cbn [tm_session tm_tasks] in *; try done.
  - split; [done|]. split; [constructor; [by eapply method_due|done]|].
    intros id rec Hrec. apply Exists_cons. right. by eapply Hheld.
  - apply Forall_app in Hts as [_ [[Ha _] _]%Forall_cons].
    apply Forall_app in Hdue as [Hdue1 [Hdue Hdue2]%Forall_cons].
    destruct (atom_step_due e a k s x s' Hs He Ha Hwf Hdue Hstep) as (Hwf' & Hdue' & Hgives).
    split; [done|]. split; [apply Forall_app; split; [done|by constructor]|].
    intros id rec Hrec. cbn [tm_session tm_tasks] in *. rewrite Exists_app, Exists_cons.
    destruct (Hgives id rec Hrec) as [Hg|[Hold Hg]]; [auto|]. apply Hheld in Hold.
    rewrite Exists_app, Exists_cons in Hold. destruct Hold as [?|[?|?]]; auto.
  - pose proof (exec_preserved env call (session_system s) (sw_system _ Hs) Hok) as (r' & c' & Hexec' & Hp).
    cbn [session_system sy_coordinator] in Hexec'. rewrite Hexec in Hexec'. injection Hexec' as <- <-.
    assert (leases c ⊆ leases (ss_coordinator s)) as Hsub
      by (eapply exec_leases; [done|by intros request ->|done]).
    split; [eapply leases_wf_sub; [exact Hwf|done|apply Hp]|]. split; [done|]. intros id rec Hrec.
    apply (Hheld id rec). by eapply lookup_weaken.
Qed.

Lemma team_reachable_due t : team_reachable user_id False t → team_due t.
Proof.
  induction 1 as [team_id generation agents mailbox board _|t t' Ht IH Hstep|s ts1 t ts2 [] _].
  - split; [by intros id rec|]. split; [constructor|by intros id rec].
  - eapply team_step_due; [by eapply team_reachable_wf|done|done].
Qed.

(** C9: as long as no future of a method is dropped before it returns, however the methods of
    a session are interleaved with each other and with the event loops, every enqueue lease
    the coordinator holds is due: some running method gives it back on every way its text can
    take, errors of the database, of the scheduler and of the coordinator included.  So no
    lease is left when no method is under way.  (A future that is dropped leaves its lease:
    [dropped_send_leaks_lease].) *)
Theorem enqueue_leases_are_due t :
  team_reachable user_id False t →
  (∀ id rec, session_leases (tm_session t) !! id = Some rec →
     ∃ A (p : prog A), task p ∈ tm_tasks t ∧ gives_back (er_lease rec) p) ∧
  ((∀ A (p : prog A), task p ∈ tm_tasks t → ∃ a, p = Ret a) → session_leases (tm_session t) = ∅).
Proof.
  intros (_ & _ & Hheld)%team_reachable_due.
  assert (∀ id rec, session_leases (tm_session t) !! id = Some rec →
     ∃ A (p : prog A), task p ∈ tm_tasks t ∧ gives_back (er_lease rec) p) as Hdue.
  { intros id rec Hrec. apply Hheld, Exists_exists in Hrec as ([A p] & Hin & Hg). eauto. }
  split; [done|]. intros Hret. apply map_empty. intros id. apply eq_None_not_Some. intros [rec Hrec].
  apply Hdue in Hrec as (A & p & Hin & Hg). by apply Hret in Hin as [a ->].
Qed.
End pool.
