(* ===== verification/SessionProps.v ===== *)
(** * Team session: what is sent becomes work

    A method that runs while the rest of the session goes on ([runs]): between two of its
    steps other methods, the event loops and the service may take any of theirs.  What it
    leaves at its return is proved with the rule [ends] of postconditions that hold
    whatever happens in between. *)
From S2P Require Import Prelude Text Storage WorkModel WorkState WorkCoordinator TeamRun.
From S2P Require Import WorkInvariant WorkOps WorkFunctional.
From S2P Require MemberRuntime.
From S2P Require Import WorkSystem Mailbox TaskBoard Roster RosterProps EventLoop.
From S2P Require Import Session SessionOps SessionSafety.

Section among.
Context `{!MemberRuntime.Watch, Lowercase, !SqlOrder, !SerdeJson} (user_id : string).

(** ** A method among the others *)

(** What the others may do to the session *)
Definition meanwhile (s s' : Session) : Prop :=
  ∃ ts ts', team_wf (MkTeam s ts) ∧ rtc (team_step user_id) (MkTeam s ts) (MkTeam s' ts').

(** [p] starts at [s] and returns [r] at [s']. *)
Fixpoint runs {A} (p : prog A) (s : Session) (r : A) (s' : Session) : Prop :=
  match p with
  | Ret a => r = a ∧ s' = s
  | Do a k => ∃ e x s1 s2, meanwhile s s1 ∧ env_ok e s1 ∧ atom_step e a s1 = Some (x, s2) ∧
      runs (k x) s2 r s'
  end.

Fixpoint ends {A} (p : prog A) (Q : A → Session → Prop) (s : Session) : Prop :=
  match p with
  | Ret a => Q a s
  | Do a k => ∀ e x s1 s2, later s s1 → session_wf s1 → env_ok e s1 →
      atom_step e a s1 = Some (x, s2) → later s1 s2 → ends (k x) Q s2
  end.

Lemma meanwhile_later s s' :
  meanwhile s s' → later s s' ∧ session_wf s' ∧ ∀ b, b ∈ ss_issued s → b ∈ ss_issued s'.
Proof.
  intros (ts & ts' & Hwf & Hsteps).
  assert (∀ t t', rtc (team_step user_id) t t' → team_wf t →
    later (tm_session t) (tm_session t') ∧ team_wf t' ∧
    ∀ b, b ∈ ss_issued (tm_session t) → b ∈ ss_issued (tm_session t')) as Hall.
  { induction 1 as [t|t1 t2 t3 Hstep _ IH]; intros Ht; [done|].
    destruct (IH (team_step_wf _ _ _ Ht Hstep)) as (Hl & Hwf3 & Hin).
    split; [etrans; [by eapply team_step_later|done]|]. split; [done|]. intros b Hb. apply Hin.
    eapply team_step_issued; [exact Ht|exact Hstep|exact Hb]. }
  destruct (Hall _ _ Hsteps Hwf) as (Hl & [Hs _] & Hin). done.
Qed.

Lemma ends_runs {A} (p : prog A) Q s r s' :
  session_wf s → safe (λ b, b ∈ ss_issued s) p → ends p Q s → runs p s r s' → Q r s'.
Proof.
  revert s. induction p as [a|X a k IH]; intros s Hs Hp Hends; [by intros [-> ->]|].
  intros (e & x & s1 & s2 & Hmean & He & Hstep & Hruns).
  apply meanwhile_later in Hmean as (Hl & Hs1 & Hin). destruct Hp as [Ha Hk].
  assert (atom_safe (λ b, b ∈ ss_issued s1) a) as Ha1
    by (eapply atom_safe_mono; [exact Hin|exact Ha]).
  destruct (atom_step_wf e a s1 Hs1 He Ha1) as (y & s3 & Hstep' & Hs2 & Hiss & Hans & Hl2).
  rewrite Hstep in Hstep'. injection Hstep' as <- <-.
  eapply IH; [exact Hs2| |by eapply Hends|exact Hruns].
  eapply safe_mono; [|by apply Hk]. cbn. rewrite Hiss. intros b [Hb|Hb]; [by apply Hin|].
  by eapply learned_issued.
Qed.

Lemma ends_mono {A} (p : prog A) (Q Q' : A → Session → Prop) s :
  (∀ a s', Q a s' → Q' a s') → ends p Q s → ends p Q' s.
Proof. intros HQ. revert s. induction p as [a|X a k IH]; intros s; cbn; eauto 10. Qed.

Lemma ends_bind {A B} (p : prog A) (f : A → prog B) Q s :
  ends p (λ a s', ends (f a) Q s') s → ends (pbind p f) Q s.
Proof. revert s. induction p as [a|X a k IH]; intros s; cbn; eauto 10. Qed.

(** A postcondition that does not depend on the steps *)
Lemma ends_any {A} (p : prog A) (Q : A → Session → Prop) s : (∀ a s', Q a s') → ends p Q s.
Proof. intros HQ. revert s. induction p as [a|X a k IH]; intros s; cbn; eauto. Qed.
End among.

(** ** Messages and their work *)

Section work.
Context `{!MemberRuntime.Watch, Lowercase, !SqlOrder, !SerdeJson} (user_id : string).

(** Message [id] is in the mailbox of [to]. *)
Definition posted (to from content : string) (files : option (list string)) (id : string) (s : Session) :
    Prop :=
  ∃ r, r ∈ ss_mailbox s ∧ mr_id r = id ∧ mr_team_id r = ss_team_id s ∧ mr_to_agent_id r = to ∧
    mr_from_agent_id r = from ∧ mr_msg_type r = message_type_to_string Message ∧
    mr_content r = content ∧
    mr_files r = (f ← files; if bool_decide (f = []) then None else Some (json_of_list f)).

(** The coordinator has an intent of slot [to] for message [id]. *)
Definition work_for (to : string) (source : WorkSource) (run : option string) (id : string) (s : Session) :
    Prop :=
  ∃ k i, cs_intents (co_state (ss_coordinator s)) !! k = Some i ∧ wi_slot_id i = to ∧
    wi_source i = source ∧ wi_team_run_id i = run ∧ wi_mailbox_message_id i = Some id.

Lemma posted_later to from content files id s s' :
  later s s' → posted to from content files id s → posted to from content files id s'.
Proof.
  intros [_ [Hteam Hkept]] (r & Hr & Hid & Ht & Hrest). unfold posted, ss_mailbox, ss_team_id in *.
  destruct (Hkept r Hr) as [Hin|Hin]; [exists r|exists (set_read true r)]; by rewrite Hteam.
Qed.

Lemma work_for_later to source run id s s' :
  later s s' → work_for to source run id s → work_for to source run id s'.
Proof.
  intros [Hev _] (k & i & Hi & Hrest). destruct (Hev _ _ Hi) as (t & Ht & _).
  by exists k, (set_wi_state t i).
Qed.

Lemma commit_makes_work `{CallEnv} lease id c commit c' :
  commit_enqueue lease (Some id) c = Some (Ok commit, c') →
  ec_team_run_id commit = el_team_run_id lease ∧
  ∃ i, cs_intents (co_state c') !! ec_intent_id commit = Some i ∧ wi_slot_id i = el_slot_id lease ∧
    wi_source i = el_source lease ∧ wi_team_run_id i = el_team_run_id lease ∧
    wi_mailbox_message_id i = Some id.
Proof.
  unfold commit_enqueue. destruct (cs_enqueue_leases _ !! _); [|done].
  destruct (_ || _); [done|]. destruct (_ && _); [done|]. destruct (cs_slots _ !! _); [|done].
  destruct (validate_enqueue_constraint _ _); [|done].
  destruct (enqueue_disposition _); [|done]. cbn [mbind option_bind].
  destruct (slot_snapshot_locked _ _); [|done]. intros [= <- <-]. split; [done|].
  eexists. split; [apply lookup_insert_eq|done].
Qed.

(** What has been written becomes work, or the error is returned. *)
Lemma enqueue_written_ends lease written c content files s :
  ends (enqueue_written lease written c content files)
    (λ r s', later s s' ∧ ∀ message commit, r = Ok (message, commit) →
      written = Ok message ∧ ec_team_run_id commit = el_team_run_id lease ∧
      work_for (el_slot_id lease) (el_source lease) (el_team_run_id lease) (mm_id message) s') s.
Proof.
  destruct written as [message|error]; cbn [enqueue_written].
  - intros _ _ s1 s2 Hl1 _ _ _ Hl2. apply ends_bind. intros e x s3 s4 Hl3 _ _ Hstep Hl4.
    assert (later s s4) as Hl by (etrans; [exact Hl1|]; etrans; [exact Hl2|]; by etrans).
    cbn [atom_step coordinator_op] in Hstep.
    destruct (commit_enqueue _ _ _) as [[r c']|] eqn:Hcommit; [|done]. cbn in Hstep.
    injection Hstep as <- <-. destruct r as [commit|error]; cbn [ends].
    + intros e5 _ s5 s6 Hl5 _ _ _ Hl6. split; [etrans; [exact Hl|by etrans]|].
      intros ? ? [= <- <-]. split; [done|]. apply commit_makes_work in Hcommit as [Hrun (i & Hi)].
      split; [done|]. apply (work_for_later _ _ _ _ _ _ (transitivity Hl5 Hl6)). by exists (ec_intent_id commit), i.
    + intros _ _ s5 s6 Hl5 _ _ _ Hl6 _ _ s7 s8 Hl7 _ _ _ Hl8. split; [|done].
      etrans; [exact Hl|]. etrans; [exact Hl5|]. etrans; [exact Hl6|]. by etrans.
  - intros _ _ s1 s2 Hl1 _ _ _ Hl2. split; [by etrans|done].
Qed.

(** The lease of an acquisition is of what was asked, for the user in a run. *)
Lemma acquired_lease `{CallEnv} request (c : Coordinator TeamRunManager) lease c' :
  acquire_enqueue request c = (Ok lease, c') →
  el_slot_id lease = rq_slot_id request ∧ el_source lease = rq_source request ∧
  (rq_binding request = UserVisible → is_Some (el_team_run_id lease)).
Proof.
  unfold acquire_enqueue. destruct (validate_enqueue_constraint _ _); [|done].
  destruct (match rq_binding request with UserVisible => _ | _ => _ end) as [binding port] eqn:Hb.
  intros [= <- _]. split_and!; [done..|]. intros Hvisible. cbn. rewrite Hvisible in Hb. revert Hb.
  cbn [bind_enqueue manager_port]. unfold manager_bind_enqueue. rewrite Hvisible.
  unfold bind_user_enqueue. destruct (active_run _); intros [= <- _]; by eexists.
Qed.

(** From the acquisition on *)
Lemma enqueue_ends request from content files c (s : Session) {A}
    (k : EnqueueLease → result (MailboxMessage * EnqueueCommit) TeamError → prog A)
    (Q : A → Session → Prop) (fail : TeamError → prog A) :
  (∀ error s', ends (fail error) Q s') →
  (∀ lease message commit s',
     ec_team_run_id commit = el_team_run_id lease →
     (rq_binding request = UserVisible → is_Some (ec_team_run_id commit)) →
     posted (rq_slot_id request) from content files (mm_id message) s' →
     work_for (rq_slot_id request) (rq_source request) (ec_team_run_id commit) (mm_id message) s' →
     ends (k lease (Ok (message, commit))) Q s') →
  (∀ lease error s', ends (k lease (Err error)) Q s') →
  ends (Do (Coord (CoAcquire request)) (λ r, match r with
    | Ok lease => Do (WriteMessage (rq_slot_id request) from Message content None files) (λ written,
        pbind (enqueue_written lease written c content (default [] files)) (k lease))
    | Err error => fail error end)) Q s.
Proof.
  intros Hfail Hok Herr e x s1 s2 _ _ _ Hstep _. cbn [atom_step coordinator_op] in Hstep.
  destruct (acquire_enqueue request _) as [r c'] eqn:Hacq. cbn in Hstep. injection Hstep as <- _.
  destruct r as [lease|error]; [|apply Hfail]. apply acquired_lease in Hacq as (Hslot & Hsource & Hvisible).
  intros e3 written s3 s4 _ _ _ Hwrite _. apply ends_bind.
  eapply ends_mono; [|apply enqueue_written_ends]. intros [[message commit]|error] s' [Hl Hres];
    [|apply Herr]. destruct (Hres _ _ eq_refl) as (-> & Hrun & Hwork).
  rewrite Hslot, Hsource in Hwork. apply Hok; [done|by rewrite Hrun| |by rewrite Hrun].
  eapply posted_later; [exact Hl|]. cbn [atom_step] in Hwrite. destruct st_fails; [done|].
  destruct (write_with_files _ _ _ _ _ _ _ _) as [m t] eqn:Hm. injection Hwrite as Hres' <-.
  destruct m as [m|]; [|done]. injection Hres' as ->.
  unfold write_with_files in Hm. injection Hm as Hm <-.
  eexists. split; [apply elem_of_app; right; by apply list_elem_of_singleton|].
  by subst message.
Qed.

(** Steps that only look, or make ready *)
Lemma ends_do {A X} (a : atom X) (k : X → prog A) Q s :
  (∀ x s', ends (k x) Q s') → ends (Do a k) Q s.
Proof. intros Hk e x s1 s2 _ _ _ _ _. apply Hk. Qed.

Lemma ends_skip {A B} (p : prog (result B TeamError)) (f : B → prog (result A TeamError)) Q s :
  (∀ e s', Q (Err e) s') → (∀ x s', ends (f x) Q s') →
  ends (pbind p (λ r, match r with Ok x => f x | Err e => Ret (Err e) end)) Q s.
Proof. intros Herr Hf. apply ends_bind, ends_any. intros [x|e] s'; [apply Hf|apply Herr]. Qed.

(** A message of the user *)
Lemma user_message_ends to role content files (Q : result TeamRunAckResponse TeamError → Session → Prop) s :
  (∀ error s', Q (Err error) s') →
  (∀ status id run s' source team_run_id, posted to "user" content files id s' →
     (source = UserMessage ∨ source = UserIntervention) →
     work_for to source (Some team_run_id) id s' →
     Q (Ok (MkTeamRunAckResponse status id run)) s') →
  ends (enqueue_user_message to role content files) Q s.
Proof.
  intros Herr Hok. apply ends_skip; [done|]. intros _ s1.
  apply ends_do. intros [agent|error] s2; [|apply Herr].
  apply ends_do. intros active s3. cbv zeta.
  set (source := match active with Some _ => UserIntervention | None => UserMessage end).
  assert (source = UserMessage ∨ source = UserIntervention) as Hsource by (subst source; destruct active; auto).
  apply (enqueue_ends (mkEnqueueRequest to role source UserVisible)); [done| |done].
  intros lease message commit s4 _ Hvisible Hposted Hwork.
  destruct (Hvisible eq_refl) as [team_run_id Hrun]. rewrite Hrun in Hwork.
  intros _ snapshot s5 s6 Hl5 _ _ _ Hl6. intros _ run s7 s8 Hl7 _ _ _ Hl8.
  assert (later s4 s8) as Hl by (etrans; [exact Hl5|]; etrans; [exact Hl6|]; by etrans).
  cbn [ends]. destruct run as [run|]; [|apply Herr].
  apply (Hok _ _ _ _ source team_run_id);
    [by eapply posted_later|done|by eapply work_for_later].
Qed.

(** C10: when sending a message to another agent succeeds, then whatever the rest of the
    session did in between, the message is in the recipient's mailbox with its sender,
    content and files, and the coordinator has an intent of the recipient's slot that
    carries it, in the run that is answered (none, when the sender works for none).  When a
    message of the user is acknowledged, the same holds of the message that the
    acknowledgement names, with an intent in some run of the team.  (The run that the
    acknowledgement shows is the current one when it is written, which may be a later one.) *)
Theorem sent_message_becomes_work :
  (∀ from to content files s result s',
     session_wf s → runs user_id (send_agent_message_from_agent from to content files) s (Ok result) s' →
     ∃ id, posted to from content files id s' ∧
       work_for to McpSendMessage (qr_team_run_id result) id s') ∧
  (∀ to content files s ack s',
     session_wf s → runs user_id (send_message_to_agent to content files) s (Ok ack) s' →
     posted to "user" content files (ak_message_id ack) s' ∧
     ∃ source run, (source = UserMessage ∨ source = UserIntervention) ∧
       work_for to source (Some run) (ak_message_id ack) s').
Proof.
  split.
  - intros from to content files s result s' Hs Hruns.
    set (Q := λ (r : Prelude.result AgentMessageQueueResult TeamError) s', ∀ q, r = Ok q →
      ∃ id, posted to from content files id s' ∧ work_for to McpSendMessage (qr_team_run_id q) id s').
    refine (ends_runs user_id _ Q _ _ _ Hs (send_agent_message_safe _ _ _ _ _) _ Hruns _ eq_refl).
    apply ends_do. intros [agent|error] s1; [|done]. apply ends_do. intros [caller|error] s2; [|done].
    apply ends_skip; [done|]. intros _ s3. apply enqueue_ends; [done| |done].
    intros lease message commit s4 Hrun _ Hposted Hwork. intros _ now s5 s6 Hl5 _ _ _ Hl6.
    intros q [= <-]. assert (later s4 s6) as Hl by by etrans.
    exists (mm_id message). split; [by eapply posted_later|by eapply work_for_later].
  - intros to content files s ack s' Hs Hruns.
    set (Q := λ (r : Prelude.result TeamRunAckResponse TeamError) s', ∀ ack, r = Ok ack →
      posted to "user" content files (ak_message_id ack) s' ∧
      ∃ source run, (source = UserMessage ∨ source = UserIntervention) ∧
        work_for to source (Some run) (ak_message_id ack) s').
    refine (ends_runs user_id _ Q _ _ _ Hs (send_message_to_agent_safe _ _ _ _) _ Hruns _ eq_refl).
    apply ends_do. intros [agent|error] s1; [|done]. apply user_message_ends; [done|].
    intros status id run s2 source team_run_id Hposted Hsource Hwork ack' [= <-]. eauto.
Qed.
End work.
