(* ===== verification/SessionDemo.v ===== *)
(** * Concrete sessions

    An environment, a team of a lead and two teammates, an executable checker of
    interleavings, and the executions that the examples and the concrete instances of the
    theorems start from. *)
From Stdlib Require Import Ascii.
From S2P Require Import Prelude Text Storage WorkModel WorkState WorkCoordinator TeamRun.
From S2P Require Import WorkInvariant WorkOps.
From S2P Require MemberRuntime MemberRuntimeProps.
From S2P Require Import WorkSystem WorkLeases WorkDemo Mailbox TaskBoard Roster RosterProps EventLoop.
From S2P Require Import Session SessionOps SessionSafety SessionLeases SessionProps.

Module SessionDemo.
#[local] Existing Instance MemberRuntime.list_watch.
#[local] Existing Instance RosterDemo.demo_lowercase.
#[local] Existing Instance insertion_order.
#[local] Existing Instance plain_json.

(** ** The environment *)

(** With [fails], the questions that may be answered by an error are. *)
Definition demo_answer (fails : bool) (X : Type) (q : Question X) : X :=
  match q in Question X return X with
  | CancelAgentTurn _ _ _ => Ok tt
  | Project _ _ _ _ => Ok tt
  | KillAndWait _ => tt
  | ServiceAlive => true
  | ResolveSpawnBackendAndModel _ backend model => Ok (backend, model)
  | PersistSpawnedAgent request =>
      Ok (MkTeamAgent (pq_slot_id request) (pq_name request) RoleTeammate
            ("conversation-" +:+ pq_slot_id request) (pq_backend request) (pq_model request)
            (pq_assistant_id request) None None None)
  | ServiceRemoveAgent _ => tt
  | CapturePublishedSession => true
  | SpawnAttachBg _ _ => tt
  | AttachAgentProcess _ => if fails then Err (Database Query) else Ok tt
  | RegisterEventLoop _ => if fails then Err tt else Ok true
  | PublishReadyIfCurrent _ => true
  | CleanupStaleTask _ => tt
  | LoadOwnedTeam => if fails then Err (Database Query) else Ok RosterDemo.demo_team
  | PersistAgents _ => Ok tt
  | DeleteTeamConversation _ => Ok tt
  end.

(** The step whose identifiers begin with [tag]; its query fails if [fails]. *)
Definition demo_step (tag : ascii) (fails : bool) : StepEnv :=
  {| st_call := demo_env tag 1000;
     st_queries n := {| query_order := plain_order;
                        query k := demo_env (ascii_of_nat (nat_of_ascii tag + n + k)) 1000;
                        query_fails _ := fails |};
     st_fails := fails;
     st_answer := demo_answer fails |}.

Definition demo_step_ok (tag : ascii) (s : Session) : bool :=
  unused tag (map_keys (cs_intents (co_state (ss_coordinator s)))) &&
  unused tag (map_keys (session_leases s)) &&
  unused tag (wb_batch_id <$> ss_issued s) &&
  (MemberRuntime.mr_next_operation_id (ss_registry s) + 1 <? 2 ^ 64)%Z.

Lemma demo_step_env_ok tag fails s : demo_step_ok tag s = true → env_ok (demo_step tag fails) s.
Proof.
  intros [[Hfresh Hb]%andb_true_iff Hlt%Z.ltb_lt]%andb_true_iff. split; [| | |done].
  - by apply demo_fresh.
  - intros n b Hin Heq. apply (unused_spec tag 1000 _ n Hb). 
    change (wb_batch_id b = gen_id (CallEnv := demo_env tag 1000) n) in Heq. rewrite <-Heq.
    by apply list_elem_of_fmap_2.
  - intros X []; try done. cbn. by intros a [= <-].
Qed.

(** ** Interleavings *)

(** [tags] has the tag of each step. *)
Fixpoint advance (tags : list (ascii * bool)) {A} (p : prog A) (s : Session) :
    option (prog A * Session) :=
  match tags, p with
  | [], _ => Some (p, s)
  | (tag, fails) :: tags, Do a k =>
      if demo_step_ok tag s then '(x, s) ← atom_step (demo_step tag fails) a s; advance tags (k x) s
      else None
  | _ :: _, Ret _ => None
  end.

(** The session and the method after those steps *)
Definition session_after tags {A} (p : prog A) s : Session := from_option snd s (advance tags p s).
Definition method_after tags {A} (p : prog A) s : prog A := from_option fst p (advance tags p s).

Lemma advance_reachable user_id drops tags {A} (p : prog A) s ts :
  team_reachable user_id drops (MkTeam s (task p :: ts)) →
  team_reachable user_id drops
    (MkTeam (session_after tags p s) (task (method_after tags p s) :: ts)).
Proof.
  unfold session_after, method_after. revert p s.
  induction tags as [|[tag fails] tags IH]; intros p s Ht; [done|].
  destruct p as [a|X a k]; [done|]. cbn [advance].
  destruct (demo_step_ok tag s) eqn:Hok; [|done].
  destruct (atom_step (demo_step tag fails) a s) as [[x s']|] eqn:Hstep; [|done]. cbn [mbind option_bind].
  destruct (advance tags (k x) s') as [[p'' s'']|] eqn:Hadv; cbn; [|done].
  specialize (IH (k x) s'). rewrite Hadv in IH. cbn in IH. apply IH.
  eapply team_next; [exact Ht|].
  apply (ts_advance user_id (demo_step tag fails) A X a k x s s' [] ts);
    [by apply demo_step_env_ok|done].
Qed.

(** A team with event loops for its two first agents, whose runtimes are ready *)
Definition demo_start : Session := session_start "team" "g" RosterDemo.demo_team [] ∅.
Definition seeded (slot_id : string) (s : Session) : Session :=
  set_ss_registry (MemberRuntime.registry_exec (H0 := plain_order) (MemberRuntime.SeedReady slot_id)
                     (ss_registry s)).2 s.
Definition demo_session : Session :=
  set_ss_loops {["lead"; "w1"]} (seeded "w1" (seeded "lead" demo_start)).

Lemma seeded_reachable user_id drops slot_id s ts :
  (MemberRuntime.mr_next_operation_id (ss_registry s) + 1 <? 2 ^ 64)%Z = true →
  team_reachable user_id drops (MkTeam s ts) →
  team_reachable user_id drops (MkTeam (seeded slot_id s) ts).
Proof.
  intros Hlt%Z.ltb_lt Ht. eapply team_next; [exact Ht|].
  exact (ts_registry user_id (demo_env "a" 0) (MemberRuntime.SeedReady slot_id) s ts Hlt).
Qed.

Lemma demo_session_reachable user_id drops : team_reachable user_id drops (MkTeam demo_session []).
Proof.
  eapply team_next; [|apply ts_loops]. apply seeded_reachable; [vm_compute; reflexivity|].
  apply seeded_reachable; [vm_compute; reflexivity|]. apply team_start, RosterDemo.demo_team_ok.
Qed.

(** A method under way in it *)
Lemma demo_advance user_id drops tags {A : Type} (p : prog A) :
  session_method user_id A p →
  team_reachable user_id drops
    (MkTeam (session_after tags p demo_session) [task (method_after tags p demo_session)]).
Proof.
  intros Hp. apply advance_reachable. eapply team_next; [apply demo_session_reachable|].
  by apply ts_begin.
Qed.
(** Steps [n] to [n + k - 1], tagged by their number; none fails *)
Definition steps_from (n k : nat) : list (ascii * bool) := (λ i, (ascii_of_nat i, false)) <$> seq n k.

Definition returns {A} (o : option (prog A * Session)) : option A :=
  match o with Some (Ret a, _) => Some a | _ => None end.

(** ** The theorems *)

Definition demo_send : prog (result TeamRunAckResponse TeamError) :=
  send_message_to_agent "w1" "hello" None.

(** A message of the user, its enqueue lease acquired and its message not yet written *)
Definition demo_sending : Session := session_after (steps_from 97 6) demo_send demo_session.

Lemma session_never_panics_witness :
  coordinator_wf (ss_coordinator demo_sending) ∧ mg_ok False (ss_scheduler demo_sending).
Proof.
  pose proof (session_never_panics "user" False _
    (demo_advance "user" False (steps_from 97 6) demo_send (m_send_message_to_agent _ _ _ _)))
    as (Hwf & Hok & _).
  exact (conj Hwf Hok).
Defined.

Lemma enqueue_leases_are_due_witness :
  map_keys (session_leases demo_sending) = ["f1"] ∧
  ∀ rec, session_leases demo_sending !! "f1" = Some rec →
    ∃ A (p : prog A), task p ∈ [task (method_after (steps_from 97 6) demo_send demo_session)] ∧
      gives_back (er_lease rec) p.
Proof.
  split; [vm_compute; reflexivity|]. intros rec Hrec.
  destruct (enqueue_leases_are_due "user" _
    (demo_advance "user" False (steps_from 97 6) demo_send (m_send_message_to_agent _ _ _ _))) as [Hdue _].
  exact (Hdue "f1" rec Hrec).
Defined.

Lemma advance_runs user_id tags {A} (p : prog A) s r s' :
  session_wf s → safe (λ b, b ∈ ss_issued s) p → advance tags p s = Some (Ret r, s') →
  runs user_id p s r s'.
Proof.
  revert p s. induction tags as [|[tag fails] tags IH]; intros p s Hs Hp; [by intros [= -> ->]|].
  destruct p as [a|X a k]; [done|]. cbn [advance].
  destruct (demo_step_ok tag s) eqn:Hok; [|done].
  pose proof (demo_step_env_ok tag fails s Hok) as He. destruct Hp as [Ha Hk].
  destruct (atom_step_wf _ a s Hs He Ha) as (x & s1 & Hstep & Hs1 & Hiss & Hans & _).
  rewrite Hstep. cbn [mbind option_bind]. intros Hadv. exists (demo_step tag fails), x, s, s1.
  split; [by exists [], []|]. split; [done|]. split; [done|]. apply IH; [done| |done].
  eapply safe_mono; [|by apply Hk]. rewrite Hiss. intros b [Hb|Hb]; [done|]. by eapply learned_issued.
Qed.

Lemma demo_session_wf : session_wf demo_session.
Proof. exact (proj1 (team_reachable_wf "user" False _ (demo_session_reachable "user" False))). Qed.

Definition demo_sent : Session := session_after (steps_from 97 12) demo_send demo_session.

Lemma sent_message_becomes_work_witness :
  posted "w1" "user" "hello" None "g0" demo_sent ∧
  ∃ source run, (source = UserMessage ∨ source = UserIntervention) ∧ work_for "w1" source (Some run) "g0" demo_sent.
Proof.
  destruct (sent_message_becomes_work "user") as [_ Huser].
  refine (Huser "w1" "hello" None demo_session
    (MkTeamRunAckResponse EnqueueAccepted "g0" _) demo_sent demo_session_wf _).
  apply (advance_runs "user" (steps_from 97 12)).
  - exact demo_session_wf.
  - apply send_message_to_agent_safe.
  - vm_compute. reflexivity.
Defined.
(** ** What the model shows of the code *)

(** A future that is dropped between [acquire_enqueue] and [commit_enqueue], as that of a
    handler whose client has gone: the lease stays, nobody will give it back, and the run
    that was begun for the message has it for work. *)
Example dropped_send_leaks_lease :
  team_reachable "user" True (MkTeam demo_sending []) ∧
  map_keys (session_leases demo_sending) = ["f1"] ∧
  current_active_run_id (ss_runs demo_sending) = Some "f0" ∧
  rs_active_enqueue_lease_count
    (run_summary_locked (H := plain_order) (co_state (ss_coordinator demo_sending)) "f0") = 1.
Proof.
  split; [|vm_compute; auto].
  apply (team_dropped "user" True demo_sending []
    (task (method_after (steps_from 97 6) demo_send demo_session)) [] I).
  exact (demo_advance "user" True (steps_from 97 6) demo_send (m_send_message_to_agent _ _ _ _)).
Qed.

(** [TeamSessionService::remove_agent] does not tell the coordinator: after it has
    succeeded, the run of a message to the removed agent still waits for it. *)
Definition demo_removed : Session := session_after (steps_from 150 22) (service_remove_agent "w1") demo_sent.

Example removed_agent_keeps_its_work :
  returns (advance (steps_from 150 22) (service_remove_agent "w1") demo_sent) = Some (Ok tt) ∧
  mg_slots (ss_scheduler demo_removed) !! "w1" = None ∧
  current_active_run_id (ss_runs demo_removed) = Some "f0" ∧
  (∃ k, wi_slot_id <$> cs_intents (co_state (ss_coordinator demo_removed)) !! k = Some "w1" ∧
    wi_state <$> cs_intents (co_state (ss_coordinator demo_removed)) !! k = Some IntentQueued).
Proof.
  split; [vm_compute; reflexivity|]. split; [vm_compute; reflexivity|].
  split; [vm_compute; reflexivity|]. exists "i0". vm_compute. auto.
Qed.

(** When the second load of the team fails, the removal returns its error without ending
    the operation it began: the member stays [Removing], and a later removal waits for it. *)
Definition removal_fails : list (ascii * bool) := (λ i, (ascii_of_nat i, bool_decide (i = 154))) <$> seq 150 5.

Example failed_removal_never_ends :
  returns (advance removal_fails (service_remove_agent "w1") demo_session) = Some (Err (Database Query)) ∧
  let r := ss_registry (session_after removal_fails (service_remove_agent "w1") demo_session) in
  MemberRuntime.registry_snapshot "w1" r = MemberRuntime.SnapRemoving 1 ∧
  (MemberRuntime.begin_remove "w1" r).1 = MemberRuntime.RemoveJoin (MemberRuntime.MkWaiter 1 0).
Proof. vm_compute. auto. Qed.

(** Two agents spawned under one name: the second [spawn_agent] runs between the check of
    the first and its [add_agent]. *)
Definition demo_spawn : prog (result TeamAgent TeamError) :=
  spawn_agent "user" "lead" (MkSpawnAgentRequest "Zoe" (Some "assistant")).

Definition spawned_once : Session :=
  session_after (steps_from 69 18) demo_spawn (session_after (steps_from 65 4) demo_spawn demo_session).

Definition spawned_twice : Session :=
  session_after (steps_from 120 14) (method_after (steps_from 65 4) demo_spawn demo_session) spawned_once.

Example concurrent_spawns_share_name :
  (λ e, ta_name (as_agent e.2)) <$> map_to_list (mg_slots (ss_scheduler spawned_twice)) =
    ["Ann"; "Bob"; "Zoe"; "Leader"; "Zoe"].
Proof. vm_compute. reflexivity. Qed.

(** An agent whose runtime could not be started, with a message of the user waiting for it:
    when its process could not be attached the message is marked read and the lead is told;
    when its event loop could not be registered neither happens, though the work of the
    message has failed all the same. *)
Definition reserved : MemberRuntime.ReserveAttach * MemberRuntime.MemberRuntimeRegistry :=
  MemberRuntime.reserve_attach "w2" false (ss_registry demo_session).
Definition demo_waiting : Session :=
  session_after (steps_from 65 12) (send_message_to_agent "w2" "hello" None)
    (set_ss_registry reserved.2 demo_session).
Definition demo_attach : prog unit :=
  attach_member_runtime (RosterDemo.demo_agent "w2" "Bob" RoleTeammate)
    match reserved.1 with
    | MemberRuntime.AttachStart lease => lease
    | _ => MemberRuntime.MkAttachLease "" "" (MemberRuntime.MkWaiter 0 0)
    end.

(** The attach, whose [n]-th step is answered by an error *)
Definition attach_failing (n k : nat) : Session :=
  session_after ((λ i, (ascii_of_nat i, bool_decide (i = 100 + n))) <$> seq 100 k) demo_attach demo_waiting.

Definition message_of_w2 (s : Session) : list (string * bool) * list WorkIntentState :=
  ((λ r, (mr_to_agent_id r, mr_read r)) <$> ss_mailbox s,
   omap (λ i, if bool_decide (wi_slot_id i = "w2") then Some (wi_state i) else None)
     (map_to_list (cs_intents (co_state (ss_coordinator s)))).*2).

Example unregistered_loop_leaves_message :
  message_of_w2 (attach_failing 1 17) =
    ([("w2", true); ("lead", false)], [IntentFailed "runtime_configuration_failed"]) ∧
  message_of_w2 (attach_failing 4 8) =
    ([("w2", false)], [IntentFailed "event_loop_registration_failed"]).
Proof. vm_compute. auto. Qed.
End SessionDemo.
