(* ===== verification/CronTypes.v ===== *)
(** * Scheduled jobs: the data

    Models [crates/aionui-cron/src/types.rs] and [error.rs], the requests and responses of
    [crates/aionui-api-types/src/cron.rs] and the row of
    [crates/aionui-db/src/models/cron_job.rs]: jobs as the service handles them, as the
    database stores them and as the API shows them, and the conversions between the three.

    Instants and durations are [i64] milliseconds.  The JSON of an agent configuration
    comes from derived [serde] implementations: [CronJson] is what the code relies on. *)
From Stdlib Require Import Ascii.
From S2P Require Import Prelude Text Storage.

(** ** Data of [types.rs] *)

Inductive CronSchedule :=
  | At (at_ms : Z) (description : option string)
  | Every (every_ms : Z) (description : option string)
  | Cron (expr : string) (tz : option string) (description : option string).

Inductive ExecutionMode := Existing | NewConversation.
Inductive CreatedBy := ByUser | ByAgent.
Inductive JobStatus := StatusOk | StatusError | StatusSkipped | StatusMissed.

Record ProviderWithModel := MkProviderWithModel {
  pm_provider_id : string;
  pm_model : string;
  pm_use_model : option string;
}.

Record CronAgentConfig := MkCronAgentConfig {
  ac_name : string;
  ac_cli_path : option string;
  ac_is_preset : option bool;
  ac_assistant_id : option string;
  ac_custom_agent_id : option string;
  ac_mode : option string;
  ac_model_id : option string;
  ac_model : option ProviderWithModel;
  ac_config_options : option (gmap string string);
  ac_workspace : option string;
}.

Record CronJob := MkCronJob {
  cj_id : string;
  cj_name : string;
  cj_enabled : bool;
  cj_schedule : CronSchedule;
  cj_message : string;
  cj_execution_mode : ExecutionMode;
  cj_agent_config : option CronAgentConfig;
  cj_conversation_id : string;
  cj_conversation_title : option string;
  cj_agent_type : string;
  cj_created_by : CreatedBy;
  cj_skill_content : option string;
  cj_description : option string;
  cj_created_at : Z;
  cj_updated_at : Z;
  cj_next_run_at : option Z;
  cj_last_run_at : option Z;
  cj_last_status : option JobStatus;
  cj_last_error : option string;
  cj_run_count : Z;
  cj_retry_count : Z;
  cj_max_retries : Z;
  cj_queue_enabled : bool;
}.

(** ** The row of [cron_jobs] *)

Record CronJobRow := MkCronJobRow {
  jr_id : string;
  jr_name : string;
  jr_enabled : bool;
  jr_schedule_kind : string;
  jr_schedule_value : string;
  jr_schedule_tz : option string;
  jr_schedule_description : option string;
  jr_payload_message : string;
  jr_execution_mode : string;
  jr_agent_config : option string;
  jr_conversation_id : string;
  jr_conversation_title : option string;
  jr_created_by : string;
  jr_skill_content : option string;
  jr_description : option string;
  jr_created_at : Z;
  jr_updated_at : Z;
  jr_next_run_at : option Z;
  jr_last_run_at : option Z;
  jr_last_status : option string;
  jr_last_error : option string;
  jr_run_count : Z;
  jr_retry_count : Z;
  jr_max_retries : Z;
  jr_queue_enabled : bool;
}.

(** ** Data of [aionui-api-types/src/cron.rs] *)

Inductive CronScheduleDto :=
  | DtoAt (at_ms : Z) (description : option string)
  | DtoEvery (every_ms : Z) (description : option string)
  | DtoCron (expr : string) (tz : option string) (description : option string).

Record CronAgentConfigWriteDto := MkCronAgentConfigWriteDto {
  wd_name : string;
  wd_cli_path : option string;
  wd_assistant_id : option string;
  wd_mode : option string;
  wd_model_id : option string;
  wd_model : option ProviderWithModel;
  wd_config_options : option (gmap string string);
  wd_workspace : option string;
}.

Record CreateCronJobRequest := MkCreateCronJobRequest {
  cq_name : string;
  cq_description : option string;
  cq_schedule : CronScheduleDto;
  cq_prompt : option string;
  cq_message : option string;
  cq_conversation_id : string;
  cq_conversation_title : option string;
  cq_created_by : string;
  cq_execution_mode : option string;
  cq_queue_enabled : bool;
  cq_agent_config : option CronAgentConfigWriteDto;
}.

Record UpdateCronJobRequest := MkUpdateCronJobRequest {
  uq_name : option string;
  uq_description : option string;
  uq_enabled : option bool;
  uq_schedule : option CronScheduleDto;
  uq_message : option string;
  uq_execution_mode : option string;
  uq_agent_config : option CronAgentConfigWriteDto;
  uq_conversation_title : option string;
  uq_max_retries : option Z;
  uq_queue_enabled : option bool;
}.

Record CronAgentConfigReadDto := MkCronAgentConfigReadDto {
  rd_name : string;
  rd_cli_path : option string;
  rd_is_preset : option bool;
  rd_assistant_id : option string;
  rd_custom_agent_id : option string;
  rd_mode : option string;
  rd_model_id : option string;
  rd_model : option ProviderWithModel;
  rd_config_options : option (gmap string string);
  rd_workspace : option string;
}.

Record CronJobMetadataDto := MkCronJobMetadataDto {
  md_conversation_id : string;
  md_conversation_title : option string;
  md_agent_type : string;
  md_created_by : string;
  md_created_at : Z;
  md_updated_at : Z;
  md_agent_config : option CronAgentConfigReadDto;
}.

Record CronJobStateDto := MkCronJobStateDto {
  sd_next_run_at_ms : option Z;
  sd_last_run_at_ms : option Z;
  sd_last_status : option string;
  sd_last_error : option string;
  sd_run_count : Z;
  sd_retry_count : Z;
  sd_max_retries : Z;
  sd_queue_enabled : bool;
}.

(** The target of a response: the text of its message, the only kind of payload, and the
    execution mode *)
Record CronJobTargetDto := MkCronJobTargetDto {
  td_payload_text : string;
  td_execution_mode : option string;
}.

Record CronJobResponse := MkCronJobResponse {
  jp_id : string;
  jp_name : string;
  jp_description : option string;
  jp_enabled : bool;
  jp_schedule : CronScheduleDto;
  jp_target : CronJobTargetDto;
  jp_metadata : CronJobMetadataDto;
  jp_state : CronJobStateDto;
}.

(** ** Errors

    [CronError] of [error.rs].  [ConversationError] belongs to the conversation service:
    the two constructors [from_conversation_create] looks at, and the text of the others. *)

Inductive ConversationError :=
  | WsUnavailable (path : string)
  | WsRuntimeUnavailable (path : string)
  | ConversationNotFound (id : string)
  | ConversationBusy (reason : string)
  | OtherConversationError (text : string).

Inductive CronError :=
  | JobNotFound (id : string)
  | InvalidSchedule (text : string)
  | InvalidCronExpression (text : string)
  | InvalidExecutionMode (text : string)
  | InvalidCreatedBy (text : string)
  | InvalidJobStatus (text : string)
  | InvalidTimezone (text : string)
  | InvalidSkillContent (text : string)
  | InvalidAgentConfig (text : string)
  | AssistantNotFound (id : string)
  | SchedulerError (text : string)
  | WorkspacePathUnavailable (path : string)
  | WorkspacePathRuntimeUnavailable (path : string)
  | ConversationErr (e : ConversationError)
  | Database (e : DbError)
  | Json (text : string).

#[global] Instance CronSchedule_eq_dec : EqDecision CronSchedule.
Proof. solve_decision. Defined.
#[global] Instance ExecutionMode_eq_dec : EqDecision ExecutionMode.
Proof. solve_decision. Defined.
#[global] Instance CreatedBy_eq_dec : EqDecision CreatedBy.
Proof. solve_decision. Defined.
#[global] Instance JobStatus_eq_dec : EqDecision JobStatus.
Proof. solve_decision. Defined.
#[global] Instance ProviderWithModel_eq_dec : EqDecision ProviderWithModel.
Proof. solve_decision. Defined.
#[global] Instance CronAgentConfig_eq_dec : EqDecision CronAgentConfig.
Proof. solve_decision. Defined.

(** [Display] of [ConversationError] and [CronError]; the text of an error of [sqlx] is
    that library's. *)
Definition conversation_error_to_string (e : ConversationError) : string :=
  match e with
  | WsUnavailable path => "Workspace path is unavailable: " +:+ path
  | WsRuntimeUnavailable path => "Workspace path is unavailable during execution: " +:+ path
  | ConversationNotFound id => "Conversation not found: " +:+ id
  | ConversationBusy reason => "Conversation is busy: " +:+ reason
  | OtherConversationError text => text
  end.

Definition db_error_to_string (sqlx_text : string) (e : DbError) : string :=
  match e with
  | Query => "Database query failed: " +:+ sqlx_text
  | NotFound s => "Record not found: " +:+ s
  | Conflict s => "Duplicate record: " +:+ s
  end.

Definition cron_error_to_string (sqlx_text : string) (e : CronError) : string :=
  match e with
  | JobNotFound s => "Cron job not found: " +:+ s
  | InvalidSchedule s => "Invalid schedule: " +:+ s
  | InvalidCronExpression s => "Invalid cron expression: " +:+ s
  | InvalidExecutionMode s => "Invalid execution mode: " +:+ s
  | InvalidCreatedBy s => "Invalid created-by value: " +:+ s
  | InvalidJobStatus s => "Invalid job status: " +:+ s
  | InvalidTimezone s => "Invalid timezone: " +:+ s
  | InvalidSkillContent s => "Invalid skill content: " +:+ s
  | InvalidAgentConfig s => "Invalid agent config: " +:+ s
  | AssistantNotFound s => "assistant '" +:+ s +:+ "' not found"
  | SchedulerError s => "Scheduler error: " +:+ s
  | WorkspacePathUnavailable s => "Workspace path is unavailable: " +:+ s
  | WorkspacePathRuntimeUnavailable s => "Workspace path is unavailable during execution: " +:+ s
  | ConversationErr e => conversation_error_to_string e
  | Database e => db_error_to_string sqlx_text e
  | Json s => "JSON error: " +:+ s
  end.

Definition from_conversation_create (e : ConversationError) : CronError :=
  match e with
  | WsUnavailable path => WorkspacePathUnavailable path
  | WsRuntimeUnavailable path => WorkspacePathRuntimeUnavailable path
  | other => SchedulerError ("create conversation: " +:+ conversation_error_to_string other)
  end.

(** ** The enumerations as text *)

Definition execution_mode_as_str (m : ExecutionMode) : string :=
  match m with Existing => "existing" | NewConversation => "new_conversation" end.

Definition execution_mode_from_str (s : string) : result ExecutionMode CronError :=
  if bool_decide (s = "existing") then Ok Existing
  else if bool_decide (s = "new_conversation") then Ok NewConversation
  else Err (InvalidExecutionMode s).

Definition created_by_as_str (c : CreatedBy) : string :=
  match c with ByUser => "user" | ByAgent => "agent" end.

Definition created_by_from_str (s : string) : result CreatedBy CronError :=
  if bool_decide (s = "user") then Ok ByUser
  else if bool_decide (s = "agent") then Ok ByAgent
  else Err (InvalidCreatedBy s).

Definition job_status_as_str (st : JobStatus) : string :=
  match st with
  | StatusOk => "ok" | StatusError => "error" | StatusSkipped => "skipped" | StatusMissed => "missed"
  end.

Definition job_status_from_str (s : string) : result JobStatus CronError :=
  if bool_decide (s = "ok") then Ok StatusOk
  else if bool_decide (s = "error") then Ok StatusError
  else if bool_decide (s = "skipped") then Ok StatusSkipped
  else if bool_decide (s = "missed") then Ok StatusMissed
  else Err (InvalidJobStatus s).

(** ** The JSON of an agent configuration

    [serde_json::to_string] and [from_str] at [CronAgentConfig]: fields that are [None] are
    left out, and a missing field is read as [None], so reading gives back what was
    written.  Writing cannot fail: every key is a string. *)
Class CronJson := {
  config_to_json : CronAgentConfig → string;
  config_of_json : string → result CronAgentConfig string;
  config_of_to_json c : config_of_json (config_to_json c) = Ok c;
}.

(** [opt.map(f).transpose()?] *)
Definition opt_transpose {A B E} (f : A → result B E) (o : option A) : result (option B) E :=
  match o with
  | None => Ok None
  | Some a => b ←? f a; Ok (Some b)
  end.

(** ** Conversions *)

Section conversions.
Context `{CronJson}.

Definition parse_schedule (kind value : string) (tz description : option string) :
    result CronSchedule CronError :=
  if bool_decide (kind = "at") then
    match parse_i64 value with
    | Ok at_ms => Ok (At at_ms description)
    | Err e => Err (InvalidSchedule ("invalid at_ms '" +:+ value +:+ "': " +:+ int_error_to_string e))
    end
  else if bool_decide (kind = "every") then
    match parse_i64 value with
    | Ok every_ms => Ok (Every every_ms description)
    | Err e => Err (InvalidSchedule ("invalid every_ms '" +:+ value +:+ "': " +:+ int_error_to_string e))
    end
  else if bool_decide (kind = "cron") then Ok (Cron value tz description)
  else Err (InvalidSchedule ("unknown schedule kind: " +:+ kind)).

Definition cron_job_from_row (row : CronJobRow) : result CronJob CronError :=
  schedule ←? parse_schedule row.(jr_schedule_kind) row.(jr_schedule_value)
                row.(jr_schedule_tz) row.(jr_schedule_description);
  execution_mode ←? execution_mode_from_str row.(jr_execution_mode);
  created_by ←? created_by_from_str row.(jr_created_by);
  agent_config ←? opt_transpose (λ s, match config_of_json s with
                                      | Ok c => Ok c | Err e => Err (Json e) end)
                    row.(jr_agent_config);
  last_status ←? opt_transpose job_status_from_str row.(jr_last_status);
  Ok {| cj_id := row.(jr_id);
        cj_name := row.(jr_name);
        cj_enabled := row.(jr_enabled);
        cj_schedule := schedule;
        cj_message := row.(jr_payload_message);
        cj_execution_mode := execution_mode;
        cj_agent_config := agent_config;
        cj_conversation_id := row.(jr_conversation_id);
        cj_conversation_title := row.(jr_conversation_title);
        cj_agent_type := EmptyString;
        cj_created_by := created_by;
        cj_skill_content := row.(jr_skill_content);
        cj_description := row.(jr_description);
        cj_created_at := row.(jr_created_at);
        cj_updated_at := row.(jr_updated_at);
        cj_next_run_at := row.(jr_next_run_at);
        cj_last_run_at := row.(jr_last_run_at);
        cj_last_status := last_status;
        cj_last_error := row.(jr_last_error);
        cj_run_count := row.(jr_run_count);
        cj_retry_count := row.(jr_retry_count);
        cj_max_retries := row.(jr_max_retries);
        cj_queue_enabled := row.(jr_queue_enabled) |}.

(** The kind, the value, the time zone and the description of a schedule *)
Definition schedule_to_row_fields (schedule : CronSchedule) :
    string * string * option string * option string :=
  match schedule with
  | At at_ms description => ("at", pretty at_ms, None, description)
  | Every every_ms description => ("every", pretty every_ms, None, description)
  | Cron expr tz description => ("cron", expr, tz, description)
  end.

Definition cron_job_to_row (job : CronJob) : CronJobRow :=
  let '(schedule_kind, schedule_value, schedule_tz, schedule_description) :=
    schedule_to_row_fields job.(cj_schedule) in
  {| jr_id := job.(cj_id);
     jr_name := job.(cj_name);
     jr_enabled := job.(cj_enabled);
     jr_schedule_kind := schedule_kind;
     jr_schedule_value := schedule_value;
     jr_schedule_tz := schedule_tz;
     jr_schedule_description := schedule_description;
     jr_payload_message := job.(cj_message);
     jr_execution_mode := execution_mode_as_str job.(cj_execution_mode);
     jr_agent_config := config_to_json <$> job.(cj_agent_config);
     jr_conversation_id := job.(cj_conversation_id);
     jr_conversation_title := job.(cj_conversation_title);
     jr_created_by := created_by_as_str job.(cj_created_by);
     jr_skill_content := job.(cj_skill_content);
     jr_description := job.(cj_description);
     jr_created_at := job.(cj_created_at);
     jr_updated_at := job.(cj_updated_at);
     jr_next_run_at := job.(cj_next_run_at);
     jr_last_run_at := job.(cj_last_run_at);
     jr_last_status := job_status_as_str <$> job.(cj_last_status);
     jr_last_error := job.(cj_last_error);
     jr_run_count := job.(cj_run_count);
     jr_retry_count := job.(cj_retry_count);
     jr_max_retries := job.(cj_max_retries);
     jr_queue_enabled := job.(cj_queue_enabled) |}.
End conversions.

Definition schedule_to_dto (schedule : CronSchedule) : CronScheduleDto :=
  match schedule with
  | At at_ms description => DtoAt at_ms description
  | Every every_ms description => DtoEvery every_ms description
  | Cron expr tz description => DtoCron expr tz description
  end.

(** [a.or(b)] *)
Definition opt_or {A} (a b : option A) : option A := match a with Some _ => a | None => b end.

Definition agent_config_to_dto (c : CronAgentConfig) : CronAgentConfigReadDto :=
  let canonical_assistant_id := opt_or c.(ac_assistant_id) c.(ac_custom_agent_id) in
  let assistant_backed := bool_decide (is_Some canonical_assistant_id) in
  {| rd_name := c.(ac_name);
     rd_cli_path := if assistant_backed then None else c.(ac_cli_path);
     rd_is_preset := if assistant_backed then None else c.(ac_is_preset);
     rd_assistant_id := canonical_assistant_id;
     rd_custom_agent_id := if assistant_backed then None else c.(ac_custom_agent_id);
     rd_mode := c.(ac_mode);
     rd_model_id := c.(ac_model_id);
     rd_model := c.(ac_model);
     rd_config_options := c.(ac_config_options);
     rd_workspace := c.(ac_workspace) |}.

Definition cron_job_to_response (job : CronJob) : CronJobResponse :=
  {| jp_id := job.(cj_id);
     jp_name := job.(cj_name);
     jp_description := job.(cj_description);
     jp_enabled := job.(cj_enabled);
     jp_schedule := schedule_to_dto job.(cj_schedule);
     jp_target := {| td_payload_text := job.(cj_message);
                     td_execution_mode := Some (execution_mode_as_str job.(cj_execution_mode)) |};
     jp_metadata :=
       {| md_conversation_id := job.(cj_conversation_id);
          md_conversation_title := job.(cj_conversation_title);
          md_agent_type := job.(cj_agent_type);
          md_created_by := created_by_as_str job.(cj_created_by);
          md_created_at := job.(cj_created_at);
          md_updated_at := job.(cj_updated_at);
          md_agent_config := agent_config_to_dto <$> job.(cj_agent_config) |};
     jp_state :=
       {| sd_next_run_at_ms := job.(cj_next_run_at);
          sd_last_run_at_ms := job.(cj_last_run_at);
          sd_last_status := job_status_as_str <$> job.(cj_last_status);
          sd_last_error := job.(cj_last_error);
          sd_run_count := job.(cj_run_count);
          sd_retry_count := job.(cj_retry_count);
          sd_max_retries := job.(cj_max_retries);
          sd_queue_enabled := job.(cj_queue_enabled) |} |}.

Definition schedule_from_dto (dto : CronScheduleDto) : CronSchedule :=
  match dto with
  | DtoAt at_ms description => At at_ms description
  | DtoEvery every_ms description => Every every_ms description
  | DtoCron expr tz description => Cron expr tz description
  end.

(** [schedule_from_dto_with_existing_timezone] of [service.rs]: an update of an expression
    that says no time zone keeps the one there is. *)
Definition schedule_from_dto_with_existing_timezone (dto : CronScheduleDto)
    (existing : CronSchedule) : CronSchedule :=
  match dto with
  | DtoCron expr tz description =>
      Cron expr (opt_or tz (match existing with Cron _ tz _ => tz | _ => None end)) description
  | _ => schedule_from_dto dto
  end.

(** ** Setters *)

Definition CronJob_eta (j : CronJob) : CronJob :=
  {| cj_id := cj_id j; cj_name := cj_name j; cj_enabled := cj_enabled j;
     cj_schedule := cj_schedule j; cj_message := cj_message j;
     cj_execution_mode := cj_execution_mode j; cj_agent_config := cj_agent_config j;
     cj_conversation_id := cj_conversation_id j;
     cj_conversation_title := cj_conversation_title j; cj_agent_type := cj_agent_type j;
     cj_created_by := cj_created_by j; cj_skill_content := cj_skill_content j;
     cj_description := cj_description j; cj_created_at := cj_created_at j;
     cj_updated_at := cj_updated_at j; cj_next_run_at := cj_next_run_at j;
     cj_last_run_at := cj_last_run_at j; cj_last_status := cj_last_status j;
     cj_last_error := cj_last_error j; cj_run_count := cj_run_count j;
     cj_retry_count := cj_retry_count j; cj_max_retries := cj_max_retries j;
     cj_queue_enabled := cj_queue_enabled j |}.

Definition set_cj_name : string → CronJob → CronJob := ltac:(mk_setter CronJob_eta cj_name).
Definition set_cj_enabled : bool → CronJob → CronJob := ltac:(mk_setter CronJob_eta cj_enabled).
Definition set_cj_schedule : CronSchedule → CronJob → CronJob :=
  ltac:(mk_setter CronJob_eta cj_schedule).
Definition set_cj_message : string → CronJob → CronJob :=
  ltac:(mk_setter CronJob_eta cj_message).
Definition set_cj_execution_mode : ExecutionMode → CronJob → CronJob :=
  ltac:(mk_setter CronJob_eta cj_execution_mode).
Definition set_cj_agent_config : option CronAgentConfig → CronJob → CronJob :=
  ltac:(mk_setter CronJob_eta cj_agent_config).
Definition set_cj_conversation_id : string → CronJob → CronJob :=
  ltac:(mk_setter CronJob_eta cj_conversation_id).
Definition set_cj_conversation_title : option string → CronJob → CronJob :=
  ltac:(mk_setter CronJob_eta cj_conversation_title).
Definition set_cj_agent_type : string → CronJob → CronJob :=
  ltac:(mk_setter CronJob_eta cj_agent_type).
Definition set_cj_description : option string → CronJob → CronJob :=
  ltac:(mk_setter CronJob_eta cj_description).
Definition set_cj_updated_at : Z → CronJob → CronJob :=
  ltac:(mk_setter CronJob_eta cj_updated_at).
Definition set_cj_next_run_at : option Z → CronJob → CronJob :=
  ltac:(mk_setter CronJob_eta cj_next_run_at).
Definition set_cj_max_retries : Z → CronJob → CronJob :=
  ltac:(mk_setter CronJob_eta cj_max_retries).
Definition set_cj_queue_enabled : bool → CronJob → CronJob :=
  ltac:(mk_setter CronJob_eta cj_queue_enabled).

(** ** Facts *)

Lemma execution_mode_round_trip m : execution_mode_from_str (execution_mode_as_str m) = Ok m.
Proof. by destruct m. Qed.

Lemma created_by_round_trip c : created_by_from_str (created_by_as_str c) = Ok c.
Proof. by destruct c. Qed.

Lemma job_status_round_trip st : job_status_from_str (job_status_as_str st) = Ok st.
Proof. by destruct st. Qed.

Lemma schedule_dto_round_trip sch : schedule_from_dto (schedule_to_dto sch) = sch.
Proof. by destruct sch. Qed.

(** The numbers of a schedule are values of [i64]. *)
Definition schedule_in_range (sch : CronSchedule) : Prop :=
  match sch with
  | At ms _ | Every ms _ => in_i64 ms = true
  | Cron _ _ _ => True
  end.

Lemma parse_schedule_row_fields sch kind value tz description :
  schedule_in_range sch →
  schedule_to_row_fields sch = (kind, value, tz, description) →
  parse_schedule kind value tz description = Ok sch.
Proof.
  destruct sch as [ms d|ms d|e z d]; cbn [schedule_in_range schedule_to_row_fields];
    intros Hr [= <- <- <- <-]; unfold parse_schedule; cbn;
    [by rewrite parse_i64_pretty|by rewrite parse_i64_pretty|done].
Qed.

Lemma opt_transpose_fmap {A B E} (f : A → B) (g : B → result A E) o :
  (∀ a, g (f a) = Ok a) → opt_transpose g (f <$> o) = Ok o.
Proof. intros Hgf. destruct o as [a|]; [|done]. cbn. by rewrite Hgf. Qed.

Lemma cron_job_from_to_row `{CronJson} job :
  schedule_in_range job.(cj_schedule) →
  cron_job_from_row (cron_job_to_row job) = Ok (set_cj_agent_type EmptyString job).
Proof.
  intros Hr. unfold cron_job_to_row.
  destruct (schedule_to_row_fields (cj_schedule job)) as [[[kind value] tz] desc] eqn:Hf.
  unfold cron_job_from_row. cbn [jr_schedule_kind jr_schedule_value jr_schedule_tz
    jr_schedule_description jr_execution_mode jr_created_by jr_agent_config jr_last_status].
  rewrite (parse_schedule_row_fields _ _ _ _ _ Hr Hf), execution_mode_round_trip,
    created_by_round_trip. cbn [result_bind].
  rewrite opt_transpose_fmap by (intros c; by rewrite config_of_to_json). cbn [result_bind].
  rewrite opt_transpose_fmap by apply job_status_round_trip. by destruct job.
Qed.

(** ** A stand-in for the JSON, for the concrete instances: the fields, each as a string *)

Definition show_opt (o : option string) : string :=
  match o with None => EmptyString | Some s => String "s" s end.

Definition read_opt (s : string) : option string :=
  match s with EmptyString => None | String _ s => Some s end.

Definition show_flag (o : option bool) : string :=
  match o with None => EmptyString | Some true => "true" | Some false => "false" end.

Definition read_flag (s : string) : option bool :=
  if bool_decide (s = "true") then Some true
  else if bool_decide (s = "false") then Some false else None.

Fixpoint flatten (l : list (string * string)) : list string :=
  match l with [] => [] | (k, v) :: l => k :: v :: flatten l end.

Fixpoint unflatten (l : list string) : list (string * string) :=
  match l with k :: v :: l => (k, v) :: unflatten l | _ => [] end.

Definition config_fields (c : CronAgentConfig) : list string :=
  [c.(ac_name); show_opt c.(ac_cli_path); show_flag c.(ac_is_preset); show_opt c.(ac_assistant_id);
   show_opt c.(ac_custom_agent_id); show_opt c.(ac_mode); show_opt c.(ac_model_id);
   show_opt c.(ac_workspace); show_opt (pm_provider_id <$> c.(ac_model));
   default EmptyString (pm_model <$> c.(ac_model)); show_opt (c.(ac_model) ≫= pm_use_model)] ++
  match c.(ac_config_options) with None => [] | Some m => "" :: flatten (map_to_list m) end.

Definition config_of_fields (l : list string) : option CronAgentConfig :=
  match l with
  | name :: cli :: preset :: assistant :: custom :: mode :: model_id :: workspace ::
      provider :: model :: use_model :: options =>
      Some (MkCronAgentConfig name (read_opt cli) (read_flag preset) (read_opt assistant)
              (read_opt custom) (read_opt mode) (read_opt model_id)
              (p ← read_opt provider; Some (MkProviderWithModel p model (read_opt use_model)))
              (match options with [] => None | _ :: l => Some (list_to_map (unflatten l)) end)
              (read_opt workspace))
  | _ => None
  end.

Lemma unflatten_flatten l : unflatten (flatten l) = l.
Proof. induction l as [|[k v] l IH]; [done|]. cbn. by rewrite IH. Qed.

Lemma read_show_opt o : read_opt (show_opt o) = o.
Proof. by destruct o. Qed.

Lemma read_show_flag o : read_flag (show_flag o) = o.
Proof. by destruct o as [[]|]. Qed.

Lemma config_of_config_fields c : config_of_fields (config_fields c) = Some c.
Proof.
  destruct c as [name cli preset a cu mode mi model options ws]. unfold config_fields.
  cbn [app config_of_fields ac_name ac_cli_path ac_is_preset ac_assistant_id ac_custom_agent_id
    ac_mode ac_model_id ac_model ac_config_options ac_workspace].
  rewrite !read_show_opt, read_show_flag. f_equal. f_equal.
  - by destruct model as [[]|].
  - destruct options as [m|]; [|done].
    change (Some (list_to_map (unflatten (flatten (map_to_list m)))) = Some m).
    by rewrite unflatten_flatten, list_to_map_to_list.
Qed.

Definition plain_cron_json : CronJson.
Proof.
  refine {| config_to_json c := foldr (λ s t, quote s +:+ t) EmptyString (config_fields c);
            config_of_json s := ok_or (unquote s ≫= config_of_fields) "invalid JSON" |}.
  intros c.
  assert (∀ l, unquote (foldr (λ s t, quote s +:+ t) EmptyString l) = Some l) as ->.
  { intros l. induction l as [|s l IH]; [done|]. by apply unquote_quote. }
  change (Some (config_fields c) ≫= config_of_fields) with (config_of_fields (config_fields c)).
  by rewrite config_of_config_fields.
Defined.
