(* ===== verification/CronTimer.v ===== *)
(** * Scheduled jobs: next runs and timers

    Models [crates/aionui-cron/src/scheduler.rs]: the validation of a schedule, the instant
    of its next run, and [CronScheduler], which keeps one tokio task per job.

    A task is modelled by what it waits for: [tm_tick] is the occurrence the next call of
    the callback announces, [tm_run_at] the instant from which it is due.  [fire] is the
    call of the callback.  The crates [cron], [chrono] and [chrono-tz] are dependencies:
    [CronLib] states what the code relies on.  Arithmetic that the code does not check
    wraps around, as in a release build. *)
From Stdlib Require Import Ascii.
From S2P Require Import Prelude Text Storage CronTypes.

(** [cron::Schedule], [chrono_tz::Tz] and [chrono::DateTime]: an instant becomes a date if
    it is in the range of dates, and the dates a schedule gives after a date are after it. *)
Class CronLib := {
  Schedule : Type;
  Tz : Type;
  DateTime : Type;
  schedule_from_str : string → result Schedule string;
  Utc : Tz;
  tz_from_str : string → option Tz;
  timestamp_millis_opt : Tz → Z → option DateTime;
  timestamp_millis : DateTime → Z;
  next_after : Schedule → DateTime → option DateTime;
  timestamp_millis_of_opt tz t dt :
    timestamp_millis_opt tz t = Some dt → timestamp_millis dt = t;
  next_after_later sch dt dt' :
    next_after sch dt = Some dt' → (timestamp_millis dt < timestamp_millis dt')%Z;
}.

(** A stand-in for the concrete instances: every schedule of six fields is that of the full
    minutes. *)
Definition every_minute : CronLib.
Proof.
  refine {| Schedule := unit; Tz := string; DateTime := Z;
            schedule_from_str s := if count_words 0 false s =? 6 then Ok tt
                                   else Err "Invalid expression";
            Utc := "UTC"; tz_from_str := non_empty;
            timestamp_millis_opt _ t := Some t; timestamp_millis t := t;
            next_after _ t := Some ((t / 60000 + 1) * 60000)%Z |}.
  - by intros _ t dt [= ->].
  - intros _ dt dt' [= <-].
    pose proof (Z.mod_pos_bound dt 60000 eq_refl). pose proof (Z.div_mod dt 60000 ltac:(done)). lia.
Defined.

Definition wrap_i64 (z : Z) : Z := ((z + 2 ^ 63) mod 2 ^ 64 - 2 ^ 63)%Z.

Section scheduler.
Context `{CronLib}.

(** ** Validation *)

Definition normalize_cron_expr (expr : string) : string :=
  let trimmed := utrim expr in
  if count_words 0 false trimmed =? 5 then "0 " +:+ trimmed else trimmed.

Definition validate_cron_expression (expr : string) : result Schedule CronError :=
  match schedule_from_str (normalize_cron_expr expr) with
  | Ok s => Ok s
  | Err e => Err (InvalidCronExpression (expr +:+ ": " +:+ e))
  end.

Definition validate_timezone (tz : string) : result Tz CronError :=
  ok_or (tz_from_str tz) (InvalidTimezone tz).

Definition validate_schedule (schedule : CronSchedule) : result unit CronError :=
  match schedule with
  | At _ _ => Ok tt
  | Every every_ms _ =>
      if (every_ms <=? 0)%Z then Err (InvalidSchedule "every_ms must be positive") else Ok tt
  | Cron expr tz _ =>
      if is_blank expr then Ok tt else
      _ ←? validate_cron_expression expr;
      match tz with
      | Some tz_str => _ ←? validate_timezone tz_str; Ok tt
      | None => Ok tt
      end
  end.

(** ** Next runs *)

Definition compute_cron_next_run (expr : string) (tz : option string) (now : Z) : option Z :=
  match schedule_from_str (normalize_cron_expr expr) with
  | Err _ => None
  | Ok schedule =>
      tz_parsed ← (match tz with Some tz_str => tz_from_str tz_str | None => Some Utc end);
      now_dt ← timestamp_millis_opt tz_parsed now;
      next ← next_after schedule now_dt;
      Some (timestamp_millis next)
  end.

Definition compute_next_run (schedule : CronSchedule) (now : Z) : option Z :=
  match schedule with
  | At at_ms _ => Some at_ms
  | Every every_ms _ =>
      if (every_ms <=? 0)%Z then None else Some (wrap_i64 (now + every_ms))
  | Cron expr tz _ => compute_cron_next_run expr tz now
  end.

Definition compute_next_run_after_occurrence (schedule : CronSchedule) (scheduled_at now : Z) :
    option Z :=
  match schedule with
  | At _ _ => None
  | Every every_ms _ =>
      if (every_ms <=? 0)%Z then None else
      let elapsed := saturating_sub_i64 now scheduled_at in
      let steps := wrap_i64 (elapsed / every_ms + 1) in
      offset ← checked_mul_i64 steps every_ms;
      checked_add_i64 scheduled_at offset
  | Cron expr tz _ => compute_cron_next_run expr tz (Z.max now scheduled_at)
  end.

(** ** Timers *)

Inductive TimerKind :=
  | OnceTimer
  (** [started] after the first tick, from which on the ticks are those of
      [tokio::time::interval] *)
  | EveryTimer (every_ms : Z) (started : bool)
  | CronTimer (expr : string) (tz : option string).

Record Timer := MkTimer {
  tm_kind : TimerKind;
  tm_tick : Z;
  tm_run_at : Z;
}.

(** [spawn_at_timer], [spawn_occurrence_timer], [spawn_every_timer], [spawn_cron_timer] *)
Definition spawn_occurrence_timer (scheduled_at run_at : Z) : Timer :=
  {| tm_kind := OnceTimer; tm_tick := scheduled_at; tm_run_at := run_at |}.
Definition spawn_at_timer (run_at : Z) : Timer := spawn_occurrence_timer run_at run_at.
Definition spawn_every_timer (first_run_at every_ms : Z) : Timer :=
  {| tm_kind := EveryTimer every_ms false; tm_tick := first_run_at; tm_run_at := first_run_at |}.
Definition spawn_cron_timer (first_run_at : Z) (expr : string) (tz : option string) : Timer :=
  {| tm_kind := CronTimer expr tz; tm_tick := first_run_at; tm_run_at := first_run_at |}.

(** What a task waits for once it has called the callback at [now]; [None] when it ends.
    [tokio::time::interval] panics on a period of zero; the deadlines it misses are not
    skipped. *)
Definition timer_next (t : Timer) (now : Z) : option Timer :=
  match t.(tm_kind) with
  | OnceTimer => None
  | EveryTimer every_ms started =>
      if (every_ms =? 0)%Z then None else
      let period := (every_ms mod 2 ^ 64)%Z in
      Some {| tm_kind := EveryTimer every_ms true;
              tm_tick := wrap_i64 (t.(tm_tick) + every_ms);
              tm_run_at := (if started then t.(tm_run_at) else now) + period |}
  | CronTimer expr tz =>
      next_at ← compute_cron_next_run expr tz now;
      Some {| tm_kind := CronTimer expr tz; tm_tick := next_at; tm_run_at := next_at |}
  end.

(** [handles]: a task that has ended keeps its entry, here [None]. *)
Notation CronScheduler := (gmap string (option Timer)).

Definition cancel_job (job_id : string) (handles : CronScheduler) : CronScheduler :=
  delete job_id handles.

Definition schedule_job (job : CronJob) (handles : CronScheduler) : CronScheduler :=
  let handles := cancel_job job.(cj_id) handles in
  if negb job.(cj_enabled) then handles else
  match job.(cj_next_run_at) with
  | None => handles
  | Some next_run_at =>
      let handle :=
        match job.(cj_schedule) with
        | At _ _ => spawn_at_timer next_run_at
        | Every every_ms _ => spawn_every_timer next_run_at every_ms
        | Cron expr tz _ => spawn_cron_timer next_run_at expr tz
        end in
      <[job.(cj_id) := Some handle]> handles
  end.

Definition reschedule_job (job : CronJob) (handles : CronScheduler) : CronScheduler :=
  schedule_job job handles.

Definition schedule_retry (job_id : string) (scheduled_at retry_at : Z)
    (handles : CronScheduler) : CronScheduler :=
  <[job_id := Some (spawn_occurrence_timer scheduled_at retry_at)]> (cancel_job job_id handles).

Definition cancel_all_timers (handles : CronScheduler) : CronScheduler := ∅.

Definition active_count (handles : CronScheduler) : nat := size handles.

Definition is_scheduled (job_id : string) (handles : CronScheduler) : bool :=
  bool_decide (is_Some (handles !! job_id)).

(** A due task calls the callback: the occurrence it announces, and the tasks after it. *)
Definition fire (job_id : string) (now : Z) (handles : CronScheduler) :
    option (Z * CronScheduler) :=
  match handles !! job_id with
  | Some (Some t) =>
      if (t.(tm_run_at) <=? now)%Z
      then Some (t.(tm_tick), <[job_id := timer_next t now]> handles)
      else None
  | _ => None
  end.

(** ** Facts *)

Lemma wrap_i64_id z : in_i64 z = true → wrap_i64 z = z.
Proof.
  intros Hz%in_i64_spec. unfold wrap_i64, i64_min, i64_max in *. rewrite Z.mod_small; lia.
Qed.

Lemma compute_cron_next_run_later expr tz now next :
  compute_cron_next_run expr tz now = Some next → (now < next)%Z.
Proof.
  unfold compute_cron_next_run. destruct (schedule_from_str _) as [sch|]; [|done].
  destruct (match tz with Some _ => _ | None => _ end) as [z|]; [|done]. cbn.
  destruct (timestamp_millis_opt z now) as [dt|] eqn:Hdt; [|done]. cbn.
  destruct (next_after sch dt) as [dt'|] eqn:Hnext; [|done]. cbn. intros [= <-].
  apply next_after_later in Hnext. by rewrite (timestamp_millis_of_opt _ _ _ Hdt) in Hnext.
Qed.

Lemma schedule_job_lookup job handles id :
  schedule_job job handles !! id =
    if decide (id = job.(cj_id)) then
      (if job.(cj_enabled) then
         (λ n, Some (match job.(cj_schedule) with
                     | At _ _ => spawn_at_timer n
                     | Every every_ms _ => spawn_every_timer n every_ms
                     | Cron expr tz _ => spawn_cron_timer n expr tz
                     end)) <$> job.(cj_next_run_at)
       else None)
    else handles !! id.
Proof.
  unfold schedule_job, cancel_job. case_decide as Hid; [subst id|].
  - destruct (cj_enabled job); cbn [negb]; [|by simplify_map_eq].
    destruct (cj_next_run_at job); by simplify_map_eq.
  - destruct (cj_enabled job); cbn [negb]; [|by simplify_map_eq].
    destruct (cj_next_run_at job); by simplify_map_eq.
Qed.

Lemma schedule_retry_lookup id scheduled_at retry_at handles id' :
  schedule_retry id scheduled_at retry_at handles !! id' =
    if decide (id' = id) then Some (Some (spawn_occurrence_timer scheduled_at retry_at))
    else handles !! id'.
Proof.
  unfold schedule_retry, cancel_job. case_decide; [subst; by simplify_map_eq|].
  by rewrite lookup_insert_ne, lookup_delete_ne.
Qed.
End scheduler.

Notation CronScheduler := (gmap string (option Timer)).
