(* ===== verification/CronRuns.v ===== *)
(** * Scheduled jobs: the tables

    Models [crates/aionui-db/src/repository/cron.rs] and [sqlite_cron.rs] over the tables of
    [migrations/013_agent_connection_snapshot.sql] and [022_cron_execution_dedup.sql]:
    [cron_jobs], one row per job, and [cron_job_runs], one row per occurrence of a job,
    which is how several processes agree on who runs it.

    The rows of [cron_job_runs] are kept by job and occurrence, on which the table has a
    [UNIQUE] constraint; their ids are fresh UUIDs.  Deleting a job deletes its runs
    ([ON DELETE CASCADE]).  Each method is one statement or one transaction, hence one
    step; an error is the violation of a constraint. *)
From S2P Require Import Prelude Text Storage CronTypes.

Record CronRunRow := MkCronRunRow {
  rr_id : string;
  rr_status : string;
  rr_owner_id : option string;
  rr_lease_until : option Z;
  rr_conversation_id : option string;
  rr_error : option string;
  rr_started_at : option Z;
  rr_finished_at : option Z;
  rr_created_at : Z;
  rr_updated_at : Z;
}.

Record CronDb := MkCronDb {
  cd_jobs : gmap string CronJobRow;
  cd_runs : gmap (string * Z) CronRunRow;
}.

Definition set_cd_jobs m d := MkCronDb m d.(cd_runs).
Definition set_cd_runs m d := MkCronDb d.(cd_jobs) m.

Inductive CronRunClaimResult := Claimed | Duplicate | QueueBusy.

#[global] Instance CronRunClaimResult_eq_dec : EqDecision CronRunClaimResult.
Proof. solve_decision. Defined.

Record ClaimCronRunParams := MkClaimCronRunParams {
  cl_job_id : string;
  cl_scheduled_at : Z;
  cl_owner_id : string;
  cl_now : Z;
  cl_lease_until : Z;
  cl_queue_enabled : bool;
}.

Record FinishCronRunParams := MkFinishCronRunParams {
  fp_job_id : string;
  fp_scheduled_at : Z;
  fp_owner_id : string;
  fp_status : string;
  fp_conversation_id : option string;
  fp_error : option string;
  fp_finished_at : Z;
}.

Record RecoverableCronRun := MkRecoverableCronRun {
  rc_scheduled_at : Z;
  rc_wake_at : Z;
}.

(** An absent field keeps the current value. *)
Record UpdateCronJobParams := MkUpdateCronJobParams {
  up_name : option string;
  up_enabled : option bool;
  up_schedule_kind : option string;
  up_schedule_value : option string;
  up_schedule_tz : option (option string);
  up_schedule_description : option (option string);
  up_payload_message : option string;
  up_execution_mode : option string;
  up_agent_config : option (option string);
  up_conversation_id : option string;
  up_conversation_title : option (option string);
  up_skill_content : option (option string);
  up_description : option (option string);
  up_next_run_at : option (option Z);
  up_last_run_at : option (option Z);
  up_last_status : option (option string);
  up_last_error : option (option string);
  up_run_count : option Z;
  up_retry_count : option Z;
  up_queue_enabled : option bool;
}.

(** [UpdateCronJobParams::default()] *)
Definition no_changes : UpdateCronJobParams :=
  MkUpdateCronJobParams None None None None None None None None None None None None None None
    None None None None None None.

(** Setters *)
Definition UpdateParams_eta (p : UpdateCronJobParams) : UpdateCronJobParams :=
  {| up_name := up_name p; up_enabled := up_enabled p; up_schedule_kind := up_schedule_kind p;
     up_schedule_value := up_schedule_value p; up_schedule_tz := up_schedule_tz p;
     up_schedule_description := up_schedule_description p;
     up_payload_message := up_payload_message p; up_execution_mode := up_execution_mode p;
     up_agent_config := up_agent_config p; up_conversation_id := up_conversation_id p;
     up_conversation_title := up_conversation_title p; up_skill_content := up_skill_content p;
     up_description := up_description p; up_next_run_at := up_next_run_at p;
     up_last_run_at := up_last_run_at p; up_last_status := up_last_status p;
     up_last_error := up_last_error p; up_run_count := up_run_count p;
     up_retry_count := up_retry_count p; up_queue_enabled := up_queue_enabled p |}.

Definition set_up_enabled : option bool → UpdateCronJobParams → UpdateCronJobParams :=
  ltac:(mk_setter UpdateParams_eta up_enabled).
Definition set_up_agent_config : option (option string) → UpdateCronJobParams → UpdateCronJobParams :=
  ltac:(mk_setter UpdateParams_eta up_agent_config).
Definition set_up_conversation_id : option string → UpdateCronJobParams → UpdateCronJobParams :=
  ltac:(mk_setter UpdateParams_eta up_conversation_id).
Definition set_up_conversation_title : option (option string) → UpdateCronJobParams → UpdateCronJobParams :=
  ltac:(mk_setter UpdateParams_eta up_conversation_title).
Definition set_up_skill_content : option (option string) → UpdateCronJobParams → UpdateCronJobParams :=
  ltac:(mk_setter UpdateParams_eta up_skill_content).
Definition set_up_next_run_at : option (option Z) → UpdateCronJobParams → UpdateCronJobParams :=
  ltac:(mk_setter UpdateParams_eta up_next_run_at).
Definition set_up_last_run_at : option (option Z) → UpdateCronJobParams → UpdateCronJobParams :=
  ltac:(mk_setter UpdateParams_eta up_last_run_at).
Definition set_up_last_status : option (option string) → UpdateCronJobParams → UpdateCronJobParams :=
  ltac:(mk_setter UpdateParams_eta up_last_status).
Definition set_up_last_error : option (option string) → UpdateCronJobParams → UpdateCronJobParams :=
  ltac:(mk_setter UpdateParams_eta up_last_error).
Definition set_up_run_count : option Z → UpdateCronJobParams → UpdateCronJobParams :=
  ltac:(mk_setter UpdateParams_eta up_run_count).
Definition set_up_retry_count : option Z → UpdateCronJobParams → UpdateCronJobParams :=
  ltac:(mk_setter UpdateParams_eta up_retry_count).

(** ** [cron_jobs] *)

(** The [CHECK] constraints *)
Definition job_row_ok (row : CronJobRow) : bool :=
  bool_decide (row.(jr_schedule_kind) ∈ ["at"; "every"; "cron"]) &&
  bool_decide (row.(jr_execution_mode) ∈ ["existing"; "new_conversation"]) &&
  bool_decide (row.(jr_created_by) ∈ ["user"; "agent"]) &&
  match row.(jr_last_status) with
  | None => true
  | Some s => bool_decide (s ∈ ["ok"; "error"; "skipped"; "missed"])
  end.

Definition insert_job (row : CronJobRow) : action CronDb DbError unit := λ d,
  match d.(cd_jobs) !! row.(jr_id) with
  | Some _ => (Err Query, d)
  | None =>
      if job_row_ok row
      then (Ok tt, set_cd_jobs (<[row.(jr_id) := row]> d.(cd_jobs)) d)
      else (Err Query, d)
  end.

(** The row once the statement has run: [SET] lists the columns the parameters have, and
    [updated_at]. *)
Definition apply_params (p : UpdateCronJobParams) (now : Z) (row : CronJobRow) : CronJobRow :=
  {| jr_id := row.(jr_id);
     jr_name := default row.(jr_name) p.(up_name);
     jr_enabled := default row.(jr_enabled) p.(up_enabled);
     jr_schedule_kind := default row.(jr_schedule_kind) p.(up_schedule_kind);
     jr_schedule_value := default row.(jr_schedule_value) p.(up_schedule_value);
     jr_schedule_tz := default row.(jr_schedule_tz) p.(up_schedule_tz);
     jr_schedule_description := default row.(jr_schedule_description) p.(up_schedule_description);
     jr_payload_message := default row.(jr_payload_message) p.(up_payload_message);
     jr_execution_mode := default row.(jr_execution_mode) p.(up_execution_mode);
     jr_agent_config := default row.(jr_agent_config) p.(up_agent_config);
     jr_conversation_id := default row.(jr_conversation_id) p.(up_conversation_id);
     jr_conversation_title := default row.(jr_conversation_title) p.(up_conversation_title);
     jr_created_by := row.(jr_created_by);
     jr_skill_content := default row.(jr_skill_content) p.(up_skill_content);
     jr_description := default row.(jr_description) p.(up_description);
     jr_created_at := row.(jr_created_at);
     jr_updated_at := now;
     jr_next_run_at := default row.(jr_next_run_at) p.(up_next_run_at);
     jr_last_run_at := default row.(jr_last_run_at) p.(up_last_run_at);
     jr_last_status := default row.(jr_last_status) p.(up_last_status);
     jr_last_error := default row.(jr_last_error) p.(up_last_error);
     jr_run_count := default row.(jr_run_count) p.(up_run_count);
     jr_retry_count := default row.(jr_retry_count) p.(up_retry_count);
     jr_max_retries := row.(jr_max_retries);
     jr_queue_enabled := default row.(jr_queue_enabled) p.(up_queue_enabled) |}.

(** [set_parts.is_empty()] *)
Definition is_no_changes (p : UpdateCronJobParams) : bool :=
  match p with
  | MkUpdateCronJobParams None None None None None None None None None None None None None None
      None None None None None None => true
  | _ => false
  end.

Definition cron_job_not_found (id : string) : DbError := NotFound ("cron job '" +:+ id +:+ "'").

Definition update_cron_row (id : string) (p : UpdateCronJobParams) (now : Z) :
    action CronDb DbError unit := λ d,
  if is_no_changes p then (Ok tt, d) else
  match d.(cd_jobs) !! id with
  | None => (Err (cron_job_not_found id), d)
  | Some row =>
      let row := apply_params p now row in
      if job_row_ok row then (Ok tt, set_cd_jobs (<[id := row]> d.(cd_jobs)) d) else (Err Query, d)
  end.

Definition delete_cron_row (id : string) : action CronDb DbError unit := λ d,
  match d.(cd_jobs) !! id with
  | None => (Err (cron_job_not_found id), d)
  | Some _ =>
      (Ok tt, {| cd_jobs := delete id d.(cd_jobs);
                 cd_runs := filter (λ e, e.1.1 ≠ id) d.(cd_runs) |})
  end.

Definition get_by_id (id : string) (d : CronDb) : option CronJobRow := d.(cd_jobs) !! id.

Section repository.
Context `{SqlOrder}.

Definition job_rows (d : CronDb) : list CronJobRow := (map_to_list d.(cd_jobs)).*2.

Definition list_all (d : CronDb) : list CronJobRow := order_by jr_created_at (job_rows d).

Definition list_enabled (d : CronDb) : list CronJobRow :=
  order_by jr_created_at (filter (λ r, r.(jr_enabled) = true) (job_rows d)).

Definition list_by_conversation (conversation_id : string) (d : CronDb) : list CronJobRow :=
  order_by jr_created_at (filter (λ r, r.(jr_conversation_id) = conversation_id) (job_rows d)).

Definition delete_by_conversation (conversation_id : string) (d : CronDb) : nat * CronDb :=
  let gone := filter (λ e, e.2.(jr_conversation_id) = conversation_id) d.(cd_jobs) in
  (size gone,
   {| cd_jobs := filter (λ e, e.2.(jr_conversation_id) ≠ conversation_id) d.(cd_jobs);
      cd_runs := filter (λ e, gone !! e.1.1 = None) d.(cd_runs) |}).

(** ** [cron_job_runs] *)

(** [status IN ('running', 'retrying')] *)
Definition unfinished (r : CronRunRow) : bool :=
  bool_decide (r.(rr_status) ∈ ["running"; "retrying"]).

(** [status IN ('ok', 'error', 'skipped')] *)
Definition terminal (r : CronRunRow) : bool :=
  bool_decide (r.(rr_status) ∈ ["ok"; "error"; "skipped"]).

(** The [CHECK] constraint *)
Definition run_status_ok (s : string) : bool :=
  bool_decide (s ∈ ["running"; "retrying"; "ok"; "error"; "skipped"]).

(** [lease_until > now]; comparing with [NULL] is not true. *)
Definition lease_after (now : Z) (r : CronRunRow) : bool :=
  match r.(rr_lease_until) with Some l => (now <? l)%Z | None => false end.
Definition lease_over (now : Z) (r : CronRunRow) : bool :=
  match r.(rr_lease_until) with Some l => (l <=? now)%Z | None => false end.

(** [EXISTS(SELECT 1 FROM cron_job_runs WHERE job_id = ? AND status IN ('running',
    'retrying') AND lease_until > ?)] *)
Definition has_active_run (job_id : string) (now : Z) (d : CronDb) : bool :=
  existsb (λ e, bool_decide (e.1.1 = job_id) && unfinished e.2 && lease_after now e.2)
    (map_to_list d.(cd_runs)).

(** [INSERT INTO cron_job_runs]: the job must exist. *)
Definition insert_run (job_id : string) (scheduled_at : Z) (row : CronRunRow) :
    action CronDb DbError unit := λ d,
  match d.(cd_jobs) !! job_id with
  | None => (Err Query, d)
  | Some _ => (Ok tt, set_cd_runs (<[(job_id, scheduled_at) := row]> d.(cd_runs)) d)
  end.

Definition claim_run (run_id : string) (p : ClaimCronRunParams) :
    action CronDb DbError CronRunClaimResult := λ d,
  let key := (p.(cl_job_id), p.(cl_scheduled_at)) in
  match d.(cd_runs) !! key with
  | Some run =>
      if unfinished run && lease_over p.(cl_now) run then
        let run' :=
          {| rr_id := run.(rr_id);
             rr_status := "running";
             rr_owner_id := Some p.(cl_owner_id);
             rr_lease_until := Some p.(cl_lease_until);
             rr_conversation_id := run.(rr_conversation_id);
             rr_error := None;
             rr_started_at := opt_or run.(rr_started_at) (Some p.(cl_now));
             rr_finished_at := None;
             rr_created_at := run.(rr_created_at);
             rr_updated_at := p.(cl_now) |} in
        (Ok Claimed, set_cd_runs (<[key := run']> d.(cd_runs)) d)
      else (Ok Duplicate, d)
  | None =>
      if p.(cl_queue_enabled) && has_active_run p.(cl_job_id) p.(cl_now) d then
        let row :=
          {| rr_id := run_id;
             rr_status := "skipped";
             rr_owner_id := None;
             rr_lease_until := None;
             rr_conversation_id := None;
             rr_error := None;
             rr_started_at := None;
             rr_finished_at := Some p.(cl_now);
             rr_created_at := p.(cl_now);
             rr_updated_at := p.(cl_now) |} in
        (_ ←! insert_run p.(cl_job_id) p.(cl_scheduled_at) row; act_ret QueueBusy) d
      else
        let row :=
          {| rr_id := run_id;
             rr_status := "running";
             rr_owner_id := Some p.(cl_owner_id);
             rr_lease_until := Some p.(cl_lease_until);
             rr_conversation_id := None;
             rr_error := None;
             rr_started_at := Some p.(cl_now);
             rr_finished_at := None;
             rr_created_at := p.(cl_now);
             rr_updated_at := p.(cl_now) |} in
        (_ ←! insert_run p.(cl_job_id) p.(cl_scheduled_at) row; act_ret Claimed) d
  end.

(** [WHERE job_id = ? AND scheduled_at = ? AND status = 'running' AND owner_id = ?]: at most
    one row; whether there was one *)
Definition update_owned_run (job_id : string) (scheduled_at : Z) (owner_id : string)
    (f : CronRunRow → CronRunRow) (d : CronDb) : bool * CronDb :=
  match d.(cd_runs) !! (job_id, scheduled_at) with
  | Some run =>
      if bool_decide (run.(rr_status) = "running") &&
         bool_decide (run.(rr_owner_id) = Some owner_id)
      then (true, set_cd_runs (<[(job_id, scheduled_at) := f run]> d.(cd_runs)) d)
      else (false, d)
  | None => (false, d)
  end.

Definition renew_run_lease (job_id : string) (scheduled_at : Z) (owner_id : string)
    (lease_until updated_at : Z) (d : CronDb) : bool * CronDb :=
  update_owned_run job_id scheduled_at owner_id (λ run,
    {| rr_id := run.(rr_id);
       rr_status := run.(rr_status);
       rr_owner_id := run.(rr_owner_id);
       rr_lease_until := Some lease_until;
       rr_conversation_id := run.(rr_conversation_id);
       rr_error := run.(rr_error);
       rr_started_at := run.(rr_started_at);
       rr_finished_at := run.(rr_finished_at);
       rr_created_at := run.(rr_created_at);
       rr_updated_at := updated_at |}) d.

Definition defer_run (job_id : string) (scheduled_at : Z) (owner_id : string)
    (retry_at updated_at : Z) (d : CronDb) : bool * CronDb :=
  update_owned_run job_id scheduled_at owner_id (λ run,
    {| rr_id := run.(rr_id);
       rr_status := "retrying";
       rr_owner_id := None;
       rr_lease_until := Some retry_at;
       rr_conversation_id := run.(rr_conversation_id);
       rr_error := run.(rr_error);
       rr_started_at := run.(rr_started_at);
       rr_finished_at := run.(rr_finished_at);
       rr_created_at := run.(rr_created_at);
       rr_updated_at := updated_at |}) d.

(** The status is checked only when there is a row to write. *)
Definition finish_run (p : FinishCronRunParams) (d : CronDb) : result bool DbError * CronDb :=
  let '(owned, d') := update_owned_run p.(fp_job_id) p.(fp_scheduled_at) p.(fp_owner_id) (λ run,
    {| rr_id := run.(rr_id);
       rr_status := p.(fp_status);
       rr_owner_id := run.(rr_owner_id);
       rr_lease_until := None;
       rr_conversation_id := p.(fp_conversation_id);
       rr_error := p.(fp_error);
       rr_started_at := run.(rr_started_at);
       rr_finished_at := Some p.(fp_finished_at);
       rr_created_at := run.(rr_created_at);
       rr_updated_at := p.(fp_finished_at) |}) d in
  if owned && negb (run_status_ok p.(fp_status)) then (Err Query, d) else (Ok owned, d').

(** [finished_at < cutoff] *)
Definition finished_before (cutoff : Z) (r : CronRunRow) : bool :=
  match r.(rr_finished_at) with Some t => (t <? cutoff)%Z | None => false end.

Definition cleanup_runs_before (cutoff : Z) (d : CronDb) : nat * CronDb :=
  let kept := filter (λ e, terminal e.2 && finished_before cutoff e.2 = false) d.(cd_runs) in
  (size d.(cd_runs) - size kept, set_cd_runs kept d).

(** The unfinished runs of a job that have a lease: the occurrence and the lease *)
Definition leased_runs (job_id : string) (d : CronDb) : list (Z * Z) :=
  omap (λ e, if bool_decide (e.1.1 = job_id) && unfinished e.2
             then (λ lease, (e.1.2, lease)) <$> e.2.(rr_lease_until) else None)
    (map_to_list d.(cd_runs)).

Definition get_recoverable_run (job_id : string) (now : Z) (d : CronDb) :
    option RecoverableCronRun :=
  '(scheduled_at, lease) ← head (order_by snd (leased_runs job_id d));
  Some {| rc_scheduled_at := scheduled_at; rc_wake_at := Z.max lease now |}.
End repository.
