(* ===== verification/CronRunsProps.v ===== *)
(** * Scheduled jobs: what holds of the tables

    A database changes by the methods of the repository, in any order and from any number
    of processes ([run_op]).  Unfinished runs have a lease and can be recovered, an
    occurrence that is finished stays finished, and a lease keeps everybody else away. *)
From S2P Require Import Prelude Text Storage CronTypes CronRuns.

(** ** Sequences of operations *)

Inductive CronOp :=
  | OpInsert (row : CronJobRow)
  | OpUpdate (id : string) (p : UpdateCronJobParams) (now : Z)
  | OpDelete (id : string)
  | OpClaim (run_id : string) (p : ClaimCronRunParams)
  | OpRenew (job_id : string) (scheduled_at : Z) (owner_id : string) (lease_until updated_at : Z)
  | OpDefer (job_id : string) (scheduled_at : Z) (owner_id : string) (retry_at updated_at : Z)
  | OpFinish (p : FinishCronRunParams)
  | OpCleanup (cutoff : Z).

Definition run_op (d : CronDb) (op : CronOp) : CronDb :=
  match op with
  | OpInsert row => (insert_job row d).2
  | OpUpdate id p now => (update_cron_row id p now d).2
  | OpDelete id => (delete_cron_row id d).2
  | OpClaim run_id p => (claim_run run_id p d).2
  | OpRenew j s o l u => (renew_run_lease j s o l u d).2
  | OpDefer j s o r u => (defer_run j s o r u d).2
  | OpFinish p => (finish_run p d).2
  | OpCleanup cutoff => (cleanup_runs_before cutoff d).2
  end.

Definition run_ops (ops : list CronOp) (d : CronDb) : CronDb := foldl run_op d ops.

Definition empty_cron_db : CronDb := {| cd_jobs := ∅; cd_runs := ∅ |}.

(** The service finishes runs as "ok", "error" or "skipped". *)
Definition finish_status_ok (op : CronOp) : Prop :=
  match op with OpFinish p => p.(fp_status) ∈ ["ok"; "error"; "skipped"] | _ => True end.

(** ** The effect of the operations on the runs *)

Definition owned_by (owner_id : string) (r : CronRunRow) : Prop :=
  r.(rr_status) = "running" ∧ r.(rr_owner_id) = Some owner_id.

#[global] Instance owned_by_dec o r : Decision (owned_by o r).
Proof. unfold owned_by. apply _. Defined.

Lemma update_owned_run_spec j s o f d :
  update_owned_run j s o f d =
    match d.(cd_runs) !! (j, s) with
    | Some r => if decide (owned_by o r)
                then (true, set_cd_runs (<[(j, s) := f r]> d.(cd_runs)) d) else (false, d)
    | None => (false, d)
    end.
Proof.
  unfold update_owned_run. destruct (cd_runs d !! (j, s)) as [r|]; [|done].
  case_decide as Ho.
  - destruct Ho as [-> ->]. by rewrite !bool_decide_true.
  - case_bool_decide; [|done]. rewrite bool_decide_false; [done|]. intros Hr. by apply Ho.
Qed.

Lemma update_owned_run_lookup j s o f d k r :
  (update_owned_run j s o f d).2.(cd_runs) !! k = Some r →
  d.(cd_runs) !! k = Some r ∨
  (k = (j, s) ∧ ∃ r0, d.(cd_runs) !! k = Some r0 ∧ owned_by o r0 ∧ r = f r0).
Proof.
  rewrite update_owned_run_spec. destruct (cd_runs d !! (j, s)) as [r0|] eqn:Hr0; [|by left].
  case_decide as Ho; [|by left]. cbn [snd set_cd_runs cd_runs].
  rewrite lookup_insert_Some. intros [[<- <-]|[Hne Hr]]; [right; eauto|by left].
Qed.

Lemma update_owned_run_jobs j s o f d : (update_owned_run j s o f d).2.(cd_jobs) = d.(cd_jobs).
Proof.
  rewrite update_owned_run_spec. destruct (cd_runs d !! (j, s)); [case_decide|]; done.
Qed.

Lemma update_cron_row_runs id p now d : (update_cron_row id p now d).2.(cd_runs) = d.(cd_runs).
Proof.
  unfold update_cron_row. destruct (is_no_changes p); [done|].
  destruct (cd_jobs d !! id); [|done]. by destruct (job_row_ok _).
Qed.

Lemma insert_job_runs row d : (insert_job row d).2.(cd_runs) = d.(cd_runs).
Proof.
  unfold insert_job. destruct (cd_jobs d !! jr_id row); [done|]. by destruct (job_row_ok row).
Qed.

Lemma delete_cron_row_runs id d k r :
  (delete_cron_row id d).2.(cd_runs) !! k = Some r →
  d.(cd_runs) !! k = Some r ∧ (k.1 ≠ id ∨ d.(cd_jobs) !! id = None).
Proof.
  unfold delete_cron_row. destruct (cd_jobs d !! id) eqn:Hid; [|by auto].
  cbn [snd cd_runs]. rewrite map_lookup_filter_Some. cbn. naive_solver.
Qed.

(** The rows [claim_run] writes *)
Lemma claim_run_lookup run_id p d k r :
  (claim_run run_id p d).2.(cd_runs) !! k = Some r →
  d.(cd_runs) !! k = Some r ∨
  (k = (p.(cl_job_id), p.(cl_scheduled_at)) ∧
   r.(rr_status) = "running" ∧ r.(rr_owner_id) = Some p.(cl_owner_id) ∧
   r.(rr_lease_until) = Some p.(cl_lease_until) ∧
   (d.(cd_runs) !! k = None ∧ is_Some (d.(cd_jobs) !! p.(cl_job_id)) ∨
    ∃ r0, d.(cd_runs) !! k = Some r0 ∧ unfinished r0 ∧ lease_over p.(cl_now) r0)) ∨
  (k = (p.(cl_job_id), p.(cl_scheduled_at)) ∧ d.(cd_runs) !! k = None ∧
   is_Some (d.(cd_jobs) !! p.(cl_job_id)) ∧
   r.(rr_status) = "skipped" ∧ r.(rr_lease_until) = None).
Proof.
  unfold claim_run, insert_run, act_bind.
  destruct (cd_runs d !! _) as [r0|] eqn:Hr0.
  - destruct (unfinished r0 && lease_over (cl_now p) r0) eqn:Hcond; [|by left].
    cbn [snd set_cd_runs cd_runs]. rewrite lookup_insert_Some.
    intros [[<- <-]|[Hne Hr]]; [|by left]. right. left. cbn.
    apply andb_true_iff in Hcond as [??]. repeat split; auto. right. exists r0. auto with bool.
  - destruct (cd_jobs d !! cl_job_id p) eqn:Hj;
      (destruct (cl_queue_enabled p && _); cbn [snd set_cd_runs cd_runs act_ret]);
      try (by left); rewrite lookup_insert_Some;
      (intros [[<- <-]|[Hne Hr]]; [right|by left]); cbn; [right|left]; repeat split; eauto.
Qed.

Lemma claim_run_jobs run_id p d : (claim_run run_id p d).2.(cd_jobs) = d.(cd_jobs).
Proof.
  unfold claim_run, insert_run, act_bind.
  destruct (cd_runs d !! _) as [r0|]; [by destruct (unfinished r0 && _)|].
  destruct (cd_jobs d !! cl_job_id p) eqn:Hj; by destruct (cl_queue_enabled p && _).
Qed.

Lemma cleanup_runs_lookup cutoff d k :
  (cleanup_runs_before cutoff d).2.(cd_runs) !! k =
    r ← d.(cd_runs) !! k; if terminal r && finished_before cutoff r then None else Some r.
Proof.
  cbn. rewrite map_lookup_filter. destruct (cd_runs d !! k) as [r|]; [|done]. cbn.
  case_guard as Hr; cbn; [by rewrite Hr|]. by destruct (terminal r && _).
Qed.

Lemma finish_run_lookup p d k r :
  (finish_run p d).2.(cd_runs) !! k = Some r →
  d.(cd_runs) !! k = Some r ∨
  (k = (p.(fp_job_id), p.(fp_scheduled_at)) ∧
   ∃ r0, d.(cd_runs) !! k = Some r0 ∧ owned_by p.(fp_owner_id) r0 ∧
   r.(rr_status) = p.(fp_status) ∧ r.(rr_lease_until) = None ∧
   r.(rr_finished_at) = Some p.(fp_finished_at)).
Proof.
  unfold finish_run. destruct (update_owned_run _ _ _ _ d) as [b d'] eqn:Hd'.
  destruct (b && _); [by left|]. cbn [snd].
  intros Hr. pose proof (update_owned_run_lookup (fp_job_id p) (fp_scheduled_at p)
    (fp_owner_id p) (λ run, MkCronRunRow (rr_id run) (fp_status p) (rr_owner_id run) None
      (fp_conversation_id p) (fp_error p) (rr_started_at run) (Some (fp_finished_at p))
      (rr_created_at run) (fp_finished_at p)) d k r) as Hl.
  rewrite Hd' in Hl. destruct (Hl Hr) as [?|(-> & r0 & ? & ? & ->)]; [by left|].
  right. split; [done|]. exists r0. by cbn.
Qed.

Lemma finish_run_jobs p d : (finish_run p d).2.(cd_jobs) = d.(cd_jobs).
Proof.
  unfold finish_run. destruct (update_owned_run _ _ _ _ d) as [b d'] eqn:Hd'.
  destruct (b && _); [done|]. cbn [snd]. change d' with (b, d').2. rewrite <- Hd'.
  apply update_owned_run_jobs.
Qed.

(** ** The invariant *)

Definition run_ok (r : CronRunRow) : Prop :=
  (unfinished r ∧ is_Some r.(rr_lease_until) ∧
   (r.(rr_status) = "running" → is_Some r.(rr_owner_id))) ∨
  (terminal r ∧ r.(rr_lease_until) = None).

Definition cron_db_ok (d : CronDb) : Prop :=
  ∀ j s r, d.(cd_runs) !! (j, s) = Some r → is_Some (d.(cd_jobs) !! j) ∧ run_ok r.

Lemma run_ok_running r o l :
  r.(rr_status) = "running" → r.(rr_owner_id) = Some o → r.(rr_lease_until) = Some l → run_ok r.
Proof. intros Hs Ho Hl. left. unfold unfinished. rewrite Hs, Ho, Hl. eauto. Qed.

Lemma run_ok_terminal r :
  r.(rr_status) ∈ ["ok"; "error"; "skipped"] → r.(rr_lease_until) = None → run_ok r.
Proof. intros Hs Hl. right. split; [|done]. unfold terminal. by rewrite bool_decide_true. Qed.

Lemma update_cron_row_jobs id p now d j :
  is_Some (d.(cd_jobs) !! j) → is_Some ((update_cron_row id p now d).2.(cd_jobs) !! j).
Proof.
  unfold update_cron_row. destruct (is_no_changes p); [done|].
  destruct (cd_jobs d !! id); [|done]. destruct (job_row_ok _); [|done]. cbn.
  intros Hj. destruct (decide (j = id)) as [->|]; by simplify_map_eq.
Qed.

Lemma insert_job_jobs row d j :
  is_Some (d.(cd_jobs) !! j) → is_Some ((insert_job row d).2.(cd_jobs) !! j).
Proof.
  unfold insert_job. destruct (cd_jobs d !! jr_id row) eqn:Hrow; [done|].
  destruct (job_row_ok row); [|done]. cbn. intros Hj.
  destruct (decide (j = jr_id row)) as [->|]; by simplify_map_eq.
Qed.

Lemma delete_cron_row_jobs id d j :
  j ≠ id ∨ d.(cd_jobs) !! id = None → is_Some (d.(cd_jobs) !! j) →
  is_Some ((delete_cron_row id d).2.(cd_jobs) !! j).
Proof.
  unfold delete_cron_row. destruct (cd_jobs d !! id) eqn:Hid; [|done]. cbn.
  intros [Hne|?] Hj; [by rewrite lookup_delete_ne|done].
Qed.

Lemma renew_defer_ok j s o f d :
  (∀ r, run_ok r → owned_by o r → run_ok (f r)) →
  cron_db_ok d → cron_db_ok (update_owned_run j s o f d).2.
Proof.
  intros Hf Hd j' s' r Hr. rewrite update_owned_run_jobs.
  apply update_owned_run_lookup in Hr as [Hr|(Hk & r0 & Hr0 & Ho & ->)]; [by eapply Hd|].
  injection Hk as -> ->. destruct (Hd _ _ _ Hr0) as [? ?]. split; [done|by apply Hf].
Qed.

Lemma claim_run_ok run_id p d : cron_db_ok d → cron_db_ok (claim_run run_id p d).2.
Proof.
  intros Hd j s r Hr. rewrite claim_run_jobs.
  apply claim_run_lookup in Hr as
    [Hr|[(Hk & Hs & Ho & Hl & Hj)|(Hk & _ & Hj & Hs & Hl)]]; [by eapply Hd| |];
    injection Hk as -> ->.
  - split; [|by eapply run_ok_running].
    destruct Hj as [[_ ?]|(r0 & Hr0 & _)]; [done|by eapply Hd].
  - split; [done|]. apply run_ok_terminal; [|done]. rewrite Hs. set_solver.
Qed.

Lemma run_op_ok d op : finish_status_ok op → cron_db_ok d → cron_db_ok (run_op d op).
Proof.
  intros Hop Hd. destruct op; cbn [run_op].
  - intros j s r. rewrite insert_job_runs. intros [? ?]%Hd. eauto using insert_job_jobs.
  - intros j s r. rewrite update_cron_row_runs. intros [? ?]%Hd. eauto using update_cron_row_jobs.
  - intros j s r [Hr Hj]%delete_cron_row_runs. destruct (Hd _ _ _ Hr).
    eauto using delete_cron_row_jobs.
  - by apply claim_run_ok.
  - apply renew_defer_ok; [|done]. intros r _ [Hs Ho]. by eapply run_ok_running.
  - apply renew_defer_ok; [|done]. intros r _ _. left. by cbn; eauto.
  - intros j s r Hr. rewrite finish_run_jobs.
    apply finish_run_lookup in Hr as [Hr|(Hk & r0 & Hr0 & _ & Hs & Hl & _)]; [by eapply Hd|].
    injection Hk as -> ->. split; [by eapply Hd|].
    apply run_ok_terminal; [|done]. by rewrite Hs.
  - intros j s r. rewrite cleanup_runs_lookup.
    destruct (cd_runs d !! (j, s)) as [r0|] eqn:Hr0; [|done]. cbn.
    destruct (_ && _); [done|]. intros [= <-]. by eapply Hd.
Qed.

(** In every state the repository reaches from an empty database, by any interleaving
    of its operations by any number of processes, a run belongs to a job that exists, and
    is either unfinished with a lease, and an owner while it is running, or finished
    without a lease. *)
Theorem cron_runs_invariant ops :
  Forall finish_status_ok ops → cron_db_ok (run_ops ops empty_cron_db).
Proof.
  intros Hops. apply (foldl_inv run_op (λ l d, Forall finish_status_ok l ∧ cron_db_ok d)).
  - intros op l d [[Hop Hl]%Forall_cons Hd]. auto using run_op_ok.
  - split; [done|]. by intros j s r.
Qed.

(** ** Finished occurrences *)

(** The operations that neither delete job [j] nor clean up what was finished at [t] *)
Definition keeps_run (j : string) (t : Z) (op : CronOp) : Prop :=
  match op with
  | OpDelete id => id ≠ j
  | OpCleanup cutoff => (cutoff ≤ t)%Z
  | _ => True
  end.

Lemma finished_status s : s ∈ ["ok"; "error"; "skipped"] → s ∉ ["running"; "retrying"].
Proof.
  revert s. apply Forall_forall. apply (bool_decide_unpack _). by vm_compute.
Qed.

Lemma terminal_not_unfinished r : terminal r → unfinished r = false.
Proof.
  unfold terminal, unfinished. intros Hr%bool_decide_unpack. apply bool_decide_eq_false.
  by apply finished_status.
Qed.

Lemma terminal_not_owned o r : terminal r → ¬ owned_by o r.
Proof.
  unfold terminal. intros Hr%bool_decide_unpack%finished_status [Hs _]. rewrite Hs in Hr.
  by apply Hr; left.
Qed.

Lemma update_owned_run_terminal j s o f d k r :
  terminal r → d.(cd_runs) !! k = Some r →
  (update_owned_run j s o f d).2.(cd_runs) !! k = Some r.
Proof.
  intros Ht Hr. rewrite update_owned_run_spec.
  destruct (cd_runs d !! (j, s)) as [r0|] eqn:Hr0; [|done]. case_decide as Ho; [|done].
  cbn. destruct (decide (k = (j, s))) as [->|]; [|by rewrite lookup_insert_ne].
  simplify_eq. by apply terminal_not_owned in Ho.
Qed.

Lemma claim_run_kept run_id p d k r :
  d.(cd_runs) !! k = Some r →
  k ≠ (p.(cl_job_id), p.(cl_scheduled_at)) ∨ unfinished r && lease_over p.(cl_now) r = false →
  (claim_run run_id p d).2.(cd_runs) !! k = Some r.
Proof.
  intros Hr Hk. unfold claim_run, insert_run, act_bind.
  destruct (decide (k = (cl_job_id p, cl_scheduled_at p))) as [->|Hne].
  - rewrite Hr. destruct Hk as [?|Hcond]; [done|]. by rewrite Hcond.
  - destruct (cd_runs d !! (cl_job_id p, cl_scheduled_at p)) as [r0|].
    + destruct (unfinished r0 && _); [|done]. cbn. by rewrite lookup_insert_ne.
    + destruct (cd_jobs d !! cl_job_id p); destruct (cl_queue_enabled p && _); try done; cbn;
        by rewrite lookup_insert_ne.
Qed.

Lemma finish_run_kept p d k r :
  d.(cd_runs) !! k = Some r →
  k ≠ (p.(fp_job_id), p.(fp_scheduled_at)) ∨ ¬ owned_by p.(fp_owner_id) r →
  (finish_run p d).2.(cd_runs) !! k = Some r.
Proof.
  intros Hr Hk. unfold finish_run. rewrite update_owned_run_spec.
  destruct (cd_runs d !! (fp_job_id p, fp_scheduled_at p)) as [r0|] eqn:Hr0; [|done].
  case_decide as Ho; cbn [fst snd andb]; [|done]. destruct (negb _); [done|]. cbn.
  destruct (decide (k = (fp_job_id p, fp_scheduled_at p))) as [->|];
    [|by rewrite lookup_insert_ne].
  simplify_eq. tauto.
Qed.

Lemma delete_cron_row_kept id d j s r :
  d.(cd_runs) !! (j, s) = Some r → id ≠ j →
  (delete_cron_row id d).2.(cd_runs) !! (j, s) = Some r.
Proof.
  intros Hr Hid. unfold delete_cron_row. destruct (cd_jobs d !! id); [|done]. cbn.
  by apply map_lookup_filter_Some.
Qed.

Lemma run_op_terminal d op j s r t :
  keeps_run j t op → terminal r → r.(rr_finished_at) = Some t →
  d.(cd_runs) !! (j, s) = Some r → (run_op d op).(cd_runs) !! (j, s) = Some r.
Proof.
  intros Hop Ht Hf Hr. destruct op as [row|id p now|id|run_id p|j' s' o l u|j' s' o l u|p|cutoff];
    cbn [run_op keeps_run] in *.
  - by rewrite insert_job_runs.
  - by rewrite update_cron_row_runs.
  - by apply delete_cron_row_kept.
  - apply claim_run_kept; [done|]. right. by rewrite terminal_not_unfinished.
  - by apply update_owned_run_terminal.
  - by apply update_owned_run_terminal.
  - apply finish_run_kept; [done|]. right. by apply terminal_not_owned.
  - rewrite cleanup_runs_lookup, Hr. cbn. unfold finished_before. rewrite Hf.
    rewrite (proj2 (Z.ltb_ge t cutoff)) by done. by rewrite andb_false_r.
Qed.

(** An occurrence is finished at most once, and is not run again after that: whatever
    the processes do, as long as the job is not deleted and the clean-up does not reach the
    run, its row keeps the outcome it has, claiming it answers [Duplicate], and no other
    outcome can be recorded. *)
Theorem finished_occurrence_is_final ops d j s r t :
  d.(cd_runs) !! (j, s) = Some r → terminal r → r.(rr_finished_at) = Some t →
  Forall (keeps_run j t) ops →
  (run_ops ops d).(cd_runs) !! (j, s) = Some r ∧
  (∀ run_id p, p.(cl_job_id) = j → p.(cl_scheduled_at) = s →
     claim_run run_id p (run_ops ops d) = (Ok Duplicate, run_ops ops d)) ∧
  (∀ p, p.(fp_job_id) = j → p.(fp_scheduled_at) = s →
     finish_run p (run_ops ops d) = (Ok false, run_ops ops d)).
Proof.
  intros Hr Ht Hf Hops.
  assert ((run_ops ops d).(cd_runs) !! (j, s) = Some r) as Hend.
  { apply (foldl_inv run_op (λ l d, Forall (keeps_run j t) l ∧ d.(cd_runs) !! (j, s) = Some r));
      [|done].
    intros op l d0 [[Hop Hl]%Forall_cons Hd]. eauto using run_op_terminal. }
  split; [done|]. split.
  - intros run_id p <- <-. unfold claim_run. by rewrite Hend, terminal_not_unfinished.
  - intros p <- <-. unfold finish_run. rewrite update_owned_run_spec, Hend.
    rewrite decide_False by by apply terminal_not_owned. done.
Qed.

(** ** Leases *)

(** The run of [(j, s)] is held by [o] until [l] at least. *)
Definition held (j : string) (s : Z) (o : string) (l : Z) (d : CronDb) : Prop :=
  ∃ r l', d.(cd_runs) !! (j, s) = Some r ∧ owned_by o r ∧ r.(rr_lease_until) = Some l' ∧ (l ≤ l')%Z.

(** What others do before [l], and what the holder does while it executes the run *)
Definition respects_lease (j : string) (s : Z) (o : string) (l : Z) (op : CronOp) : Prop :=
  match op with
  | OpDelete id => id ≠ j
  | OpClaim _ p => (p.(cl_now) < l)%Z
  | OpRenew j' s' o' l' _ => (j', s', o') = (j, s, o) → (l ≤ l')%Z
  | OpDefer j' s' o' _ _ => (j', s', o') ≠ (j, s, o)
  | OpFinish p => (p.(fp_job_id), p.(fp_scheduled_at), p.(fp_owner_id)) ≠ (j, s, o)
  | _ => True
  end.

Lemma owned_by_inj o o' r : owned_by o r → owned_by o' r → o = o'.
Proof. intros [_ Ho] [_ Ho']. congruence. Qed.

Lemma owned_unfinished o r : owned_by o r → unfinished r.
Proof. intros [Hs _]. unfold unfinished. by rewrite Hs. Qed.

Lemma claim_held_duplicate run_id p j s o l d :
  held j s o l d → (p.(cl_now) < l)%Z → p.(cl_job_id) = j → p.(cl_scheduled_at) = s →
  claim_run run_id p d = (Ok Duplicate, d).
Proof.
  intros (r & l' & Hr & Ho & Hl' & Hle) Hlt <- <-. unfold claim_run. rewrite Hr.
  unfold lease_over. rewrite Hl', (proj2 (Z.leb_gt _ _)) by lia. by rewrite andb_false_r.
Qed.

Lemma update_other_run j s o f d j' s' o' r :
  (j', s', o') ≠ (j, s, o) → owned_by o r → d.(cd_runs) !! (j, s) = Some r →
  (update_owned_run j' s' o' f d).2.(cd_runs) !! (j, s) = Some r.
Proof.
  intros Hne Ho Hr. rewrite update_owned_run_spec.
  destruct (cd_runs d !! (j', s')) as [r0|] eqn:Hr0; [|done]. case_decide as Ho'; [|done]. cbn.
  rewrite lookup_insert_ne; [done|]. intros [= -> ->]. simplify_eq.
  by rewrite (owned_by_inj _ _ _ Ho Ho') in Hne.
Qed.

Lemma run_op_held d op j s o l :
  respects_lease j s o l op → held j s o l d → held j s o l (run_op d op).
Proof.
  intros Hop Hheld. pose proof Hheld as (r & l' & Hr & Ho & Hl' & Hle).
  destruct op as [row|id p now|id|run_id p|j' s' o' l0 u|j' s' o' l0 u|p|cutoff];
    cbn [run_op respects_lease] in *.
  - exists r, l'. by rewrite insert_job_runs.
  - exists r, l'. by rewrite update_cron_row_runs.
  - exists r, l'. by rewrite (delete_cron_row_kept _ _ _ _ r).
  - exists r, l'. split_and!; [|done..]. apply claim_run_kept; [done|]. right.
    unfold lease_over. rewrite Hl', (proj2 (Z.leb_gt _ _)) by lia. by rewrite andb_false_r.
  - destruct (decide ((j', s', o') = (j, s, o))) as [Heq|Hne].
    + pose proof (Hop Heq). injection Heq as -> -> ->. unfold renew_run_lease.
      rewrite update_owned_run_spec, Hr, decide_True by done.
      eexists _, l0. cbn. rewrite lookup_insert_eq. by split_and!.
    + exists r, l'. split_and!; [by apply (update_other_run _ _ o)|done..].
  - exists r, l'. split_and!; [by apply (update_other_run _ _ o)|done..].
  - exists r, l'. rewrite (finish_run_kept p _ _ r); [done|done|].
    destruct (decide ((j, s) = (fp_job_id p, fp_scheduled_at p))) as [Heq|]; [right|by left].
    intros Ho'. apply Hop. injection Heq as -> ->. by rewrite (owned_by_inj _ _ _ Ho Ho').
  - exists r, l'. rewrite cleanup_runs_lookup, Hr. cbn.
    destruct (terminal r) eqn:Ht; [|done].
    exfalso. apply (terminal_not_owned o r); [by rewrite Ht|done].
Qed.

(** A successful claim holds the run. *)
Lemma claim_run_holds run_id p d d' :
  claim_run run_id p d = (Ok Claimed, d') →
  held p.(cl_job_id) p.(cl_scheduled_at) p.(cl_owner_id) p.(cl_lease_until) d'.
Proof.
  unfold claim_run, insert_run, act_bind.
  destruct (cd_runs d !! (cl_job_id p, cl_scheduled_at p)) as [r0|] eqn:Hr0.
  - destruct (unfinished r0 && _); [|done]. intros [= <-].
    eexists _, _. cbn. rewrite lookup_insert_eq. split_and!; [done|done|done|lia].
  - destruct (cd_jobs d !! cl_job_id p); destruct (cl_queue_enabled p && _); try done.
    cbn. intros [= <-]. eexists _, _. cbn. rewrite lookup_insert_eq.
    split_and!; [done|done|done|lia].
Qed.

(** C27: A claimed occurrence has one executor.  Once a process has claimed it until [l], it
    stays that process's whatever the others do and however often the holder renews its
    lease, until the holder finishes or defers it, or the job is deleted: a claim made
    before the lease is over answers [Duplicate]. *)
Theorem lease_excludes_others run_id p d d' ops :
  claim_run run_id p d = (Ok Claimed, d') →
  Forall (respects_lease p.(cl_job_id) p.(cl_scheduled_at) p.(cl_owner_id) p.(cl_lease_until)) ops →
  held p.(cl_job_id) p.(cl_scheduled_at) p.(cl_owner_id) p.(cl_lease_until) (run_ops ops d') ∧
  ∀ run_id' p', p'.(cl_job_id) = p.(cl_job_id) → p'.(cl_scheduled_at) = p.(cl_scheduled_at) →
    (p'.(cl_now) < p.(cl_lease_until))%Z →
    claim_run run_id' p' (run_ops ops d') = (Ok Duplicate, run_ops ops d').
Proof.
  intros Hclaim Hops. apply claim_run_holds in Hclaim.
  assert (held p.(cl_job_id) p.(cl_scheduled_at) p.(cl_owner_id) p.(cl_lease_until)
            (run_ops ops d')) as Hend.
  { apply (foldl_inv run_op (λ l d, Forall (respects_lease (cl_job_id p) (cl_scheduled_at p)
      (cl_owner_id p) (cl_lease_until p)) l ∧
      held (cl_job_id p) (cl_scheduled_at p) (cl_owner_id p) (cl_lease_until p) d)); [|done].
    intros op l d0 [[Hop Hl]%Forall_cons Hd]. eauto using run_op_held. }
  split; [done|]. intros run_id' p' Hj Hs Hnow. by eapply claim_held_duplicate.
Qed.

(** ** Claims, branch by branch *)

(** What a claim answers: an occurrence nobody has a record of is claimed, unless the
    job is queued and another of its runs holds a lease, in which case it is recorded as
    skipped; an unfinished one whose lease is over is taken over; any other is a
    duplicate.  A job that is not in the database has no runs. *)
Theorem claim_run_spec run_id p d :
  (claim_run run_id p d).1 =
    match d.(cd_runs) !! (p.(cl_job_id), p.(cl_scheduled_at)) with
    | Some r => Ok (if unfinished r && lease_over p.(cl_now) r then Claimed else Duplicate)
    | None =>
        match d.(cd_jobs) !! p.(cl_job_id) with
        | None => Err Query
        | Some _ => Ok (if p.(cl_queue_enabled) && has_active_run p.(cl_job_id) p.(cl_now) d
                        then QueueBusy else Claimed)
        end
    end ∧
  ((claim_run run_id p d).1 = Ok QueueBusy →
   ∃ r, (claim_run run_id p d).2.(cd_runs) !! (p.(cl_job_id), p.(cl_scheduled_at)) = Some r ∧
        terminal r ∧ r.(rr_finished_at) = Some p.(cl_now)) ∧
  ((claim_run run_id p d).1 ∈ [Ok Duplicate; Err Query] → (claim_run run_id p d).2 = d).
Proof.
  unfold claim_run, insert_run, act_bind.
  destruct (cd_runs d !! (cl_job_id p, cl_scheduled_at p)) as [r0|] eqn:Hr0.
  { destruct (unfinished r0 && _); cbn [fst snd]; (split; [done|]; split; [done|]); [|done].
    by rewrite !elem_of_cons, elem_of_nil; intros [?|[?|?]]. }
  destruct (cd_jobs d !! cl_job_id p) as [row|]; [|by destruct (cl_queue_enabled p && _)].
  destruct (cl_queue_enabled p && _); cbn [fst snd act_ret];
    (split; [done|]; split; [|by rewrite !elem_of_cons, elem_of_nil; intros [?|[?|?]]]); [|done].
  intros _. eexists. cbn. rewrite lookup_insert_eq. by split_and!.
Qed.

(** ** Recovery *)

Section recovery.
Context `{SqlOrder}.

Lemma elem_of_leased_runs j d s l :
  (s, l) ∈ leased_runs j d ↔
  ∃ r, d.(cd_runs) !! (j, s) = Some r ∧ unfinished r ∧ r.(rr_lease_until) = Some l.
Proof.
  unfold leased_runs. rewrite list_elem_of_omap. split.
  - intros ([[j' s'] r] & Hin%elem_of_map_to_list & Hr). cbn in Hr.
    case_bool_decide; [|done]. subst j'. destruct (unfinished r) eqn:Hu; [|done].
    destruct (rr_lease_until r) as [l'|] eqn:Hl; [|done]. cbn in Hr. simplify_eq.
    exists r. by rewrite Hu.
  - intros (r & Hr & Hu & Hl). exists ((j, s), r). split; [by apply elem_of_map_to_list|].
    cbn. rewrite bool_decide_true by done. destruct (unfinished r); [|done]. by rewrite Hl.
Qed.

Lemma head_order_by {R} (key : R → Z) l x :
  head (order_by key l) = Some x → x ∈ l ∧ ∀ y, y ∈ l → (key x ≤ key y)%Z.
Proof.
  pose proof (order_by_perm key l) as Hp. pose proof (order_by_sorted key l) as Hs.
  destruct (order_by key l) as [|x' l']; [done|]. intros [= ->].
  assert (x ∈ l) as Hx by (rewrite <- Hp; left). split; [done|].
  intros y. rewrite <- Hp. intros [->|Hy]%elem_of_cons; [lia|].
  apply Sorted_StronglySorted in Hs; [|intros a b c; lia].
  apply StronglySorted_inv in Hs as [_ Hs]. rewrite Forall_forall in Hs. by apply Hs.
Qed.

Lemma no_leased_runs d j :
  cron_db_ok d → head (order_by snd (leased_runs j d)) = None →
  ∀ s r, d.(cd_runs) !! (j, s) = Some r → unfinished r = false.
Proof.
  intros Hd Hhead s r Hr. destruct (unfinished r) eqn:Hu; [|done]. exfalso.
  destruct (Hd _ _ _ Hr) as [_ [(_ & [l Hl] & _)|[Ht _]]].
  - assert ((s, l) ∈ leased_runs j d) as Hin.
    { apply elem_of_leased_runs. exists r. by rewrite Hu. }
    rewrite <- (order_by_perm snd) in Hin. destruct (order_by snd (leased_runs j d)); [|done].
    by apply elem_of_nil in Hin.
  - apply terminal_not_unfinished in Ht. congruence.
Qed.

(** No unfinished occurrence is lost.  [get_recoverable_run] answers nothing only if
    every run of the job is finished; what it answers is an unfinished run with the
    earliest lease, and claiming that run at or after the instant it says succeeds. *)
Theorem unfinished_runs_recovered d j now :
  cron_db_ok d →
  match get_recoverable_run j now d with
  | None => ∀ s r, d.(cd_runs) !! (j, s) = Some r → unfinished r = false
  | Some rc =>
      (now ≤ rc.(rc_wake_at))%Z ∧
      (∃ r, d.(cd_runs) !! (j, rc.(rc_scheduled_at)) = Some r ∧ unfinished r) ∧
      (∀ s r l, d.(cd_runs) !! (j, s) = Some r → unfinished r → r.(rr_lease_until) = Some l →
                rc.(rc_wake_at) ≤ Z.max l now)%Z ∧
      ∀ run_id p, p.(cl_job_id) = j → p.(cl_scheduled_at) = rc.(rc_scheduled_at) →
        (rc.(rc_wake_at) ≤ p.(cl_now))%Z → (claim_run run_id p d).1 = Ok Claimed
  end.
Proof.
  intros Hd. unfold get_recoverable_run.
  destruct (head (order_by snd (leased_runs j d))) as [[s l]|] eqn:Hhead; cbn [mbind option_bind].
  - apply head_order_by in Hhead as [Hin Hmin].
    apply elem_of_leased_runs in Hin as (r & Hr & Hu & Hl). cbn [rc_wake_at rc_scheduled_at].
    split; [lia|]. split; [by exists r|]. split.
    + intros s' r' l' Hr' Hu' Hl'.
      assert ((s', l') ∈ leased_runs j d) as Hin by (apply elem_of_leased_runs; eauto).
      apply Hmin in Hin. cbn in Hin. lia.
    + intros run_id p <- <- Hnow. unfold claim_run. rewrite Hr.
      destruct (unfinished r); [|done]. unfold lease_over.
      by rewrite Hl, (proj2 (Z.leb_le _ _)) by lia.
  - by apply no_leased_runs.
Qed.
End recovery.

(** ** A job and its occurrences *)

Definition demo_row : CronJobRow :=
  {| jr_id := "job"; jr_name := "Daily"; jr_enabled := true; jr_schedule_kind := "every";
     jr_schedule_value := "60000"; jr_schedule_tz := None; jr_schedule_description := None;
     jr_payload_message := "ping"; jr_execution_mode := "existing"; jr_agent_config := None;
     jr_conversation_id := "conv"; jr_conversation_title := None; jr_created_by := "user";
     jr_skill_content := None; jr_description := None; jr_created_at := 0; jr_updated_at := 0;
     jr_next_run_at := Some 60000%Z; jr_last_run_at := None; jr_last_status := None;
     jr_last_error := None; jr_run_count := 0; jr_retry_count := 0; jr_max_retries := 3;
     jr_queue_enabled := true |}.

Definition demo_claim (owner : string) (s now : Z) : ClaimCronRunParams :=
  {| cl_job_id := "job"; cl_scheduled_at := s; cl_owner_id := owner; cl_now := now;
     cl_lease_until := now + 60000; cl_queue_enabled := true |}.

Definition demo_finish (owner : string) (s now : Z) : FinishCronRunParams :=
  {| fp_job_id := "job"; fp_scheduled_at := s; fp_owner_id := owner; fp_status := "ok";
     fp_conversation_id := Some "conv"; fp_error := None; fp_finished_at := now |}.

(** Two processes: the first occurrence is claimed, renewed and finished by [a], the second
    is claimed by [b] while [a] tries too. *)
Definition demo_ops : list CronOp :=
  [OpInsert demo_row; OpClaim "r1" (demo_claim "a" 60000 60005);
   OpClaim "r2" (demo_claim "b" 60000 60007); OpRenew "job" 60000 "a" 140000 80000;
   OpFinish (demo_finish "a" 60000 90000); OpClaim "r3" (demo_claim "b" 120000 120001)].

Lemma cron_runs_invariant_witness :
  Forall finish_status_ok demo_ops ∧ cron_db_ok (run_ops demo_ops empty_cron_db) ∧
  size (run_ops demo_ops empty_cron_db).(cd_runs) = 2.
Proof.
  assert (Forall finish_status_ok demo_ops) as Hops by (repeat constructor).
  split; [done|]. split; [by apply cron_runs_invariant|by vm_compute].
Defined.

Lemma finished_occurrence_is_final_witness :
  finish_run (demo_finish "b" 60000 200000)
    (run_ops [OpClaim "r4" (demo_claim "b" 60000 190000); OpCleanup 90000]
      (run_ops demo_ops empty_cron_db)) =
  (Ok false, run_ops [OpClaim "r4" (demo_claim "b" 60000 190000); OpCleanup 90000]
      (run_ops demo_ops empty_cron_db)).
Proof.
  destruct (cd_runs (run_ops demo_ops empty_cron_db) !! ("job", 60000%Z)) as [r|] eqn:Hr;
    [|vm_compute in Hr; discriminate].
  destruct (finished_occurrence_is_final
    [OpClaim "r4" (demo_claim "b" 60000 190000); OpCleanup 90000]
    (run_ops demo_ops empty_cron_db) "job" 60000 r 90000) as (_ & _ & Hf).
  - done.
  - vm_compute in Hr. injection Hr as <-. by vm_compute.
  - vm_compute in Hr. by injection Hr as <-.
  - repeat constructor. cbn. lia.
  - by apply Hf.
Defined.

Lemma lease_excludes_others_witness :
  let d := run_ops [OpInsert demo_row] empty_cron_db in
  let d' := (claim_run "r1" (demo_claim "a" 60000 60005) d).2 in
  let ops := [OpClaim "r2" (demo_claim "b" 60000 90000); OpRenew "job" 60000 "a" 140000 80000] in
  claim_run "r5" (demo_claim "b" 60000 100000) (run_ops ops d') =
    (Ok Duplicate, run_ops ops d').
Proof.
  intros d d' ops.
  destruct (lease_excludes_others "r1" (demo_claim "a" 60000 60005) d d' ops) as [_ Hdup].
  - by vm_compute.
  - repeat constructor; cbn; intros; lia.
  - apply Hdup; [done|done|cbn; lia].
Defined.

Lemma unfinished_runs_recovered_witness :
  let d := run_ops demo_ops empty_cron_db in
  ∃ rc, @get_recoverable_run insertion_order "job" 130000 d = Some rc ∧
        rc.(rc_scheduled_at) = 120000%Z ∧ rc.(rc_wake_at) = 180001%Z ∧
        (claim_run "r6" (demo_claim "a" 120000 180001) d).1 = Ok Claimed.
Proof.
  intros d.
  assert (cron_db_ok d) as Hd.
  { unfold d. apply (foldl_inv run_op (λ l d, Forall finish_status_ok l ∧ cron_db_ok d)).
    - intros op l d0 [[Hop Hl]%Forall_cons Hd]. auto using run_op_ok.
    - split; [repeat constructor|]. by intros j s r. }
  pose proof (@unfinished_runs_recovered insertion_order d "job" 130000 Hd) as Hrec.
  destruct (@get_recoverable_run insertion_order "job" 130000 d) as [rc|] eqn:Hrc;
    [|vm_compute in Hrc; discriminate].
  destruct Hrec as (_ & _ & _ & Hclaim). exists rc. vm_compute in Hrc. injection Hrc as <-.
  split; [done|]. split; [done|]. split; [done|]. apply Hclaim; [done|done|cbn; lia].
Defined.

(** The queue of a job does not hold for an occurrence that is taken over: the lease of the
    first occurrence runs out, the second is claimed, and the first is claimed again while
    the second holds its lease. *)
Lemma takeover_ignores_queue :
  let d := run_ops [OpInsert demo_row; OpClaim "r1" (demo_claim "a" 60000 60000);
                    OpClaim "r2" (demo_claim "b" 120000 120001)] empty_cron_db in
  has_active_run "job" 120002 d = true ∧
  (claim_run "r3" (demo_claim "a" 60000 120002) d).1 = Ok Claimed ∧
  (claim_run "r4" (demo_claim "a" 180000 120002) d).1 = Ok QueueBusy.
Proof. by vm_compute. Qed.
