(* ===== verification/CronAgents.v ===== *)
(** * Scheduled jobs: the agent a job runs

    Models how a job finds the runtime of its assistant: the helpers of
    [crates/aionui-cron/src/service.rs] that resolve an assistant to a runtime backend and
    a full-auto mode and check the configuration of the agent, [AgentType::full_auto_mode_id]
    of [crates/aionui-common/src/enums.rs], and
    [crates/aionui-db/src/agent_binding.rs], which finds an agent by id, by backend or by
    type.

    The tables of assistants, of their overlays and of agents are read and not written
    here: [Catalog] is their content, with the columns the code looks at. *)
From Stdlib Require Import String.
From S2P Require Import Prelude Text Storage ConvPolicy CronTypes.

(** ** The catalog *)

Record AgentMetadataRow := MkAgentMetadataRow {
  am_id : string;
  am_name : string;
  am_backend : option string;
  am_agent_type : string;
  am_agent_source : string;
  am_yolo_id : option string;
  am_sort_order : Z;
}.

Record AssistantDefinitionRow := MkAssistantDefinitionRow {
  ad_id : string;
  ad_assistant_id : string;
  ad_source : string;
  ad_name : string;
  ad_agent_id : string;
  ad_deleted_at : option Z;
}.

(** [ct_overrides]: [agent_id_override] of the overlay of a definition *)
Record Catalog := MkCatalog {
  ct_agents : list AgentMetadataRow;
  ct_definitions : list AssistantDefinitionRow;
  ct_overrides : gmap string (option string);
}.

(** [SELECT * FROM assistant_definitions WHERE assistant_id = ? AND deleted_at IS NULL] *)
Definition get_by_assistant_id (c : Catalog) (assistant_id : string) :
    option AssistantDefinitionRow :=
  find (λ d, bool_decide (d.(ad_assistant_id) = assistant_id) &&
             bool_decide (d.(ad_deleted_at) = None)) c.(ct_definitions).

(** [Iterator::min_by_key]: the first of the least elements *)
Fixpoint min_by {A} (lt : A → A → bool) (l : list A) : option A :=
  match l with
  | [] => None
  | x :: l => match min_by lt l with
              | None => Some x
              | Some y => if lt y x then Some y else Some x
              end
  end.

(** ** [agent_binding.rs] *)

Record AgentBindingResolution := MkAgentBindingResolution {
  ab_agent_id : string;
  ab_agent_source : string;
  ab_agent_type : string;
  ab_runtime_backend : string;
}.

(** [opt.map(str::trim).filter(|v| !v.is_empty())] *)
Definition trimmed (o : option string) : option string := s ← o; non_empty (utrim s).

Definition runtime_backend_for_agent (row : AgentMetadataRow) : string :=
  default row.(am_agent_type) (trimmed row.(am_backend)).

Definition binding_resolution_for_agent (row : AgentMetadataRow) : AgentBindingResolution :=
  {| ab_agent_id := row.(am_id);
     ab_agent_source := row.(am_agent_source);
     ab_agent_type := row.(am_agent_type);
     ab_runtime_backend := runtime_backend_for_agent row |}.

(** The comparison of [agent_match_rank]: by source, by [sort_order], by name *)
Definition agent_source_rank (row : AgentMetadataRow) : Z :=
  if bool_decide (row.(am_agent_source) = "builtin") then 0
  else if bool_decide (row.(am_agent_source) = "internal") then 1 else 2.

Definition agent_match_lt (r1 r2 : AgentMetadataRow) : bool :=
  let s1 := agent_source_rank r1 in
  let s2 := agent_source_rank r2 in
  (s1 <? s2)%Z ||
  ((s1 =? s2)%Z && ((r1.(am_sort_order) <? r2.(am_sort_order))%Z ||
    ((r1.(am_sort_order) =? r2.(am_sort_order))%Z && String.ltb r1.(am_name) r2.(am_name)))).

Definition resolve_agent_binding_from_rows (rows : list AgentMetadataRow) (value : string) :
    option AgentBindingResolution :=
  value ← non_empty (utrim value);
  let best (f : AgentMetadataRow → bool) := min_by agent_match_lt (List.filter f rows) in
  row ← opt_or (best (λ row, bool_decide (row.(am_id) = value)))
        (opt_or (best (λ row, bool_decide (row.(am_backend) = Some value)))
                (best (λ row, bool_decide (row.(am_agent_type) = value))));
  Some (binding_resolution_for_agent row).

(** ** [AgentType] as text *)

Definition serde_name (t : AgentType) : string :=
  match t with
  | Acp => "acp" | OpenclawGateway => "openclaw-gateway" | Nanobot => "nanobot"
  | Remote => "remote" | Aionrs => "aionrs" | Gemini => "gemini" | Codex => "codex"
  end.

(** [serde_json::from_value::<AgentType>(Value::String(s)).ok()] *)
Definition agent_type_from_name (s : string) : option AgentType :=
  find (λ t, bool_decide (serde_name t = s))
    [Acp; OpenclawGateway; Nanobot; Remote; Aionrs; Gemini; Codex].

Definition full_auto_mode_id (t : AgentType) (backend : option string) : string :=
  match t with
  | Acp =>
      match backend with
      | Some b =>
          if bool_decide (b = "claude" ∨ b = "codebuddy") then "bypassPermissions"
          else if bool_decide (b = "codex") then "agent-full-access"
          else if bool_decide (b = "hermes") then "default"
          else if bool_decide (b = "opencode") then "build"
          else if bool_decide (b = "cursor") then "agent"
          else "yolo"
      | None => "yolo"
      end
  | _ => "yolo"
  end.

Definition fallback_full_auto_mode (runtime_agent_type : string) (backend_hint : option string) :
    string :=
  full_auto_mode_id (default Acp (agent_type_from_name runtime_agent_type)) backend_hint.

Definition full_auto_mode_from_metadata (row : AgentMetadataRow) (runtime_agent_type : string) :
    string :=
  default (fallback_full_auto_mode runtime_agent_type (Some (runtime_backend_for_agent row)))
    (trimmed row.(am_yolo_id)).

Definition runtime_agent_type_for_backend (backend : string) : string :=
  if bool_decide (backend = "aionrs") then "aionrs" else "acp".

(** ** From an assistant to its agent *)

Section agents.
Context (c : Catalog).

Definition runtime_backend_for_agent_id (agent_id : string) : string :=
  match resolve_agent_binding_from_rows c.(ct_agents) agent_id with
  | Some binding => binding.(ab_runtime_backend)
  | None => agent_id
  end.

(** [overlay.and_then(|item| item.agent_id_override).unwrap_or(definition.agent_id)] *)
Definition effective_agent_id (definition : AssistantDefinitionRow) : string :=
  default definition.(ad_agent_id) (mjoin (c.(ct_overrides) !! definition.(ad_id))).

Definition resolve_agent_type_for_assistant_id (assistant_id : string) : result string CronError :=
  definition ←? ok_or (get_by_assistant_id c assistant_id) (AssistantNotFound assistant_id);
  Ok (runtime_agent_type_for_backend (runtime_backend_for_agent_id (effective_agent_id definition))).

Definition resolve_new_job_agent_type (agent_config : option CronAgentConfigWriteDto) :
    result string CronError :=
  match agent_config ≫= wd_assistant_id with
  | None => Err (InvalidAgentConfig "assistant_id is required for new cron jobs")
  | Some assistant_id => resolve_agent_type_for_assistant_id assistant_id
  end.

Definition resolve_job_agent_type (job : CronJob) : result string CronError :=
  if negb (is_blank job.(cj_agent_type)) then Ok job.(cj_agent_type) else
  let assistant_id :=
    config ← job.(cj_agent_config);
    value ← opt_or config.(ac_assistant_id) config.(ac_custom_agent_id);
    if is_blank value then None else Some value in
  match assistant_id with
  | None => Err (InvalidAgentConfig "assistant_id is required for cron jobs")
  | Some assistant_id => resolve_agent_type_for_assistant_id assistant_id
  end.

Definition resolve_assistant_backend (assistant_id : option string) : option string :=
  assistant_id ← assistant_id ≫= non_empty;
  definition ← get_by_assistant_id c assistant_id;
  Some (runtime_backend_for_agent_id (effective_agent_id definition)).

Definition resolve_assistant_name (assistant_id : option string) : option string :=
  assistant_id ← assistant_id ≫= non_empty;
  definition ← get_by_assistant_id c assistant_id;
  non_empty (utrim definition.(ad_name)).

Definition resolve_agent_metadata_for_value (value : option string) : option AgentMetadataRow :=
  value ← trimmed value;
  binding ← resolve_agent_binding_from_rows c.(ct_agents) value;
  find (λ row, bool_decide (row.(am_id) = binding.(ab_agent_id))) c.(ct_agents).

Definition resolve_agent_metadata_for_assistant (assistant_id : option string) :
    option AgentMetadataRow :=
  assistant_id ← trimmed assistant_id;
  definition ← get_by_assistant_id c assistant_id;
  resolve_agent_metadata_for_value (Some (effective_agent_id definition)).

Definition resolve_cron_full_auto_mode (runtime_agent_type : string)
    (assistant_id agent_id_hint backend_hint : option string) : string :=
  match opt_or (resolve_agent_metadata_for_assistant assistant_id)
          (opt_or (resolve_agent_metadata_for_value agent_id_hint)
             (resolve_agent_metadata_for_value backend_hint)) with
  | Some row => full_auto_mode_from_metadata row runtime_agent_type
  | None => fallback_full_auto_mode runtime_agent_type backend_hint
  end.

(** The order of [min_by_key] in [resolve_assistant_id_for_agent_label] and
    [resolve_default_assistant_id] *)
Definition assistant_source_rank (d : AssistantDefinitionRow) : Z :=
  if bool_decide (d.(ad_source) = "builtin") then 0
  else if bool_decide (d.(ad_source) = "generated") then 1
  else if bool_decide (d.(ad_source) = "user") then 2 else 3.

Definition assistant_lt (d1 d2 : AssistantDefinitionRow) : bool :=
  let s1 := assistant_source_rank d1 in
  let s2 := assistant_source_rank d2 in
  (s1 <? s2)%Z || ((s1 =? s2)%Z && String.ltb d1.(ad_name) d2.(ad_name)).

Definition resolve_assistant_id_for_agent_label (agent_label : string) : option string :=
  binding ← resolve_agent_binding_from_rows c.(ct_agents) agent_label;
  ad_assistant_id <$> min_by assistant_lt
    (List.filter (λ d, bool_decide (d.(ad_deleted_at) = None) &&
                       bool_decide (d.(ad_agent_id) = binding.(ab_agent_id))) c.(ct_definitions)).

Definition resolve_default_assistant_id : option string :=
  ad_assistant_id <$> min_by assistant_lt
    (List.filter (λ d, bool_decide (d.(ad_deleted_at) = None)) c.(ct_definitions)).

(** ** The configuration of the agent *)

Definition aionrs_model_required : CronError :=
  InvalidAgentConfig
    "aionrs cron jobs require agent_config.model.provider_id and agent_config.model.model".

Definition normalize_model (model : option ProviderWithModel) (runtime_agent_type : string) :
    result (option ProviderWithModel) CronError :=
  match model with
  | None => Ok None
  | Some model =>
      let model := {| pm_provider_id := utrim model.(pm_provider_id);
                      pm_model := utrim model.(pm_model);
                      pm_use_model := trimmed model.(pm_use_model) |} in
      let missing := bool_decide (model.(pm_provider_id) = EmptyString ∨
                                  model.(pm_model) = EmptyString) in
      if bool_decide (runtime_agent_type = "aionrs") && missing then Err aionrs_model_required
      else if missing then Ok None else Ok (Some model)
  end.

Definition validate_aionrs_agent_config (agent_type : string)
    (agent_config : option CronAgentConfigWriteDto) : result unit CronError :=
  if bool_decide (agent_type ≠ "aionrs") then Ok tt else
  let model_ok :=
    match agent_config ≫= wd_model with
    | Some value => negb (is_blank value.(pm_provider_id)) && negb (is_blank value.(pm_model))
    | None => false
    end in
  if model_ok then Ok tt else Err aionrs_model_required.

Definition sanitize_agent_config_dto (config : CronAgentConfigWriteDto) :
    CronAgentConfigWriteDto :=
  {| wd_name := config.(wd_name);
     wd_cli_path := config.(wd_cli_path);
     wd_assistant_id := trimmed config.(wd_assistant_id);
     wd_mode := config.(wd_mode);
     wd_model_id := config.(wd_model_id);
     wd_model := config.(wd_model);
     wd_config_options := config.(wd_config_options);
     wd_workspace := config.(wd_workspace) |}.

Definition build_cron_agent_config (runtime_agent_type : string)
    (config : CronAgentConfigWriteDto) : result CronAgentConfig CronError :=
  match (a ← config.(wd_assistant_id); if is_blank a then None else Some a) with
  | None => Err (InvalidAgentConfig "assistant_id is required for cron jobs")
  | Some assistant_id =>
      assistant_backend ←? ok_or (resolve_assistant_backend (Some assistant_id))
        (InvalidAgentConfig ("assistant '" +:+ assistant_id +:+
                             "' could not resolve a runtime backend"));
      let full_auto_mode := resolve_cron_full_auto_mode runtime_agent_type (Some assistant_id)
                              None (Some assistant_backend) in
      model ←? normalize_model config.(wd_model) runtime_agent_type;
      Ok {| ac_name := config.(wd_name);
            ac_cli_path := config.(wd_cli_path);
            ac_is_preset := None;
            ac_assistant_id := config.(wd_assistant_id);
            ac_custom_agent_id := None;
            ac_mode := Some full_auto_mode;
            ac_model_id := config.(wd_model_id);
            ac_model := model;
            ac_config_options := config.(wd_config_options);
            ac_workspace := config.(wd_workspace) |}
  end.
End agents.
