(* ===== verification/CronService.v ===== *)
(** * Scheduled jobs: the service

    Models [crates/aionui-cron/src/service.rs], with [handle_busy] of [executor.rs] and the
    events of [events.rs]: creating, changing and removing jobs, what happens when a timer
    fires ([tick]), when the server starts ([init]) and when the machine wakes up
    ([handle_system_resume]).

    The state is the tables, the timers, and what was asked of the conversation service and
    broadcast.  A tick awaits the agent, which takes as long as a turn, so it is three
    steps between which other calls run: [tick_claim], up to the claim of the occurrence;
    [tick_bind], once the executor has prepared a conversation; and
    [handle_execution_result], when the turn is over.  The other methods are one step each.

    [CronEnv] has what a call takes from elsewhere, the JSON of agent configurations apart: clock, identifiers, the libraries, the
    catalog of assistants, the conversations as they are, and the answers of the executor,
    of the conversation service and of the file system. *)
From Stdlib Require Import String.
From S2P Require Import Prelude Text Storage CronTypes CronTimer CronRuns CronAgents.

Definition RUN_LEASE_MS : Z := 60000.
Definition RUN_HISTORY_RETENTION_MS : Z := 30 * 24 * 60 * 60 * 1000.
Definition RETRY_INTERVAL_MS : Z := 30000.

(** [ExecutionResult] of [executor.rs] *)
Inductive ExecutionResult :=
  | Success (conversation_id : string)
  | Retrying (attempt : Z)
  | Skipped
  | ExecError (message : string).

Inductive CronEvent :=
  | JobCreated (job : CronJobResponse)
  | JobUpdated (job : CronJobResponse)
  | JobRemoved (job_id : string)
  | JobExecuted (job_id status : string) (err : option string)
  | ConversationTips (conversation_id content tip_type : string).

(** What is asked of the executor and of the skill files *)
Inductive CronCall :=
  | BindConversation (conversation_id job_id : string) (mode : option string)
  | UnbindConversation (conversation_id job_id : string)
  | InsertTips (conversation_id content tip_type : string)
  | PersistSkill (job_id content : string)
  | DeleteSkillFile (job_id : string)
  | MarkSkillSaved (job_id : string).

Record CronState := MkCronState {
  cs_db : CronDb;
  cs_handles : gmap string (option Timer);
  cs_calls : list CronCall;
  cs_events : list CronEvent;
}.

Definition set_cs_db d s := MkCronState d s.(cs_handles) s.(cs_calls) s.(cs_events).
Definition with_handles (f : CronScheduler → CronScheduler) s :=
  MkCronState s.(cs_db) (f s.(cs_handles)) s.(cs_calls) s.(cs_events).
Definition ask (c : CronCall) s :=
  MkCronState s.(cs_db) s.(cs_handles) (s.(cs_calls) ++ [c]) s.(cs_events).
Definition emit (e : CronEvent) s :=
  MkCronState s.(cs_db) s.(cs_handles) s.(cs_calls) (s.(cs_events) ++ [e]).

(** The columns of [conversations] the service looks at *)
Record CronConversation := MkCronConversation {
  cv_user_id : string;
  cv_extra : string;
}.

Inductive WorkspacePathValidationError :=
  | WorkspaceEmpty
  | WorkspaceDoesNotExist (path : string)
  | WorkspaceNotDirectory (path : string)
  | WorkspaceNotAccessible (path : string).

Class CronEnv := {
  cron_call_env :: CallEnv;
  cron_lib :: CronLib;
  cron_sql_order :: SqlOrder;
  cron_values :: JsonValue;
  parse_value : string → option json;
  instance_id : string;
  sqlx_text : string;
  catalog : Catalog;
  conversations : gmap string CronConversation;
  is_conversation_claimed : string → bool;
  bind_result : string → string → result unit CronError;
  insert_tips_result : string → string → result unit CronError;
  auto_workspace_to_delete : string → result (option string) CronError;
  workspace_matches_path : string → string → bool;
  validate_workspace_path_availability : string → result unit WorkspacePathValidationError;
  persist_skill_file : CronJob → string → result unit CronError;
  delete_skill_file : string → result unit CronError;
  has_skill_file : string → result bool CronError;
  mark_skill_saved_result : string → result unit CronError;
  to_lowercase : string → string;
}.

(** [if let Some(x) = opt { job = f(x, job) }] *)
Definition when_some {A B} (o : option A) (f : A → B → B) (b : B) : B :=
  match o with Some a => f a b | None => b end.

Definition act_of {S E A} (r : result A E) : action S E A := λ s, (r, s).
Definition act_do {S E} (f : S → S) : action S E unit := λ s, (Ok tt, f s).

Definition parse_execution_mode (mode : option string) : result ExecutionMode CronError :=
  match mode with
  | None => Ok Existing
  | Some s => if bool_decide (s = "existing") then Ok Existing else execution_mode_from_str s
  end.

Definition should_bind_success_conversation
    (execution_mode existing_conversation_id success_conversation_id : string) : bool :=
  let success_conversation_id := utrim success_conversation_id in
  bool_decide (execution_mode = execution_mode_as_str Existing) &&
  negb (bool_decide (success_conversation_id = EmptyString)) &&
  negb (bool_decide (utrim existing_conversation_id = success_conversation_id)).

(** [handle_busy] of [executor.rs]: the conversation of a scheduled run has a turn
    already. *)
Definition handle_busy (job : CronJob) : ExecutionResult :=
  if job.(cj_queue_enabled) then Skipped
  else if (job.(cj_max_retries) <=? job.(cj_retry_count))%Z then Skipped
  else Retrying (job.(cj_retry_count) + 1).

Section service.
Context `{CronJson, CronEnv}.

(** ** The repository *)

Definition db_act {A} (m : action CronDb DbError A) : action CronState CronError A := λ s,
  let '(r, d) := m s.(cs_db) in
  (match r with Ok a => Ok a | Err e => Err (Database e) end, set_cs_db d s).

(** [self.repo.update(..).await?] *)
Definition repo_update (id : string) (p : UpdateCronJobParams) : action CronState CronError unit :=
  db_act (update_cron_row id p now_ms).

(** [if let Err(e) = self.repo.update(..).await { error!(..) }] *)
Definition repo_try_update (id : string) (p : UpdateCronJobParams) (s : CronState) : CronState :=
  (repo_update id p s).2.

(** [self.repo.get_by_id(job_id).await?.ok_or_else(|| JobNotFound)?] *)
Definition load_row (job_id : string) : action CronState CronError CronJobRow := λ s,
  (ok_or (get_by_id job_id s.(cs_db)) (JobNotFound job_id), s).

(** ** Helpers *)

Definition job_mode (job : CronJob) : option string := job.(cj_agent_config) ≫= ac_mode.

Definition bind_cron_job_to_conversation (conversation_id job_id : string) (mode : option string) :
    action CronState CronError unit := λ s,
  (bind_result conversation_id job_id, ask (BindConversation conversation_id job_id mode) s).

Definition bind_existing_conversation_if_needed (job : CronJob) (s : CronState) : CronState :=
  if negb (bool_decide (job.(cj_execution_mode) = Existing)) || is_blank job.(cj_conversation_id)
  then s
  else (bind_cron_job_to_conversation job.(cj_conversation_id) job.(cj_id) (job_mode job) s).2.

(** [.and_then(Value::as_str).is_some_and(|value| !value.trim().is_empty())] *)
Definition non_blank_value (v : option json) : bool :=
  match v ≫= json_as_str with Some s => negb (is_blank s) | None => false end.

Definition is_team_conversation_job (job : CronJob) : result bool CronError :=
  let conversation_id := utrim job.(cj_conversation_id) in
  if bool_decide (conversation_id = EmptyString) then Ok false else
  match conversations !! conversation_id with
  | None => Ok false
  | Some row =>
      extra ←? ok_or (parse_value row.(cv_extra)) (Json row.(cv_extra));
      Ok (non_blank_value (opt_or (json_get "team_id" extra) (json_get "teamId" extra)))
  end.

(** [resolve_job_workspace_raw] of [executor.rs] *)
Definition resolve_job_workspace_raw (job : CronJob) : string :=
  match job.(cj_agent_config) ≫= ac_workspace with
  | Some workspace => workspace
  | None =>
      default EmptyString
        (row ← conversations !! job.(cj_conversation_id);
         extra ← parse_value row.(cv_extra);
         json_get "workspace" extra ≫= json_as_str)
  end.

Definition validate_job_workspace (job : CronJob) : result unit CronError :=
  match validate_workspace_path_availability (resolve_job_workspace_raw job) with
  | Ok _ | Err WorkspaceEmpty => Ok tt
  | Err (WorkspaceDoesNotExist path) | Err (WorkspaceNotDirectory path)
  | Err (WorkspaceNotAccessible path) => Err (WorkspacePathUnavailable path)
  end.

(** The job, without the workspace that goes with its conversation, and whether it had it *)
Definition clear_auto_workspace_from_job_config (job : CronJob) (conversation_id : string) :
    CronJob * bool :=
  match job.(cj_agent_config) with
  | None => (job, false)
  | Some config =>
      match config.(ac_workspace), auto_workspace_to_delete conversation_id with
      | Some workspace, Ok (Some path) =>
          if workspace_matches_path workspace path then
            (set_cj_agent_config (Some
               {| ac_name := config.(ac_name); ac_cli_path := config.(ac_cli_path);
                  ac_is_preset := config.(ac_is_preset);
                  ac_assistant_id := config.(ac_assistant_id);
                  ac_custom_agent_id := config.(ac_custom_agent_id);
                  ac_mode := config.(ac_mode); ac_model_id := config.(ac_model_id);
                  ac_model := config.(ac_model);
                  ac_config_options := config.(ac_config_options); ac_workspace := None |}) job,
             true)
          else (job, false)
      | _, _ => (job, false)
      end
  end.

(** ** Creating a job *)

Definition add_job_internal (req : CreateCronJobRequest) (runtime_agent_type : option string) :
    action CronState CronError CronJob :=
  let schedule := schedule_from_dto req.(cq_schedule) in
  _ ←! act_of (validate_schedule schedule);
  resolved_agent_type ←! act_of
    (match runtime_agent_type with
     | Some agent_type => Ok agent_type
     | None => resolve_new_job_agent_type catalog req.(cq_agent_config)
     end);
  _ ←! act_of (validate_aionrs_agent_config resolved_agent_type req.(cq_agent_config));
  execution_mode ←! act_of (parse_execution_mode req.(cq_execution_mode));
  created_by ←! act_of (created_by_from_str req.(cq_created_by));
  let message := default EmptyString (opt_or req.(cq_message) req.(cq_prompt)) in
  agent_config ←! act_of (opt_transpose
    (λ config, build_cron_agent_config catalog resolved_agent_type
                 (sanitize_agent_config_dto config)) req.(cq_agent_config));
  let job :=
    {| cj_id := "cron_" +:+ gen_id 0;
       cj_name := req.(cq_name);
       cj_enabled := true;
       cj_schedule := schedule;
       cj_message := message;
       cj_execution_mode := execution_mode;
       cj_agent_config := agent_config;
       cj_conversation_id := req.(cq_conversation_id);
       cj_conversation_title := req.(cq_conversation_title);
       cj_agent_type := resolved_agent_type;
       cj_created_by := created_by;
       cj_skill_content := None;
       cj_description := req.(cq_description);
       cj_created_at := now_ms;
       cj_updated_at := now_ms;
       cj_next_run_at := compute_next_run schedule now_ms;
       cj_last_run_at := None;
       cj_last_status := None;
       cj_last_error := None;
       cj_run_count := 0;
       cj_retry_count := 0;
       cj_max_retries := 3;
       cj_queue_enabled := req.(cq_queue_enabled) |} in
  _ ←! act_of (validate_job_workspace job);
  _ ←! db_act (insert_job (cron_job_to_row job));
  _ ←! act_do (bind_existing_conversation_if_needed job);
  _ ←! act_do (with_handles (schedule_job job));
  _ ←! act_do (emit (JobCreated (cron_job_to_response job)));
  act_ret job.

Definition add_job (req : CreateCronJobRequest) : action CronState CronError CronJob :=
  add_job_internal req None.

(** ** Changing a job *)

Definition build_update_params (job : CronJob) (req : UpdateCronJobRequest) : UpdateCronJobParams :=
  let '(kind, value, tz, description) := schedule_to_row_fields job.(cj_schedule) in
  let on_schedule {A} (a : A) : option A := _ ← req.(uq_schedule); Some a in
  {| up_name := req.(uq_name);
     up_enabled := req.(uq_enabled);
     up_schedule_kind := on_schedule kind;
     up_schedule_value := on_schedule value;
     up_schedule_tz := on_schedule tz;
     up_schedule_description := on_schedule description;
     up_payload_message := req.(uq_message);
     up_execution_mode := req.(uq_execution_mode);
     up_agent_config := _ ← req.(uq_agent_config);
                        config ← job.(cj_agent_config); Some (Some (config_to_json config));
     up_conversation_id := None;
     up_conversation_title := Some <$> req.(uq_conversation_title);
     up_skill_content := None;
     up_description := Some <$> req.(uq_description);
     up_next_run_at := if bool_decide (is_Some req.(uq_schedule) ∨ is_Some req.(uq_enabled))
                       then Some job.(cj_next_run_at) else None;
     up_last_run_at := None;
     up_last_status := None;
     up_last_error := None;
     up_run_count := None;
     up_retry_count := None;
     up_queue_enabled := req.(uq_queue_enabled) |}.

(** The new execution mode, if the request has one: the job, and
    [clear_conversation_binding] *)
Definition change_execution_mode (req : UpdateCronJobRequest) (job : CronJob) :
    result (CronJob * bool) CronError :=
  match req.(uq_execution_mode) with
  | None => Ok (job, false)
  | Some mode_str =>
      requested_mode ←? parse_execution_mode (Some mode_str);
      let changed := bool_decide (requested_mode ≠ job.(cj_execution_mode)) in
      team ←? (if changed then is_team_conversation_job job else Ok false);
      if team then
        Err (InvalidExecutionMode
               "Team cron jobs must keep running in their owning Team conversation")
      else
        let job' := set_cj_execution_mode requested_mode job in
        if changed && bool_decide (requested_mode = NewConversation) then
          Ok (set_cj_conversation_title None (set_cj_conversation_id EmptyString job'),
              negb (is_blank job.(cj_conversation_id)))
        else Ok (job', false)
  end.

(** The new agent configuration, if the request has one *)
Definition change_agent_config (req : UpdateCronJobRequest) (original_mode : ExecutionMode)
    (job : CronJob) : result CronJob CronError :=
  match req.(uq_agent_config) with
  | None => Ok job
  | Some config_dto =>
      if bool_decide (original_mode = Existing ∨ job.(cj_execution_mode) = Existing) then
        Err (InvalidAgentConfig "ongoing conversation jobs must keep their original assistant")
      else
        let config_dto := sanitize_agent_config_dto config_dto in
        agent_type ←? resolve_new_job_agent_type catalog (Some config_dto);
        _ ←? validate_aionrs_agent_config agent_type (Some config_dto);
        config ←? build_cron_agent_config catalog agent_type config_dto;
        Ok (set_cj_agent_config (Some config) (set_cj_agent_type agent_type job))
  end.

(** The schedule the request asks for *)
Definition change_schedule (req : UpdateCronJobRequest) (job : CronJob) : result CronJob CronError :=
  match req.(uq_schedule) with
  | None => Ok job
  | Some dto =>
      let schedule := schedule_from_dto_with_existing_timezone dto job.(cj_schedule) in
      _ ←? validate_schedule schedule;
      Ok (set_cj_schedule schedule job)
  end.

Definition update_job (job_id : string) (req : UpdateCronJobRequest) :
    action CronState CronError CronJob :=
  existing_row ←! load_row job_id;
  job ←! act_of (cron_job_from_row existing_row);
  agent_type ←! act_of (resolve_job_agent_type catalog job);
  let job := set_cj_agent_type agent_type job in
  let original_execution_mode := job.(cj_execution_mode) in
  let original_conversation_id := job.(cj_conversation_id) in
  let job := when_some req.(uq_name) set_cj_name job in
  let job := when_some req.(uq_description) (λ d, set_cj_description (Some d)) job in
  let job := when_some req.(uq_enabled) set_cj_enabled job in
  job ←! act_of (change_schedule req job);
  let job := when_some req.(uq_message) set_cj_message job in
  changed ←! act_of (change_execution_mode req job);
  let '(job, clear_conversation_binding) := changed in
  job ←! act_of (change_agent_config req original_execution_mode job);
  let job := if clear_conversation_binding then job else
             when_some req.(uq_conversation_title) (λ t, set_cj_conversation_title (Some t)) job in
  let job := when_some req.(uq_max_retries) set_cj_max_retries job in
  let job := when_some req.(uq_queue_enabled) set_cj_queue_enabled job in
  let job := if bool_decide (is_Some req.(uq_schedule) ∨ is_Some req.(uq_enabled))
             then set_cj_next_run_at (compute_next_run job.(cj_schedule) now_ms) job else job in
  let '(job, agent_config_changed) :=
    if clear_conversation_binding
    then clear_auto_workspace_from_job_config job original_conversation_id
    else (job, false) in
  let job := set_cj_updated_at now_ms job in
  _ ←! act_of (validate_job_workspace job);
  let params := build_update_params job req in
  let params := if clear_conversation_binding
                then set_up_conversation_title (Some None)
                       (set_up_conversation_id (Some EmptyString) params)
                else params in
  let params := if agent_config_changed
                then set_up_agent_config (Some (config_to_json <$> job.(cj_agent_config))) params
                else params in
  _ ←! repo_update job_id params;
  _ ←! act_do (λ s, if clear_conversation_binding
                    then ask (UnbindConversation original_conversation_id job.(cj_id)) s else s);
  _ ←! act_do (bind_existing_conversation_if_needed job);
  _ ←! act_do (with_handles (reschedule_job job));
  _ ←! act_do (emit (JobUpdated (cron_job_to_response job)));
  act_ret job.

(** ** Removing, reading, listing *)

Definition remove_job (job_id : string) : action CronState CronError unit :=
  _ ←! act_do (with_handles (cancel_job job_id));
  _ ←! act_do (ask (DeleteSkillFile job_id));
  _ ←! db_act (delete_cron_row job_id);
  act_do (emit (JobRemoved job_id)).

Definition get_job (job_id : string) : action CronState CronError CronJob :=
  row ←! load_row job_id;
  job ←! act_of (cron_job_from_row row);
  agent_type ←! act_of (resolve_job_agent_type catalog job);
  act_ret (set_cj_agent_type agent_type job).

Fixpoint jobs_of_rows (rows : list CronJobRow) : result (list CronJob) CronError :=
  match rows with
  | [] => Ok []
  | row :: rows =>
      job ←? cron_job_from_row row;
      match resolve_job_agent_type catalog job with
      | Ok agent_type =>
          jobs ←? jobs_of_rows rows;
          Ok (set_cj_agent_type agent_type job :: jobs)
      | Err (AssistantNotFound _) => jobs_of_rows rows
      | Err e => Err e
      end
  end.

Definition list_jobs (conversation_id : option string) (s : CronState) :
    result (list CronJob) CronError :=
  jobs_of_rows (match conversation_id with
                | Some conv_id => list_by_conversation conv_id s.(cs_db)
                | None => list_all s.(cs_db)
                end).

(** ** The helper a turn uses on its own conversation *)

Definition verify_conversation_helper_context (user_id conversation_id : string) :
    result CronConversation CronError :=
  if negb (is_conversation_claimed conversation_id) then
    Err (InvalidAgentConfig "cron helper can only manage jobs during an active conversation turn")
  else
    match conversations !! conversation_id with
    | Some row => if bool_decide (row.(cv_user_id) = user_id) then Ok row
                  else Err (ConversationErr (ConversationNotFound conversation_id))
    | None => Err (ConversationErr (ConversationNotFound conversation_id))
    end.

Record UpdateConversationCronRequest := MkUpdateConversationCronRequest {
  hq_name : string;
  hq_schedule : string;
  hq_schedule_description : string;
  hq_message : string;
}.

Definition list_for_conversation_helper (user_id conversation_id : string) (s : CronState) :
    result (list CronJob) CronError :=
  _ ←? verify_conversation_helper_context user_id conversation_id;
  list_jobs (Some conversation_id) s.

Definition update_for_conversation_helper (user_id conversation_id job_id : string)
    (req : UpdateConversationCronRequest) : action CronState CronError CronJob :=
  _ ←! act_of (verify_conversation_helper_context user_id conversation_id);
  existing ←! get_job job_id;
  _ ←! act_of (if bool_decide (existing.(cj_conversation_id) ≠ conversation_id)
               then Err (JobNotFound job_id) else Ok tt);
  job ←! update_job job_id
    {| uq_name := Some req.(hq_name);
       uq_description := None;
       uq_enabled := None;
       uq_schedule := Some (DtoCron req.(hq_schedule) None (Some req.(hq_schedule_description)));
       uq_message := Some req.(hq_message);
       uq_execution_mode := None;
       uq_agent_config := None;
       uq_conversation_title := None;
       uq_max_retries := None;
       uq_queue_enabled := None |};
  _ ←! bind_cron_job_to_conversation conversation_id job.(cj_id) (job_mode job);
  act_ret job.

(** ** After an execution *)

(** [UpdateCronJobParams { next_run_at: Some(next), ..Default::default() }] and the like *)
Definition next_run_params (next : option Z) : UpdateCronJobParams :=
  set_up_next_run_at (Some next) no_changes.

Definition disable_params : UpdateCronJobParams :=
  set_up_enabled (Some false) (set_up_next_run_at (Some None) no_changes).

(** [retry_count: Some(0)] comes with every status. *)
Definition status_params (last_run_at : option (option Z)) (status : string)
    (last_error : option (option string)) (run_count : option Z) (conversation_id : option string) :
    UpdateCronJobParams :=
  set_up_last_run_at last_run_at (set_up_last_status (Some (Some status))
    (set_up_last_error last_error (set_up_retry_count (Some 0%Z) (set_up_run_count run_count
      (set_up_conversation_id conversation_id no_changes))))).

Definition retry_count_params (attempt : Z) : UpdateCronJobParams :=
  set_up_retry_count (Some attempt) no_changes.

Definition conversation_id_params (conversation_id : string) : UpdateCronJobParams :=
  set_up_conversation_id (Some conversation_id) no_changes.

Definition skill_content_params (content : option string) : UpdateCronJobParams :=
  set_up_skill_content (Some content) no_changes.

Definition agent_config_params (config : string) : UpdateCronJobParams :=
  set_up_agent_config (Some (Some config)) no_changes.

Definition is_at (schedule : CronSchedule) : bool :=
  match schedule with At _ _ => true | _ => false end.

Definition reschedule_after_execution (job : CronJob) (scheduled_at : Z) (s : CronState) :
    CronState :=
  match get_recoverable_run job.(cj_id) now_ms s.(cs_db) with
  | Some run =>
      with_handles (schedule_retry job.(cj_id) run.(rc_scheduled_at) run.(rc_wake_at)) s
  | None =>
      if is_at job.(cj_schedule) then
        let s := repo_try_update job.(cj_id) disable_params s in
        let s := with_handles (cancel_job job.(cj_id)) s in
        let disabled := set_cj_next_run_at None (set_cj_enabled false job) in
        emit (JobUpdated (cron_job_to_response disabled)) s
      else
        let next := compute_next_run_after_occurrence job.(cj_schedule) scheduled_at now_ms in
        let s := repo_try_update job.(cj_id) (next_run_params next) s in
        with_handles (reschedule_job (set_cj_next_run_at next job)) s
  end.

Definition finish_scheduled_run (job_id : string) (scheduled_at : Z) (status : string)
    (conversation_id error : option string) (s : CronState) : bool * CronState :=
  let '(r, d) := finish_run {| fp_job_id := job_id;
                               fp_scheduled_at := scheduled_at;
                               fp_owner_id := instance_id;
                               fp_status := status;
                               fp_conversation_id := conversation_id;
                               fp_error := error;
                               fp_finished_at := now_ms |} s.(cs_db) in
  (match r with Ok owned => owned | Err _ => false end, set_cs_db d s).

Definition update_job_after_success (job_id conversation_id : string) (s : CronState) : CronState :=
  match get_by_id job_id s.(cs_db) with
  | None => s
  | Some existing_row =>
      let needs_conversation_bind :=
        should_bind_success_conversation existing_row.(jr_execution_mode)
          existing_row.(jr_conversation_id) conversation_id in
      let params := status_params (Some (Some now_ms)) "ok" (Some None)
                      (Some (existing_row.(jr_run_count) + 1)%Z)
                      (if needs_conversation_bind then Some conversation_id else None) in
      match repo_update job_id params s with
      | (Err _, s) => s
      | (Ok _, s) =>
          if needs_conversation_bind
          then (bind_cron_job_to_conversation conversation_id job_id None s).2 else s
      end
  end.

Definition update_job_after_error (job_id message : string) (s : CronState) : CronState :=
  match get_by_id job_id s.(cs_db) with
  | None => s
  | Some row =>
      repo_try_update job_id
        (status_params (Some (Some now_ms)) "error" (Some (Some message))
           (Some (row.(jr_run_count) + 1)%Z) None) s
  end.

Definition service_schedule_retry (job_id : string) (scheduled_at : Z) (s : CronState) :
    bool * CronState :=
  let next_run := (now_ms + RETRY_INTERVAL_MS)%Z in
  let '(deferred, d) := defer_run job_id scheduled_at instance_id next_run now_ms s.(cs_db) in
  let s := set_cs_db d s in
  if deferred then (true, with_handles (schedule_retry job_id scheduled_at next_run) s)
  else (false, s).

Definition handle_execution_result (job : CronJob) (scheduled_at : Z) (r : ExecutionResult)
    (s : CronState) : CronState :=
  let job_id := job.(cj_id) in
  match r with
  | Success conversation_id =>
      let '(owned, s) := finish_scheduled_run job_id scheduled_at "ok" (Some conversation_id) None s in
      if negb owned then s else
      let s := update_job_after_success job_id conversation_id s in
      let s := reschedule_after_execution job scheduled_at s in
      emit (JobExecuted job_id "ok" None) s
  | Retrying attempt =>
      let '(owned, s) := service_schedule_retry job_id scheduled_at s in
      if negb owned then s else repo_try_update job_id (retry_count_params attempt) s
  | Skipped =>
      let '(owned, s) := finish_scheduled_run job_id scheduled_at "skipped" None None s in
      if negb owned then s else
      let s := repo_try_update job_id (status_params None "skipped" None None None) s in
      let s := reschedule_after_execution job scheduled_at s in
      emit (JobExecuted job_id "skipped" None) s
  | ExecError message =>
      let '(owned, s) := finish_scheduled_run job_id scheduled_at "error" None (Some message) s in
      if negb owned then s else
      let s := update_job_after_error job_id message s in
      let s := reschedule_after_execution job scheduled_at s in
      emit (JobExecuted job_id "error" (Some message)) s
  end.

(** ** Ticks *)

(** [tick] up to the claim: the job, when the occurrence is claimed and to be executed *)
Definition tick_claim (job_id : string) (scheduled_at : Z) (s : CronState) :
    option CronJob * CronState :=
  match get_by_id job_id s.(cs_db) with
  | None => (None, with_handles (cancel_job job_id) s)
  | Some row =>
      match cron_job_from_row row with
      | Err _ => (None, s)
      | Ok job =>
          match resolve_job_agent_type catalog job with
          | Err _ => (None, s)
          | Ok agent_type =>
              let job := set_cj_agent_type agent_type job in
              if negb job.(cj_enabled) then (None, s) else
              let '(claim, d) :=
                claim_run ("cron_run_" +:+ gen_id 0)
                  {| cl_job_id := job_id;
                     cl_scheduled_at := scheduled_at;
                     cl_owner_id := instance_id;
                     cl_now := now_ms;
                     cl_lease_until := now_ms + RUN_LEASE_MS;
                     cl_queue_enabled := job.(cj_queue_enabled) |} s.(cs_db) in
              let s := set_cs_db d s in
              match claim with
              | Ok Claimed => (Some job, s)
              | Ok Duplicate =>
                  (None,
                   match get_recoverable_run job_id now_ms s.(cs_db) with
                   | Some run =>
                       with_handles (schedule_retry job_id run.(rc_scheduled_at) run.(rc_wake_at)) s
                   | None => reschedule_after_execution job scheduled_at s
                   end)
              | Ok QueueBusy =>
                  let s := repo_try_update job.(cj_id) (status_params None "skipped" None None None) s in
                  let s := reschedule_after_execution job scheduled_at s in
                  (None, emit (JobExecuted job_id "skipped" None) s)
              | Err _ => (None, s)
              end
          end
      end
  end.

(** One beat of [spawn_run_lease_heartbeat], while the run is executed *)
Definition heartbeat (job_id : string) (scheduled_at : Z) (s : CronState) : bool * CronState :=
  let '(renewed, d) := renew_run_lease job_id scheduled_at instance_id (now_ms + RUN_LEASE_MS)
                         now_ms s.(cs_db) in
  (renewed, set_cs_db d s).

Definition bind_materialized_existing_conversation_if_needed (job : CronJob)
    (conversation_id : string) : action CronState CronError CronJob :=
  let conversation_id := utrim conversation_id in
  if negb (bool_decide (job.(cj_execution_mode) = Existing)) ||
     bool_decide (conversation_id = EmptyString) ||
     bool_decide (utrim job.(cj_conversation_id) = conversation_id)
  then act_ret job
  else
    _ ←! repo_update job.(cj_id) (conversation_id_params conversation_id);
    _ ←! bind_cron_job_to_conversation conversation_id job.(cj_id) (job_mode job);
    act_ret (set_cj_conversation_id conversation_id job).

(** [tick] once the executor has answered [prepare_scheduled]: the job to execute in the
    prepared conversation, when there is one *)
Definition tick_bind (job : CronJob) (scheduled_at : Z) (prepared : ExecutionResult + string)
    (s : CronState) : option CronJob * CronState :=
  match prepared with
  | inl result => (None, handle_execution_result job scheduled_at result s)
  | inr conversation_id =>
      match bind_materialized_existing_conversation_if_needed job conversation_id s with
      | (Ok execution_job, s) => (Some execution_job, s)
      | (Err err, s) =>
          (None, handle_execution_result job scheduled_at
                   (ExecError (cron_error_to_string sqlx_text err)) s)
      end
  end.

(** A tick nothing interrupts: [prepare] and [execute] are the answers of the executor. *)
Definition tick (prepare : CronJob → ExecutionResult + string)
    (execute : CronJob → ExecutionResult) (job_id : string) (scheduled_at : Z) (s : CronState) :
    CronState :=
  match tick_claim job_id scheduled_at s with
  | (None, s) => s
  | (Some job, s) =>
      match tick_bind job scheduled_at (prepare job) s with
      | (None, s) => s
      | (Some job, s) => handle_execution_result job scheduled_at (execute job) s
      end
  end.

(** ** Start, wake-up, run now *)

Definition init_row (s : CronState) (row : CronJobRow) : CronState :=
  match cron_job_from_row row with
  | Err _ => s
  | Ok job =>
      match get_recoverable_run job.(cj_id) now_ms s.(cs_db) with
      | Some run =>
          with_handles (schedule_retry job.(cj_id) run.(rc_scheduled_at) run.(rc_wake_at)) s
      | None => with_handles (schedule_job job) s
      end
  end.

Definition init (s : CronState) : CronState :=
  let d := (cleanup_runs_before (now_ms - RUN_HISTORY_RETENTION_MS) s.(cs_db)).2 in
  let s := set_cs_db d s in
  foldl init_row s (list_enabled s.(cs_db)).

Definition record_missed_execution (job : CronJob) (s : CronState) : CronState :=
  repo_try_update job.(cj_id) (status_params None "missed" (Some None) None None) s.

Definition missed_text (name : string) : string :=
  "Scheduled task " +:+ String (Ascii.ascii_of_nat 34) (name +:+ String (Ascii.ascii_of_nat 34)
  " was missed while the system was unavailable. It was not run automatically.").

Definition insert_missed_job_tips (job : CronJob) (s : CronState) : CronState :=
  if is_blank job.(cj_conversation_id) then s else
  let content := missed_text job.(cj_name) in
  let s := ask (InsertTips job.(cj_conversation_id) content "warning") s in
  match insert_tips_result job.(cj_conversation_id) content with
  | Ok _ => emit (ConversationTips job.(cj_conversation_id) content "warning") s
  | Err _ => s
  end.

Definition reschedule_after_missed (job : CronJob) (s : CronState) : CronState :=
  if is_at job.(cj_schedule) then
    let s := repo_try_update job.(cj_id) disable_params s in
    with_handles (cancel_job job.(cj_id)) s
  else
    let next := compute_next_run job.(cj_schedule) now_ms in
    match repo_update job.(cj_id) (next_run_params next) s with
    | (Err _, s) => s
    | (Ok _, s) => with_handles (reschedule_job (set_cj_next_run_at next job)) s
    end.

Definition resume_row (s : CronState) (row : CronJobRow) : CronState :=
  match cron_job_from_row row with
  | Err _ => s
  | Ok job =>
      match get_recoverable_run job.(cj_id) now_ms s.(cs_db) with
      | Some run =>
          with_handles (schedule_retry job.(cj_id) run.(rc_scheduled_at) run.(rc_wake_at)) s
      | None =>
          if match job.(cj_next_run_at) with Some next_run => (next_run <? now_ms)%Z | None => false end
          then
            let s := record_missed_execution job s in
            let s := insert_missed_job_tips job s in
            let s := reschedule_after_missed job s in
            emit (JobExecuted job.(cj_id) "missed" None) s
          else with_handles (reschedule_job job) s
      end
  end.

Definition handle_system_resume (s : CronState) : CronState :=
  foldl resume_row s (list_enabled s.(cs_db)).

(** [run_now] up to the spawned task: the job to execute, and the conversation the answer
    names; [prepare] is the answer of [prepare_run_now], [inl] when the conversation has a
    turn already. *)
Definition run_now (prepare : CronJob → result (string + string) CronError) (job_id : string) :
    action CronState CronError (option CronJob * string) :=
  row ←! load_row job_id;
  job ←! act_of (cron_job_from_row row);
  agent_type ←! act_of (resolve_job_agent_type catalog job);
  let job := set_cj_agent_type agent_type job in
  prepared ←! act_of (prepare job);
  match prepared with
  | inl conversation_id => act_ret (None, conversation_id)
  | inr conversation_id =>
      job ←! bind_materialized_existing_conversation_if_needed job conversation_id;
      act_ret (Some job, conversation_id)
  end.

Definition handle_run_now_result (job_id : string) (r : ExecutionResult) (s : CronState) :
    CronState :=
  match r with
  | Success conversation_id =>
      emit (JobExecuted job_id "ok" None) (update_job_after_success job_id conversation_id s)
  | ExecError message =>
      emit (JobExecuted job_id "error" (Some message)) (update_job_after_error job_id message s)
  | Retrying attempt => repo_try_update job_id (retry_count_params attempt) s
  | Skipped =>
      emit (JobExecuted job_id "skipped" None)
        (repo_try_update job_id (status_params None "skipped" None None None) s)
  end.

(** ** Skills *)

Definition PLACEHOLDER_PATTERNS : list string :=
  ["todo:"; "todo "; "fill in"; "placeholder"; "replace this"; "your "; "insert "; "add your";
   "write your"; "put your"].

Definition validate_skill_body_content (content : string) : result unit CronError :=
  let trimmed := utrim content in
  if bool_decide (trimmed = EmptyString) then
    Err (InvalidSkillContent "content must not be empty")
  else if existsb (λ pattern, String.prefix pattern (to_lowercase trimmed)) PLACEHOLDER_PATTERNS then
    Err (InvalidSkillContent "content appears to be placeholder text")
  else Ok tt.

Definition save_skill (job_id content : string) : action CronState CronError unit :=
  row ←! load_row job_id;
  _ ←! act_of (validate_skill_body_content content);
  job ←! act_of (cron_job_from_row row);
  _ ←! act_do (ask (PersistSkill job.(cj_id) content));
  _ ←! act_of (persist_skill_file job content);
  _ ←! repo_update job_id (skill_content_params (Some content));
  _ ←! act_do (ask (MarkSkillSaved job_id));
  act_of (mark_skill_saved_result job_id).

Definition has_skill (job_id : string) (s : CronState) : result bool CronError :=
  row ←? ok_or (get_by_id job_id s.(cs_db)) (JobNotFound job_id);
  on_disk ←? has_skill_file job_id;
  Ok (on_disk || match row.(jr_skill_content) with Some c => negb (is_blank c) | None => false end).

Definition delete_skill (job_id : string) : action CronState CronError unit :=
  _ ←! load_row job_id;
  _ ←! act_do (ask (DeleteSkillFile job_id));
  _ ←! act_of (delete_skill_file job_id);
  repo_update job_id (skill_content_params None).

(** ** A conversation is deleted *)

Definition clear_workspace_row (workspace_to_clear : string) (s : CronState) (row : CronJobRow) :
    CronState :=
  match row.(jr_agent_config) with
  | None => s
  | Some config_json =>
      match config_of_json config_json with
      | Err _ => s
      | Ok config =>
          match config.(ac_workspace) with
          | Some workspace =>
              if workspace_matches_path workspace workspace_to_clear then
                let config :=
                  {| ac_name := config.(ac_name); ac_cli_path := config.(ac_cli_path);
                     ac_is_preset := config.(ac_is_preset);
                     ac_assistant_id := config.(ac_assistant_id);
                     ac_custom_agent_id := config.(ac_custom_agent_id);
                     ac_mode := config.(ac_mode); ac_model_id := config.(ac_model_id);
                     ac_model := config.(ac_model);
                     ac_config_options := config.(ac_config_options); ac_workspace := None |} in
                repo_try_update row.(jr_id) (agent_config_params (config_to_json config)) s
              else s
          | None => s
          end
      end
  end.

Definition delete_jobs_by_conversation (conversation_id : string) (s : CronState) : CronState :=
  match auto_workspace_to_delete conversation_id with
  | Ok (Some workspace_to_clear) =>
      foldl (clear_workspace_row workspace_to_clear) s (list_by_conversation conversation_id s.(cs_db))
  | _ => s
  end.
End service.
