(* ===== verification/CronServiceProps.v ===== *)
(** * Scheduled jobs: what holds of the service

    Every method of the service changes the tables by methods of the repository
    ([steps]): that is how the invariant of the tables and the readability of every row
    carry over to whatever the service does, in any order and from any number of processes. *)
From Stdlib Require Import String.
From S2P Require Import Prelude Text Storage CronTypes CronTimer CronRuns CronRunsProps CronAgents.
From S2P Require Import CronService.

(** ** Readable rows *)

Section rows.
Context `{CronJson}.

Definition config_from_row (s : string) : result CronAgentConfig CronError :=
  match config_of_json s with Ok c => Ok c | Err e => Err (Json e) end.

Definition row_parses (row : CronJobRow) : Prop :=
  is_ok (parse_schedule row.(jr_schedule_kind) row.(jr_schedule_value) row.(jr_schedule_tz)
           row.(jr_schedule_description)) ∧
  is_ok (execution_mode_from_str row.(jr_execution_mode)) ∧
  is_ok (created_by_from_str row.(jr_created_by)) ∧
  is_ok (opt_transpose config_from_row row.(jr_agent_config)) ∧
  is_ok (opt_transpose job_status_from_str row.(jr_last_status)).

Lemma row_parses_job row : row_parses row ↔ is_ok (cron_job_from_row row).
Proof.
  unfold row_parses, cron_job_from_row. change (λ s, match config_of_json s with
    | Ok c => Ok c | Err e => Err (Json e) end) with config_from_row.
  destruct (parse_schedule _ _ _ _); cbn [result_bind is_ok]; [|naive_solver].
  destruct (execution_mode_from_str _); cbn [result_bind is_ok]; [|naive_solver].
  destruct (created_by_from_str _); cbn [result_bind is_ok]; [|naive_solver].
  destruct (opt_transpose config_from_row _); cbn [result_bind is_ok]; [|naive_solver].
  destruct (opt_transpose job_status_from_str _); cbn [result_bind is_ok]; naive_solver.
Qed.

(** The time zone and the description do not matter. *)
Lemma parse_schedule_ok kind value tz d tz' d' :
  is_ok (parse_schedule kind value tz d) → is_ok (parse_schedule kind value tz' d').
Proof.
  unfold parse_schedule. repeat case_bool_decide; try done; by destruct (parse_i64 value).
Qed.

(** ** Operations that keep the rows readable *)

Definition good_params (p : UpdateCronJobParams) : Prop :=
  ((p.(up_schedule_kind) = None ∧ p.(up_schedule_value) = None) ∨
   ∃ sch kind value tz d, schedule_in_range sch ∧
     schedule_to_row_fields sch = (kind, value, tz, d) ∧
     p.(up_schedule_kind) = Some kind ∧ p.(up_schedule_value) = Some value) ∧
  (∀ m, p.(up_execution_mode) = Some m → is_ok (execution_mode_from_str m)) ∧
  (∀ c, p.(up_agent_config) = Some c → is_ok (opt_transpose config_from_row c)) ∧
  (∀ st, p.(up_last_status) = Some st → is_ok (opt_transpose job_status_from_str st)).

Definition good_op (op : CronOp) : Prop :=
  finish_status_ok op ∧
  match op with
  | OpInsert row => row_parses row
  | OpUpdate _ p _ => good_params p
  | _ => True
  end.

Definition db_inv (d : CronDb) : Prop :=
  cron_db_ok d ∧ ∀ id row, d.(cd_jobs) !! id = Some row → row.(jr_id) = id ∧ row_parses row.

Lemma default_ok {A} (P : A → Prop) (a : A) o :
  P a → (∀ b, o = Some b → P b) → P (default a o).
Proof. destruct o; cbn; auto. Qed.

Lemma apply_params_parses p now row :
  good_params p → row_parses row → row_parses (apply_params p now row).
Proof.
  intros (Hs & Hm & Hc & Hst) (Rs & Rm & Rb & Rc & Rst). unfold row_parses, apply_params. cbn.
  split_and!; [|apply (default_ok (λ m, is_ok (execution_mode_from_str m)))|done|
               apply (default_ok (λ c, is_ok (opt_transpose config_from_row c)))|
               apply (default_ok (λ st, is_ok (opt_transpose job_status_from_str st)))]; [|done..].
  destruct Hs as [[-> ->]|(sch & k & v & tz & d & Hr & Hf & -> & ->)]; cbn.
  - by eapply parse_schedule_ok.
  - eapply parse_schedule_ok. by rewrite (parse_schedule_row_fields _ _ _ _ _ Hr Hf).
Qed.

Lemma run_op_other_jobs d op :
  match op with OpInsert _ | OpUpdate _ _ _ | OpDelete _ => False | _ => True end →
  (run_op d op).(cd_jobs) = d.(cd_jobs).
Proof.
  destruct op; cbn [run_op]; try done; intros _;
    [apply claim_run_jobs|apply update_owned_run_jobs|apply update_owned_run_jobs|
     apply finish_run_jobs].
Qed.

Lemma good_op_inv d op : good_op op → db_inv d → db_inv (run_op d op).
Proof.
  intros [Hf Hop] [Hd Hrows]. split; [by apply run_op_ok|]. intros id row.
  destruct op as [row'|id' p now|id'| | | | | ]; try (rewrite run_op_other_jobs by done; apply Hrows);
    cbn [run_op].
  - unfold insert_job. destruct (cd_jobs d !! jr_id row'); [by apply Hrows|].
    destruct (job_row_ok row'); [|by apply Hrows]. cbn.
    rewrite lookup_insert_Some. intros [[<- <-]|[_ ?]]; [done|by apply Hrows].
  - unfold update_cron_row. destruct (is_no_changes p); [by apply Hrows|].
    destruct (cd_jobs d !! id') as [row0|] eqn:Hrow0; [|by apply Hrows].
    destruct (job_row_ok _); [|by apply Hrows]. cbn.
    rewrite lookup_insert_Some. intros [[<- <-]|[_ ?]]; [|by apply Hrows].
    destruct (Hrows _ _ Hrow0). split; [done|by apply apply_params_parses].
  - unfold delete_cron_row. destruct (cd_jobs d !! id'); [|by apply Hrows]. cbn.
    intros [_ ?]%lookup_delete_Some. by apply Hrows.
Qed.

(** ** Steps of the service as operations of the repository *)

Definition steps (s s' : CronState) : Prop :=
  ∃ ops, Forall good_op ops ∧ s'.(cs_db) = run_ops ops s.(cs_db).

#[global] Instance steps_refl : Reflexive steps.
Proof. intros s. by exists []. Qed.

#[global] Instance steps_trans : Transitive steps.
Proof.
  intros s1 s2 s3 (l1 & H1 & E1) (l2 & H2 & E2). exists (l1 ++ l2).
  split; [by apply Forall_app|]. unfold run_ops in *. rewrite foldl_app. congruence.
Qed.

Lemma steps_inv s s' : steps s s' → db_inv s.(cs_db) → db_inv s'.(cs_db).
Proof.
  intros (ops & Hops & ->) Hd.
  apply (foldl_inv run_op (λ l d, Forall good_op l ∧ db_inv d)); [|done].
  intros op l d [[Hop Hl]%Forall_cons Hinv]. auto using good_op_inv.
Qed.

Lemma steps_same s s' : s'.(cs_db) = s.(cs_db) → steps s s'.
Proof. intros Hs. by exists []. Qed.

Lemma steps_op s s' op : good_op op → s'.(cs_db) = run_op s.(cs_db) op → steps s s'.
Proof. intros Hop Hs. exists [op]. split; [by constructor|done]. Qed.

Lemma steps_foldl {A} (f : CronState → A → CronState) l s :
  (∀ s a, steps s (f s a)) → steps s (foldl f s l).
Proof.
  intros Hf. revert s. induction l as [|a l IH]; intros s; [done|]. cbn.
  etrans; [apply Hf|apply IH].
Qed.

(** A method that goes by such steps, and what its answer satisfies *)
Definition act_post {A} (m : action CronState CronError A) (Q : A → Prop) : Prop :=
  ∀ s, steps s (m s).2 ∧ match (m s).1 with Ok a => Q a | Err _ => True end.

Lemma act_post_bind {A B} (m : action CronState CronError A) (k : A → action CronState CronError B)
    (P : A → Prop) (Q : B → Prop) :
  act_post m P → (∀ a, P a → act_post (k a) Q) → act_post (act_bind m k) Q.
Proof.
  intros Hm Hk s. unfold act_bind. destruct (Hm s) as [Hs Ha].
  destruct (m s) as [[a|e] s']; cbn in *; [|done].
  destruct (Hk a Ha s') as [Hs' Hb]. split; [by etrans|done].
Qed.

Lemma act_post_ret {A} (a : A) (Q : A → Prop) : Q a → act_post (act_ret a) Q.
Proof. intros Ha s. by split. Qed.

Lemma act_post_of {A} (r : result A CronError) (Q : A → Prop) :
  (∀ a, r = Ok a → Q a) → act_post (act_of r) Q.
Proof. intros Hr s. split; [done|]. cbn. destruct r; [by apply Hr|done]. Qed.

Lemma act_post_do (f : CronState → CronState) (Q : unit → Prop) :
  (∀ s, steps s (f s)) → Q tt → act_post (act_do f) Q.
Proof. intros Hf Hq s. by split; [apply Hf|]. Qed.

Lemma act_post_weaken {A} (m : action CronState CronError A) (P Q : A → Prop) :
  act_post m P → (∀ a, P a → Q a) → act_post m Q.
Proof. intros Hm HPQ s. destruct (Hm s) as [Hs Ha]. split; [done|]. destruct (m s).1; auto. Qed.
End rows.

Section service.
Context `{CronJson, CronEnv}.

(** ** Parameters *)

Lemma good_params_plain p :
  p.(up_schedule_kind) = None → p.(up_schedule_value) = None → p.(up_execution_mode) = None →
  p.(up_agent_config) = None →
  (p.(up_last_status) = None ∨ ∃ st, p.(up_last_status) = Some (Some (job_status_as_str st))) →
  good_params p.
Proof.
  intros Hk Hv Hm Hc Hst. split; [by left|]. rewrite Hm, Hc. split_and!; [done|done|].
  intros st' Hst'. destruct Hst as [Hst|[st Hst]]; rewrite Hst in Hst'; [done|].
  apply (inj Some) in Hst' as <-. cbn. by rewrite job_status_round_trip.
Qed.

Lemma good_next_run next : good_params (next_run_params next).
Proof. by apply good_params_plain; auto. Qed.
Lemma good_disable : good_params disable_params.
Proof. by apply good_params_plain; auto. Qed.
Lemma good_retry_count n : good_params (retry_count_params n).
Proof. by apply good_params_plain; auto. Qed.
Lemma good_conversation_id c : good_params (conversation_id_params c).
Proof. by apply good_params_plain; auto. Qed.
Lemma good_skill_content c : good_params (skill_content_params c).
Proof. by apply good_params_plain; auto. Qed.
Lemma good_status t st e n c : good_params (status_params t (job_status_as_str st) e n c).
Proof. by apply good_params_plain; eauto. Qed.
Lemma good_agent_config c : good_params (agent_config_params (config_to_json c)).
Proof.
  split; [by left|]. split_and!; [done| |done]. intros c' Hc'.
  apply (inj Some) in Hc' as <-. cbn. unfold config_from_row. by rewrite config_of_to_json.
Qed.

(** ** Methods *)

Lemma steps_update id p s : good_params p → steps s (repo_update id p s).2.
Proof.
  intros Hp. apply (steps_op _ _ (OpUpdate id p now_ms)); [by split|].
  unfold repo_update, db_act. cbn. by destruct (update_cron_row id p now_ms (cs_db s)).
Qed.

Lemma steps_try_update id p s : good_params p → steps s (repo_try_update id p s).
Proof. apply steps_update. Qed.

Lemma act_post_update id p : good_params p → act_post (repo_update id p) (λ _, True).
Proof. intros Hp s. split; [by apply steps_update|]. by destruct (repo_update id p s).1. Qed.

Lemma steps_finish j t st c e s :
  st ∈ ["ok"; "error"; "skipped"] → steps s (finish_scheduled_run j t st c e s).2.
Proof.
  intros Hst. unfold finish_scheduled_run.
  eapply (steps_op _ _ (OpFinish {| fp_job_id := j; fp_scheduled_at := t;
    fp_owner_id := instance_id; fp_status := st; fp_conversation_id := c; fp_error := e;
    fp_finished_at := now_ms |})); [by split|].
  cbn [run_op]. by destruct (finish_run _ (cs_db s)).
Qed.

Lemma steps_schedule_retry j t s : steps s (service_schedule_retry j t s).2.
Proof.
  unfold service_schedule_retry.
  apply (steps_op _ _ (OpDefer j t instance_id (now_ms + RETRY_INTERVAL_MS) now_ms)); [by split|].
  cbn [run_op]. by destruct (defer_run _ _ _ _ _ (cs_db s)) as [[] d].
Qed.

Lemma steps_heartbeat j t s : steps s (heartbeat j t s).2.
Proof.
  unfold heartbeat.
  apply (steps_op _ _ (OpRenew j t instance_id (now_ms + RUN_LEASE_MS) now_ms)); [by split|].
  cbn [run_op]. by destruct (renew_run_lease _ _ _ _ _ (cs_db s)) as [[] d].
Qed.

Lemma steps_reschedule job t s : steps s (reschedule_after_execution job t s).
Proof.
  unfold reschedule_after_execution. destruct (get_recoverable_run _ _ _) as [run|];
    [by apply steps_same|].
  destruct (is_at _).
  - etrans; [apply (steps_try_update (cj_id job)), good_disable|]. by apply steps_same.
  - etrans; [apply (steps_try_update (cj_id job)), good_next_run|]. by apply steps_same.
Qed.

Lemma steps_after_success j c s : steps s (update_job_after_success j c s).
Proof.
  unfold update_job_after_success. destruct (get_by_id j (cs_db s)) as [row|]; [|done].
  match goal with |- context [repo_update j ?p s] => set (q := p) end.
  pose proof (steps_update j q s (good_status _ StatusOk _ _ _)) as Hq.
  destruct (repo_update j q s) as [[u|e] s'] eqn:Hu; cbn [snd] in Hq; [|done].
  destruct (should_bind_success_conversation _ _ _); [|done].
  etrans; [exact Hq|]. by apply steps_same.
Qed.

Lemma steps_after_error j m s : steps s (update_job_after_error j m s).
Proof.
  unfold update_job_after_error. destruct (get_by_id j (cs_db s)) as [row|]; [|done].
  apply steps_try_update, (good_status _ StatusError).
Qed.

Lemma steps_result job t r s : steps s (handle_execution_result job t r s).
Proof.
  destruct r as [c|n| |m]; cbn [handle_execution_result].
  - pose proof (steps_finish (cj_id job) t "ok" (Some c) None s
      ltac:(by apply (bool_decide_unpack _))) as Hf.
    destruct (finish_scheduled_run _ _ _ _ _ s) as [owned s']. destruct owned; [|done].
    cbn [negb snd] in *. etrans; [exact Hf|]. etrans; [apply steps_after_success|].
    etrans; [apply steps_reschedule|]. by apply steps_same.
  - pose proof (steps_schedule_retry (cj_id job) t s) as Hf.
    destruct (service_schedule_retry _ _ s) as [owned s']. destruct owned; [|done].
    cbn [negb snd] in *. etrans; [exact Hf|]. apply steps_try_update, good_retry_count.
  - pose proof (steps_finish (cj_id job) t "skipped" None None s
      ltac:(by apply (bool_decide_unpack _))) as Hf.
    destruct (finish_scheduled_run _ _ _ _ _ s) as [owned s']. destruct owned; [|done].
    cbn [negb snd] in *. etrans; [exact Hf|].
    etrans; [apply steps_try_update, (good_status None StatusSkipped)|].
    etrans; [apply steps_reschedule|]. by apply steps_same.
  - pose proof (steps_finish (cj_id job) t "error" None (Some m) s
      ltac:(by apply (bool_decide_unpack _))) as Hf.
    destruct (finish_scheduled_run _ _ _ _ _ s) as [owned s']. destruct owned; [|done].
    cbn [negb snd] in *. etrans; [exact Hf|]. etrans; [apply steps_after_error|].
    etrans; [apply steps_reschedule|]. by apply steps_same.
Qed.

Lemma steps_tick_claim j t s : steps s (tick_claim j t s).2.
Proof.
  unfold tick_claim. destruct (get_by_id j (cs_db s)) as [row|]; [|by apply steps_same].
  destruct (cron_job_from_row row) as [job|]; [|done].
  destruct (resolve_job_agent_type catalog job) as [agent_type|]; [|done].
  destruct (negb _); [done|].
  match goal with |- context [claim_run ?i ?p _] => set (rid := i); set (cp := p) end.
  assert (steps s (set_cs_db (claim_run rid cp (cs_db s)).2 s)) as Hc
    by (by apply (steps_op _ _ (OpClaim rid cp))).
  destruct (claim_run rid cp (cs_db s)) as [[[]|e] d]; cbn [snd] in *; [done| | |done].
  - etrans; [exact Hc|].
    destruct (get_recoverable_run _ _ _); [by apply steps_same|apply steps_reschedule].
  - etrans; [exact Hc|]. etrans; [apply steps_try_update, (good_status None StatusSkipped)|].
    etrans; [apply steps_reschedule|]. by apply steps_same.
Qed.

Lemma act_post_bind_materialized job c :
  act_post (bind_materialized_existing_conversation_if_needed job c) (λ _, True).
Proof.
  unfold bind_materialized_existing_conversation_if_needed. destruct (_ || _);
    [by apply act_post_ret|].
  eapply act_post_bind; [apply act_post_update, good_conversation_id|]. intros _ _.
  eapply (act_post_bind _ _ (λ _, True)); [|by intros; apply act_post_ret].
  intros s. split; [by apply steps_same|]. by destruct (bind_cron_job_to_conversation _ _ _ s).1.
Qed.

Lemma steps_tick_bind job t prepared s : steps s (tick_bind job t prepared s).2.
Proof.
  unfold tick_bind. destruct prepared as [r|c]; [apply steps_result|].
  pose proof (proj1 (act_post_bind_materialized job c s)) as Hb.
  destruct (bind_materialized_existing_conversation_if_needed job c s) as [[job'|e] s'];
    cbn [snd] in *; [done|]. etrans; [exact Hb|apply steps_result].
Qed.

Lemma steps_init s : steps s (init s).
Proof.
  unfold init. etrans; [|apply steps_foldl].
  - apply (steps_op _ _ (OpCleanup (now_ms - RUN_HISTORY_RETENTION_MS))); [by split|done].
  - intros s' row. apply steps_same. unfold init_row.
    destruct (cron_job_from_row row) as [job|]; [|done].
    by destruct (get_recoverable_run _ _ _).
Qed.

Lemma steps_resume s : steps s (handle_system_resume s).
Proof.
  apply steps_foldl. intros s' row. unfold resume_row.
  destruct (cron_job_from_row row) as [job|]; [|done].
  destruct (get_recoverable_run _ _ _); [by apply steps_same|].
  match goal with |- context [if ?b then _ else _] => destruct b end; [|by apply steps_same].
  unfold record_missed_execution.
  match goal with |- context [insert_missed_job_tips job ?s1] => set (s1' := s1) end.
  trans s1'; [apply steps_try_update, (good_status None StatusMissed)|]. clearbody s1'.
  trans (reschedule_after_missed job (insert_missed_job_tips job s1')); [|by apply steps_same].
  trans (insert_missed_job_tips job s1').
  - apply steps_same. unfold insert_missed_job_tips. destruct (is_blank _); [done|].
    by destruct (insert_tips_result _ _).
  - unfold reschedule_after_missed. destruct (is_at _).
    + etrans; [apply (steps_try_update (cj_id job)), good_disable|]. by apply steps_same.
    + pose proof (steps_update (cj_id job)
        (next_run_params (compute_next_run (cj_schedule job) now_ms))
        (insert_missed_job_tips job s1') (good_next_run _)) as Hu.
      destruct (repo_update _ _ (insert_missed_job_tips job s1')) as [[]]; cbn [snd] in *; [|done].
      etrans; [exact Hu|]. by apply steps_same.
Qed.

Lemma steps_run_now_result j r s : steps s (handle_run_now_result j r s).
Proof.
  destruct r; cbn [handle_run_now_result].
  - etrans; [apply steps_after_success|]. by apply steps_same.
  - apply steps_try_update, good_retry_count.
  - etrans; [apply (steps_try_update j), (good_status None StatusSkipped)|]. by apply steps_same.
  - etrans; [apply steps_after_error|]. by apply steps_same.
Qed.

Lemma steps_delete_conversation c s : steps s (delete_jobs_by_conversation c s).
Proof.
  unfold delete_jobs_by_conversation. destruct (auto_workspace_to_delete c) as [[path|]|]; [|done..].
  apply steps_foldl. intros s' row. unfold clear_workspace_row.
  destruct (jr_agent_config row); [|done]. destruct (config_of_json _) as [config|]; [|done].
  destruct (ac_workspace config); [|done]. destruct (workspace_matches_path _ _); [|done].
  apply steps_try_update, good_agent_config.
Qed.

(** ** Methods that answer *)

Definition dto_in_range (dto : CronScheduleDto) : Prop :=
  match dto with
  | DtoAt ms _ | DtoEvery ms _ => in_i64 ms = true
  | DtoCron _ _ _ => True
  end.

Lemma schedule_from_dto_in_range dto : dto_in_range dto → schedule_in_range (schedule_from_dto dto).
Proof. by destruct dto. Qed.

Lemma schedule_with_timezone_in_range dto existing :
  dto_in_range dto → schedule_in_range (schedule_from_dto_with_existing_timezone dto existing).
Proof. by destruct dto. Qed.

Lemma act_post_load id : act_post (load_row id) (λ _, True).
Proof. intros s. split; [by apply steps_same|]. by destruct (load_row id s).1. Qed.

Lemma act_post_true_of {A} (r : result A CronError) : act_post (act_of r) (λ _, True).
Proof. by apply act_post_of. Qed.

Lemma act_post_true_do f : (∀ s, (f s).(cs_db) = s.(cs_db)) → act_post (act_do f) (λ _, True).
Proof. intros Hf. apply act_post_do; [intros s; by apply steps_same|done]. Qed.

Lemma bind_existing_db job s : (bind_existing_conversation_if_needed job s).(cs_db) = s.(cs_db).
Proof. unfold bind_existing_conversation_if_needed. by destruct (_ || _). Qed.

Lemma cron_job_to_row_parses job :
  schedule_in_range job.(cj_schedule) → row_parses (cron_job_to_row job).
Proof. intros Hr. apply row_parses_job. by rewrite cron_job_from_to_row. Qed.

Ltac post_step :=
  first [ eapply act_post_bind; [apply act_post_true_of|intros ? _]
        | eapply act_post_bind; [apply act_post_load|intros ? _]
        | eapply act_post_bind; [by apply act_post_true_do|intros ? _] ].

Lemma act_post_add req runtime :
  dto_in_range req.(cq_schedule) → act_post (add_job_internal req runtime) (λ _, True).
Proof.
  intros Hr. unfold add_job_internal. do 7 post_step.
  eapply (act_post_bind _ _ (λ _, True)); [|intros _ _].
  - intros s. match goal with |- context [insert_job (cron_job_to_row ?j)] => set (job := j) end.
    assert (row_parses (cron_job_to_row job)) as Hrow
      by (by apply cron_job_to_row_parses, schedule_from_dto_in_range).
    clearbody job. split; [|by destruct (db_act _ s).1].
    apply (steps_op _ _ (OpInsert (cron_job_to_row job))); [by split|].
    unfold db_act. cbn [run_op]. by destruct (insert_job _ (cs_db s)).
  - eapply act_post_bind; [apply act_post_true_do, bind_existing_db|intros ? _].
    do 2 post_step. by apply act_post_ret.
Qed.

Lemma change_execution_mode_spec req job job' b :
  change_execution_mode req job = Ok (job', b) →
  job'.(cj_schedule) = job.(cj_schedule) ∧
  ∀ m, req.(uq_execution_mode) = Some m → is_ok (execution_mode_from_str m).
Proof.
  unfold change_execution_mode. destruct (uq_execution_mode req) as [m|]; [|by intros [= <- <-]].
  destruct (parse_execution_mode (Some m)) as [mode|] eqn:Hm; cbn [result_bind]; [|done].
  assert (is_ok (execution_mode_from_str m)) as Hok.
  { unfold parse_execution_mode in Hm. case_bool_decide; [by subst m|]. by rewrite Hm. }
  destruct (if bool_decide _ then _ else _) as [[]|]; cbn [result_bind]; [done| |done].
  destruct (_ && _); intros [= <- <-]; (split; [done|]); by intros m' [= <-].
Qed.

Lemma change_agent_config_schedule req mode job job' :
  change_agent_config req mode job = Ok job' → job'.(cj_schedule) = job.(cj_schedule).
Proof.
  unfold change_agent_config. destruct (uq_agent_config req); [|by intros [= <-]].
  case_bool_decide; [done|]. destruct (resolve_new_job_agent_type _ _); cbn [result_bind]; [|done].
  destruct (validate_aionrs_agent_config _ _); cbn [result_bind]; [|done].
  destruct (build_cron_agent_config _ _ _); cbn [result_bind]; [|done]. by intros [= <-].
Qed.

Lemma change_schedule_in_range req job job' :
  (∀ dto, req.(uq_schedule) = Some dto → dto_in_range dto) →
  change_schedule req job = Ok job' →
  is_Some req.(uq_schedule) → schedule_in_range job'.(cj_schedule).
Proof.
  unfold change_schedule. intros Hr. destruct (uq_schedule req) as [dto|]; [|by intros _ [??]].
  destruct (validate_schedule _); cbn [result_bind]; [|done]. intros [= <-] _. cbn.
  by apply schedule_with_timezone_in_range, Hr.
Qed.

Lemma when_some_schedule {A} (o : option A) (f : A → CronJob → CronJob) job :
  (∀ a, (f a job).(cj_schedule) = job.(cj_schedule)) →
  (when_some o f job).(cj_schedule) = job.(cj_schedule).
Proof. intros Hf. by destruct o; cbn. Qed.

Lemma clear_auto_workspace_schedule job c :
  (clear_auto_workspace_from_job_config job c).1.(cj_schedule) = job.(cj_schedule).
Proof.
  unfold clear_auto_workspace_from_job_config. destruct (cj_agent_config job) as [config|]; [|done].
  destruct (ac_workspace config); [|done]. destruct (auto_workspace_to_delete c) as [[]|]; [|done..].
  by destruct (workspace_matches_path _ _).
Qed.

Lemma good_update_params job req :
  (is_Some req.(uq_schedule) → schedule_in_range job.(cj_schedule)) →
  (∀ m, req.(uq_execution_mode) = Some m → is_ok (execution_mode_from_str m)) →
  good_params (build_update_params job req).
Proof.
  intros Hs Hm. unfold build_update_params, good_params.
  destruct (schedule_to_row_fields (cj_schedule job)) as [[[kind value] tz] d] eqn:Hf.
  cbn [up_schedule_kind up_schedule_value up_execution_mode up_agent_config up_last_status].
  split_and!; [|done| |done].
  - destruct (uq_schedule req); cbn; [right|by left].
    exists (cj_schedule job), kind, value, tz, d. auto.
  - intros c Hc. destruct (uq_agent_config req); [|done]. cbn in Hc.
    destruct (cj_agent_config job); [|done]. cbn in Hc. apply (inj Some) in Hc as <-.
    cbn. unfold config_from_row. by rewrite config_of_to_json.
Qed.

Lemma good_params_cleared p (clear changed : bool) config :
  good_params p →
  let p := if clear then set_up_conversation_title (Some None)
                           (set_up_conversation_id (Some EmptyString) p) else p in
  good_params (if changed then set_up_agent_config (Some (config_to_json <$> config)) p else p).
Proof.
  intros (Hs & Hm & Hc & Hst) p'.
  assert (good_params p') as (Hs' & Hm' & Hc' & Hst') by (by subst p'; destruct clear).
  clearbody p'. destruct changed; [|done]. unfold good_params.
  change (up_last_status (set_up_agent_config _ p')) with (up_last_status p').
  split_and!; [done|done| |done].
  intros c Hc0. apply (inj Some) in Hc0 as <-. destruct config; [|done]. cbn.
  unfold config_from_row. by rewrite config_of_to_json.
Qed.

Lemma act_post_update_job id req :
  (∀ dto, req.(uq_schedule) = Some dto → dto_in_range dto) →
  act_post (update_job id req) (λ _, True).
Proof.
  intros Hr. unfold update_job. do 3 post_step.
  eapply act_post_bind; [apply act_post_of; intros job Hjob; exact Hjob|].
  intros job1 Hjob1. pose proof (change_schedule_in_range _ _ _ Hr Hjob1) as Hin. clear Hjob1.
  eapply act_post_bind; [apply act_post_of; intros ch Hch; exact Hch|].
  intros [job2 clear] Hjob2. cbn beta in Hjob2. apply change_execution_mode_spec in Hjob2 as [Hs2 Hm].
  rewrite when_some_schedule in Hs2 by done. rewrite <- Hs2 in Hin. clear Hs2 job1.
  eapply act_post_bind; [apply act_post_of; intros job Hjob; exact Hjob|].
  intros job3 Hjob3. cbn beta in Hjob3. apply change_agent_config_schedule in Hjob3 as Hs3.
  rewrite <- Hs3 in Hin. clear Hs3 Hjob3 job2.
  match goal with |- context [clear_auto_workspace_from_job_config ?j _] => set (job4 := j) end.
  assert (cj_schedule job4 = cj_schedule job3) as Hs4.
  { subst job4. destruct clear, (uq_conversation_title req), (uq_max_retries req),
      (uq_queue_enabled req); cbn [when_some]; by case_bool_decide. }
  rewrite <- Hs4 in Hin. clearbody job4. clear Hs4 job3.
  destruct (if clear then _ else (job4, false)) as [job5 changed] eqn:Hjob5.
  assert (cj_schedule job5 = cj_schedule job4) as Hs5.
  { destruct clear; [|by injection Hjob5 as <- <-].
    by rewrite <- (clear_auto_workspace_schedule job4 (cj_conversation_id
      (set_cj_agent_type a1 a0))), Hjob5. }
  rewrite <- Hs5 in Hin. post_step.
  eapply act_post_bind; [apply act_post_update|intros _ _].
  - apply (good_params_cleared _ clear changed), good_update_params; [exact Hin|exact Hm].
  - eapply act_post_bind; [apply act_post_true_do; by intros; destruct clear|intros ? _].
    eapply act_post_bind; [apply act_post_true_do, bind_existing_db|intros ? _].
    do 2 post_step. by apply act_post_ret.
Qed.

Lemma act_post_remove id : act_post (remove_job id) (λ _, True).
Proof.
  unfold remove_job. do 2 post_step. eapply (act_post_bind _ _ (λ _, True)); [|intros _ _].
  - intros s. split; [|by destruct (db_act _ s).1].
    apply (steps_op _ _ (OpDelete id)); [by split|]. unfold db_act. cbn [run_op].
    by destruct (delete_cron_row id (cs_db s)).
  - by apply act_post_true_do.
Qed.

Lemma act_post_save_skill id content : act_post (save_skill id content) (λ _, True).
Proof.
  unfold save_skill. do 5 post_step.
  eapply act_post_bind; [apply act_post_update, good_skill_content|intros _ _].
  post_step. apply act_post_true_of.
Qed.

Lemma act_post_delete_skill id : act_post (delete_skill id) (λ _, True).
Proof. unfold delete_skill. do 3 post_step. apply act_post_update, good_skill_content. Qed.

Lemma act_post_run_now prepare id : act_post (run_now prepare id) (λ _, True).
Proof.
  unfold run_now. do 4 post_step. destruct a2 as [c|c]; [by apply act_post_ret|].
  eapply act_post_bind; [apply act_post_bind_materialized|intros ? _]. by apply act_post_ret.
Qed.
End service.

(** ** Runs of the service

    A step is a method called by a process: the environment is that of the call, so the
    clock, the process and the answers of the other components are arbitrary. *)
Inductive CronAct :=
  | ActAdd (req : CreateCronJobRequest) (runtime_agent_type : option string)
  | ActUpdate (job_id : string) (req : UpdateCronJobRequest)
  | ActRemove (job_id : string)
  | ActFire (job_id : string)
  | ActTickClaim (job_id : string) (scheduled_at : Z)
  | ActHeartbeat (job_id : string) (scheduled_at : Z)
  | ActTickBind (job : CronJob) (scheduled_at : Z) (prepared : ExecutionResult + string)
  | ActResult (job : CronJob) (scheduled_at : Z) (r : ExecutionResult)
  | ActInit
  | ActResume
  | ActRunNow (prepare : CronJob → result (string + string) CronError) (job_id : string)
  | ActRunNowResult (job_id : string) (r : ExecutionResult)
  | ActSaveSkill (job_id content : string)
  | ActDeleteSkill (job_id : string)
  | ActConversationDeleted (conversation_id : string).

Definition do_act `{CronJson} (e : CronEnv) (a : CronAct) (s : CronState) : CronState :=
  match a with
  | ActAdd req runtime => (add_job_internal req runtime s).2
  | ActUpdate id req => (update_job id req s).2
  | ActRemove id => (remove_job id s).2
  | ActFire id => match fire id now_ms s.(cs_handles) with
                  | Some (_, handles) => with_handles (λ _, handles) s
                  | None => s
                  end
  | ActTickClaim id t => (tick_claim id t s).2
  | ActHeartbeat id t => (heartbeat id t s).2
  | ActTickBind job t prepared => (tick_bind job t prepared s).2
  | ActResult job t r => handle_execution_result job t r s
  | ActInit => init s
  | ActResume => handle_system_resume s
  | ActRunNow prepare id => (run_now prepare id s).2
  | ActRunNowResult id r => handle_run_now_result id r s
  | ActSaveSkill id content => (save_skill id content s).2
  | ActDeleteSkill id => (delete_skill id s).2
  | ActConversationDeleted c => delete_jobs_by_conversation c s
  end.

(** The numbers of a request are values of [i64]. *)
Definition act_in_range (a : CronAct) : Prop :=
  match a with
  | ActAdd req _ => dto_in_range req.(cq_schedule)
  | ActUpdate _ req => ∀ dto, req.(uq_schedule) = Some dto → dto_in_range dto
  | _ => True
  end.

Definition run_acts `{CronJson} (l : list (CronEnv * CronAct)) (s : CronState) : CronState :=
  foldl (λ s ea, do_act ea.1 ea.2 s) s l.

Definition initial_cron_state : CronState :=
  {| cs_db := empty_cron_db; cs_handles := ∅; cs_calls := []; cs_events := [] |}.

Lemma do_act_steps `{CronJson} e a s : act_in_range a → steps s (do_act e a s).
Proof.
  destruct a; cbn [do_act act_in_range]; intros Hr.
  - by apply (act_post_add req runtime_agent_type Hr).
  - by apply (act_post_update_job job_id req Hr).
  - apply act_post_remove.
  - apply steps_same. by destruct (fire _ _ _) as [[]|].
  - apply steps_tick_claim.
  - apply steps_heartbeat.
  - apply steps_tick_bind.
  - apply steps_result.
  - apply steps_init.
  - apply steps_resume.
  - apply act_post_run_now.
  - apply steps_run_now_result.
  - apply act_post_save_skill.
  - apply act_post_delete_skill.
  - apply steps_delete_conversation.
Qed.

(** C29: Whatever the processes do, and whatever their clocks, their requests and the other
    components answer, every row of the jobs can be read back, under its own id, so that no
    job is dropped at start or when it fires, and the runs satisfy the invariant of the
    tables. *)
Theorem cron_service_invariant `{CronJson} l :
  Forall (λ ea, act_in_range ea.2) l →
  let d := (run_acts l initial_cron_state).(cs_db) in
  cron_db_ok d ∧
  ∀ id row, d.(cd_jobs) !! id = Some row →
    row.(jr_id) = id ∧ ∃ job, cron_job_from_row row = Ok job.
Proof.
  intros Hl d. assert (db_inv d) as [Hd Hrows].
  { apply (foldl_inv (λ s ea, do_act ea.1 ea.2 s)
      (λ l s, Forall (λ ea, act_in_range ea.2) l ∧ db_inv s.(cs_db))).
    - intros [e a] l' s [[Ha Hl']%Forall_cons Hs]. split; [done|].
      by eapply steps_inv; [apply do_act_steps|].
    - split; [done|]. split; [by intros j t r|]. by intros id row. }
  split; [done|]. intros id row Hrow. destruct (Hrows _ _ Hrow) as [Hid Hp]. split; [done|].
  apply row_parses_job in Hp. destruct (cron_job_from_row row) as [job|]; [by exists job|done].
Qed.

(** ** A service at work *)

Definition demo_agent : AgentMetadataRow :=
  {| am_id := "agent"; am_name := "Claude"; am_backend := Some "claude"; am_agent_type := "acp";
     am_agent_source := "builtin"; am_yolo_id := None; am_sort_order := 1 |}.

Definition demo_assistant : AssistantDefinitionRow :=
  {| ad_id := "def"; ad_assistant_id := "helper"; ad_source := "builtin"; ad_name := "Helper";
     ad_agent_id := "agent"; ad_deleted_at := None |}.

(** The process [owner], called at [now]; the conversations do not exist, every other
    component agrees. *)
Definition demo_env (owner : string) (now : Z) : CronEnv :=
  {| cron_call_env := {| call_order := plain_order; gen_id _ := "1"; now_ms := now |};
     cron_lib := every_minute; cron_sql_order := insertion_order; cron_values := plain_values;
     parse_value _ := None; instance_id := owner; sqlx_text := EmptyString;
     catalog := {| ct_agents := [demo_agent]; ct_definitions := [demo_assistant];
                   ct_overrides := ∅ |};
     conversations := ∅; is_conversation_claimed _ := false;
     bind_result _ _ := Ok tt; insert_tips_result _ _ := Ok tt;
     auto_workspace_to_delete _ := Ok None; workspace_matches_path := String.eqb;
     validate_workspace_path_availability _ := Ok tt; persist_skill_file _ _ := Ok tt;
     delete_skill_file _ := Ok tt; has_skill_file _ := Ok false;
     mark_skill_saved_result _ := Ok tt; to_lowercase := to_ascii_lowercase |}.

Definition demo_request : CreateCronJobRequest :=
  {| cq_name := "Report"; cq_description := None; cq_schedule := DtoEvery 60000 None;
     cq_prompt := None; cq_message := Some "write the report"; cq_conversation_id := "conv";
     cq_conversation_title := None; cq_created_by := "user"; cq_execution_mode := None;
     cq_queue_enabled := false;
     cq_agent_config := Some {| wd_name := "Helper"; wd_cli_path := None;
       wd_assistant_id := Some "helper"; wd_mode := None; wd_model_id := None; wd_model := None;
       wd_config_options := None; wd_workspace := None |} |}.

(** A job is created, the timer fires, and the occurrence is executed. *)
Definition demo_acts : list (CronEnv * CronAct) :=
  [(demo_env "a" 1000, ActAdd demo_request None);
   (demo_env "a" 61000, ActFire "cron_1"); (demo_env "a" 61000, ActTickClaim "cron_1" 61000)].

Definition demo_state : CronState :=
  run_acts (H := plain_cron_json) demo_acts initial_cron_state.

(** The job as the tick loads it *)
Definition demo_job : option CronJob :=
  (tick_claim (H := plain_cron_json) (H0 := demo_env "a" 61000) "cron_1" 61000
     (run_acts (H := plain_cron_json) (take 2 demo_acts) initial_cron_state)).1.

Lemma cron_service_invariant_witness :
  Forall (λ ea, act_in_range ea.2) demo_acts ∧
  ∃ row job, demo_state.(cs_db).(cd_jobs) !! "cron_1" = Some row ∧
    cron_job_from_row (H := plain_cron_json) row = Ok job.
Proof.
  assert (Forall (λ ea, act_in_range ea.2) demo_acts) as Hacts by (repeat constructor).
  split; [done|].
  destruct (@cron_service_invariant plain_cron_json demo_acts Hacts) as [_ Hrows].
  change (run_acts demo_acts initial_cron_state) with demo_state in Hrows.
  destruct (demo_state.(cs_db).(cd_jobs) !! "cron_1") as [row|] eqn:Hrow;
    [|vm_compute in Hrow; discriminate].
  destruct (Hrows _ _ Hrow) as [_ [job Hjob]]. exists row, job. split; [reflexivity|exact Hjob].
Defined.
