(* ===== verification/CronProps.v ===== *)
(** * Scheduled jobs: what holds of rows, next runs and the service

    A job survives its row, the next run of a recurring job is the first instant of its
    grid after the clock, and the operations of the service keep every row readable. *)
From Stdlib Require Import String.
From S2P Require Import Prelude Text Storage CronTypes CronTimer CronRuns CronRunsProps CronAgents.
From S2P Require Import CronService CronServiceProps.

(** ** Rows *)

(** Storing a job and reading it back gives the job, but for the agent type, which is
    not stored and found again from the assistant. *)
Theorem cron_job_row_round_trip `{CronJson} job :
  schedule_in_range job.(cj_schedule) →
  cron_job_from_row (cron_job_to_row job) = Ok (set_cj_agent_type EmptyString job).
Proof.
  apply cron_job_from_to_row.
Qed.

(** ** Next runs *)

(** C31: After an occurrence of a job that repeats every [every_ms], the next one is the
    first instant of the grid of [every_ms] through that occurrence that is after the
    clock: never now or earlier, never more than one period away, whatever time the
    execution took.  There is none only if that instant is not an [i64].  A job that runs
    once has no next run, and the next run of a cron expression is after both. *)
Theorem next_occurrence_bounds `{CronLib} schedule scheduled_at now :
  (0 ≤ scheduled_at)%Z → (0 ≤ now < i64_max)%Z → (scheduled_at ≤ i64_max)%Z →
  match schedule, compute_next_run_after_occurrence schedule scheduled_at now with
  | At _ _, next => next = None
  | Every every_ms _, Some next =>
      (0 < every_ms)%Z ∧ (now < next ≤ now + every_ms)%Z ∧ (every_ms | next - scheduled_at)%Z
  | Every every_ms _, None => (every_ms ≤ 0 ∨ i64_max < now + every_ms)%Z
  | Cron _ _ _, Some next => (now < next ∧ scheduled_at < next)%Z
  | Cron _ _ _, None => True
  end.
Proof.
  intros Hs Hnow Hs'. destruct schedule as [at_ms d|every_ms d|expr tz d]; [done| |].
  - cbn [compute_next_run_after_occurrence]. destruct (Z.leb_spec every_ms 0); [by left|].
    assert (saturating_sub_i64 now scheduled_at = now - scheduled_at)%Z as ->.
    { unfold saturating_sub_i64, clamp_i64, i64_min, i64_max in *. lia. }
    set (q := ((now - scheduled_at) / every_ms)%Z).
    assert (q * every_ms ≤ now - scheduled_at < (q + 1) * every_ms)%Z as Hq.
    { pose proof (Z.div_mod (now - scheduled_at) every_ms ltac:(lia)).
      pose proof (Z.mod_pos_bound (now - scheduled_at) every_ms ltac:(lia)).
      fold q in H1. lia. }
    clearbody q.
    assert (in_i64 (q + 1) = true) as Hstep.
    { apply in_i64_spec. unfold i64_min, i64_max in *. nia. }
    rewrite wrap_i64_id by done. unfold checked_mul_i64, checked_add_i64.
    destruct (in_i64 ((q + 1) * every_ms)) eqn:Hm; cbn [mbind option_bind].
    + destruct (in_i64 (scheduled_at + (q + 1) * every_ms)) eqn:Ha.
      * split; [lia|]. split; [lia|]. exists (q + 1)%Z. lia.
      * right. apply not_true_iff_false in Ha. rewrite in_i64_spec in Ha.
        apply in_i64_spec in Hm. unfold i64_min, i64_max in *. lia.
    + right. apply not_true_iff_false in Hm. rewrite in_i64_spec in Hm.
      unfold i64_min, i64_max in *. lia.
  - cbn [compute_next_run_after_occurrence].
    destruct (compute_cron_next_run expr tz _) as [next|] eqn:Hn; [|done].
    apply compute_cron_next_run_later in Hn. lia.
Qed.

Lemma next_occurrence_bounds_witness :
  @compute_next_run_after_occurrence every_minute (Every 60000 None) 1000 125000 = Some 181000%Z ∧
  (125000 < 181000 ≤ 125000 + 60000)%Z.
Proof.
  split; [done|].
  destruct (@next_occurrence_bounds every_minute (Every 60000 None) 1000 125000) as (_ & Hb & _);
    [lia|unfold i64_max; lia|unfold i64_max; lia|exact Hb].
Defined.

(** The first run of a repeating job is not checked: the longest period [validate_schedule]
    accepts wraps around to an instant long past, and the timer is due at once. *)
Lemma every_overflow_is_due_at_once `{CronLib} (now := 1700000000000%Z) :
  validate_schedule (Every i64_max None) = Ok tt ∧
  compute_next_run (Every i64_max None) now = Some (now - 2 ^ 63 - 1)%Z.
Proof. split; [done|by vm_compute]. Qed.

(** The occurrences a repeating timer announces *)
Lemma every_timer_next `{CronLib} t now every_ms started :
  t.(tm_kind) = EveryTimer every_ms started → (0 < every_ms)%Z →
  in_i64 (t.(tm_tick) + every_ms) = true →
  ∃ t', timer_next t now = Some t' ∧ t'.(tm_kind) = EveryTimer every_ms true ∧
        t'.(tm_tick) = (t.(tm_tick) + every_ms)%Z.
Proof.
  intros Hk Hpos Hr. unfold timer_next. rewrite Hk, (proj2 (Z.eqb_neq _ _)) by lia.
  eexists. split; [done|]. cbn. split; [done|]. by apply wrap_i64_id.
Qed.

(** ** Ticks of several processes *)

Section ticks.
Context `{CronJson}.

Lemma get_by_id_set_db d s id : get_by_id id (set_cs_db d s).(cs_db) = get_by_id id d.
Proof. done. Qed.

(** An occurrence has one executor across processes.  When a tick has claimed it, the
    process that called it holds the lease, and as long as it does, a tick for the same
    occurrence by any process whose clock has not reached the end of the lease executes
    nothing. *)
Theorem tick_claim_exclusive (e : CronEnv) j t s job s1 :
  @tick_claim _ e j t s = (Some job, s1) →
  held j t e.(instance_id) (@now_ms e.(cron_call_env) + RUN_LEASE_MS) s1.(cs_db) ∧
  ∀ (e' : CronEnv) s2,
    held j t e.(instance_id) (@now_ms e.(cron_call_env) + RUN_LEASE_MS) s2.(cs_db) →
    (@now_ms e'.(cron_call_env) < @now_ms e.(cron_call_env) + RUN_LEASE_MS)%Z →
    (@tick_claim _ e' j t s2).1 = None.
Proof.
  intros Htick. split.
  - unfold tick_claim in Htick. destruct (get_by_id j (cs_db s)) as [row|]; [|done].
    destruct (cron_job_from_row row) as [job0|]; [|done].
    destruct (resolve_job_agent_type catalog job0) as [ty|]; [|done].
    destruct (negb _); [done|].
    match type of Htick with context [claim_run ?i ?p _] => set (rid := i) in *; set (cp := p) in * end.
    destruct (claim_run rid cp (cs_db s)) as [[[]|] d] eqn:Hc; try done.
    injection Htick as _ <-. by apply claim_run_holds in Hc.
  - intros e' s2 Hheld Hnow. unfold tick_claim.
    destruct (get_by_id j (cs_db s2)) as [row|]; [|done].
    destruct (cron_job_from_row row) as [job0|]; [|done].
    destruct (resolve_job_agent_type catalog job0) as [ty|]; [|done].
    destruct (negb _); [done|]. by erewrite claim_held_duplicate.
Qed.
End ticks.

(** The tick of [demo_acts], called by process [a] *)
Definition demo_tick : option CronJob * CronState :=
  tick_claim (H := plain_cron_json) (H0 := demo_env "a" 61000) "cron_1" 61000
    (run_acts (H := plain_cron_json) (take 2 demo_acts) initial_cron_state).

Lemma demo_tick_claims : is_Some demo_tick.1.
Proof. vm_compute. by eexists. Qed.

Lemma tick_claim_exclusive_witness :
  (tick_claim (H := plain_cron_json) (H0 := demo_env "b" 100000) "cron_1" 61000 demo_tick.2).1 = None.
Proof.
  destruct demo_tick_claims as [job Hjob].
  destruct (@tick_claim_exclusive plain_cron_json (demo_env "a" 61000) "cron_1" 61000
    (run_acts (H := plain_cron_json) (take 2 demo_acts) initial_cron_state) job demo_tick.2)
    as [Hheld Hnone].
  - rewrite <- Hjob. exact (surjective_pairing demo_tick).
  - exact (Hnone (demo_env "b" 100000) demo_tick.2 Hheld eq_refl).
Defined.

Lemma cron_job_row_round_trip_witness :
  let job := {| cj_id := "cron_1"; cj_name := "Once"; cj_enabled := true;
    cj_schedule := At (-9223372036854775808) (Some "long ago"); cj_message := "hello";
    cj_execution_mode := NewConversation;
    cj_agent_config := Some {| ac_name := "Helper"; ac_cli_path := None; ac_is_preset := Some false;
      ac_assistant_id := Some "helper"; ac_custom_agent_id := None; ac_mode := Some "yolo";
      ac_model_id := None; ac_model := None; ac_config_options := Some {["k" := "v"]};
      ac_workspace := None |};
    cj_conversation_id := EmptyString; cj_conversation_title := None; cj_agent_type := EmptyString;
    cj_created_by := ByAgent; cj_skill_content := None; cj_description := None;
    cj_created_at := 0; cj_updated_at := 0; cj_next_run_at := None; cj_last_run_at := None;
    cj_last_status := Some StatusMissed; cj_last_error := None; cj_run_count := 0;
    cj_retry_count := 0; cj_max_retries := 3; cj_queue_enabled := false |} in
  cron_job_from_row (H := plain_cron_json) (cron_job_to_row (H := plain_cron_json) job) = Ok job.
Proof. intros job. exact (@cron_job_row_round_trip plain_cron_json job eq_refl). Defined.
