(* ===== verification/CronUpdate.v ===== *)
(** * Scheduled jobs: a changed job is the job that is stored

    [update_job] computes the changed job, which it answers and broadcasts, and separately
    the columns to write.  The two agree, but for the number of retries, which is not
    written, and for the conversation of a job that had none. *)
From Stdlib Require Import String.
From S2P Require Import Prelude Text Storage CronTypes CronTimer CronRuns CronRunsProps CronAgents.
From S2P Require Import CronService CronServiceProps CronProps.

(** ** Jobs as fields *)

Definition job_of_row (row : CronJobRow) (schedule : CronSchedule) (mode : ExecutionMode)
    (created_by : CreatedBy) (config : option CronAgentConfig) (status : option JobStatus) :
    CronJob :=
  {| cj_id := row.(jr_id); cj_name := row.(jr_name); cj_enabled := row.(jr_enabled);
     cj_schedule := schedule; cj_message := row.(jr_payload_message); cj_execution_mode := mode;
     cj_agent_config := config; cj_conversation_id := row.(jr_conversation_id);
     cj_conversation_title := row.(jr_conversation_title); cj_agent_type := EmptyString;
     cj_created_by := created_by; cj_skill_content := row.(jr_skill_content);
     cj_description := row.(jr_description); cj_created_at := row.(jr_created_at);
     cj_updated_at := row.(jr_updated_at); cj_next_run_at := row.(jr_next_run_at);
     cj_last_run_at := row.(jr_last_run_at); cj_last_status := status;
     cj_last_error := row.(jr_last_error); cj_run_count := row.(jr_run_count);
     cj_retry_count := row.(jr_retry_count); cj_max_retries := row.(jr_max_retries);
     cj_queue_enabled := row.(jr_queue_enabled) |}.

Lemma when_some_set {A} (get : CronJob → A) (set : A → CronJob → CronJob) :
  (∀ j, set (get j) j = j) → ∀ o j, when_some o set j = set (default (get j) o) j.
Proof. intros Hset [a|] j; cbn; by rewrite ?Hset. Qed.

Lemma when_some_set_some {A} (get : CronJob → option A) (set : option A → CronJob → CronJob) :
  (∀ j, set (get j) j = j) →
  ∀ o j, when_some o (λ a, set (Some a)) j = set (opt_or o (get j)) j.
Proof. intros Hset [a|] j; cbn; by rewrite ?Hset. Qed.

Section update.
Context `{CronJson, CronEnv}.

Lemma job_of_row_ok row schedule mode created_by config status :
  parse_schedule row.(jr_schedule_kind) row.(jr_schedule_value) row.(jr_schedule_tz)
    row.(jr_schedule_description) = Ok schedule →
  execution_mode_from_str row.(jr_execution_mode) = Ok mode →
  created_by_from_str row.(jr_created_by) = Ok created_by →
  opt_transpose config_from_row row.(jr_agent_config) = Ok config →
  opt_transpose job_status_from_str row.(jr_last_status) = Ok status →
  cron_job_from_row row = Ok (job_of_row row schedule mode created_by config status).
Proof.
  intros Hs Hm Hb Hc Hst. unfold cron_job_from_row.
  change (λ s, match config_of_json s with Ok c => Ok c | Err e => Err (Json e) end)
    with config_from_row.
  by rewrite Hs, Hm, Hb, Hc, Hst.
Qed.

Lemma job_of_row_inv row job :
  cron_job_from_row row = Ok job →
  ∃ schedule mode created_by config status,
    job = job_of_row row schedule mode created_by config status ∧
    parse_schedule row.(jr_schedule_kind) row.(jr_schedule_value) row.(jr_schedule_tz)
      row.(jr_schedule_description) = Ok schedule ∧
    execution_mode_from_str row.(jr_execution_mode) = Ok mode ∧
    created_by_from_str row.(jr_created_by) = Ok created_by ∧
    opt_transpose config_from_row row.(jr_agent_config) = Ok config ∧
    opt_transpose job_status_from_str row.(jr_last_status) = Ok status.
Proof.
  unfold cron_job_from_row.
  change (λ s, match config_of_json s with Ok c => Ok c | Err e => Err (Json e) end)
    with config_from_row.
  destruct (parse_schedule _ _ _ _) as [sch|]; cbn [result_bind]; [|done].
  destruct (execution_mode_from_str _) as [m|]; cbn [result_bind]; [|done].
  destruct (created_by_from_str _) as [b|]; cbn [result_bind]; [|done].
  destruct (opt_transpose config_from_row _) as [c|]; cbn [result_bind]; [|done].
  destruct (opt_transpose job_status_from_str _) as [st|]; cbn [result_bind]; [|done].
  intros [= <-]. by exists sch, m, b, c, st.
Qed.

(** ** The steps of [update_job] as setters *)

Lemma change_schedule_set req job job' :
  change_schedule req job = Ok job' →
  ∃ schedule, job' = set_cj_schedule schedule job ∧
    (req.(uq_schedule) = None → schedule = job.(cj_schedule)).
Proof.
  unfold change_schedule. destruct (uq_schedule req) as [dto|].
  - destruct (validate_schedule _); cbn [result_bind]; [|done]. intros [= <-]. by eexists.
  - intros [= <-]. exists (cj_schedule job). by destruct job.
Qed.

(** The conversation binding is cleared when the job had a conversation. *)
Lemma change_execution_mode_set req job job' clear :
  change_execution_mode req job = Ok (job', clear) →
  (is_blank job.(cj_conversation_id) = false ∨ req.(uq_execution_mode) ≠ Some "new_conversation" ∨
   job.(cj_execution_mode) = NewConversation) →
  ∃ mode,
    execution_mode_from_str (default (execution_mode_as_str job.(cj_execution_mode))
                               req.(uq_execution_mode)) = Ok mode ∧
    job' = set_cj_execution_mode mode
             (if clear then set_cj_conversation_title None (set_cj_conversation_id EmptyString job)
              else job).
Proof.
  unfold change_execution_mode. destruct (uq_execution_mode req) as [m|]; cbn [default].
  2: { intros [= <- <-] _. exists (cj_execution_mode job). rewrite execution_mode_round_trip.
       by destruct job. }
  destruct (parse_execution_mode (Some m)) as [mode|] eqn:Hm; cbn [result_bind]; [|done].
  assert (execution_mode_from_str m = Ok mode) as Hok.
  { unfold parse_execution_mode in Hm. case_bool_decide; [subst m; by rewrite <- Hm|done]. }
  destruct (if bool_decide _ then _ else _) as [[]|]; cbn [result_bind]; [done| |done].
  destruct (bool_decide (mode ≠ _) && bool_decide (mode = NewConversation)) eqn:Hsw;
    intros [= <- <-] Hblank; exists mode; [|done].
  apply andb_true_iff in Hsw as [Hne%bool_decide_eq_true Hnc%bool_decide_eq_true]. subst mode.
  assert (is_blank (cj_conversation_id job) = false) as ->; [|done].
  destruct Hblank as [?|[Hreq|?]]; [done| |congruence].
  exfalso. apply Hreq. unfold execution_mode_from_str in Hok. repeat case_bool_decide; by subst.
Qed.

Lemma change_agent_config_set req mode job job' :
  change_agent_config req mode job = Ok job' →
  ∃ agent_type config,
    job' = set_cj_agent_config config (set_cj_agent_type agent_type job) ∧
    match req.(uq_agent_config) with
    | None => config = job.(cj_agent_config)
    | Some _ => is_Some config
    end.
Proof.
  unfold change_agent_config. destruct (uq_agent_config req) as [dto|].
  2: { intros [= <-]. exists (cj_agent_type job), (cj_agent_config job). by destruct job. }
  case_bool_decide; [done|]. destruct (resolve_new_job_agent_type _ _) as [ty|];
    cbn [result_bind]; [|done].
  destruct (validate_aionrs_agent_config _ _); cbn [result_bind]; [|done].
  destruct (build_cron_agent_config _ _ _) as [config|]; cbn [result_bind]; [|done].
  intros [= <-]. by exists ty, (Some config).
Qed.

Lemma clear_auto_workspace_set job c :
  let '(job', changed) := clear_auto_workspace_from_job_config job c in
  ∃ config, job' = set_cj_agent_config config job ∧
            (changed = false → config = job.(cj_agent_config)).
Proof.
  assert (∃ config, job = set_cj_agent_config config job ∧
    (false = false → config = cj_agent_config job)) as Hsame
    by (exists (cj_agent_config job); by destruct job).
  unfold clear_auto_workspace_from_job_config. destruct (cj_agent_config job) as [config|]; [|done].
  destruct (ac_workspace config); [|done]. destruct (auto_workspace_to_delete c) as [[]|]; [|done..].
  destruct (workspace_matches_path _ _); [|done]. by eexists.
Qed.

Lemma next_run_set (b : bool) next job :
  (if b then set_cj_next_run_at next job else job) =
  set_cj_next_run_at (if b then next else job.(cj_next_run_at)) job.
Proof. destruct b; [done|by destruct job]. Qed.

Lemma opt_transpose_json config :
  opt_transpose config_from_row (config_to_json <$> config) = Ok config.
Proof. apply opt_transpose_fmap. intros c. unfold config_from_row. by rewrite config_of_to_json. Qed.

(** The job that is stored, once the columns are written at [u] *)
Definition stored_job (row : CronJobRow) (u : Z) (job : CronJob) : CronJob :=
  set_cj_agent_type EmptyString
    (set_cj_max_retries row.(jr_max_retries) (set_cj_updated_at u job)).

Lemma act_bind_ok {S E A B} (m : action S E A) (k : A → action S E B) s b s' :
  act_bind m k s = (Ok b, s') → ∃ a s1, m s = (Ok a, s1) ∧ k a s1 = (Ok b, s').
Proof. unfold act_bind. destruct (m s) as [[a|e] s1]; [by eauto|done]. Qed.

Lemma act_of_ok {S E A} (r : result A E) (s : S) a s' : act_of r s = (Ok a, s') → r = Ok a ∧ s' = s.
Proof. by intros [= -> ->]. Qed.

Lemma act_do_ok {S E} (f : S → S) (s : S) s' : act_do (E := E) f s = (Ok tt, s') → s' = f s.
Proof. by intros [= ->]. Qed.

(** The changed job, by its fields *)
Definition updated_job (req : UpdateCronJobRequest) (clear : bool) (schedule : CronSchedule)
    (mode : ExecutionMode) (agent_type : string) (config : option CronAgentConfig)
    (next_run_at : option Z) (updated_at : Z) (job : CronJob) : CronJob :=
  {| cj_id := job.(cj_id);
     cj_name := default job.(cj_name) req.(uq_name);
     cj_enabled := default job.(cj_enabled) req.(uq_enabled);
     cj_schedule := schedule;
     cj_message := default job.(cj_message) req.(uq_message);
     cj_execution_mode := mode;
     cj_agent_config := config;
     cj_conversation_id := if clear then EmptyString else job.(cj_conversation_id);
     cj_conversation_title := if clear then None
                              else opt_or req.(uq_conversation_title) job.(cj_conversation_title);
     cj_agent_type := agent_type;
     cj_created_by := job.(cj_created_by);
     cj_skill_content := job.(cj_skill_content);
     cj_description := opt_or req.(uq_description) job.(cj_description);
     cj_created_at := job.(cj_created_at);
     cj_updated_at := updated_at;
     cj_next_run_at := if bool_decide (is_Some req.(uq_schedule) ∨ is_Some req.(uq_enabled))
                       then next_run_at else job.(cj_next_run_at);
     cj_last_run_at := job.(cj_last_run_at);
     cj_last_status := job.(cj_last_status);
     cj_last_error := job.(cj_last_error);
     cj_run_count := job.(cj_run_count);
     cj_retry_count := job.(cj_retry_count);
     cj_max_retries := default job.(cj_max_retries) req.(uq_max_retries);
     cj_queue_enabled := default job.(cj_queue_enabled) req.(uq_queue_enabled) |}.

(** The columns [update_job] writes *)
Definition update_params (req : UpdateCronJobRequest) (clear changed : bool) (job : CronJob) :
    UpdateCronJobParams :=
  let params := build_update_params job req in
  let params := if clear
                then set_up_conversation_title (Some None)
                       (set_up_conversation_id (Some EmptyString) params)
                else params in
  if changed then set_up_agent_config (Some (config_to_json <$> job.(cj_agent_config))) params
  else params.

Lemma default_fmap_some {A} (a : option A) (o : option A) : default a (Some <$> o) = opt_or o a.
Proof. by destruct o. Qed.

Lemma stored_job_ok row job0 req clear changed schedule mode agent_type config next now u :
  cron_job_from_row row = Ok job0 →
  (req.(uq_schedule) = None → schedule = job0.(cj_schedule)) →
  (is_Some req.(uq_schedule) → schedule_in_range schedule) →
  execution_mode_from_str (default (execution_mode_as_str job0.(cj_execution_mode))
                             req.(uq_execution_mode)) = Ok mode →
  (changed = true ∨ match req.(uq_agent_config) with
                    | None => config = job0.(cj_agent_config)
                    | Some _ => is_Some config
                    end) →
  let job := updated_job req clear schedule mode agent_type config next now job0 in
  cron_job_from_row (apply_params (update_params req clear changed job) u row) =
    Ok (stored_job row u job).
Proof.
  intros Hrow Hsch Hrange Hmode Hcfg job.
  destruct (job_of_row_inv _ _ Hrow) as (sch0 & m0 & b0 & c0 & st0 & -> & Es & Em & Eb & Ec & Est).
  cbn [job_of_row cj_schedule cj_execution_mode cj_agent_config] in *.
  unfold update_params, build_update_params.
  change (cj_schedule job) with schedule.
  destruct (schedule_to_row_fields schedule) as [[[kind value] tz] d] eqn:Hf.
  erewrite (job_of_row_ok _ schedule mode b0 config st0).
  - apply (f_equal Ok). unfold stored_job, job, updated_job, job_of_row.
    destruct clear, changed; cbn; rewrite ?default_fmap_some; by case_bool_decide.
  - assert (parse_schedule (default (jr_schedule_kind row) (_ ← uq_schedule req; Some kind))
      (default (jr_schedule_value row) (_ ← uq_schedule req; Some value))
      (default (jr_schedule_tz row) (_ ← uq_schedule req; Some tz))
      (default (jr_schedule_description row) (_ ← uq_schedule req; Some d)) = Ok schedule) as Hp.
    { destruct (uq_schedule req); cbn; [|by rewrite Hsch].
      apply (parse_schedule_row_fields schedule); eauto. }
    destruct clear, changed; exact Hp.
  - assert (execution_mode_from_str (default (jr_execution_mode row) (uq_execution_mode req)) =
      Ok mode) as Hm.
    { destruct (uq_execution_mode req); cbn [default] in *; [done|].
      rewrite execution_mode_round_trip in Hmode. by rewrite Em. }
    destruct clear, changed; exact Hm.
  - destruct clear, changed; exact Eb.
  - destruct changed; [destruct clear; apply opt_transpose_json|].
    destruct Hcfg as [?|Hcfg]; [done|].
    assert (opt_transpose config_from_row
      (default (jr_agent_config row) (_ ← uq_agent_config req; c ← config;
        Some (Some (config_to_json c)))) = Ok config) as Hc.
    { destruct (uq_agent_config req); cbn; [|by rewrite Hcfg].
      destruct Hcfg as [cfg ->]. apply (opt_transpose_json (Some cfg)). }
    destruct clear; exact Hc.
  - destruct clear, changed; exact Est.
Qed.

Lemma load_row_ok id s row s' :
  load_row id s = (Ok row, s') → s.(cs_db).(cd_jobs) !! id = Some row ∧ s' = s.
Proof.
  unfold load_row, get_by_id. destruct (cd_jobs (cs_db s) !! id); [|done]. by intros [= -> ->].
Qed.

Lemma bind_existing_handles job s :
  (bind_existing_conversation_if_needed job s).(cs_handles) = s.(cs_handles).
Proof. unfold bind_existing_conversation_if_needed. by destruct (_ || _). Qed.

Lemma repo_update_handles id p s : (repo_update id p s).2.(cs_handles) = s.(cs_handles).
Proof. unfold repo_update, db_act. by destruct (update_cron_row id p now_ms (cs_db s)). Qed.

(** One step of a method that answered [Ok] *)
Ltac action_step H a Hm :=
  apply act_bind_ok in H as (a & ? & Hm & H); cbn beta in H;
  first [ apply load_row_ok in Hm as [Hm ->] | apply act_of_ok in Hm as [Hm ->]
        | destruct a; apply act_do_ok in Hm as -> ].

(** The job [update_job] computes, and the columns it writes.  The premise of the second
    part: the request does not turn a job without a conversation into one that makes a new
    conversation each time. *)
Lemma update_job_inv id req s job s' :
  update_job id req s = (Ok job, s') →
  (∀ dto, req.(uq_schedule) = Some dto → dto_in_range dto) →
  ∃ row job0 clear changed,
    s.(cs_db).(cd_jobs) !! id = Some row ∧ cron_job_from_row row = Ok job0 ∧
    (repo_update id (update_params req clear changed job) s).1 = Ok tt ∧
    s'.(cs_db) = (repo_update id (update_params req clear changed job) s).2.(cs_db) ∧
    s'.(cs_handles) = reschedule_job job s.(cs_handles) ∧
    ((is_blank job0.(cj_conversation_id) = false ∨
      req.(uq_execution_mode) ≠ Some "new_conversation" ∨
      job0.(cj_execution_mode) = NewConversation) →
     ∃ schedule mode agent_type config next,
       job = updated_job req clear schedule mode agent_type config next now_ms job0 ∧
       (req.(uq_schedule) = None → schedule = job0.(cj_schedule)) ∧
       (is_Some req.(uq_schedule) → schedule_in_range schedule) ∧
       execution_mode_from_str (default (execution_mode_as_str job0.(cj_execution_mode))
                                  req.(uq_execution_mode)) = Ok mode ∧
       (changed = true ∨ match req.(uq_agent_config) with
                         | None => config = job0.(cj_agent_config)
                         | Some _ => is_Some config
                         end)).
Proof.
  unfold update_job. intros Hu Hr.
  action_step Hu row Hrow. action_step Hu job0 Hjob0. action_step Hu ty Hty.
  action_step Hu job1 Hjob1. action_step Hu ch Hch. destruct ch as [job2 clear].
  action_step Hu job3 Hjob3.
  match type of Hu with context [clear_auto_workspace_from_job_config ?j _] => set (job4 := j) in * end.
  match type of Hu with context [if clear then ?x else (job4, false)] =>
    destruct (if clear then x else (job4, false)) as [job5 changed] eqn:Hjob5 end.
  action_step Hu tt1 Hval.
  apply act_bind_ok in Hu as (tt2 & s1 & Hupd & Hu). cbn beta in Hu.
  action_step Hu tt3 Hun. action_step Hu tt4 Hbind. action_step Hu tt5 Hsch. action_step Hu tt6 Hem.
  injection Hu as <- <-. destruct tt2.
  change (repo_update id (update_params req clear changed (set_cj_updated_at now_ms job5)) s =
          (Ok tt, s1)) in Hupd.
  exists row, job0, clear, changed. rewrite Hupd. split_and!; [done|done|done| | |].
  - cbn [with_handles emit cs_db]. rewrite bind_existing_db. by destruct clear.
  - cbn [with_handles emit cs_handles]. rewrite bind_existing_handles.
    rewrite <- (repo_update_handles id (update_params req clear changed (set_cj_updated_at now_ms job5)) s), Hupd.
    by destruct clear.
  - intros Hblank.
    pose proof (change_schedule_in_range _ _ _ Hr Hjob1) as Hrange.
    destruct (change_schedule_set _ _ _ Hjob1) as (schedule & -> & Hsame).
    rewrite (when_some_set cj_enabled set_cj_enabled), (when_some_set_some cj_description
      set_cj_description), (when_some_set cj_name set_cj_name) in Hch, Hsame, Hrange
      by (by intros []).
    rewrite (when_some_set cj_message set_cj_message) in Hch by (by intros []).
    destruct (change_execution_mode_set _ _ _ _ Hch Hblank) as (mode & Hmode & ->).
    destruct (change_agent_config_set _ _ _ _ Hjob3) as (ty' & config & -> & Hconfig).
    assert (∃ config', job5 = set_cj_agent_config config' job4 ∧
      (changed = false → config' = cj_agent_config job4)) as (config' & -> & Hsame').
    { destruct clear.
      - pose proof (clear_auto_workspace_set job4
          (cj_conversation_id (set_cj_agent_type ty job0))) as Hc.
        by rewrite Hjob5 in Hc.
      - injection Hjob5 as <- <-. exists (cj_agent_config job4). by destruct job4. }
    assert (cj_agent_config job4 = config) as Hc4.
    { subst job4. by destruct clear, (uq_conversation_title req), (uq_max_retries req),
        (uq_queue_enabled req); cbn [when_some]; case_bool_decide. }
    rewrite Hc4 in Hsame'. clear Hjob5 Hval Hun Hbind Hsch Hem Hupd Hc4. subst job4.
    rewrite next_run_set, (when_some_set cj_queue_enabled set_cj_queue_enabled),
      (when_some_set cj_max_retries set_cj_max_retries),
      (when_some_set_some cj_conversation_title set_cj_conversation_title) by (by intros []).
    eexists schedule, mode, ty', config', _.
    split; [by destruct clear|]. split; [exact Hsame|]. split; [exact Hrange|].
    split; [exact Hmode|]. destruct changed; [by left|right]. rewrite Hsame' by done.
    destruct (uq_agent_config req); [done|]. rewrite Hconfig. by destruct clear.
Qed.

(** What [update_job] answers is what it stores.  Unless the request turns a job without
    a conversation into one that makes a new conversation each time, the row it leaves,
    read back, is the job it answers, but for the agent type, which is not stored, for
    [updated_at] when no column was written, and for [max_retries], which never is; the
    timer is that of the new job, and no other job and no run is touched. *)
Theorem update_job_stores_job id req s job s' :
  update_job id req s = (Ok job, s') →
  (∀ dto, req.(uq_schedule) = Some dto → dto_in_range dto) →
  ∃ row row' job0,
    s.(cs_db).(cd_jobs) !! id = Some row ∧ cron_job_from_row row = Ok job0 ∧
    s'.(cs_db) = set_cd_jobs (<[id := row']> s.(cs_db).(cd_jobs)) s.(cs_db) ∧
    s'.(cs_handles) = reschedule_job job s.(cs_handles) ∧
    ((is_blank job0.(cj_conversation_id) = false ∨
      req.(uq_execution_mode) ≠ Some "new_conversation" ∨
      job0.(cj_execution_mode) = NewConversation) →
     cron_job_from_row row' = Ok (stored_job row row'.(jr_updated_at) job)).
Proof.
  intros Hu Hr.
  destruct (update_job_inv _ _ _ _ _ Hu Hr) as
    (row & job0 & clear & changed & Hrow & Hjob0 & Hok & Hdb & Hh & Hjob).
  set (p := update_params req clear changed job) in *.
  assert (∃ u, s'.(cs_db) = set_cd_jobs (<[id := apply_params p u row]> s.(cs_db).(cd_jobs))
                              s.(cs_db)) as [u Hdb'].
  { rewrite Hdb. unfold repo_update, db_act, update_cron_row in *. rewrite Hrow in *.
    destruct (is_no_changes p) eqn:Hp; cbn [snd set_cs_db cs_db].
    - exists (jr_updated_at row). assert (apply_params p (jr_updated_at row) row = row) as ->.
      { unfold is_no_changes in Hp. destruct p. by repeat case_match; subst; destruct row. }
      rewrite insert_id by done. by destruct (cs_db s).
    - destruct (job_row_ok _); [by exists now_ms|done]. }
  exists row, (apply_params p u row), job0. split_and!; [done|done|done|done|].
  intros Hblank. destruct (Hjob Hblank) as (schedule & mode & ty & config & next & E & H1 & H2 & H3 & H4).
  subst p. rewrite E. by apply (stored_job_ok row job0).
Qed.
End update.
