(* ===== verification/CronServiceEffects.v ===== *)
(** * Scheduled jobs: what the methods of the service do

    The row and the timer of a job after an execution, after the server has started, after
    the job was changed, and after its conversation was deleted. *)
From Stdlib Require Import String.
From S2P Require Import Prelude Text Storage CronTypes CronTimer CronRuns CronRunsProps CronAgents.
From S2P Require Import CronService CronServiceProps CronProps CronUpdate.

Section effects.
Context `{CronJson, CronEnv}.

(** ** Updates that succeed *)

Definition put_row (id : string) (row : CronJobRow) (s : CronState) : CronState :=
  set_cs_db (set_cd_jobs (<[id := row]> s.(cs_db).(cd_jobs)) s.(cs_db)) s.

Lemma repo_update_put id p s row :
  s.(cs_db).(cd_jobs) !! id = Some row → is_no_changes p = false →
  job_row_ok (apply_params p now_ms row) →
  repo_update id p s = (Ok tt, put_row id (apply_params p now_ms row) s).
Proof.
  intros Hrow Hp Hok. unfold repo_update, db_act, update_cron_row. rewrite Hp, Hrow.
  by destruct (job_row_ok _).
Qed.

Lemma repo_try_update_put id p s row :
  s.(cs_db).(cd_jobs) !! id = Some row → is_no_changes p = false →
  job_row_ok (apply_params p now_ms row) →
  repo_try_update id p s = put_row id (apply_params p now_ms row) s.
Proof. intros. unfold repo_try_update. by erewrite repo_update_put. Qed.

Lemma job_row_ok_plain p now row :
  p.(up_schedule_kind) = None → p.(up_execution_mode) = None →
  (p.(up_last_status) = None ∨ ∃ st, p.(up_last_status) = Some (Some (job_status_as_str st))) →
  job_row_ok row → job_row_ok (apply_params p now row).
Proof.
  intros Hk Hm Hst Hrow. unfold job_row_ok in *. cbn. rewrite Hk, Hm. cbn.
  destruct Hst as [->|[st ->]]; [done|]. cbn. apply andb_prop_elim in Hrow as [Hrow _].
  apply andb_prop_intro. split; [done|]. by destruct st.
Qed.

(** ** After an execution *)

Definition result_status (r : ExecutionResult) : option string :=
  match r with
  | Success _ => Some "ok" | Retrying _ => None | Skipped => Some "skipped"
  | ExecError _ => Some "error"
  end.

(** What [reschedule_after_execution] leaves when no other occurrence is unfinished *)
Definition rescheduled (job : CronJob) (t : Z) (s : CronState) : Prop :=
  let id := job.(cj_id) in
  let next := compute_next_run_after_occurrence job.(cj_schedule) t now_ms in
  ∃ row, s.(cs_db).(cd_jobs) !! id = Some row ∧
  if is_at job.(cj_schedule)
  then row.(jr_enabled) = false ∧ row.(jr_next_run_at) = None ∧ s.(cs_handles) !! id = None
  else row.(jr_next_run_at) = next ∧
       s.(cs_handles) !! id = schedule_job (set_cj_next_run_at next job) ∅ !! id.

Lemma schedule_job_here job handles :
  schedule_job job handles !! job.(cj_id) = schedule_job job ∅ !! job.(cj_id).
Proof. by rewrite !schedule_job_lookup, !decide_True. Qed.

Lemma reschedule_spec job t s row :
  s.(cs_db).(cd_jobs) !! job.(cj_id) = Some row → job_row_ok row →
  let s' := reschedule_after_execution job t s in
  s'.(cs_db).(cd_runs) = s.(cs_db).(cd_runs) ∧
  ∃ row', s'.(cs_db).(cd_jobs) !! job.(cj_id) = Some row' ∧
    row'.(jr_last_status) = row.(jr_last_status) ∧ row'.(jr_last_error) = row.(jr_last_error) ∧
    row'.(jr_run_count) = row.(jr_run_count) ∧ row'.(jr_retry_count) = row.(jr_retry_count) ∧
    match get_recoverable_run job.(cj_id) now_ms s.(cs_db) with
    | Some run => s'.(cs_handles) !! job.(cj_id) =
                    Some (Some (spawn_occurrence_timer run.(rc_scheduled_at) run.(rc_wake_at)))
    | None => rescheduled job t s'
    end.
Proof.
  intros Hrow Hok s'. unfold s', reschedule_after_execution, rescheduled.
  destruct (get_recoverable_run _ _ _) as [run|].
  { split; [done|]. exists row. split_and!; [done..|]. cbn.
    by rewrite schedule_retry_lookup, decide_True. }
  destruct (is_at (cj_schedule job)) eqn:Hat.
  - erewrite (repo_try_update_put _ _ _ row);
      [|done|done|by apply job_row_ok_plain; auto].
    split; [done|]. eexists. cbn. rewrite lookup_insert_eq. split_and!; [done..|].
    eexists. split; [done|]. split_and!; [done|done|apply lookup_delete_eq].
  - erewrite (repo_try_update_put _ _ _ row);
      [|done|done|by apply job_row_ok_plain; auto].
    split; [done|]. eexists. cbn. rewrite lookup_insert_eq. split_and!; [done..|].
    eexists. split_and!; [done|done|]. apply (schedule_job_here (set_cj_next_run_at _ job)).
Qed.

Lemma finish_owned j t st c e s run :
  s.(cs_db).(cd_runs) !! (j, t) = Some run → owned_by instance_id run →
  st ∈ ["ok"; "error"; "skipped"] →
  ∃ run' s', finish_scheduled_run j t st c e s = (true, s') ∧
    s'.(cs_db).(cd_jobs) = s.(cs_db).(cd_jobs) ∧
    s'.(cs_db).(cd_runs) = <[(j, t) := run']> s.(cs_db).(cd_runs) ∧
    run'.(rr_status) = st ∧ run'.(rr_finished_at) = Some now_ms ∧ terminal run'.
Proof.
  intros Hrun Ho Hst. unfold finish_scheduled_run, finish_run.
  cbn [fp_job_id fp_scheduled_at fp_owner_id fp_status].
  rewrite update_owned_run_spec, Hrun, decide_True by done.
  assert (run_status_ok st = true) as ->.
  { unfold run_status_ok. apply bool_decide_eq_true. revert st Hst. apply Forall_forall.
    apply (bool_decide_unpack _). by vm_compute. }
  cbn [andb negb]. eexists _, _. split; [done|]. cbn. split_and!; [done..|].
  unfold terminal. cbn. by apply bool_decide_pack.
Qed.

Lemma get_recoverable_run_ext j d d' :
  d.(cd_runs) = d'.(cd_runs) → get_recoverable_run j now_ms d = get_recoverable_run j now_ms d'.
Proof. intros Hd. unfold get_recoverable_run, leased_runs. by rewrite Hd. Qed.

(** The state once the run is finished and the row updated, then the rescheduling *)
Lemma recorded job t s run' row1 status n ev :
  s.(cs_db).(cd_runs) !! (job.(cj_id), t) = Some run' → terminal run' →
  run'.(rr_status) = status → run'.(rr_finished_at) = Some now_ms →
  s.(cs_db).(cd_jobs) !! job.(cj_id) = Some row1 → job_row_ok row1 →
  row1.(jr_last_status) = Some status → row1.(jr_retry_count) = 0%Z → row1.(jr_run_count) = n →
  let s' := emit ev (reschedule_after_execution job t s) in
  (∃ run', s'.(cs_db).(cd_runs) !! (job.(cj_id), t) = Some run' ∧ terminal run' ∧
     run'.(rr_status) = status ∧ run'.(rr_finished_at) = Some now_ms) ∧
  (∃ row', s'.(cs_db).(cd_jobs) !! job.(cj_id) = Some row' ∧
     row'.(jr_last_status) = Some status ∧ row'.(jr_retry_count) = 0%Z ∧
     row'.(jr_run_count) = n) ∧
  match get_recoverable_run job.(cj_id) now_ms s'.(cs_db) with
  | Some other => s'.(cs_handles) !! job.(cj_id) =
                    Some (Some (spawn_occurrence_timer other.(rc_scheduled_at) other.(rc_wake_at)))
  | None => rescheduled job t s'
  end.
Proof.
  intros Hrun Hterm Hst Hfin Hrow Hok Hstatus Hretry Hn s'.
  destruct (reschedule_spec job t s row1 Hrow Hok) as (Hruns & row' & Hrow' & E1 & _ & E3 & E4 & Hres).
  subst s'. cbn [emit cs_db cs_handles]. split; [|split].
  - exists run'. rewrite Hruns. by split_and!.
  - exists row'. split_and!; congruence.
  - rewrite (get_recoverable_run_ext _ _ (cs_db s) Hruns).
    by destruct (get_recoverable_run _ _ (cs_db s)).
Qed.

Ltac finish_run_step status :=
  match goal with
  | Hrun : cd_runs _ !! _ = Some _, Ho : owned_by _ _ |- context [finish_scheduled_run ?j ?t _ ?c ?e _] =>
      destruct (finish_owned j t status c e _ _ Hrun Ho ltac:(by apply (bool_decide_unpack _)))
        as (run' & s1 & -> & Hjobs & Hruns & Hst & Hfin & Hterm); cbn [negb]
  end.

Lemma after_success_spec id c s row :
  s.(cs_db).(cd_jobs) !! id = Some row → job_row_ok row →
  let s' := update_job_after_success id c s in
  s'.(cs_db).(cd_runs) = s.(cs_db).(cd_runs) ∧
  ∃ row', s'.(cs_db).(cd_jobs) !! id = Some row' ∧ job_row_ok row' ∧
    row'.(jr_last_status) = Some "ok" ∧ row'.(jr_retry_count) = 0%Z ∧
    row'.(jr_run_count) = (row.(jr_run_count) + 1)%Z.
Proof.
  intros Hrow Hok. unfold update_job_after_success, get_by_id. rewrite Hrow.
  set (b := should_bind_success_conversation _ _ _). clearbody b.
  match goal with |- context [repo_update id ?p s] => set (q := p) end.
  assert (job_row_ok (apply_params q now_ms row)) as Hok'
    by (apply job_row_ok_plain; [done|done|right; by exists StatusOk|done]).
  rewrite (repo_update_put _ _ _ row); [|done|by destruct b|done].
  destruct b; (split; [done|]); exists (apply_params q now_ms row); cbn;
    by rewrite lookup_insert_eq.
Qed.

(** C28: When an execution ends in a process that still holds its lease, the occurrence is
    finished with the outcome, the job shows that outcome, a run that was executed is
    counted, and the job is scheduled again: if another of its occurrences is unfinished
    that one is woken up, otherwise a job that runs once is disabled and has no timer, and
    any other has its next run in its row and the timer for it, if it is enabled. *)
Theorem execution_is_recorded job t r s row run status :
  s.(cs_db).(cd_jobs) !! job.(cj_id) = Some row → job_row_ok row →
  s.(cs_db).(cd_runs) !! (job.(cj_id), t) = Some run → owned_by instance_id run →
  result_status r = Some status →
  let s' := handle_execution_result job t r s in
  (∃ run', s'.(cs_db).(cd_runs) !! (job.(cj_id), t) = Some run' ∧ terminal run' ∧
     run'.(rr_status) = status ∧ run'.(rr_finished_at) = Some now_ms) ∧
  (∃ row', s'.(cs_db).(cd_jobs) !! job.(cj_id) = Some row' ∧
     row'.(jr_last_status) = Some status ∧ row'.(jr_retry_count) = 0%Z ∧
     row'.(jr_run_count) = match r with Skipped => row.(jr_run_count)
                           | _ => (row.(jr_run_count) + 1)%Z end) ∧
  match get_recoverable_run job.(cj_id) now_ms s'.(cs_db) with
  | Some other => s'.(cs_handles) !! job.(cj_id) =
                    Some (Some (spawn_occurrence_timer other.(rc_scheduled_at) other.(rc_wake_at)))
  | None => rescheduled job t s'
  end.
Proof.
  intros Hrow Hok Hrun Ho Hr. destruct r as [c|n| |m]; [| done | |]; injection Hr as <-;
    cbn [handle_execution_result].
  - finish_run_step "ok". rewrite <- Hjobs in Hrow.
    destruct (after_success_spec _ c s1 row Hrow Hok) as (Hruns' & row1 & ? & ? & ? & ? & ?).
    eapply (recorded job t _ run' row1); try done. by rewrite Hruns', Hruns, lookup_insert_eq.
  - finish_run_step "skipped". rewrite <- Hjobs in Hrow.
    pose proof (job_row_ok_plain (status_params None "skipped" None None None) now_ms row
      eq_refl eq_refl (or_intror (ex_intro _ StatusSkipped eq_refl)) Hok) as Hok'.
    erewrite repo_try_update_put by done.
    eapply (recorded job t _ run'); [cbn; by rewrite Hruns, lookup_insert_eq|done|done|done|
      cbn; by rewrite lookup_insert_eq|exact Hok'|done..].
  - finish_run_step "error". rewrite <- Hjobs in Hrow. unfold update_job_after_error, get_by_id.
    rewrite Hrow.
    pose proof (job_row_ok_plain (status_params (Some (Some now_ms)) "error" (Some (Some m))
      (Some (jr_run_count row + 1)%Z) None) now_ms row
      eq_refl eq_refl (or_intror (ex_intro _ StatusError eq_refl)) Hok) as Hok'.
    erewrite repo_try_update_put by done.
    eapply (recorded job t _ run'); [cbn; by rewrite Hruns, lookup_insert_eq|done|done|done|
      cbn; by rewrite lookup_insert_eq|exact Hok'|done..].
Qed.
(** ** At start *)

(** The timer a job has after the start, from what the tables say.  While occurrences of it are
    unfinished: a single shot for one of them, when its lease ends or at once, and no other has a
    lease that ends earlier.  Otherwise: the timer of the kind of its schedule, from the next run
    that its row says; none without one. *)
Definition started_timer (job : CronJob) (d : CronDb) (handle : option (option Timer)) : Prop :=
  (∃ scheduled_at run lease,
     d.(cd_runs) !! (job.(cj_id), scheduled_at) = Some run ∧ unfinished run ∧
     run.(rr_lease_until) = Some lease ∧
     (∀ scheduled_at' run' lease', d.(cd_runs) !! (job.(cj_id), scheduled_at') = Some run' →
        unfinished run' → run'.(rr_lease_until) = Some lease' → (lease ≤ lease')%Z) ∧
     handle = Some (Some (spawn_occurrence_timer scheduled_at (Z.max lease now_ms)))) ∨
  ((∀ scheduled_at run, d.(cd_runs) !! (job.(cj_id), scheduled_at) = Some run →
      unfinished run = false) ∧
   handle =
     match job.(cj_next_run_at) with
     | Some next_run_at =>
         Some (Some match job.(cj_schedule) with
                    | At _ _ => spawn_at_timer next_run_at
                    | Every every_ms _ => spawn_every_timer next_run_at every_ms
                    | Cron expr tz _ => spawn_cron_timer next_run_at expr tz
                    end)
     | None => None
     end).

Definition timer_after_start (job : CronJob) (d : CronDb) : option (option Timer) :=
  match get_recoverable_run job.(cj_id) now_ms d with
  | Some run => Some (Some (spawn_occurrence_timer run.(rc_scheduled_at) run.(rc_wake_at)))
  | None => schedule_job job ∅ !! job.(cj_id)
  end.

Lemma timer_after_start_spec job d :
  cron_db_ok d → job.(cj_enabled) = true → started_timer job d (timer_after_start job d).
Proof.
  intros Hd Hen. unfold timer_after_start, get_recoverable_run.
  destruct (head (order_by snd (leased_runs job.(cj_id) d))) as [[t l]|] eqn:Hhead;
    cbn [mbind option_bind rc_scheduled_at rc_wake_at].
  - left. apply head_order_by in Hhead as [Hin Hmin].
    apply elem_of_leased_runs in Hin as (run & Hrun & Hu & Hl). exists t, run, l.
    do 3 (split; [done|]). split; [|done]. intros t' run' l' Hrun' Hu' Hl'.
    apply (Hmin (t', l')). apply elem_of_leased_runs. eauto.
  - right. split; [by apply (no_leased_runs _ _ Hd)|].
    rewrite schedule_job_lookup, decide_True, Hen by done.
    by destruct (cj_next_run_at job).
Qed.

Lemma init_row_spec s row id :
  (init_row s row).(cs_db) = s.(cs_db) ∧
  (init_row s row).(cs_handles) !! id =
    match cron_job_from_row row with
    | Ok job => if decide (id = job.(cj_id)) then timer_after_start job s.(cs_db)
                else s.(cs_handles) !! id
    | Err _ => s.(cs_handles) !! id
    end.
Proof.
  unfold init_row, timer_after_start. destruct (cron_job_from_row row) as [job|]; [|done].
  destruct (get_recoverable_run _ _ _) as [run|]; (split; [done|]); cbn.
  - rewrite schedule_retry_lookup. by case_decide.
  - case_decide; [subst; apply schedule_job_here|]. rewrite schedule_job_lookup.
    by rewrite decide_False.
Qed.

Lemma cron_job_from_row_id row job : cron_job_from_row row = Ok job → job.(cj_id) = row.(jr_id).
Proof.
  unfold cron_job_from_row. destruct (parse_schedule _ _ _ _); cbn [result_bind]; [|done].
  destruct (execution_mode_from_str _); cbn [result_bind]; [|done].
  destruct (created_by_from_str _); cbn [result_bind]; [|done].
  destruct (opt_transpose _ (jr_agent_config row)); cbn [result_bind]; [|done].
  destruct (opt_transpose _ (jr_last_status row)); cbn [result_bind]; [|done]. by intros [= <-].
Qed.

Lemma cron_job_from_row_enabled row job :
  cron_job_from_row row = Ok job → job.(cj_enabled) = row.(jr_enabled).
Proof.
  unfold cron_job_from_row. destruct (parse_schedule _ _ _ _); cbn [result_bind]; [|done].
  destruct (execution_mode_from_str _); cbn [result_bind]; [|done].
  destruct (created_by_from_str _); cbn [result_bind]; [|done].
  destruct (opt_transpose _ (jr_agent_config row)); cbn [result_bind]; [|done].
  destruct (opt_transpose _ (jr_last_status row)); cbn [result_bind]; [|done]. by intros [= <-].
Qed.

Lemma elem_of_list_enabled row d :
  row ∈ list_enabled d ↔ (∃ id, d.(cd_jobs) !! id = Some row) ∧ row.(jr_enabled) = true.
Proof.
  unfold list_enabled, job_rows. rewrite order_by_perm, list_elem_of_filter, list_elem_of_fmap.
  split.
  - intros (He & [id row'] & -> & Hin%elem_of_map_to_list). eauto.
  - intros ((id & Hid) & He). split; [done|]. exists (id, row).
    by rewrite elem_of_map_to_list.
Qed.

(** C30: When the server has started, every enabled job has its timer: as long as occurrences of
    it are unfinished, one for that of them whose lease ends first (one of those, if there are
    several), due when that lease ends or at once; otherwise the one that its schedule and the
    next run of its row ask for, and none if the row has no next run. *)
Theorem init_schedules_every_job s :
  db_inv s.(cs_db) →
  let s' := init s in
  ∀ id row, s'.(cs_db).(cd_jobs) !! id = Some row → row.(jr_enabled) = true →
  ∃ job, cron_job_from_row row = Ok job ∧
    started_timer job s'.(cs_db) (s'.(cs_handles) !! id).
Proof.
  intros Hinv s'. pose proof (steps_inv _ _ (steps_init s) Hinv) as [Hruns Hrows].
  unfold s', init in *.
  set (s0 := set_cs_db (cleanup_runs_before _ (cs_db s)).2 s) in *. clearbody s0. clear s'.
  assert ((foldl init_row s0 (list_enabled (cs_db s0))).(cs_db) = cs_db s0) as Hdb.
  { apply (foldl_inv init_row (λ _ s1, cs_db s1 = cs_db s0)); [|done].
    intros row _ s1 Hs1. by rewrite (proj1 (init_row_spec s1 row EmptyString)). }
  rewrite Hdb in *. intros id row Hrow Hen.
  destruct (Hrows _ _ Hrow) as [Hid Hp%row_parses_job].
  destruct (cron_job_from_row row) as [job|] eqn:Hjob; [|done]. exists job. split; [done|].
  cut (cs_handles (foldl init_row s0 (list_enabled (cs_db s0))) !! id =
         timer_after_start job (cs_db s0)).
  { intros ->. apply timer_after_start_spec; [done|]. by rewrite (cron_job_from_row_enabled _ _ Hjob). }
  assert (row ∈ list_enabled (cs_db s0)) as Hin by (apply elem_of_list_enabled; eauto).
  pose proof (λ r, proj1 (elem_of_list_enabled r (cs_db s0))) as Hall.
  assert (row ∉ ([] : list CronJobRow)) as Hnil by apply not_elem_of_nil.
  revert Hnil. generalize dependent (list_enabled (cs_db s0)). intros l _ Hin Hall Hnil.
  destruct (foldl_inv init_row (λ l' s1, (∀ r, r ∈ l' → r ∈ l) ∧ cs_db s1 = cs_db s0 ∧
    (row ∈ l' ∨ cs_handles s1 !! id = timer_after_start job (cs_db s0))) l s0) as (_ & _ & [?|?]);
    [|by split; auto|done|done].
  intros x l' s1 (Hl & Hs1 & Hx). destruct (init_row_spec s1 x id) as [E1 E2].
  split; [set_solver|]. split; [congruence|].
  destruct (Hall x (Hl x ltac:(set_solver))) as [[id' Hid'] _].
  destruct (Hrows _ _ Hid') as [Hxid Hxp%row_parses_job].
  destruct (cron_job_from_row x) as [jobx|] eqn:Hjobx; [|done].
  pose proof (cron_job_from_row_id _ _ Hjobx) as Hjx. rewrite E2.
  case_decide as Hd.
  - right. rewrite Hs1. assert (x = row) as -> by congruence. congruence.
  - destruct Hx as [[->|?]%elem_of_cons|?]; [|by left|by right].
    exfalso. apply Hd. congruence.
Qed.

(** ** A conversation is deleted *)

Lemma update_keeps_jobs id p s id' :
  is_Some ((repo_try_update id p s).(cs_db).(cd_jobs) !! id') ↔ is_Some (s.(cs_db).(cd_jobs) !! id').
Proof.
  unfold repo_try_update, repo_update, db_act, update_cron_row. destruct (is_no_changes p); [done|].
  destruct (cd_jobs (cs_db s) !! id) as [row|] eqn:Hrow; [|done]. destruct (job_row_ok _); [|done].
  cbn. destruct (decide (id' = id)) as [->|]; [|by rewrite lookup_insert_ne].
  rewrite lookup_insert_eq, Hrow. by split.
Qed.

Lemma update_keeps_handles id p s : (repo_try_update id p s).(cs_handles) = s.(cs_handles).
Proof.
  unfold repo_try_update, repo_update, db_act. by destruct (update_cron_row id p now_ms (cs_db s)).
Qed.

(** The jobs of a deleted conversation are kept, with their timers. *)
Lemma conversation_deleted_keeps_jobs c s :
  let s' := delete_jobs_by_conversation c s in
  s'.(cs_handles) = s.(cs_handles) ∧
  ∀ id, is_Some (s'.(cs_db).(cd_jobs) !! id) ↔ is_Some (s.(cs_db).(cd_jobs) !! id).
Proof.
  cbn zeta. unfold delete_jobs_by_conversation.
  destruct (auto_workspace_to_delete c) as [[path|]|]; [|naive_solver..].
  apply (foldl_inv (clear_workspace_row path) (λ _ s', cs_handles s' = cs_handles s ∧
    ∀ id, is_Some (cd_jobs (cs_db s') !! id) ↔ is_Some (cd_jobs (cs_db s) !! id))); [|by split].
  intros row _ s0 [Hh Hj]. unfold clear_workspace_row.
  destruct (jr_agent_config row); [|done]. destruct (config_of_json _) as [config|]; [|done].
  destruct (ac_workspace config); [|done]. destruct (workspace_matches_path _ _); [|done].
  split; [by rewrite update_keeps_handles|]. intros id. by rewrite update_keeps_jobs.
Qed.
End effects.

(** ** A service at work *)

#[local] Existing Instance plain_cron_json.

Definition no_update : UpdateCronJobRequest :=
  MkUpdateCronJobRequest None None None None None None None None None None.

(** The job of [demo_state] is given a new period and another number of retries. *)
Definition demo_update : UpdateCronJobRequest :=
  {| uq_name := Some "Hourly"; uq_description := None; uq_enabled := None;
     uq_schedule := Some (DtoEvery 3600000 None); uq_message := None; uq_execution_mode := None;
     uq_agent_config := None; uq_conversation_title := None; uq_max_retries := Some 9%Z;
     uq_queue_enabled := None |}.

Definition updated : result CronJob CronError * CronState :=
  update_job (H0 := demo_env "a" 62000) "cron_1" demo_update demo_tick.2.

Lemma updated_ok : is_ok updated.1 = true.
Proof. by vm_compute. Qed.

Lemma update_job_stores_job_witness :
  ∃ job row row', updated.1 = Ok job ∧ updated.2.(cs_db).(cd_jobs) !! "cron_1" = Some row' ∧
    cron_job_from_row row' = Ok (stored_job row row'.(jr_updated_at) job).
Proof.
  destruct updated.1 as [job|] eqn:Hjob; [|pose proof updated_ok as Hok; rewrite Hjob in Hok; done].
  destruct (update_job_stores_job (H0 := demo_env "a" 62000) "cron_1" demo_update demo_tick.2 job
    updated.2) as (row & row' & job0 & _ & _ & Hdb & _ & Hstored).
  - rewrite <- Hjob. exact (surjective_pairing updated).
  - intros dto Hdto. injection Hdto as <-. reflexivity.
  - exists job, row, row'. split; [reflexivity|]. split; [rewrite Hdb; apply lookup_insert_eq|].
    apply Hstored. right. left. discriminate.
Defined.

(** The number of retries of the request is answered and not stored. *)
Lemma update_job_loses_max_retries :
  (match updated.1 with Ok job => Some job.(cj_max_retries) | Err _ => None end) = Some 9%Z ∧
  jr_max_retries <$> updated.2.(cs_db).(cd_jobs) !! "cron_1" = Some 3%Z.
Proof. split; vm_compute; reflexivity. Qed.

(** A job whose schedule changes while it is executed goes by the old schedule afterwards:
    its row has the new period with the next run of the old one, and the timer has the old
    period. *)
Lemma execution_restores_old_schedule job :
  demo_tick.1 = Some job →
  let s := handle_execution_result (H0 := demo_env "a" 70000) job 61000 (Success "conv") updated.2 in
  (λ row, (row.(jr_schedule_value), row.(jr_next_run_at))) <$> s.(cs_db).(cd_jobs) !! "cron_1" =
    Some ("3600000", Some 121000%Z) ∧
  s.(cs_handles) !! "cron_1" = Some (Some (spawn_every_timer 121000 60000)).
Proof.
  intros Hjob. vm_compute in Hjob. injection Hjob as <-. split; vm_compute; reflexivity.
Qed.

(** A job without a conversation is told to make a new one each time: the answer has no
    title, the row keeps the one it had. *)
Definition untitled_request : CreateCronJobRequest :=
  {| cq_name := "Report"; cq_description := None; cq_schedule := DtoEvery 60000 None;
     cq_prompt := None; cq_message := Some "write the report"; cq_conversation_id := EmptyString;
     cq_conversation_title := Some "Old title"; cq_created_by := "user";
     cq_execution_mode := None; cq_queue_enabled := false;
     cq_agent_config := cq_agent_config demo_request |}.

Lemma update_job_keeps_old_title :
  let s := do_act (demo_env "a" 1000) (ActAdd untitled_request None) initial_cron_state in
  let r := update_job (H0 := demo_env "a" 2000) "cron_1"
             {| uq_name := None; uq_description := None; uq_enabled := None; uq_schedule := None;
                uq_message := None; uq_execution_mode := Some "new_conversation";
                uq_agent_config := None; uq_conversation_title := None; uq_max_retries := None;
                uq_queue_enabled := None |} s in
  (match r.1 with Ok job => Some job.(cj_conversation_title) | Err _ => None end) = Some None ∧
  jr_conversation_title <$> r.2.(cs_db).(cd_jobs) !! "cron_1" = Some (Some "Old title").
Proof. split; vm_compute; reflexivity. Qed.

Lemma demo_tick_rows :
  ∃ row run, demo_tick.2.(cs_db).(cd_jobs) !! "cron_1" = Some row ∧ job_row_ok row ∧
    row.(jr_run_count) = 0%Z ∧
    demo_tick.2.(cs_db).(cd_runs) !! ("cron_1", 61000%Z) = Some run ∧ owned_by "a" run.
Proof.
  eexists _, _. split; [vm_compute; reflexivity|]. split; [vm_compute; exact I|].
  split; [reflexivity|]. split; [vm_compute; reflexivity|]. split; reflexivity.
Qed.

Lemma demo_tick_id job : demo_tick.1 = Some job → job.(cj_id) = "cron_1".
Proof. intros Hjob. vm_compute in Hjob. by injection Hjob as <-. Qed.

Lemma execution_is_recorded_witness :
  ∃ job row', demo_tick.1 = Some job ∧
    (handle_execution_result (H0 := demo_env "a" 70000) job 61000 (Success "conv")
       demo_tick.2).(cs_db).(cd_jobs) !! "cron_1" = Some row' ∧
    row'.(jr_last_status) = Some "ok" ∧ row'.(jr_run_count) = 1%Z.
Proof.
  destruct demo_tick_claims as [job Hjob]. exists job.
  destruct demo_tick_rows as (row & run & Hrow & Hok & Hn & Hrun & Howned).
  pose proof (demo_tick_id _ Hjob) as Hid. rewrite <- Hid in Hrow, Hrun.
  destruct (execution_is_recorded (H0 := demo_env "a" 70000) job 61000 (Success "conv") demo_tick.2
    row run "ok" Hrow Hok Hrun Howned eq_refl) as (_ & (row' & Hrow' & Hst & _ & Hc) & _).
  exists row'. rewrite Hid in Hrow'. split; [exact Hjob|]. split; [exact Hrow'|].
  split; [exact Hst|]. rewrite Hc, Hn. reflexivity.
Defined.

(** The server starts again while the occurrence is unfinished. *)
Lemma init_schedules_every_job_witness :
  let s := init (H0 := demo_env "a" 200000) demo_tick.2 in
  s.(cs_handles) !! "cron_1" = Some (Some (spawn_occurrence_timer 61000 200000)) ∧
  ∃ job, job.(cj_id) = "cron_1" ∧
    started_timer (H0 := demo_env "a" 200000) job s.(cs_db)
      (Some (Some (spawn_occurrence_timer 61000 200000))).
Proof.
  assert (db_inv demo_tick.2.(cs_db)) as Hinv.
  { apply (steps_inv (run_acts (take 2 demo_acts) initial_cron_state)).
    - exact (steps_tick_claim (H0 := demo_env "a" 61000) "cron_1" 61000 _).
    - apply (foldl_inv (λ s ea, do_act ea.1 ea.2 s)
        (λ l s, Forall (λ ea, act_in_range ea.2) l ∧ db_inv s.(cs_db))).
      + intros [e a] l' s [[Ha Hl']%Forall_cons Hs]. split; [exact Hl'|].
        exact (steps_inv _ _ (do_act_steps e a s Ha) Hs).
      + split; [repeat constructor|]. split; [by intros j t r|]. by intros id row. }
  destruct (init_schedules_every_job (H0 := demo_env "a" 200000) demo_tick.2 Hinv "cron_1"
    (default demo_row ((init (H0 := demo_env "a" 200000) demo_tick.2).(cs_db).(cd_jobs) !! "cron_1")))
    as (job & Hjob & Ht).
  - vm_compute. reflexivity.
  - vm_compute. reflexivity.
  - split; [vm_compute; reflexivity|]. exists job.
    split; [by rewrite (cron_job_from_row_id _ _ Hjob); vm_compute|].
    assert ((init (H0 := demo_env "a" 200000) demo_tick.2).(cs_handles) !! "cron_1" =
      Some (Some (spawn_occurrence_timer 61000 200000))) as Hh by (vm_compute; reflexivity).
    by rewrite Hh in Ht.
Defined.
