(* ===== verification/Middleware.v ===== *)
(** * Conversation: the middleware of a finished reply

    Models [aionui-conversation/src/response_middleware.rs] and the [SharedSkillResolver]
    of [stream_relay.rs].  The two regular expressions are written out as scanners: a match
    is the leftmost one, the next one is looked for after it.  Strings are their UTF-8
    bytes. *)
From Stdlib Require Import Ascii String.
From S2P Require Import Prelude Text.

(** ** [THINK_TAG_RE]: an opening tag, anything, the first closing tag after it *)

Definition think_open (s : string) : option string :=
  match strip_prefix "<think>" s with
  | Some rest => Some rest
  | None => strip_prefix "<thinking>" s
  end.

Definition think_close (s : string) : option string :=
  match strip_prefix "</think>" s with
  | Some rest => Some rest
  | None => strip_prefix "</thinking>" s
  end.

(** What follows the first closing tag *)
Fixpoint after_close (s : string) : option string :=
  match think_close s with
  | Some rest => Some rest
  | None => match s with String _ s => after_close s | EmptyString => None end
  end.

(** A match at the start of [s]: what follows it *)
Definition think_match (s : string) : option string := think_open s ≫= after_close.

(** [THINK_TAG_RE.replace_all(text, "")]; [skip] bytes of a match are left to drop. *)
Fixpoint strip_from (skip : nat) (s : string) : string :=
  match s with
  | EmptyString => EmptyString
  | String a s' =>
      match skip with
      | S skip => strip_from skip s'
      | 0 =>
          match think_match s with
          | Some rest => strip_from (String.length s' - String.length rest) s'
          | None => String a (strip_from 0 s')
          end
      end
  end.

Definition strip_think_tags (text : string) : string := strip_from 0 text.

(** ** [LOAD_SKILL_RE]

    [(?i)] folds the case of Unicode: U+212A is a [K] and U+017F an [S]. *)
Definition fold_char (c : ascii) (s : string) : option string :=
  match s with
  | String a s' =>
      if bool_decide (to_ascii_lowercase (String a EmptyString) =
                      to_ascii_lowercase (String c EmptyString)) then Some s'
      else if bool_decide (c = "K"%char)
      then strip_prefix (String "226" (String "132" (String "170" EmptyString))) s
      else if bool_decide (c = "S"%char)
      then strip_prefix (String "197" (String "191" EmptyString)) s
      else None
  | EmptyString => None
  end.

Fixpoint fold_prefix (pat s : string) : option string :=
  match pat with
  | EmptyString => Some s
  | String c pat => s ← fold_char c s; fold_prefix pat s
  end.

(** A match at the start of [s]: the name, trimmed, and what follows the match.  [\s*] gives
    back a white space when nothing else is left for the name, which is then trimmed. *)
Definition load_skill_match (s : string) : option (string * string) :=
  rest ← fold_prefix "[LOAD_SKILL:" s;
  '(name, rest) ← split_once "]" rest;
  if bool_decide (name = EmptyString) then None else Some (utrim name, rest).

(** [LOAD_SKILL_RE.captures_iter(text)]: the first group of each match, trimmed. *)
Fixpoint skill_captures (skip : nat) (s : string) : list string :=
  match s with
  | EmptyString => []
  | String _ s' =>
      match skip with
      | S skip => skill_captures skip s'
      | 0 =>
          match load_skill_match s with
          | Some (name, rest) => name :: skill_captures (String.length s' - String.length rest) s'
          | None => skill_captures 0 s'
          end
      end
  end.

Definition detect_skill_load_requests (text : string) : list string :=
  foldl (λ names name,
    if bool_decide (name = EmptyString) || bool_decide (name ∈ names) then names
    else names ++ [name]) [] (skill_captures 0 text).

Fixpoint has_skill_load_requests (s : string) : bool :=
  bool_decide (is_Some (load_skill_match s)) ||
  match s with String _ s => has_skill_load_requests s | EmptyString => false end.

(** ** [MessageMiddleware] *)

(** [lk] = [LoadedAgentSkill] *)
Record LoadedAgentSkill := mkLoadedAgentSkill { lk_name : string; lk_body : string }.

(** [mr] = [MiddlewareResult] *)
Record MiddlewareResult := mkMiddlewareResult {
  mr_message : string;
  mr_display_message : option string;
  mr_system_responses : list string;
}.

(** [skill_loader.load_skill_bodies(names)] *)
Abbreviation SkillLoader := (list string → list LoadedAgentSkill) (only parsing).

Definition load_requested_skills (skill_loader : option SkillLoader) (names : list string) :
    list string :=
  match names, skill_loader with
  | [], _ | _, None => []
  | _, Some load =>
      (λ skill, "[Skill: " +:+ skill.(lk_name) +:+ "]" +:+ newline +:+ skill.(lk_body)) <$> load names
  end.

(** [MessageMiddleware::process] *)
Definition process (skill_loader : option SkillLoader) (message : string) : MiddlewareResult :=
  let cleaned := strip_think_tags message in
  mkMiddlewareResult cleaned None
    (load_requested_skills skill_loader (detect_skill_load_requests cleaned)).

(** [SharedSkillResolver::load_skill_bodies] *)
Definition shared_loader (resolver : SkillLoader) (allowed_skill_names : list string) : SkillLoader :=
  λ names,
    if bool_decide (allowed_skill_names = []) then []
    else resolver (filter (λ name, name ∈ allowed_skill_names) names).
