(* ===== verification/MiddlewareProps.v ===== *)
(** * Conversation: the middleware reads its mark-up

    On a reply made of plain text, thoughts between their tags and requests for skills, the
    scanners of [Middleware] find exactly the parts: the thoughts are dropped, with the
    requests they hold, and the skills of the other requests are those that are asked for. *)
From Stdlib Require Import Ascii String.
From S2P Require Import Prelude Text Middleware.

(** The tags come in two spellings. *)
Inductive part :=
  | Plain (s : string)
  | Thought (long_open long_close : bool) (s : string)
  | Request (name : string).

Definition open_tag (long : bool) : string := if long then "<thinking>" else "<think>".
Definition close_tag (long : bool) : string := if long then "</thinking>" else "</think>".

Definition part_text (p : part) : string :=
  match p with
  | Plain s => s
  | Thought o c s => open_tag o +:+ (s +:+ close_tag c)
  | Request name => "[LOAD_SKILL:" +:+ (name +:+ "]")
  end.

Fixpoint text_of_parts (parts : list part) : string :=
  match parts with
  | [] => ""
  | p :: parts => part_text p +:+ text_of_parts parts
  end.

(** The parts use the characters of the mark-up only where they should. *)
Definition well_marked (p : part) : bool :=
  match p with
  | Plain s => no_char "<" s && no_char "[" s
  | Thought _ _ s => no_char "<" s
  | Request name => no_char "<" name && no_char "]" name && bool_decide (name ≠ EmptyString)
  end.

Definition is_thought (p : part) : bool := match p with Thought _ _ _ => true | _ => false end.
Definition said_parts (parts : list part) : list part := List.filter (λ p, negb (is_thought p)) parts.

(** The names that are asked for, in order, once each *)
Definition add_name (names : list string) (name : string) : list string :=
  if bool_decide (name = EmptyString) || bool_decide (name ∈ names) then names
  else names ++ [name].

Definition requested (parts : list part) : list string :=
  foldl (λ names p, match p with Request name => add_name names (utrim name) | _ => names end)
    [] parts.

(** ** Thoughts *)

Lemma no_char_inv c a s : no_char c (String a s) = true → a ≠ c ∧ no_char c s = true.
Proof. cbn. intros [Ha%bool_decide_eq_true Hs]%andb_true_iff. done. Qed.

Lemma think_open_plain a s : a ≠ "<"%char → think_open (String a s) = None.
Proof. intros Ha. unfold think_open. cbn. rewrite !bool_decide_false by congruence. done. Qed.

Lemma think_close_plain a s : a ≠ "<"%char → think_close (String a s) = None.
Proof. intros Ha. unfold think_close. cbn. rewrite !bool_decide_false by congruence. done. Qed.

Lemma after_close_body c s rest :
  no_char "<" s = true → after_close (s +:+ (close_tag c +:+ rest)) = Some rest.
Proof.
  induction s as [|a s IH].
  - intros _. rewrite string_app_nil. by destruct c.
  - intros [Ha Hs]%no_char_inv. rewrite string_app_cons. cbn [after_close].
    rewrite think_close_plain by done. by apply IH.
Qed.

Lemma strip_plain s rest :
  no_char "<" s = true → strip_from 0 (s +:+ rest) = s +:+ strip_from 0 rest.
Proof.
  induction s as [|a s IH].
  - intros _. by rewrite !string_app_nil.
  - intros [Ha Hs]%no_char_inv. rewrite !string_app_cons. cbn [strip_from].
    unfold think_match. rewrite think_open_plain by done. cbn. by rewrite IH.
Qed.

Lemma strip_skipped s rest : strip_from (String.length s) (s +:+ rest) = strip_from 0 rest.
Proof. induction s as [|a s IH]; [done|]. rewrite string_app_cons. apply IH. Qed.

Lemma strip_thought o c s rest :
  no_char "<" s = true → strip_from 0 (part_text (Thought o c s) +:+ rest) = strip_from 0 rest.
Proof.
  intros Hs. cbn [part_text]. rewrite !string_app_assoc.
  assert (∀ tag tail, tag = String "<" tail →
    think_open (tag +:+ (s +:+ (close_tag c +:+ rest))) = Some (s +:+ (close_tag c +:+ rest)) →
    strip_from 0 (tag +:+ (s +:+ (close_tag c +:+ rest))) = strip_from 0 rest) as Hstrip.
  { intros tag tail -> Ho. rewrite string_app_cons in *. cbn [strip_from].
    unfold think_match. rewrite Ho. cbn [mbind option_bind]. rewrite after_close_body by done.
    transitivity (strip_from (String.length (tail +:+ (s +:+ close_tag c)))
      ((tail +:+ (s +:+ close_tag c)) +:+ rest)); [|apply strip_skipped].
    rewrite !string_app_assoc, !string_length_app. f_equal. lia. }
  destruct o; (eapply Hstrip; [reflexivity|]); reflexivity.
Qed.

Lemma strip_parts parts :
  Forall (λ p, well_marked p = true) parts →
  strip_think_tags (text_of_parts parts) = text_of_parts (said_parts parts).
Proof.
  unfold strip_think_tags. induction parts as [|p parts IH]; [done|].
  intros [Hp Hparts]%Forall_cons. cbn [text_of_parts said_parts List.filter]. fold (said_parts parts).
  destruct p as [s|o c s|name]; cbn [is_thought negb text_of_parts].
  - apply andb_prop in Hp as [Hp _]. cbn [part_text]. by rewrite strip_plain, IH.
  - by rewrite strip_thought, IH.
  - apply andb_prop in Hp as [[Hp _]%andb_prop _]. cbn [part_text].
    rewrite <- IH by done. apply strip_plain. rewrite !no_char_app, Hp. reflexivity.
Qed.

(** ** Requests *)

Lemma fold_char_bracket a s : a ≠ "["%char → fold_char "[" (String a s) = None.
Proof.
  intros Ha. unfold fold_char.
  assert (to_ascii_lowercase (String a EmptyString) ≠ to_ascii_lowercase (String "[" EmptyString))
    as Hl.
  { destruct a as [[] [] [] [] [] [] [] []]; try discriminate. by destruct Ha. }
  by rewrite bool_decide_false.
Qed.

Lemma match_plain a s : a ≠ "["%char → load_skill_match (String a s) = None.
Proof.
  intros Ha. unfold load_skill_match. cbn [fold_prefix]. by rewrite fold_char_bracket.
Qed.

Lemma match_request name rest :
  no_char "]" name = true → name ≠ EmptyString →
  load_skill_match (part_text (Request name) +:+ rest) = Some (utrim name, rest).
Proof.
  intros Hn Hne. cbn [part_text]. rewrite !string_app_assoc. unfold load_skill_match.
  change (fold_prefix "[LOAD_SKILL:" ("[LOAD_SKILL:" +:+ (name +:+ ("]" +:+ rest))))
    with (Some (name +:+ ("]" +:+ rest))).
  cbn [mbind option_bind]. change ("]" +:+ rest) with (String "]" rest).
  rewrite split_once_app by done. cbn. by rewrite bool_decide_false.
Qed.

Lemma captures_plain s rest :
  no_char "[" s = true → skill_captures 0 (s +:+ rest) = skill_captures 0 rest.
Proof.
  induction s as [|a s IH]; [by rewrite string_app_nil|].
  intros [Ha Hs]%no_char_inv. rewrite string_app_cons. cbn [skill_captures].
  rewrite match_plain by done. by apply IH.
Qed.

Lemma captures_skipped s rest : skill_captures (String.length s) (s +:+ rest) = skill_captures 0 rest.
Proof. induction s as [|a s IH]; [done|]. rewrite string_app_cons. apply IH. Qed.

Lemma captures_request name rest :
  no_char "]" name = true → name ≠ EmptyString →
  skill_captures 0 (part_text (Request name) +:+ rest) = utrim name :: skill_captures 0 rest.
Proof.
  intros Hn Hne. pose proof (match_request name rest Hn Hne) as Hm.
  set (tail := "LOAD_SKILL:" +:+ (name +:+ "]")).
  change (part_text (Request name)) with (String "[" tail) in *.
  rewrite string_app_cons in *. cbn [skill_captures]. rewrite Hm. f_equal.
  rewrite string_length_app, Nat.add_sub. apply captures_skipped.
Qed.

Fixpoint names (parts : list part) : list string :=
  match parts with
  | [] => []
  | Request name :: parts => utrim name :: names parts
  | _ :: parts => names parts
  end.

Lemma captures_parts parts :
  Forall (λ p, well_marked p = true) parts →
  skill_captures 0 (text_of_parts (said_parts parts)) = names (said_parts parts).
Proof.
  induction parts as [|p parts IH]; [done|]. intros [Hp Hparts]%Forall_cons.
  cbn [said_parts List.filter]. fold (said_parts parts).
  destruct p as [s|o c s|name]; cbn [is_thought negb text_of_parts names].
  - apply andb_prop in Hp as [_ Hp]. cbn [part_text]. by rewrite captures_plain, IH.
  - by apply IH.
  - apply andb_prop in Hp as [[_ Hp]%andb_prop Hne%bool_decide_eq_true].
    by rewrite captures_request, IH.
Qed.

Lemma requested_names parts : foldl add_name [] (names parts) = requested parts.
Proof.
  unfold requested. generalize (@nil string) as seen.
  induction parts as [|[s|o c s|name] parts IH]; intros seen; cbn; [done|apply IH..].
Qed.

(** C25: On a reply in which only the mark-up has the characters of the mark-up ([well_marked]:
    no < and no [ in the plain text, no < in a thought, neither < nor ] in the name of a request,
    which is not empty): what is left of it is its text and its requests, and the bodies of the
    skills are those of the names that are asked for outside the thoughts, once each and in
    order, as far as the conversation is allowed them.  Without the proviso a thought can leak:
    [nested_thought_leaks]. *)
Theorem process_reads_markup resolver allowed parts :
  Forall (λ p, well_marked p = true) parts →
  let r := process (Some (shared_loader resolver allowed)) (text_of_parts parts) in
  let asked_for := requested (said_parts parts) in
  let granted := filter (λ name, name ∈ allowed) asked_for in
  r.(mr_message) = text_of_parts (said_parts parts) ∧
  r.(mr_system_responses) =
    (if bool_decide (asked_for = []) || bool_decide (allowed = []) then []
     else (λ skill, "[Skill: " +:+ skill.(lk_name) +:+ "]" +:+ newline +:+ skill.(lk_body)) <$>
            resolver granted).
Proof.
  intros Hwf. cbn zeta. unfold process. cbn [mr_message mr_system_responses].
  rewrite strip_parts by done. split; [done|].
  unfold detect_skill_load_requests. rewrite captures_parts by done. fold add_name.
  rewrite requested_names.
  unfold load_requested_skills, shared_loader.
  destruct (requested (said_parts parts)) as [|name asked_for]; [done|].
  cbn [orb]. rewrite (bool_decide_false (name :: asked_for = [])) by done. cbn [orb].
  by case_bool_decide.
Qed.


(** ** A reply *)

Definition two_thoughts : list part :=
  [Thought false true "should I load [LOAD_SKILL: secret]?"; Plain "Sure. "; Request " pdf ";
   Thought true false "now csv"; Request "csv"; Request "pdf"; Plain " Done."].

Example process_reads_markup_witness :
  let r := process (Some (shared_loader (λ names, (λ name, mkLoadedAgentSkill name "body") <$> names)
                            ["pdf"])) (text_of_parts two_thoughts) in
  r.(mr_message) = "Sure. [LOAD_SKILL: pdf ][LOAD_SKILL:csv][LOAD_SKILL:pdf] Done." ∧
  r.(mr_system_responses) = ["[Skill: pdf]" +:+ newline +:+ "body"].
Proof.
  assert (Hwf : Forall (λ p, well_marked p = true) two_thoughts) by (repeat constructor).
  destruct (process_reads_markup (λ names, (λ name, mkLoadedAgentSkill name "body") <$> names)
    ["pdf"] two_thoughts Hwf) as [Hm Hs].
  split; [exact Hm|exact Hs].
Defined.

(** A thought within a thought ends with the inner tag: the rest of it is shown, and what it
    asks for is loaded. *)
Example nested_thought_leaks :
  strip_think_tags "<think>a <think>b</think> I must [LOAD_SKILL: secret]</think>done" =
    " I must [LOAD_SKILL: secret]</think>done" ∧
  detect_skill_load_requests (strip_think_tags
    "<think>a <think>b</think> I must [LOAD_SKILL: secret]</think>done") = ["secret"].
Proof. vm_compute. split; reflexivity. Qed.
