(* ===== verification/Stream.v ===== *)
(** * Conversation: the events of an agent and what is stored of them

    Models the events ([aionui-ai-agent/src/protocol/events]), the tables of messages and
    conversations ([sqlite_conversation.rs]: the statements the relay uses) and
    [stream_persistence.rs] with [runtime_completion.rs] of [aionui-conversation].

    A task suspends at each statement: [StreamEnv] gives, for the [n]-th thing a task does,
    what the others wrote before it, whether the statement fails, what the runtime state of
    the conversations is, what the clock reads and which identifier is drawn. *)
From S2P Require Import Prelude Text Storage ConvRuntime ConvPolicy.

(** ** Events *)

Inductive TipType := TipError | TipInfo | TipSuccess | TipWarning.
Inductive ToolCallStatus := ToolRunning | ToolCompleted | ToolError.
Inductive AcpToolCallStatus := AcpPending | AcpInProgress | AcpCompleted | AcpFailed.

#[global] Instance TipType_eq_dec : EqDecision TipType.
Proof. solve_decision. Defined.

Section data.
Context `{!JsonValue}.

(** [th] = [ThinkingEventData] *)
Record ThinkingEventData := mkThinking {
  th_content : string;
  th_subject : option string;
  th_duration : option Z;
  th_status : option string;
}.

(** [tp] = [TipsEventData] *)
Record TipsEventData := mkTips {
  tp_content : string;
  tp_tip_type : TipType;
  tp_code : option string;
  tp_params : option json;
}.

(** [tcd] = [ToolCallEventData] *)
Record ToolCallEventData := mkToolCall {
  tcd_call_id : string;
  tcd_name : string;
  tcd_args : json;
  tcd_status : ToolCallStatus;
  tcd_input : option json;
  tcd_output : option string;
  tcd_description : option string;
}.

(** [acd] = [AcpToolCallEventData]; [acd_rest] are the fields that are only serialised. *)
Record AcpToolCallEventData := mkAcpToolCall {
  acd_session_id : string;
  acd_tool_call_id : string;
  acd_status : option AcpToolCallStatus;
  acd_rest : json;
}.

(** [tg] = [ToolGroupEntry] *)
Record ToolGroupEntry := mkToolGroupEntry {
  tg_call_id : string;
  tg_name : string;
  tg_status : ToolCallStatus;
  tg_description : option string;
}.

(** [AgentStreamEvent]; the data of the events that are only forwarded is their JSON. *)
Inductive AgentStreamEvent :=
  | EvStart (data : json)
  | EvText (content : string)
  | EvTips (data : TipsEventData)
  | EvToolCall (data : ToolCallEventData)
  | EvAcpToolCall (data : AcpToolCallEventData)
  | EvToolGroup (entries : list ToolGroupEntry)
  | EvAgentStatus (data : json)
  | EvThinking (data : ThinkingEventData)
  | EvPlan (data : json)
  | EvPermission (data : json)
  | EvAcpPermission (data : json)
  | EvSkillSuggest (data : json)
  | EvCronTrigger (data : json)
  | EvAcpModelInfo (data : json)
  | EvAcpModeInfo (data : json)
  | EvAcpConfigOption (data : json)
  | EvAcpSessionInfo (data : json)
  | EvAcpContextUsage (data : json)
  | EvAcpPromptHookWarning (data : json)
  | EvSlashCommandsUpdated (data : json)
  | EvAvailableCommands (data : json)
  | EvFinish (session_id : option string)
  | EvError (data : AgentStreamErrorData)
  | EvSystem (data : json)
  | EvRequestTrace (data : json)
  | EvSessionAssigned (data : json).

(** ** Rows and frames *)

(** [mg] = [MessageRow] *)
Record MessageRow := mkMessageRow {
  mg_id : string;
  mg_conversation_id : string;
  mg_msg_id : option string;
  mg_type : string;
  mg_content : string;
  mg_position : option string;
  mg_status : option string;
  mg_hidden : bool;
  mg_created_at : Z;
}.

#[global] Instance MessageRow_eq_dec : EqDecision MessageRow.
Proof. solve_decision. Defined.

(** [mu] = [MessageRowUpdate] *)
Record MessageRowUpdate := mkMessageRowUpdate {
  mu_content : option string;
  mu_status : option (option string);
  mu_hidden : option bool;
}.

(** The columns of a conversation that the end of a turn changes *)
Record ConversationColumns := mkConversationColumns {
  cc_status : option string;
  cc_updated_at : Z;
}.

Record Tables := mkTables {
  tb_messages : gmap string MessageRow;
  tb_conversations : gmap string ConversationColumns;
}.

(** What is sent to the web sockets: [message.stream] with an event, a rewritten text, a
    response of the system or a stored row, and [turn.completed].  They are JSON objects
    with the conversation and the turn; their encoding is left out. *)
Inductive StreamFrame :=
  | FrameEvent (msg_id : string) (event : AgentStreamEvent)
  | FrameOverride (msg_id text : string) (hidden : bool)
  | FrameSystem (msg_id response : string)
  | FrameRow (msg_id : string) (row : MessageRow)
  | FrameTurnCompleted (turn_id : string) (runtime : option ConversationRuntimeSummary).

(** The statements that change the tables *)
Inductive Write :=
  | InsertMessage (row : MessageRow)
  | UpsertMessage (row : MessageRow)
  | UpdateMessage (id : string) (updates : MessageRowUpdate)
  | FinishConversation (id : string) (updated_at : Z).

(** [wd]: what a task has done so far *)
Record World := mkWorld {
  wd_tick : nat;
  wd_tables : Tables;
  wd_writes : list Write;
  wd_frames : list StreamFrame;
  wd_replies : list (string * string * string);
}.
End data.

(** The environment of a task; the fields below the clock are the [serde] implementations
    of the data and the JSON functions of SQLite, which fail on malformed JSON:
    [json_patch(old, new)], and [json_set(new, path, json_extract(old, path))]. *)
Class StreamEnv := {
  se_values :: JsonValue;
  se_runtime : nat → ConversationRuntimeStateService;
  se_others : nat → Tables → Tables;
  se_fails : nat → bool;
  se_now : nat → Z;
  se_id : nat → string;
  se_event_serializes : AgentStreamEvent → bool;
  error_value : AgentStreamErrorData → json;
  tip_type_value : TipType → json;
  tool_call_text : ToolCallEventData → string;
  acp_tool_call_text : AcpToolCallEventData → string;
  tool_group_text : list ToolGroupEntry → string;
  json_patch : string → string → option string;
  json_keep : string → string → string → option string;
}.

(** ** Tasks *)

Definition task `{StreamEnv} (A : Type) : Type := World → A * World.

Section tasks.
Context `{StreamEnv}.

#[global] Instance task_ret : MRet task := λ A a w, (a, w).
#[global] Instance task_bind : MBind task := λ A B k m w, let '(a, w) := m w in k a w.

Definition set_wd_tables (t : Tables) (w : World) : World :=
  mkWorld w.(wd_tick) t w.(wd_writes) w.(wd_frames) w.(wd_replies).

(** Each reading of the environment is a moment of its own. *)
Definition moment {A} (f : nat → A) : task A := λ w,
  (f w.(wd_tick), mkWorld (S w.(wd_tick)) w.(wd_tables) w.(wd_writes) w.(wd_frames) w.(wd_replies)).

Definition now : task Z := moment se_now.
Definition mint_msg_id : task string := moment se_id.
Definition runtime {A} (f : ConversationRuntimeStateService → A) : task A :=
  moment (λ n, f (se_runtime n)).

Definition broadcast_frame (frame : StreamFrame) : task () := λ w,
  ((), mkWorld w.(wd_tick) w.(wd_tables) w.(wd_writes) (w.(wd_frames) ++ [frame]) w.(wd_replies)).

Definition send_reply (reply : string * string * string) : task () := λ w,
  ((), mkWorld w.(wd_tick) w.(wd_tables) w.(wd_writes) w.(wd_frames) (w.(wd_replies) ++ [reply])).

(** A statement: the others have written what they have, then it fails or runs. *)
Definition statement {A} (f : Tables → result A DbError * Tables) : task (result A DbError) := λ w,
  let n := w.(wd_tick) in
  let t := se_others n w.(wd_tables) in
  let '(r, t) := if se_fails n then (Err Query, t) else f t in
  (r, mkWorld (S n) t w.(wd_writes) w.(wd_frames) w.(wd_replies)).

Definition log_write (write : Write) : task () := λ w,
  ((), mkWorld w.(wd_tick) w.(wd_tables) (w.(wd_writes) ++ [write]) w.(wd_frames) w.(wd_replies)).

(** ** [SqliteConversationRepository]

    [id] is the primary key, [conversation_id] a foreign key. *)

Definition set_tb_messages (m : gmap string MessageRow) (t : Tables) : Tables :=
  mkTables m t.(tb_conversations).

Definition known_conversation (id : string) (t : Tables) : bool :=
  bool_decide (is_Some (t.(tb_conversations) !! id)).

Definition insert_message (message : MessageRow) : task (result () DbError) :=
  _ ← log_write (InsertMessage message);
  statement (λ t,
    if bool_decide (is_Some (t.(tb_messages) !! message.(mg_id))) ||
       negb (known_conversation message.(mg_conversation_id) t)
    then (Err Query, t)
    else (Ok (), set_tb_messages (<[message.(mg_id) := message]> t.(tb_messages)) t)).

(** The [ON CONFLICT(id) DO UPDATE] of an upsert; [None]: the JSON is malformed. *)
Definition merge_message (old excluded : MessageRow) : option MessageRow :=
  let settled :=
    bool_decide (old.(mg_status) = Some "finish" ∨ old.(mg_status) = Some "error") &&
    bool_decide (excluded.(mg_status) = Some "work") in
  patched ← json_patch old.(mg_content) excluded.(mg_content);
  content ← (if settled then
               if bool_decide (old.(mg_type) = "acp_tool_call")
               then json_keep "$.update.status" old.(mg_content) patched
               else json_keep "$.status" old.(mg_content) patched
             else Some patched);
  Some (mkMessageRow old.(mg_id) old.(mg_conversation_id) old.(mg_msg_id) old.(mg_type) content
    (match old.(mg_position) with Some p => Some p | None => excluded.(mg_position) end)
    (if settled then old.(mg_status) else excluded.(mg_status))
    excluded.(mg_hidden)
    (old.(mg_created_at) `min` excluded.(mg_created_at))%Z).

Definition upsert_message (message : MessageRow) : task (result () DbError) :=
  _ ← log_write (UpsertMessage message);
  statement (λ t,
    match t.(tb_messages) !! message.(mg_id) with
    | Some old =>
        match merge_message old message with
        | Some row => (Ok (), set_tb_messages (<[message.(mg_id) := row]> t.(tb_messages)) t)
        | None => (Err Query, t)
        end
    | None =>
        if known_conversation message.(mg_conversation_id) t
        then (Ok (), set_tb_messages (<[message.(mg_id) := message]> t.(tb_messages)) t)
        else (Err Query, t)
    end).

Definition update_row (updates : MessageRowUpdate) (row : MessageRow) : MessageRow :=
  mkMessageRow row.(mg_id) row.(mg_conversation_id) row.(mg_msg_id) row.(mg_type)
    (default row.(mg_content) updates.(mu_content)) row.(mg_position)
    (default row.(mg_status) updates.(mu_status)) (default row.(mg_hidden) updates.(mu_hidden))
    row.(mg_created_at).

Definition update_message (id : string) (updates : MessageRowUpdate) : task (result () DbError) :=
  if bool_decide (updates.(mu_content) = None ∧ updates.(mu_status) = None ∧
                  updates.(mu_hidden) = None)
  then mret (Ok ())
  else
    _ ← log_write (UpdateMessage id updates);
    statement (λ t,
      match t.(tb_messages) !! id with
      | Some row => (Ok (), set_tb_messages (<[id := update_row updates row]> t.(tb_messages)) t)
      | None => (Err (NotFound ("Message '" +:+ id +:+ "' not found")), t)
      end).

Definition get_message_by_msg_id (conv_id msg_id msg_type : string) :
    task (result (option MessageRow) DbError) :=
  statement (λ t, (Ok (snd <$> list_find (λ row,
      row.(mg_conversation_id) = conv_id ∧ row.(mg_msg_id) = Some msg_id ∧
      row.(mg_type) = msg_type) (map_to_list t.(tb_messages)).*2), t)).

(** [get], of which the code asks only whether there is a row *)
Definition get_conversation (id : string) : task (result (option ConversationColumns) DbError) :=
  statement (λ t, (Ok (t.(tb_conversations) !! id), t)).

(** [update] with the status [finished] *)
Definition finish_conversation (id : string) (updated_at : Z) : task (result () DbError) :=
  _ ← log_write (FinishConversation id updated_at);
  statement (λ t,
    match t.(tb_conversations) !! id with
    | Some _ => (Ok (), mkTables t.(tb_messages)
        (<[id := mkConversationColumns (Some "finished") updated_at]> t.(tb_conversations)))
    | None => (Err (NotFound ("Conversation '" +:+ id +:+ "' not found")), t)
    end).

(** ** [RuntimeCompletionPublisher::publish] *)

Definition publish (conversation_id turn_id : string)
    (summary : option ConversationRuntimeSummary) : task () :=
  allowed ← runtime (allows conversation_id WriteConversationFinished);
  if negb allowed then mret ()
  else
    row ← get_conversation conversation_id;
    match row with
    | Ok (Some _) =>
        updated_at ← now;
        r ← finish_conversation conversation_id updated_at;
        match r with
        | Ok _ => broadcast_frame (FrameTurnCompleted turn_id summary)
        | Err _ => mret ()
        end
    | Ok None | Err _ => mret ()
    end.
End tasks.

(** ** [stream_persistence.rs] *)

(** [tx] = [TextSegmentState] *)
Record TextSegmentState := mkTextSegment {
  tx_id : string;
  tx_buffer : string;
  tx_created_at : Z;
  tx_record_created : bool;
  tx_flush_counter : nat;
}.

(** [tk] = [ThinkingSegmentState] *)
Record ThinkingSegmentState := mkThinkingSegment {
  tk_id : string;
  tk_buffer : string;
  tk_started_at : Z;
}.

(** [PersistedTextSegment]: its identifier *)
Abbreviation PersistedTextSegment := string (only parsing).

(** [fo] = [FinalTextOverride] *)
Record FinalTextOverride := mkFinalTextOverride {
  fo_msg_id : string;
  fo_text : string;
  fo_hidden : bool;
}.

(** [ad] = [StreamPersistenceAdapter]; [ad_persistence]: it has a coordinator. *)
Record StreamPersistenceAdapter := mkAdapter {
  ad_conversation_id : string;
  ad_msg_id : string;
  ad_persistence : bool;
}.

Section adapter.
Context `{StreamEnv} (self : StreamPersistenceAdapter).

(** [json!({ "content": text }).to_string()] *)
Definition text_content (text : string) : string :=
  json_display (json_object [("content", json_string text)]).

Definition complete_conversation (turn_id : string)
    (summary : option ConversationRuntimeSummary) : task () :=
  if self.(ad_persistence) then publish self.(ad_conversation_id) turn_id summary
  else
    updated_at ← now;
    _ ← finish_conversation self.(ad_conversation_id) updated_at;
    broadcast_frame (FrameTurnCompleted turn_id summary).

Definition allows_write (kind : RuntimeWriteKind) : task bool :=
  if self.(ad_persistence) then runtime (allows self.(ad_conversation_id) kind) else mret true.

(** The row of a segment: on the left, under its own message identifier *)
Definition segment_row (id type content status : string) (created_at : Z) : MessageRow :=
  mkMessageRow id self.(ad_conversation_id) (Some id) type content (Some "left") (Some status)
    false created_at.

Definition set_record_created (segment : TextSegmentState) : TextSegmentState :=
  mkTextSegment segment.(tx_id) segment.(tx_buffer) segment.(tx_created_at) true
    segment.(tx_flush_counter).

(** [flush_text_segment]: the segment as it is left. *)
Definition flush_text_segment (segment : TextSegmentState) : task TextSegmentState :=
  allowed ← allows_write WriteAssistantTextFlush;
  if negb allowed then mret segment
  else if bool_decide (segment.(tx_buffer) = "") then mret segment
  else
    let content := text_content segment.(tx_buffer) in
    if segment.(tx_record_created) then
      _ ← update_message segment.(tx_id)
            (mkMessageRowUpdate (Some content) (Some (Some "work")) None);
      mret segment
    else
      _ ← insert_message (segment_row segment.(tx_id) "text" content "work" segment.(tx_created_at));
      mret (set_record_created segment).

Definition finalize_text_segment (segment : TextSegmentState) (status : string) :
    task (option PersistedTextSegment) :=
  allowed ← allows_write WriteAssistantTextFinalize;
  if negb allowed then mret None
  else if bool_decide (segment.(tx_buffer) = "") then mret None
  else
    let content := text_content segment.(tx_buffer) in
    r ← (if segment.(tx_record_created)
         then update_message segment.(tx_id)
                (mkMessageRowUpdate (Some content) (Some (Some status)) (Some false))
         else insert_message
                (segment_row segment.(tx_id) "text" content status segment.(tx_created_at)));
    match r with
    | Ok _ => mret (Some segment.(tx_id))
    | Err _ => mret None
    end.

(** [for segment in ids { update }] *)
Fixpoint update_each (ids : list string) (updates : MessageRowUpdate) : task () :=
  match ids with
  | [] => mret ()
  | id :: ids => _ ← update_message id updates; update_each ids updates
  end.

Definition persist_final_text (text_segments : list PersistedTextSegment)
    (status final_text : string) (hidden rewrite_segments : bool) :
    task (list FinalTextOverride) :=
  allowed ← allows_write WriteTerminalFinalize;
  if negb allowed then mret []
  else
    match text_segments with
    | primary_segment :: others =>
        if rewrite_segments then
          _ ← update_message primary_segment
                (mkMessageRowUpdate (Some (text_content final_text)) (Some (Some status))
                   (Some hidden));
          _ ← update_each others (mkMessageRowUpdate None (Some (Some status)) (Some true));
          mret (mkFinalTextOverride primary_segment final_text hidden ::
                ((λ id, mkFinalTextOverride id "" true) <$> others))
        else
          _ ← update_each text_segments (mkMessageRowUpdate None (Some (Some status)) (Some false));
          mret []
    | [] =>
        if hidden then mret []
        else
          created_at ← now;
          _ ← insert_message (segment_row self.(ad_msg_id) "text" (text_content final_text) status
                                created_at);
          mret []
    end.

(** A row of type [tips], without a message identifier *)
Definition tip_row (id content status : string) (created_at : Z) : MessageRow :=
  mkMessageRow id self.(ad_conversation_id) None "tips" content (Some "left") (Some status) false
    created_at.

Definition persist_error_tip (data : AgentStreamErrorData) : task () :=
  allowed ← allows_write WriteTerminalFinalize;
  if negb allowed then mret ()
  else
    let content := json_display (json_object
      [("content", json_string data.(ed_message)); ("type", json_string "error");
       ("error", error_value data)]) in
    id ← mint_msg_id;
    created_at ← now;
    _ ← insert_message (tip_row id content "error" created_at);
    mret ().

Definition optional_json (o : option json) : json := default json_null o.

Definition persist_tip (data : TipsEventData) : task () :=
  allowed ← allows_write WriteTerminalFinalize;
  if negb allowed then mret ()
  else
    let status := match data.(tp_tip_type) with
                  | TipError => "error"
                  | TipSuccess | TipWarning | TipInfo => "finish"
                  end in
    let content := json_display (json_object
      [("content", json_string data.(tp_content)); ("type", tip_type_value data.(tp_tip_type));
       ("code", optional_json (json_string <$> data.(tp_code)));
       ("params", optional_json data.(tp_params))]) in
    id ← mint_msg_id;
    created_at ← now;
    _ ← insert_message (tip_row id content status created_at);
    mret ().

Definition persist_thinking_segment (segment : ThinkingSegmentState) (duration_ms : Z) : task () :=
  if bool_decide (segment.(tk_buffer) = "") then mret ()
  else
    allowed ← allows_write WriteAssistantThinkingFinalize;
    if negb allowed then mret ()
    else
      let content := json_display (json_object
        [("content", json_string segment.(tk_buffer)); ("status", json_string "done");
         ("duration_ms", json_number duration_ms)]) in
      _ ← insert_message (segment_row segment.(tk_id) "thinking" content "finish"
                            segment.(tk_started_at));
      mret ().

Definition tool_call_status (status : ToolCallStatus) : string :=
  match status with
  | ToolRunning => "work"
  | ToolCompleted => "finish"
  | ToolError => "error"
  end.

Definition persist_tool_call (data : ToolCallEventData) : task () :=
  allowed ← allows_write WriteToolCallPersist;
  if negb allowed then mret ()
  else if is_blank data.(tcd_call_id) then mret ()
  else
    created_at ← now;
    _ ← upsert_message (segment_row data.(tcd_call_id) "tool_call" (tool_call_text data)
                          (tool_call_status data.(tcd_status)) created_at);
    mret ().

Definition acp_tool_call_status (status : option AcpToolCallStatus) : string :=
  match status with
  | Some AcpPending | None => "work"
  | Some AcpInProgress => "work"
  | Some AcpCompleted => "finish"
  | Some AcpFailed => "error"
  end.

Definition persist_acp_tool_call (data : AcpToolCallEventData) : task () :=
  allowed ← allows_write WriteAcpToolCallPersist;
  if negb allowed then mret ()
  else
    created_at ← now;
    _ ← upsert_message (segment_row data.(acd_tool_call_id) "acp_tool_call"
                          (acp_tool_call_text data) (acp_tool_call_status data.(acd_status))
                          created_at);
    mret ().

Definition tool_done (entry : ToolGroupEntry) : bool :=
  match entry.(tg_status) with ToolCompleted | ToolError => true | ToolRunning => false end.

(** The row of a group is updated if there is one, inserted otherwise. *)
Definition store_tool_group (group_id content status : string) : task () :=
  existing ← get_message_by_msg_id self.(ad_conversation_id) group_id "tool_group";
  match existing with
  | Ok (Some _) =>
      _ ← update_message group_id
            (mkMessageRowUpdate (Some content) (Some (Some status)) None);
      mret ()
  | Ok None | Err _ =>
      created_at ← now;
      _ ← insert_message (segment_row group_id "tool_group" content status created_at);
      mret ()
  end.

Definition persist_tool_group (entries : list ToolGroupEntry) : task () :=
  allowed ← allows_write WriteToolGroupPersist;
  if negb allowed then mret ()
  else
    let status := if forallb tool_done entries then "finish" else "work" in
    let content := tool_group_text entries in
    group_id ← match entries with e :: _ => mret e.(tg_call_id) | [] => mint_msg_id end;
    store_tool_group group_id content status.
End adapter.
