(* ===== verification/StreamRelay.v ===== *)
(** * Conversation: the relay of a turn

    Models [aionui-conversation/src/stream_relay.rs]: a relay reads the events of an agent
    until the turn ends, forwards them to the web sockets and stores what they say.

    What the loop finds when it looks at its channels is a list of [Poll]s.  When the list
    is exhausted nothing more arrives: [recv().await] then waits for ever, which is the
    [None] of [consume_inner], and [try_recv] finds the channel empty. *)
From S2P Require Import Prelude Text Storage ConvRuntime ConvPolicy Middleware Stream.

(** [AgentSendError]: the stream error it carries *)
Record AgentSendError := mkAgentSendError { se_stream_error : AgentStreamErrorData }.

Definition FLUSH_INTERVAL : nat := 20.

Section relay_data.
Context `{!JsonValue}.

(** What a broadcast receiver gives *)
Inductive Recv :=
  | RecvEvent (event : AgentStreamEvent)
  | RecvClosed
  | RecvLagged (n : Z).

(** One look at the channels: the stream gives something, the task that sends ends (with an
    error, or without one), or there is nothing. *)
Inductive Poll :=
  | PollRecv (r : Recv)
  | PollSend (error : option AgentSendError)
  | PollEmpty.

Definition ends_turn (event : AgentStreamEvent) : bool :=
  match event with EvFinish _ | EvError _ => true | _ => false end.

Definition terminal_from_event (event : AgentStreamEvent) : RelayTerminal :=
  match event with
  | EvError data => TerminalError data.(ed_code) data.(ed_retryable)
  | EvFinish _ => TerminalFinish
  | _ => TerminalChannelClosed
  end.

(** [matches!(data.tip_type, TipType::Success | TipType::Warning | TipType::Info)] *)
Definition tip_shown (data : TipsEventData) : bool :=
  match data.(tp_tip_type) with TipSuccess | TipWarning | TipInfo => true | TipError => false end.
End relay_data.

(** [rl] = [StreamRelay]; [rl_skill_resolver] loads skills, [rl_runtime_state]: it has one. *)
Record StreamRelay := mkRelay {
  rl_conversation_id : string;
  rl_msg_id : string;
  rl_turn_id : string;
  rl_skill_resolver : option (list string → list LoadedAgentSkill);
  rl_allowed_skill_names : list string;
  rl_runtime_state : bool;
  rl_adapter : StreamPersistenceAdapter;
  rl_complete_turn : bool;
  rl_defer_clean_terminal_errors : bool;
  rl_external_reply : option (string * string);
}.

(** [ch]: the variables of the loop that concern its channels *)
Record Channels := mkChannels {
  ch_send_error_done : bool;
  ch_pending_send_error : option AgentSendError;
}.

(** [rs]: the other variables of the loop *)
Record RelayState := mkRelayState {
  rs_full_text_buffer : string;
  rs_text_segments : list PersistedTextSegment;
  rs_active_text : option TextSegmentState;
  rs_active_thinking : option ThinkingSegmentState;
  rs_used_primary_segment_msg_id : bool;
  rs_attempt : TurnAttemptSummary;
}.

Definition RelayState_eta (s : RelayState) : RelayState :=
  mkRelayState s.(rs_full_text_buffer) s.(rs_text_segments) s.(rs_active_text)
    s.(rs_active_thinking) s.(rs_used_primary_segment_msg_id) s.(rs_attempt).

Definition set_rs_full_text : string → RelayState → RelayState :=
  ltac:(mk_setter RelayState_eta rs_full_text_buffer).
Definition set_rs_segments : list PersistedTextSegment → RelayState → RelayState :=
  ltac:(mk_setter RelayState_eta rs_text_segments).
Definition set_rs_text : option TextSegmentState → RelayState → RelayState :=
  ltac:(mk_setter RelayState_eta rs_active_text).
Definition set_rs_thinking : option ThinkingSegmentState → RelayState → RelayState :=
  ltac:(mk_setter RelayState_eta rs_active_thinking).
Definition set_rs_primary : bool → RelayState → RelayState :=
  ltac:(mk_setter RelayState_eta rs_used_primary_segment_msg_id).
Definition set_rs_attempt : TurnAttemptSummary → RelayState → RelayState :=
  ltac:(mk_setter RelayState_eta rs_attempt).

Definition initial_relay_state : RelayState :=
  mkRelayState "" [] None None false default_attempt.

(** [attempt.saw_visible_output = true], and the like *)
Definition saw_visible (a : TurnAttemptSummary) : TurnAttemptSummary :=
  mkTurnAttemptSummary true a.(ta_saw_tool_or_side_effect) a.(ta_persisted_assistant_output)
    a.(ta_terminal_error) a.(ta_terminal_error_deferred).
Definition saw_tool (a : TurnAttemptSummary) : TurnAttemptSummary :=
  mkTurnAttemptSummary a.(ta_saw_visible_output) true a.(ta_persisted_assistant_output)
    a.(ta_terminal_error) a.(ta_terminal_error_deferred).
Definition persisted_output (a : TurnAttemptSummary) : TurnAttemptSummary :=
  mkTurnAttemptSummary a.(ta_saw_visible_output) a.(ta_saw_tool_or_side_effect) true
    a.(ta_terminal_error) a.(ta_terminal_error_deferred).
Definition ended_with (data : AgentStreamErrorData) (a : TurnAttemptSummary) : TurnAttemptSummary :=
  mkTurnAttemptSummary a.(ta_saw_visible_output) a.(ta_saw_tool_or_side_effect)
    a.(ta_persisted_assistant_output) (Some data) a.(ta_terminal_error_deferred).
Definition error_deferred (a : TurnAttemptSummary) : TurnAttemptSummary :=
  mkTurnAttemptSummary a.(ta_saw_visible_output) a.(ta_saw_tool_or_side_effect)
    a.(ta_persisted_assistant_output) a.(ta_terminal_error) true.

Definition note_visible (content : string) (s : RelayState) : RelayState :=
  if bool_decide (content = "") then s else set_rs_attempt (saw_visible s.(rs_attempt)) s.
Definition note_tool (s : RelayState) : RelayState := set_rs_attempt (saw_tool s.(rs_attempt)) s.

Section relay.
Context `{StreamEnv} (self : StreamRelay).

Definition relay_is_deleting : task bool :=
  if self.(rl_runtime_state) then runtime (is_deleting self.(rl_conversation_id)) else mret false.

Definition mint_segment_msg_id (s : RelayState) : task (string * RelayState) :=
  if s.(rs_used_primary_segment_msg_id)
  then (id ← mint_msg_id; mret (id, s))
  else mret (self.(rl_msg_id), set_rs_primary true s).

Definition forward_to_websocket_with_msg_id (msg_id : string) (event : AgentStreamEvent) : task () :=
  if se_event_serializes event then broadcast_frame (FrameEvent msg_id event) else mret ().

Definition forward_to_websocket (event : AgentStreamEvent) : task () :=
  forward_to_websocket_with_msg_id self.(rl_msg_id) event.

Definition send_thinking_done (msg_id : string) (duration : Z) : task () :=
  forward_to_websocket_with_msg_id msg_id
    (EvThinking (mkThinking "" None (Some duration) (Some "done"))).

Definition complete_active_thinking (s : RelayState) : task RelayState :=
  match s.(rs_active_thinking) with
  | None => mret s
  | Some segment =>
      now_ms ← now;
      let duration_ms := ((now_ms - segment.(tk_started_at)) `max` 0)%Z in
      _ ← send_thinking_done segment.(tk_id) duration_ms;
      _ ← persist_thinking_segment self.(rl_adapter) segment duration_ms;
      mret (set_rs_thinking None s)
  end.

Definition close_active_text_segment (status : string) (s : RelayState) : task RelayState :=
  match s.(rs_active_text) with
  | None => mret s
  | Some text_segment =>
      segment ← finalize_text_segment self.(rl_adapter) text_segment status;
      let s := set_rs_text None s in
      mret (match segment with
            | Some segment => set_rs_segments (s.(rs_text_segments) ++ [segment]) s
            | None => s
            end)
  end.

Definition process_final_text (text : string) : MiddlewareResult :=
  process ((λ resolver, shared_loader resolver self.(rl_allowed_skill_names)) <$>
           self.(rl_skill_resolver)) text.

Fixpoint send_final_text_overrides (overrides : list FinalTextOverride) : task () :=
  match overrides with
  | [] => mret ()
  | o :: overrides =>
      _ ← broadcast_frame (FrameOverride o.(fo_msg_id) o.(fo_text) o.(fo_hidden));
      send_final_text_overrides overrides
  end.

Fixpoint send_system_responses (responses : list string) : task () :=
  match responses with
  | [] => mret ()
  | response :: responses =>
      id ← mint_msg_id;
      _ ← broadcast_frame (FrameSystem id response);
      send_system_responses responses
  end.

(** [finalize]: the outcome's attempt is overwritten by its callers. *)
Definition finalize (text : string) (text_segments : list PersistedTextSegment)
    (event : AgentStreamEvent) (terminal : RelayTerminal) : task RelayOutcome :=
  let status := match event with EvError _ => "error" | _ => "finish" end in
  if bool_decide (text = "") then
    _ ← match event with
        | EvError data => persist_error_tip self.(rl_adapter) data
        | _ => mret ()
        end;
    mret (mkRelayOutcome [] terminal default_attempt)
  else
    let processed := process_final_text text in
    let final_text := utrim processed.(mr_message) in
    let hidden := bool_decide (final_text = "") in
    let rewrite_segments := bool_decide (processed.(mr_message) ≠ text) || hidden in
    overrides ← persist_final_text self.(rl_adapter) text_segments status final_text hidden
                  rewrite_segments;
    _ ← send_final_text_overrides overrides;
    _ ← send_system_responses processed.(mr_system_responses);
    _ ← (if bool_decide (status = "finish") && negb hidden then
           match self.(rl_external_reply) with
           | Some (source, chat_id) => send_reply (source, chat_id, final_text)
           | None => mret ()
           end
         else mret ());
    mret (mkRelayOutcome processed.(mr_system_responses) terminal default_attempt).

(** The attempt as the outcome reports it *)
Definition final_attempt (s : RelayState) : TurnAttemptSummary :=
  if bool_decide (s.(rs_full_text_buffer) = "") then s.(rs_attempt)
  else persisted_output s.(rs_attempt).

Definition with_attempt (outcome : RelayOutcome) (a : TurnAttemptSummary) : RelayOutcome :=
  mkRelayOutcome outcome.(ro_system_responses) outcome.(ro_terminal) a.

(** The end of the turn: [finalize] unless the conversation is being deleted, the attempt,
    and the completion of the turn when the relay is in charge of it *)
Definition conclude (deleting : bool) (event : AgentStreamEvent) (terminal : RelayTerminal)
    (s : RelayState) : task RelayOutcome :=
  outcome ← (if deleting then mret (mkRelayOutcome [] terminal s.(rs_attempt))
             else finalize s.(rs_full_text_buffer) s.(rs_text_segments) event terminal);
  let outcome := with_attempt outcome (final_attempt s) in
  _ ← (if self.(rl_complete_turn) && negb deleting
       then complete_conversation self.(rl_adapter) self.(rl_turn_id) None
       else mret ());
  mret outcome.

(** Nothing that can be repeated was shown or done, and the error asks for another try. *)
Definition defers (terminal : RelayTerminal) (a : TurnAttemptSummary) : bool :=
  self.(rl_defer_clean_terminal_errors) &&
  (match terminal with TerminalError _ (Some true) => true | _ => false end) &&
  bool_decide (terminal_code terminal ≠ Some UserLlmProviderModelNotFound) &&
  safe_to_auto_replay a.

(** What is active is closed, unless the conversation is being deleted. *)
Definition close_unless_deleting (deleting : bool) (status : string) (s : RelayState) :
    task RelayState :=
  if deleting then mret s
  else
    s ← complete_active_thinking s;
    close_active_text_segment status s.

(** The arm of [Finish] and [Error] *)
Definition on_terminal (deleting : bool) (event : AgentStreamEvent) (s : RelayState) :
    task RelayOutcome :=
  let terminal := terminal_from_event event in
  let note (s : RelayState) :=
    match event with
    | EvError data => set_rs_attempt (ended_with data s.(rs_attempt)) s
    | _ => s
    end in
  if defers terminal s.(rs_attempt) then
    let s := match event with
             | EvError _ => let s := note s in set_rs_attempt (error_deferred s.(rs_attempt)) s
             | _ => s
             end in
    mret (mkRelayOutcome [] terminal s.(rs_attempt))
  else
    s ← close_unless_deleting deleting
          (match event with EvError _ => "error" | _ => "finish" end) s;
    _ ← forward_to_websocket event;
    conclude deleting event terminal (note s).

(** The arm of [RecvError::Closed] *)
Definition on_closed (s : RelayState) : task RelayOutcome :=
  deleting ← relay_is_deleting;
  s ← close_unless_deleting deleting "finish" s;
  conclude deleting (EvFinish None) TerminalChannelClosed s.

(** The arm of the three kinds of tool calls *)
Definition on_tool (event : AgentStreamEvent) (persist : task ()) (s : RelayState) :
    task RelayState :=
  s ← complete_active_thinking (note_tool s);
  s ← close_active_text_segment "finish" s;
  _ ← forward_to_websocket event;
  _ ← persist;
  mret s.

Definition on_thinking (data : ThinkingEventData) (s : RelayState) : task RelayState :=
  if bool_decide (data.(th_status) = Some "done") then complete_active_thinking s
  else
    s ← close_active_text_segment "finish" s;
    let s := note_visible data.(th_content) s in
    '(segment, s) ←
      match s.(rs_active_thinking) with
      | Some segment => mret (segment, s)
      | None =>
          '(id, s) ← mint_segment_msg_id s;
          started_at ← now;
          mret (mkThinkingSegment id "" started_at, s)
      end;
    let segment := mkThinkingSegment segment.(tk_id)
                     (segment.(tk_buffer) +:+ data.(th_content)) segment.(tk_started_at) in
    _ ← forward_to_websocket_with_msg_id segment.(tk_id) (EvThinking data);
    mret (set_rs_thinking (Some segment) s).

Definition on_text (content : string) (s : RelayState) : task RelayState :=
  s ← complete_active_thinking s;
  let s := note_visible content s in
  '(segment, s) ←
    match s.(rs_active_text) with
    | Some segment => mret (segment, s)
    | None =>
        '(id, s) ← mint_segment_msg_id s;
        created_at ← now;
        mret (mkTextSegment id "" created_at false 0, s)
    end;
  _ ← forward_to_websocket_with_msg_id segment.(tx_id) (EvText content);
  let flush_counter := segment.(tx_flush_counter) + 1 in
  let segment := mkTextSegment segment.(tx_id) (segment.(tx_buffer) +:+ content)
                   segment.(tx_created_at) segment.(tx_record_created) flush_counter in
  let s := set_rs_full_text (s.(rs_full_text_buffer) +:+ content) s in
  segment ←
    (if FLUSH_INTERVAL <=? flush_counter then
       segment ← flush_text_segment self.(rl_adapter) segment;
       mret (mkTextSegment segment.(tx_id) segment.(tx_buffer) segment.(tx_created_at)
               segment.(tx_record_created) 0)
     else mret segment);
  mret (set_rs_text (Some segment) s).

Definition on_tips (data : TipsEventData) (s : RelayState) : task RelayState :=
  let s := if tip_shown data then set_rs_attempt (saw_visible s.(rs_attempt)) s else s in
  _ ← forward_to_websocket (EvTips data);
  _ ← (if tip_shown data then persist_tip self.(rl_adapter) data else mret ());
  mret s.

(** The arms of the events that do not end the turn *)
Definition on_event (event : AgentStreamEvent) (s : RelayState) : task RelayState :=
  match event with
  | EvThinking data => on_thinking data s
  | EvText content => on_text content s
  | EvToolCall data => on_tool event (persist_tool_call self.(rl_adapter) data) s
  | EvAcpToolCall data => on_tool event (persist_acp_tool_call self.(rl_adapter) data) s
  | EvToolGroup entries => on_tool event (persist_tool_group self.(rl_adapter) entries) s
  | EvTips data => on_tips data s
  | EvCronTrigger _ | EvPermission _ | EvAcpPermission _ =>
      _ ← forward_to_websocket event; mret (note_tool s)
  | _ => _ ← forward_to_websocket event; mret s
  end.

(** The body of the loop on what was received: [inl] goes on, [inr] ends it. *)
Definition handle_recv (r : Recv) (s : RelayState) : task (RelayState + RelayOutcome) :=
  match r with
  | RecvEvent event =>
      deleting ← relay_is_deleting;
      if ends_turn event then (outcome ← on_terminal deleting event s; mret (inr outcome))
      else if deleting then mret (inl s)
      else (s ← on_event event s; mret (inl s))
  | RecvClosed => outcome ← on_closed s; mret (inr outcome)
  | RecvLagged _ => mret (inl s)
  end.

(** ** The loop *)

(** How the loop waits: on the stream alone, on both channels, or, with the error of the
    task that sends at hand, not at all *)
Inductive Waiting := WaitStream | WaitBoth | DoNotWait (send_error : AgentSendError).

Definition waiting (c : Channels) : Waiting :=
  if c.(ch_send_error_done) then
    match c.(ch_pending_send_error) with
    | Some send_error => DoNotWait send_error
    | None => WaitStream
    end
  else WaitBoth.

(** [try_recv] with the error at hand, which is put back when an event that does not end
    the turn comes first; [None]: the channel is empty. *)
Definition try_recv_result (send_error : AgentSendError) (r : option Recv) : Recv * Channels :=
  match r with
  | Some (RecvEvent event) =>
      (RecvEvent event, mkChannels true (if ends_turn event then None else Some send_error))
  | Some RecvClosed | None =>
      (RecvEvent (EvError send_error.(se_stream_error)), mkChannels true None)
  | Some (RecvLagged n) => (RecvLagged n, mkChannels true None)
  end.

(** One look at the channels: what was received, if anything *)
Definition look (p : Poll) (c : Channels) : option Recv * Channels :=
  match waiting c, p with
  | WaitStream, PollRecv r | WaitBoth, PollRecv r => (Some r, c)
  | WaitBoth, PollSend error => (None, mkChannels true error)
  | DoNotWait send_error, PollRecv r =>
      let '(r, c) := try_recv_result send_error (Some r) in (Some r, c)
  | DoNotWait send_error, PollEmpty =>
      let '(r, c) := try_recv_result send_error None in (Some r, c)
  | DoNotWait _, PollSend _ | WaitStream, PollSend _ | WaitStream, PollEmpty
  | WaitBoth, PollEmpty => (None, c)
  end.

Fixpoint relay_loop (polls : list Poll) (c : Channels) (s : RelayState) :
    task (option RelayOutcome) :=
  match polls with
  | [] =>
      match waiting c with
      | DoNotWait send_error =>
          o ← handle_recv (try_recv_result send_error None).1 s;
          mret (match o with inr outcome => Some outcome | inl _ => None end)
      | WaitStream | WaitBoth => mret None
      end
  | p :: polls =>
      match look p c with
      | (None, c) => relay_loop polls c s
      | (Some r, c) =>
          o ← handle_recv r s;
          match o with
          | inl s => relay_loop polls c s
          | inr outcome => mret (Some outcome)
          end
      end
  end.

(** [consume_inner]; [send_error_rx]: there is a task that sends. *)
Definition consume_inner (send_error_rx : bool) (polls : list Poll) : task (option RelayOutcome) :=
  relay_loop polls (mkChannels (negb send_error_rx) None) initial_relay_state.

Definition consume : list Poll → task (option RelayOutcome) := consume_inner false.
Definition consume_with_send_error : list Poll → task (option RelayOutcome) := consume_inner true.
End relay.
