(* ===== verification/StreamLogic.v ===== *)
(** * Conversation: reasoning about tasks

    A triple on the tasks of [Stream], its rules, and the triples of the statements: what
    is asked of the database, and what becomes of the rows only this task writes. *)
From S2P Require Import Prelude Text Storage ConvRuntime ConvPolicy Stream.

Section triples.
Context `{StreamEnv}.

(** From every world of [P], the result and the world of [m] are in [Q]. *)
Definition triple {A} (P : World → Prop) (m : task A) (Q : A → World → Prop) : Prop :=
  ∀ w, P w → Q (m w).1 (m w).2.

Lemma triple_bind {A B} P (m : task A) Q (k : A → task B) R :
  triple P m Q → (∀ a, triple (Q a) (k a) R) → triple P (m ≫= k) R.
Proof.
  intros Hm Hk w Hw. specialize (Hm w Hw). unfold mbind, task_bind.
  destruct (m w) as [a w']. by apply Hk.
Qed.

Lemma triple_ret {A} (P : World → Prop) (a : A) (Q : A → World → Prop) :
  (∀ w, P w → Q a w) → triple P (mret a) Q.
Proof. intros HPQ w Hw. by apply HPQ. Qed.

Lemma triple_consequence {A} (P P' : World → Prop) (m : task A) (Q Q' : A → World → Prop) :
  triple P' m Q' → (∀ w, P w → P' w) → (∀ a w, Q' a w → Q a w) → triple P m Q.
Proof. intros Hm HP HQ w Hw. apply HQ, Hm, HP, Hw. Qed.

Lemma triple_pure {A} (φ : Prop) P (m : task A) Q :
  (φ → triple P m Q) → triple (λ w, φ ∧ P w) m Q.
Proof. intros Hm w [Hφ Hw]. by apply Hm. Qed.

Lemma triple_if {A} (b : bool) P (m1 m2 : task A) Q :
  (b = true → triple P m1 Q) → (b = false → triple P m2 Q) →
  triple P (if b then m1 else m2) Q.
Proof. destruct b; auto. Qed.

Lemma triple_moment {A} (P : World → Prop) (f : nat → A) (Q : A → World → Prop) :
  (∀ w, P w → Q (f w.(wd_tick)) (moment f w).2) → triple P (moment f) Q.
Proof. intros HPQ w Hw. by apply HPQ. Qed.
End triples.

(** ** What a task does not touch

    [keeps I m]: the invariant [I] of the world goes through [m]. *)
Section keeps.
Context `{StreamEnv} (I : World → Prop).

Definition keeps {A} (m : task A) : Prop := triple I m (λ _, I).

Lemma keeps_bind {A B} (m : task A) (k : A → task B) :
  keeps m → (∀ a, keeps (k a)) → keeps (m ≫= k).
Proof. intros Hm Hk. by eapply triple_bind. Qed.

Lemma keeps_ret {A} (a : A) : keeps (mret a).
Proof. by apply triple_ret. Qed.

(** [m] returns only what [φ] allows. *)
Definition gives {A} (φ : A → Prop) (m : task A) : Prop := triple I m (λ a w, φ a ∧ I w).

Lemma keeps_bind_gives {A B} φ (m : task A) (k : A → task B) :
  gives φ m → (∀ a, φ a → keeps (k a)) → keeps (m ≫= k).
Proof. intros Hm Hk. eapply triple_bind; [exact Hm|]. intros a. apply triple_pure, Hk. Qed.

Lemma gives_bind {A B} φ ψ (m : task A) (k : A → task B) :
  gives φ m → (∀ a, φ a → gives ψ (k a)) → gives ψ (m ≫= k).
Proof. intros Hm Hk. eapply triple_bind; [exact Hm|]. intros a. apply triple_pure, Hk. Qed.

Lemma gives_keeps {A} φ (m : task A) : keeps m → (∀ a, φ a) → gives φ m.
Proof. intros Hm Hφ w Hw. split; [done|by apply Hm]. Qed.

Lemma gives_ret {A} (φ : A → Prop) a : φ a → gives φ (mret a).
Proof. intros Ha w Hw. done. Qed.

Lemma keeps_gives {A} φ (m : task A) : gives φ m → keeps m.
Proof. intros Hm w Hw. by apply Hm. Qed.
End keeps.

(** ** Invariants on what was asked for *)

(** What a task does to the world outside: a statement, a frame, a reply to a channel *)
Inductive Effect `{!JsonValue} :=
  | Wrote (write : Write)
  | Sent (frame : StreamFrame)
  | Replied (reply : string * string * string).

Section asked.
Context `{StreamEnv} (E : Effect → Prop) (w0 : World).

(** [l] has grown by elements of [P]. *)
Definition grown {A} (P : A → Prop) (l0 l : list A) : Prop := ∃ l', l = l0 ++ l' ∧ Forall P l'.

Lemma grown_refl {A} (P : A → Prop) l : grown P l l.
Proof. exists []. by rewrite app_nil_r. Qed.

Lemma grown_snoc {A} (P : A → Prop) l0 l x : P x → grown P l0 l → grown P l0 (l ++ [x]).
Proof.
  intros Hx (l' & -> & Hl'). exists (l' ++ [x]). rewrite app_assoc. split; [done|].
  apply Forall_app. split; [done|by apply Forall_singleton].
Qed.

(** Since [w0], only effects of [E] *)
Record asked (w : World) : Prop := {
  as_tick : w0.(wd_tick) ≤ w.(wd_tick);
  as_writes : grown (λ x, E (Wrote x)) w0.(wd_writes) w.(wd_writes);
  as_frames : grown (λ x, E (Sent x)) w0.(wd_frames) w.(wd_frames);
  as_replies : grown (λ x, E (Replied x)) w0.(wd_replies) w.(wd_replies);
}.

Lemma asked_moment {A} (f : nat → A) : keeps asked (moment f).
Proof. intros w []. split; cbn; auto. Qed.

Lemma asked_statement {A} (f : Tables → result A DbError * Tables) : keeps asked (statement f).
Proof.
  intros w []. unfold statement. destruct (if se_fails _ then _ else _) as [r t].
  split; cbn; auto.
Qed.

Lemma asked_log write : E (Wrote write) → keeps asked (log_write write).
Proof. intros Hx w []. split; cbn; auto. by apply grown_snoc. Qed.

Lemma asked_frame frame : E (Sent frame) → keeps asked (broadcast_frame frame).
Proof. intros Hx w []. split; cbn; auto. by apply grown_snoc. Qed.

Lemma asked_reply reply : E (Replied reply) → keeps asked (send_reply reply).
Proof. intros Hx w []. split; cbn; auto. by apply grown_snoc. Qed.

Lemma asked_start : asked w0.
Proof. split; auto using grown_refl. Qed.
End asked.

Create HintDb asked.
#[export] Hint Resolve asked_moment asked_statement asked_log asked_frame asked_reply
  keeps_ret : asked.

(** Splits a task into its steps; what is left are the conditions on the statements and
    frames, and the parts without a rule. *)
Ltac steps :=
  repeat first
    [ progress auto with asked
    | match goal with
      | |- keeps _ (_ ≫= _) => apply keeps_bind; [|intros ?]
      | |- keeps _ (if ?b then _ else _) => destruct b eqn:?
      | |- keeps _ (let x := _ in _) => progress cbv zeta
      | |- keeps _ (match ?x with _ => _ end) => destruct x eqn:?
      | |- keeps _ (log_write _) => apply asked_log
      | |- keeps _ (broadcast_frame _) => apply asked_frame
      | |- keeps _ (send_reply _) => apply asked_reply
      | |- keeps _ (insert_message _) => unfold insert_message
      | |- keeps _ (upsert_message _) => unfold upsert_message
      | |- keeps _ (update_message _ _) => unfold update_message
      | |- keeps _ (finish_conversation _ _) => unfold finish_conversation
      | |- keeps _ (get_message_by_msg_id _ _ _) => unfold get_message_by_msg_id
      | |- keeps _ (get_conversation _) => unfold get_conversation
      | |- keeps _ (runtime _) => unfold runtime
      | |- keeps _ now => unfold now
      | |- keeps _ mint_msg_id => unfold mint_msg_id
      | |- keeps _ (mret _) => apply keeps_ret
      end ].
