(* ===== verification/StreamEnds.v ===== *)
(** * Conversation: how a relayed turn ends

    What a relay hears depends on its channels alone: the events it handles, and the one
    that ends the turn.  [heard] says which, without a world; [relay_loop_heard] is the loop
    as a pass over the events followed by the end. *)
From S2P Require Import Prelude Text Storage ConvRuntime ConvPolicy Middleware Stream StreamRelay StreamLogic.

(** ** What is heard *)

Section heard.
Context `{!JsonValue}.

(** [r] ends the loop. *)
Definition decisive (r : Recv) : bool :=
  match r with RecvEvent event => ends_turn event | RecvClosed => true | RecvLagged _ => false end.

(** The failure of the task that sends, as the event it becomes *)
Definition send_failure (e : AgentSendError) : Recv := RecvEvent (EvError e.(se_stream_error)).

(** The events the relay handles and what ends it, [pending] being the error of the task
    that sends ([done]: that task has ended).  The stream goes first: an error that is
    pending ends the turn only when the channel is empty or closed.  A receiver that lags
    forgets it. *)
Fixpoint heard (done : bool) (pending : option AgentSendError) (polls : list Poll) :
    list AgentStreamEvent * option Recv :=
  match polls with
  | [] => ([], send_failure <$> pending)
  | PollEmpty :: polls =>
      match pending with
      | Some e => ([], Some (send_failure e))
      | None => heard done pending polls
      end
  | PollSend error :: polls =>
      if done then heard done pending polls else heard true error polls
  | PollRecv (RecvLagged _) :: polls => heard done None polls
  | PollRecv RecvClosed :: _ =>
      ([], Some (match pending with Some e => send_failure e | None => RecvClosed end))
  | PollRecv (RecvEvent event) :: polls =>
      if ends_turn event then ([], Some (RecvEvent event))
      else let '(events, r) := heard done pending polls in (event :: events, r)
  end.

Lemma heard_decisive done pending polls r :
  (heard done pending polls).2 = Some r → decisive r = true.
Proof.
  revert done pending. induction polls as [|p polls IH]; intros done pending; cbn [heard].
  - destruct pending; cbn; [by intros [= <-]|done].
  - destruct p as [[event| |n]|error|]; cbn.
    + destruct (ends_turn event) eqn:He; [by intros [= <-]|].
      destruct (heard done pending polls) as [events r'] eqn:Hh. cbn. intros ->.
      apply (IH done pending). by rewrite Hh.
    + destruct pending; by intros [= <-].
    + apply IH.
    + destruct done; apply IH.
    + destruct pending; [by intros [= <-]|apply IH].
Qed.

Lemma heard_quiet done pending polls :
  Forall (λ event, ends_turn event = false) (heard done pending polls).1.
Proof.
  revert done pending. induction polls as [|p polls IH]; intros done pending; cbn [heard].
  - constructor.
  - destruct p as [[event| |n]|error|]; cbn; auto.
    + destruct (ends_turn event) eqn:He; [constructor|].
      specialize (IH done pending). destruct (heard done pending polls). by constructor.
    + destruct done; apply IH.
    + destruct pending; [constructor|apply IH].
Qed.
End heard.

(** ** The loop as a pass over the events *)

Section loop.
Context `{StreamEnv} (self : StreamRelay).

(** An event that does not end the turn *)
Definition pass_event (event : AgentStreamEvent) (s : RelayState) : task RelayState :=
  deleting ← relay_is_deleting self;
  if deleting : bool then mret s else on_event self event s.

Fixpoint pass_events (events : list AgentStreamEvent) (s : RelayState) : task RelayState :=
  match events with
  | [] => mret s
  | event :: events => s ← pass_event event s; pass_events events s
  end.

Definition end_turn (r : Recv) (s : RelayState) : task RelayOutcome :=
  match r with
  | RecvEvent event => deleting ← relay_is_deleting self; on_terminal self deleting event s
  | RecvClosed | RecvLagged _ => on_closed self s
  end.

(** What the loop does once it has heard all there is *)
Definition pass (h : list AgentStreamEvent * option Recv) (s : RelayState) :
    task (option RelayOutcome) :=
  s ← pass_events h.1 s;
  match h.2 with
  | Some r => outcome ← end_turn r s; mret (Some outcome)
  | None => mret None
  end.

(** Tasks are functions of the world. *)
Definition same {A} (m1 m2 : task A) : Prop := ∀ w, m1 w = m2 w.

Lemma handle_recv_end r s w :
  decisive r = true →
  handle_recv self r s w = let '(o, w) := end_turn r s w in (inr o, w).
Proof.
  destruct r as [event| |n]; cbn [decisive]; intros Hd; [|done|done].
  unfold handle_recv, end_turn, mbind, task_bind.
  destruct (relay_is_deleting self w) as [deleting w']. by rewrite Hd.
Qed.

Lemma handle_recv_event event s w :
  ends_turn event = false →
  handle_recv self (RecvEvent event) s w = let '(s, w) := pass_event event s w in (inl s, w).
Proof.
  intros He. unfold handle_recv, pass_event, mbind, task_bind.
  destruct (relay_is_deleting self w) as [[] w']; rewrite He; [done|].
  by destruct (on_event self event s w').
Qed.

Definition channels_wf (c : Channels) : Prop :=
  c.(ch_send_error_done) = false → c.(ch_pending_send_error) = None.

Lemma pass_cons event h s w :
  pass (event :: h.1, h.2) s w = let '(s, w) := pass_event event s w in pass h s w.
Proof.
  unfold pass. cbn [fst snd pass_events]. unfold mbind, task_bind.
  by destruct (pass_event event s w).
Qed.

Lemma pass_end r s w :
  pass ([], Some r) s w = let '(o, w) := end_turn r s w in (Some o, w).
Proof.
  unfold pass. cbn [fst snd pass_events]. unfold mbind, task_bind, mret, task_ret.
  by destruct (end_turn r s w).
Qed.

(** An end of the loop, as [pass] sees it *)
Lemma loop_end polls c r s w :
  decisive r = true →
  (o ← handle_recv self r s;
   match o with inl s => relay_loop self polls c s | inr outcome => mret (Some outcome) end) w =
  pass ([], Some r) s w.
Proof.
  intros Hd. unfold mbind, task_bind. rewrite handle_recv_end, pass_end by done.
  by destruct (end_turn r s w).
Qed.

(** A step of the loop on an event that does not end the turn *)
Lemma loop_event polls c event h s w :
  ends_turn event = false → (∀ s w, relay_loop self polls c s w = pass h s w) →
  (o ← handle_recv self (RecvEvent event) s;
   match o with inl s => relay_loop self polls c s | inr outcome => mret (Some outcome) end) w =
  pass (event :: h.1, h.2) s w.
Proof.
  intros He Hl. unfold mbind, task_bind. rewrite handle_recv_event, pass_cons by done.
  destruct (pass_event event s w). apply Hl.
Qed.

Lemma relay_loop_heard polls c s w :
  channels_wf c →
  relay_loop self polls c s w =
  pass (heard c.(ch_send_error_done) c.(ch_pending_send_error) polls) s w.
Proof.
  revert c s w. induction polls as [|p polls IH]; intros [done pending] s w Hwf;
    unfold channels_wf in Hwf; cbn in Hwf.
  - cbn [relay_loop heard]. unfold waiting. cbn [ch_send_error_done ch_pending_send_error].
    destruct done.
    + destruct pending as [e|]; [|done]. cbn [fmap option_fmap option_map].
      rewrite pass_end. change (try_recv_result e None).1 with (send_failure e).
      unfold mbind, task_bind. rewrite handle_recv_end by done.
      by destruct (end_turn (send_failure e) s w).
    + by rewrite Hwf.
  - cbn [relay_loop heard]. unfold look, waiting. cbn [ch_send_error_done ch_pending_send_error].
    destruct done; [destruct pending as [e|]|rewrite Hwf by done];
      destruct p as [[event| |n]|error|]; cbn [try_recv_result send_failure].
    all: try by (apply loop_end).
    all: try by (rewrite IH).
    all: try (destruct (ends_turn event) eqn:He; [by apply loop_end|];
      match goal with |- _ = pass (let '(_, _) := ?h in _) _ _ =>
        rewrite (surjective_pairing h) end;
      apply loop_event; [done|]; intros; by apply IH).
    all: unfold mbind, task_bind; cbn [handle_recv]; unfold mret, task_ret; by apply IH.
Qed.
End loop.

(** ** What a turn is remembered for *)

Section seen.
Context `{!JsonValue}.

(** The user sees something of the event. *)
Definition shows (event : AgentStreamEvent) : bool :=
  match event with
  | EvText content => bool_decide (content ≠ "")
  | EvThinking data => bool_decide (data.(th_status) ≠ Some "done" ∧ data.(th_content) ≠ "")
  | EvTips data => tip_shown data
  | _ => false
  end.

(** The event is a tool call, or asks for something. *)
Definition acts (event : AgentStreamEvent) : bool :=
  match event with
  | EvToolCall _ | EvAcpToolCall _ | EvToolGroup _ | EvCronTrigger _ | EvPermission _
  | EvAcpPermission _ => true
  | _ => false
  end.

Definition said (event : AgentStreamEvent) : string :=
  match event with EvText content => content | _ => "" end.

(** The text of a list of events *)
Definition text_of (events : list AgentStreamEvent) : string :=
  foldr (λ event text, said event +:+ text) "" events.

Definition seen (event : AgentStreamEvent) (a : TurnAttemptSummary) : TurnAttemptSummary :=
  mkTurnAttemptSummary (a.(ta_saw_visible_output) || shows event)
    (a.(ta_saw_tool_or_side_effect) || acts event) a.(ta_persisted_assistant_output)
    a.(ta_terminal_error) a.(ta_terminal_error_deferred).

Definition terminal_of_recv (r : Recv) : RelayTerminal :=
  match r with RecvEvent event => terminal_from_event event | _ => TerminalChannelClosed end.

Definition error_of_recv (r : Recv) : option AgentStreamErrorData :=
  match r with RecvEvent (EvError data) => Some data | _ => None end.
End seen.

Section notes.
Context `{StreamEnv} (self : StreamRelay).
Abbreviation anywhere := (λ _ : World, True).

(** What is noted of the events before *)
Definition noted (a : TurnAttemptSummary) (text : string) (s : RelayState) : Prop :=
  s.(rs_attempt) = a ∧ s.(rs_full_text_buffer) = text.

Lemma gives_any {A} (m : task A) : gives anywhere (λ _, True) m.
Proof. by intros w _. Qed.

Lemma complete_thinking_notes a text s :
  noted a text s → gives anywhere (noted a text) (complete_active_thinking self s).
Proof.
  intros Hn. unfold complete_active_thinking. destruct (rs_active_thinking s); [|by apply gives_ret].
  do 3 (eapply gives_bind; [apply gives_any|intros ? _]). by apply gives_ret.
Qed.

Lemma close_text_notes a text status s :
  noted a text s → gives anywhere (noted a text) (close_active_text_segment self status s).
Proof.
  intros Hn. unfold close_active_text_segment. destruct (rs_active_text s); [|by apply gives_ret].
  eapply gives_bind; [apply gives_any|intros [] _]; by apply gives_ret.
Qed.

Lemma mint_notes a text s :
  noted a text s → gives anywhere (λ p, noted a text p.2) (mint_segment_msg_id self s).
Proof.
  intros Hn. unfold mint_segment_msg_id. destruct (rs_used_primary_segment_msg_id s).
  - eapply gives_bind; [apply gives_any|intros ? _]. by apply gives_ret.
  - by apply gives_ret.
Qed.

Lemma note_visible_eq content s a text :
  noted a text s →
  noted (mkTurnAttemptSummary (a.(ta_saw_visible_output) || bool_decide (content ≠ ""))
           a.(ta_saw_tool_or_side_effect) a.(ta_persisted_assistant_output)
           a.(ta_terminal_error) a.(ta_terminal_error_deferred)) text (note_visible content s).
Proof.
  intros [<- <-]. unfold note_visible, noted. destruct (rs_attempt s) eqn:Ha.
  repeat case_bool_decide; cbn; rewrite ?orb_false_r, ?orb_true_r, ?Ha; done.
Qed.

Lemma note_tool_eq s a text :
  noted a text s →
  noted (mkTurnAttemptSummary a.(ta_saw_visible_output) true a.(ta_persisted_assistant_output)
           a.(ta_terminal_error) a.(ta_terminal_error_deferred)) text (note_tool s).
Proof. by intros [<- <-]. Qed.

Lemma seen_eta a :
  a = mkTurnAttemptSummary a.(ta_saw_visible_output) a.(ta_saw_tool_or_side_effect)
        a.(ta_persisted_assistant_output) a.(ta_terminal_error) a.(ta_terminal_error_deferred).
Proof. by destruct a. Qed.

Lemma on_tool_notes event persist a text s :
  noted a text s →
  gives anywhere
    (noted (mkTurnAttemptSummary a.(ta_saw_visible_output) true a.(ta_persisted_assistant_output)
              a.(ta_terminal_error) a.(ta_terminal_error_deferred)) text)
    (on_tool self event persist s).
Proof.
  intros Hn%note_tool_eq. unfold on_tool.
  eapply gives_bind; [by apply complete_thinking_notes|intros s1 Hs1].
  eapply gives_bind; [by apply close_text_notes|intros s2 Hs2].
  do 2 (eapply gives_bind; [apply gives_any|intros ? _]). by apply gives_ret.
Qed.

Lemma on_thinking_notes data a text s :
  noted a text s →
  gives anywhere (noted (seen (EvThinking data) a) text) (on_thinking self data s).
Proof.
  intros Hn. unfold on_thinking, seen. cbn [shows acts].
  destruct (bool_decide (th_status data = Some "done")) eqn:Hd;
    [apply bool_decide_eq_true in Hd|apply bool_decide_eq_false in Hd].
  - rewrite bool_decide_eq_false_2 by naive_solver. rewrite !orb_false_r, <- seen_eta.
    by apply complete_thinking_notes.
  - eapply gives_bind; [by apply close_text_notes|intros s1 Hs1].
    rewrite orb_false_r.
    replace (bool_decide (th_status data ≠ Some "done" ∧ th_content data ≠ ""))
      with (bool_decide (th_content data ≠ "")) by (apply bool_decide_ext; naive_solver).
    apply (note_visible_eq (th_content data)) in Hs1. cbv zeta.
    eapply (gives_bind _ (λ p, noted _ text p.2)).
    + destruct (rs_active_thinking _) as [segment|]; [apply gives_ret, Hs1|].
      eapply gives_bind; [by apply mint_notes|intros [id s2] Hs2].
      eapply gives_bind; [apply gives_any|intros ? _]. by apply gives_ret.
    + intros [segment s2] Hs2. eapply gives_bind; [apply gives_any|intros ? _].
      by apply gives_ret.
Qed.

Lemma on_text_notes content a text s :
  noted a text s →
  gives anywhere (noted (seen (EvText content) a) (text +:+ content)) (on_text self content s).
Proof.
  intros Hn. unfold on_text, seen. cbn [shows acts]. rewrite orb_false_r.
  eapply gives_bind; [by apply complete_thinking_notes|intros s1 Hs1].
  apply (note_visible_eq content) in Hs1. cbv zeta.
  eapply (gives_bind _ (λ p, noted _ text p.2)).
  - destruct (rs_active_text _) as [segment|]; [apply gives_ret, Hs1|].
    eapply gives_bind; [by apply mint_notes|intros [id s2] Hs2].
    eapply gives_bind; [apply gives_any|intros ? _]. by apply gives_ret.
  - intros [segment s2] [Ha Ht]. do 2 (eapply gives_bind; [apply gives_any|intros ? _]).
    apply gives_ret. split; [done|]. cbn. by rewrite <- Ht.
Qed.

Lemma on_event_notes event a text s :
  ends_turn event = false → noted a text s →
  gives anywhere (noted (seen event a) (text +:+ said event)) (on_event self event s).
Proof.
  intros He Hn.
  assert (∀ s', noted a text s' → shows event = false → acts event = false → said event = "" →
    noted (seen event a) (text +:+ said event) s') as Hsame.
  { intros s' Hs' H1 H2 H3. unfold seen. rewrite H1, H2, H3, !orb_false_r, <- seen_eta.
    by rewrite string_app_nil_r. }
  destruct event; try done; cbn [on_event said];
    try (eapply gives_bind; [apply gives_any|intros ? _]; apply gives_ret; by apply Hsame);
    rewrite ?string_app_nil_r; [by apply on_text_notes| | | | |by apply on_thinking_notes|..];
    unfold seen; cbn [shows acts]; rewrite ?orb_false_r, ?orb_true_r;
    try (by apply on_tool_notes);
    try (eapply gives_bind; [apply gives_any|intros ? _]; apply gives_ret; by apply note_tool_eq).
  unfold on_tips. destruct (tip_shown data) eqn:Ht; rewrite ?orb_true_r, ?orb_false_r, <- ?seen_eta;
    do 2 (eapply gives_bind; [apply gives_any|intros ? _]); apply gives_ret; [|done].
  by destruct Hn as [<- <-].
Qed.
End notes.

(** ** The outcome of a turn *)

Section outcome.
Context `{StreamEnv} (self : StreamRelay).
Abbreviation anywhere := (λ _ : World, True).

#[local] Arguments conclude : simpl never.
#[local] Arguments finalize : simpl never.
#[local] Arguments process_final_text : simpl never.

(** The outcome of the turn that hears [events] and ends with [r]: what was seen of it, how
    it ended, whether its error is left to be replayed, and the skills its text asks for *)
Definition outcome_of (events : list AgentStreamEvent) (r : Recv) : RelayOutcome :=
  let visible := existsb shows events in
  let tool := existsb acts events in
  let text := text_of events in
  let terminal := terminal_of_recv r in
  let deferred := self.(rl_defer_clean_terminal_errors) &&
    bool_decide (terminal_retryable terminal = Some true) &&
    bool_decide (terminal_code terminal ≠ Some UserLlmProviderModelNotFound) &&
    negb visible && negb tool in
  mkRelayOutcome
    (if bool_decide (text = "") then [] else (process_final_text self text).(mr_system_responses))
    terminal
    (mkTurnAttemptSummary visible tool (bool_decide (text ≠ "")) (error_of_recv r) deferred).

Definition never_deleting : Prop :=
  self.(rl_runtime_state) = true →
  ∀ n, is_deleting self.(rl_conversation_id) (se_runtime n) = false.

Lemma not_deleting : never_deleting → gives anywhere (λ b, b = false) (relay_is_deleting self).
Proof.
  intros Hn. unfold relay_is_deleting. destruct (rl_runtime_state self) eqn:Hr; [|by apply gives_ret].
  intros w _. split; [|done]. by apply Hn.
Qed.

Lemma pass_events_notes events a text s :
  never_deleting → Forall (λ event, ends_turn event = false) events → noted a text s →
  gives anywhere (noted (foldl (λ a event, seen event a) a events) (text +:+ text_of events))
    (pass_events self events s).
Proof.
  intros Hnd. revert a text s. induction events as [|event events IH]; intros a text s Hall Hn;
    cbn [pass_events foldl text_of foldr].
  - rewrite string_app_nil_r. by apply gives_ret.
  - apply Forall_cons in Hall as [He Hall].
    eapply (gives_bind _ (noted (seen event a) (text +:+ said event))).
    + unfold pass_event. eapply gives_bind; [by apply not_deleting|intros ? ->].
      by apply on_event_notes.
    + intros s1 Hs1. rewrite <- string_app_assoc. by apply IH.
Qed.

Lemma foldl_seen a events :
  foldl (λ a event, seen event a) a events =
  mkTurnAttemptSummary (a.(ta_saw_visible_output) || existsb shows events)
    (a.(ta_saw_tool_or_side_effect) || existsb acts events) a.(ta_persisted_assistant_output)
    a.(ta_terminal_error) a.(ta_terminal_error_deferred).
Proof.
  revert a. induction events as [|event events IH]; intros a; cbn.
  - rewrite !orb_false_r. apply seen_eta.
  - rewrite IH. cbn. by rewrite !orb_assoc.
Qed.

Lemma invisible_text events : existsb shows events = false → text_of events = "".
Proof.
  induction events as [|event events IH]; [done|]. cbn [existsb text_of foldr].
  intros [He Hs]%orb_false_elim. change (said event +:+ text_of events = "").
  rewrite (IH Hs), string_app_nil_r. destruct event; try done.
  apply bool_decide_eq_false in He. cbn. destruct (decide (content = "")); [done|tauto].
Qed.

Lemma finalize_gives text segments event terminal :
  gives anywhere
    (λ o, o.(ro_terminal) = terminal ∧ o.(ro_system_responses) =
       if bool_decide (text = "") then [] else (process_final_text self text).(mr_system_responses))
    (finalize self text segments event terminal).
Proof.
  unfold finalize. case_bool_decide; cbv zeta.
  - eapply gives_bind; [apply gives_any|intros ? _]. by apply gives_ret.
  - do 4 (eapply gives_bind; [apply gives_any|intros ? _]). by apply gives_ret.
Qed.

Lemma conclude_gives deleting event terminal s :
  gives anywhere
    (λ o, o.(ro_terminal) = terminal ∧ o.(ro_attempt) = final_attempt s ∧
       (deleting = false → o.(ro_system_responses) =
          if bool_decide (s.(rs_full_text_buffer) = "") then []
          else (process_final_text self s.(rs_full_text_buffer)).(mr_system_responses)))
    (conclude self deleting event terminal s).
Proof.
  unfold conclude.
  set (answers := if bool_decide (rs_full_text_buffer s = "") then _ else _).
  eapply (gives_bind _ (λ o, o.(ro_terminal) = terminal ∧
    (deleting = false → o.(ro_system_responses) = answers))).
  - destruct deleting; [by apply gives_ret|].
    eapply triple_consequence; [apply finalize_gives|done|]. intros o w' [[Ht Hr] _].
    split; [|done]. split; [exact Ht|]. intros _. exact Hr.
  - intros o [Ht Hr]. eapply gives_bind; [apply gives_any|intros ? _]. by apply gives_ret.
Qed.

(** How a turn ends when nothing but its events was noted *)
Lemma final_attempt_noted a text s :
  noted a text s →
  final_attempt s = mkTurnAttemptSummary a.(ta_saw_visible_output) a.(ta_saw_tool_or_side_effect)
    (a.(ta_persisted_assistant_output) || bool_decide (text ≠ "")) a.(ta_terminal_error)
    a.(ta_terminal_error_deferred).
Proof.
  intros [<- <-]. unfold final_attempt. repeat case_bool_decide; try done; cbn.
  - rewrite orb_false_r. apply seen_eta.
  - by rewrite orb_true_r.
Qed.

Lemma close_all_notes (deleting : bool) status a text s :
  noted a text s →
  gives anywhere (noted a text)
    (close_unless_deleting self deleting status s).
Proof.
  intros Hn. unfold close_unless_deleting. destruct deleting; [by apply gives_ret|].
  eapply gives_bind; [by apply complete_thinking_notes|]. intros. by apply close_text_notes.
Qed.

Lemma defers_spec terminal a :
  defers self terminal a =
  self.(rl_defer_clean_terminal_errors) &&
  bool_decide (terminal_retryable terminal = Some true) &&
  bool_decide (terminal_code terminal ≠ Some UserLlmProviderModelNotFound) &&
  safe_to_auto_replay a.
Proof. unfold defers. by destruct terminal as [|code [[]|]|]. Qed.

Lemma on_terminal_gives deleting event events s :
  ends_turn event = true → deleting = false →
  noted (foldl (λ a event, seen event a) default_attempt events) (text_of events) s →
  gives anywhere (λ o, o = outcome_of events (RecvEvent event)) (on_terminal self deleting event s).
Proof.
  intros He -> Hn. pose proof Hn as [Ha Htext]. unfold on_terminal. rewrite foldl_seen in Ha.
  cbn in Ha. rewrite defers_spec, Ha. unfold safe_to_auto_replay, outcome_of. cbn.
  rewrite andb_true_r.
  change (terminal_of_recv (RecvEvent event)) with (terminal_from_event event).
  rewrite <- !andb_assoc.
  destruct (rl_defer_clean_terminal_errors self && _) eqn:Hdefer.
  - apply andb_prop in Hdefer as [_ [Hr [_ [Hv _]%andb_prop]%andb_prop]%andb_prop].
    apply negb_true_iff in Hv. rewrite (invisible_text _ Hv). apply gives_ret.
    by destruct event.
  - eapply (gives_bind _ (noted _ _)); [apply (close_all_notes false), Hn|]. intros s1 [Ha1 Ht1].
    eapply gives_bind; [apply gives_any|intros ? _].
    eapply triple_consequence; [apply conclude_gives|done|]. cbn. intros o w' [(Ht & Hat & Hr) _].
    split; [|done]. specialize (Hr eq_refl). destruct o as [rs t at']. cbn in *. subst rs t at'.
    rewrite foldl_seen in Ha1.
    destruct event as [| | | | | | | | | | | | | | | | | | | | |sid|data| | |]; try done; f_equal.
    + by rewrite Ht1.
    + by rewrite (final_attempt_noted _ _ _ (conj Ha1 Ht1)).
    + cbn. by rewrite Ht1.
    + erewrite (final_attempt_noted (ended_with data _)); [|split; [cbn; by rewrite Ha1|exact Ht1]].
      done.
Qed.

Lemma end_turn_gives r events s :
  never_deleting → decisive r = true →
  noted (foldl (λ a event, seen event a) default_attempt events) (text_of events) s →
  gives anywhere (λ o, o = outcome_of events r) (end_turn self r s).
Proof.
  intros Hnd Hd Hn. destruct r as [event| |n]; [| |done]; cbn [end_turn].
  - eapply gives_bind; [by apply not_deleting|intros ? Hdel]. by apply on_terminal_gives.
  - unfold on_closed. eapply gives_bind; [by apply not_deleting|intros ? ->].
    eapply (gives_bind _ (noted _ _)); [apply (close_all_notes false), Hn|]. intros s1 [Ha1 Ht1].
    eapply triple_consequence; [apply conclude_gives|done|]. cbn. intros o w' [(Ht & Hat & Hr) _].
    split; [|done]. specialize (Hr eq_refl). destruct o as [rs t at']. cbn in *. subst rs t at'.
    rewrite (final_attempt_noted _ _ _ (conj Ha1 Ht1)), foldl_seen, Ht1.
    unfold outcome_of. cbn. f_equal. f_equal. by rewrite andb_false_r.
Qed.

(** The terminal, whatever the conversation becomes *)
Lemma on_terminal_terminal deleting event s :
  gives anywhere (λ o, o.(ro_terminal) = terminal_from_event event)
    (on_terminal self deleting event s).
Proof.
  unfold on_terminal. destruct (defers _ _ _); [by apply gives_ret|].
  do 2 (eapply gives_bind; [apply gives_any|intros ? _]).
  eapply triple_consequence; [apply conclude_gives|done|]. cbn. naive_solver.
Qed.

Lemma end_turn_terminal r s :
  gives anywhere (λ o, o.(ro_terminal) = terminal_of_recv r) (end_turn self r s).
Proof.
  destruct r as [event| |n]; cbn [end_turn].
  - eapply gives_bind; [apply gives_any|intros ? _]. apply on_terminal_terminal.
  - unfold on_closed. do 2 (eapply gives_bind; [apply gives_any|intros ? _]).
    eapply triple_consequence; [apply conclude_gives|done|]. cbn. naive_solver.
  - unfold on_closed. do 2 (eapply gives_bind; [apply gives_any|intros ? _]).
    eapply triple_consequence; [apply conclude_gives|done|]. cbn. naive_solver.
Qed.

Lemma consume_as_heard sends polls w :
  let '(events, r) := heard (negb sends) None polls in
  ro_terminal <$> (consume_inner self sends polls w).1 = terminal_of_recv <$> r ∧
  (never_deleting → (consume_inner self sends polls w).1 = outcome_of events <$> r).
Proof.
  unfold consume_inner. rewrite relay_loop_heard by done. cbn [ch_send_error_done].
  cbn [ch_pending_send_error].
  pose proof (heard_quiet (negb sends) None polls) as Hq.
  pose proof (heard_decisive (negb sends) None polls) as Hd.
  destruct (heard _ _ _) as [events r]. unfold pass. cbn [fst snd] in *.
  unfold mbind, task_bind.
  pose proof (λ Hn, pass_events_notes events default_attempt "" initial_relay_state Hn Hq
    (conj eq_refl eq_refl) w I) as Hpass.
  destruct (pass_events self events initial_relay_state w) as [s w1]. cbn [fst snd] in Hpass.
  destruct r as [r|]; [|done]. specialize (Hd r eq_refl).
  pose proof (end_turn_terminal r s w1 I) as [Ht _].
  pose proof (λ Hn, end_turn_gives r events s Hn Hd (proj1 (Hpass Hn)) w1 I) as Hend.
  destruct (end_turn self r s w1) as [o w2]. cbn in *. split; [by rewrite Ht|].
  intros Hn. by destruct (Hend Hn) as [-> _].
Qed.

(** C21: What a relay answers is decided by what it hears on its channels, whatever fails or
    is done by others meanwhile: it ends exactly when something decisive is heard, with the
    terminal of that; and unless the conversation is being deleted the whole outcome is
    [outcome_of] what was heard: the text and the tool calls that were seen, the error, whether
    it is left to be replayed, the skills that were asked for. *)
Theorem relay_outcome_as_heard sends polls w :
  let '(events, r) := heard (negb sends) None polls in
  ro_terminal <$> (consume_inner self sends polls w).1 = terminal_of_recv <$> r ∧
  (never_deleting → (consume_inner self sends polls w).1 = outcome_of events <$> r).
Proof. apply consume_as_heard. Qed.

Lemma heard_returns done pending polls :
  (∃ r, PollRecv r ∈ polls ∧ decisive r = true) → is_Some (heard done pending polls).2.
Proof.
  intros (r & Hin & Hr). revert done pending. induction polls as [|p polls IH]; intros done pending.
  { by apply elem_of_nil in Hin. }
  apply elem_of_cons in Hin as [<-|Hin]; cbn [heard].
  - destruct r as [event| |n]; [cbn in Hr; by rewrite Hr|eauto|done].
  - specialize (IH Hin). destruct p as [[event| |n]|error|].
    + destruct (ends_turn event); [eauto|]. specialize (IH done pending).
      by destruct (heard done pending polls).
    + eauto.
    + apply IH.
    + destruct done; apply IH.
    + destruct pending; [eauto|apply IH].
Qed.

Lemma heard_send_failure polls :
  (∀ n, PollRecv (RecvLagged n) ∉ polls) →
  (∀ e, is_Some (heard true (Some e) polls).2) ∧
  (∀ e, (∃ polls1 polls2, polls = polls1 ++ PollSend (Some e) :: polls2 ∧
           ∀ error, PollSend error ∉ polls1) → is_Some (heard false None polls).2).
Proof.
  induction polls as [|p polls IH]; intros Hlag.
  { split; [eauto|]. intros e (? & ? & Hnil & _). by destruct (app_cons_not_nil _ _ _ Hnil). }
  destruct IH as [IH1 IH2]; [intros n Hn; apply (Hlag n); by right|]. split; intros e.
  - cbn [heard]. destruct p as [[event| |n]|error|]; cbn; eauto.
    + destruct (ends_turn event); [eauto|]. specialize (IH1 e). by destruct (heard _ _ polls).
    + destruct (Hlag n). by left.
  - intros (polls1 & polls2 & Heq & Hno). destruct polls1 as [|p1 polls1].
    { injection Heq as -> ->. cbn [heard]. apply IH1. }
    injection Heq as <- ->.
    assert (is_Some (heard false None (polls1 ++ PollSend (Some e) :: polls2)).2) as Hs.
    { apply (IH2 e). exists polls1, polls2. split; [done|]. intros error Hin. apply (Hno error).
      by right. }
    cbn [heard]. destruct p as [[event| |n]|error|]; cbn; eauto.
    + destruct (ends_turn event); [eauto|]. by destruct (heard false None _).
    + destruct (Hno error). by left.
Qed.

(** C22: A relay returns when the stream ends the turn or is closed, and, as long as its
    receiver does not lag, when the message could not be sent to the agent. *)
Theorem relay_returns sends polls w :
  (∃ r, PollRecv r ∈ polls ∧ decisive r = true) ∨
  (sends = true ∧ (∀ n, PollRecv (RecvLagged n) ∉ polls) ∧
   ∃ e polls1 polls2, polls = polls1 ++ PollSend (Some e) :: polls2 ∧
     ∀ error, PollSend error ∉ polls1) →
  is_Some (consume_inner self sends polls w).1.
Proof.
  intros Hends. pose proof (consume_as_heard sends polls w) as Ho.
  assert (is_Some (heard (negb sends) None polls).2) as [r Hr].
  { destruct Hends as [Hends|(-> & Hlag & e & polls1 & polls2 & Hends)];
      [by apply heard_returns|].
    eapply (proj2 (heard_send_failure polls Hlag)). eauto. }
  destruct (heard _ _ _) as [events r']. cbn in Hr. subst r'. destruct Ho as [Ho _].
  by destruct (consume_inner self sends polls w).1.
Qed.
End outcome.

(** A receiver that lags while the failure of the sending task is pending forgets the failure:
    unless the stream says more, the turn never ends. *)
Lemma lag_forgets_send_failure `{StreamEnv} self e n polls w :
  (∀ r, PollRecv r ∈ polls → decisive r = false) →
  (consume_with_send_error self (PollSend (Some e) :: PollRecv (RecvLagged n) :: polls) w).1 = None.
Proof.
  intros Hno. pose proof (consume_as_heard self true
    (PollSend (Some e) :: PollRecv (RecvLagged n) :: polls) w) as Ho.
  assert ((heard true None polls).2 = None) as Hr.
  { clear Ho. induction polls as [|p polls IH]; [done|]. cbn [heard].
    assert ((heard true None polls).2 = None) as Hp by (apply IH; intros r Hr; apply Hno; by right).
    destruct p as [[event| |m]|error|]; try done.
    - assert (ends_turn event = false) as -> by (apply (Hno (RecvEvent event)); by left).
      by destruct (heard true None polls).
    - assert (decisive RecvClosed = false); [apply Hno; by left|done]. }
  cbn [heard negb] in Ho. destruct (heard true None polls) as [events r]. cbn in Hr. subst r.
  destruct Ho as [Ho _]. unfold consume_with_send_error.
  by destruct (consume_inner self true _ w).1.
Qed.
