(* ===== verification/StreamSafety.v ===== *)
(** * Conversation: what a relay may do

    A relay asks the database only for what the lifecycle of its conversation allows
    ([relay_respects_lifecycle]), and a turn that is safe to replay has said and stored
    nothing ([safe_attempt_said_nothing]). *)
From S2P Require Import Prelude Text Storage ConvRuntime ConvPolicy Middleware Stream StreamRelay StreamLogic StreamEnds.

(** ** The statements of the adapter

    [may kind]: the coordinator allows [kind] at some moment, or there is none. *)
Section adapter.
Context `{StreamEnv} (self : StreamPersistenceAdapter) (w0 : World).

Definition may (kind : RuntimeWriteKind) : Prop :=
  self.(ad_persistence) = true →
  ∃ n, w0.(wd_tick) ≤ n ∧ allows self.(ad_conversation_id) kind (se_runtime n) = true.

Context (E : Effect → Prop).
Abbreviation I := (asked E w0).

Lemma allows_write_may kind : gives I (λ b, b = true → may kind) (allows_write self kind).
Proof.
  unfold allows_write. destruct (ad_persistence self) eqn:Hp.
  - intros w Hw. split; [|by apply asked_moment]. intros Ha _. exists w.(wd_tick).
    split; [apply Hw|done].
  - apply gives_ret. by unfold may; rewrite Hp.
Qed.

(** The body of a guarded method *)
Lemma keeps_guarded {A} kind (skip body : task A) :
  (may kind → keeps I body) → keeps I skip →
  keeps I (allowed ← allows_write self kind; if negb allowed then skip else body).
Proof.
  intros Hbody Hskip. eapply keeps_bind_gives; [apply allows_write_may|].
  intros [] Hmay; cbn; auto.
Qed.

Lemma keeps_update_each ids updates :
  (∀ id, id ∈ ids → E (Wrote (UpdateMessage id updates))) → keeps I (update_each ids updates).
Proof.
  induction ids as [|id ids IH]; intros HE; cbn; steps.
  - apply HE. by left.
  - apply IH. intros id' Hid. apply HE. by right.
Qed.
End adapter.

(** The methods of the adapter *)
Section guarded.
Context `{StreamEnv} (self : StreamPersistenceAdapter) (w0 : World) (E : Effect → Prop).
Abbreviation I := (asked E w0).

Lemma keeps_flush segment :
  (may self w0 WriteAssistantTextFlush → segment.(tx_buffer) ≠ "" → ∀ write, E (Wrote write)) →
  keeps I (flush_text_segment self segment).
Proof.
  intros HE. apply keeps_guarded; [|steps]. intros Hm.
  steps; apply (HE Hm); by eapply bool_decide_eq_false_1.
Qed.

Lemma keeps_finalize_segment segment status :
  (may self w0 WriteAssistantTextFinalize → segment.(tx_buffer) ≠ "" → ∀ write, E (Wrote write)) →
  keeps I (finalize_text_segment self segment status).
Proof.
  intros HE. apply keeps_guarded; [|steps]. intros Hm.
  steps; apply (HE Hm); by eapply bool_decide_eq_false_1.
Qed.

Lemma keeps_persist_thinking segment duration_ms :
  (may self w0 WriteAssistantThinkingFinalize → segment.(tk_buffer) ≠ "" → ∀ write, E (Wrote write)) →
  keeps I (persist_thinking_segment self segment duration_ms).
Proof.
  intros HE. unfold persist_thinking_segment. case_bool_decide as Hb; [steps|].
  apply keeps_guarded; [|steps]. intros Hm. pose proof (HE Hm Hb). steps.
Qed.

Lemma keeps_final_text text_segments status final_text hidden rewrite_segments :
  (may self w0 WriteTerminalFinalize → ∀ write, E (Wrote write)) →
  keeps I (persist_final_text self text_segments status final_text hidden rewrite_segments).
Proof.
  intros HE. apply keeps_guarded; [|steps]. intros Hm.
  pose proof (HE Hm). steps; by apply keeps_update_each.
Qed.

Lemma keeps_error_tip data :
  (may self w0 WriteTerminalFinalize → ∀ id content created_at,
     E (Wrote (InsertMessage (tip_row self id content "error" created_at)))) →
  keeps I (persist_error_tip self data).
Proof. intros HE. apply keeps_guarded; [|steps]. intros Hm. pose proof (HE Hm). steps. Qed.

Lemma keeps_tip data :
  (may self w0 WriteTerminalFinalize → ∀ write, E (Wrote write)) → keeps I (persist_tip self data).
Proof. intros HE. apply keeps_guarded; [|steps]. intros Hm. pose proof (HE Hm). steps. Qed.

Lemma keeps_tool_call data :
  (may self w0 WriteToolCallPersist → ∀ write, E (Wrote write)) → keeps I (persist_tool_call self data).
Proof. intros HE. apply keeps_guarded; [|steps]. intros Hm. pose proof (HE Hm). steps. Qed.

Lemma keeps_acp_tool_call data :
  (may self w0 WriteAcpToolCallPersist → ∀ write, E (Wrote write)) →
  keeps I (persist_acp_tool_call self data).
Proof. intros HE. apply keeps_guarded; [|steps]. intros Hm. pose proof (HE Hm). steps. Qed.

Lemma keeps_tool_group entries :
  (may self w0 WriteToolGroupPersist → ∀ write, E (Wrote write)) → keeps I (persist_tool_group self entries).
Proof.
  intros HE. apply keeps_guarded; [|steps]. intros Hm. pose proof (HE Hm).
  steps; unfold store_tool_group; steps.
Qed.

Lemma keeps_complete turn_id summary :
  (may self w0 WriteConversationFinished →
     E (Sent (FrameTurnCompleted turn_id summary)) ∧
     ∀ now, E (Wrote (FinishConversation self.(ad_conversation_id) now))) →
  keeps I (complete_conversation self turn_id summary).
Proof.
  intros HE. unfold complete_conversation. destruct (ad_persistence self) eqn:Hp.
  - unfold publish. eapply (keeps_bind_gives _
      (λ b, b = true → may self w0 WriteConversationFinished)).
    + intros w Hw. split; [|by apply asked_moment]. intros Ha _. exists w.(wd_tick).
      split; [apply Hw|done].
    + intros [] Hm; cbn; [|steps]. destruct (HE (Hm eq_refl)) as [HF HE']. steps.
  - destruct HE as [HF HE]; [unfold may; congruence|]. steps.
Qed.
End guarded.

(** ** The relay *)

(** A relay does what its adapter may do, and sends. *)
Section allowed.
Context `{StreamEnv} (self : StreamRelay) (w0 : World) (E : Effect → Prop).
Context (HW : ∀ kind write, may self.(rl_adapter) w0 kind → kind ≠ WriteUserMessage →
                E (Wrote write)).
Context (HF : ∀ frame, E (Sent frame)) (HR : ∀ reply, E (Replied reply)).
Abbreviation I := (asked E w0).

Lemma keeps_forward msg_id event : keeps I (forward_to_websocket_with_msg_id msg_id event).
Proof. unfold forward_to_websocket_with_msg_id. steps. Qed.

Lemma keeps_is_deleting : keeps I (relay_is_deleting self).
Proof. unfold relay_is_deleting. steps. Qed.

Lemma keeps_mint_segment s : keeps I (mint_segment_msg_id self s).
Proof. unfold mint_segment_msg_id. steps. Qed.

Lemma keeps_complete_thinking s : keeps I (complete_active_thinking self s).
Proof.
  unfold complete_active_thinking, send_thinking_done. steps; [apply keeps_forward|].
  apply keeps_persist_thinking. intros Hm _ write. by apply (HW _ _ Hm).
Qed.

Lemma keeps_close_text status s : keeps I (close_active_text_segment self status s).
Proof.
  unfold close_active_text_segment. steps.
  apply keeps_finalize_segment. intros Hm _ write. by apply (HW _ _ Hm).
Qed.

Lemma keeps_overrides overrides : keeps I (send_final_text_overrides overrides).
Proof. induction overrides; cbn [send_final_text_overrides]; steps. Qed.

Lemma keeps_responses responses : keeps I (send_system_responses responses).
Proof. induction responses; cbn [send_system_responses]; steps. Qed.

Lemma keeps_finalize text segments event terminal :
  keeps I (finalize self text segments event terminal).
Proof.
  unfold finalize. steps; auto using keeps_overrides, keeps_responses.
  - apply keeps_error_tip. intros Hm id content created_at. by apply (HW _ _ Hm).
  - apply keeps_final_text. intros Hm write. by apply (HW _ _ Hm).
Qed.

Lemma keeps_conclude deleting event terminal s : keeps I (conclude self deleting event terminal s).
Proof.
  unfold conclude. steps; [apply keeps_finalize|].
  apply keeps_complete. intros Hm. split; [done|]. intros now. by apply (HW _ _ Hm).
Qed.

Lemma keeps_close_all (deleting : bool) status s :
  keeps I (close_unless_deleting self deleting status s).
Proof.
  unfold close_unless_deleting. steps; auto using keeps_complete_thinking, keeps_close_text.
Qed.

Lemma keeps_end_turn r s : keeps I (end_turn self r s).
Proof.
  destruct r as [event| |n]; cbn [end_turn].
  - apply keeps_bind; [apply keeps_is_deleting|intros deleting]. unfold on_terminal.
    destruct (defers _ _ _); [steps|]. apply keeps_bind; [apply keeps_close_all|intros ?].
    apply keeps_bind; [apply keeps_forward|intros _]. apply keeps_conclude.
  - unfold on_closed. apply keeps_bind; [apply keeps_is_deleting|intros deleting].
    apply keeps_bind; [apply keeps_close_all|intros ?]. apply keeps_conclude.
  - unfold on_closed. apply keeps_bind; [apply keeps_is_deleting|intros deleting].
    apply keeps_bind; [apply keeps_close_all|intros ?]. apply keeps_conclude.
Qed.

Lemma keeps_on_tool event persist s : keeps I persist → keeps I (on_tool self event persist s).
Proof.
  intros Hp. unfold on_tool, forward_to_websocket.
  steps; auto using keeps_complete_thinking, keeps_close_text, keeps_forward.
Qed.

Lemma keeps_on_event event s : keeps I (on_event self event s).
Proof.
  destruct event; cbn [on_event]; unfold forward_to_websocket;
    try (steps; apply keeps_forward); try (apply keeps_on_tool).
  - unfold on_text. steps;
      auto using keeps_complete_thinking, keeps_mint_segment, keeps_forward.
    apply keeps_flush. intros Hm _ write. by apply (HW _ _ Hm).
  - unfold on_tips, forward_to_websocket. steps; [apply keeps_forward|].
    apply keeps_tip. intros Hm write. by apply (HW _ _ Hm).
  - apply keeps_tool_call. intros Hm write. by apply (HW _ _ Hm).
  - apply keeps_acp_tool_call. intros Hm write. by apply (HW _ _ Hm).
  - apply keeps_tool_group. intros Hm write. by apply (HW _ _ Hm).
  - unfold on_thinking. steps;
      auto using keeps_complete_thinking, keeps_close_text, keeps_mint_segment, keeps_forward.
Qed.

Lemma keeps_pass h s : keeps I (pass self h s).
Proof.
  destruct h as [events r]. unfold pass. apply keeps_bind; [|intros s1; cbn [snd]; steps].
  - cbn [fst]. revert s. induction events as [|event events IH]; intros s; cbn [pass_events];
      [steps|]. apply keeps_bind; [|auto]. unfold pass_event.
    steps; auto using keeps_is_deleting, keeps_on_event.
  - apply keeps_end_turn.
Qed.
End allowed.

(** ** Once the conversation is being deleted *)

Section lifecycle.
Context `{StreamEnv} (self : StreamRelay) (w0 : World).

(** From now on *)
Definition from_now (φ : RuntimeLifecycleState → Prop) : Prop :=
  ∀ n, w0.(wd_tick) ≤ n → φ (lifecycle_for self.(rl_conversation_id) (se_runtime n)).

(** Not a statement *)
Definition writes_nothing (e : Effect) : Prop := match e with Wrote _ => False | _ => True end.

(** The event that ends the turn *)
Definition only_the_end (e : Effect) : Prop :=
  match e with
  | Sent (FrameEvent msg_id event) => msg_id = self.(rl_msg_id) ∧ ends_turn event = true
  | _ => False
  end.

Lemma may_nothing kind :
  self.(rl_adapter).(ad_persistence) = true →
  self.(rl_adapter).(ad_conversation_id) = self.(rl_conversation_id) →
  from_now (λ l, l = Deleting ∨ l = ShuttingDown) → kind ≠ WriteUserMessage →
  ¬ may self.(rl_adapter) w0 kind.
Proof.
  intros Hp Hc Hl Hk Hm. destruct (Hm Hp) as (n & Hn & Ha). specialize (Hl n Hn).
  unfold allows, decide_write in Ha. rewrite Hc in Ha.
  destruct Hl as [Hl|Hl]; rewrite Hl in Ha; by destruct kind.
Qed.

Lemma deleting_is_seen E :
  self.(rl_runtime_state) = true → from_now (λ l, l = Deleting) →
  gives (asked E w0) (λ b, b = true) (relay_is_deleting self).
Proof.
  intros Hr Hl w Hw. unfold relay_is_deleting. rewrite Hr. split; [|by apply asked_moment].
  specialize (Hl w.(wd_tick) (as_tick _ _ _ Hw)). cbn. unfold lifecycle_for in Hl.
  unfold is_deleting, read_or in *. destruct (cv_poisoned _); [done|].
  destruct (ct_shutting_down _); [done|]. case_bool_decide; [done|].
  by case_bool_decide.
Qed.

Lemma pass_events_deleting events s :
  self.(rl_runtime_state) = true → from_now (λ l, l = Deleting) →
  keeps (asked only_the_end w0) (pass_events self events s).
Proof.
  intros Hr Hl. revert s. induction events as [|event events IH]; intros s; cbn [pass_events];
    [steps|]. apply keeps_bind; [|auto]. unfold pass_event.
  eapply keeps_bind_gives; [by apply deleting_is_seen|]. intros ? ->. steps.
Qed.

Lemma end_turn_deleting r s :
  self.(rl_runtime_state) = true → from_now (λ l, l = Deleting) → decisive r = true →
  keeps (asked only_the_end w0) (end_turn self r s).
Proof.
  intros Hr Hl Hd. destruct r as [event| |n]; [| |done]; cbn [end_turn].
  - eapply keeps_bind_gives; [by apply deleting_is_seen|]. intros ? ->.
    unfold on_terminal, close_unless_deleting, conclude, forward_to_websocket, forward_to_websocket_with_msg_id.
    rewrite andb_false_r. steps. by split.
  - unfold on_closed. eapply keeps_bind_gives; [by apply deleting_is_seen|]. intros ? ->.
    unfold close_unless_deleting, conclude. rewrite andb_false_r. steps.
Qed.

(** C24: When a relay looks at its channels and from then on its conversation is being deleted,
    or the process is shut down, it changes nothing more in the database, wherever it is in its
    loop and whatever it has gathered; being deleted, all it still does is to forward the event
    that ends the turn.  (An event being handled when the deletion begins is handled to its
    end: the methods of the adapter ask once, before their first statement.) *)
Theorem relay_respects_lifecycle polls c s :
  self.(rl_adapter).(ad_persistence) = true →
  self.(rl_adapter).(ad_conversation_id) = self.(rl_conversation_id) → channels_wf c →
  (from_now (λ l, l = Deleting ∨ l = ShuttingDown) →
     asked writes_nothing w0 (relay_loop self polls c s w0).2) ∧
  (self.(rl_runtime_state) = true → from_now (λ l, l = Deleting) →
     asked only_the_end w0 (relay_loop self polls c s w0).2).
Proof.
  intros Hp Hc Hwf. rewrite relay_loop_heard by done. split.
  - intros Hl. apply keeps_pass; [|done|done|apply asked_start]. intros kind write Hm Hk.
    by destruct (may_nothing kind Hp Hc Hl Hk).
  - intros Hr Hl. pose proof (heard_decisive c.(ch_send_error_done) c.(ch_pending_send_error) polls)
      as Hd. destruct (heard _ _ _) as [events r]. unfold pass. cbn [fst snd] in *.
    apply (keeps_bind (asked only_the_end w0)); [by apply pass_events_deleting| |apply asked_start].
    intros s1. destruct r as [r|]; [|steps]. apply keeps_bind; [|steps].
    by apply end_turn_deleting, Hd.
Qed.
End lifecycle.

(** ** What a turn that is safe to replay has done *)

Section clean.
Context `{StreamEnv} (self : StreamRelay) (w0 : World).

(** An event that says nothing of a reply: no text, no thought, no tip but that of an error,
    no tool call, no request, and not the end of the turn.  The others tell of the agent: that
    it starts, its plan, its status, its settings. *)
Definition notice (event : AgentStreamEvent) : Prop :=
  match event with
  | EvText content => content = ""
  | EvThinking data => data.(th_content) = ""
  | EvTips data => data.(tp_tip_type) = TipError
  | EvToolCall _ | EvAcpToolCall _ | EvToolGroup _ | EvPermission _ | EvAcpPermission _
  | EvCronTrigger _ | EvFinish _ | EvError _ => False
  | EvStart _ | EvAgentStatus _ | EvPlan _ | EvSkillSuggest _ | EvAcpModelInfo _
  | EvAcpModeInfo _ | EvAcpConfigOption _ | EvAcpSessionInfo _ | EvAcpContextUsage _
  | EvAcpPromptHookWarning _ | EvSlashCommandsUpdated _ | EvAvailableCommands _ | EvSystem _
  | EvRequestTrace _ | EvSessionAssigned _ => True
  end.

(** Nothing is asked of the database and of the channels, and the web sockets get notices. *)
Definition silent (e : Effect) : Prop :=
  match e with Sent (FrameEvent _ event) => notice event | _ => False end.

(** The end of a turn: its last event, the tip that tells its error, the end of the
    conversation's turn *)
Definition ending (e : Effect) : Prop :=
  match e with
  | Sent (FrameEvent _ event) => ends_turn event = true
  | Sent (FrameTurnCompleted _ _) => True
  | Wrote (InsertMessage row) => row.(mg_type) = "tips" ∧ row.(mg_status) = Some "error"
  | Wrote (FinishConversation _ _) => True
  | _ => False
  end.

(** Nothing of the turn is waiting to be stored. *)
Record clean (s : RelayState) : Prop := {
  cn_full : s.(rs_full_text_buffer) = "";
  cn_text segment : s.(rs_active_text) = Some segment → segment.(tx_buffer) = "";
  cn_thinking segment : s.(rs_active_thinking) = Some segment → segment.(tk_buffer) = "";
}.

Lemma clean_initial : clean initial_relay_state.
Proof. by split. Qed.

Section step.
Context (E : Effect → Prop) (HE : ∀ e, silent e → E e).
Abbreviation I := (asked E w0).

Lemma keeps_silent_forward msg_id event :
  E (Sent (FrameEvent msg_id event)) → keeps I (forward_to_websocket_with_msg_id msg_id event).
Proof. intros He. unfold forward_to_websocket_with_msg_id. steps. Qed.

Lemma clean_complete_thinking s :
  clean s → gives I (λ s', clean s' ∧ s'.(rs_active_thinking) = None)
    (complete_active_thinking self s).
Proof.
  intros Hc. unfold complete_active_thinking. destruct (rs_active_thinking s) as [segment|] eqn:Ht.
  - assert (clean (set_rs_thinking None s) ∧ True) as [Hc' _].
    { destruct Hc. split; [by split|done]. }
    eapply gives_bind; [apply (gives_keeps _ (λ _, True)); [unfold now; steps|done]|intros now _].
    eapply gives_bind; [apply (gives_keeps _ (λ _, True))|intros ? _].
    + apply keeps_silent_forward. by apply HE.
    + done.
    + eapply gives_bind; [apply (gives_keeps _ (λ _, True))|intros ? _].
      * apply keeps_persist_thinking. intros _ Hb. by destruct (Hb (cn_thinking _ Hc _ Ht)).
      * done.
      * by apply gives_ret.
  - by apply gives_ret.
Qed.

Lemma clean_close_text status s :
  clean s → gives I (λ s', clean s' ∧ s'.(rs_active_thinking) = s.(rs_active_thinking))
    (close_active_text_segment self status s).
Proof.
  intros Hc. unfold close_active_text_segment. destruct (rs_active_text s) as [segment|] eqn:Ht.
  - eapply gives_bind; [apply (gives_keeps _ (λ _, True))|intros o _].
    + apply keeps_finalize_segment. intros _ Hb. by destruct (Hb (cn_text _ Hc _ Ht)).
    + done.
    + apply gives_ret. destruct Hc. by destruct o; repeat split.
  - by apply gives_ret.
Qed.

Lemma clean_mint s :
  clean s → gives I (λ p, clean p.2) (mint_segment_msg_id self s).
Proof.
  intros Hc. unfold mint_segment_msg_id. destruct (rs_used_primary_segment_msg_id s).
  - eapply gives_bind; [apply (gives_keeps _ (λ _, True)); [unfold mint_msg_id; steps|done]|].
    intros id _. by apply gives_ret.
  - apply gives_ret. destruct Hc. by split.
Qed.

Lemma clean_note_visible content s : clean s → clean (note_visible content s).
Proof. intros []. unfold note_visible. case_bool_decide; by split. Qed.

Lemma clean_set_thinking segment s :
  clean s → segment.(tk_buffer) = "" → clean (set_rs_thinking (Some segment) s).
Proof. intros [] Hb. split; [done|done|]. by intros ? [= <-]. Qed.

Lemma clean_thinking data s :
  shows (EvThinking data) = false → clean s → gives I clean (on_thinking self data s).
Proof.
  intros Hs Hc. unfold on_thinking.
  destruct (bool_decide (th_status data = Some "done")) eqn:Hd.
  { eapply triple_consequence; [by apply clean_complete_thinking|done|]. cbn. naive_solver. }
  assert (th_content data = "") as Hcontent.
  { cbn in Hs. apply bool_decide_eq_false in Hs, Hd. destruct (decide (th_content data = "")); tauto. }
  eapply gives_bind; [by apply clean_close_text|intros s1 [Hc1 _]].
  apply (clean_note_visible (th_content data)) in Hc1. cbv zeta.
  eapply (gives_bind _ (λ p, clean p.2 ∧ p.1.(tk_buffer) = "")).
  - destruct (rs_active_thinking (note_visible _ s1)) as [segment|] eqn:Ht.
    + apply gives_ret. split; [done|]. exact (cn_thinking _ Hc1 _ Ht).
    + eapply gives_bind; [by apply clean_mint|intros [id s2] Hc2].
      eapply gives_bind; [apply (gives_keeps _ (λ _, True)); [unfold now; steps|done]|].
      intros now _. by apply gives_ret.
  - intros [segment s2] [Hc2 Hb]. cbn in Hb.
    eapply gives_bind; [apply (gives_keeps _ (λ _, True)); [apply keeps_silent_forward|done]|].
    + by apply HE.
    + intros _ _. apply gives_ret. apply clean_set_thinking; [done|]. cbn. by rewrite Hb, Hcontent.
Qed.

Lemma clean_set_text segment s :
  clean s → segment.(tx_buffer) = "" → clean (set_rs_text (Some segment) s).
Proof. intros [] Hb. split; [done| |done]. by intros ? [= <-]. Qed.

(** A flush of a segment without text leaves it without text. *)
Lemma clean_flush segment :
  segment.(tx_buffer) = "" →
  gives I (λ segment', segment'.(tx_buffer) = "") (flush_text_segment self.(rl_adapter) segment).
Proof.
  intros Hb. unfold flush_text_segment. eapply gives_bind.
  - apply (gives_keeps _ (λ _, True)); [|done]. eapply keeps_gives, allows_write_may.
  - intros allowed _. destruct (negb allowed); [by apply gives_ret|].
    rewrite bool_decide_eq_true_2 by done. by apply gives_ret.
Qed.

Lemma clean_text s : clean s → gives I clean (on_text self "" s).
Proof.
  intros Hc. unfold on_text.
  eapply gives_bind; [by apply clean_complete_thinking|intros s1 [Hc1 _]].
  apply (clean_note_visible "") in Hc1. cbv zeta.
  eapply (gives_bind _ (λ p, clean p.2 ∧ p.1.(tx_buffer) = "")).
  - destruct (rs_active_text (note_visible _ s1)) as [segment|] eqn:Ht.
    + apply gives_ret. split; [done|]. exact (cn_text _ Hc1 _ Ht).
    + eapply gives_bind; [by apply clean_mint|intros [id s2] Hc2].
      eapply gives_bind; [apply (gives_keeps _ (λ _, True)); [unfold now; steps|done]|].
      intros now _. by apply gives_ret.
  - intros [segment s2] [Hc2 Hb]. cbn in Hb.
    eapply gives_bind; [apply (gives_keeps _ (λ _, True)); [apply keeps_silent_forward|done]|].
    { by apply HE. }
    intros _ _. eapply (gives_bind _ (λ segment', segment'.(tx_buffer) = "")).
    + destruct (FLUSH_INTERVAL <=? _).
      * eapply gives_bind; [apply clean_flush; cbn; by rewrite Hb|]. intros segment' Hb'.
        by apply gives_ret.
      * apply gives_ret. cbn. by rewrite Hb.
    + intros segment' Hb'. apply gives_ret. apply clean_set_text; [|done].
      destruct Hc2. split; [|done|done]. cbn. by rewrite string_app_nil_r.
Qed.

Lemma clean_on_event event s :
  shows event = false → acts event = false → ends_turn event = false → clean s →
  gives I clean (on_event self event s).
Proof.
  intros Hs Ha He Hc.
  assert (notice event → ∀ msg_id, keeps I (forward_to_websocket_with_msg_id msg_id event)) as Hfw.
  { intros Hn msg_id. by apply keeps_silent_forward, HE. }
  destruct event; try done; cbn [on_event];
    try (eapply gives_bind; [apply (gives_keeps _ (λ _, True)); [by apply Hfw|done]|intros ? _];
         by apply gives_ret).
  - apply bool_decide_eq_false in Hs. destruct (decide (content = "")) as [->|]; [|tauto].
    by apply clean_text.
  - unfold on_tips. cbn in Hs. rewrite Hs.
    eapply gives_bind; [apply (gives_keeps _ (λ _, True)); [apply Hfw|done]|intros ? _].
    { revert Hs. unfold tip_shown. cbn. by destruct (tp_tip_type data). }
    eapply gives_bind; [apply (gives_keeps _ (λ _, True)); [steps|done]|intros ? _].
    by apply gives_ret.
  - by apply clean_thinking.
Qed.
End step.

Definition clean_so_far (s : RelayState) (w : World) : Prop :=
  s.(rs_attempt).(ta_terminal_error_deferred) = false ∧
  (safe_to_auto_replay s.(rs_attempt) = true → clean s ∧ asked silent w0 w).

Lemma safe_seen event a :
  safe_to_auto_replay (seen event a) = true →
  safe_to_auto_replay a = true ∧ shows event = false ∧ acts event = false.
Proof.
  destruct a as [v t p err d]. unfold safe_to_auto_replay, seen. cbn.
  by destruct v, t, p, (shows event), (acts event).
Qed.

Lemma pass_event_clean event s :
  ends_turn event = false → triple (clean_so_far s) (pass_event self event s) clean_so_far.
Proof.
  intros He w [Hd HJ]. unfold pass_event, mbind, task_bind.
  pose proof (keeps_is_deleting self w0 silent w) as Hdel.
  destruct (relay_is_deleting self w) as [[] w1].
  { split; [done|]. intros Hsafe. destruct (HJ Hsafe). auto. }
  pose proof (on_event_notes self event s.(rs_attempt) s.(rs_full_text_buffer) s He
    (conj eq_refl eq_refl) w1 I) as [[Ha _] _].
  split; [by rewrite Ha|]. intros Hsafe. rewrite Ha in Hsafe. apply safe_seen in Hsafe as (Hsafe & Hs & Hac).
  destruct (HJ Hsafe) as [Hc Hw]. apply (clean_on_event silent); auto.
Qed.

Lemma pass_events_clean events s :
  Forall (λ event, ends_turn event = false) events →
  triple (clean_so_far s) (pass_events self events s) clean_so_far.
Proof.
  revert s. induction events as [|event events IH]; intros s Hall; cbn [pass_events].
  - by apply triple_ret.
  - apply Forall_cons in Hall as [He Hall].
    eapply triple_bind; [by apply pass_event_clean|]. intros s1. by apply IH.
Qed.

(** What a whole turn does that is safe to replay *)
Definition quiet_turn (e : Effect) : Prop := silent e ∨ ending e.

Lemma asked_weaken (E E' : Effect → Prop) w : (∀ e, E e → E' e) → asked E w0 w → asked E' w0 w.
Proof.
  intros HE [Ht (l1 & Hl1 & H1) (l2 & Hl2 & H2) (l3 & Hl3 & H3)].
  split; [done|exists l1|exists l2|exists l3]; (split; [done|]); eapply Forall_impl; eauto.
Qed.

(** The end of a turn of which nothing was said *)
Lemma keeps_conclude_clean deleting event terminal s :
  s.(rs_full_text_buffer) = "" →
  keeps (asked quiet_turn w0) (conclude self deleting event terminal s).
Proof.
  intros Hf. unfold conclude. apply keeps_bind.
  - destruct deleting; [steps|]. rewrite Hf. unfold finalize.
    rewrite bool_decide_eq_true_2 by done. apply keeps_bind; [|intros _; steps].
    destruct event; steps. apply keeps_error_tip. intros _ id content created_at. by right.
  - intros outcome. steps. apply keeps_complete. intros _. split; [by right|]. intros now. by right.
Qed.

Lemma final_safe s :
  safe_to_auto_replay (final_attempt s) = true → safe_to_auto_replay s.(rs_attempt) = true.
Proof.
  unfold final_attempt, safe_to_auto_replay. case_bool_decide; [done|]. cbn. by rewrite andb_false_r.
Qed.

Lemma close_all_clean (deleting : bool) status s :
  clean s →
  gives (asked quiet_turn w0) clean
    (close_unless_deleting self deleting status s).
Proof.
  intros Hc. assert (∀ e, silent e → quiet_turn e) as HE by (intros; by left).
  unfold close_unless_deleting. destruct deleting; [by apply gives_ret|].
  eapply gives_bind; [by apply clean_complete_thinking|]. intros s1 [Hc1 _].
  eapply triple_consequence; [by apply clean_close_text|done|]. cbn. naive_solver.
Qed.

(** What is known of the outcome of a turn and of what it did *)
Record clean_end (o : RelayOutcome) (w : World) : Prop := {
  ce_safe : safe_to_auto_replay o.(ro_attempt) = true → asked quiet_turn w0 w;
  ce_deferred : o.(ro_attempt).(ta_terminal_error_deferred) = true →
    safe_to_auto_replay o.(ro_attempt) = true ∧ asked silent w0 w;
}.

Lemma conclude_attempt deleting event terminal s w :
  (conclude self deleting event terminal s w).1.(ro_attempt) = final_attempt s.
Proof.
  pose proof (conclude_gives self deleting event terminal s w I) as [(_ & Ha & _) _]. exact Ha.
Qed.

Lemma final_deferred s :
  (final_attempt s).(ta_terminal_error_deferred) = s.(rs_attempt).(ta_terminal_error_deferred).
Proof. unfold final_attempt. by case_bool_decide. Qed.

(** What is pending is closed, something is forwarded, then the outcome. *)
Lemma close_and_conclude_clean deleting status event terminal
    (note : RelayState → RelayState) (forward : task ()) s :
  keeps (asked quiet_turn w0) forward →
  (∀ s', (note s').(rs_full_text_buffer) = s'.(rs_full_text_buffer)) →
  (∀ s', safe_to_auto_replay (note s').(rs_attempt) = safe_to_auto_replay s'.(rs_attempt)) →
  (∀ s', (note s').(rs_attempt).(ta_terminal_error_deferred) =
         s'.(rs_attempt).(ta_terminal_error_deferred)) →
  triple (clean_so_far s)
    (s ← close_unless_deleting self deleting status s;
     _ ← forward; conclude self deleting event terminal (note s)) clean_end.
Proof.
  intros Hfw Hf Ha Hd w [Hnd HJ]. unfold mbind, task_bind.
  pose proof (close_all_notes self deleting status s.(rs_attempt) s.(rs_full_text_buffer) s
    (conj eq_refl eq_refl) w I) as [[Hat _] _].
  pose proof (λ Hc, close_all_clean deleting status s Hc w) as Hclose.
  destruct (close_unless_deleting self deleting status s w) as [s1 w1]. cbn [fst snd] in *.
  pose proof (Hfw w1) as Hw2. destruct (forward w1) as [[] w2]. cbn [fst snd] in *.
  split; rewrite conclude_attempt.
  - intros Hsafe%final_safe. rewrite Ha, Hat in Hsafe.
    destruct (HJ Hsafe) as [Hc Hw]. destruct (Hclose Hc) as [Hc1 Hw1].
    { eapply asked_weaken; [|exact Hw]. by left. }
    apply keeps_conclude_clean; [rewrite Hf; apply cn_full, Hc1|]. by apply Hw2.
  - rewrite final_deferred, Hd, Hat, Hnd. done.
Qed.

Lemma end_turn_clean r s :
  decisive r = true → triple (clean_so_far s) (end_turn self r s) clean_end.
Proof.
  intros Hdec w HJ.
  pose proof (keeps_is_deleting self w0 silent w) as Hdel.
  destruct r as [event| |n]; [| |done]; cbn [end_turn]; unfold on_closed, mbind, task_bind;
    destruct (relay_is_deleting self w) as [deleting w1]; cbn [fst snd] in Hdel.
  - assert (clean_so_far s w1) as HJ1.
    { destruct HJ as [Hd HJ]. split; [done|]. intros Hs. destruct (HJ Hs). auto. }
    unfold on_terminal. rewrite defers_spec.
    destruct (rl_defer_clean_terminal_errors self && _ && _ && _) eqn:Hdefer.
    + apply andb_prop in Hdefer as [_ Hs]. destruct HJ1 as [_ HJ1].
      destruct (HJ1 Hs) as [Hc Hw].
      assert (asked quiet_turn w0 w1) as Hq by (eapply asked_weaken; [|exact Hw]; by left).
      split; [done|]. intros _. split; [|done]. by destruct event.
    + apply close_and_conclude_clean; [|by destruct event..|done].
      apply keeps_silent_forward. by right.
  - assert (clean_so_far s w1) as HJ1.
    { destruct HJ as [Hd HJ]. split; [done|]. intros Hs. destruct (HJ Hs). auto. }
    pose proof (close_and_conclude_clean deleting "finish" (EvFinish None) TerminalChannelClosed id
      (mret ()) s) as Hcc.
    apply Hcc; [steps|done|done|done|done].
Qed.
End clean.

Lemma safe_attempt `{StreamEnv} self sends polls w o :
  (consume_inner self sends polls w).1 = Some o →
  (safe_to_auto_replay o.(ro_attempt) = true →
     asked quiet_turn w (consume_inner self sends polls w).2) ∧
  (o.(ro_attempt).(ta_terminal_error_deferred) = true →
     safe_to_auto_replay o.(ro_attempt) = true ∧
     asked silent w (consume_inner self sends polls w).2).
Proof.
  unfold consume_inner. rewrite relay_loop_heard by done. cbn [ch_send_error_done].
  cbn [ch_pending_send_error].
  pose proof (heard_quiet (negb sends) None polls) as Hq.
  pose proof (heard_decisive (negb sends) None polls) as Hd.
  destruct (heard _ _ _) as [events [r|]]; cbn [fst snd] in *; unfold pass; cbn [fst snd];
    unfold mbind, task_bind; [|by destruct (pass_events _ _ _ _)].
  pose proof (pass_events_clean self w events initial_relay_state Hq w) as Hpass.
  destruct (pass_events self events initial_relay_state w) as [s w1].
  pose proof (end_turn_clean self w r s (Hd r eq_refl) w1) as Hend.
  destruct (end_turn self r s w1) as [o' w2]. cbn in *. intros [= ->].
  destruct Hend as [H1 H2]; [|by split]. apply Hpass. split; [done|].
  intros _. split; [apply clean_initial|apply asked_start].
Qed.

(** ** The failure that is told *)

Section told.
Context `{StreamEnv}.

Definition anything (e : Effect) : Prop := True.

(** The user is told of a failure: its event is forwarded, or a tip of it given to store. *)
Definition tells (e : Effect) : Prop :=
  match e with
  | Sent (FrameEvent _ (EvError _)) => True
  | Wrote (InsertMessage row) => row.(mg_type) = "tips" ∧ row.(mg_status) = Some "error"
  | _ => False
  end.

Definition told (w0 w : World) : Prop :=
  (∃ frames frame, w.(wd_frames) = w0.(wd_frames) ++ frames ∧ frame ∈ frames ∧ tells (Sent frame)) ∨
  (∃ writes write, w.(wd_writes) = w0.(wd_writes) ++ writes ∧ write ∈ writes ∧ tells (Wrote write)).

Lemma told_later w0 w w' : told w0 w → asked anything w w' → told w0 w'.
Proof.
  intros [(frames & frame & Hf & Hin & Ht)|(writes & write & Hf & Hin & Ht)]
    [_ (l1 & Hl1 & _) (l2 & Hl2 & _) _]; [left|right].
  - exists (frames ++ l2), frame. rewrite Hl2, Hf, app_assoc, elem_of_app. auto.
  - exists (writes ++ l1), write. rewrite Hl1, Hf, app_assoc, elem_of_app. auto.
Qed.

Lemma told_earlier w0 w w' : asked anything w0 w → told w w' → told w0 w'.
Proof.
  intros [_ (l1 & Hl1 & _) (l2 & Hl2 & _) _]
    [(frames & frame & Hf & Hin & Ht)|(writes & write & Hf & Hin & Ht)]; [left|right].
  - exists (l2 ++ frames), frame. rewrite Hf, Hl2, app_assoc, elem_of_app. auto.
  - exists (l1 ++ writes), write. rewrite Hf, Hl1, app_assoc, elem_of_app. auto.
Qed.

Lemma asked_trans E w0 w1 w2 : asked E w0 w1 → asked E w1 w2 → asked E w0 w2.
Proof.
  intros [Ht1 (a1 & Ha1 & ?) (a2 & Ha2 & ?) (a3 & Ha3 & ?)]
    [Ht2 (b1 & Hb1 & ?) (b2 & Hb2 & ?) (b3 & Hb3 & ?)].
  split; [lia|exists (a1 ++ b1)|exists (a2 ++ b2)|exists (a3 ++ b3)];
    (split; [rewrite ?Hb1, ?Hb2, ?Hb3, ?Ha1, ?Ha2, ?Ha3; by rewrite app_assoc|by apply Forall_app]).
Qed.

(** Whatever a relay does, the past stays. *)
Lemma relay_past self h s w0 w :
  asked anything w0 w → asked anything w0 (pass self h s w).2.
Proof. intros Hw. by apply keeps_pass. Qed.

(** The error a turn ends with is forwarded, unless it is put off. *)
Lemma relay_tells self sends polls w o :
  (∀ data, se_event_serializes (EvError data) = true) →
  (consume_inner self sends polls w).1 = Some o → terminal_is_error o.(ro_terminal) = true →
  o.(ro_attempt).(ta_terminal_error_deferred) = false →
  told w (consume_inner self sends polls w).2.
Proof.
  intros Hser. unfold consume_inner. rewrite relay_loop_heard by done. unfold pass.
  cbn [ch_send_error_done ch_pending_send_error].
  pose proof (heard_decisive (negb sends) None polls) as Hd.
  destruct (heard _ _ _) as [events [r|]]; cbn [fst snd] in *;
    unfold mbind, task_bind, mret, task_ret; [|by destruct (pass_events _ _ _ _)].
  pose proof (keeps_pass self w anything (λ _ _ _ _, I) (λ _, I) (λ _, I) (events, None)
    initial_relay_state w (asked_start _ _)) as Hpast.
  unfold pass, mbind, task_bind, mret, task_ret in Hpast. cbn [fst snd] in Hpast.
  destruct (pass_events self events initial_relay_state w) as [s w1]. cbn [fst snd] in Hpast.
  pose proof (end_turn_terminal self r s w1 I) as [Hterm _]. specialize (Hd r eq_refl).
  pose proof (keeps_end_turn self w anything (λ _ _ _ _, I) (λ _, I) (λ _, I) r s w1 Hpast) as Hend.
  destruct (end_turn self r s w1) as [o' w2] eqn:Heq. cbn [fst snd] in *. intros [= ->] Herr Hnd.
  rewrite Hterm in Herr. destruct r as [event| |n]; [|done..].
  destruct event as [| | | | | | | | | | | | | | | | | | | | |sid|data| | |]; try done.
  cbn [end_turn] in Heq. unfold mbind, task_bind in Heq.
  pose proof (keeps_is_deleting self w anything w1 Hpast) as Hpast1.
  destruct (relay_is_deleting self w1) as [deleting w3]. cbn [snd] in Hpast1.
  unfold on_terminal in Heq. destruct (defers _ _ _); [by injection Heq as <- <-|].
  unfold mbind, task_bind in Heq.
  pose proof (keeps_close_all self w anything (λ _ _ _ _, I) (λ _, I) deleting "error" s w3 Hpast1)
    as Hpast2.
  destruct (close_unless_deleting self deleting "error" s w3) as [s1 w4]. cbn [snd] in Hpast2.
  unfold forward_to_websocket, forward_to_websocket_with_msg_id in Heq. rewrite Hser in Heq.
  unfold broadcast_frame in Heq. cbn [fst snd] in Heq.
  match type of Heq with conclude _ _ _ _ _ ?w5 = _ => set (w5' := w5) in Heq end.
  assert (told w w5') as Htold.
  { left. destruct Hpast2 as [_ _ (frames & Hf & _) _].
    exists (frames ++ [FrameEvent self.(rl_msg_id) (EvError data)]),
      (FrameEvent self.(rl_msg_id) (EvError data)).
    split; [cbn; by rewrite Hf, app_assoc|]. split; [|done]. apply elem_of_app. right. by left. }
  eapply told_later; [exact Htold|].
  pose proof (keeps_conclude self w5' anything (λ _ _ _ _, I) (λ _, I) (λ _, I) deleting (EvError data)
    (terminal_from_event (EvError data)) (set_rs_attempt (ended_with data s1.(rs_attempt)) s1) w5'
    (asked_start _ _)) as Hc.
  by rewrite Heq in Hc.
Qed.
End told.

(** C23: A turn after which a replay is called safe has said nothing: the web sockets got no
    text, no thought, no tool call, no request and no tip but of an error, no message was
    stored and none sent to a channel.  They got notices of the agent ([notice]: its start, its
    plan, its status, its settings) and the end of the turn: its last event, the tip of its
    error, the status of the conversation.  A turn whose error was put off for a replay sent
    the notices only. *)
Theorem safe_attempt_said_nothing `{StreamEnv} self sends polls w o :
  (consume_inner self sends polls w).1 = Some o →
  (safe_to_auto_replay o.(ro_attempt) = true →
     asked quiet_turn w (consume_inner self sends polls w).2) ∧
  (o.(ro_attempt).(ta_terminal_error_deferred) = true →
     safe_to_auto_replay o.(ro_attempt) = true ∧
     asked silent w (consume_inner self sends polls w).2).
Proof. apply safe_attempt. Qed.
