(* ===== verification/StreamStore.v ===== *)
(** * Conversation: what is stored of a reply

    In a world where the statements succeed and the others leave the rows of the turn alone,
    the rows of a reply are the runs of text between the tool calls and thoughts of the turn,
    whatever the flushes in between: [reply_is_stored].  [text_runs] is the reference. *)
From S2P Require Import Prelude Text Storage ConvRuntime ConvPolicy Middleware Stream StreamRelay StreamLogic StreamEnds.

#[local] Arguments update_message : simpl never.
#[local] Arguments insert_message : simpl never.
#[local] Arguments upsert_message : simpl never.

(** ** The reference: the runs of text of a turn *)

Section runs.
Context `{!JsonValue}.

(** The event closes the segment of text that is open. *)
Definition breaks (event : AgentStreamEvent) : bool :=
  match event with
  | EvThinking data => bool_decide (data.(th_status) ≠ Some "done")
  | EvToolCall _ | EvAcpToolCall _ | EvToolGroup _ => true
  | _ => false
  end.

(** The runs that are closed, and the one that is open *)
Definition close_run (runs : list string * option string) : list string :=
  match runs.2 with
  | Some run => if bool_decide (run = "") then runs.1 else runs.1 ++ [run]
  | None => runs.1
  end.

Definition run_step (runs : list string * option string) (event : AgentStreamEvent) :
    list string * option string :=
  match event with
  | EvText content => (runs.1, Some (default "" runs.2 +:+ content))
  | _ => if breaks event then (close_run runs, None) else runs
  end.

Definition text_runs (events : list AgentStreamEvent) : list string :=
  close_run (foldl run_step ([], None) events).

Definition joined (l : list string) : string := foldr (λ s t, s +:+ t) "" l.

Lemma joined_app l1 l2 : joined (l1 ++ l2) = joined l1 +:+ joined l2.
Proof.
  induction l1 as [|s l1 IH]; [done|]. cbn. fold (joined (l1 ++ l2)). fold (joined l1).
  by rewrite IH, string_app_assoc.
Qed.

Definition run_text (runs : list string * option string) : string :=
  joined runs.1 +:+ default "" runs.2.

Lemma joined_close_run runs : joined (close_run runs) = run_text runs.
Proof.
  destruct runs as [l [run|]]; unfold close_run, run_text; cbn; [|by rewrite string_app_nil_r].
  case_bool_decide as Hr; [by rewrite Hr, string_app_nil_r|]. rewrite joined_app. cbn.
  by rewrite string_app_nil_r.
Qed.

Lemma run_step_text runs event : run_text (run_step runs event) = run_text runs +:+ said event.
Proof.
  assert (run_text (close_run runs, None) = run_text runs +:+ "") as Hclose.
  { rewrite string_app_nil_r, <- (joined_close_run runs). unfold run_text. cbn. by rewrite string_app_nil_r. }
  destruct event; cbn [run_step said breaks]; try done; try by rewrite string_app_nil_r.
  - unfold run_text. cbn. by rewrite string_app_assoc.
  - case_bool_decide; [done|]. by rewrite string_app_nil_r.
Qed.

(** The runs, put together, are the text. *)
Lemma joined_text_runs events : joined (text_runs events) = text_of events.
Proof.
  unfold text_runs. rewrite joined_close_run.
  cut (∀ runs, run_text (foldl run_step runs events) = run_text runs +:+ text_of events).
  { intros Hr. by rewrite Hr. }
  induction events as [|event events IH]; intros runs; cbn [foldl text_of foldr].
  - by rewrite string_app_nil_r.
  - by rewrite IH, run_step_text, string_app_assoc.
Qed.

Lemma text_runs_nonempty events : Forall (λ run, run ≠ "") (text_runs events).
Proof.
  unfold text_runs. cut (∀ runs, Forall (λ run, run ≠ "") runs.1 →
    Forall (λ run, run ≠ "") (foldl run_step runs events).1).
  - intros Hf. specialize (Hf ([], None) (Forall_nil_2 _)).
    unfold close_run. destruct (foldl _ _ events) as [l [run|]]; [|done]. cbn in *.
    case_bool_decide; [done|]. apply Forall_app. auto.
  - induction events as [|event events IH]; intros runs Hr; [done|]. apply IH.
    assert (Forall (λ run, run ≠ "") (close_run runs)) as Hc.
    { unfold close_run. destruct runs as [l [run|]]; [|done]. cbn in *.
      case_bool_decide; [done|]. apply Forall_app. auto. }
    unfold run_step. destruct event; try done; cbn [breaks]; try done. by case_bool_decide.
Qed.
End runs.

(** ** The rows of a turn *)

Section store.
Context `{StreamEnv} (self : StreamRelay).

(** The identifiers the turn gives to rows: its own and those it draws *)
Definition owned (id : string) : Prop := id = self.(rl_msg_id) ∨ ∃ n, id = se_id n.

(** Statements succeed, the others leave the rows of the turn and its conversation alone, the
    conversation is not being deleted, identifiers are drawn once. *)
Record calm : Prop := {
  ca_fails n : se_fails n = false;
  ca_rows n t id : owned id → (se_others n t).(tb_messages) !! id = t.(tb_messages) !! id;
  ca_known n t : known_conversation self.(rl_conversation_id) t = true →
    known_conversation self.(rl_conversation_id) (se_others n t) = true;
  ca_lifecycle n : lifecycle_for self.(rl_conversation_id) (se_runtime n) = Active ∨
    lifecycle_for self.(rl_conversation_id) (se_runtime n) = Cancelling;
  ca_inj n n' : se_id n = se_id n' → n = n';
  ca_primary n : se_id n ≠ self.(rl_msg_id);
  ca_conversation : self.(rl_adapter).(ad_conversation_id) = self.(rl_conversation_id);
  ca_msg_id : self.(rl_adapter).(ad_msg_id) = self.(rl_msg_id);
}.

Context (Hcalm : calm).

(** The rows of the turn are those of [m], and the moment is [k] at least. *)
Record at_rows (m : gmap string MessageRow) (k : nat) (w : World) : Prop := {
  ar_rows id : owned id → w.(wd_tables).(tb_messages) !! id = m !! id;
  ar_known : known_conversation self.(rl_conversation_id) w.(wd_tables) = true;
  ar_tick : k ≤ w.(wd_tick);
}.

Lemma at_moment {A} m k (f : nat → A) :
  triple (at_rows m k) (moment f) (λ a w, ∃ n, k ≤ n ∧ a = f n ∧ at_rows m (S n) w).
Proof. intros w [Hr Hk Ht]. exists w.(wd_tick). split; [done|]. split; [done|]. split; cbn; auto. Qed.

Lemma at_weaken m k k' w : k' ≤ k → at_rows m k w → at_rows m k' w.
Proof. intros Hle []. split; [done|done|lia]. Qed.

Lemma at_frame m k frame : triple (at_rows m k) (broadcast_frame frame) (λ _, at_rows m k).
Proof. by intros w []. Qed.

Lemma at_reply m k reply : triple (at_rows m k) (send_reply reply) (λ _, at_rows m k).
Proof. by intros w []. Qed.

Lemma at_now m k : triple (at_rows m k) now (λ _, at_rows m k).
Proof.
  eapply triple_consequence; [apply at_moment|done|]. intros a w (n & Hn & _ & Hw).
  eapply at_weaken; [|exact Hw]. lia.
Qed.

(** A statement that maps the rows of the turn [m] to [m'] *)
Lemma at_statement {A} m m' k write (f : Tables → result A DbError * Tables) r :
  (∀ t, (∀ id, owned id → t.(tb_messages) !! id = m !! id) →
     known_conversation self.(rl_conversation_id) t = true →
     (f t).1 = r ∧ (∀ id, owned id → (f t).2.(tb_messages) !! id = m' !! id) ∧
     known_conversation self.(rl_conversation_id) (f t).2 = true) →
  triple (at_rows m k) (_ ← log_write write; statement f) (λ r' w, r' = r ∧ at_rows m' k w).
Proof.
  intros Hf w [Hr Hk Ht]. unfold mbind, task_bind, log_write, statement. cbn.
  rewrite (ca_fails Hcalm).
  destruct (Hf (se_others w.(wd_tick) w.(wd_tables))) as (H1 & H2 & H3).
  - intros id Hid. rewrite (ca_rows Hcalm) by done. by apply Hr.
  - by apply (ca_known Hcalm).
  - destruct (f _) as [r' t']. cbn in *. split; [done|]. split; cbn; auto.
Qed.

Lemma at_insert m k row :
  row.(mg_conversation_id) = self.(rl_conversation_id) → owned row.(mg_id) →
  m !! row.(mg_id) = None →
  triple (at_rows m k) (insert_message row)
    (λ r w, r = Ok () ∧ at_rows (<[row.(mg_id) := row]> m) k w).
Proof.
  intros Hc Ho Hm. apply at_statement. intros t Hrows Hk. rewrite Hrows, Hm, Hc, Hk by done.
  rewrite bool_decide_eq_false_2 by apply is_Some_None. cbn.
  split; [done|]. split; [|done]. intros id Hid. rewrite !lookup_insert. by case_decide; auto.
Qed.

Lemma at_update m k id row updates :
  m !! id = Some row → owned id →
  ¬ (updates.(mu_content) = None ∧ updates.(mu_status) = None ∧ updates.(mu_hidden) = None) →
  triple (at_rows m k) (update_message id updates)
    (λ r w, r = Ok () ∧ at_rows (<[id := update_row updates row]> m) k w).
Proof.
  intros Hm Ho Hu. unfold update_message. rewrite bool_decide_eq_false_2 by done.
  apply at_statement. intros t Hrows Hk. rewrite Hrows, Hm by done. cbn.
  split; [done|]. split; [|done]. intros id' Hid. rewrite !lookup_insert. by case_decide; auto.
Qed.

(** A statement on a row that is not of the turn *)
Lemma at_foreign {A} m k write (f : Tables → result A DbError * Tables) :
  (∀ t, (∀ id, owned id → (f t).2.(tb_messages) !! id = t.(tb_messages) !! id) ∧
     (known_conversation self.(rl_conversation_id) t = true →
      known_conversation self.(rl_conversation_id) (f t).2 = true)) →
  triple (at_rows m k) (_ ← log_write write; statement f) (λ _ w, at_rows m k w).
Proof.
  intros Hf w [Hr Hk Ht]. unfold mbind, task_bind, log_write, statement. cbn.
  rewrite (ca_fails Hcalm).
  destruct (Hf (se_others w.(wd_tick) w.(wd_tables))) as (H1 & H2).
  destruct (f _) as [r' t']. cbn in *. split; cbn; auto.
  - intros id Hid. rewrite H1, (ca_rows Hcalm) by done. by apply Hr.
  - by apply H2, (ca_known Hcalm).
Qed.

Lemma at_insert_foreign m k row :
  ¬ owned row.(mg_id) → triple (at_rows m k) (insert_message row) (λ _, at_rows m k).
Proof.
  intros Ho. apply at_foreign. intros t. destruct (_ || _); [done|]. split; [|done]. cbn.
  intros id Hid. rewrite lookup_insert_ne; [done|]. by intros <-.
Qed.

Lemma at_upsert_foreign m k row :
  ¬ owned row.(mg_id) → triple (at_rows m k) (upsert_message row) (λ _, at_rows m k).
Proof.
  intros Ho. apply at_foreign. intros t.
  assert (∀ row', (∀ id, owned id →
    <[row.(mg_id) := row']> t.(tb_messages) !! id = t.(tb_messages) !! id)) as Hins.
  { intros row' id Hid. rewrite lookup_insert_ne; [done|]. by intros <-. }
  destruct (tb_messages t !! row.(mg_id)) as [old|];
    [destruct (merge_message old row)|destruct (known_conversation _ t)];
    cbn; auto.
Qed.

Lemma at_update_foreign m k id updates :
  ¬ owned id → triple (at_rows m k) (update_message id updates) (λ _, at_rows m k).
Proof.
  intros Ho. unfold update_message. case_bool_decide; [by apply triple_ret|].
  apply at_foreign. intros t. destruct (tb_messages t !! id); [|done]. split; [|done]. cbn.
  intros id' Hid. rewrite lookup_insert_ne; [done|]. by intros <-.
Qed.

Lemma at_update_missing m k id updates :
  m !! id = None → owned id → triple (at_rows m k) (update_message id updates) (λ _, at_rows m k).
Proof.
  intros Hm Ho. unfold update_message. case_bool_decide; [by apply triple_ret|].
  eapply triple_consequence.
  - apply (at_statement m m k _ _ (Err (NotFound ("Message '" +:+ id +:+ "' not found")))).
    intros t Hrows Hk. by rewrite Hrows, Hm by done.
  - done.
  - by intros r w [_ Hw].
Qed.

(** The rows are looked at. *)
Lemma at_read {A} m k (f : Tables → result A DbError * Tables) :
  (∀ t, (f t).2 = t) → triple (at_rows m k) (statement f) (λ _, at_rows m k).
Proof.
  intros Hf w [Hr Hk Ht]. unfold statement. rewrite (ca_fails Hcalm).
  specialize (Hf (se_others w.(wd_tick) w.(wd_tables))). destruct (f _) as [r t]. cbn in *. subst t.
  split; cbn; [|by apply (ca_known Hcalm)|lia].
  intros id Hid. rewrite (ca_rows Hcalm) by done. by apply Hr.
Qed.

Lemma at_finish m k id updated_at :
  triple (at_rows m k) (finish_conversation id updated_at) (λ _, at_rows m k).
Proof.
  apply at_foreign. intros t. destruct (tb_conversations t !! id); [|done]. cbn.
  split; [done|]. unfold known_conversation. cbn. rewrite !bool_decide_eq_true, lookup_insert.
  by case_decide.
Qed.

(** What a turn is allowed to write, calm as it is *)
Lemma at_allowed m k kind :
  kind ∈ [WriteAssistantTextFlush; WriteAssistantTextFinalize; WriteAssistantThinkingFinalize;
          WriteToolCallPersist; WriteAcpToolCallPersist; WriteToolGroupPersist;
          WriteTerminalFinalize; WriteConversationFinished] →
  triple (at_rows m k) (allows_write self.(rl_adapter) kind) (λ b w, b = true ∧ at_rows m k w).
Proof.
  intros Hk. unfold allows_write. destruct (ad_persistence _); [|by apply triple_ret].
  eapply triple_consequence; [apply at_moment|done|]. intros b w (n & Hn & -> & Hw).
  split; [|by eapply at_weaken; [|exact Hw]; lia].
  unfold allows, decide_write. rewrite (ca_conversation Hcalm).
  destruct (ca_lifecycle Hcalm n) as [Hl|Hl]; rewrite Hl; [done|].
  by repeat (apply elem_of_cons in Hk as [->|Hk]; [done|]); apply elem_of_nil in Hk.
Qed.

Lemma at_not_deleting m k :
  triple (at_rows m k) (relay_is_deleting self) (λ b w, b = false ∧ at_rows m k w).
Proof.
  unfold relay_is_deleting. destruct (rl_runtime_state self); [|by apply triple_ret].
  eapply triple_consequence; [apply at_moment|done|]. intros b w (n & Hn & -> & Hw).
  split; [|by eapply at_weaken; [|exact Hw]; lia].
  pose proof (ca_lifecycle Hcalm n) as Hl. unfold lifecycle_for, is_deleting, read_or in *.
  destruct (cv_poisoned _); [done|]. destruct (ct_shutting_down _); [naive_solver|].
  case_bool_decide; [naive_solver|done].
Qed.

Lemma at_forward m k msg_id event :
  triple (at_rows m k) (forward_to_websocket_with_msg_id msg_id event) (λ _, at_rows m k).
Proof.
  unfold forward_to_websocket_with_msg_id. destruct (se_event_serializes event);
    [apply at_frame|by apply triple_ret].
Qed.

(** ** The state of the loop and the rows *)

(** The identifiers the turn has used *)
Definition taken (used : bool) (k : nat) (id : string) : Prop :=
  (used = true ∧ id = self.(rl_msg_id)) ∨ ∃ n, n < k ∧ id = se_id n.

(** A row of text of the turn, as to its content, status and visibility *)
Record text_row (id : string) (row : MessageRow) : Prop := {
  tr_id : row.(mg_id) = id;
  tr_conversation : row.(mg_conversation_id) = self.(rl_conversation_id);
  tr_msg_id : row.(mg_msg_id) = Some id;
  tr_type : row.(mg_type) = "text";
  tr_position : row.(mg_position) = Some "left";
}.

(** One identifier was drawn before another: the message identifier of the turn is there from the
    start, the others come from the environment, which draws the [n]-th at its moment [n]. *)
Definition drawn_before (id id' : string) : Prop :=
  (id = self.(rl_msg_id) ∧ ∃ n, id' = se_id n) ∨
  ∃ n n', n < n' ∧ id = se_id n ∧ id' = se_id n'.

(** The segments of text of the turn, the open one last *)
Definition text_ids (s : RelayState) : list string :=
  s.(rs_text_segments) ++
  match s.(rs_active_text) with Some segment => [segment.(tx_id)] | None => [] end.

Definition open_text (cur : option string) (s : RelayState) (k : nat)
    (m : gmap string MessageRow) : Prop :=
  match cur, s.(rs_active_text) with
  | None, None => True
  | Some run, Some segment =>
      segment.(tx_buffer) = run ∧
      taken s.(rs_used_primary_segment_msg_id) k segment.(tx_id) ∧
      segment.(tx_id) ∉ s.(rs_text_segments) ∧ s.(rs_active_thinking) = None ∧
      if segment.(tx_record_created)
      then run ≠ "" ∧ ∃ row, m !! segment.(tx_id) = Some row ∧ text_row segment.(tx_id) row
      else m !! segment.(tx_id) = None
  | _, _ => False
  end.

Definition open_thinking (s : RelayState) (k : nat) (m : gmap string MessageRow) : Prop :=
  match s.(rs_active_thinking) with
  | None => True
  | Some segment =>
      taken s.(rs_used_primary_segment_msg_id) k segment.(tk_id) ∧ m !! segment.(tk_id) = None
  end.

(** The row of a run that is closed *)
Definition run_stored (m : gmap string MessageRow) (id run : string) : Prop :=
  ∃ row, m !! id = Some row ∧ text_row id row ∧ row.(mg_content) = text_content run ∧
         row.(mg_hidden) = false.

Record stored (closed : list string) (cur : option string) (s : RelayState) (k : nat)
    (m : gmap string MessageRow) : Prop := {
  st_runs : Forall2 (run_stored m) s.(rs_text_segments) closed;
  st_order : StronglySorted drawn_before (text_ids s) ∧
    (s.(rs_used_primary_segment_msg_id) = false → text_ids s = []);
  st_taken : Forall (taken s.(rs_used_primary_segment_msg_id) k) s.(rs_text_segments);
  st_text : open_text cur s k m;
  st_thinking : open_thinking s k m;
  st_free id : owned id → ¬ taken s.(rs_used_primary_segment_msg_id) k id → m !! id = None;
  st_only id row : owned id → m !! id = Some row → row.(mg_type) = "text" →
    id ∈ s.(rs_text_segments) ∨ ∃ segment, s.(rs_active_text) = Some segment ∧ id = segment.(tx_id);
}.

Lemma taken_owned used k id : taken used k id → owned id.
Proof. unfold taken, owned. naive_solver. Qed.

Lemma taken_weaken used used' k k' id :
  (used = true → used' = true) → k ≤ k' → taken used k id → taken used' k' id.
Proof. intros Hu Hk [[??]|(n & ? & ?)]; [left; auto|right; exists n; split; [lia|done]]. Qed.

Lemma drawn_not_taken used k n : k ≤ n → ¬ taken used k (se_id n).
Proof.
  intros Hk [[_ Hp]|(n' & Hn' & Heq)]; [by apply (ca_primary Hcalm) in Hp|].
  apply (ca_inj Hcalm) in Heq. lia.
Qed.

Lemma drawn_before_irrefl id : ¬ drawn_before id id.
Proof.
  intros [[-> (n & Hn)]|(n & n' & Hlt & -> & Heq)].
  - by apply eq_sym, (ca_primary Hcalm) in Hn.
  - apply (ca_inj Hcalm) in Heq. lia.
Qed.

Lemma drawn_nodup ids : StronglySorted drawn_before ids → NoDup ids.
Proof.
  induction 1 as [|id ids Hs IH Hall]; constructor; [|done].
  intros Hin. apply (proj1 (Forall_forall _ _) Hall) in Hin. by apply drawn_before_irrefl in Hin.
Qed.

Lemma taken_before k n id : k ≤ n → taken true k id → drawn_before id (se_id n).
Proof.
  intros Hk [[_ ->]|(n' & Hn' & ->)]; [left; eauto|right; exists n', n; split; [lia|done]].
Qed.

Lemma stored_text_ids closed cur s k m :
  stored closed cur s k m →
  Forall (taken s.(rs_used_primary_segment_msg_id) k) (text_ids s).
Proof.
  intros Hst. apply Forall_app. split; [apply Hst|].
  pose proof (st_text _ _ _ _ _ Hst) as Ho. unfold open_text in Ho.
  destruct (rs_active_text s), cur; try done. apply Forall_singleton, Ho.
Qed.

(** What the world holds: rows as [stored] says *)
Definition holds (closed : list string) (cur : option string) (s : RelayState) (w : World) : Prop :=
  ∃ m k, stored closed cur s k m ∧ at_rows m k w.

Lemma holds_triple {A} closed cur s (m : task A) (Q : A → World → Prop) :
  (∀ rows k, stored closed cur s k rows → triple (at_rows rows k) m Q) →
  triple (holds closed cur s) m Q.
Proof. intros Hm w (rows & k & Hst & Hw). by eapply Hm. Qed.

(** Only the identifiers, the segments and the open ones count. *)
Lemma stored_same closed cur s s' k m :
  s'.(rs_text_segments) = s.(rs_text_segments) → s'.(rs_active_text) = s.(rs_active_text) →
  s'.(rs_active_thinking) = s.(rs_active_thinking) →
  s'.(rs_used_primary_segment_msg_id) = s.(rs_used_primary_segment_msg_id) →
  stored closed cur s k m → stored closed cur s' k m.
Proof.
  intros H1 H2 H3 H4 [].
  split; unfold open_text, open_thinking, text_ids in *; rewrite ?H1, ?H2, ?H3, ?H4; auto.
Qed.

(** More of the identifiers are used, and a row is added under one of them that is no text. *)
Lemma stored_more closed cur s k m used k' m' :
  (s.(rs_used_primary_segment_msg_id) = true → used = true) → k ≤ k' →
  (∀ id, taken s.(rs_used_primary_segment_msg_id) k id → m' !! id = m !! id) →
  (∀ id, owned id → ¬ taken used k' id → m' !! id = None) →
  (∀ id row, owned id → ¬ taken s.(rs_used_primary_segment_msg_id) k id → m' !! id = Some row →
     row.(mg_type) ≠ "text") →
  stored closed cur s k m → stored closed cur (set_rs_primary used s) k' m'.
Proof.
  intros Hu Hk Hm Hf Ho [H1 H2 H3 H4 H5 H6 H7]. split; cbn; [| | | | |done|].
  - apply Forall2_same_length_lookup_2; [by eapply Forall2_length|]. intros i id run Hi Hr.
    destruct (Forall2_lookup_lr _ _ _ _ _ _ H1 Hi Hr) as (row & Hrow & ?).
    exists row. rewrite Hm; [done|]. eapply Forall_lookup_1 in H3; done.
  - split; [apply H2|]. intros ->. apply H2.
    destruct (rs_used_primary_segment_msg_id s); [by discriminate Hu|done].
  - eapply Forall_impl; [exact H3|]. intros id. by apply taken_weaken.
  - unfold open_text in *. cbn. destruct cur as [run|], (rs_active_text s) as [segment|]; try done.
    destruct H4 as (Hb & Ht & Hn & Hth & Hr). repeat (split; [done|]).
    split; [by eapply taken_weaken|]. repeat (split; [done|]). by rewrite Hm.
  - unfold open_thinking in *. cbn. destruct (rs_active_thinking s); [|done].
    destruct H5 as [Ht Hr]. split; [by eapply taken_weaken|]. by rewrite Hm.
  - intros id row Hid Hrow Hty.
    destruct (decide (m !! id = Some row)) as [Heq|Hne]; [by eapply H7|].
    destruct (Ho id row); [done| |done|done]. intros Ht. apply Hne. by rewrite <- (Hm _ Ht).
Qed.

Lemma stored_later closed cur s k k' m : k ≤ k' → stored closed cur s k m → stored closed cur s k' m.
Proof.
  intros Hk Hst.
  assert (stored closed cur (set_rs_primary s.(rs_used_primary_segment_msg_id) s) k' m) as Hst'.
  { apply (stored_more closed cur s k m); auto.
    - intros id Hid Ht. apply (st_free _ _ _ _ _ Hst id Hid). intros Ht'. apply Ht.
      by eapply taken_weaken.
    - intros id row Hid Ht. by rewrite (st_free _ _ _ _ _ Hst id Hid Ht). }
  by eapply stored_same; [..|exact Hst'].
Qed.

(** A row under an identifier that was just drawn, that is no text *)
Lemma stored_drawn closed cur s k m n row :
  k ≤ n → row.(mg_type) ≠ "text" → stored closed cur s k m →
  stored closed cur s (S n) (<[se_id n := row]> m).
Proof.
  intros Hn Hty Hst. pose proof (drawn_not_taken s.(rs_used_primary_segment_msg_id) k n Hn) as Hnt.
  assert (stored closed cur (set_rs_primary s.(rs_used_primary_segment_msg_id) s) (S n)
            (<[se_id n := row]> m)) as Hst'.
  { apply (stored_more closed cur s k m); [done|lia|..|done].
    - intros id Ht. rewrite lookup_insert_ne; [done|]. by intros <-.
    - intros id Hid Ht. rewrite lookup_insert_ne.
      + apply (st_free _ _ _ _ _ Hst id Hid). intros Ht'. apply Ht.
        eapply (taken_weaken _ _ k (S n)); [|lia|exact Ht']; done.
      + intros <-. apply Ht. right. exists n. split; [lia|done].
    - intros id row' Hid Ht. rewrite lookup_insert. case_decide; [by intros [= <-]|].
      by rewrite (st_free _ _ _ _ _ Hst id Hid Ht). }
  by eapply stored_same; [..|exact Hst'].
Qed.

(** ** The steps of the loop *)

(** A task that leaves the rows as they are *)
Lemma holds_keeps {A} closed cur s (m : task A) :
  (∀ rows k, triple (at_rows rows k) m (λ _, at_rows rows k)) →
  triple (holds closed cur s) m (λ _, holds closed cur s).
Proof.
  intros Hm. apply holds_triple. intros rows k Hst.
  eapply triple_consequence; [apply Hm|done|]. intros a w Hw. by exists rows, k.
Qed.

(** An identifier for a new segment, and the variables with it *)
Definition minted closed cur s (p : string * RelayState) (w : World) : Prop :=
  ∃ m k, stored closed cur p.2 k m ∧ at_rows m k w ∧
    taken true k p.1 ∧ StronglySorted drawn_before (text_ids s ++ [p.1]) ∧
    p.1 ∉ s.(rs_text_segments) ∧ m !! p.1 = None ∧ p.2 = set_rs_primary true s.

Lemma minted_now closed cur s p :
  triple (minted closed cur s p) now (λ _, minted closed cur s p).
Proof.
  intros w (m & k & Hst & Hw & HR). exists m, k. split; [done|]. split; [by apply at_now|done].
Qed.

Lemma holds_mint closed cur s :
  triple (holds closed cur s) (mint_segment_msg_id self s) (minted closed cur s).
Proof.
  apply holds_triple. intros m k Hst. unfold mint_segment_msg_id.
  destruct (rs_used_primary_segment_msg_id s) eqn:Hu.
  - eapply triple_bind; [apply at_moment|]. intros id. apply triple_ret.
    intros w (n & Hn & -> & Hw). exists m, (S n). cbn.
    pose proof (drawn_not_taken true k n Hn) as Hnt.
    split; [eapply (stored_later _ _ _ k); [lia|exact Hst]|]. split; [done|].
    split; [right; exists n; split; [lia|done]|].
    split.
    { apply StronglySorted_app. split; [|split; [apply Hst|repeat constructor]].
      intros id id' Hid ->%list_elem_of_singleton. apply (taken_before k); [done|].
      rewrite <- Hu. by apply (proj1 (Forall_forall _ _) (stored_text_ids _ _ _ _ _ Hst)). }
    split; [|split; [apply (st_free _ _ _ _ _ Hst); [right; eauto|by rewrite Hu]|]].
    + intros Hin. apply Hnt. rewrite <- Hu.
      by apply (proj1 (Forall_forall _ _) (st_taken _ _ _ _ _ Hst)).
    + destruct s. cbn in *. by subst.
  - apply triple_ret. intros w Hw. exists m, k. cbn.
    assert (¬ taken false k self.(rl_msg_id)) as Hnt.
    { intros [[? _]|(n & _ & Heq)]; [done|]. by apply eq_sym, (ca_primary Hcalm) in Heq. }
    split; [|split; [done|split; [by left|split; [|split; [|split; [|done]]]]]].
    + apply (stored_more closed cur s k m); auto.
      * intros id Hid Ht. apply (st_free _ _ _ _ _ Hst id Hid). intros Ht'. apply Ht.
        eapply taken_weaken; [|reflexivity|exact Ht']. done.
      * intros id row Hid Ht. by rewrite (st_free _ _ _ _ _ Hst id Hid Ht).
    + rewrite (proj2 (st_order _ _ _ _ _ Hst) Hu). repeat constructor.
    + intros Hin. apply Hnt. rewrite <- Hu.
      by apply (proj1 (Forall_forall _ _) (st_taken _ _ _ _ _ Hst)).
    + apply (st_free _ _ _ _ _ Hst); [by left|by rewrite Hu].
Qed.

(** A guarded method of the adapter *)
Lemma at_guarded {A} m k kind (skip body : task A) Q :
  kind ∈ [WriteAssistantTextFlush; WriteAssistantTextFinalize; WriteAssistantThinkingFinalize;
          WriteToolCallPersist; WriteAcpToolCallPersist; WriteToolGroupPersist;
          WriteTerminalFinalize; WriteConversationFinished] →
  triple (at_rows m k) body Q →
  triple (at_rows m k)
    (allowed ← allows_write self.(rl_adapter) kind; if negb allowed then skip else body) Q.
Proof.
  intros Hk Hbody. eapply triple_bind; [by apply at_allowed|]. intros b. cbn.
  apply triple_pure. by intros ->.
Qed.

Lemma holds_complete_thinking closed cur s :
  triple (holds closed cur s) (complete_active_thinking self s)
    (λ s' w, holds closed cur s' w ∧ s' = set_rs_thinking None s).
Proof.
  unfold complete_active_thinking. destruct (rs_active_thinking s) as [segment|] eqn:Hth.
  2:{ apply triple_ret. intros w Hw. split; [done|]. destruct s. cbn in *. by subst. }
  apply holds_triple. intros m k Hst. eapply triple_bind; [by apply at_now|]. intros now_ms.
  eapply triple_bind; [by apply at_forward|]. intros ?. eapply (triple_bind _ _
    (λ _, holds closed cur (set_rs_thinking None s))); [|intros ?; by apply triple_ret].
  pose proof (st_thinking _ _ _ _ _ Hst) as Ho. unfold open_thinking in Ho. rewrite Hth in Ho.
  destruct Ho as [Ht Hnone].
  assert (∀ m', (∀ id, id ≠ segment.(tk_id) → m' !! id = m !! id) →
    (∀ row, m' !! segment.(tk_id) = Some row → row.(mg_type) ≠ "text") →
    stored closed cur (set_rs_thinking None s) k m') as Hdone.
  { intros m' Hsame Hty. destruct Hst as [H1 H2 H3 H4 H5 H6 H7].
    unfold open_text in H4. rewrite Hth in H4.
    assert (cur = None ∧ s.(rs_active_text) = None) as [-> Hnt].
    { destruct cur, (rs_active_text s); naive_solver. }
    split; cbn; [|done|done| |done| |].
    - apply Forall2_same_length_lookup_2; [by eapply Forall2_length|]. intros i id run Hi Hr.
      destruct (Forall2_lookup_lr _ _ _ _ _ _ H1 Hi Hr) as (row & Hrow & ?).
      exists row. rewrite Hsame; [done|]. intros ->. congruence.
    - unfold open_text. cbn. by rewrite Hnt.
    - intros id Hid Hnt'. rewrite Hsame; [by apply H6|]. by intros ->.
    - intros id row Hid Hrow Hrt. destruct (decide (id = segment.(tk_id))) as [->|Hne].
      + by destruct (Hty _ Hrow).
      + rewrite Hsame in Hrow by done. by eapply H7. }
  unfold persist_thinking_segment. case_bool_decide.
  { apply triple_ret. intros w Hw. exists m, k. split; [|done]. apply Hdone; [done|].
    by rewrite Hnone. }
  apply at_guarded; [set_solver|]. eapply triple_bind.
  { apply at_insert; [apply (ca_conversation Hcalm)|by eapply taken_owned|done]. }
  intros r. apply triple_ret. intros w [_ Hw]. eexists _, _. split; [|exact Hw]. apply Hdone; cbn.
  - intros id Hid. by rewrite lookup_insert_ne.
  - intros row. rewrite lookup_insert_eq. by intros [= <-].
Qed.

(** The open segment, on its own *)
Definition opened (closed : list string) (run : string) (s : RelayState)
    (segment : TextSegmentState) : World → Prop :=
  holds closed (Some run) (set_rs_text (Some segment) s).

(** The row of the open segment is written; nothing else changes. *)
Lemma stored_row closed run s segment segment' k m m' :
  segment'.(tx_id) = segment.(tx_id) → segment'.(tx_buffer) = run →
  segment'.(tx_record_created) = true → run ≠ "" →
  (∀ id, id ≠ segment.(tx_id) → m' !! id = m !! id) →
  (∃ row, m' !! segment.(tx_id) = Some row ∧ text_row segment.(tx_id) row) →
  stored closed (Some run) (set_rs_text (Some segment) s) k m →
  stored closed (Some run) (set_rs_text (Some segment') s) k m'.
Proof.
  intros Hid Hb Hc Hne Hsame Hrow [H1 H2 H3 H4 H5 H6 H7]. unfold open_text in H4. cbn in *.
  destruct H4 as (_ & Ht & Hni & Hth & _).
  split; cbn; [| |done| | | |].
  - apply Forall2_same_length_lookup_2; [by eapply Forall2_length|]. intros i id r Hi Hr.
    destruct (Forall2_lookup_lr _ _ _ _ _ _ H1 Hi Hr) as (row & Hrow' & ?).
    exists row. rewrite Hsame; [done|]. intros ->. apply Hni. by eapply list_elem_of_lookup_2.
  - unfold text_ids in *. cbn in *. by rewrite Hid.
  - unfold open_text. cbn. rewrite Hid, Hc. auto 10.
  - unfold open_thinking. cbn. by rewrite Hth.
  - intros id Ho Hnt. rewrite Hsame; [by apply H6|]. by intros ->.
  - intros id row Ho Hr Hty. destruct (decide (id = segment.(tx_id))) as [->|Hn].
    + right. exists segment'. by rewrite Hid.
    + rewrite Hsame in Hr by done. destruct (H7 id row Ho Hr Hty) as [?|(? & [= <-] & ->)]; [by left|done].
Qed.

Lemma text_row_segment segment content status created_at :
  text_row segment.(tx_id)
    (segment_row self.(rl_adapter) segment.(tx_id) "text" content status created_at).
Proof. split; try done. apply (ca_conversation Hcalm). Qed.

Lemma text_row_update id updates row : text_row id row → text_row id (update_row updates row).
Proof. by intros []. Qed.

(** Writing the text of the open segment: the row of a flush or of the end of the segment *)
Lemma at_write_segment closed run s segment k m status hidden :
  run ≠ "" → stored closed (Some run) (set_rs_text (Some segment) s) k m →
  triple (at_rows m k)
    (if segment.(tx_record_created)
     then update_message segment.(tx_id)
            (mkMessageRowUpdate (Some (text_content segment.(tx_buffer))) (Some (Some status)) hidden)
     else insert_message (segment_row self.(rl_adapter) segment.(tx_id) "text"
            (text_content segment.(tx_buffer)) status segment.(tx_created_at)))
    (λ r w, r = Ok () ∧ ∃ m', at_rows m' k w ∧ (∀ id, id ≠ segment.(tx_id) → m' !! id = m !! id) ∧
       ∃ row, m' !! segment.(tx_id) = Some row ∧ text_row segment.(tx_id) row ∧
              row.(mg_content) = text_content run ∧ (hidden = Some false → row.(mg_hidden) = false)).
Proof.
  intros Hne Hst. pose proof (st_text _ _ _ _ _ Hst) as (Hb & Ht & Hni & Hth & Hr). cbn in *.
  rewrite Hb. destruct (tx_record_created segment).
  - destruct Hr as (_ & row & Hrow & Htr).
    eapply triple_consequence; [eapply at_update; [exact Hrow|by eapply taken_owned|naive_solver]|done|].
    cbn. intros r w [-> Hw]. split; [done|]. eexists. split; [exact Hw|].
    split; [intros id Hid; by rewrite lookup_insert_ne|].
    eexists. rewrite lookup_insert_eq. split; [done|]. split; [by apply text_row_update|].
    split; [done|]. by intros ->.
  - eapply triple_consequence;
      [apply at_insert; [apply (ca_conversation Hcalm)|by eapply taken_owned|done]|done|].
    cbn. intros r w [-> Hw]. split; [done|]. eexists. split; [exact Hw|].
    split; [intros id Hid; by rewrite lookup_insert_ne|].
    eexists. rewrite lookup_insert_eq. split; [done|]. split; [apply text_row_segment|done].
Qed.

Lemma opened_flush closed run s segment :
  triple (opened closed run s segment) (flush_text_segment self.(rl_adapter) segment)
    (λ segment', opened closed run s segment').
Proof.
  apply holds_triple. intros m k Hst. apply at_guarded; [set_solver|].
  pose proof (st_text _ _ _ _ _ Hst) as (Hb & _). cbn in Hb.
  case_bool_decide as Hempty; [apply triple_ret; intros w Hw; by exists m, k|].
  rewrite Hb in Hempty.
  pose proof (at_write_segment closed run s segment k m "work" None Hempty Hst) as Hwrite.
  assert (∀ segment' m', segment'.(tx_id) = segment.(tx_id) → segment'.(tx_buffer) = run →
    segment'.(tx_record_created) = true →
    (∀ id, id ≠ segment.(tx_id) → m' !! id = m !! id) →
    (∃ row, m' !! segment.(tx_id) = Some row ∧ text_row segment.(tx_id) row) →
    stored closed (Some run) (set_rs_text (Some segment') s) k m') as Hrow.
  { intros. by eapply stored_row. }
  cbv zeta. destruct (tx_record_created segment) eqn:Hc;
    (eapply triple_bind; [exact Hwrite|]; intros ?; apply triple_ret;
     intros w [_ (m' & Hw & Hsame & row & Hr & Htr & _)]; exists m', k; split; [|done];
     apply Hrow; eauto).
Qed.

Lemma holds_close_text closed cur s status :
  triple (holds closed cur s) (close_active_text_segment self status s)
    (λ s' w, holds (close_run (closed, cur)) None s' w ∧ s'.(rs_active_text) = None ∧
             s'.(rs_active_thinking) = s.(rs_active_thinking)).
Proof.
  apply holds_triple. intros m k Hst. unfold close_active_text_segment.
  pose proof (st_text _ _ _ _ _ Hst) as Ho. unfold open_text in Ho.
  destruct (rs_active_text s) as [segment|] eqn:Htext.
  2:{ destruct cur; [done|]. apply triple_ret. intros w Hw. split; [|done]. by exists m, k. }
  destruct cur as [run|]; [|done]. destruct Ho as (Hb & Ht & Hni & Hth & Hr).
  assert (set_rs_text (Some segment) s = s) as Hs by (destruct s; cbn in *; by subst).
  unfold close_run. cbn [snd fst].
  eapply (triple_bind _ _ (λ o w, o = (if bool_decide (run = "") then None else Some segment.(tx_id)) ∧
    holds (if bool_decide (run = "") then closed else closed ++ [run]) None
      (match o with
       | Some id => set_rs_segments (s.(rs_text_segments) ++ [id]) (set_rs_text None s)
       | None => set_rs_text None s
       end) w)).
  2:{ intros o. apply triple_ret. intros w [-> Hw]. by destruct (bool_decide (run = "")). }
  apply at_guarded; [set_solver|]. rewrite Hb. case_bool_decide as Hempty.
  - apply triple_ret. intros w Hw. split; [done|]. exists m, k. split; [|done].
    destruct Hst as [H1 H2 H3 H4 H5 H6 H7]. unfold text_ids in H2. rewrite Htext in H2.
    split; cbn; try done.
    { unfold text_ids. cbn. rewrite app_nil_r. split; [by eapply StronglySorted_app_1_l, H2|].
      intros Hu. destruct H2 as [_ H2]. by apply app_nil in H2 as [??]. }
    intros id row Hid Hrow Hty. destruct (H7 id row Hid Hrow Hty) as [?|(segment' & Heq & ->)];
      [by left|]. rewrite Htext in Heq. injection Heq as <-.
    destruct (tx_record_created segment); [by destruct Hr|congruence].
  - assert (stored closed (Some run) (set_rs_text (Some segment) s) k m) as Hst' by (by rewrite Hs).
    pose proof (at_write_segment closed run s segment k m status (Some false) Hempty Hst') as Hwrite.
    rewrite Hb in Hwrite. cbv zeta.
    eapply triple_bind; [exact Hwrite|]. intros r. apply triple_pure. intros ->.
    apply triple_ret. intros w (m' & Hw & Hsame & row & Hrow & Htr & Hco & Hh).
    split; [done|]. exists m', k. split; [|done]. destruct Hst as [H1 H2 H3 H4 H5 H6 H7].
    split; cbn.
    + apply Forall2_app; [|by repeat constructor; exists row; auto].
      apply Forall2_same_length_lookup_2; [by eapply Forall2_length|]. intros i id r' Hi Hr'.
      destruct (Forall2_lookup_lr _ _ _ _ _ _ H1 Hi Hr') as (row' & Hrow' & ?).
      exists row'. rewrite Hsame; [done|]. intros ->. apply Hni. by eapply list_elem_of_lookup_2.
    + unfold text_ids in *. cbn. rewrite Htext in H2. by rewrite app_nil_r.
    + apply Forall_app. split; [done|]. by apply Forall_singleton.
    + done.
    + unfold open_thinking. cbn. by rewrite Hth.
    + intros id Hid Hnt. rewrite Hsame; [by apply H6|]. by intros ->.
    + intros id row' Hid Hrow' Hty. left. apply elem_of_app.
      destruct (decide (id = segment.(tx_id))) as [->|Hn]; [right; by apply list_elem_of_singleton|].
      left. rewrite Hsame in Hrow' by done. destruct (H7 id row' Hid Hrow' Hty) as [?|(sg & Heq & ->)];
        [done|]. rewrite Htext in Heq. by injection Heq as <-.
Qed.

Lemma holds_same closed cur s s' w :
  s'.(rs_text_segments) = s.(rs_text_segments) → s'.(rs_active_text) = s.(rs_active_text) →
  s'.(rs_active_thinking) = s.(rs_active_thinking) →
  s'.(rs_used_primary_segment_msg_id) = s.(rs_used_primary_segment_msg_id) →
  holds closed cur s w → holds closed cur s' w.
Proof. intros H1 H2 H3 H4 (m & k & Hst & Hw). exists m, k. split; [|done]. by eapply stored_same. Qed.

Lemma holds_note_visible closed cur content s w :
  holds closed cur s w → holds closed cur (note_visible content s) w.
Proof. unfold note_visible. case_bool_decide; [done|]. by apply holds_same. Qed.

(** An event of a turn that does not use the identifiers of the turn for its tool calls *)
Definition foreign (event : AgentStreamEvent) : Prop :=
  match event with
  | EvToolCall data => ¬ owned data.(tcd_call_id)
  | EvAcpToolCall data => ¬ owned data.(acd_tool_call_id)
  | EvToolGroup (entry :: _) => ¬ owned entry.(tg_call_id)
  | _ => True
  end.

(** The segment that a text goes to *)
Lemma opened_or_minted closed cur s :
  s.(rs_active_thinking) = None →
  triple (holds closed cur s)
    (match s.(rs_active_text) with
     | Some segment => mret (segment, s)
     | None =>
         '(id, s) ← mint_segment_msg_id self s;
         created_at ← now;
         mret (mkTextSegment id "" created_at false 0, s)
     end)
    (λ p w, opened closed (default "" cur) p.2 p.1 w).
Proof.
  intros Hth. destruct (rs_active_text s) as [segment|] eqn:Htext.
  - apply triple_ret. intros w Hw. unfold opened. cbn.
    assert (∃ run, cur = Some run) as [run ->].
    { destruct Hw as (m & k & Hst & _). pose proof (st_text _ _ _ _ _ Hst) as Ho.
      unfold open_text in Ho. rewrite Htext in Ho. destruct cur; [by eauto|done]. }
    by replace (set_rs_text (Some segment) s) with s by (destruct s; cbn in *; by subst).
  - eapply triple_bind; [apply holds_mint|]. intros [id s1].
    eapply triple_bind; [apply minted_now|]. intros created_at. apply triple_ret.
    intros w (m & k & Hst & Hw & Ht & Hso & Hni & Hnone & Hs1). exists m, k. split; [|done].
    cbn in Hs1. subst s1. destruct Hst as [H1 H2 H3 H4 H5 H6 H7]. cbn in *.
    unfold open_text in H4. cbn in H4. rewrite Htext in H4. destruct cur; [done|].
    unfold text_ids in *. rewrite Htext, app_nil_r in Hso.
    split; cbn; try done.
    intros id' row Hid Hrow Hty. destruct (H7 id' row Hid Hrow Hty) as [?|(sg & Heq & ->)]; [by left|].
    congruence.
Qed.

Lemma opened_append closed run s segment content n w :
  opened closed run s segment w →
  opened closed (run +:+ content) s
    (mkTextSegment segment.(tx_id) (segment.(tx_buffer) +:+ content) segment.(tx_created_at)
       segment.(tx_record_created) n) w.
Proof.
  intros (m & k & [H1 H2 H3 H4 H5 H6 H7] & Hw). exists m, k. split; [|done].
  unfold open_text in H4. cbn in *. destruct H4 as (Hb & Ht & Hni & Hth & Hr).
  split; cbn; try done.
  - unfold open_text. cbn. rewrite Hb. do 4 (split; [done|]).
    destruct (tx_record_created segment); [|done]. destruct Hr as [Hne Hrow]. split; [|done].
    destruct run; [done|]. by rewrite string_app_cons.
  - intros id row Hid Hrow Hty. destruct (H7 id row Hid Hrow Hty) as [?|(sg & [= <-] & ->)];
      [by left|]. right. eexists. split; [done|]. done.
Qed.

Lemma holds_text closed cur content s :
  triple (holds closed cur s) (on_text self content s)
    (λ s', holds closed (Some (default "" cur +:+ content)) s').
Proof.
  unfold on_text. eapply triple_bind; [apply holds_complete_thinking|]. intros s1.
  eapply (triple_consequence _ (λ w, s1 = set_rs_thinking None s ∧ holds closed cur s1 w));
    [|naive_solver|done].
  apply triple_pure. intros Hs1.
  assert (∀ s' : RelayState, s' = note_visible content s1 → s'.(rs_active_thinking) = None) as Hth.
  { intros s' ->. rewrite Hs1. unfold note_visible. by case_bool_decide. }
  cbv zeta. specialize (Hth _ eq_refl).
  eapply (triple_consequence _ (holds closed cur (note_visible content s1)));
    [|intros w; apply holds_note_visible|done].
  eapply triple_bind; [by apply opened_or_minted|]. intros [segment s2]. cbn [fst snd].
  eapply (triple_bind _ _ (λ _, opened closed (default "" cur) s2 segment)).
  { apply holds_keeps. intros. apply at_forward. }
  intros _. eapply (triple_bind _ _ (λ segment',
    opened closed (default "" cur +:+ content) s2 segment')).
  - eapply triple_consequence; [|intros w Hw; exact (opened_append _ _ _ _ content
      (tx_flush_counter segment + 1) w Hw)|intros ? ? HQ; exact HQ].
    destruct (FLUSH_INTERVAL <=? _); [|by apply triple_ret].
    eapply triple_bind; [apply opened_flush|]. intros segment'. apply triple_ret.
    intros w Hw. apply (opened_append _ _ _ _ "" 0) in Hw.
    by rewrite !string_app_nil_r in Hw.
  - intros segment'. apply triple_ret. intros w. by apply holds_same.
Qed.

Lemma holds_thinking closed cur data s :
  triple (holds closed cur s) (on_thinking self data s)
    (λ s', let runs := run_step (closed, cur) (EvThinking data) in holds runs.1 runs.2 s').
Proof.
  unfold on_thinking, run_step, breaks. case_bool_decide as Hd.
  { rewrite bool_decide_eq_false_2 by tauto. cbn.
    eapply triple_consequence; [apply holds_complete_thinking|done|naive_solver]. }
  rewrite bool_decide_eq_true_2 by done. cbn [fst snd].
  eapply triple_bind; [apply holds_close_text|]. intros s1.
  eapply (triple_consequence _ (λ w, s1.(rs_active_text) = None ∧
    holds (close_run (closed, cur)) None s1 w)); [|naive_solver|done].
  apply triple_pure. intros Htext. cbv zeta.
  set (s2 := note_visible (th_content data) s1).
  assert (s2.(rs_active_text) = None) as Htext2.
  { unfold s2, note_visible. by case_bool_decide. }
  eapply (triple_consequence _ (holds (close_run (closed, cur)) None s2));
    [|intros w; apply holds_note_visible|done].
  set (runs := close_run (closed, cur)).
  eapply (triple_bind _ _ (λ p w, holds runs None (set_rs_thinking (Some p.1) p.2) w ∧
    ∀ buffer, holds runs None (set_rs_thinking
      (Some (mkThinkingSegment p.1.(tk_id) buffer p.1.(tk_started_at))) p.2) w)).
  - destruct (rs_active_thinking s2) as [segment|] eqn:Hth.
    + apply triple_ret. intros w (m & k & [H1 H2 H3 H4 H5 H6 H7] & Hw). cbn.
      unfold open_text in H4. rewrite Htext2 in H4.
      unfold open_thinking in H5. rewrite Hth in H5.
      split; [|intros buffer]; exists m, k; (split; [|done]); split; cbn; try done;
        unfold open_text; cbn; by rewrite Htext2.
    + eapply triple_bind; [apply holds_mint|]. intros [id s3].
      eapply triple_bind; [apply minted_now|]. intros started_at. apply triple_ret.
      intros w (m & k & [H1 H2 H3 H4 H5 H6 H7] & Hw & Ht & Hso & Hni & Hnone & Hs3). cbn in *.
      subst s3. cbn in *. unfold open_text in H4. cbn in H4. rewrite Htext2 in H4.
      split; [|intros buffer]; exists m, k; (split; [|done]); split; cbn; try done;
        unfold open_text; cbn; by rewrite Htext2.
  - intros [segment s3]. cbn [fst snd].
    eapply (triple_bind _ _ (λ _ w, ∀ buffer, holds runs None (set_rs_thinking
      (Some (mkThinkingSegment segment.(tk_id) buffer segment.(tk_started_at))) s3) w)).
    + intros w [_ Hw] buffer. apply (holds_keeps runs None _ _ (λ _ _, at_forward _ _ _ _)). apply Hw.
    + intros _. apply triple_ret. intros w Hw. apply Hw.
Qed.

(** The tips and the groups that are stored under an identifier of their own *)
Lemma holds_tip closed cur s content status created_at n m k w :
  k ≤ n → stored closed cur s k m → at_rows m (S n) w →
  holds closed cur s
    (insert_message (tip_row self.(rl_adapter) (se_id n) content status created_at) w).2.
Proof.
  intros Hn Hst Hw.
  pose proof (at_insert m (S n)
    (tip_row self.(rl_adapter) (se_id n) content status created_at)) as Hins.
  destruct (Hins (ca_conversation Hcalm)) with (w := w) as [_ Hw']; [right; by exists n| |done|].
  { apply (st_free _ _ _ _ _ Hst); [right; by exists n|]. by apply drawn_not_taken. }
  eexists _, _. split; [|exact Hw']. cbn [tip_row mg_id]. by apply (stored_drawn _ _ _ k).
Qed.

Lemma holds_store_tip closed cur s content status m k :
  stored closed cur s k m →
  triple (at_rows m k)
    (id ← mint_msg_id;
     created_at ← now;
     _ ← insert_message (tip_row self.(rl_adapter) id content status created_at);
     mret ()) (λ _, holds closed cur s).
Proof.
  intros Hst. eapply triple_bind; [apply at_moment|]. intros id.
  eapply (triple_bind _ _ (λ _ w, ∃ n, k ≤ n ∧ id = se_id n ∧ at_rows m (S n) w)).
  { intros w (n & Hn & -> & Hw). exists n. split; [done|]. split; [done|]. by apply at_now. }
  intros created_at. eapply (triple_bind _ _ (λ _, holds closed cur s)); [|intros ?; by apply triple_ret].
  intros w (n & Hn & -> & Hw). by eapply holds_tip.
Qed.

Lemma holds_persist_tip closed cur s data :
  triple (holds closed cur s) (persist_tip self.(rl_adapter) data) (λ _, holds closed cur s).
Proof.
  apply holds_triple. intros m k Hst. apply at_guarded; [set_solver|]. by apply holds_store_tip.
Qed.

Lemma holds_tool_call closed cur s data :
  ¬ owned data.(tcd_call_id) →
  triple (holds closed cur s) (persist_tool_call self.(rl_adapter) data) (λ _, holds closed cur s).
Proof.
  intros Ho. apply holds_keeps. intros m k. apply at_guarded; [set_solver|].
  destruct (is_blank _); [by apply triple_ret|]. eapply triple_bind; [apply at_now|]. intros created_at.
  eapply (triple_bind _ _ (λ _, at_rows m k)); [by apply at_upsert_foreign|intros ?; by apply triple_ret].
Qed.

Lemma holds_acp_tool_call closed cur s data :
  ¬ owned data.(acd_tool_call_id) →
  triple (holds closed cur s) (persist_acp_tool_call self.(rl_adapter) data) (λ _, holds closed cur s).
Proof.
  intros Ho. apply holds_keeps. intros m k. apply at_guarded; [set_solver|].
  eapply triple_bind; [apply at_now|]. intros created_at.
  eapply (triple_bind _ _ (λ _, at_rows m k)); [by apply at_upsert_foreign|intros ?; by apply triple_ret].
Qed.

(** A row of a group under an identifier that was just drawn *)
Lemma holds_insert_group closed cur s content status n m k :
  k ≤ n → stored closed cur s k m →
  triple (at_rows m (S n))
    (created_at ← now;
     _ ← insert_message
           (segment_row self.(rl_adapter) (se_id n) "tool_group" content status created_at);
     mret ()) (λ _, holds closed cur s).
Proof.
  intros Hn Hst. eapply triple_bind; [apply at_now|]. intros created_at.
  eapply (triple_bind _ _ (λ _, holds closed cur s)); [|intros ?; by apply triple_ret].
  eapply triple_consequence.
  - apply at_insert; [apply (ca_conversation Hcalm)|right; by exists n|].
    apply (st_free _ _ _ _ _ Hst); [right; by exists n|by apply drawn_not_taken].
  - done.
  - intros r w [_ Hw]. eexists _, _. split; [|exact Hw].
    cbn [segment_row mg_id]. by apply (stored_drawn _ _ _ k).
Qed.

Lemma holds_store_drawn closed cur s content status n m k :
  k ≤ n → stored closed cur s k m →
  triple (at_rows m (S n)) (store_tool_group self.(rl_adapter) (se_id n) content status)
    (λ _, holds closed cur s).
Proof.
  intros Hn Hst. unfold store_tool_group. eapply triple_bind; [by apply at_read|]. intros existing.
  destruct existing as [[row|]|e]; [|by eapply holds_insert_group..].
  eapply (triple_bind _ _ (λ _, holds closed cur s)); [|intros ?; by apply triple_ret].
  eapply triple_consequence.
  - apply at_update_missing; [|right; by exists n].
    apply (st_free _ _ _ _ _ Hst); [right; by exists n|by apply drawn_not_taken].
  - done.
  - intros r w Hw. exists m, (S n). split; [|done]. by apply (stored_later _ _ _ k); [lia|].
Qed.

Lemma at_store_foreign id content status m k :
  ¬ owned id →
  triple (at_rows m k) (store_tool_group self.(rl_adapter) id content status) (λ _, at_rows m k).
Proof.
  intros Ho. unfold store_tool_group. eapply triple_bind; [by apply at_read|]. intros existing.
  assert (triple (at_rows m k)
    (created_at ← now;
     _ ← insert_message (segment_row self.(rl_adapter) id "tool_group" content status created_at);
     mret ()) (λ _, at_rows m k)) as Hins.
  { eapply triple_bind; [apply at_now|]. intros created_at.
    eapply (triple_bind _ _ (λ _, at_rows m k)); [by apply at_insert_foreign|intros ?; by apply triple_ret]. }
  destruct existing as [[row|]|e]; [|done..].
  eapply (triple_bind _ _ (λ _, at_rows m k)); [by apply at_update_foreign|intros ?; by apply triple_ret].
Qed.

Lemma holds_tool_group closed cur s entries :
  foreign (EvToolGroup entries) →
  triple (holds closed cur s) (persist_tool_group self.(rl_adapter) entries) (λ _, holds closed cur s).
Proof.
  intros Ho. apply holds_triple. intros m k Hst. apply at_guarded; [set_solver|]. cbv zeta.
  destruct entries as [|entry entries].
  - eapply triple_bind; [apply at_moment|]. intros id w (n & Hn & -> & Hw).
    by eapply holds_store_drawn.
  - cbn in Ho. intros w Hw. exists m, k. split; [done|]. by apply at_store_foreign.
Qed.

Lemma holds_on_tool closed cur event persist s :
  (∀ s', triple (holds (close_run (closed, cur)) None s') persist
     (λ _, holds (close_run (closed, cur)) None s')) →
  triple (holds closed cur s) (on_tool self event persist s)
    (λ s', holds (close_run (closed, cur)) None s').
Proof.
  intros Hp. unfold on_tool.
  eapply (triple_consequence _ (holds closed cur (note_tool s)));
    [|intros w; by apply holds_same|done].
  eapply triple_bind; [apply holds_complete_thinking|]. intros s1.
  eapply (triple_consequence _ (holds closed cur s1)); [|naive_solver|done].
  eapply triple_bind; [apply holds_close_text|]. intros s2.
  eapply (triple_consequence _ (holds (close_run (closed, cur)) None s2)); [|naive_solver|done].
  eapply (triple_bind _ _ (λ _, holds (close_run (closed, cur)) None s2)).
  { apply holds_keeps. intros. apply at_forward. }
  intros _. eapply triple_bind; [apply Hp|]. intros ?. by apply triple_ret.
Qed.

Lemma holds_on_event runs event s :
  foreign event → ends_turn event = false →
  triple (holds runs.1 runs.2 s) (on_event self event s)
    (λ s', holds (run_step runs event).1 (run_step runs event).2 s').
Proof.
  destruct runs as [closed cur]. intros Hf He.
  assert (∀ s' : RelayState, (∀ w, holds closed cur s w → holds closed cur s' w) →
    triple (holds closed cur s) (_ ← forward_to_websocket self event; mret s')
      (λ s', holds closed cur s')) as Hforward.
  { intros s' Hs'. eapply (triple_bind _ _ (λ _, holds closed cur s)).
    - apply holds_keeps. intros. apply at_forward.
    - intros _. by apply triple_ret. }
  destruct event; try done; cbn [on_event run_step breaks fst snd];
    try (apply Hforward; intros w; by apply holds_same).
  - apply holds_text.
  - unfold on_tips. cbv zeta.
    set (s1 := if tip_shown data then set_rs_attempt (saw_visible s.(rs_attempt)) s else s).
    eapply (triple_consequence _ (holds closed cur s1));
      [|intros w; unfold s1; destruct (tip_shown data); [by apply holds_same|done]|done].
    eapply (triple_bind _ _ (λ _, holds closed cur s1)).
    { apply holds_keeps. intros. apply at_forward. }
    intros _. eapply (triple_bind _ _ (λ _, holds closed cur s1)); [|intros ?; by apply triple_ret].
    destruct (tip_shown data); [apply holds_persist_tip|by apply triple_ret].
  - apply holds_on_tool; intros; by apply holds_tool_call.
  - apply holds_on_tool; intros; by apply holds_acp_tool_call.
  - apply holds_on_tool; intros; by apply holds_tool_group.
  - apply holds_thinking.
Qed.

Lemma holds_pass_events runs events s :
  Forall foreign events → Forall (λ event, ends_turn event = false) events →
  triple (holds runs.1 runs.2 s) (pass_events self events s)
    (λ s', holds (foldl run_step runs events).1 (foldl run_step runs events).2 s').
Proof.
  revert runs s. induction events as [|event events IH]; intros runs s Hf He; cbn [pass_events foldl].
  { by apply triple_ret. }
  apply Forall_cons in Hf as [Hf Hfs]. apply Forall_cons in He as [He Hes].
  eapply triple_bind; [|intros s1; by apply IH].
  unfold pass_event. eapply (triple_bind _ _ (λ b w, b = false ∧ holds runs.1 runs.2 s w)).
  - intros w (m & k & Hst & Hw). destruct (at_not_deleting m k w Hw) as [Hb Hw'].
    split; [done|]. by exists m, k.
  - intros b. apply triple_pure. intros ->. by apply holds_on_event.
Qed.

(** ** The end of the turn *)

Definition update_all (updates : MessageRowUpdate) (ids : list string)
    (m : gmap string MessageRow) : gmap string MessageRow :=
  foldl (λ m id, alter (update_row updates) id m) m ids.

Lemma lookup_update_all updates ids m id :
  NoDup ids →
  update_all updates ids m !! id =
    if decide (id ∈ ids) then update_row updates <$> m !! id else m !! id.
Proof.
  revert m. induction ids as [|id' ids IH]; intros m Hnd; cbn [update_all foldl].
  { rewrite decide_False; [done|]. apply not_elem_of_nil. }
  apply NoDup_cons in Hnd as [Hni Hnd]. unfold update_all in IH. rewrite IH by done.
  destruct (decide (id = id')) as [->|Hne].
  - rewrite decide_False, decide_True by (done || by left). by rewrite lookup_alter_eq.
  - rewrite lookup_alter_ne by done.
    destruct (decide (id ∈ ids)) as [Hin|Hin]; [rewrite decide_True by (by right); done|].
    rewrite decide_False; [done|]. by intros [|]%elem_of_cons.
Qed.

Lemma at_update_alter m k id updates :
  is_Some (m !! id) → owned id → updates.(mu_status) ≠ None →
  triple (at_rows m k) (update_message id updates)
    (λ _, at_rows (alter (update_row updates) id m) k).
Proof.
  intros [row Hrow] Ho Hu.
  eapply triple_consequence; [eapply at_update; [exact Hrow|done|naive_solver]|done|].
  intros r w [_ Hw].
  replace (alter (update_row updates) id m) with (<[id := update_row updates row]> m); [done|].
  apply map_eq. intros id'. destruct (decide (id' = id)) as [->|Hne].
  - by rewrite lookup_insert_eq, lookup_alter_eq, Hrow.
  - by rewrite lookup_insert_ne, lookup_alter_ne.
Qed.

Lemma at_update_each m k ids updates :
  NoDup ids → updates.(mu_status) ≠ None → Forall owned ids →
  Forall (λ id, is_Some (m !! id)) ids →
  triple (at_rows m k) (update_each ids updates) (λ _, at_rows (update_all updates ids m) k).
Proof.
  revert m. induction ids as [|id ids IH]; intros m Hnd Hu Ho Hm; cbn [update_each update_all foldl].
  { by apply triple_ret. }
  apply NoDup_cons in Hnd as [Hni Hnd]. apply Forall_cons in Ho as [Ho Hos].
  apply Forall_cons in Hm as [Hm Hms].
  eapply triple_bind; [by apply at_update_alter|]. intros r. apply IH; [done..|].
  apply Forall_forall. intros id' Hid'. rewrite lookup_alter_ne by (by intros ->).
  by eapply (proj1 (Forall_forall _ _)) in Hms.
Qed.

(** The rows of a reply at the end of its turn: each run under its identifier, or, when the
    reply is rewritten, the new text under the first and the others hidden *)
Definition reply_rows (status final_text : string) (hidden rewriting : bool)
    (runs ids : list string) (m : gmap string MessageRow) : Prop :=
  let row id (P : MessageRow → Prop) :=
    ∃ row, m !! id = Some row ∧ text_row id row ∧ row.(mg_status) = Some status ∧ P row in
  if rewriting then
    match ids with
    | [] => False
    | id :: others =>
        row id (λ r, r.(mg_content) = text_content final_text ∧ r.(mg_hidden) = hidden) ∧
        Forall (λ id, row id (λ r, r.(mg_hidden) = true)) others
    end
  else
    Forall2 (λ id run, row id (λ r, r.(mg_content) = text_content run ∧ r.(mg_hidden) = false))
      ids runs.

(** They are all the rows of text of the turn. *)
Definition reply_only (ids : list string) (m : gmap string MessageRow) : Prop :=
  ∀ id row, owned id → m !! id = Some row → row.(mg_type) = "text" → id ∈ ids.

Lemma at_final_text closed s k m status final_text hidden rewriting :
  closed ≠ [] → s.(rs_active_text) = None → stored closed None s k m →
  triple (at_rows m k)
    (persist_final_text self.(rl_adapter) s.(rs_text_segments) status final_text hidden rewriting)
    (λ _ w, ∃ m', at_rows m' k w ∧ reply_only s.(rs_text_segments) m' ∧
       reply_rows status final_text hidden rewriting closed s.(rs_text_segments) m').
Proof.
  intros Hne Htext [H1 [H2 _] H3 _ _ _ H7].
  apply StronglySorted_app_1_l, drawn_nodup in H2.
  assert (reply_only (rs_text_segments s) m) as Honly.
  { intros id row Hid Hrow Hty. destruct (H7 id row Hid Hrow Hty) as [?|(sg & Heq & _)]; [done|].
    congruence. }
  assert (Forall owned (rs_text_segments s)) as Hown.
  { eapply Forall_impl; [exact H3|]. intros id. apply taken_owned. }
  assert (∀ id, id ∈ s.(rs_text_segments) → ∃ row, m !! id = Some row ∧ text_row id row) as Hrows.
  { intros id (i & Hi)%list_elem_of_lookup.
    destruct (Forall2_lookup_l _ _ _ _ _ H1 Hi) as (run & _ & row & Hrow & Htr & _). eauto. }
  assert (∀ updates ids m', NoDup ids → reply_only (rs_text_segments s) m' →
    reply_only (rs_text_segments s) (update_all updates ids m')) as Honly_all.
  { intros updates ids m' Hnd Ho id row Hid. rewrite lookup_update_all by done.
    case_decide; [|by apply Ho]. destruct (m' !! id) as [row'|] eqn:Hr; [|done].
    intros [= <-] Hty. by eapply Ho. }
  apply at_guarded; [set_solver|].
  destruct (rs_text_segments s) as [|primary others] eqn:Hids.
  { apply Forall2_nil_inv_l in H1. done. }
  apply NoDup_cons in H2 as Hnd. destruct Hnd as [Hni Hnd].
  apply Forall_cons in Hown as Hown'. destruct Hown' as [Ho1 Hos].
  destruct rewriting.
  - set (u1 := mkMessageRowUpdate (Some (text_content final_text)) (Some (Some status)) (Some hidden)).
    set (u2 := mkMessageRowUpdate None (Some (Some status)) (Some true)).
    destruct (Hrows primary) as (row1 & Hrow1 & Htr1); [by left|].
    eapply triple_bind; [by apply at_update_alter; [eauto|..]|]. intros ?.
    eapply triple_bind.
    { apply at_update_each; [done..|]. apply Forall_forall. intros id Hid.
      destruct (Hrows id) as (row & Hrow & _); [by right|].
      rewrite lookup_alter_ne by (by intros ->). eauto. }
    intros ?. apply triple_ret. intros w Hw. eexists. split; [exact Hw|].
    split; [apply (Honly_all u2 others _ Hnd); by apply (Honly_all u1 [primary]);
            [apply NoDup_singleton|]|].
    split.
    + exists (update_row u1 row1). rewrite lookup_update_all, decide_False by done.
      rewrite lookup_alter_eq, Hrow1. split; [done|]. split; [by apply text_row_update|done].
    + apply Forall_forall. intros id Hid. destruct (Hrows id) as (row & Hrow & Htr); [by right|].
      exists (update_row u2 row). rewrite lookup_update_all, decide_True by done.
      rewrite lookup_alter_ne, Hrow by (by intros ->).
      split; [done|]. split; [by apply text_row_update|done].
  - set (u := mkMessageRowUpdate None (Some (Some status)) (Some false)).
    eapply triple_bind.
    { apply at_update_each; [done|done|done|]. apply Forall_forall. intros id Hid.
      destruct (Hrows id Hid) as (row & Hrow & _). eauto. }
    intros ?. apply triple_ret. intros w Hw. eexists. split; [exact Hw|].
    split; [by apply Honly_all|].
    apply Forall2_same_length_lookup_2; [by eapply Forall2_length|]. intros i id run Hi Hr.
    destruct (Forall2_lookup_lr _ _ _ _ _ _ H1 Hi Hr) as (row & Hrow & Htr & Hco & Hh).
    exists (update_row u row). rewrite lookup_update_all, decide_True, Hrow;
      [|by eapply list_elem_of_lookup_2|done].
    split; [done|]. split; [by apply text_row_update|done].
Qed.

(** ** The whole turn *)

Lemma at_publish m k conversation_id turn_id summary :
  conversation_id = self.(rl_conversation_id) →
  triple (at_rows m k) (publish conversation_id turn_id summary) (λ _, at_rows m k).
Proof.
  intros ->. unfold publish. eapply (triple_bind _ _ (λ _, at_rows m k)).
  { eapply triple_consequence; [apply at_moment|done|]. intros b w (n & Hn & _ & Hw).
    eapply at_weaken; [|exact Hw]. lia. }
  intros []; cbn; [|by apply triple_ret]. eapply triple_bind; [by apply at_read|].
  intros [[c|]|e]; [|by apply triple_ret..]. eapply triple_bind; [apply at_now|]. intros updated_at.
  eapply triple_bind; [apply at_finish|]. intros [u|e]; [apply at_frame|by apply triple_ret].
Qed.

Lemma at_complete m k turn_id summary :
  triple (at_rows m k) (complete_conversation self.(rl_adapter) turn_id summary) (λ _, at_rows m k).
Proof.
  unfold complete_conversation. destruct (ad_persistence _).
  - apply at_publish, (ca_conversation Hcalm).
  - eapply triple_bind; [apply at_now|]. intros updated_at.
    eapply triple_bind; [apply at_finish|]. intros r. apply at_frame.
Qed.

Lemma at_overrides m k overrides :
  triple (at_rows m k) (send_final_text_overrides overrides) (λ _, at_rows m k).
Proof.
  induction overrides as [|o overrides IH]; cbn [send_final_text_overrides]; [by apply triple_ret|].
  eapply triple_bind; [apply at_frame|]. intros ?. apply IH.
Qed.

Lemma at_responses m k responses :
  triple (at_rows m k) (send_system_responses responses) (λ _, at_rows m k).
Proof.
  induction responses as [|o responses IH]; cbn [send_system_responses]; [by apply triple_ret|].
  eapply (triple_bind _ _ (λ _, at_rows m k)).
  - eapply triple_consequence; [apply at_moment|done|]. intros b w (n & Hn & _ & Hw).
    eapply at_weaken; [|exact Hw]. lia.
  - intros id. eapply triple_bind; [apply at_frame|]. intros ?. apply IH.
Qed.

(** The rows of the reply at the end of a turn that said [text]: under identifiers of the turn,
    one after another in the order in which they were drawn *)
Definition reply_done (status text : string) (runs : list string) (w : World) : Prop :=
  let message := strip_think_tags text in
  let hidden := bool_decide (utrim message = "") in
  ∃ ids, StronglySorted drawn_before ids ∧ reply_only ids w.(wd_tables).(tb_messages) ∧
    reply_rows status (utrim message) hidden (bool_decide (message ≠ text) || hidden) runs ids
      w.(wd_tables).(tb_messages).

Lemma reply_rows_at status final_text hidden rewriting runs ids m k w :
  at_rows m k w → Forall owned ids → reply_rows status final_text hidden rewriting runs ids m →
  reply_rows status final_text hidden rewriting runs ids w.(wd_tables).(tb_messages).
Proof.
  intros Hw Ho. unfold reply_rows. destruct rewriting.
  - destruct ids as [|id others]; [done|]. apply Forall_cons in Ho as [Ho Hos].
    intros [(row & Hr & HP) Hall]. split; [exists row; by rewrite (ar_rows _ _ _ Hw)|].
    apply Forall_forall. intros id' Hid'. apply (proj1 (Forall_forall _ _) Hall) in Hid' as Hr'.
    destruct Hr' as (row' & Hr' & HP'). exists row'. rewrite (ar_rows _ _ _ Hw); [done|].
    by apply (proj1 (Forall_forall _ _) Hos).
  - intros Hall. apply Forall2_same_length_lookup_2; [by eapply Forall2_length|].
    intros i id run Hi Hrun. destruct (Forall2_lookup_lr _ _ _ _ _ _ Hall Hi Hrun) as (row & Hr & HP).
    exists row. rewrite (ar_rows _ _ _ Hw); [done|]. by eapply Forall_lookup_1 in Ho.
Qed.

Lemma at_finalize closed s k m text event terminal :
  text ≠ "" → closed ≠ [] → s.(rs_active_text) = None → stored closed None s k m →
  triple (at_rows m k) (finalize self text s.(rs_text_segments) event terminal)
    (λ _ w, ∃ m', at_rows m' k w ∧ reply_only s.(rs_text_segments) m' ∧
       reply_rows (match event with EvError _ => "error" | _ => "finish" end)
         (utrim (strip_think_tags text)) (bool_decide (utrim (strip_think_tags text) = ""))
         (bool_decide (strip_think_tags text ≠ text) ||
          bool_decide (utrim (strip_think_tags text) = "")) closed s.(rs_text_segments) m').
Proof.
  intros Hne Hclosed Htext Hst. unfold finalize. rewrite bool_decide_eq_false_2 by done. cbv zeta.
  eapply triple_bind; [by apply at_final_text|]. intros overrides w (m' & Hw & Honly & Hrows).
  cut (triple (at_rows m' k) (_ ← send_final_text_overrides overrides;
    _ ← send_system_responses (process_final_text self text).(mr_system_responses);
    _ ← (if bool_decide (match event with EvError _ => "error" | _ => "finish" end = "finish") &&
            negb (bool_decide (utrim (process_final_text self text).(mr_message) = ""))
         then match self.(rl_external_reply) with
              | Some (source, chat_id) =>
                  send_reply (source, chat_id, utrim (process_final_text self text).(mr_message))
              | None => mret ()
              end
         else mret ());
    mret (mkRelayOutcome (process_final_text self text).(mr_system_responses) terminal
            default_attempt)) (λ _, at_rows m' k)).
  { intros Ht. exists m'. split; [exact (Ht w Hw)|done]. }
  eapply triple_bind; [apply at_overrides|]. intros ?.
  eapply triple_bind; [apply at_responses|]. intros ?.
  eapply (triple_bind _ _ (λ _, at_rows m' k)); [|intros ?; by apply triple_ret].
  destruct (_ && _); [|by apply triple_ret].
  destruct (rl_external_reply self) as [[source chat_id]|]; [apply at_reply|by apply triple_ret].
Qed.

(** The end of a turn: what was pending is closed, and the reply is settled. *)
Lemma holds_conclude runs event terminal status forward (note : RelayState → RelayState) s text :
  text ≠ "" → close_run runs ≠ [] → s.(rs_full_text_buffer) = text →
  (∀ s', (note s').(rs_full_text_buffer) = s'.(rs_full_text_buffer) ∧
     (note s').(rs_text_segments) = s'.(rs_text_segments) ∧
     (note s').(rs_active_text) = s'.(rs_active_text) ∧
     (note s').(rs_active_thinking) = s'.(rs_active_thinking) ∧
     (note s').(rs_used_primary_segment_msg_id) = s'.(rs_used_primary_segment_msg_id)) →
  (∀ m k, triple (at_rows m k) forward (λ _ : (), at_rows m k)) →
  triple (holds runs.1 runs.2 s)
    (s ← close_unless_deleting self false status s;
     _ ← forward; conclude self false event terminal (note s))
    (λ _ w, reply_done (match event with EvError _ => "error" | _ => "finish" end) text
              (close_run runs) w).
Proof.
  intros Hne Hruns Hfull Hnote Hfw w Hw.
  pose proof (close_all_notes self false status s.(rs_attempt) text s (conj eq_refl Hfull) w I)
    as [[_ Hfull1] _].
  assert (let '(s1, w1) := close_unless_deleting self false status s w in
    holds (close_run runs) None s1 w1 ∧ s1.(rs_active_text) = None) as Hclose.
  { assert (triple (holds runs.1 runs.2 s) (close_unless_deleting self false status s)
      (λ s' w, holds (close_run runs) None s' w ∧ s'.(rs_active_text) = None)) as Ht.
    { unfold close_unless_deleting. eapply triple_bind; [apply holds_complete_thinking|]. intros s1.
      eapply triple_consequence; [apply holds_close_text|naive_solver|]. cbn.
      intros s2 w2 (H1 & H2 & _). by destruct runs. }
    specialize (Ht w Hw). by destruct (close_unless_deleting self false status s w). }
  unfold mbind, task_bind. destruct (close_unless_deleting self false status s w) as [s1 w1].
  cbn [fst] in Hfull1. destruct Hclose as [(m & k & Hst & Hw1) Htext1].
  destruct (Hnote s1) as (N1 & N2 & N3 & N4 & N5).
  apply (stored_same _ _ _ (note s1)) in Hst; [|done..].
  specialize (Hfw m k w1 Hw1). destruct (forward w1) as [[] w2]. cbn [snd] in Hfw.
  unfold conclude. rewrite N1, Hfull1.
  revert w2 Hfw. change (triple (at_rows m k)
    (outcome ← finalize self text (note s1).(rs_text_segments) event terminal;
     _ ← (if self.(rl_complete_turn) && negb false
          then complete_conversation self.(rl_adapter) self.(rl_turn_id) None else mret ());
     mret (with_attempt outcome (final_attempt (note s1))))
    (λ _ w, reply_done (match event with EvError _ => "error" | _ => "finish" end) text
              (close_run runs) w)).
  eapply triple_bind; [apply (at_finalize (close_run runs)); [done|done|congruence|exact Hst]|].
  intros outcome w2 (m' & Hw2 & Honly & Hrows).
  cut (at_rows m' k ((_ ← (if self.(rl_complete_turn) && negb false
          then complete_conversation self.(rl_adapter) self.(rl_turn_id) None else mret ());
     mret (with_attempt outcome (final_attempt (note s1)))) w2).2).
  - intros Hw3. exists (note s1).(rs_text_segments). split.
    { eapply StronglySorted_app_1_l. apply (st_order _ _ _ _ _ Hst). }
    split.
    + intros id row Hid. rewrite (ar_rows _ _ _ Hw3) by done. by apply Honly.
    + eapply reply_rows_at; [exact Hw3| |exact Hrows].
      eapply Forall_impl; [apply Hst|]. intros id. apply taken_owned.
  - apply (triple_bind (at_rows m' k) _ (λ _, at_rows m' k) _ (λ _, at_rows m' k)); [| |done].
    + destruct (_ && _); [apply at_complete|by apply triple_ret].
    + intros ?. by apply triple_ret.
Qed.
End store.

(** The status of the rows of a reply *)
Definition end_status `{!JsonValue} (r : Recv) : string :=
  match r with RecvEvent (EvError _) => "error" | _ => "finish" end.

Section calm_end.
Context `{StreamEnv} (self : StreamRelay) (Hcalm : calm self).

Lemma holds_initial w :
  known_conversation self.(rl_conversation_id) w.(wd_tables) = true →
  (∀ id, owned self id → w.(wd_tables).(tb_messages) !! id = None) →
  holds self [] None initial_relay_state w.
Proof.
  intros Hknown Hfree. exists w.(wd_tables).(tb_messages), 0.
  split; [|split; [done|done|lia]]. split; try done; cbn.
  - by repeat constructor.
  - intros id Hid _. by apply Hfree.
  - intros id row Hid Hrow. by rewrite Hfree in Hrow.
Qed.

Lemma calm_never_deleting : never_deleting self.
Proof.
  intros _ n. pose proof (ca_lifecycle _ Hcalm n) as Hl.
  unfold lifecycle_for, is_deleting, read_or in *.
  destruct (cv_poisoned _); [done|]. destruct (ct_shutting_down _); [naive_solver|].
  case_bool_decide; [naive_solver|done].
Qed.

Lemma holds_not_deleting closed cur s :
  triple (holds self closed cur s) (relay_is_deleting self)
    (λ b w, b = false ∧ holds self closed cur s w).
Proof.
  intros w (m & k & Hst & Hw). destruct (at_not_deleting self Hcalm m k w Hw) as [Hb Hw'].
  split; [done|]. by exists m, k.
Qed.

(** The end of a turn that said something, and puts no error off *)
Lemma holds_end_turn runs r s text :
  text ≠ "" → close_run runs ≠ [] → s.(rs_full_text_buffer) = text →
  safe_to_auto_replay s.(rs_attempt) = false → decisive r = true →
  triple (holds self runs.1 runs.2 s) (end_turn self r s)
    (λ _, reply_done self (end_status r) text (close_run runs)).
Proof.
  intros Htext Hruns Hfull Hsafe Hd. destruct r as [event| |n]; [| |done]; cbn [end_turn].
  - eapply triple_bind; [apply holds_not_deleting|].
    intros b. apply triple_pure. intros ->. unfold on_terminal.
    assert (defers self (terminal_from_event event) (rs_attempt s) = false) as ->
      by (by rewrite defers_spec, Hsafe, !andb_false_r).
    eapply triple_consequence; [apply (holds_conclude self Hcalm _ event (terminal_from_event event)
      _ (forward_to_websocket self event)
      (λ s, match event with
            | EvError data => set_rs_attempt (ended_with data s.(rs_attempt)) s
            | _ => s
            end) s text Htext Hruns Hfull)|done|].
    + intros s'. by destruct event.
    + intros. apply at_forward.
    + intros o w'. cbn. by destruct event.
  - unfold on_closed. eapply triple_bind; [apply holds_not_deleting|].
    intros b. apply triple_pure. intros ->.
    exact (holds_conclude self Hcalm _ (EvFinish None) TerminalChannelClosed "finish" (mret ()) id s
      text Htext Hruns Hfull (λ _, conj eq_refl (conj eq_refl (conj eq_refl (conj eq_refl
      eq_refl)))) (λ _ _ _ Hw, Hw)).
Qed.
End calm_end.

(** C20: In a calm world, for a turn that says a text that is not empty, and whose tool calls do
    not use the identifiers of the turn, under which nothing is stored at its start: whatever the
    number of chunks and of flushes in between, the rows of text it leaves are, in the order in
    which their identifiers were drawn, exactly one for each run of text between its thoughts and
    tool calls, visible, with the status of its end; or, when the text has thinking tags or is
    blank, the one drawn first has the whole text without them, trimmed, and the others are
    hidden. *)
Theorem reply_is_stored `{StreamEnv} self sends polls w r :
  calm self →
  known_conversation self.(rl_conversation_id) w.(wd_tables) = true →
  (∀ id, owned self id → w.(wd_tables).(tb_messages) !! id = None) →
  Forall (foreign self) (heard (negb sends) None polls).1 →
  (heard (negb sends) None polls).2 = Some r →
  text_of (heard (negb sends) None polls).1 ≠ "" →
  reply_done self (end_status r) (text_of (heard (negb sends) None polls).1)
    (text_runs (heard (negb sends) None polls).1) (consume_inner self sends polls w).2.
Proof.
  intros Hcalm Hknown Hfree Hforeign Hr Htext. unfold consume_inner.
  rewrite relay_loop_heard by done. cbn [ch_send_error_done ch_pending_send_error].
  pose proof (heard_quiet (negb sends) None polls) as Hq.
  pose proof (heard_decisive (negb sends) None polls r Hr) as Hd.
  destruct (heard _ _ _) as [events r']. cbn [fst snd] in *. subst r'.
  unfold pass. cbn [fst snd]. unfold mbind, task_bind.
  pose proof (holds_pass_events self Hcalm ([], None) events initial_relay_state Hforeign Hq w
    (holds_initial self w Hknown Hfree)) as Hpass.
  pose proof (pass_events_notes self events default_attempt "" initial_relay_state
    (calm_never_deleting self Hcalm) Hq (conj eq_refl eq_refl) w I) as [[Ha Hfull] _].
  destruct (pass_events self events initial_relay_state w) as [s w1]. cbn [fst snd] in *.
  rewrite foldl_seen in Ha. cbn in Ha.
  assert (close_run (foldl run_step ([], None) events) ≠ []) as Hruns.
  { intros Hnil. pose proof (joined_text_runs events) as Hj. unfold text_runs in Hj.
    by rewrite Hnil in Hj. }
  assert (safe_to_auto_replay (rs_attempt s) = false) as Hsafe.
  { rewrite Ha. unfold safe_to_auto_replay. cbn.
    destruct (existsb shows events) eqn:Hs; [done|]. by apply invisible_text in Hs. }
  pose proof (holds_end_turn self Hcalm _ r s _ Htext Hruns Hfull Hsafe Hd w1 Hpass) as Hend.
  unfold mret, task_ret. by destruct (end_turn self r s w1).
Qed.
