(* ===== verification/TurnOrchestrator.v ===== *)
(** * Conversation: the orchestrator of a turn

    Models [turn_orchestrator.rs], [message_persistence.rs] and the eviction of
    [acp_error_recovery.rs] of [aionui-conversation]: a turn is one attempt, or two when the
    first failed without a trace; an attempt is a relayed message to the agent and the
    messages that answer its requests for skills.

    The agent, the task manager and the columns of the conversation they change are the
    environment [TurnEnv]: what they answer at the moment they are asked, and a log of what
    was asked of them.  The task that sends to the agent runs beside the relay: what it
    comes to is in the polls of the relay, its report of a failure is left out. *)
From S2P Require Import Prelude Text Storage ConvRuntime ConvPolicy Middleware Stream StreamRelay.

Definition MAX_SYSTEM_RESPONSE_CONTINUATIONS_PER_TURN : nat := 4.

(** A failure on the way to the agent: the error of the task manager, of the agent or of the
    conversation, as it is sent, its code and its text *)
Record TurnFailure := mkTurnFailure {
  tf_send_error : AgentSendError;
  tf_top_level_code : string;
  tf_message : string;
}.

(** [ai] = [AgentInstance]: what the orchestrator asks of it *)
Record AgentInstance := mkAgentInstance {
  ai_agent_type : AgentType;
  ai_workspace : string;
}.

(** [ti] = [TurnStartInput]; [ti_agent_id] and [ti_skills] are those of the build options. *)
Record TurnStartInput := mkTurnStartInput {
  ti_conversation_id : string;
  ti_content : string;
  ti_required_runtime_mode : option string;
  ti_agent_id : option string;
  ti_skills : list string;
  ti_stored_workspace : string;
  ti_turn_id : string;
  ti_turn_claim : TurnClaim;
  ti_external_reply : option (string * string);
}.

Inductive ConversationTurnStatus := TurnCompleted | TurnFailed.

(** [ctr] = [ConversationTurnResult] *)
Record ConversationTurnResult := mkTurnResult {
  ctr_status : ConversationTurnStatus;
  ctr_error_message : option string;
}.

(** [tar] = [TurnAttemptResult] *)
Record TurnAttemptResult := mkAttemptResult {
  tar_outcome : RelayOutcome;
  tar_summary : TurnAttemptSummary;
  tar_agent_type : AgentType;
}.

(** What is asked of the task manager, the agent and the conversation *)
Inductive TurnEffect :=
  | BuildTask
  | SetMode (mode : string)
  | SendToAgent (content msg_id : string)
  | StoreWorkspace (path : string)
  | StoreSessionKey (key : string)
  | EvictTask
  | ClearSessionModel
  | ClearConversationModel
  | RecordFailure (agent_id code message : string)
  | RecordSuccess (agent_id : string)
  | ReleaseClaim (was_deleting : bool)
  | OutOfFuel.

Class TurnEnv := {
  te_stream :: StreamEnv;
  te_build : nat → result AgentInstance TurnFailure;
  te_polls : nat → list Poll;
  te_set_mode : nat → option TurnFailure;
  te_session_key : nat → option string;
  te_store_workspace : nat → option TurnFailure;
  te_summary : nat → ConversationRuntimeSummary;
  te_skill_resolver : option (list string → list LoadedAgentSkill);
  te_feedback : bool;
  te_error_code_text : AgentErrorCode → string;
}.

(** The world of a turn: that of its tasks, and the log *)
Section turn_world.
Context `{!JsonValue}.

Record TurnWorld := mkTurnWorld {
  tn_world : World;
  tn_log : list TurnEffect;
}.
End turn_world.

(** A part of a turn; [None]: it waits for ever. *)
Definition turn `{TurnEnv} (A : Type) : Type := TurnWorld → option A * TurnWorld.

Section turn.
Context `{TurnEnv}.

#[global] Instance turn_ret : MRet turn := λ A a t, (Some a, t).
#[global] Instance turn_bind : MBind turn := λ A B k m t,
  match m t with
  | (Some a, t) => k a t
  | (None, t) => (None, t)
  end.

(** A task, which ends *)
Definition run {A} (m : task A) : turn A := λ t,
  let '(a, w) := m t.(tn_world) in (Some a, mkTurnWorld w t.(tn_log)).

(** A task that may wait for ever *)
Definition await {A} (m : task (option A)) : turn A := λ t,
  let '(a, w) := m t.(tn_world) in (a, mkTurnWorld w t.(tn_log)).

Definition effect (e : TurnEffect) : turn () := λ t,
  (Some (), mkTurnWorld t.(tn_world) (t.(tn_log) ++ [e])).

(** ** Tips of failures ([message_persistence.rs], [service.rs]) *)

Definition failure_details (data : AgentStreamErrorData) : json :=
  let detail := optional_json (json_string <$> data.(ed_detail)) in
  match data.(ed_workspace_path) with
  | Some path => json_object [("detail", detail); ("workspace_path", json_string path)]
  | None => detail
  end.

Definition failure_row (conversation_id id : string) (err : AgentSendError)
    (top_level_code : option string) (created_at : Z) : MessageRow :=
  let data := err.(se_stream_error) in
  let code := match top_level_code with
              | Some code => Some code
              | None => te_error_code_text <$> data.(ed_code)
              end in
  mkMessageRow id conversation_id None "tips"
    (json_display (json_object
      [("content", json_string data.(ed_message)); ("type", json_string "error");
       ("source", json_string "send_failed"); ("code", optional_json (json_string <$> code));
       ("details", failure_details data); ("error", error_value data)]))
    (Some "center") (Some "error") false created_at.

Definition persist_send_failure_tip (conversation_id : string) (err : AgentSendError)
    (top_level_code : option string) : task (option MessageRow) :=
  allowed ← runtime (allows conversation_id WriteSendFailureTip);
  if negb allowed then mret None
  else
    id ← mint_msg_id;
    created_at ← now;
    let row := failure_row conversation_id id err top_level_code created_at in
    stored ← insert_message row;
    mret (match stored with Ok _ => Some row | Err _ => None end).

Definition persist_and_broadcast_send_failure_tip (conversation_id : string)
    (err : AgentSendError) (top_level_code : option string) : task () :=
  row ← persist_send_failure_tip conversation_id err top_level_code;
  match row with
  | Some row => broadcast_frame (FrameRow (default row.(mg_id) row.(mg_msg_id)) row)
  | None => mret ()
  end.

Definition send_error_display_message (error : AgentSendError) : string :=
  default error.(se_stream_error).(ed_message) error.(se_stream_error).(ed_detail).

Definition turn_attempt_error_message (summary : TurnAttemptSummary) : option string :=
  (λ error : AgentStreamErrorData,
     match error.(ed_detail) with
     | Some detail => if is_blank detail then error.(ed_message) else detail
     | None => error.(ed_message)
     end) <$> summary.(ta_terminal_error).

(** ** The conversation's columns and the feedback on agents *)

(** [maybe_persist_workspace]; the failure is that of the reading and writing of [extra]. *)
Definition maybe_persist_workspace (conversation_id stored_workspace resolved_workspace : string) :
    turn (option TurnFailure) :=
  if bool_decide (resolved_workspace = "") || bool_decide (resolved_workspace = stored_workspace)
  then mret None
  else
    allowed ← run (runtime (allows conversation_id WriteResolvedWorkspace));
    if negb allowed then mret None
    else
      _ ← effect (StoreWorkspace resolved_workspace);
      run (moment te_store_workspace).

Definition persist_session_key (conversation_id session_key : string) : turn () :=
  allowed ← run (runtime (allows conversation_id WriteSessionKey));
  if negb allowed then mret () else effect (StoreSessionKey session_key).

(** [availability_agent_id]: empty identifiers do not count. *)
Definition availability_agent_id (input : TurnStartInput) : option string :=
  input.(ti_agent_id) ≫= non_empty.

Definition record_agent_session_failure (agent_id : option string) (code message : string) : turn () :=
  match agent_id with
  | Some agent_id => if te_feedback then effect (RecordFailure agent_id code message) else mret ()
  | None => mret ()
  end.

Definition record_agent_session_success (agent_id : option string) : turn () :=
  match agent_id with
  | Some agent_id => if te_feedback then effect (RecordSuccess agent_id) else mret ()
  | None => mret ()
  end.

(** The two clearings of the model: what they find and write is one entry of the log. *)
Definition clear_model_after_model_not_found (cleared : TurnEffect) (conversation_id : string)
    (error_code : option AgentErrorCode) : turn () :=
  if bool_decide (error_code ≠ Some UserLlmProviderModelNotFound) then mret ()
  else
    allowed ← run (runtime (allows conversation_id WriteAcpRecoveryCleanup));
    if negb allowed then mret () else effect cleared.

Definition evict_acp_task_after_terminal_error (conversation_id : string) (agent_type : AgentType)
    (outcome : RelayOutcome) : turn bool :=
  if bool_decide (agent_type ≠ Acp) || negb (terminal_is_error outcome.(ro_terminal))
  then mret false
  else
    _ ← effect EvictTask;
    let error_code := terminal_code outcome.(ro_terminal) in
    _ ← clear_model_after_model_not_found ClearSessionModel conversation_id error_code;
    _ ← clear_model_after_model_not_found ClearConversationModel conversation_id error_code;
    mret true.

Definition complete_turn (conversation_id turn_id : string) : task () :=
  summary ← moment te_summary;
  publish conversation_id turn_id (Some summary).

Definition complete_released_turn (conversation_id turn_id : string) (was_deleting : bool) : task () :=
  if was_deleting then mret () else complete_turn conversation_id turn_id.

(** ** An attempt *)

Definition failed (message : string) : ConversationTurnResult :=
  mkTurnResult TurnFailed (Some message).

(** The relay of one message of the attempt *)
Definition turn_relay (input : TurnStartInput) (msg_id : string) (defer : bool) : StreamRelay :=
  mkRelay input.(ti_conversation_id) msg_id input.(ti_turn_id) te_skill_resolver input.(ti_skills)
    true (mkAdapter input.(ti_conversation_id) msg_id true) false defer input.(ti_external_reply).

(** [required_runtime_mode.trim()], when it is not empty *)
Definition required_mode (input : TurnStartInput) : option string :=
  input.(ti_required_runtime_mode) ≫= λ mode, non_empty (utrim mode).

(** The mode is set before the message is sent: its failure, told as a tip. *)
Definition apply_required_runtime_mode (input : TurnStartInput) : turn (option string) :=
  match required_mode input with
  | None => mret None
  | Some mode =>
      _ ← effect (SetMode mode);
      error ← run (moment te_set_mode);
      match error with
      | None => mret None
      | Some error =>
          _ ← run (persist_and_broadcast_send_failure_tip input.(ti_conversation_id)
                     error.(tf_send_error) (Some error.(tf_top_level_code)));
          mret (Some error.(tf_message))
      end
  end.

Definition store_session_key (input : TurnStartInput) : turn () :=
  key ← run (moment te_session_key);
  match key with
  | Some key => persist_session_key input.(ti_conversation_id) key
  | None => mret ()
  end.

(** One message of the attempt: what its relay comes to *)
Definition send_once (input : TurnStartInput) (defer_clean_terminal_errors : bool)
    (content msg_id : string) : turn (result RelayOutcome ConversationTurnResult) :=
  mode_error ← apply_required_runtime_mode input;
  match mode_error with
  | Some message => mret (Err (failed message))
  | None =>
      _ ← effect (SendToAgent content msg_id);
      polls ← run (moment te_polls);
      outcome ← await (consume_with_send_error
                         (turn_relay input msg_id defer_clean_terminal_errors) polls);
      _ ← store_session_key input;
      mret (Ok outcome)
  end.

(** The [while let] loop of [run_attempt]: [defer]: clean errors may be put off, [aggregate]:
    the summary so far.  The lifecycle that decides of the continuation is read before the
    message is sent. *)
Fixpoint send_loop (fuel : nat) (input : TurnStartInput) (agent : AgentInstance) (defer : bool)
    (content msg_id : string) (continuation_count : nat) (aggregate : TurnAttemptSummary) :
    turn (result TurnAttemptResult ConversationTurnResult) :=
  match fuel with
  | 0 => _ ← effect OutOfFuel; mret (Err (failed ""))
  | S fuel =>
      lifecycle ← run (runtime (lifecycle_for input.(ti_conversation_id)));
      let defer_clean_terminal_errors :=
        defer && bool_decide (agent.(ai_agent_type) = Acp) && bool_decide (lifecycle = Active) &&
        safe_to_auto_replay aggregate in
      sent ← send_once input defer_clean_terminal_errors content msg_id;
      match sent with
      | Err result => mret (Err result)
      | Ok outcome =>
          let aggregate := merge_attempt outcome.(ro_attempt) aggregate in
          match decide_continuation MAX_SYSTEM_RESPONSE_CONTINUATIONS_PER_TURN continuation_count
                  outcome lifecycle with
          | Continue content next_count =>
              next_turn_msg_id ← run mint_msg_id;
              send_loop fuel input agent defer content next_turn_msg_id next_count aggregate
          | Stop _ => mret (Ok (mkAttemptResult outcome aggregate agent.(ai_agent_type)))
          end
      end
  end.

(** One message, and its continuations *)
Definition SEND_FUEL : nat := MAX_SYSTEM_RESPONSE_CONTINUATIONS_PER_TURN + 1.

Definition run_attempt (input : TurnStartInput) (msg_id : string) (defer : bool) :
    turn (result TurnAttemptResult ConversationTurnResult) :=
  _ ← effect BuildTask;
  built ← run (moment te_build);
  match built with
  | Err error =>
      let failure_message := send_error_display_message error.(tf_send_error) in
      _ ← record_agent_session_failure (availability_agent_id input) "session_build_failed"
            failure_message;
      _ ← run (persist_and_broadcast_send_failure_tip input.(ti_conversation_id)
                 error.(tf_send_error) (Some error.(tf_top_level_code)));
      mret (Err (failed failure_message))
  | Ok agent =>
      workspace_error ← maybe_persist_workspace input.(ti_conversation_id)
                          input.(ti_stored_workspace) agent.(ai_workspace);
      match workspace_error with
      | Some error =>
          _ ← run (persist_and_broadcast_send_failure_tip input.(ti_conversation_id)
                     error.(tf_send_error) (Some error.(tf_top_level_code)));
          mret (Err (failed error.(tf_message)))
      | None => send_loop SEND_FUEL input agent defer input.(ti_content) msg_id 0 default_attempt
      end
  end.

(** ** A turn *)

(** How the body of the loop of [run_user_turn] ends: with another attempt, or with the end
    of the turn: whether it failed, and with which error *)
Inductive TurnStep :=
  | Replay
  | Ended (final_failed : bool) (final_error_message : option string).

Definition turn_attempt (input : TurnStartInput) (first_turn_msg_id : string) (replayed : bool) :
    turn TurnStep :=
  attempt ← run_attempt input first_turn_msg_id (negb replayed);
  match attempt with
  | Err result =>
      mret (Ended (match result.(ctr_status) with TurnFailed => true | TurnCompleted => false end)
              result.(ctr_error_message))
  | Ok attempt_result =>
      lifecycle ← run (runtime (lifecycle_for input.(ti_conversation_id)));
      let outcome := attempt_result.(tar_outcome) in
      if negb (terminal_is_error outcome.(ro_terminal)) then mret (Ended false None)
      else
        let final_error_message := turn_attempt_error_message attempt_result.(tar_summary) in
        match decide_recovery attempt_result.(tar_agent_type)
                (with_attempt outcome attempt_result.(tar_summary)) lifecycle replayed with
        | AutoReplayOnce _ _ _ =>
            _ ← evict_acp_task_after_terminal_error input.(ti_conversation_id)
                  attempt_result.(tar_agent_type) outcome;
            mret Replay
        | RecoveryNone =>
            _ ← match outcome.(ro_attempt).(ta_terminal_error_deferred),
                      outcome.(ro_attempt).(ta_terminal_error) with
                | true, Some data =>
                    run (persist_and_broadcast_send_failure_tip input.(ti_conversation_id)
                           (mkAgentSendError data) None)
                | _, _ => mret ()
                end;
            _ ← match decide_health attempt_result.(tar_agent_type) outcome lifecycle with
                | Keep => mret ()
                | EvictAcpTask _ _ _ =>
                    _ ← evict_acp_task_after_terminal_error input.(ti_conversation_id)
                          attempt_result.(tar_agent_type) outcome;
                    mret ()
                end;
            mret (Ended true final_error_message)
        end
  end.

(** The loop: [fuel] attempts at most *)
Fixpoint turn_loop (fuel : nat) (input : TurnStartInput) (first_turn_msg_id : string)
    (replayed : bool) : turn (bool * option string) :=
  match fuel with
  | 0 => _ ← effect OutOfFuel; mret (true, None)
  | S fuel =>
      step ← turn_attempt input first_turn_msg_id replayed;
      match step with
      | Replay => turn_loop fuel input first_turn_msg_id true
      | Ended final_failed final_error_message => mret (final_failed, final_error_message)
      end
  end.

Definition TURN_FUEL : nat := 2.

(** The claim is released in the state the runtime is in; [false]: it was not for this turn. *)
Definition release_turn_claim (claim : TurnClaim) (turn_id : string) : turn bool :=
  was_deleting ← run (runtime (λ sv, (release_for_turn turn_id claim (Some sv)).1.1));
  _ ← effect (ReleaseClaim was_deleting);
  mret was_deleting.

(** What follows the loop of [run_user_turn] *)
Definition end_of_turn (input : TurnStartInput) (final_failed : bool)
    (final_error_message : option string) : turn ConversationTurnResult :=
  _ ← (if final_failed then mret ()
       else record_agent_session_success (availability_agent_id input));
  was_deleting ← release_turn_claim input.(ti_turn_claim) input.(ti_turn_id);
  _ ← run (complete_released_turn input.(ti_conversation_id) input.(ti_turn_id) was_deleting);
  mret (mkTurnResult (if final_failed then TurnFailed else TurnCompleted)
          (if final_failed then final_error_message else None)).

Definition run_user_turn (input : TurnStartInput) : turn ConversationTurnResult :=
  first_turn_msg_id ← run mint_msg_id;
  final ← turn_loop TURN_FUEL input first_turn_msg_id false;
  end_of_turn input (final : bool * option string).1 final.2.
End turn.
