(* ===== verification/TurnProps.v ===== *)
(** * Conversation: what a turn comes to

    A turn sends a bounded number of messages and returns when its relays do
    ([turn_returns]), a second attempt is made only after a first one that said nothing
    ([replay_after_silence]), and a turn that fails is told ([failed_turn_is_told]). *)
From S2P Require Import Prelude Text Storage ConvRuntime ConvPolicy Middleware Stream StreamRelay StreamLogic StreamEnds StreamSafety TurnOrchestrator.

(** ** Parts of turns *)

Section parts.
Context `{TurnEnv}.

(** A property of every run of a part that returns, and one of every run *)
Definition part_post {A} (P : TurnWorld → Prop) (m : turn A) (Q : A → TurnWorld → Prop) : Prop :=
  ∀ t a t', P t → m t = (Some a, t') → Q a t'.

Lemma part_bind {A B} P (m : turn A) Q (k : A → turn B) R :
  part_post P m Q → (∀ a, part_post (Q a) (k a) R) → part_post P (m ≫= k) R.
Proof.
  intros Hm Hk t b t' HP. unfold mbind, turn_bind. destruct (m t) as [[a|] t1] eqn:Hmt; [|done].
  intros Hkt. by eapply Hk; [eapply Hm|].
Qed.

Lemma part_ret {A} (P : TurnWorld → Prop) (a : A) (Q : A → TurnWorld → Prop) :
  (∀ t, P t → Q a t) → part_post P (mret a) Q.
Proof. intros HPQ t a' t' HP [= <- <-]. auto. Qed.

Lemma part_consequence {A} (P P' : TurnWorld → Prop) (m : turn A) (Q Q' : A → TurnWorld → Prop) :
  part_post P' m Q' → (∀ t, P t → P' t) → (∀ a t, Q' a t → Q a t) → part_post P m Q.
Proof. intros Hm HP HQ t a t' Ht Hmt. by eapply HQ, Hm; [apply HP|]. Qed.

Lemma part_fact {A} (φ : Prop) (P : TurnWorld → Prop) (m : turn A) (Q : A → TurnWorld → Prop) :
  (φ → part_post P m Q) → part_post (λ t, φ ∧ P t) m Q.
Proof. intros Hm t a t' [Hφ HP]. by apply Hm. Qed.

Lemma part_run {A} (P : TurnWorld → Prop) (m : task A) (Q : A → TurnWorld → Prop) :
  (∀ w l, P (mkTurnWorld w l) → Q (m w).1 (mkTurnWorld (m w).2 l)) → part_post P (run m) Q.
Proof.
  intros HPQ [w l] a t' HP. unfold run. cbn. specialize (HPQ w l HP). destruct (m w) as [a' w'].
  by intros [= <- <-].
Qed.

(** ** What a part asks of the agent *)

Definition is_send (e : TurnEffect) : bool := match e with SendToAgent _ _ => true | _ => false end.
Definition is_build (e : TurnEffect) : bool := match e with BuildTask => true | _ => false end.
Definition is_release (e : TurnEffect) : bool := match e with ReleaseClaim _ => true | _ => false end.

Definition tally (P : TurnEffect → bool) (l : list TurnEffect) : nat := length (List.filter P l).

Lemma tally_app P l1 l2 : tally P (l1 ++ l2) = tally P l1 + tally P l2.
Proof. unfold tally. by rewrite List.filter_app, length_app. Qed.

(** At most [sends] messages, [builds] agents; no claim is released, the fuel suffices. *)
Record spent (sends builds : nat) (l : list TurnEffect) : Prop := {
  sp_sends : tally is_send l ≤ sends;
  sp_builds : tally is_build l ≤ builds;
  sp_releases : tally is_release l = 0;
  sp_fuel : OutOfFuel ∉ l;
}.

Definition spends {A} (sends builds : nat) (m : turn A) : Prop :=
  ∀ t, ∃ l, (m t).2.(tn_log) = t.(tn_log) ++ l ∧ spent sends builds l.

Lemma spent_nil sends builds : spent sends builds [].
Proof. split; cbn; [lia|lia|done|apply not_elem_of_nil]. Qed.

Lemma spends_bind {A B} s1 b1 s2 b2 (m : turn A) (k : A → turn B) :
  spends s1 b1 m → (∀ a, spends s2 b2 (k a)) → spends (s1 + s2) (b1 + b2) (m ≫= k).
Proof.
  intros Hm Hk t. unfold mbind, turn_bind. destruct (Hm t) as (l & Hl & [H1 H2 H3 H4]).
  destruct (m t) as [[a|] t1]; cbn in Hl.
  - destruct (Hk a t1) as (l' & Hl' & [K1 K2 K3 K4]). exists (l ++ l').
    rewrite Hl', Hl, app_assoc. split; [done|].
    split; rewrite ?tally_app; [lia|lia|lia|]. rewrite elem_of_app. tauto.
  - exists l. split; [done|]. split; [lia|lia|done|done].
Qed.

Lemma spends_more {A} s b s' b' (m : turn A) : s ≤ s' → b ≤ b' → spends s b m → spends s' b' m.
Proof. intros Hs Hb Hm t. destruct (Hm t) as (l & Hl & []). exists l. split; [done|]. split; [lia|lia|done..]. Qed.

Lemma spends_free {A} (m : turn A) : (∀ t, (m t).2.(tn_log) = t.(tn_log)) → spends 0 0 m.
Proof. intros Hm t. exists []. rewrite Hm, app_nil_r. split; [done|apply spent_nil]. Qed.

Lemma spends_run {A} (m : task A) : spends 0 0 (run m).
Proof. apply spends_free. intros [w l]. unfold run. cbn. by destruct (m w). Qed.

Lemma spends_await {A} (m : task (option A)) : spends 0 0 (await m).
Proof. apply spends_free. intros [w l]. unfold await. cbn. by destruct (m w). Qed.

Lemma spends_ret {A} (a : A) : spends 0 0 (mret a).
Proof. by apply spends_free. Qed.

Lemma spends_effect e s b :
  spent s b [e] → spends s b (effect e).
Proof. intros He t. by exists [e]. Qed.

Lemma spends_quiet e :
  is_send e = false → is_build e = false → is_release e = false → e ≠ OutOfFuel →
  spends 0 0 (effect e).
Proof.
  intros H1 H2 H3 H4. apply spends_effect. unfold tally.
  split; cbn; rewrite ?H1, ?H2, ?H3; cbn; [lia|lia|done|]. intros ?%list_elem_of_singleton. congruence.
Qed.

Lemma part_any {A} P (m : turn A) : part_post P m (λ _ _, True).
Proof. done. Qed.
End parts.

#[export] Hint Resolve spends_run spends_await spends_ret : spends.

(** A part that costs nothing, step by step *)
Ltac free :=
  repeat first
    [ progress auto with spends
    | apply spends_quiet; done
    | apply (spends_bind 0 0 0 0); [|intros ?]
    | match goal with
      | |- spends 0 0 (if ?b then _ else _) => destruct b
      | |- spends 0 0 (let x := _ in _) => progress cbv zeta
      | |- spends 0 0 (match ?x with _ => _ end) => destruct x
      end ].

Section bounds.
Context `{TurnEnv}.

Lemma spends_mode input : spends 0 0 (apply_required_runtime_mode input).
Proof. unfold apply_required_runtime_mode. free. Qed.

Lemma spends_key input : spends 0 0 (store_session_key input).
Proof. unfold store_session_key, persist_session_key. free. Qed.

Lemma spends_failure agent_id code message : spends 0 0 (record_agent_session_failure agent_id code message).
Proof. unfold record_agent_session_failure. free. Qed.

Lemma spends_success agent_id : spends 0 0 (record_agent_session_success agent_id).
Proof. unfold record_agent_session_success. free. Qed.

Lemma spends_workspace conversation_id stored resolved :
  spends 0 0 (maybe_persist_workspace conversation_id stored resolved).
Proof. unfold maybe_persist_workspace. free. Qed.

Lemma spends_evict conversation_id agent_type outcome :
  spends 0 0 (evict_acp_task_after_terminal_error conversation_id agent_type outcome).
Proof. unfold evict_acp_task_after_terminal_error, clear_model_after_model_not_found. free. Qed.

Lemma spends_send_once input defer content msg_id : spends 1 0 (send_once input defer content msg_id).
Proof.
  unfold send_once. apply (spends_bind 0 0 1 0); [apply spends_mode|intros [message|]].
  { apply (spends_more 0 0); [lia|lia|free]. }
  apply (spends_bind 1 0 0 0); [apply spends_effect; split; cbn; [lia|lia|done|];
    by intros ?%list_elem_of_singleton|intros _].
  do 2 (apply (spends_bind 0 0 0 0); [free|intros ?]).
  apply (spends_bind 0 0 0 0); [apply spends_key|intros ?]. free.
Qed.

Lemma continuation_counts max count outcome lifecycle content next_count :
  decide_continuation max count outcome lifecycle = Continue content next_count →
  next_count = count + 1 ∧ count < max.
Proof.
  unfold decide_continuation. case_bool_decide; [done|].
  destruct (terminal_is_error _); [done|]. case_bool_decide; [done|].
  destruct (Nat.leb_spec max count); [done|]. by intros [= _ <-].
Qed.

(** The fuel of the messages is enough: each continuation is counted. *)
Lemma spends_send_loop fuel input agent defer content msg_id count aggregate :
  count ≤ MAX_SYSTEM_RESPONSE_CONTINUATIONS_PER_TURN →
  MAX_SYSTEM_RESPONSE_CONTINUATIONS_PER_TURN < fuel + count →
  spends fuel 0 (send_loop fuel input agent defer content msg_id count aggregate).
Proof.
  revert content msg_id count aggregate. induction fuel as [|fuel IH];
    intros content msg_id count aggregate Hcount Hfuel; [lia|].
  cbn [send_loop]. apply (spends_bind 0 0 (S fuel) 0); [free|intros lifecycle]. cbv zeta.
  apply (spends_bind 1 0 fuel 0); [apply spends_send_once|intros [outcome|result]].
  2:{ apply (spends_more 0 0); [lia|lia|free]. }
  destruct (decide_continuation _ count outcome lifecycle) as [content' next_count|reason] eqn:Hd.
  - apply continuation_counts in Hd as [-> Hlt].
    apply (spends_bind 0 0 fuel 0); [free|intros id]. apply IH; lia.
  - apply (spends_more 0 0); [lia|lia|free].
Qed.

Lemma spends_attempt input msg_id defer : spends SEND_FUEL 1 (run_attempt input msg_id defer).
Proof.
  unfold run_attempt. apply (spends_bind 0 1 SEND_FUEL 0).
  { apply spends_effect. split; cbn; [lia|lia|done|]. by intros ?%list_elem_of_singleton. }
  intros _. apply (spends_bind 0 0 SEND_FUEL 0); [free|intros [agent|error]].
  - apply (spends_bind 0 0 SEND_FUEL 0); [apply spends_workspace|intros [error|]].
    + apply (spends_more 0 0); [lia|lia|free].
    + apply spends_send_loop; unfold SEND_FUEL; lia.
  - apply (spends_more 0 0); [lia|lia|]. cbv zeta.
    apply (spends_bind 0 0 0 0); [apply spends_failure|intros _]. free.
Qed.

Lemma spends_turn_attempt input msg_id replayed :
  spends SEND_FUEL 1 (turn_attempt input msg_id replayed).
Proof.
  unfold turn_attempt. replace SEND_FUEL with (SEND_FUEL + 0) at 1 by lia.
  apply (spends_bind SEND_FUEL 1 0 0); [apply spends_attempt|]. intros [attempt_result|result]; [|free].
  apply (spends_bind 0 0 0 0); [free|intros lifecycle]. cbv zeta.
  destruct (negb _); [free|]. destruct (decide_recovery _ _ _ _).
  - apply (spends_bind 0 0 0 0); [free|intros _].
    apply (spends_bind 0 0 0 0); [|intros _; free].
    destruct (decide_health _ _ _); [free|].
    apply (spends_bind 0 0 0 0); [apply spends_evict|intros _; free].
  - apply (spends_bind 0 0 0 0); [apply spends_evict|intros _; free].
Qed.

(** Nothing is replayed twice. *)
Lemma turn_attempt_replayed input msg_id :
  part_post (λ _, True) (turn_attempt input msg_id true) (λ step _, step ≠ Replay).
Proof.
  unfold turn_attempt. eapply part_bind; [apply part_any|].
  intros [attempt_result|result]; [|by apply part_ret].
  eapply part_bind; [apply part_any|]. intros lifecycle. cbv zeta.
  destruct (negb _); [by apply part_ret|].
  unfold decide_recovery. rewrite andb_false_r.
  do 2 (eapply part_bind; [apply part_any|intros ?]). by apply part_ret.
Qed.

Lemma spends_turn_loop input msg_id :
  spends (2 * SEND_FUEL) 2 (turn_loop TURN_FUEL input msg_id false).
Proof.
  assert (spends SEND_FUEL 1 (turn_loop 1 input msg_id true)) as Hsecond.
  { intros t. cbn [turn_loop]. unfold mbind, turn_bind.
    destruct (spends_turn_attempt input msg_id true t) as (l & Hl & Hs).
    pose proof (turn_attempt_replayed input msg_id t) as Hr.
    destruct (turn_attempt input msg_id true t) as [[[|failed message]|] t1]; cbn in *.
    - by destruct (Hr Replay t1 I eq_refl).
    - by exists l.
    - by exists l. }
  change (spends (2 * SEND_FUEL) 2 (step ← turn_attempt input msg_id false;
    match step with
    | Replay => turn_loop 1 input msg_id true
    | Ended final_failed final_error_message => mret (final_failed, final_error_message)
    end)).
  replace (2 * SEND_FUEL) with (SEND_FUEL + SEND_FUEL) by lia.
  apply (spends_bind SEND_FUEL 1 SEND_FUEL 1); [apply spends_turn_attempt|].
  intros [|failed message]; [done|]. apply (spends_more 0 0); [lia|lia|free].
Qed.
End bounds.

(** ** A turn returns when its relays do *)

Section returns.
Context `{TurnEnv}.

Definition returns {A} (m : turn A) : Prop := ∀ t, is_Some (m t).1.

Lemma returns_bind {A B} (m : turn A) (k : A → turn B) :
  returns m → (∀ a, returns (k a)) → returns (m ≫= k).
Proof.
  intros Hm Hk t. unfold mbind, turn_bind. destruct (Hm t) as [a Ha].
  destruct (m t) as [[a'|] t1]; [apply Hk|done].
Qed.

Lemma returns_run {A} (m : task A) : returns (run m).
Proof. intros t. unfold run. destruct (m _). by eexists. Qed.

Lemma returns_ret {A} (a : A) : returns (mret a).
Proof. intros t. by eexists. Qed.

Lemma returns_effect e : returns (effect e).
Proof. intros t. by eexists. Qed.

(** What the agent of each relay says comes to an end. *)
Definition agents_end : Prop := ∀ n, ∃ r, PollRecv r ∈ te_polls n ∧ decisive r = true.
End returns.

Create HintDb returns.
#[export] Hint Resolve returns_run returns_ret returns_effect : returns.

Ltac comes_back :=
  repeat first
    [ progress auto with returns
    | apply returns_bind; [|intros ?]
    | match goal with
      | |- returns (if ?b then _ else _) => destruct b
      | |- returns (let x := _ in _) => progress cbv zeta
      | |- returns (match ?x with _ => _ end) => destruct x
      | |- returns (apply_required_runtime_mode _) => unfold apply_required_runtime_mode
      | |- returns (store_session_key _) => unfold store_session_key
      | |- returns (persist_session_key _ _) => unfold persist_session_key
      | |- returns (record_agent_session_failure _ _ _) => unfold record_agent_session_failure
      | |- returns (record_agent_session_success _) => unfold record_agent_session_success
      | |- returns (maybe_persist_workspace _ _ _) => unfold maybe_persist_workspace
      | |- returns (evict_acp_task_after_terminal_error _ _ _) =>
          unfold evict_acp_task_after_terminal_error, clear_model_after_model_not_found
      | |- returns (release_turn_claim _ _) => unfold release_turn_claim
      end ].

Section turn_returns.
Context `{TurnEnv} (Hends : agents_end).

(** A relay over the polls of the environment *)
Lemma returns_relay {B} relay (k : RelayOutcome → turn B) :
  (∀ outcome, returns (k outcome)) →
  returns (polls ← run (moment te_polls);
           outcome ← await (consume_with_send_error relay polls); k outcome).
Proof.
  intros Hk t. unfold mbind, turn_bind, run, await. cbn.
  destruct (Hends t.(tn_world).(wd_tick)) as (r & Hr & Hd).
  set (w1 := mkWorld _ _ _ _ _).
  pose proof (consume_as_heard relay true (te_polls t.(tn_world).(wd_tick)) w1) as Ho.
  pose proof (heard_returns false None (te_polls t.(tn_world).(wd_tick))
    (ex_intro _ r (conj Hr Hd))) as [r' Hr'].
  cbn [negb] in Ho. destruct (heard _ _ _) as [events r'']. cbn in Hr'. subst r''.
  destruct Ho as [Ho _]. unfold consume_with_send_error.
  destruct (consume_inner relay true _ w1) as [[o|] w2]; [|done]. apply Hk.
Qed.

Lemma returns_send_once input defer content msg_id : returns (send_once input defer content msg_id).
Proof.
  unfold send_once. apply returns_bind; [comes_back|intros [message|]]; [comes_back|].
  apply returns_bind; [comes_back|intros _]. apply returns_relay. intros outcome. comes_back.
Qed.

Lemma returns_send_loop fuel input agent defer content msg_id count aggregate :
  returns (send_loop fuel input agent defer content msg_id count aggregate).
Proof.
  revert content msg_id count aggregate. induction fuel as [|fuel IH];
    intros content msg_id count aggregate; cbn [send_loop]; [comes_back|].
  pose proof returns_send_once. comes_back.
Qed.

Lemma returns_turn_attempt input msg_id replayed : returns (turn_attempt input msg_id replayed).
Proof.
  pose proof returns_send_loop. unfold turn_attempt, run_attempt. comes_back.
Qed.

Lemma returns_turn_loop fuel input msg_id replayed : returns (turn_loop fuel input msg_id replayed).
Proof.
  revert replayed. induction fuel as [|fuel IH]; intros replayed; cbn [turn_loop]; [comes_back|].
  apply returns_bind; [apply returns_turn_attempt|]. intros [|failed message]; [apply IH|comes_back].
Qed.

Lemma returns_turn input : returns (run_user_turn input).
Proof.
  unfold run_user_turn. apply returns_bind; [comes_back|intros id].
  apply returns_bind; [apply returns_turn_loop|intros final]. unfold end_of_turn. comes_back.
Qed.
End turn_returns.

(** The end of a turn: the claim is released, last of all that is asked for. *)
Lemma end_of_turn_log `{TurnEnv} input failed message t :
  ∃ r w l b, end_of_turn input failed message t =
      (Some r, mkTurnWorld w (t.(tn_log) ++ l ++ [ReleaseClaim b])) ∧
    (l = [] ∨ ∃ agent_id, l = [RecordSuccess agent_id]).
Proof.
  assert (∃ l, (if failed then mret () else record_agent_session_success
      (availability_agent_id input)) t = (Some (), mkTurnWorld t.(tn_world) (t.(tn_log) ++ l)) ∧
    (l = [] ∨ ∃ agent_id, l = [RecordSuccess agent_id])) as (l & Hl & Hcase).
  { destruct failed; [|unfold record_agent_session_success;
      destruct (availability_agent_id input) as [agent_id|]; [destruct te_feedback|]].
    2:{ exists [RecordSuccess agent_id]. eauto. }
    all: exists []; rewrite app_nil_r; destruct t; auto. }
  unfold end_of_turn, mbind, turn_bind. rewrite Hl. unfold release_turn_claim, mbind, turn_bind, run.
  cbn. destruct (complete_released_turn _ _ _ _) as [[] w]. cbn.
  eexists _, w, l, _. rewrite app_assoc. split; [reflexivity|done].
Qed.

(** C15: A turn sends at most ten messages to at most two agents, never runs out of the
    attempts and continuations it has, and returns when what its agents say comes to an end;
    it releases its claim exactly once when it returns, and not before. *)
Theorem turn_returns `{TurnEnv} input t :
  let '(r, t') := run_user_turn input t in
  (agents_end → is_Some r) ∧
  ∃ l, t'.(tn_log) = t.(tn_log) ++ l ∧ tally is_send l ≤ 10 ∧ tally is_build l ≤ 2 ∧
    OutOfFuel ∉ l ∧ tally is_release l = (if r then 1 else 0).
Proof.
  pose proof (λ He, returns_turn He input t) as Hret.
  destruct (run_user_turn input t) as [r t'] eqn:Hrun. split; [done|]. clear Hret.
  unfold run_user_turn, mbind, turn_bind in Hrun.
  assert (run mint_msg_id t = (Some (mint_msg_id t.(tn_world)).1,
    mkTurnWorld (mint_msg_id t.(tn_world)).2 t.(tn_log))) as Hmint by done.
  rewrite Hmint in Hrun. set (t0 := mkTurnWorld (mint_msg_id t.(tn_world)).2 t.(tn_log)) in Hrun.
  destruct (spends_turn_loop input (mint_msg_id t.(tn_world)).1 t0) as (l1 & Hl1 & [H1 H2 H3 H4]).
  cbn [t0 tn_log] in Hl1. change (2 * SEND_FUEL) with 10 in H1.
  destruct (turn_loop TURN_FUEL input _ false t0) as [[[failed message]|] t1];
    cbn [snd fst] in Hl1, Hrun.
  - destruct (end_of_turn_log input failed message t1) as (r1 & w & l2 & b & Hfin & Hcase).
    rewrite Hfin in Hrun. injection Hrun as <- <-. cbn. exists (l1 ++ l2 ++ [ReleaseClaim b]).
    rewrite Hl1, <- app_assoc. split; [done|]. rewrite !tally_app, !elem_of_app, H3.
    destruct Hcase as [->|[agent_id ->]]; cbn;
      (split; [lia|]; split; [lia|]; split; [|done]);
      rewrite !elem_of_cons; intros [?|[Hx|Hx]]; set_solver.
  - injection Hrun as <- <-. exists l1. done.
Qed.

(** ** What the parts of a turn do to the world *)

Section passes.
Context `{TurnEnv} (E : Effect → Prop) (w0 : World).

Definition passes {A} (m : turn A) : Prop :=
  part_post (λ t, asked E w0 t.(tn_world)) m (λ _ t, asked E w0 t.(tn_world)).

Lemma passes_bind {A B} (m : turn A) (k : A → turn B) :
  passes m → (∀ a, passes (k a)) → passes (m ≫= k).
Proof. apply part_bind. Qed.

Lemma passes_ret {A} (a : A) : passes (mret a).
Proof. by apply part_ret. Qed.

Lemma passes_effect e : passes (effect e).
Proof. intros t a t' Ht [= <- <-]. done. Qed.

Lemma passes_run {A} (m : task A) : keeps (asked E w0) m → passes (run m).
Proof. intros Hm. apply part_run. intros w l Hw. by apply Hm. Qed.

Lemma passes_moment {A} (f : nat → A) : passes (run (moment f)).
Proof. apply passes_run, asked_moment. Qed.
End passes.

Create HintDb passes.
#[export] Hint Resolve passes_ret passes_effect passes_moment : passes.

Ltac passing :=
  repeat first
    [ progress auto with passes
    | apply passes_bind; [|intros ?]
    | match goal with
      | |- passes _ _ (if ?b then _ else _) => destruct b
      | |- passes _ _ (let x := _ in _) => progress cbv zeta
      | |- passes _ _ (match ?x with _ => _ end) => destruct x
      | |- passes _ _ (run (runtime _)) => apply passes_moment
      | |- passes _ _ (run mint_msg_id) => apply passes_moment
      | |- passes _ _ (store_session_key _) => unfold store_session_key
      | |- passes _ _ (persist_session_key _ _) => unfold persist_session_key
      | |- passes _ _ (record_agent_session_failure _ _ _) => unfold record_agent_session_failure
      | |- passes _ _ (maybe_persist_workspace _ _ _) => unfold maybe_persist_workspace
      | |- passes _ _ (evict_acp_task_after_terminal_error _ _ _) =>
          unfold evict_acp_task_after_terminal_error, clear_model_after_model_not_found
      end ].

Section replay.
Context `{TurnEnv} (w0 : World).

(** The attempt may be replayed, as far as its outcome goes. *)
Definition replayable (r : result TurnAttemptResult ConversationTurnResult) : Prop :=
  match r with
  | Ok res =>
      safe_to_auto_replay res.(tar_summary) = true ∧
      terminal_retryable res.(tar_outcome).(ro_terminal) = Some true ∧
      terminal_code res.(tar_outcome).(ro_terminal) ≠ Some UserLlmProviderModelNotFound ∧
      res.(tar_agent_type) = Acp
  | Err _ => False
  end.

Lemma merged_safe a b :
  safe_to_auto_replay (merge_attempt b a) = true →
  safe_to_auto_replay a = true ∧ safe_to_auto_replay b = true.
Proof.
  destruct a as [va ta pa ea da], b as [vb tb pb eb db]. unfold safe_to_auto_replay. cbn.
  by destruct va, ta, pa, vb, tb, pb.
Qed.

(** ** One message *)

(** A message is sent and heard when the mode was set, all of which leaves no trace but that
    of its relay. *)
Lemma send_once_relay E input defer content msg_id :
  part_post (λ t, asked E w0 t.(tn_world)) (send_once input defer content msg_id)
    (λ r t, match r with
            | Err _ => True
            | Ok o => ∃ polls w, asked E w0 w ∧
                (consume_with_send_error (turn_relay input msg_id defer) polls w).1 = Some o ∧
                (∀ E', asked E' w0 (consume_with_send_error (turn_relay input msg_id defer) polls w).2 →
                       asked E' w0 t.(tn_world))
            end).
Proof.
  unfold send_once. eapply (part_bind _ _ (λ e t, e = None → asked E w0 t.(tn_world))).
  { unfold apply_required_runtime_mode. destruct (required_mode input); [|by apply part_ret].
    eapply part_bind; [apply passes_effect|intros ?].
    eapply part_bind; [apply passes_moment|]. intros [error|]; [|apply part_ret; auto].
    eapply part_bind; [apply part_any|intros ?]. by apply part_ret. }
  intros [message|]; [by apply part_ret|].
  eapply (part_consequence _ (λ t, asked E w0 t.(tn_world)));
    [|by intros t Ht; apply Ht|intros ? ? Hq; exact Hq].
  eapply part_bind; [apply passes_effect|intros ?].
  eapply part_bind; [apply passes_moment|intros polls].
  set (relay := turn_relay _ _ _).
  eapply (part_bind _ _ (λ o t, ∃ w, asked E w0 w ∧
    (consume_with_send_error relay polls w).1 = Some o ∧
    t.(tn_world) = (consume_with_send_error relay polls w).2)).
  { intros [w l] o t' Ht Hawait. unfold await in Hawait. cbn in Hawait, Ht. exists w.
    destruct (consume_with_send_error relay polls w) as [o' w']. injection Hawait as -> <-. done. }
  intros o. eapply (part_bind _ _ (λ _ t, ∃ w, asked E w0 w ∧
    (consume_with_send_error relay polls w).1 = Some o ∧
    (∀ E', asked E' w0 (consume_with_send_error relay polls w).2 → asked E' w0 t.(tn_world)))).
  - intros t [] t' (w & Hw & Ho & Ht) Hkey. exists w. split; [done|]. split; [done|].
    intros E' HE'. rewrite <- Ht in HE'.
    assert (passes E' w0 (store_session_key input)) as Hp by passing. by eapply Hp.
  - intros ?. apply part_ret. intros t (w & Hw). by exists polls, w.
Qed.

(** What does not depend on the world: the kind of the agent, and what was seen before *)
Lemma send_loop_facts fuel input agent defer content msg_id count aggregate :
  part_post (λ _, True) (send_loop fuel input agent defer content msg_id count aggregate)
    (λ r _, match r with
            | Ok res => res.(tar_agent_type) = agent.(ai_agent_type) ∧
                (safe_to_auto_replay res.(tar_summary) = true → safe_to_auto_replay aggregate = true)
            | Err _ => True
            end).
Proof.
  revert content msg_id count aggregate. induction fuel as [|fuel IH];
    intros content msg_id count aggregate; cbn [send_loop].
  { eapply part_bind; [apply part_any|intros ?]. by apply part_ret. }
  eapply part_bind; [apply part_any|intros lifecycle]. cbv zeta.
  eapply part_bind; [apply part_any|intros [outcome|result]]; [|by apply part_ret].
  destruct (decide_continuation _ _ _ _).
  - eapply part_bind; [apply part_any|intros id].
    eapply part_consequence; [apply IH|done|]. intros [res|] t Hres; [|done].
    destruct Hres as [Hty Hs]. split; [done|]. intros Hsafe. by apply Hs, merged_safe in Hsafe as [? _].
  - apply part_ret. intros _ _. split; [done|]. by intros [? _]%merged_safe.
Qed.

(** What the messages leave when all of it is safe to replay *)
Definition trace (aggregate : TurnAttemptSummary) (t : TurnWorld) : Prop :=
  safe_to_auto_replay aggregate = true → asked quiet_turn w0 t.(tn_world).

Lemma send_loop_quiet fuel input agent defer content msg_id count aggregate :
  part_post (trace aggregate)
    (send_loop fuel input agent defer content msg_id count aggregate)
    (λ r t, replayable r → asked quiet_turn w0 t.(tn_world)).
Proof.
  revert content msg_id count aggregate. induction fuel as [|fuel IH];
    intros content msg_id count aggregate t0 r t' Ht0 Hrun Hr.
  { cbn in Hrun. by injection Hrun as <- <-. }
  assert (safe_to_auto_replay aggregate = true) as Hsafe.
  { pose proof (send_loop_facts _ _ _ _ _ _ _ _ t0 r t' I Hrun) as Hfacts.
    destruct r as [res|]; [|done]. apply Hfacts, Hr. }
  specialize (Ht0 Hsafe). revert t0 r t' Ht0 Hrun Hr. cbn [send_loop].
  change (part_post (λ t, asked quiet_turn w0 t.(tn_world))
    (send_loop (S fuel) input agent defer content msg_id count aggregate)
    (λ r t, replayable r → asked quiet_turn w0 t.(tn_world))). cbn [send_loop].
  eapply part_bind; [apply passes_moment|intros lifecycle]. cbv zeta.
  eapply part_bind; [apply send_once_relay|]. intros [o|result]; [|by apply part_ret; intros ? _ []].
  eapply (part_consequence _ (trace (merge_attempt o.(ro_attempt) aggregate)));
    [| |intros ? ? Hq; exact Hq].
  - destruct (decide_continuation _ _ _ _).
    + eapply part_bind; [|intros id; apply IH]. intros t id t' Ht Hmint Hs.
      by eapply passes_moment; [apply Ht|].
    + apply part_ret. intros t Ht (Hs & _). by apply Ht.
  - intros t (polls & w & Hw & Ho & Ht) [_ Hso]%merged_safe. apply Ht.
    eapply asked_trans; [exact Hw|]. by apply (safe_attempt _ _ _ _ _ Ho).
Qed.

(** With the conversation active throughout: the relay of the first message puts off what
    could be replayed. *)
Section active.
Context (input : TurnStartInput).
Context (Hactive : ∀ n, lifecycle_for input.(ti_conversation_id) (se_runtime n) = Active).

Lemma active_never_deleting msg_id defer : never_deleting (turn_relay input msg_id defer).
Proof.
  intros _ n. specialize (Hactive n). unfold lifecycle_for, is_deleting, read_or in *.
  cbn [rl_conversation_id turn_relay].
  destruct (cv_poisoned _); [done|]. destruct (ct_shutting_down _); [done|].
  by case_bool_decide.
Qed.

(** Safe to replay: nothing was said, so no skill was asked for; a retryable error was put off. *)
Lemma safe_outcome msg_id polls w o :
  (consume_with_send_error (turn_relay input msg_id true) polls w).1 = Some o →
  safe_to_auto_replay o.(ro_attempt) = true →
  o.(ro_system_responses) = [] ∧
  (terminal_retryable o.(ro_terminal) = Some true →
   terminal_code o.(ro_terminal) ≠ Some UserLlmProviderModelNotFound →
   o.(ro_attempt).(ta_terminal_error_deferred) = true).
Proof.
  intros Ho Hs. pose proof (consume_as_heard (turn_relay input msg_id true) true polls w) as Hh.
  unfold consume_with_send_error in Ho. destruct (heard _ _ _) as [events r].
  destruct Hh as [_ Hh]. rewrite Ho in Hh. specialize (Hh (active_never_deleting _ _)).
  destruct r as [r|]; [|done]. injection Hh as ->. revert Hs.
  unfold safe_to_auto_replay, outcome_of. cbn.
  intros [[Hv%negb_true_iff Ht%negb_true_iff]%andb_prop Hp%negb_true_iff]%andb_prop.
  apply bool_decide_eq_false in Hp. rewrite Hv, Ht. split.
  - rewrite bool_decide_eq_true_2; [done|]. destruct (decide (text_of events = "")); tauto.
  - intros Hr Hc. by rewrite !bool_decide_eq_true_2.
Qed.

Lemma send_loop_silent fuel agent content msg_id :
  part_post (λ t, asked silent w0 t.(tn_world))
    (send_loop (S fuel) input agent true content msg_id 0 default_attempt)
    (λ r t, replayable r → asked silent w0 t.(tn_world)).
Proof.
  intros t0 r t' Ht0 Hrun Hr.
  assert (ai_agent_type agent = Acp) as Hacp.
  { pose proof (send_loop_facts _ _ _ _ _ _ _ _ t0 r t' I Hrun) as Hfacts.
    destruct r as [res|]; [|done]. destruct Hfacts as [<- _]. apply Hr. }
  revert t0 r t' Ht0 Hrun Hr.
  change (part_post (λ t, asked silent w0 t.(tn_world))
    (send_loop (S fuel) input agent true content msg_id 0 default_attempt)
    (λ r t, replayable r → asked silent w0 t.(tn_world))). cbn [send_loop].
  eapply (part_bind _ _ (λ l t, l = Active ∧ asked silent w0 t.(tn_world))).
  { apply part_run. intros w l Hw. split; [apply Hactive|by apply asked_moment]. }
  intros lifecycle. apply part_fact. intros ->. rewrite !bool_decide_eq_true_2 by done.
  cbv zeta. cbn [andb]. eapply part_bind; [apply (send_once_relay silent)|].
  intros [o|result]; [|by apply part_ret; intros ? _ []]. intros t r t' (polls & w & Hw & Ho & Ht) Hrun Hr.
  pose proof (safe_outcome msg_id polls w o Ho) as Hsafe.
  destruct (decide_continuation _ 0 o Active) as [content' next_count|reason] eqn:Hd.
  - unfold mbind, turn_bind in Hrun.
    destruct (run mint_msg_id t) as [[id|] t1]; [|done].
    pose proof (send_loop_facts _ _ _ _ _ _ _ _ t1 r t' I Hrun) as Hfacts.
    destruct r as [res|]; [|done]. destruct Hfacts as [_ Hs].
    destruct Hr as (Hr & _). apply Hs, merged_safe in Hr as [_ Hso].
    destruct (Hsafe Hso) as [Hnil _].
    revert Hd. unfold decide_continuation. rewrite bool_decide_eq_false_2 by tauto.
    destruct (terminal_is_error _); [done|]. by rewrite bool_decide_eq_true_2.
  - injection Hrun as <- <-. destruct Hr as (Hs & Hret & Hcode & _). cbn in Hs, Hret, Hcode.
    apply merged_safe in Hs as [_ Hso]. destruct (Hsafe Hso) as [_ Hdef]. apply Ht.
    eapply asked_trans; [exact Hw|]. apply (safe_attempt _ _ _ _ _ Ho). by apply Hdef.
Qed.
End active.
End replay.

(** A decision for a replay *)
Lemma decided_replayable `{TurnEnv} res lifecycle replayed a b c :
  decide_recovery res.(tar_agent_type) (with_attempt res.(tar_outcome) res.(tar_summary)) lifecycle
    replayed = AutoReplayOnce a b c →
  replayable (Ok res) ∧ replayed = false.
Proof.
  unfold decide_recovery. destruct (_ && _) eqn:Hb; [|done]. intros _.
  repeat (apply andb_prop in Hb as [Hb ?]). cbn in *.
  rewrite ?bool_decide_eq_true in *. rewrite negb_true_iff in *. done.
Qed.

(** ** A replay follows nothing *)

Section leaves.
Context `{TurnEnv} (w0 : World) (E : Effect → Prop).

(** An attempt that may be replayed leaves what its messages leave. *)
Lemma run_attempt_leaves input msg_id defer :
  (∀ agent, part_post (λ t, asked E w0 t.(tn_world))
     (send_loop SEND_FUEL input agent defer input.(ti_content) msg_id 0 default_attempt)
     (λ r t, replayable r → asked E w0 t.(tn_world))) →
  part_post (λ t, asked E w0 t.(tn_world)) (run_attempt input msg_id defer)
    (λ r t, replayable r → asked E w0 t.(tn_world)).
Proof.
  intros Hloop. unfold run_attempt. eapply part_bind; [apply passes_effect|intros ?].
  eapply part_bind; [apply passes_moment|intros [agent|error]].
  - assert (∀ c a b, passes E w0 (maybe_persist_workspace c a b)) as Hw by (intros; passing).
    eapply part_bind; [apply Hw|intros [error|]]; [|apply Hloop].
    eapply part_bind; [apply part_any|intros ?]. apply part_ret. by intros ? _ [].
  - cbv zeta. do 2 (eapply part_bind; [apply part_any|intros ?]). apply part_ret. by intros ? _ [].
Qed.

Lemma replay_leaves input msg_id replayed :
  (∀ defer, defer = negb replayed →
   part_post (λ t, asked E w0 t.(tn_world)) (run_attempt input msg_id defer)
     (λ r t, replayable r → asked E w0 t.(tn_world))) →
  part_post (λ t, asked E w0 t.(tn_world)) (turn_attempt input msg_id replayed)
    (λ step t, step = Replay → replayed = false ∧ asked E w0 t.(tn_world)).
Proof.
  intros Hattempt. unfold turn_attempt. eapply part_bind; [by apply Hattempt|].
  intros [res|result]; [|by apply part_ret].
  eapply (part_bind _ _ (λ _ t, replayable (Ok res) → asked E w0 t.(tn_world))).
  { apply part_run. intros w l Hw Hr. apply asked_moment. by apply Hw. }
  intros lifecycle. cbv zeta. destruct (negb (terminal_is_error _)); [by apply part_ret|].
  destruct (decide_recovery _ _ _ _) eqn:Hd.
  { do 2 (eapply part_bind; [apply part_any|intros ?]). by apply part_ret. }
  apply decided_replayable in Hd as [Hr Hrep].
  eapply (part_consequence _ (λ t, asked E w0 t.(tn_world))); [|by intros t Ht; apply Ht|].
  - assert (∀ c a o, passes E w0 (evict_acp_task_after_terminal_error c a o)) as He
      by (intros; passing).
    eapply part_bind; [apply He|intros ?]. by apply passes_ret.
  - by intros ? t Ht _.
Qed.
End leaves.

(** ** What a replay finds done *)

Section first.
Context `{TurnEnv} (l0 : list TurnEffect).

(** What the first attempt may have asked of the rest of the system *)
Definition of_first (e : TurnEffect) : Prop :=
  match e with
  | BuildTask | SetMode _ | SendToAgent _ _ | StoreWorkspace _ | StoreSessionKey _ | EvictTask => True
  | ClearSessionModel | ClearConversationModel | RecordFailure _ _ _ | RecordSuccess _
  | ReleaseClaim _ | OutOfFuel => False
  end.

Definition did (t : TurnWorld) : Prop := ∃ l, t.(tn_log) = l0 ++ l ∧ Forall of_first l.

Definition does {A} (m : turn A) : Prop := part_post did m (λ _, did).

Lemma does_bind {A B} (m : turn A) (k : A → turn B) : does m → (∀ a, does (k a)) → does (m ≫= k).
Proof. apply part_bind. Qed.

Lemma does_ret {A} (a : A) : does (mret a).
Proof. by apply part_ret. Qed.

Lemma does_effect e : of_first e → does (effect e).
Proof.
  intros He t [] t' (l & Hl & Hall) [= <-]. exists (l ++ [e]). cbn. rewrite Hl, app_assoc.
  split; [done|]. apply Forall_app. by repeat constructor.
Qed.

Lemma does_run {A} (m : task A) : does (run m).
Proof. by apply part_run. Qed.

Lemma does_await {A} (m : task (option A)) : does (await m).
Proof. intros [w l] a t' Ht. unfold await. cbn. destruct (m w). by intros [= _ <-]. Qed.
End first.

Create HintDb does.
#[export] Hint Resolve does_ret does_run does_await : does.
#[export] Hint Extern 1 (does _ (effect _)) => apply does_effect; exact I : does.

Ltac doing :=
  repeat first
    [ progress auto with does
    | apply does_bind; [|intros ?]
    | match goal with
      | |- does _ (if ?b then _ else _) => destruct b
      | |- does _ (let x := _ in _) => progress cbv zeta
      | |- does _ (match ?x with _ => _ end) => destruct x
      end ].

Section found.
Context `{TurnEnv} (l0 : list TurnEffect).

Lemma does_send_once input defer content msg_id : does l0 (send_once input defer content msg_id).
Proof.
  unfold send_once, apply_required_runtime_mode, store_session_key, persist_session_key. doing.
Qed.

(** What may be replayed; the fuel suffices for that. *)
Lemma send_loop_did fuel input agent defer content msg_id count aggregate :
  part_post (did l0) (send_loop fuel input agent defer content msg_id count aggregate)
    (λ r t, replayable r → did l0 t).
Proof.
  revert content msg_id count aggregate. induction fuel as [|fuel IH];
    intros content msg_id count aggregate; cbn [send_loop].
  { eapply part_bind; [apply part_any|intros ?]. by apply part_ret; intros ? _ []. }
  eapply part_bind; [apply does_run|intros lifecycle]. cbv zeta.
  eapply part_bind; [apply does_send_once|intros [outcome|result]]; [|by apply part_ret; intros ? _ []].
  destruct (decide_continuation _ _ _ _).
  - eapply part_bind; [apply does_run|intros id; apply IH].
  - by apply part_ret.
Qed.

Lemma run_attempt_did input msg_id defer :
  part_post (did l0) (run_attempt input msg_id defer) (λ r t, replayable r → did l0 t).
Proof.
  unfold run_attempt. eapply part_bind; [by apply does_effect|intros ?].
  eapply part_bind; [apply does_run|intros [agent|error]].
  - assert (∀ c a b, does l0 (maybe_persist_workspace c a b)) as Hw
      by (intros; unfold maybe_persist_workspace; doing).
    eapply part_bind; [apply Hw|intros [error|]]; [|apply send_loop_did].
    eapply part_bind; [apply part_any|intros ?]. apply part_ret. by intros ? _ [].
  - cbv zeta. do 2 (eapply part_bind; [apply part_any|intros ?]). apply part_ret. by intros ? _ [].
Qed.

Lemma turn_attempt_did input msg_id replayed :
  part_post (did l0) (turn_attempt input msg_id replayed) (λ step t, step = Replay → did l0 t).
Proof.
  unfold turn_attempt. eapply part_bind; [apply run_attempt_did|].
  intros [res|result]; [|by apply part_ret].
  eapply (part_bind _ _ (λ _ t, replayable (Ok res) → did l0 t)).
  { apply part_run. intros w l Hw Hr. by apply Hw. }
  intros lifecycle. cbv zeta. destruct (negb (terminal_is_error _)); [by apply part_ret|].
  destruct (decide_recovery _ _ _ _) eqn:Hd.
  { do 2 (eapply part_bind; [apply part_any|intros ?]). by apply part_ret. }
  apply decided_replayable in Hd as [Hr _].
  eapply (part_consequence _ (did l0)); [|by intros t Ht; apply Ht|].
  - assert (does l0 (evict_acp_task_after_terminal_error input.(ti_conversation_id)
      res.(tar_agent_type) res.(tar_outcome))) as He.
    { unfold evict_acp_task_after_terminal_error, clear_model_after_model_not_found.
      destruct Hr as (_ & _ & Hcode & _).
      rewrite !(bool_decide_eq_true_2 (terminal_code _ ≠ _)) by done. doing. }
    eapply part_bind; [apply He|intros ?]. by apply does_ret.
  - by intros ? t Ht _.
Qed.
End found.

