(* ===== verification/TurnTold.v ===== *)
(** * Conversation: a turn that fails is told

    While the conversation stays active, a turn that ends in failure has forwarded the error of
    its agent, or given a tip of it to store ([failed_turn_is_told]); a continuation is decided
    with the lifecycle read before the message it continues. *)
From S2P Require Import Prelude Text Storage ConvRuntime ConvPolicy Middleware Stream StreamRelay StreamLogic StreamEnds StreamSafety TurnOrchestrator TurnProps.

Section told.
Context `{TurnEnv} (input : TurnStartInput).
Context (Hactive : ∀ n, lifecycle_for input.(ti_conversation_id) (se_runtime n) = Active).
Context (Hser : ∀ data, se_event_serializes (EvError data) = true).

Abbreviation past w0 := (λ t : TurnWorld, asked anything w0 t.(tn_world)).

(** What was told stays told. *)
Lemma part_told {A} w0 (m : turn A) :
  (∀ w, passes anything w m) →
  part_post (λ t, told w0 t.(tn_world)) m (λ _ t, told w0 t.(tn_world)).
Proof.
  intros Hm t a t' Ht Hmt. eapply told_later; [exact Ht|].
  eapply (Hm t.(tn_world)); [apply asked_start|exact Hmt].
Qed.

Lemma passes_tip w0 conversation_id err code :
  passes anything w0 (run (persist_and_broadcast_send_failure_tip conversation_id err code)).
Proof.
  apply passes_run. unfold persist_and_broadcast_send_failure_tip, persist_send_failure_tip.
  steps; done.
Qed.

Lemma passes_key w0 : passes anything w0 (store_session_key input).
Proof. passing. Qed.

Lemma passes_evict w0 c a o : passes anything w0 (evict_acp_task_after_terminal_error c a o).
Proof. passing. Qed.

(** Being active, the conversation takes the tip of a failure. *)
Lemma tip_is_told w0 err code :
  part_post (past w0)
    (run (persist_and_broadcast_send_failure_tip input.(ti_conversation_id) err code))
    (λ _ t, told w0 t.(tn_world)).
Proof.
  apply part_run. intros w l Hw. cbn [tn_world] in *.
  eapply told_earlier; [exact Hw|].
  assert (allows input.(ti_conversation_id) WriteSendFailureTip (se_runtime w.(wd_tick)) = true)
    as Hallow by (unfold allows, decide_write; by rewrite Hactive).
  unfold persist_and_broadcast_send_failure_tip, persist_send_failure_tip.
  unfold mbind, task_bind, runtime, moment. cbn. rewrite Hallow. cbn.
  match goal with |- context [insert_message ?row ?w1] =>
    set (tip := row); set (w1' := w1) end.
  assert (∃ r t, insert_message tip w1' = (r, mkWorld (S w1'.(wd_tick)) t
    (w.(wd_writes) ++ [InsertMessage tip]) w.(wd_frames) w.(wd_replies))) as (r & t & ->).
  { unfold insert_message, log_write, statement, mbind, task_bind. cbn.
    destruct (if se_fails _ then _ else _) as [r t]. by exists r, t. }
  right. exists [InsertMessage tip], (InsertMessage tip).
  split; [|split; [by left|done]]. by destruct r.
Qed.

(** The relay of a message leaves its error told or put off. *)
Lemma relay_told_or_deferred w0 msg_id defer polls w o :
  asked anything w0 w →
  (consume_with_send_error (turn_relay input msg_id defer) polls w).1 = Some o →
  terminal_is_error o.(ro_terminal) = true →
  (o.(ro_attempt).(ta_terminal_error_deferred) = false ∧
     told w0 (consume_with_send_error (turn_relay input msg_id defer) polls w).2) ∨
  (o.(ro_attempt).(ta_terminal_error_deferred) = true ∧
     is_Some o.(ro_attempt).(ta_terminal_error)).
Proof.
  intros Hw Ho He. destruct (ta_terminal_error_deferred (ro_attempt o)) eqn:Hd; [right|left].
  - split; [done|]. pose proof (consume_as_heard (turn_relay input msg_id defer) true polls w) as Hh.
    unfold consume_with_send_error in Ho. destruct (heard _ _ _) as [events r].
    destruct Hh as [_ Hh]. rewrite Ho in Hh.
    specialize (Hh (active_never_deleting input Hactive msg_id defer)).
    destruct r as [r|]; [|done]. injection Hh as ->. cbn in *.
    destruct r as [event| |]; [|done..]. destruct event; try done.
  - split; [done|]. eapply told_earlier; [exact Hw|]. by apply relay_tells with o.
Qed.

(** What is told when an attempt fails, or is going to be *)
Definition loud w0 (o : RelayOutcome) (t : TurnWorld) : Prop :=
  terminal_is_error o.(ro_terminal) = true →
  (o.(ro_attempt).(ta_terminal_error_deferred) = false ∧ told w0 t.(tn_world)) ∨
  (o.(ro_attempt).(ta_terminal_error_deferred) = true ∧
     is_Some o.(ro_attempt).(ta_terminal_error)).

Lemma loud_later w0 o t t' :
  loud w0 o t → asked anything t.(tn_world) t'.(tn_world) → loud w0 o t'.
Proof.
  intros Hl Ha He. destruct (Hl He) as [[Hd Ht]|Hd]; [left|by right].
  split; [done|]. by eapply told_later.
Qed.

(** Of a failed part, the failure is told; of another, its past is kept and [P] holds. *)
Definition or_told {A} w0 (P : A → TurnWorld → Prop) (r : result A ConversationTurnResult)
    (t : TurnWorld) : Prop :=
  match r with
  | Ok a => asked anything w0 t.(tn_world) ∧ P a t
  | Err _ => told w0 t.(tn_world)
  end.

Lemma part_past {A} w0 (m : turn A) (Hm : passes anything w0 m) :
  part_post (past w0) m (λ _, past w0).
Proof. exact Hm. Qed.

Lemma mode_told w0 :
  part_post (past w0) (apply_required_runtime_mode input)
    (λ e t, match e with Some _ => told w0 t.(tn_world) | None => past w0 t end).
Proof.
  unfold apply_required_runtime_mode. destruct (required_mode input); [|by apply part_ret].
  eapply part_bind; [apply passes_effect|intros ?].
  eapply part_bind; [apply passes_moment|]. intros [error|]; [|apply part_ret; auto].
  eapply part_bind; [apply tip_is_told|intros ?]. apply part_ret. auto.
Qed.

Lemma send_once_told w0 defer content msg_id :
  part_post (past w0) (send_once input defer content msg_id) (or_told w0 (loud w0)).
Proof.
  unfold send_once. eapply part_bind; [apply mode_told|].
  intros [message|]; [by apply part_ret|].
  eapply part_bind; [apply passes_effect|intros ?].
  eapply part_bind; [apply passes_moment|intros polls].
  eapply (part_bind _ _ (λ o t, past w0 t ∧ loud w0 o t)).
  { intros [w l] o t' Ht Hawait. unfold await in Hawait. cbn in Hawait, Ht.
    pose proof (relay_told_or_deferred w0 msg_id defer polls w o Ht) as Hr.
    pose proof (relay_past (turn_relay input msg_id defer)
      (heard (negb true) None polls) initial_relay_state w0 w Ht) as Hp.
    unfold consume_with_send_error, consume_inner in Hawait, Hr.
    rewrite relay_loop_heard in Hawait, Hr by done. cbn [ch_send_error_done ch_pending_send_error] in *.
    destruct (pass _ _ _ w) as [o' w']. injection Hawait as -> <-. split; [exact Hp|].
    intros He. by apply Hr. }
  intros o. eapply (part_bind _ _ (λ _ t, past w0 t ∧ loud w0 o t)).
  - intros t [] t' [Ht Hl] Hkey. assert (asked anything t.(tn_world) t'.(tn_world)) as Ha.
    { eapply passes_key; [apply asked_start|exact Hkey]. }
    split; [by eapply asked_trans|]. by eapply loud_later.
  - intros ?. by apply part_ret.
Qed.

Lemma send_loop_told w0 fuel agent defer content msg_id count aggregate :
  count ≤ MAX_SYSTEM_RESPONSE_CONTINUATIONS_PER_TURN →
  MAX_SYSTEM_RESPONSE_CONTINUATIONS_PER_TURN < fuel + count →
  part_post (past w0) (send_loop fuel input agent defer content msg_id count aggregate)
    (or_told w0 (λ res, loud w0 res.(tar_outcome))).
Proof.
  revert content msg_id count aggregate. induction fuel as [|fuel IH];
    intros content msg_id count aggregate Hcount Hfuel; [lia|]. cbn [send_loop].
  eapply part_bind; [apply passes_moment|intros lifecycle]. cbv zeta.
  eapply part_bind; [apply send_once_told|]. intros [o|result]; [|by apply part_ret].
  destruct (decide_continuation _ count o lifecycle) as [content' next_count|reason] eqn:Hd.
  - apply continuation_counts in Hd as [-> Hlt].
    eapply (part_bind _ _ (λ _, past w0)); [|intros id; apply IH; lia].
    intros t id t' [Ht _] Hid. by eapply passes_moment; [exact Ht|].
  - by apply part_ret.
Qed.

Lemma run_attempt_told w0 msg_id defer :
  part_post (past w0) (run_attempt input msg_id defer)
    (or_told w0 (λ res, loud w0 res.(tar_outcome))).
Proof.
  unfold run_attempt. eapply part_bind; [apply passes_effect|intros ?].
  eapply part_bind; [apply passes_moment|intros [agent|error]].
  - assert (∀ c a b, passes anything w0 (maybe_persist_workspace c a b)) as Hw by (intros; passing).
    eapply part_bind; [apply Hw|intros [error|]].
    + eapply part_bind; [apply tip_is_told|intros ?]. by apply part_ret.
    + apply send_loop_told; unfold SEND_FUEL; lia.
  - cbv zeta. assert (∀ a c m, passes anything w0 (record_agent_session_failure a c m)) as Hf
      by (intros; passing).
    eapply part_bind; [apply Hf|intros ?].
    eapply part_bind; [apply tip_is_told|intros ?]. by apply part_ret.
Qed.

(** A failed end is told; before a replay, the past is kept. *)
Definition step_told w0 (step : TurnStep) (t : TurnWorld) : Prop :=
  match step with
  | Replay => past w0 t
  | Ended true _ => told w0 t.(tn_world)
  | Ended false _ => True
  end.

Lemma turn_attempt_told w0 msg_id replayed :
  part_post (past w0) (turn_attempt input msg_id replayed) (step_told w0).
Proof.
  unfold turn_attempt. eapply part_bind; [apply run_attempt_told|].
  intros [res|result]; [|apply part_ret; intros t Ht; by destruct (ctr_status result)].
  eapply (part_bind _ _ (λ _ t, past w0 t ∧ loud w0 res.(tar_outcome) t)).
  { apply part_run. intros w l [Hw Hl]. split; [by apply asked_moment|].
    eapply loud_later; [exact Hl|]. apply asked_moment, asked_start. }
  intros lifecycle. cbv zeta.
  destruct (terminal_is_error (ro_terminal (tar_outcome res))) eqn:He; cbn [negb];
    [|by apply part_ret].
  destruct (decide_recovery _ _ _ _).
  2:{ eapply (part_bind _ _ (λ _, past w0)); [|intros ?; by apply part_ret].
      intros t a t' [Ht _] Hev. by eapply passes_evict. }
  eapply (part_bind _ _ (λ _ t, told w0 t.(tn_world))).
  { intros t [] t' [Ht Hl] Hrun. destruct (Hl He) as [[Hd Htold]|[Hd [data Hdata]]].
    - rewrite Hd in Hrun. by injection Hrun as <-.
    - rewrite Hd, Hdata in Hrun. by eapply tip_is_told. }
  intros ?. eapply (part_bind _ _ (λ _ t, told w0 t.(tn_world))); [apply part_told|intros ?; by apply part_ret].
  intros w. destruct (decide_health _ _ _); [apply passes_ret|].
  apply passes_bind; [apply passes_evict|]. intros ?. apply passes_ret.
Qed.

Definition loop_told w0 (final : bool * option string) (t : TurnWorld) : Prop :=
  final.1 = true → told w0 t.(tn_world).

Lemma turn_loop_told w0 msg_id :
  part_post (past w0) (turn_loop TURN_FUEL input msg_id false) (loop_told w0).
Proof.
  change (part_post (past w0) (step ← turn_attempt input msg_id false;
    match step with
    | Replay => step ← turn_attempt input msg_id true;
                match step with
                | Replay => turn_loop 0 input msg_id true
                | Ended final_failed final_error_message => mret (final_failed, final_error_message)
                end
    | Ended final_failed final_error_message => mret (final_failed, final_error_message)
    end) (loop_told w0)).
  assert (∀ failed message, part_post (step_told w0 (Ended failed message))
    (mret (failed, message)) (loop_told w0)) as Hended.
  { intros [] message; apply part_ret; intros t Ht; [by intros _|by intros [=]]. }
  eapply part_bind; [apply turn_attempt_told|]. intros [|failed message]; [|apply Hended].
  eapply (part_bind _ _ (λ step t, step ≠ Replay ∧ step_told w0 step t)).
  { intros t step t' Ht Hrun. split; [by eapply turn_attempt_replayed|].
    by eapply turn_attempt_told. }
  intros step. apply part_fact. intros Hstep. destruct step; [done|]. apply Hended.
Qed.

Lemma run_user_turn_told w0 :
  part_post (past w0) (run_user_turn input)
    (λ result t, result.(ctr_status) = TurnFailed → told w0 t.(tn_world)).
Proof.
  unfold run_user_turn. eapply part_bind; [apply passes_moment|intros msg_id].
  eapply part_bind; [apply turn_loop_told|]. intros [[] message]; cbn [fst snd].
  2:{ intros t result t' _ Hrun. unfold end_of_turn, mbind, turn_bind in Hrun.
      repeat match type of Hrun with context [match ?x with _ => _ end] =>
        destruct x as [[?|] ?]; [|done] end. by injection Hrun as <- _. }
  eapply (part_consequence _ (λ t, told w0 t.(tn_world)) _ _ (λ _ t, told w0 t.(tn_world)));
    [|by intros t Ht; apply Ht|by intros ? ? Ht _].
  apply part_told. intros w. unfold end_of_turn, release_turn_claim. passing.
  apply passes_run. unfold complete_released_turn, complete_turn, publish. steps; done.
Qed.
End told.

(** C13: While the conversation stays active, a turn that comes back failed is told: the event
    of its agent's error was forwarded, or a tip of the failure was given to store, be it the
    error of the agent, one that was put off and then not replayed, the error of the second
    attempt, or a failure on the way to the agent. *)
Theorem failed_turn_is_told `{TurnEnv} input result t t' :
  (∀ n, lifecycle_for input.(ti_conversation_id) (se_runtime n) = Active) →
  (∀ data, se_event_serializes (EvError data) = true) →
  run_user_turn input t = (Some result, t') → result.(ctr_status) = TurnFailed →
  told t.(tn_world) t'.(tn_world).
Proof.
  intros Hactive Hser Hrun Hfailed.
  by eapply (run_user_turn_told input Hactive Hser); [apply asked_start|exact Hrun|].
Qed.
