(* ===== verification/StreamDemo.v ===== *)
(** * Conversation: turns on concrete inputs

    A database that works, an agent that says little: the hypotheses of the theorems on the
    relay and on the turn hold there, and the runs show what the code does. *)
From S2P Require Import Prelude Text Storage ConvRuntime ConvPolicy Middleware Stream StreamRelay StreamLogic StreamEnds StreamSafety StreamStore TurnOrchestrator TurnProps TurnTold.

Module StreamDemo.
#[local] Existing Instance plain_values.

(** ** An environment; [fails] and [state] are its troubles. *)

Definition stream_env (fails : nat → bool) (state : nat → ConversationRuntimeStateService) :
    StreamEnv := {|
  se_values := plain_values;
  se_runtime := state;
  se_others _ t := t;
  se_fails := fails;
  se_now n := Z.of_nat n;
  se_id n := "m" +:+ pretty n;
  se_event_serializes _ := true;
  error_value data := PString data.(ed_message);
  tip_type_value _ := PString "info";
  tool_call_text data := data.(tcd_call_id);
  acp_tool_call_text data := data.(acd_tool_call_id);
  tool_group_text entries := String.concat "," (tg_name <$> entries);
  json_patch _ new := Some new;
  json_keep _ new _ := Some new;
|}.

Definition good : StreamEnv := stream_env (λ _, false) (λ _, default_service).

Definition start : World :=
  mkWorld 0 (mkTables ∅ {["conv" := mkConversationColumns None 0]}) [] [] [].

Definition relay : StreamRelay :=
  mkRelay "conv" "reply" "turn" None [] true (mkAdapter "conv" "reply" true) true true None.

Definition played (env : StreamEnv) (self : StreamRelay) (polls : list (@Poll env.(@se_values)))
    (w : @World env.(@se_values)) : option RelayOutcome * @World env.(@se_values) :=
  @consume_inner env self true polls w.

(** ** A reply in two runs *)

Definition a_tool_call : ToolCallEventData :=
  mkToolCall "call" "ls" PNull ToolCompleted None None None.

Definition two_runs : list Poll :=
  [PollRecv (RecvEvent (EvText "Hello ")); PollRecv (RecvEvent (EvText "world")); PollEmpty;
   PollRecv (RecvEvent (EvToolCall a_tool_call)); PollRecv (RecvEvent (EvText "Done."));
   PollRecv (RecvEvent (EvFinish None)); PollRecv (RecvEvent (EvText "late"))].

Lemma good_calm : @calm good relay.
Proof.
  split; try done; [by left|..].
  - intros n n' [= Heq]. exact (inj pretty _ _ Heq).
Qed.

Lemma call_not_owned : ¬ @owned good relay "call".
Proof. intros [Heq|[n Heq]]; discriminate Heq. Qed.

Example reply_is_stored_witness :
  @reply_done good relay "finish" "Hello worldDone." ["Hello world"; "Done."]
    (played good relay two_runs start).2.
Proof.
  apply (@reply_is_stored good relay true two_runs start (RecvEvent (EvFinish None))).
  - exact good_calm.
  - reflexivity.
  - intros id _. reflexivity.
  - repeat constructor. exact call_not_owned.
  - reflexivity.
  - discriminate.
Defined.

Definition contents (w : World) : list (string * string * option string * bool) :=
  (λ row : string * MessageRow,
     (row.1, row.2.(mg_content), row.2.(mg_status), row.2.(mg_hidden))) <$>
    map_to_list w.(wd_tables).(tb_messages).


Example two_runs_stored :
  contents (played good relay two_runs start).2 =
    [("call", "call", Some "finish", false);
     ("m10", "{content:'Done.',}", Some "finish", false);
     ("reply", "{content:'Hello world',}", Some "finish", false)].
Proof. vm_compute. reflexivity. Qed.

(** ** The end of a relay *)

Definition overloaded : AgentStreamErrorData :=
  mkAgentStreamErrorData "overloaded" (Some UserLlmProviderRateLimited) None None None (Some true)
    None None.

Example relay_returns_witness :
  is_Some (played good relay [PollRecv (RecvEvent (EvText "Hm")); PollEmpty;
    PollSend (Some (mkAgentSendError overloaded))] start).1.
Proof.
  apply (@relay_returns good relay true). right. split; [reflexivity|]. split.
  - intros n Hin. repeat (apply elem_of_cons in Hin as [Heq|Hin]; [discriminate Heq|]).
    apply elem_of_nil in Hin. exact Hin.
  - exists (mkAgentSendError overloaded), [PollRecv (RecvEvent (EvText "Hm")); PollEmpty], [].
    split; [reflexivity|]. intros error Hin.
    repeat (apply elem_of_cons in Hin as [Heq|Hin]; [discriminate Heq|]).
    apply elem_of_nil in Hin. exact Hin.
Defined.

(** A deferred error leaves no row and no frame. *)
Example safe_attempt_said_nothing_witness :
  ∃ o, (played good relay [PollRecv (RecvEvent (EvError overloaded))] start).1 = Some o ∧
    @asked good silent start (played good relay [PollRecv (RecvEvent (EvError overloaded))] start).2.
Proof.
  destruct (played good relay [PollRecv (RecvEvent (EvError overloaded))] start).1 as [o|] eqn:Ho;
    [|discriminate Ho].
  exists o. split; [reflexivity|].
  apply (@safe_attempt_said_nothing good relay true _ start o Ho).
  assert (Hd : (ta_terminal_error_deferred ∘ ro_attempt) <$>
    (played good relay [PollRecv (RecvEvent (EvError overloaded))] start).1 = Some true)
    by (vm_compute; reflexivity).
  rewrite Ho in Hd. injection Hd as Hd. exact Hd.
Defined.

(** ** A conversation that is being deleted *)

Definition going : StreamEnv :=
  stream_env (λ _, false) (λ _, (mark_deleting "conv" default_service).2).

Example relay_respects_lifecycle_witness :
  @asked going (only_the_end relay) start (played going relay two_runs start).2.
Proof.
  apply (@relay_respects_lifecycle going relay start two_runs
    (mkChannels false None) initial_relay_state); [reflexivity|reflexivity|intros _; reflexivity|reflexivity|].
  intros n _. reflexivity.
Defined.

(** ** What goes wrong *)

(** The insert of a first flush fails once; the segment counts as stored, later updates find no
    row, and the first run of the reply is never stored, though nothing else fails. *)
Definition long_then_short : list (@Poll plain_values) :=
  repeat (PollRecv (RecvEvent (EvText "x"))) 20 ++
  [PollRecv (RecvEvent (EvToolCall a_tool_call)); PollRecv (RecvEvent (EvText "Done."));
   PollRecv (RecvEvent (EvFinish None))].

Definition one_failure : StreamEnv := stream_env (λ n, n =? 22) (λ _, default_service).

Example failed_flush_loses_the_run :
  (contents (played good relay long_then_short start).2,
   contents (played one_failure relay long_then_short start).2) =
  ([("call", "call", Some "finish", false);
    ("m30", "{content:'Done.',}", Some "finish", false);
    ("reply", "{content:'xxxxxxxxxxxxxxxxxxxx',}", Some "finish", false)],
   [("call", "call", Some "finish", false);
    ("m30", "{content:'Done.',}", Some "finish", false)]).
Proof. vm_compute. reflexivity. Qed.

(** The identifier of a tool call is the key of its row: an agent that uses one again in another
    conversation rewrites the row of the first, and the second has none. *)
Definition other_relay : StreamRelay :=
  mkRelay "conv2" "reply2" "turn2" None [] true (mkAdapter "conv2" "reply2" true) true true None.

Definition after_two_runs : @World plain_values :=
  let w := (played good relay two_runs start).2 in
  mkWorld w.(wd_tick)
    (mkTables w.(wd_tables).(tb_messages)
       (<["conv2" := mkConversationColumns None 0]> w.(wd_tables).(tb_conversations)))
    w.(wd_writes) w.(wd_frames) w.(wd_replies).

Definition again : ToolCallEventData :=
  mkToolCall "call" "rm" PNull ToolError None None None.

Example reused_call_id_rewrites_other_row :
  (λ row : MessageRow, (row.(mg_conversation_id), row.(mg_status))) <$>
    (played good other_relay [PollRecv (RecvEvent (EvToolCall again));
       PollRecv (RecvEvent (EvFinish None))] after_two_runs).2.(wd_tables).(tb_messages) !! "call" =
  Some ("conv", Some "error").
Proof. vm_compute. reflexivity. Qed.

(** ** Turns *)

(** The agent of a turn: what it says to each message, in order; [others] decides the rest. *)
Definition turn_env (env : StreamEnv) (says : nat → list (@Poll env.(@se_values))) : TurnEnv := {|
  te_stream := env;
  te_build _ := Ok (mkAgentInstance Acp "/w");
  te_polls := says;
  te_set_mode _ := None;
  te_session_key _ := None;
  te_store_workspace _ := None;
  te_summary _ := summary_from_parts "conv" None false 0 default_service;
  te_skill_resolver := Some (λ names, (λ name, mkLoadedAgentSkill name "body") <$> names);
  te_feedback := true;
  te_error_code_text _ := "code";
|}.

Definition a_turn : TurnStartInput :=
  mkTurnStartInput "conv" "Hi" None (Some "agent") ["a"] "/w" "turn"
    (mkTurnClaim "conv" "turn" false) None.

(** The agent is overloaded once, then answers. *)
Definition once_overloaded : TurnEnv :=
  turn_env good (λ n, if n <? 8 then [PollRecv (RecvEvent (EvError overloaded))]
                      else two_runs).

Definition turn_start : @TurnWorld plain_values := mkTurnWorld start [].

Example overloaded_once :
  let '(r, t) := @run_user_turn once_overloaded a_turn turn_start in
  r = Some (mkTurnResult TurnCompleted None) ∧
  t.(tn_log) = [BuildTask; SendToAgent "Hi" "m0"; EvictTask; BuildTask; SendToAgent "Hi" "m0";
                RecordSuccess "agent"; ReleaseClaim false] ∧
  contents t.(tn_world) =
    [("call", "call", Some "finish", false);
     ("m20", "{content:'Done.',}", Some "finish", false);
     ("m0", "{content:'Hello world',}", Some "finish", false)].
Proof. vm_compute. split; [reflexivity|]. split; reflexivity. Qed.

Example turn_returns_witness :
  is_Some (@run_user_turn once_overloaded a_turn turn_start).1.
Proof.
  pose proof (@turn_returns once_overloaded a_turn turn_start) as Hret.
  destruct (@run_user_turn once_overloaded a_turn turn_start) as [r t].
  destruct Hret as [Hret _]. apply Hret. intros n. cbn [te_polls once_overloaded turn_env].
  destruct (n <? 8).
  - exists (RecvEvent (EvError overloaded)). split; [left|reflexivity].
  - exists (RecvEvent (EvFinish None)). split; [|reflexivity].
    do 5 right. left.
Defined.


(** The agent is overloaded twice. *)
Definition always_overloaded : TurnEnv :=
  turn_env good (λ _, [PollRecv (RecvEvent (EvError overloaded))]).

Example failed_turn_is_told_witness :
  ∃ t', @run_user_turn always_overloaded a_turn turn_start =
      (Some (mkTurnResult TurnFailed (Some "overloaded")), t') ∧ @told good start t'.(tn_world).
Proof.
  destruct (@run_user_turn always_overloaded a_turn turn_start) as [r t'] eqn:Hrun.
  assert (Hr : (@run_user_turn always_overloaded a_turn turn_start).1 =
    Some (mkTurnResult TurnFailed (Some "overloaded"))) by (vm_compute; reflexivity).
  rewrite Hrun in Hr. cbn [fst] in Hr. subst r. exists t'. split; [reflexivity|].
  apply (@failed_turn_is_told always_overloaded a_turn (mkTurnResult TurnFailed (Some "overloaded"))
    turn_start t'); [reflexivity|reflexivity|exact Hrun|reflexivity].
Defined.

(** The turn is cancelled while the agent answers; the answer asks for a skill, and the
    continuation is sent all the same. *)
Definition cancelled_at_8 : StreamEnv :=
  stream_env (λ _, false) (λ n, if n <? 8 then default_service
                                else mark_cancelling "conv" default_service).

Definition asks_for_skill : TurnEnv :=
  turn_env cancelled_at_8 (λ n, if n <? 8
    then [PollRecv (RecvEvent (EvText "[LOAD_SKILL: a]")); PollRecv (RecvEvent (EvFinish None))]
    else [PollRecv (RecvEvent (EvText "ok")); PollRecv (RecvEvent (EvFinish None))]).

Example continuation_after_cancel :
  (@run_user_turn asks_for_skill a_turn turn_start).2.(tn_log) =
    [BuildTask; SendToAgent "Hi" "m0"; SendToAgent ("[Skill: a]" +:+ newline +:+ "body") "m13";
     RecordSuccess "agent"; ReleaseClaim false] ∧
  ∀ n, 8 ≤ n → lifecycle_for "conv" (@se_runtime cancelled_at_8 n) = Cancelling.
Proof.
  split; [vm_compute; reflexivity|]. intros n Hn. cbn [se_runtime cancelled_at_8 stream_env].
  destruct (Nat.ltb_spec n 8); [lia|reflexivity].
Qed.
End StreamDemo.
