(* ===== verification/ConvPages.v ===== *)
(** * Conversation: the pages of a history

    Models [list_messages_page], [page_with_flags] and [get_message] of
    [aionui-db/src/repository/sqlite_conversation.rs], [message_cursor.rs],
    [row_to_message_response] of [convert.rs] and [list_messages] and [get_message] of
    [service.rs] of [aionui-conversation].  The statements of one page read the same tables.
    Of the conversation, only the owner is read.  A cursor can always be written as JSON. *)
From Stdlib Require Import Ascii.
From S2P Require Import Prelude Text Storage Stream.

(** ** [aionui-db/src/repository/conversation.rs] *)

(** [mc] = [MessagePageCursor] *)
Record MessagePageCursor := mkCursor { mc_created_at : Z; mc_id : string }.

#[global] Instance MessagePageCursor_eq_dec : EqDecision MessagePageCursor.
Proof. solve_decision. Defined.

Inductive MessagePageDirection :=
  | InitialLatest
  | Before (cursor : MessagePageCursor)
  | After (cursor : MessagePageCursor)
  | Anchor (message_id : string).

(** [mpp] = [MessagePageParams] *)
Record MessagePageParams := mkPageParams {
  mpp_limit : nat;
  mpp_direction : MessagePageDirection;
}.

(** [mp] = [MessagePageResult] *)
Record MessagePageResult := mkPageResult {
  mp_items : list MessageRow;
  mp_has_more_before : bool;
  mp_has_more_after : bool;
}.

(** [MessagePageCursor::from] *)
Definition cursor_of (row : MessageRow) : MessagePageCursor :=
  mkCursor row.(mg_created_at) row.(mg_id).

(** ** The statements

    The text of the database is compared by its bytes. *)

(** [created_at < ? OR (created_at = ? AND id < ?)] *)
Definition precedes (a b : MessagePageCursor) : Prop :=
  (a.(mc_created_at) < b.(mc_created_at))%Z ∨
  a.(mc_created_at) = b.(mc_created_at) ∧ String.le a.(mc_id) b.(mc_id) ∧ a.(mc_id) ≠ b.(mc_id).

#[global] Instance precedes_dec a b : Decision (precedes a b).
Proof. unfold precedes. apply _. Defined.

(** [ORDER BY created_at ASC, id ASC] *)
Definition row_le (r1 r2 : MessageRow) : Prop := ¬ precedes (cursor_of r2) (cursor_of r1).

#[global] Instance row_le_dec r1 r2 : Decision (row_le r1 r2).
Proof. unfold row_le. apply _. Defined.

Definition ascending (rows : list MessageRow) : list MessageRow := merge_sort row_le rows.
Definition descending (rows : list MessageRow) : list MessageRow := reverse (ascending rows).

(** [conversation_id = ? AND type NOT IN ('cron_trigger', 'skill_suggest')] *)
Definition is_visible (conv_id : string) (row : MessageRow) : Prop :=
  row.(mg_conversation_id) = conv_id ∧ row.(mg_type) ∉ ["cron_trigger"; "skill_suggest"].

#[global] Instance is_visible_dec conv_id row : Decision (is_visible conv_id row).
Proof. unfold is_visible. apply _. Defined.

Definition visible (conv_id : string) (t : Tables) : list MessageRow :=
  filter (is_visible conv_id) (map_to_list t.(tb_messages)).*2.

Definition visible_before (conv_id : string) (cursor : MessagePageCursor) (t : Tables) :
    list MessageRow :=
  filter (λ row, precedes (cursor_of row) cursor) (visible conv_id t).
Definition visible_after (conv_id : string) (cursor : MessagePageCursor) (t : Tables) :
    list MessageRow :=
  filter (λ row, precedes cursor (cursor_of row)) (visible conv_id t).

Definition visible_message_exists_before (conv_id : string) (cursor : MessagePageCursor)
    (t : Tables) : bool := bool_decide (visible_before conv_id cursor t ≠ []).
Definition visible_message_exists_after (conv_id : string) (cursor : MessagePageCursor)
    (t : Tables) : bool := bool_decide (visible_after conv_id cursor t ≠ []).

Definition page_with_flags (conv_id : string) (items : list MessageRow) (t : Tables) :
    MessagePageResult :=
  match items with
  | [] => mkPageResult items false false
  | first :: _ =>
      let last_cursor := default (cursor_of first) (cursor_of <$> last items) in
      mkPageResult items (visible_message_exists_before conv_id (cursor_of first) t)
        (visible_message_exists_after conv_id last_cursor t)
  end.

(** The rows of a page around the anchor: what is missing on one side is made up for on the
    other. *)
Definition around (limit : nat) (anchor : MessageRow) (before after : list MessageRow) :
    list MessageRow :=
  let before_target := (limit - 1) / 2 in
  let after_target := limit - (1 + before_target) in
  let before_take := length before `min` before_target in
  let after_take := length after `min` after_target in
  let remaining := limit - (1 + before_take + after_take) in
  let extra_after := (length after - after_take) `min` remaining in
  let after_take := after_take + extra_after in
  let remaining := remaining - extra_after in
  let before_take := before_take + (length before - before_take) `min` remaining in
  let before_start := length before - before_take in
  drop before_start before ++ [anchor] ++ take after_take after.

Definition get_message_row (conv_id message_id : string) (t : Tables) : option MessageRow :=
  head (filter (λ row, row.(mg_id) = message_id) (visible conv_id t)).

Definition list_messages_page (conv_id : string) (params : MessagePageParams) (t : Tables) :
    result MessagePageResult DbError :=
  let limit := params.(mpp_limit) `max` 1 in
  let fetch_limit := limit + 1 in
  rows ←? match params.(mpp_direction) with
         | InitialLatest =>
             Ok (reverse (take limit (take fetch_limit (descending (visible conv_id t)))))
         | Before cursor =>
             Ok (reverse (take limit
                   (take fetch_limit (descending (visible_before conv_id cursor t)))))
         | After cursor =>
             Ok (take limit (take fetch_limit (ascending (visible_after conv_id cursor t))))
         | Anchor message_id =>
             match get_message_row conv_id message_id t with
             | None => Err (NotFound ("Message '" +:+ message_id +:+ "' not found"))
             | Some anchor =>
                 let cursor := cursor_of anchor in
                 let before := reverse (take limit (descending (visible_before conv_id cursor t))) in
                 let after := take limit (ascending (visible_after conv_id cursor t)) in
                 Ok (around limit anchor before after)
             end
         end;
  Ok (page_with_flags conv_id (ascending rows) t).

(** ** [message_cursor.rs]

    [base64] and the JSON of [MessageCursorV1] *)
Class CursorCodec := {
  b64_encode : string → string;
  b64_decode : string → option string;
  cursor_json : MessagePageCursor → string;
  cursor_of_json : string → option MessagePageCursor;
  b64_decode_encode s : b64_decode (b64_encode s) = Some s;
  cursor_of_json_json cursor : in_i64 cursor.(mc_created_at) = true →
    cursor_of_json (cursor_json cursor) = Some cursor;
}.

(** [ConversationError], as far as it is returned here *)
Inductive PageError :=
  | PageNotFound (id : string)
  | PageMessageNotFound (id : string)
  | PageBadRequest (reason : string)
  | PageInternal
  | PageDb (e : DbError).

Section messages.
Context `{CursorCodec}.

Definition encode_message_cursor (cursor : MessagePageCursor) : string :=
  "v1." +:+ b64_encode (cursor_json cursor).

Definition invalid_cursor : PageError := PageBadRequest "invalid message cursor".

Definition decode_message_cursor (raw : string) : result MessagePageCursor PageError :=
  encoded ←? ok_or (strip_prefix "v1." raw) invalid_cursor;
  bytes ←? ok_or (b64_decode encoded) invalid_cursor;
  cursor ←? ok_or (cursor_of_json bytes) invalid_cursor;
  if bool_decide (cursor.(mc_id) = "") then Err invalid_cursor else Ok cursor.
End messages.

(** ** [convert.rs] *)

Inductive MessageType :=
  | TyText | TyTips | TyToolCall | TyToolGroup | TyAgentStatus | TyPermission | TyAcpToolCall
  | TyPlan | TyThinking | TyAvailableCommands | TySkillSuggest | TyCronTrigger.
Inductive MessagePosition := PosRight | PosLeft | PosCenter | PosPop.
Inductive MessageStatus := StFinish | StPending | StError | StWork.

(** [string_to_enum] *)
Definition message_type_of (s : string) : option MessageType :=
  assoc s [("text", TyText); ("tips", TyTips); ("tool_call", TyToolCall);
    ("tool_group", TyToolGroup); ("agent_status", TyAgentStatus); ("permission", TyPermission);
    ("acp_tool_call", TyAcpToolCall); ("plan", TyPlan); ("thinking", TyThinking);
    ("available_commands", TyAvailableCommands); ("skill_suggest", TySkillSuggest);
    ("cron_trigger", TyCronTrigger)].
Definition message_position_of (s : string) : option MessagePosition :=
  assoc s [("right", PosRight); ("left", PosLeft); ("center", PosCenter); ("pop", PosPop)].
Definition message_status_of (s : string) : option MessageStatus :=
  assoc s [("finish", StFinish); ("pending", StPending); ("error", StError); ("work", StWork)].

(** [Option::map(string_to_enum).transpose()] *)
Definition optional_enum {A} (parse : string → option A) (s : option string) : option (option A) :=
  match s with
  | None => Some None
  | Some s => Some <$> parse s
  end.

(** [serde_json::Value]: a number is its text, the entries of an object are a list. *)
Inductive Value :=
  | VNull
  | VBool (b : bool)
  | VNumber (text : string)
  | VString (text : string)
  | VArray (items : list Value)
  | VObject (entries : list (string * Value)).

(** [serde_json::Map::insert] *)
Fixpoint object_insert (key : string) (value : Value) (entries : list (string * Value)) :
    list (string * Value) :=
  match entries with
  | [] => [(key, value)]
  | (k, v) :: entries =>
      if bool_decide (k = key) then (key, value) :: entries
      else (k, v) :: object_insert key value entries
  end.

(** A byte that does not begin a character of UTF-8 *)
Definition continues_char (a : ascii) : bool :=
  let n := nat_of_ascii a in (128 <=? n) && (n <? 192).

(** [text.chars().count()] *)
Fixpoint chars_count (text : string) : nat :=
  match text with
  | EmptyString => 0
  | String a text => (if continues_char a then 0 else 1) + chars_count text
  end.

(** [text.chars().take(n).collect()] *)
Fixpoint chars_take (n : nat) (text : string) : string :=
  match text with
  | EmptyString => EmptyString
  | String a text =>
      if continues_char a then String a (chars_take n text)
      else match n with 0 => EmptyString | S n => String a (chars_take n text) end
  end.

Definition TOOL_CONTENT_COMPACT_THRESHOLD_BYTES : Z := 64 * 1024.
Definition TOOL_CONTENT_PREVIEW_CHARS : nat := 4096.

Definition is_tool_message (msg_type : MessageType) : bool :=
  match msg_type with TyToolCall | TyToolGroup | TyAcpToolCall => true | _ => false end.

(** A loop over the elements of a list, with the flag the code passes by reference *)
Section each.
Context {A : Type} (f : A → bool → A * bool).
Fixpoint each (items : list A) (truncated : bool) : list A * bool :=
  match items with
  | [] => ([], truncated)
  | item :: items =>
      let '(item, truncated) := f item truncated in
      let '(items, truncated) := each items truncated in
      (item :: items, truncated)
  end.
End each.

Fixpoint truncate_large_strings (max_chars : nat) (value : Value) (truncated : bool) :
    Value * bool :=
  match value with
  | VString text =>
      if max_chars <? chars_count text
      then (VString (chars_take max_chars text +:+ String "010"%char "...[truncated]"), true)
      else (value, truncated)
  | VArray items =>
      let '(items, truncated) := each (truncate_large_strings max_chars) items truncated in
      (VArray items, truncated)
  | VObject entries =>
      let '(entries, truncated) :=
        each (λ '(key, entry) truncated,
                let '(entry, truncated) := truncate_large_strings max_chars entry truncated in
                ((key, entry), truncated)) entries truncated in
      (VObject entries, truncated)
  | _ => (value, truncated)
  end.

Section responses.
Context (json_from_str : string → option Value) `{CursorCodec}.

(** [mr] = [MessageResponse] *)
Record MessageResponse := mkMessageResponse {
  mrs_id : string;
  mrs_conversation_id : string;
  mrs_msg_id : option string;
  mrs_type : MessageType;
  mrs_content : Value;
  mrs_position : option MessagePosition;
  mrs_status : option MessageStatus;
  mrs_hidden : bool;
  mrs_created_at : Z;
}.

Definition row_to_message_response (row : MessageRow) : result MessageResponse PageError :=
  type ←? ok_or (message_type_of row.(mg_type)) PageInternal;
  position ←? ok_or (optional_enum message_position_of row.(mg_position)) PageInternal;
  status ←? ok_or (optional_enum message_status_of row.(mg_status)) PageInternal;
  content ←? ok_or (json_from_str row.(mg_content)) PageInternal;
  Ok (mkMessageResponse row.(mg_id) row.(mg_conversation_id) row.(mg_msg_id) type content position
        status row.(mg_hidden) row.(mg_created_at)).

Definition compact_note (original_size : Z) : Value :=
  VObject [("truncated", VBool true); ("original_size", VNumber (pretty original_size));
    ("preview_chars", VNumber (pretty (Z.of_nat TOOL_CONTENT_PREVIEW_CHARS)))].

Definition with_content (response : MessageResponse) (content : Value) : MessageResponse :=
  mkMessageResponse response.(mrs_id) response.(mrs_conversation_id) response.(mrs_msg_id)
    response.(mrs_type) content response.(mrs_position) response.(mrs_status)
    response.(mrs_hidden) response.(mrs_created_at).

Definition row_to_message_response_compact (row : MessageRow) : result MessageResponse PageError :=
  let original_size := Z.of_nat (String.length row.(mg_content)) in
  response ←? row_to_message_response row;
  if negb (is_tool_message response.(mrs_type)) ||
     (original_size <=? TOOL_CONTENT_COMPACT_THRESHOLD_BYTES)%Z
  then Ok response
  else
    let '(content, truncated) :=
      truncate_large_strings TOOL_CONTENT_PREVIEW_CHARS response.(mrs_content) false in
    Ok (with_content response
          match content with
          | VObject entries =>
              if truncated then VObject (object_insert "_compact" (compact_note original_size) entries)
              else content
          | _ => content
          end).

(** The loop over the items of a page *)
Fixpoint responses (compact_content : bool) (rows : list MessageRow) :
    result (list MessageResponse) PageError :=
  match rows with
  | [] => Ok []
  | row :: rows =>
      response ←? (if compact_content then row_to_message_response_compact row
                   else row_to_message_response row);
      items ←? responses compact_content rows;
      Ok (response :: items)
  end.

(** ** [service.rs] *)

Definition DEFAULT_MESSAGE_PAGE_LIMIT : nat := 50.
Definition MAX_MESSAGE_PAGE_LIMIT : nat := 200.

Definition effective_message_limit (limit : option nat) : nat :=
  match default DEFAULT_MESSAGE_PAGE_LIMIT limit with
  | 0 => DEFAULT_MESSAGE_PAGE_LIMIT
  | n => n `min` MAX_MESSAGE_PAGE_LIMIT
  end.

(** [lq] = [ListMessagesQuery] *)
Record ListMessagesQuery := mkListQuery {
  lq_limit : option nat;
  lq_before : option string;
  lq_after : option string;
  lq_anchor_message_id : option string;
  lq_content_mode : option string;
}.

Definition message_locator_count (query : ListMessagesQuery) : nat :=
  Nat.b2n (bool_decide (is_Some query.(lq_before))) +
  Nat.b2n (bool_decide (is_Some query.(lq_after))) +
  Nat.b2n (bool_decide (is_Some query.(lq_anchor_message_id))).

(** [ml] = [MessageListResponse] *)
Record MessageListResponse := mkListResponse {
  ml_items : list MessageResponse;
  ml_oldest_cursor : option string;
  ml_newest_cursor : option string;
  ml_has_more_before : bool;
  ml_has_more_after : bool;
}.

Definition page_direction (query : ListMessagesQuery) : result MessagePageDirection PageError :=
  match query.(lq_before), query.(lq_after), query.(lq_anchor_message_id) with
  | Some cursor, _, _ => cursor ←? decode_message_cursor cursor; Ok (Before cursor)
  | None, Some cursor, _ => cursor ←? decode_message_cursor cursor; Ok (After cursor)
  | None, None, Some message_id => Ok (Anchor message_id)
  | None, None, None => Ok InitialLatest
  end.

(** [get(..).await?.filter(|r| r.user_id == user_id)]: [owner] is that of the row. *)
Definition check_owner (user_id conversation_id : string) (owner : option string) :
    result () PageError :=
  if bool_decide (owner = Some user_id) then Ok () else Err (PageNotFound conversation_id).

Definition list_messages (user_id conversation_id : string) (query : ListMessagesQuery)
    (owner : option string) (t : Tables) : result MessageListResponse PageError :=
  _ ←? check_owner user_id conversation_id owner;
  let limit := effective_message_limit query.(lq_limit) in
  if 1 <? message_locator_count query
  then Err (PageBadRequest "before, after, and anchor_message_id are mutually exclusive")
  else
    direction ←? page_direction query;
    let compact_content := bool_decide (query.(lq_content_mode) = Some "compact") in
    page ←? match list_messages_page conversation_id (mkPageParams limit direction) t with
            | Ok page => Ok page
            | Err e => Err (PageDb e)
            end;
    let oldest_cursor := encode_message_cursor ∘ cursor_of <$> head page.(mp_items) in
    let newest_cursor := encode_message_cursor ∘ cursor_of <$> last page.(mp_items) in
    items ←? responses compact_content page.(mp_items);
    Ok (mkListResponse items oldest_cursor newest_cursor page.(mp_has_more_before)
          page.(mp_has_more_after)).

Definition get_message (user_id conversation_id message_id : string) (owner : option string)
    (t : Tables) : result MessageResponse PageError :=
  _ ←? check_owner user_id conversation_id owner;
  row ←? ok_or (get_message_row conversation_id message_id t) (PageMessageNotFound message_id);
  row_to_message_response row.
End responses.
