(* ===== verification/ConvPagesProps.v ===== *)
(** * Conversation: every page is a window of the history

    The history of a conversation is the list of its visible messages in the order they are
    shown.  Every page is a contiguous part of it, and says rightly whether there is more on
    either side ([page_is_window]); scrolling back by the cursors of the pages gives all of it
    ([scroll_covers_history]). *)
From Stdlib Require Import Ascii Sorting.Sorted.
From S2P Require Import Prelude Text Storage Stream ConvPages.

(** ** The order of the cursors *)

Lemma precedes_irrefl a : ¬ precedes a a.
Proof. intros [H|(_ & _ & H)]; [lia|done]. Qed.

Lemma precedes_trans a b c : precedes a b → precedes b c → precedes a c.
Proof.
  unfold precedes. intros [H1|(H1 & H1' & H1'')] [H2|(H2 & H2' & H2'')]; [left; lia..|].
  right. split; [congruence|]. split; [by trans (mc_id b)|].
  intros Heq. apply H1''. apply (anti_symm String.le); [done|]. by rewrite Heq.
Qed.

Lemma precedes_cases a b : precedes a b ∨ precedes b a ∨ a = b.
Proof.
  destruct a as [za a], b as [zb b]. unfold precedes. cbn.
  destruct (Z.lt_total za zb) as [?|[->|?]]; [auto| |auto].
  destruct (decide (a = b)) as [->|Hne]; [auto|].
  destruct (total String.le a b); [left|right; left]; right; auto.
Qed.

(** One row before another *)
Definition earlier_row (r1 r2 : MessageRow) : Prop := precedes (cursor_of r1) (cursor_of r2).

#[global] Instance row_le_trans : Transitive row_le.
Proof.
  intros r1 r2 r3 H12 H23 H31. unfold row_le in *.
  destruct (precedes_cases (cursor_of r2) (cursor_of r1)) as [?|[H|H]]; [done| |].
  - by apply H23, (precedes_trans _ (cursor_of r1)).
  - apply H23. by rewrite H.
Qed.

#[global] Instance row_le_total : Total row_le.
Proof.
  intros r1 r2. unfold row_le. destruct (decide (precedes (cursor_of r2) (cursor_of r1))) as [H|H];
    [right|by left]. intros H'. by apply (precedes_irrefl (cursor_of r1)), (precedes_trans _ (cursor_of r2)).
Qed.

Abbreviation in_order := (StronglySorted earlier_row).

Lemma in_order_unique l1 l2 : in_order l1 → in_order l2 → l1 ≡ₚ l2 → l1 = l2.
Proof.
  apply StronglySorted_unique_strong. intros r1 r2 _ _ H12 H21.
  by destruct (precedes_irrefl _ (precedes_trans _ _ _ H12 H21)).
Qed.

Lemma in_order_app l1 l2 : in_order (l1 ++ l2) → in_order l1 ∧ in_order l2.
Proof. by intros (_ & ? & ?)%StronglySorted_app. Qed.

Lemma in_order_filter (P : MessageRow → Prop) `{∀ r, Decision (P r)} l :
  in_order l → in_order (filter P l).
Proof.
  induction l as [|r l IH]; [done|]. intros [Hr Hl]%StronglySorted_cons.
  rewrite filter_cons. destruct (decide (P r)); [|by apply IH].
  apply StronglySorted_cons. split; [|by apply IH].
  apply Forall_forall. intros r' Hr'%list_elem_of_filter.
  apply (proj1 (Forall_forall _ _) Hr). tauto.
Qed.

(** Sorting rows with identifiers of their own *)
Lemma ascending_in_order rows : NoDup (mg_id <$> rows) → in_order (ascending rows).
Proof.
  intros Hnd. unfold ascending.
  assert (NoDup (mg_id <$> merge_sort row_le rows)) as Hs by (by rewrite merge_sort_Permutation).
  pose proof (StronglySorted_merge_sort row_le rows) as Hsorted. revert Hs Hsorted.
  induction (merge_sort row_le rows) as [|r l IH]; [constructor|].
  rewrite fmap_cons, NoDup_cons, !StronglySorted_cons. intros [Hni Hnd'] [Hr Hl].
  split; [|by apply IH]. apply Forall_forall. intros r' Hr'.
  pose proof (proj1 (Forall_forall _ _) Hr r' Hr') as Hle. unfold row_le in Hle.
  destruct (precedes_cases (cursor_of r) (cursor_of r')) as [?|[?|Heq]]; [done..|].
  destruct Hni. injection Heq as _ ->. by apply list_elem_of_fmap_2.
Qed.

Lemma ascending_perm rows : ascending rows ≡ₚ rows.
Proof. apply merge_sort_Permutation. Qed.

Lemma ascending_id l : NoDup (mg_id <$> l) → in_order l → ascending l = l.
Proof.
  intros Hnd Hl. apply in_order_unique; [by apply ascending_in_order|done|apply ascending_perm].
Qed.

(** A part of the rows that is closed downwards comes first. *)
Lemma in_order_split (P : MessageRow → Prop) `{∀ r, Decision (P r)} l :
  in_order l → (∀ r1 r2, earlier_row r1 r2 → P r2 → P r1) →
  l = filter P l ++ filter (λ r, ¬ P r) l.
Proof.
  intros Hl HP. induction l as [|r l IH]; [done|]. apply StronglySorted_cons in Hl as [Hr Hl].
  rewrite !filter_cons. destruct (decide (P r)) as [Hp|Hp].
  - rewrite (decide_False (P := ¬ P r)) by tauto. cbn. by rewrite <- IH.
  - rewrite decide_True by done.
    assert (∀ r', r' ∈ l → ¬ P r') as Hnone.
    { intros r' Hr' Hp'. apply Hp, (HP r r'); [|done].
      by apply (proj1 (Forall_forall _ _) Hr). }
    assert (filter P l = []) as ->.
    { apply list_filter_none. done. }
    cbn. f_equal. symmetry. apply list_filter_true. done.
Qed.

(** ** The history *)

(** Rows are found under their identifier: it is the primary key. *)
Definition keyed (t : Tables) : Prop := ∀ id row, t.(tb_messages) !! id = Some row → row.(mg_id) = id.

Section history.
Context (conv_id : string) (t : Tables) (Hkeyed : keyed t).

Definition history : list MessageRow := ascending (visible conv_id t).

Lemma visible_distinct : NoDup (mg_id <$> visible conv_id t).
Proof.
  unfold visible. assert (∀ l : list (string * MessageRow),
    (∀ e, e ∈ l → e.2.(mg_id) = e.1) → NoDup l.*1 → NoDup (mg_id <$> filter (is_visible conv_id) l.*2))
    as Hl.
  { induction l as [|[id row] l IH]; [constructor|]. intros Hid [Hni Hnd]%NoDup_cons.
    cbn [fmap list_fmap]. rewrite filter_cons.
    assert (NoDup (mg_id <$> filter (is_visible conv_id) l.*2)) as Hnd'.
    { apply IH; [|done]. intros e He. apply Hid. by right. }
    destruct (decide _); [|done]. cbn [fmap list_fmap]. apply NoDup_cons. split; [|done].
    pose proof (Hid (id, row) (list_elem_of_here _ _)) as Heq. cbn in Heq. cbn [snd]. rewrite Heq.
    intros (row' & Hrow' & Hin)%list_elem_of_fmap. apply list_elem_of_filter in Hin as [_ Hin].
    apply list_elem_of_fmap in Hin as ([id' row''] & Heq' & Hin'). cbn in Heq'. subst row''.
    assert (mg_id row' = id') as Heq' by (apply (Hid (id', row')); by right).
    apply Hni. rewrite Hrow', Heq'.
    by apply (list_elem_of_fmap_2 fst _ (id', row')). }
  apply Hl; [|apply NoDup_fst_map_to_list]. intros [id row] Hin%elem_of_map_to_list. by apply Hkeyed.
Qed.

Lemma history_in_order : in_order history.
Proof. apply ascending_in_order, visible_distinct. Qed.

Lemma history_perm : history ≡ₚ visible conv_id t.
Proof. apply ascending_perm. Qed.

Lemma history_distinct : NoDup (mg_id <$> history).
Proof. rewrite history_perm. apply visible_distinct. Qed.

(** A part of the history, in any order *)
Lemma ascending_filter (P : MessageRow → Prop) `{∀ r, Decision (P r)} :
  ascending (filter P (visible conv_id t)) = filter P history.
Proof.
  apply in_order_unique.
  - apply ascending_in_order. eapply sublist_NoDup; [apply visible_distinct|].
    apply fmap_sublist, sublist_filter.
  - apply in_order_filter, history_in_order.
  - rewrite ascending_perm. unfold history. by rewrite ascending_perm.
Qed.

Lemma part_distinct earlier items later :
  history = earlier ++ items ++ later → NoDup (mg_id <$> items).
Proof.
  intros Hh. pose proof history_distinct as Hnd. rewrite Hh, !fmap_app, !NoDup_app in Hnd. tauto.
Qed.

(** What is before and after a row of the history *)
Lemma before_row r earlier rest :
  history = earlier ++ r :: rest →
  filter (λ row, precedes (cursor_of row) (cursor_of r)) history = earlier.
Proof.
  intros Hh. pose proof history_in_order as Ho. rewrite Hh in *.
  apply StronglySorted_app in Ho as (He & _ & [Hr _]%StronglySorted_cons).
  rewrite filter_app, filter_cons, decide_False by apply precedes_irrefl.
  rewrite list_filter_true, list_filter_none, app_nil_r; [done| |].
  - intros r' Hr' Hp. apply (proj1 (Forall_forall _ _) Hr) in Hr'.
    by apply (precedes_irrefl (cursor_of r)), (precedes_trans _ (cursor_of r')).
  - intros r' Hr'. apply He; [done|by left].
Qed.

Lemma after_row r earlier rest :
  history = earlier ++ r :: rest →
  filter (λ row, precedes (cursor_of r) (cursor_of row)) history = rest.
Proof.
  intros Hh. pose proof history_in_order as Ho. rewrite Hh in *.
  apply StronglySorted_app in Ho as (He & _ & [Hr _]%StronglySorted_cons).
  rewrite filter_app, filter_cons, decide_False by apply precedes_irrefl.
  rewrite list_filter_none, list_filter_true; [done| |].
  - intros r' Hr'. by apply (proj1 (Forall_forall _ _) Hr) in Hr'.
  - intros r' Hr' Hp. specialize (He r' r Hr' (list_elem_of_here _ _)).
    by apply (precedes_irrefl (cursor_of r)), (precedes_trans _ (cursor_of r')).
Qed.

Lemma exists_in_history (P : MessageRow → Prop) `{∀ r, Decision (P r)} l :
  filter P history = l → bool_decide (filter P (visible conv_id t) ≠ []) = bool_decide (l ≠ []).
Proof.
  intros <-. apply bool_decide_ext. rewrite <- ascending_filter.
  assert (∀ rows, ascending rows = [] ↔ rows = []) as Hnil.
  { intros rows. rewrite <- !length_zero_iff_nil. by rewrite (ascending_perm rows). }
  by rewrite Hnil.
Qed.

(** The flags of a page that is a part of the history *)
Lemma flags_of_part earlier items later :
  history = earlier ++ items ++ later → items ≠ [] →
  page_with_flags conv_id items t =
    mkPageResult items (bool_decide (earlier ≠ [])) (bool_decide (later ≠ [])).
Proof.
  intros Hh Hne. destruct items as [|first items]; [done|]. cbn [page_with_flags].
  destruct (exists_last (l := first :: items)) as (init & newest & Hlast); [done|].
  rewrite Hlast, last_snoc. cbn [fmap option_fmap option_map default from_option id].
  f_equal; apply exists_in_history.
  - by eapply before_row.
  - apply (after_row _ (earlier ++ init)). rewrite Hh, Hlast, <- !app_assoc. done.
Qed.

(** ** The pages *)

(** The last rows of a list *)
Definition newest (n : nat) (l : list MessageRow) : list MessageRow := drop (length l - n) l.

Lemma newest_split n l : l = take (length l - n) l ++ newest n l.
Proof. unfold newest. by rewrite take_drop. Qed.

Lemma length_newest n l : length (newest n l) = n `min` length l.
Proof. unfold newest. rewrite length_drop. lia. Qed.

Lemma reverse_newest n l : reverse (take n (reverse l)) = newest n l.
Proof.
  unfold newest, reverse. rewrite <- !rev_alt. rewrite List.firstn_rev, List.rev_involutive. done.
Qed.

Lemma page_of_part earlier items later :
  history = earlier ++ items ++ later →
  page_with_flags conv_id (ascending items) t =
    mkPageResult items (bool_decide (items ≠ []) && bool_decide (earlier ≠ []))
      (bool_decide (items ≠ []) && bool_decide (later ≠ [])).
Proof.
  intros Hh. rewrite ascending_id; [| |].
  - destruct items as [|first items]; [done|]. by apply flags_of_part.
  - by eapply part_distinct.
  - pose proof history_in_order as Ho. rewrite Hh in Ho.
    by apply in_order_app in Ho as [_ [? _]%in_order_app].
Qed.

(** What a page is, by its direction *)
Definition window (limit : nat) (direction : MessagePageDirection)
    (earlier items later : list MessageRow) : Prop :=
  match direction with
  | InitialLatest => later = [] ∧ length items = limit `min` length history
  | Before cursor =>
      earlier ++ items = filter (λ row, precedes (cursor_of row) cursor) history ∧
      length items = limit `min` length (earlier ++ items)
  | After cursor =>
      items ++ later = filter (λ row, precedes cursor (cursor_of row)) history ∧
      length items = limit `min` length (items ++ later)
  | Anchor message_id =>
      (∃ row, row ∈ items ∧ row.(mg_id) = message_id) ∧
      length items = limit `min` length history
  end.

Lemma newest_window (P : MessageRow → Prop) `{∀ r, Decision (P r)} limit :
  reverse (take limit (take (limit + 1) (descending (filter P (visible conv_id t))))) =
    newest limit (filter P history).
Proof.
  unfold descending. rewrite ascending_filter, take_take, Nat.min_l by lia. apply reverse_newest.
Qed.

Lemma before_split cursor :
  ∃ later, history = filter (λ row, precedes (cursor_of row) cursor) history ++ later.
Proof.
  eexists. apply (in_order_split _ _ history_in_order).
  intros r1 r2 H12 H2. by apply (precedes_trans _ (cursor_of r2)).
Qed.

Lemma after_split cursor :
  ∃ earlier, history = earlier ++ filter (λ row, precedes cursor (cursor_of row)) history.
Proof.
  eexists. rewrite (in_order_split (λ row, ¬ precedes cursor (cursor_of row)) _ history_in_order)
    at 1.
  - f_equal. apply list_filter_iff. intros r. split; [apply dec_stable|tauto].
  - intros r1 r2 H12 H2 H1. by apply H2, (precedes_trans _ (cursor_of r1)).
Qed.

(** The anchor, with as much as there is on either side *)
Lemma around_count limit B A bt bk ak ex bk' :
  1 ≤ limit → bt ≤ limit - 1 → B ≤ limit → A ≤ limit →
  bk = B `min` bt → ak = A `min` (limit - (1 + bt)) →
  ex = (A - ak) `min` (limit - (1 + bk + ak)) →
  bk' = bk + (B - bk) `min` (limit - (1 + bk + ak) - ex) →
  (B - (B - bk')) + (1 + (ak + ex) `min` A) = limit `min` (B + 1 + A).
Proof.
  intros Hl Hbt HB HA Ebk.
  assert (bk ≤ B ∧ bk ≤ bt ∧ (bk = B ∨ bk = bt)) as Hbk by lia. clear Ebk.
  intros Eak.
  assert (ak ≤ A ∧ ak + bt + 1 ≤ limit ∧ (ak = A ∨ ak + bt + 1 = limit)) as Hak by lia. clear Eak.
  intros Eex.
  assert (∃ rem, limit = 1 + bk + ak + rem) as [rem Hrem] by (exists (limit - (1 + bk + ak)); lia).
  assert (ex ≤ rem ∧ ak + ex ≤ A ∧ (ak + ex = A ∨ ex = rem)) as Hex by lia. clear Eex.
  intros Ebk'.
  assert (bk ≤ bk' ∧ bk' ≤ B ∧ bk' - bk ≤ rem - ex ∧ (bk' = B ∨ bk' - bk = rem - ex)) as Hbk' by lia.
  clear Ebk'. rewrite (Nat.min_l (ak + ex)) by lia.
  destruct (Nat.le_gt_cases (B + 1 + A) limit); [rewrite Nat.min_r by lia|rewrite Nat.min_l by lia]; lia.
Qed.

Lemma around_length limit anchor before after b a :
  1 ≤ limit → length before = limit `min` b → length after = limit `min` a →
  length (around limit anchor before after) = limit `min` (b + 1 + a).
Proof.
  intros Hl Hb Ha. unfold around. cbv zeta.
  assert ((limit - 1) / 2 ≤ limit - 1) as Hdiv by (apply Nat.Div0.div_le_upper_bound; lia).
  generalize dependent ((limit - 1) / 2). intros bt Hbt.
  rewrite !length_app, length_drop, length_take, Hb, Ha. cbn [length].
  erewrite around_count; [|exact Hl|exact Hbt|apply Nat.le_min_l|apply Nat.le_min_l|reflexivity..].
  lia.
Qed.

Lemma around_part limit anchor earlier later :
  ∃ earlier' later',
    earlier ++ anchor :: later =
      earlier' ++ around limit anchor (newest limit earlier) (take limit later) ++ later' ∧
    anchor ∈ around limit anchor (newest limit earlier) (take limit later).
Proof.
  unfold around. cbv zeta.
  match goal with |- context [drop ?n (newest limit earlier)] => generalize n; intros n1 end.
  match goal with |- context [take ?n (take limit later)] => generalize n; intros n2 end.
  exists (take (length earlier - limit) earlier ++ take n1 (newest limit earlier)),
    (drop n2 (take limit later) ++ drop limit later).
  split; [|set_solver].
  rewrite (newest_split limit earlier) at 1. rewrite <- (take_drop n1 (newest limit earlier)) at 1.
  rewrite <- (take_drop limit later) at 1. rewrite <- (take_drop n2 (take limit later)) at 1.
  by rewrite <- !app_assoc.
Qed.

Lemma anchor_row message_id row :
  get_message_row conv_id message_id t = Some row →
  row.(mg_id) = message_id ∧ ∃ earlier later, history = earlier ++ row :: later.
Proof.
  unfold get_message_row. intros Hrow%head_Some_elem_of%list_elem_of_filter.
  destruct Hrow as [Hid Hin]. split; [done|].
  rewrite <- history_perm in Hin. apply list_elem_of_split in Hin as (earlier & later & Hh). eauto.
Qed.

(** The rows of a page before they are sorted and flagged *)
Lemma list_page_spec params page :
  list_messages_page conv_id params t = Ok page →
  ∃ earlier later, history = earlier ++ page.(mp_items) ++ later ∧
    page = mkPageResult page.(mp_items)
      (bool_decide (page.(mp_items) ≠ []) && bool_decide (earlier ≠ []))
      (bool_decide (page.(mp_items) ≠ []) && bool_decide (later ≠ [])) ∧
    window (params.(mpp_limit) `max` 1) params.(mpp_direction) earlier page.(mp_items) later.
Proof.
  destruct params as [limit direction]. unfold list_messages_page. cbn [mpp_limit mpp_direction].
  set (n := limit `max` 1).
  assert (∀ earlier items later, history = earlier ++ items ++ later →
    window n direction earlier items later →
    Ok (page_with_flags conv_id (ascending items) t) = Ok (E := DbError) page →
    ∃ earlier later, history = earlier ++ page.(mp_items) ++ later ∧
      page = mkPageResult page.(mp_items)
        (bool_decide (page.(mp_items) ≠ []) && bool_decide (earlier ≠ []))
        (bool_decide (page.(mp_items) ≠ []) && bool_decide (later ≠ [])) ∧
      window n direction earlier page.(mp_items) later) as Hpage.
  { intros earlier items later Hh Hw [= <-]. rewrite (page_of_part _ _ _ Hh). cbn [mp_items].
    by exists earlier, later. }
  destruct direction as [|cursor|cursor|message_id]; cbn [result_bind].
  - pose proof (newest_window (λ _, True) n) as Hn. rewrite !list_filter_true in Hn by done.
    rewrite Hn. apply (Hpage (take (length history - n) history) _ []).
    + by rewrite app_nil_r, <- newest_split.
    + split; [done|]. apply length_newest.
  - unfold visible_before. rewrite newest_window. destruct (before_split cursor) as [later Hh].
    apply (Hpage (take (length (filter (λ row, precedes (cursor_of row) cursor) history) - n)
      (filter (λ row, precedes (cursor_of row) cursor) history)) _ later).
    + by rewrite app_assoc, <- newest_split.
    + cbn. rewrite <- newest_split. split; [done|]. apply length_newest.
  - unfold visible_after. rewrite ascending_filter, take_take, Nat.min_l by lia.
    destruct (after_split cursor) as [earlier Hh].
    apply (Hpage earlier _ (drop n (filter (λ row, precedes cursor (cursor_of row)) history))).
    + by rewrite take_drop.
    + cbn. rewrite take_drop. split; [done|]. apply length_take.
  - destruct (get_message_row conv_id message_id t) as [anchor|] eqn:Ha; [|done].
    destruct (anchor_row _ _ Ha) as [Hid (earlier & later & Hh)]. cbn [result_bind].
    unfold visible_before, visible_after, descending. rewrite !ascending_filter, reverse_newest.
    rewrite (before_row _ _ _ Hh), (after_row _ _ _ Hh).
    destruct (around_part n anchor earlier later) as (earlier' & later' & Hp & Hin).
    apply (Hpage earlier' _ later'); [by rewrite Hh|]. split; [by eauto|].
    rewrite Hh, length_app. cbn [length]. rewrite (around_length n _ _ _ (length earlier) (length later)).
    + lia.
    + lia.
    + apply length_newest.
    + apply length_take.
Qed.
End history.

(** C11: A page, in whatever direction, is a contiguous part of the history of its conversation
    in the order it is shown: its newest messages, those next to a cursor, or those around a
    message, as many as the limit allows and there are; unless it is empty it says rightly
    whether there is more before and after. *)
Theorem page_is_window conv_id params t page :
  keyed t → list_messages_page conv_id params t = Ok page →
  ∃ earlier later, history conv_id t = earlier ++ page.(mp_items) ++ later ∧
    window conv_id t (params.(mpp_limit) `max` 1) params.(mpp_direction) earlier page.(mp_items) later ∧
    (page.(mp_items) ≠ [] →
     page.(mp_has_more_before) = bool_decide (earlier ≠ []) ∧
     page.(mp_has_more_after) = bool_decide (later ≠ [])).
Proof.
  intros Hk Hp. destruct (list_page_spec _ _ Hk _ _ Hp) as (earlier & later & Hh & Hf & Hw).
  exists earlier, later. split; [done|]. split; [done|]. intros Hne. rewrite Hf. cbn.
  by rewrite !(bool_decide_eq_true_2 _ Hne).
Qed.

(** ** Scrolling back *)

Section scroll.
Context (json_from_str : string → option Value) `{CursorCodec}.

(** What a client does that wants all of a conversation: the newest page, then the pages
    before the oldest message it has *)
Fixpoint scroll (fuel : nat) (user_id conv_id : string) (limit : option nat)
    (mode owner : option string) (t : Tables) (cursor : option string) :
    result (list MessageResponse) PageError :=
  match fuel with
  | 0 => Err PageInternal
  | S fuel =>
      page ←? list_messages json_from_str user_id conv_id
                (mkListQuery limit cursor None None mode) owner t;
      if page.(ml_has_more_before) then
        earlier ←? scroll fuel user_id conv_id limit mode owner t page.(ml_oldest_cursor);
        Ok (earlier ++ page.(ml_items))
      else Ok page.(ml_items)
  end.

(** A row whose cursor can be read back *)
Definition locatable (row : MessageRow) : Prop :=
  in_i64 row.(mg_created_at) = true ∧ row.(mg_id) ≠ "".

Lemma decode_encode row :
  locatable row → decode_message_cursor (encode_message_cursor (cursor_of row)) = Ok (cursor_of row).
Proof.
  intros [Hz Hid]. unfold decode_message_cursor, encode_message_cursor.
  rewrite strip_prefix_app. cbn. rewrite b64_decode_encode. cbn.
  rewrite cursor_of_json_json by done. cbn. by rewrite bool_decide_eq_false_2.
Qed.

Lemma responses_app compact rows1 rows2 items :
  responses json_from_str compact (rows1 ++ rows2) = Ok items →
  ∃ items1 items2, responses json_from_str compact rows1 = Ok items1 ∧
    responses json_from_str compact rows2 = Ok items2 ∧ items = items1 ++ items2.
Proof.
  revert items. induction rows1 as [|row rows1 IH]; intros items; cbn [responses app].
  - intros Hr. by exists [], items.
  - destruct (if compact then _ else _) as [r|]; [|done]. cbn.
    destruct (responses json_from_str compact (rows1 ++ rows2)) as [rest|]; [|done]. cbn.
    intros [= <-]. destruct (IH rest eq_refl) as (i1 & i2 & H1 & H2 & ->).
    exists (r :: i1), i2. by rewrite H1.
Qed.

Lemma limit_positive limit : 1 ≤ effective_message_limit limit.
Proof.
  unfold effective_message_limit, DEFAULT_MESSAGE_PAGE_LIMIT, MAX_MESSAGE_PAGE_LIMIT.
  destruct (default 50 limit); lia.
Qed.

(** [content_mode] asks for the compact form. *)
Definition compact_mode (mode : option string) : bool := bool_decide (mode = Some "compact").

(** What was seen so far is [seen]; the cursor is that of its first row. *)
Lemma scroll_from fuel user_id conv_id limit mode t cursor unseen seen items :
  keyed t → Forall locatable (history conv_id t) → history conv_id t = unseen ++ seen →
  cursor = encode_message_cursor ∘ cursor_of <$> head seen → (seen = [] → cursor = None) →
  responses json_from_str (compact_mode mode) unseen = Ok items → length unseen < fuel →
  scroll fuel user_id conv_id limit mode (Some user_id) t cursor = Ok items.
Proof.
  intros Hk Hloc. revert cursor unseen seen items.
  induction fuel as [|fuel IH]; intros cursor unseen seen items Hh Hcur Hnone Hitems Hfuel; [lia|].
  cbn [scroll]. unfold list_messages, check_owner. rewrite bool_decide_eq_true_2 by done.
  cbn [result_bind].
  assert (∃ direction, page_direction (mkListQuery limit cursor None None mode) = Ok direction ∧
    ∀ n earlier rows later, history conv_id t = earlier ++ rows ++ later →
      window conv_id t n direction earlier rows later →
      earlier ++ rows = unseen ∧ length rows = n `min` length unseen) as (direction & Hdir & Hwin).
  { destruct seen as [|first seen].
    - rewrite app_nil_r in Hh. rewrite Hnone by done. exists InitialLatest. split; [done|].
      intros n earlier rows later Hsplit [-> Hlen]. rewrite app_nil_r in Hsplit. by rewrite <- Hh.
    - rewrite Hcur. exists (Before (cursor_of first)). cbn. rewrite decode_encode.
      + split; [done|]. intros n earlier rows later Hsplit [He Hlen].
        by rewrite (before_row _ _ Hk _ _ _ Hh) in He; rewrite He in Hlen.
      + apply (proj1 (Forall_forall _ _) Hloc). rewrite Hh. set_solver. }
  assert ((1 <? message_locator_count (mkListQuery limit cursor None None mode)) = false) as ->.
  { unfold message_locator_count. cbn. by destruct cursor. }
  rewrite Hdir. cbn [result_bind].
  destruct (list_messages_page conv_id _ t) as [page|e] eqn:Hpage.
  2:{ exfalso. revert Hpage. unfold list_messages_page. cbn.
      destruct direction; try done. cbn in Hdir. destruct cursor as [c|]; [|done].
      cbn in Hdir. by destruct (decode_message_cursor c). }
  destruct (list_page_spec _ _ Hk _ _ Hpage) as (earlier & later & Hsplit & Hflags & Hw).
  cbn [mpp_limit mpp_direction] in Hw.
  destruct (Hwin _ _ _ _ Hsplit Hw) as [Hun Hlen]. rewrite <- Hun in Hitems.
  destruct (responses_app _ _ _ _ Hitems) as (items1 & items2 & H1 & H2 & ->).
  cbn [result_bind]. cbn [lq_content_mode]. fold (compact_mode mode).
  rewrite H2. cbn [result_bind ml_has_more_before ml_items ml_oldest_cursor].
  pose proof (limit_positive limit) as Hpos.
  rewrite Hflags. cbn [mp_has_more_before mp_items].
  destruct earlier as [|row earlier].
  - rewrite (bool_decide_eq_false_2 (@nil MessageRow ≠ [])) by tauto. rewrite andb_false_r.
    by injection H1 as <-.
  - assert (mp_items page ≠ []) as Hne.
    { intros Hnil. rewrite Hnil in Hlen. rewrite <- Hun in Hlen. cbn in Hlen. lia. }
    rewrite !bool_decide_eq_true_2 by done. cbn [andb].
    rewrite (IH _ (row :: earlier) (mp_items page ++ seen) items1); [done|..].
    + by rewrite Hh, <- Hun, app_assoc.
    + by destruct (mp_items page).
    + by destruct (mp_items page).
    + done.
    + rewrite <- Hun, length_app in Hfuel. destruct (mp_items page); [done|]. cbn in *. lia.
Qed.
End scroll.

(** C12: Scrolling back from the newest page by the cursors it answers, whatever the size of
    the pages, comes to an end and gives every visible message of the conversation once, in
    the order it is shown, when each can be read. *)
Theorem scroll_covers_history (json_from_str : string → option Value) `{CursorCodec}
    user_id conv_id limit mode t items :
  keyed t → Forall locatable (history conv_id t) →
  responses json_from_str (compact_mode mode) (history conv_id t) = Ok items →
  scroll json_from_str (S (length (history conv_id t))) user_id conv_id limit mode (Some user_id) t
    None = Ok items.
Proof.
  intros Hk Hloc Hitems.
  apply (scroll_from json_from_str _ user_id conv_id limit mode t None (history conv_id t) [] items);
    try done; [by rewrite app_nil_r|lia].
Qed.

(** ** The compact form *)

Section compact.
Context (P : Value → Prop).
Hypotheses (Hnull : P VNull) (Hbool : ∀ b, P (VBool b)) (Hnumber : ∀ s, P (VNumber s))
  (Hstring : ∀ s, P (VString s)) (Harray : ∀ items, Forall P items → P (VArray items))
  (Hobject : ∀ entries, Forall (P ∘ snd) entries → P (VObject entries)).

Fixpoint Value_nested_ind (v : Value) : P v :=
  match v with
  | VNull => Hnull
  | VBool b => Hbool b
  | VNumber s => Hnumber s
  | VString s => Hstring s
  | VArray items =>
      Harray items ((fix go items : Forall P items :=
        match items with
        | [] => Forall_nil_2 P
        | v :: items => Forall_cons_2 P v items (Value_nested_ind v) (go items)
        end) items)
  | VObject entries =>
      Hobject entries ((fix go entries : Forall (P ∘ snd) entries :=
        match entries with
        | [] => Forall_nil_2 (P ∘ snd)
        | e :: entries => Forall_cons_2 (P ∘ snd) e entries (Value_nested_ind e.2) (go entries)
        end) entries)
  end.
End compact.

(** No string has more characters. *)
Fixpoint short (max_chars : nat) (v : Value) : bool :=
  match v with
  | VString text => chars_count text <=? max_chars
  | VArray items => forallb (short max_chars) items
  | VObject entries => forallb (λ entry, short max_chars entry.2) entries
  | _ => true
  end.

Lemma chars_count_app s1 s2 : chars_count (s1 +:+ s2) = chars_count s1 + chars_count s2.
Proof.
  induction s1 as [|a s1 IH]; [done|]. rewrite string_app_cons. cbn. rewrite IH. lia.
Qed.

Lemma chars_count_take n s : chars_count (chars_take n s) = n `min` chars_count s.
Proof.
  revert n. induction s as [|a s IH]; intros n; cbn; [lia|].
  destruct (continues_char a) eqn:Ha; cbn; [by rewrite Ha, IH|].
  destruct n as [|n]; [done|]. cbn. rewrite Ha, IH. lia.
Qed.

(** What a step over a value does, said for values and for lists of them *)
Definition truncates (max_chars : nat) {A} (ok : nat → A → bool) (f : A → bool → A * bool) (a : A) :=
  ∀ truncated, (f a truncated).2 = truncated || negb (ok max_chars a) ∧
    (ok max_chars a = true → (f a truncated).1 = a) ∧
    ok (max_chars + 15) (f a truncated).1 = true.

Lemma each_truncates max_chars {A} (ok : nat → A → bool) f items :
  Forall (truncates max_chars ok f) items →
  truncates max_chars (λ n, forallb (ok n)) (each f) items.
Proof.
  induction 1 as [|a items Ha _ IH]; intros b; cbn [each forallb]; [by rewrite orb_false_r|].
  destruct (Ha b) as (H1 & H2 & H3). destruct (f a b) as [a' b'].
  destruct (IH b') as (H4 & H5 & H6). destruct (each f items b') as [items' b'']. cbn in *.
  split; [rewrite H4, H1; by destruct b, (ok max_chars a)|].
  split; [by intros [->%H2 ->%H5]%andb_true_iff|]. by rewrite H3, H6.
Qed.

Lemma truncate_large_strings_spec max_chars v :
  truncates max_chars short (truncate_large_strings max_chars) v.
Proof.
  induction v as [|b|s|s|items IH|entries IH] using Value_nested_ind; intros truncated;
    try (cbn; by rewrite orb_false_r); cbn [truncate_large_strings short].
  - destruct (max_chars <? chars_count s) eqn:Hlt; cbn [fst snd].
    + apply Nat.ltb_lt in Hlt. rewrite (proj2 (Nat.leb_gt _ _)) by done.
      split; [by rewrite orb_true_r|]. split; [done|].
      apply Nat.leb_le. rewrite chars_count_app, chars_count_take.
      change (chars_count (String _ _)) with 15. lia.
    + apply Nat.ltb_ge in Hlt. rewrite (proj2 (Nat.leb_le _ _)) by done.
      split; [by rewrite orb_false_r|]. split; [done|]. apply Nat.leb_le. lia.
  - destruct (each_truncates _ _ _ _ IH truncated) as (H1 & H2 & H3).
    destruct (each _ items truncated) as [items' b]. cbn in *. split; [done|].
    split; [|done]. by intros ->%H2.
  - set (f := λ '(key, entry) _, _).
    destruct (each_truncates max_chars (λ n e, short n e.2) f entries) with (truncated := truncated)
      as (H1 & H2 & H3).
    { apply (Forall_impl _ _ _ IH). intros [k v] Hv b. destruct (Hv b) as (H1 & H2 & H3).
      subst f. cbn in *. destruct (truncate_large_strings max_chars v b) as [v' b'].
      split; [done|]. split; [|done]. cbn in *. by intros ->%H2. }
    destruct (each f entries truncated) as [entries' b]. cbn in *. split; [done|].
    split; [|done]. by intros ->%H2.
Qed.

(** The compact form of a row is its full form, but for the content of a large tool call with
    a long string: this has no string of more than 4096 characters and the marker. *)
Theorem compact_form json_from_str row response :
  row_to_message_response json_from_str row = Ok response →
  ∃ content, row_to_message_response_compact json_from_str row = Ok (with_content response content) ∧
    (content = response.(mrs_content) ∨
     is_tool_message response.(mrs_type) = true ∧
     (TOOL_CONTENT_COMPACT_THRESHOLD_BYTES < Z.of_nat (String.length row.(mg_content)))%Z ∧
     short TOOL_CONTENT_PREVIEW_CHARS response.(mrs_content) = false ∧
     short (TOOL_CONTENT_PREVIEW_CHARS + 15) content = true).
Proof.
  intros Hr. unfold row_to_message_response_compact. rewrite Hr. cbn [result_bind].
  destruct (negb (is_tool_message (mrs_type response)) || _) eqn:Hsmall.
  - exists (mrs_content response). split; [by destruct response|by left].
  - apply orb_false_iff in Hsmall as [Htool%negb_false_iff Hbig%Z.leb_gt].
    destruct (truncate_large_strings_spec TOOL_CONTENT_PREVIEW_CHARS (mrs_content response) false)
      as (H1 & H2 & H3).
    destruct (truncate_large_strings _ _ false) as [content truncated]. cbn [fst snd orb] in *.
    destruct (short TOOL_CONTENT_PREVIEW_CHARS (mrs_content response)) eqn:Hshort.
    + rewrite H1, H2 in * by done. exists (mrs_content response). cbn [negb].
      split; [|by left]. by destruct (mrs_content response).
    + subst truncated. cbn [negb]. destruct content as [| | | | |entries].
      1-5: eexists; split; [done|]; right; repeat split; done.
      eexists; split; [done|]. right. repeat split; try done.
      clear - H3. cbn [short] in *. induction entries as [|[k v] entries IH]; [vm_compute; done|].
      cbn [forallb object_insert snd] in *. apply andb_true_iff in H3 as [Hv He].
      case_bool_decide; cbn [forallb snd]; [rewrite He; vm_compute; done|]. by rewrite Hv, IH.
Qed.

(** ** A conversation *)

Module PagesDemo.

Definition message (id : string) (type content : string) (created_at : Z) : string * MessageRow :=
  (id, mkMessageRow id "conv" (Some id) type content (Some "left") (Some "finish") false created_at).

Definition tables (rows : list (string * MessageRow)) : Tables := mkTables (list_to_map rows) ∅.

Definition chat : Tables :=
  tables [message "a" "text" "1" 10; message "c" "text" "3" 20; message "b" "text" "2" 20;
          message "x" "cron_trigger" "x" 30; message "d" "text" "4" 40; message "e" "tips" "5" 50].

(** Contents that are strings *)
Definition parse (content : string) : option Value := Some (VString content).

Definition ids (r : result MessagePageResult DbError) : option (list string * bool * bool) :=
  match r with
  | Ok page => Some (mg_id <$> page.(mp_items), page.(mp_has_more_before), page.(mp_has_more_after))
  | Err _ => None
  end.

Example chat_pages :
  (λ direction, ids (list_messages_page "conv" (mkPageParams 2 direction) chat)) <$>
    [InitialLatest; Before (mkCursor 20 "c"); After (mkCursor 20 "b"); Anchor "a"; Anchor "e";
     Anchor "x"; After (mkCursor 50 "e")] =
  [Some (["d"; "e"], true, false); Some (["a"; "b"], false, true); Some (["c"; "d"], true, true);
   Some (["a"; "b"], false, true); Some (["d"; "e"], true, false); None; Some ([], false, false)].
Proof. vm_compute. reflexivity. Qed.

(** ** Cursors that can be read back *)

Lemma digits_no_colon s : all_digits s = true → no_char ":"%char s = true.
Proof.
  induction s as [|a s IH]; [done|]. cbn. intros [Ha Hs]%andb_true_iff. rewrite IH by done.
  rewrite bool_decide_eq_true_2; [done|]. intros ->. by apply bool_decide_eq_true in Ha as [? [=]].
Qed.

Lemma pretty_no_colon (z : Z) : no_char ":"%char (pretty z) = true.
Proof.
  destruct z as [|p|p]; [done| |].
  - change (pretty (Z.pos p)) with (pretty_N_go (N.pos p) EmptyString).
    by apply digits_no_colon, all_digits_pretty.
  - change (pretty (Z.neg p)) with (String "-"%char (pretty_N_go (N.pos p) EmptyString)).
    cbn [no_char]. rewrite bool_decide_eq_true_2 by done.
    by apply digits_no_colon, all_digits_pretty.
Qed.

#[local] Instance plain_codec : CursorCodec.
Proof.
  refine {| b64_encode s := s; b64_decode s := Some s;
            cursor_json c := pretty c.(mc_created_at) +:+ String ":"%char c.(mc_id);
            cursor_of_json s := '(z, id) ← split_once ":"%char s;
              match parse_i64 z with Ok z => Some (mkCursor z id) | Err _ => None end |}.
  - done.
  - intros [z id] Hz. cbn in *. rewrite split_once_app by apply pretty_no_colon. cbn.
    by rewrite parse_i64_pretty.
Defined.

Lemma forallb_locatable rows :
  forallb (λ row, in_i64 row.(mg_created_at) && bool_decide (row.(mg_id) ≠ "")) rows = true →
  Forall locatable rows.
Proof.
  intros Hall. apply Forall_forall. intros row Hrow. rewrite forallb_forall in Hall.
  apply list_elem_of_In, Hall, andb_prop in Hrow as [? ?%bool_decide_eq_true]. by split.
Qed.

Lemma chat_keyed : keyed chat.
Proof.
  intros id row Hrow%elem_of_list_to_map_2.
  repeat (apply elem_of_cons in Hrow as [Heq|Hrow]; [injection Heq as -> ->; reflexivity|]).
  by apply elem_of_nil in Hrow.
Qed.

Example page_is_window_witness :
  ∃ page, list_messages_page "conv" (mkPageParams 3 (Anchor "a")) chat = Ok page ∧
    ∃ earlier later, history "conv" chat = earlier ++ page.(mp_items) ++ later ∧
      length page.(mp_items) = 3.
Proof.
  destruct (list_messages_page "conv" (mkPageParams 3 (Anchor "a")) chat) as [page|e] eqn:Hp;
    [|discriminate Hp].
  exists page. split; [reflexivity|].
  destruct (page_is_window "conv" _ chat page chat_keyed Hp) as (earlier & later & Hh & [_ Hw] & _).
  exists earlier, later. split; [exact Hh|]. exact Hw.
Defined.

Example scroll_covers_history_witness :
  scroll parse 6 "me" "conv" (Some 2) None (Some "me") chat None =
    responses parse false (history "conv" chat) ∧
  match scroll parse 6 "me" "conv" (Some 2) None (Some "me") chat None with
  | Ok items => mrs_id <$> items = ["a"; "b"; "c"; "d"; "e"]
  | Err _ => False
  end.
Proof.
  assert (Hlen : length (history "conv" chat) = 5) by (vm_compute; reflexivity).
  destruct (responses parse false (history "conv" chat)) as [items|e] eqn:Hr; [|discriminate Hr].
  assert (Hloc : Forall locatable (history "conv" chat)) by (apply forallb_locatable; vm_compute; reflexivity).
  pose proof (scroll_covers_history parse "me" "conv" (Some 2) None chat items chat_keyed Hloc Hr) as Hs.
  rewrite Hlen in Hs. split; [exact Hs|]. vm_compute. reflexivity.
Defined.
End PagesDemo.
