(* ===== verification/ConvService.v ===== *)
(** * Conversation: sending, cancelling and deleting

    Models [send_message], [run_agent_turn], [cancel], [delete], [reset],
    [insert_raw_message] and the confirmations of [service.rs] of [aionui-conversation],
    with the statements of [sqlite_conversation.rs] they execute.

    A method is a [program] of operations: one on the runtime state, under its mutex; one
    statement of the database; one request to the rest of the system; one event.  Between two
    operations anything may happen.  Requests are what the environment answers, and what is
    modelled elsewhere: a turn and the tip of a failure ([TurnOrchestrator]), the publisher of
    completed turns ([Stream]).  Building the options of a task, the file system and the
    hooks are outside.  [TurnClaim] is dropped, and thereby released, where it goes out of
    scope. *)
From Stdlib Require Import Ascii.
From S2P Require Import Prelude Text Storage PathSafety ConvRuntime ConvPolicy Stream StreamRelay TurnOrchestrator CronAgents.

(** ** Data *)

(** [cvr] = [ConversationRow] *)
Record ConversationRow := mkConversationRow {
  cvr_id : string;
  cvr_user_id : string;
  cvr_name : string;
  cvr_type : string;
  cvr_extra : string;
  cvr_model : option string;
  cvr_status : option string;
  cvr_source : option string;
  cvr_channel_chat_id : option string;
  cvr_pinned : bool;
  cvr_pinned_at : option Z;
  cvr_created_at : Z;
  cvr_updated_at : Z;
}.

(** The tables; of an artifact, its conversation *)
Record ServiceTables := mkServiceTables {
  st_conversations : gmap string ConversationRow;
  st_messages : gmap string MessageRow;
  st_artifacts : gmap string string;
}.

(** [ConversationError], as far as it is returned here *)
Inductive ServiceError :=
  | SvNotFound (id : string)
  | SvActiveAgentNotFound (conversation_id : string)
  | SvArchived (id reason : string)
  | SvBadRequest (reason : string)
  | SvBusy (reason : string)
  | SvForbidden (reason : string)
  | SvInternal (reason : string)
  | SvAgent (failure : TurnFailure)
  | SvDb (e : DbError).

Inductive ExternalAcpPolicy := AcpEnabled | AcpDisabled.

(** [tv]: what is read of a task: its agent, its status and the pending confirmations
    [(call_id, id)]. *)
Record TaskView := mkTaskView {
  tv_agent_type : AgentType;
  tv_status : option ConversationStatus;
  tv_confirmations : list (string * string);
}.

(** [bo] = [BuildTaskOptions]: what the service and the orchestrator read *)
Record BuildTaskOptions := mkBuildOptions {
  bo_agent_id : option string;
  bo_skills : list string;
  bo_stored_workspace : string;
}.

Section data.
Context `{!JsonValue}.

(** [rq] = [SendMessageRequest] *)
Record SendMessageRequest := mkSendRequest {
  rq_content : string;
  rq_attachments : list json;
  rq_hidden : bool;
}.

(** [ServiceEvent]: [message.userCreated], [message.stream], [conversation.listChanged],
    [confirmation.remove] *)
Inductive ServiceEvent :=
  | EventUserCreated (row : MessageRow) (content : string) (attachments : list json)
  | EventStream (msg_id : string) (row : MessageRow)
  | EventListChanged (conversation_id action : string) (source : option string)
  | EventConfirmationRemove (conversation_id id : string).
End data.

(** [ar] = [ConversationAgentTurnRequest]; the callback is a request of the program. *)
Record ConversationAgentTurnRequest := mkAgentTurnRequest {
  ar_user_id : string;
  ar_conversation_id : string;
  ar_content : string;
  ar_required_runtime_mode : option string;
  ar_persist_user_message : bool;
  ar_user_message_hidden : bool;
  ar_on_started : bool;
}.

(** [ConversationAgentTurnOutcome] *)
Record ConversationAgentTurnOutcome := mkAgentTurnOutcome {
  ao_turn_id : string;
  ao_status : ConversationTurnStatus;
  ao_error_message : option string;
  ao_runtime : ConversationRuntimeSummary;
}.

(** [SendMessageResponse] *)
Record SendMessageResponse := mkSendResponse {
  sr_msg_id : string;
  sr_turn_id : string;
  sr_runtime : ConversationRuntimeSummary;
}.

(** How [remove_dir_all] ends *)
Inductive RemoveOutcome := DirRemoved | DirNotFound | DirFailed.

(** ** Statements *)

Definition db_get (id : string) (t : ServiceTables) :
    result (option ConversationRow) DbError * ServiceTables := (Ok (t.(st_conversations) !! id), t).

(** Messages and artifacts go with their conversation. *)
Definition db_delete (id : string) (t : ServiceTables) : result unit DbError * ServiceTables :=
  match t.(st_conversations) !! id with
  | None => (Err (NotFound ("Conversation '" +:+ id +:+ "' not found")), t)
  | Some _ =>
      (Ok tt, mkServiceTables (delete id t.(st_conversations))
                (filter (λ e, e.2.(mg_conversation_id) ≠ id) t.(st_messages))
                (filter (λ e, e.2 ≠ id) t.(st_artifacts)))
  end.

Definition db_insert_message (row : MessageRow) (t : ServiceTables) :
    result unit DbError * ServiceTables :=
  if bool_decide (is_Some (t.(st_messages) !! row.(mg_id))) ||
     negb (bool_decide (is_Some (t.(st_conversations) !! row.(mg_conversation_id))))
  then (Err Query, t)
  else (Ok tt, mkServiceTables t.(st_conversations) (<[row.(mg_id) := row]> t.(st_messages))
                 t.(st_artifacts)).

Definition db_delete_messages (conv_id : string) (t : ServiceTables) :
    result unit DbError * ServiceTables :=
  (Ok tt, mkServiceTables t.(st_conversations)
            (filter (λ e, e.2.(mg_conversation_id) ≠ conv_id) t.(st_messages)) t.(st_artifacts)).

Definition db_delete_artifacts (conv_id : string) (t : ServiceTables) :
    result unit DbError * ServiceTables :=
  (Ok tt, mkServiceTables t.(st_conversations) t.(st_messages)
            (filter (λ e, e.2 ≠ conv_id) t.(st_artifacts))).

(** [update] with a status and [updated_at] *)
Definition db_set_status (id status : string) (updated_at : Z) (t : ServiceTables) :
    result unit DbError * ServiceTables :=
  match t.(st_conversations) !! id with
  | None => (Err (NotFound ("Conversation '" +:+ id +:+ "' not found")), t)
  | Some row =>
      (Ok tt, mkServiceTables
        (<[id := mkConversationRow row.(cvr_id) row.(cvr_user_id) row.(cvr_name) row.(cvr_type)
             row.(cvr_extra) row.(cvr_model) (Some status) row.(cvr_source)
             row.(cvr_channel_chat_id) row.(cvr_pinned) row.(cvr_pinned_at) row.(cvr_created_at)
             updated_at]> t.(st_conversations))
        t.(st_messages) t.(st_artifacts))
  end.

(** ** Operations *)

(** The calls of the runtime state; reading it is one call. *)
Inductive RuntimeOp : Type → Type :=
  | TryClaim (conversation_id turn_id : string) : RuntimeOp (result TurnClaim ClaimError)
  | ReleaseClaim (claim : TurnClaim) : RuntimeOp bool
  | ReleaseForTurn (turn_id : string) (claim : TurnClaim) : RuntimeOp bool
  | MarkDeleting (conversation_id : string) : RuntimeOp bool
  | ClearDeleting (conversation_id : string) : RuntimeOp unit
  | MarkCancelling (conversation_id : string) : RuntimeOp unit
  | ClearCancelling (conversation_id : string) : RuntimeOp unit
  | ReadRuntime {X} (f : ConversationRuntimeStateService → X) : RuntimeOp X.

(** The answer of a release and the state after it *)
Definition released (r : bool * TurnClaim * option ConversationRuntimeStateService)
    (sv : ConversationRuntimeStateService) : bool * ConversationRuntimeStateService :=
  (r.1.1, default sv r.2).

Definition runtime_op {X} (op : RuntimeOp X) (sv : ConversationRuntimeStateService) :
    X * ConversationRuntimeStateService :=
  match op in RuntimeOp X return X * ConversationRuntimeStateService with
  | TryClaim conversation_id turn_id => try_claim_turn conversation_id turn_id sv
  | ReleaseClaim claim => released (release_inner claim (Some sv)) sv
  | ReleaseForTurn turn_id claim => released (release_for_turn turn_id claim (Some sv)) sv
  | MarkDeleting conversation_id => mark_deleting conversation_id sv
  | ClearDeleting conversation_id => (tt, clear_deleting conversation_id sv)
  | MarkCancelling conversation_id => (tt, mark_cancelling conversation_id sv)
  | ClearCancelling conversation_id => (tt, clear_cancelling conversation_id sv)
  | ReadRuntime f => (f sv, sv)
  end.

Section service.
Context `{!JsonValue}.

(** What the service asks of the rest of the system, with the type of the answer *)
Inductive Request : Type → Type :=
  | NowMs : Request Z
  | GenerateShortId : Request string
  | GetTask (conversation_id : string) : Request (option TaskView)
  | HostPolicy : Request ExternalAcpPolicy
  | ReplySenderRegistered : Request bool
  | BuildOptions (row : ConversationRow) : Request (result BuildTaskOptions TurnFailure)
  | LinkSkills (row : ConversationRow) (options : BuildTaskOptions) : Request unit
  | FailureTip (conversation_id turn_id : string) (failure : TurnFailure) : Request unit
  | Publish (conversation_id turn_id : string) (runtime : ConversationRuntimeSummary) : Request unit
  | RunTurn (input : TurnStartInput) : Request ConversationTurnResult
  | OnStarted (conversation_id turn_id : string) : Request unit
  | CancelAgent (conversation_id : string) : Request (option TurnFailure)
  | SleepMs (ms : Z) : Request unit
  | KillAndWait (conversation_id : string) : Request unit
  | ConfirmTask (conversation_id call_id : string) : Request (option TurnFailure)
  | CheckApproval (conversation_id action : string) (command_type : option string) : Request bool
  | DeleteHooks : Request nat
  | RunDeleteHook (n : nat) (conversation_id : string) : Request unit
  | DeleteAcpSession (conversation_id : string) : Request unit
  | FileSystem : Request (string → result string string)
  | RemoveDirAll (path : string) : Request RemoveOutcome
  | RemoveDir (path : string) : Request bool.

Inductive operation : Type → Type :=
  | Runtime {X} (op : RuntimeOp X) : operation X
  | Sql {X} (f : ServiceTables → result X DbError * ServiceTables) : operation (result X DbError)
  | AskFor {X} (q : Request X) : operation X
  | Broadcast (event : ServiceEvent) : operation unit
  | SpawnTurn (input : TurnStartInput) : operation unit
  | SpawnCancelWatch (conversation_id turn_id : string) : operation unit.

Inductive program (A : Type) : Type :=
  | Done (a : A)
  | Then {X : Type} (o : operation X) (k : X → program A).
Arguments Done {A} a.
Arguments Then {A X} o k.

#[global] Instance program_ret : MRet program := λ A a, Done a.
#[global] Instance program_bind : MBind program :=
  fix bind A B (f : A → program B) p :=
    match p with
    | Done a => f a
    | Then o k => Then o (λ x, bind A B f (k x))
    end.

Definition perform {X} (o : operation X) : program X := Then o Done.
Definition ask {X} (q : Request X) : program X := perform (AskFor q).
Definition runtime_call {X} (op : RuntimeOp X) : program X := perform (Runtime op).
Definition read_runtime {X} (f : ConversationRuntimeStateService → X) : program X :=
  runtime_call (ReadRuntime f).
Definition emit (event : ServiceEvent) : program unit := perform (Broadcast event).

(** The [?] of a method *)
Definition try_program {A B E} (p : program (result A E)) (k : A → program (result B E)) :
    program (result B E) :=
  r ← p; match r with Ok a => k a | Err e => Done (Err e) end.

Definition sql {X} (f : ServiceTables → result X DbError * ServiceTables) :
    program (result X ServiceError) :=
  r ← perform (Sql f); Done (match r with Ok x => Ok x | Err e => Err (SvDb e) end).
End service.

Arguments Done {_ A} a.
Arguments Then {_ A X} o k.
Notation "x ←?! p ; k" := (try_program p (λ x, k))
  (at level 20, p at level 100, k at level 200, only parsing) : stdpp_scope.

(** ** Reading a row *)

Section methods.
Context `{!JsonValue} (json_from_str : string → option json) (workspace_root : string).

Definition EXTERNAL_ACP_DISABLED_MESSAGE : string :=
  "External ACP runtimes are disabled by the host application.".
Definition LEGACY_CONVERSATION_ARCHIVED_MESSAGE : string :=
  "This historical conversation can no longer be continued. Please start a new conversation.".

(** [ExternalAcpPolicy::allows] *)
Definition policy_allows (policy : ExternalAcpPolicy) (agent_type : AgentType) : bool :=
  bool_decide (agent_type ≠ Acp) || match policy with AcpEnabled => true | AcpDisabled => false end.

Definition supports_new_conversation (agent_type : AgentType) : bool :=
  match agent_type with Acp | Aionrs => true | _ => false end.

Definition is_deprecated_runtime (agent_type : AgentType) : bool :=
  negb (supports_new_conversation agent_type).

(** [policy]: that of the host at this moment *)
Definition reject_deprecated_runtime_row (policy : ExternalAcpPolicy) (row : ConversationRow) :
    result unit ServiceError :=
  match agent_type_from_name row.(cvr_type) with
  | None => Ok tt
  | Some agent_type =>
      let blocked_by_host := negb (policy_allows policy agent_type) in
      if is_deprecated_runtime agent_type || blocked_by_host
      then Err (SvArchived row.(cvr_id)
                  (if blocked_by_host then EXTERNAL_ACP_DISABLED_MESSAGE
                   else LEGACY_CONVERSATION_ARCHIVED_MESSAGE))
      else Ok tt
  end.

Definition extra_string_field (extra : json) (key : string) : option string :=
  value ← json_get key extra ≫= json_as_str;
  if is_blank value then None else Some value.

Definition team_id_from_extra (extra : string) : option string :=
  value ← json_from_str extra; extra_string_field value "teamId".

(** [registered]: a sender is registered. *)
Definition external_reply_target (registered : bool) (row : ConversationRow) :
    option (string * string) :=
  source ← utrim <$> row.(cvr_source);
  chat_id ← utrim <$> row.(cvr_channel_chat_id);
  if bool_decide (source = "" ∨ chat_id = "" ∨ source = "aionui") then None
  else if registered then Some (source, chat_id) else None.

(** The row of a conversation of this user *)
Definition owned_conversation (user_id id : string) : program (result ConversationRow ServiceError) :=
  row ←?! sql (db_get id);
  Done (match row with
        | Some row => if bool_decide (row.(cvr_user_id) = user_id) then Ok row
                      else Err (SvNotFound id)
        | None => Err (SvNotFound id)
        end).

Definition claim_error (e : ClaimError) : ServiceError :=
  match e with Busy reason => SvBusy reason | Internal reason => SvInternal reason end.

(** ** The end of a turn *)

Definition runtime_summary_for (conversation_id : string) : program ConversationRuntimeSummary :=
  agent ← ask (GetTask conversation_id);
  read_runtime (summary_from_parts conversation_id (agent ≫= tv_status)
                  (bool_decide (is_Some agent))
                  (match agent with Some view => length view.(tv_confirmations) | None => 0 end)).

(** [complete_turn] and [complete_released_turn] *)
Definition service_complete_turn (conversation_id turn_id : string) (was_deleting : bool) :
    program unit :=
  if was_deleting then Done tt
  else
    runtime ← runtime_summary_for conversation_id;
    ask (Publish conversation_id turn_id runtime).

(** A claim that no turn took over is released, and its turn completed. *)
Definition give_back (conversation_id turn_id : string) (turn_claim : TurnClaim) : program unit :=
  was_deleting ← runtime_call (ReleaseClaim turn_claim);
  service_complete_turn conversation_id turn_id was_deleting.

(** [run_user_turn]: the attempts are one request, of the runtime state it touches its end. *)
Definition service_user_turn (input : TurnStartInput) : program ConversationTurnResult :=
  turn_result ← ask (RunTurn input);
  was_deleting ← runtime_call (ReleaseForTurn input.(ti_turn_id) input.(ti_turn_claim));
  _ ← service_complete_turn input.(ti_conversation_id) input.(ti_turn_id) was_deleting;
  Done turn_result.

(** ** Sending *)

Definition mint_turn_id : program string :=
  id ← ask GenerateShortId; Done ("turn_" +:+ id).

Definition user_message (conversation_id id content : string) (hidden : bool) (created_at : Z) :
    MessageRow :=
  mkMessageRow id conversation_id (Some id) "text" content (Some "right") (Some "finish") hidden
    created_at.

Definition send_message_response (conversation_id msg_id turn_id : string) :
    program (result SendMessageResponse ServiceError) :=
  runtime ← runtime_summary_for conversation_id;
  Done (Ok (mkSendResponse msg_id turn_id runtime)).

Definition turn_input (conversation_id content : string) (mode : option string)
    (options : BuildTaskOptions) (turn_id : string) (claim : TurnClaim)
    (reply : option (string * string)) : TurnStartInput :=
  mkTurnStartInput conversation_id content mode options.(bo_agent_id) options.(bo_skills)
    options.(bo_stored_workspace) turn_id claim reply.

(** What follows the storing of the message: a turn is spawned, or the failure to build its
    options is told. *)
Definition start_turn (row : ConversationRow) (conversation_id : string) (req : SendMessageRequest)
    (mirror_external_reply : bool) (turn_id : string) (turn_claim : TurnClaim) : program unit :=
  built ← ask (BuildOptions row);
  match built with
  | Err failure =>
      _ ← ask (FailureTip conversation_id turn_id failure);
      give_back conversation_id turn_id turn_claim
  | Ok options =>
      _ ← ask (LinkSkills row options);
      registered ← (if mirror_external_reply then ask ReplySenderRegistered else Done false);
      let external_reply := if mirror_external_reply then external_reply_target registered row
                            else None in
      perform (SpawnTurn (turn_input conversation_id req.(rq_content) None options turn_id
                            turn_claim external_reply))
  end.

(** [send_message_inner], from the claim on *)
Definition send_with_claim (row : ConversationRow) (conversation_id : string)
    (req : SendMessageRequest) (mirror_external_reply : bool) (turn_id : string)
    (turn_claim : TurnClaim) : program (result SendMessageResponse ServiceError) :=
  user_msg_id ← ask GenerateShortId;
  created_at ← ask NowMs;
  let user_msg := user_message conversation_id user_msg_id
    (json_display (json_object [("content", json_string req.(rq_content));
                                ("attachments", json_array req.(rq_attachments))]))
    req.(rq_hidden) created_at in
  allowed ← read_runtime (allows conversation_id WriteUserMessage);
  if negb allowed then
    _ ← give_back conversation_id turn_id turn_claim;
    send_message_response conversation_id user_msg_id turn_id
  else
    stored ← sql (db_insert_message user_msg);
    match stored with
    | Err e =>
        (* the claim goes out of scope *)
        _ ← runtime_call (ReleaseClaim turn_claim);
        Done (Err e)
    | Ok _ =>
        _ ← emit (EventUserCreated user_msg req.(rq_content) req.(rq_attachments));
        _ ← start_turn row conversation_id req mirror_external_reply turn_id turn_claim;
        send_message_response conversation_id user_msg_id turn_id
    end.

Definition send_message_inner (user_id conversation_id : string) (req : SendMessageRequest)
    (mirror_external_reply : bool) : program (result SendMessageResponse ServiceError) :=
  if is_blank req.(rq_content)
  then Done (Err (SvBadRequest "Message content must not be empty"))
  else
    row ←?! owned_conversation user_id conversation_id;
    if bool_decide (is_Some (team_id_from_extra row.(cvr_extra)))
    then Done (Err (SvForbidden "Team-owned conversations must be sent through Team API"))
    else
      policy ← ask HostPolicy;
      _ ←?! Done (reject_deprecated_runtime_row policy row);
      turn_id ← mint_turn_id;
      claimed ← runtime_call (TryClaim conversation_id turn_id);
      match claimed with
      | Err e => Done (Err (claim_error e))
      | Ok turn_claim =>
          send_with_claim row conversation_id req mirror_external_reply turn_id turn_claim
      end.

Definition service_send_message (user_id conversation_id : string) (req : SendMessageRequest) :=
  send_message_inner user_id conversation_id req false.
Definition send_message_with_external_reply (user_id conversation_id : string)
    (req : SendMessageRequest) :=
  send_message_inner user_id conversation_id req true.

(** [send_error_display_message] of [service.rs] *)
Definition service_display_message (error : AgentSendError) : string :=
  let data := error.(se_stream_error) in
  match data.(ed_detail) with
  | Some detail => if is_blank detail then data.(ed_message) else detail
  | None => data.(ed_message)
  end.

(** The message of the user, when it is to be stored: whether the turn goes on *)
Definition store_user_message (request : ConversationAgentTurnRequest) : program (result unit ServiceError) :=
  if negb request.(ar_persist_user_message) then Done (Ok tt)
  else
    user_msg_id ← ask GenerateShortId;
    created_at ← ask NowMs;
    let user_msg := user_message request.(ar_conversation_id) user_msg_id
      (json_display (json_object [("content", json_string request.(ar_content))]))
      request.(ar_user_message_hidden) created_at in
    allowed ← read_runtime (allows request.(ar_conversation_id) WriteUserMessage);
    if (allowed : bool) then sql (db_insert_message user_msg) else Done (Ok tt).

(** [run_agent_turn], from the claim on *)
Definition agent_turn_of_claim (request : ConversationAgentTurnRequest) (row : ConversationRow)
    (turn_id : string) (turn_claim : TurnClaim) :
    program (result ConversationAgentTurnOutcome ServiceError) :=
  let conversation_id := request.(ar_conversation_id) in
  stored ← store_user_message request;
  match stored with
  | Err e => _ ← give_back conversation_id turn_id turn_claim; Done (Err e)
  | Ok _ =>
      _ ← (if request.(ar_on_started) then ask (OnStarted conversation_id turn_id) else Done tt);
      built ← ask (BuildOptions row);
      match built with
      | Err failure =>
          _ ← ask (FailureTip conversation_id turn_id failure);
          _ ← give_back conversation_id turn_id turn_claim;
          runtime ← runtime_summary_for conversation_id;
          Done (Ok (mkAgentTurnOutcome turn_id TurnFailed
                      (Some (service_display_message failure.(tf_send_error))) runtime))
      | Ok options =>
          _ ← ask (LinkSkills row options);
          turn_result ← service_user_turn (turn_input conversation_id request.(ar_content)
                          request.(ar_required_runtime_mode) options turn_id turn_claim None);
          runtime ← runtime_summary_for conversation_id;
          Done (Ok (mkAgentTurnOutcome turn_id turn_result.(ctr_status)
                      turn_result.(ctr_error_message) runtime))
      end
  end.

Definition run_agent_turn (request : ConversationAgentTurnRequest) :
    program (result ConversationAgentTurnOutcome ServiceError) :=
  if is_blank request.(ar_content)
  then Done (Err (SvBadRequest "Agent turn content must not be empty"))
  else
    row ←?! owned_conversation request.(ar_user_id) request.(ar_conversation_id);
    policy ← ask HostPolicy;
    _ ←?! Done (reject_deprecated_runtime_row policy row);
    turn_id ← mint_turn_id;
    claimed ← runtime_call (TryClaim request.(ar_conversation_id) turn_id);
    match claimed with
    | Err e => Done (Err (claim_error e))
    | Ok turn_claim => agent_turn_of_claim request row turn_id turn_claim
    end.

(** [insert_raw_message]; the event carries the content as JSON. *)
Definition insert_raw_message (row : MessageRow) : program (result unit ServiceError) :=
  _ ←?! sql (db_insert_message row);
  _ ← emit (EventStream (default row.(mg_id) row.(mg_msg_id)) row);
  Done (Ok tt).

(** ** Cancelling *)

Definition ACP_CANCEL_DRAIN_TIMEOUT_MS : Z := 15000.

(** The task that kills an agent which does not end its turn *)
Definition cancel_watch (conversation_id turn_id : string) : program unit :=
  _ ← ask (SleepMs ACP_CANCEL_DRAIN_TIMEOUT_MS);
  active ← read_runtime (active_turn_id_for conversation_id);
  if bool_decide (active = Some turn_id) then
    cancelling ← read_runtime (is_cancelling conversation_id);
    if (cancelling : bool) then ask (KillAndWait conversation_id) else Done tt
  else Done tt.

Definition cancel_response (conversation_id : string) :
    program (result ConversationRuntimeSummary ServiceError) :=
  runtime ← runtime_summary_for conversation_id; Done (Ok runtime).

Definition cancel (user_id conversation_id turn_id : string) :
    program (result ConversationRuntimeSummary ServiceError) :=
  _ ←?! owned_conversation user_id conversation_id;
  active_turn_id ← read_runtime (active_turn_id_for conversation_id);
  if bool_decide (active_turn_id ≠ Some turn_id) then cancel_response conversation_id
  else
    task ← ask (GetTask conversation_id);
    match task with
    | None => cancel_response conversation_id
    | Some agent =>
        _ ← runtime_call (MarkCancelling conversation_id);
        failure ← ask (CancelAgent conversation_id);
        match failure with
        | Some failure =>
            _ ← runtime_call (ClearCancelling conversation_id);
            Done (Err (SvAgent failure))
        | None =>
            _ ← (if bool_decide (agent.(tv_agent_type) = Acp)
                 then perform (SpawnCancelWatch conversation_id turn_id) else Done tt);
            cancel_response conversation_id
        end
    end.

(** ** The workspace of a conversation *)

Fixpoint ends_with (suffix s : string) : bool :=
  bool_decide (s = suffix) ||
  match s with EmptyString => false | String _ s => ends_with suffix s end.

(** [Path::strip_prefix], by its components *)
Fixpoint strip_components (base path : list Component) : option (list Component) :=
  match base, path with
  | [], rest => Some rest
  | b :: base, p :: path => if bool_decide (b = p) then strip_components base path else None
  | _ :: _, [] => None
  end.

Definition is_date_part (len : nat) (c : Component) : bool :=
  bool_decide (String.length (component_string c) = len) && all_digits (component_string c).

Definition is_dated_auto_workspace_relative_path (relative : list Component) : bool :=
  match relative with
  | [year; month; day; _] => is_date_part 4 year && is_date_part 2 month && is_date_part 2 day
  | _ => false
  end.

Definition is_auto_workspace_relative_path (relative : list Component) : bool :=
  match relative with
  | [_] => true
  | _ => is_dated_auto_workspace_relative_path relative
  end.

(** [Result::ok] *)
Definition result_ok {A E} (r : result A E) : option A :=
  match r with Ok a => Some a | Err _ => None end.

(** [canonicalize]: the file system at this moment *)
Definition auto_provisioned_workspace_to_delete (canonicalize : string → result string string)
    (row : ConversationRow) (conversation_id : string) : option string :=
  extra ← json_from_str row.(cvr_extra);
  workspace ← utrim <$> (json_get "workspace" extra ≫= json_as_str);
  if bool_decide (workspace = "") || negb (is_absolute workspace) then None
  else
    conversations_root ← result_ok (canonicalize (join workspace_root "conversations"));
    workspace_path ← result_ok (canonicalize workspace);
    file_name ← file_name workspace_path;
    if negb (ends_with ("-temp-" +:+ conversation_id) file_name) then None
    else
      relative ← strip_components (components conversations_root) (components workspace_path);
      if is_auto_workspace_relative_path relative then Some workspace_path else None.

(** The directories of the day, the month and the year *)
Definition date_workspace_parent_dirs (canonicalize : string → result string string)
    (workspace_path : string) : option (list string) :=
  conversations_root ← result_ok (canonicalize (join workspace_root "conversations"));
  relative ← strip_components (components conversations_root) (components workspace_path);
  if negb (is_dated_auto_workspace_relative_path relative) then None
  else
    day_dir ← parent workspace_path;
    month_dir ← parent day_dir;
    year_dir ← parent month_dir;
    Some [day_dir; month_dir; year_dir].

(** [remove_dir] removes empty directories only; the loop ends with the first failure. *)
Fixpoint remove_empty_dirs (dirs : list string) : program unit :=
  match dirs with
  | [] => Done tt
  | dir :: dirs =>
      removed ← ask (RemoveDir dir);
      if (removed : bool) then remove_empty_dirs dirs else Done tt
  end.

Definition cleanup_empty_date_workspace_parents (workspace_path : string) : program unit :=
  canonicalize ← ask FileSystem;
  remove_empty_dirs (default [] (date_workspace_parent_dirs canonicalize workspace_path)).

Definition delete_workspace (workspace : option string) : program unit :=
  match workspace with
  | None => Done tt
  | Some workspace =>
      outcome ← ask (RemoveDirAll workspace);
      match outcome with
      | DirRemoved | DirNotFound => cleanup_empty_date_workspace_parents workspace
      | DirFailed => Done tt
      end
  end.

(** ** Deleting and resetting *)

(** [for hook in hooks]: [count] of them, the [n]-th next *)
Fixpoint run_delete_hooks (n count : nat) (id : string) : program unit :=
  match count with
  | 0 => Done tt
  | S count => _ ← ask (RunDeleteHook n id); run_delete_hooks (S n) count id
  end.

(** [string_to_enum::<ConversationSource>] is [parse_source]. *)
Definition delete_conversation (parse_source : string → option string) (user_id id : string) :
    program (result unit ServiceError) :=
  existing ←?! owned_conversation user_id id;
  let source := existing.(cvr_source) ≫= parse_source in
  canonicalize ← ask FileSystem;
  let auto_workspace_to_delete := auto_provisioned_workspace_to_delete canonicalize existing id in
  had_active_turn ← runtime_call (MarkDeleting id);
  hooks ← ask DeleteHooks;
  _ ← run_delete_hooks 0 hooks id;
  deleted ← sql (db_delete id);
  match deleted with
  | Err e => _ ← runtime_call (ClearDeleting id); Done (Err e)
  | Ok _ =>
      _ ← (if (had_active_turn : bool) then Done tt else runtime_call (ClearDeleting id));
      _ ← ask (DeleteAcpSession id);
      _ ← delete_workspace auto_workspace_to_delete;
      _ ← emit (EventListChanged id "deleted" source);
      Done (Ok tt)
  end.

Definition reset_conversation (user_id id : string) : program (result unit ServiceError) :=
  _ ←?! owned_conversation user_id id;
  _ ←?! sql (db_delete_messages id);
  _ ←?! sql (db_delete_artifacts id);
  now ← ask NowMs;
  sql (db_set_status id "pending" now).

(** ** Confirmations *)

Definition list_confirmations (user_id conversation_id : string) :
    program (result (list (string * string)) ServiceError) :=
  _ ←?! owned_conversation user_id conversation_id;
  agent ← ask (GetTask conversation_id);
  Done (Ok (match agent with Some view => view.(tv_confirmations) | None => [] end)).

Definition confirm_call (user_id conversation_id call_id : string) :
    program (result unit ServiceError) :=
  _ ←?! owned_conversation user_id conversation_id;
  agent ← ask (GetTask conversation_id);
  match agent with
  | None => Done (Err (SvActiveAgentNotFound conversation_id))
  | Some view =>
      let conf_id := snd <$> find (λ c, bool_decide (c.1 = call_id)) view.(tv_confirmations) in
      failure ← ask (ConfirmTask conversation_id call_id);
      match failure with
      | Some failure => Done (Err (SvAgent failure))
      | None =>
          _ ← (match conf_id with
               | Some id => emit (EventConfirmationRemove conversation_id id)
               | None => Done tt
               end);
          Done (Ok tt)
      end
  end.

Definition check_approval (user_id conversation_id action : string) (command_type : option string) :
    program (result bool ServiceError) :=
  _ ←?! owned_conversation user_id conversation_id;
  agent ← ask (GetTask conversation_id);
  match agent with
  | None => Done (Ok false)
  | Some _ =>
      approved ← ask (CheckApproval conversation_id action command_type);
      Done (Ok approved)
  end.
End methods.

(** ** Running a method *)

Section running.
Context `{!JsonValue}.

(** [ss]: what the methods share *)
Record ServiceState := mkServiceState {
  ss_runtime : ConversationRuntimeStateService;
  ss_tables : ServiceTables;
}.

(** What a step takes from outside: what others did before it, whether its statement fails,
    and the answers *)
Class ServiceEnv := {
  sv_others : ServiceState → ServiceState;
  sv_fails : bool;
  sv_answer : ∀ X, Request X → X;
}.

Definition operation_step (e : ServiceEnv) {X} (o : operation X) (s : ServiceState) :
    X * ServiceState :=
  match o in operation X return X * ServiceState with
  | Runtime op =>
      let '(x, sv) := runtime_op op s.(ss_runtime) in (x, mkServiceState sv s.(ss_tables))
  | Sql f =>
      if sv_fails then (Err Query, s)
      else let '(r, t) := f s.(ss_tables) in (r, mkServiceState s.(ss_runtime) t)
  | @AskFor _ X q => (sv_answer X q, s)
  | Broadcast _ | SpawnTurn _ | SpawnCancelWatch _ _ => (tt, s)
  end.

(** An operation that was performed, with its answer *)
Definition Performed : Type := {X : Type & (operation X * X)%type}.

(** A method, its [n]-th step in the environment [env n]: what it answers, what it performed,
    and the state after it *)
Fixpoint run_program (env : nat → ServiceEnv) {A} (p : program A) (s : ServiceState) :
    A * list Performed * ServiceState :=
  match p with
  | Done a => (a, [], s)
  | @Then _ _ X o k =>
      let '(x, s) := operation_step (env 0) o (sv_others (ServiceEnv := env 0) s) in
      let '(a, performed, s) := run_program (env ∘ S) (k x) s in
      (a, existT X (o, x) :: performed, s)
  end.
End running.
