(* ===== verification/ConvServiceProps.v ===== *)
(** * Conversation: claims are given back, and what sending does

    A running method owns the claim it got until it releases it or hands it to a turn
    ([wp]).  Of the methods and turns that run at once ([ServicePool]): the turns the runtime
    state records are those of the claims they own, a conversation is being deleted only while
    a deletion or a turn will clear the mark, and when nothing runs the next turn of every
    conversation can be claimed ([conversations_are_freed]). *)
From Stdlib Require Import Ascii.
From S2P Require Import Prelude Text Storage PathSafety ConvRuntime ConvPolicy Stream TurnOrchestrator ConvService.

(** ** What a method owns *)

Section ownership.
Context `{!JsonValue}.

Definition runtime_claim_after {X} (op : RuntimeOp X) (own : option TurnClaim) :
    X → option TurnClaim :=
  match op in RuntimeOp X return X → option TurnClaim with
  | TryClaim _ _ => λ r, match r with Ok claim => Some claim | Err _ => own end
  | ReleaseClaim _ | ReleaseForTurn _ _ => λ _, None
  | _ => λ _, own
  end.

(** The claim a method owns after an operation with this answer *)
Definition claim_after {X} (o : operation X) (own : option TurnClaim) : X → option TurnClaim :=
  match o in operation X return X → option TurnClaim with
  | Runtime op => runtime_claim_after op own
  | SpawnTurn _ => λ _, None
  | _ => λ _, own
  end.

Definition runtime_mark_after {X} (op : RuntimeOp X) (mark : option string) : X → option string :=
  match op in RuntimeOp X return X → option string with
  | MarkDeleting id => λ had_active_turn, if had_active_turn then mark else Some id
  | ClearDeleting _ => λ _, None
  | _ => λ _, mark
  end.

(** The conversation that a deletion has found without a turn, and will clear *)
Definition mark_after {X} (o : operation X) (mark : option string) : X → option string :=
  match o in operation X return X → option string with
  | Runtime op => runtime_mark_after op mark
  | _ => λ _, mark
  end.

Definition runtime_fits {X} (op : RuntimeOp X) (own : option TurnClaim) (mark : option string) : Prop :=
  match op with
  | TryClaim _ _ => own = None
  | ReleaseClaim claim => own = Some claim
  | ReleaseForTurn turn_id claim => own = Some claim ∧ claim.(tc_turn_id) = turn_id
  | MarkDeleting _ => mark = None
  | ClearDeleting id => mark = None ∨ mark = Some id
  | _ => True
  end.

(** The operation is one for a method that owns this. *)
Definition fits {X} (o : operation X) (own : option TurnClaim) (mark : option string) : Prop :=
  match o with
  | Runtime op => runtime_fits op own mark
  | SpawnTurn input =>
      own = Some input.(ti_turn_claim) ∧ input.(ti_turn_claim).(tc_turn_id) = input.(ti_turn_id)
  | _ => True
  end.

Definition runtime_answers {X} (op : RuntimeOp X) : X → Prop :=
  match op in RuntimeOp X return X → Prop with
  | TryClaim conversation_id turn_id =>
      λ r, ∀ claim, r = Ok claim → claim = mkTurnClaim conversation_id turn_id false
  | _ => λ _, True
  end.

Definition answers {X} (o : operation X) : X → Prop :=
  match o in operation X return X → Prop with
  | Runtime op => runtime_answers op
  | _ => λ _, True
  end.

(** From a method that owns [own] and must clear [mark], every end of the program satisfies
    [Q]. *)
Fixpoint wp {A} (own : option TurnClaim) (mark : option string) (p : program A)
    (Q : A → option TurnClaim → option string → Prop) : Prop :=
  match p with
  | Done a => Q a own mark
  | Then o k =>
      fits o own mark ∧ ∀ x, answers o x → wp (claim_after o own x) (mark_after o mark x) (k x) Q
  end.

(** Nothing is owned at the end. *)
Definition balanced {A} (own : option TurnClaim) (mark : option string) (p : program A) : Prop :=
  wp own mark p (λ _ own mark, own = None ∧ mark = None).

Lemma wp_mono {A} own mark (p : program A) (Q Q' : A → option TurnClaim → option string → Prop) :
  (∀ a own mark, Q a own mark → Q' a own mark) → wp own mark p Q → wp own mark p Q'.
Proof.
  intros HQ. revert own mark. induction p as [a|X o k IH]; intros own mark; cbn; [apply HQ|].
  intros [Hf Hk]. split; [done|]. intros x Hx. apply IH, Hk, Hx.
Qed.

Lemma wp_bind {A B} own mark (p : program A) (f : A → program B) Q :
  wp own mark p (λ a own mark, wp own mark (f a) Q) → wp own mark (p ≫= f) Q.
Proof.
  revert own mark. induction p as [a|X o k IH]; intros own mark; [done|].
  intros [Hf Hk]. split; [done|]. intros x Hx. apply IH, Hk, Hx.
Qed.

(** A part that only reads, asks and writes *)
Fixpoint neutral {A} (p : program A) : Prop :=
  match p with
  | Done _ => True
  | Then o k =>
      (∀ own mark, fits o own mark) ∧
      (∀ own mark x, claim_after o own x = own ∧ mark_after o mark x = mark) ∧
      ∀ x, neutral (k x)
  end.

Lemma neutral_wp {A} own mark (p : program A) Q :
  neutral p → (∀ a, Q a own mark) → wp own mark p Q.
Proof.
  intros Hp HQ. induction p as [a|X o k IH]; [apply HQ|]. destruct Hp as (Hf & Ha & Hk).
  split; [apply Hf|]. intros x _. destruct (Ha own mark x) as [-> ->]. by apply IH.
Qed.

Lemma neutral_bind {A B} (p : program A) (f : A → program B) :
  neutral p → (∀ a, neutral (f a)) → neutral (p ≫= f).
Proof.
  intros Hp Hf. induction p as [a|X o k IH]; [apply Hf|]. destruct Hp as (H1 & H2 & H3).
  split; [done|]. split; [done|]. intros x. apply IH, H3.
Qed.

Lemma neutral_try {A B E} (p : program (result A E)) (f : A → program (result B E)) :
  neutral p → (∀ a, neutral (f a)) → neutral (try_program p f).
Proof. intros Hp Hf. apply neutral_bind; [done|]. intros [a|e]; [apply Hf|done]. Qed.

Lemma wp_try {A B E} own mark (p : program (result A E)) (f : A → program (result B E)) Q :
  neutral p → (∀ e, Q (Err e) own mark) → (∀ a, wp own mark (f a) Q) →
  wp own mark (try_program p f) Q.
Proof.
  intros Hp He Hf. apply wp_bind, neutral_wp; [done|]. intros [a|e]; [apply Hf|apply He].
Qed.
End ownership.

Ltac head_of t := lazymatch t with ?f _ => head_of f | _ => t end.

(** Parts that own nothing *)
Ltac neutral :=
  repeat first
    [ done
    | match goal with
      | |- neutral (match ?x with _ => _ end) => destruct x
      | |- neutral (_ ≫= _) => apply neutral_bind; [|intros ?]
      | |- neutral (try_program _ _) => apply neutral_try; [|intros ?]
      | |- neutral (Then _ _) => split; [done|split; [done|intros ?]]
      | |- neutral (Done _) => exact I
      | |- neutral ?p => let h := head_of p in unfold h
      end ].

(** ** The methods are balanced *)

Section methods.
Context `{!JsonValue} (json_from_str : string → option json) (workspace_root : string)
  (parse_source : string → option string).

Lemma owned_conversation_neutral user_id id : neutral (owned_conversation user_id id).
Proof. neutral. Qed.
Lemma runtime_summary_neutral id : neutral (runtime_summary_for id).
Proof. neutral. Qed.
Lemma service_complete_turn_neutral c t b : neutral (service_complete_turn c t b).
Proof. neutral. Qed.
Lemma send_message_response_neutral c m t : neutral (send_message_response c m t).
Proof. neutral. Qed.
Lemma store_user_message_neutral request : neutral (store_user_message request).
Proof. neutral. Qed.
Lemma mint_turn_id_neutral : neutral mint_turn_id.
Proof. neutral. Qed.
Lemma remove_empty_dirs_neutral dirs : neutral (remove_empty_dirs dirs).
Proof. induction dirs; neutral. Qed.
Lemma delete_workspace_neutral workspace : neutral (delete_workspace workspace_root workspace).
Proof.
  destruct workspace as [w|]; [|done]. split; [done|]. split; [done|].
  assert (neutral (cleanup_empty_date_workspace_parents workspace_root w)).
  { split; [done|]. split; [done|]. intros ?. apply remove_empty_dirs_neutral. }
  intros []; done.
Qed.
Lemma run_delete_hooks_neutral n count id : neutral (run_delete_hooks n count id).
Proof. revert n. induction count; intros n; neutral. Qed.
Lemma cancel_response_neutral id : neutral (cancel_response id).
Proof. neutral. Qed.

Lemma service_user_turn_balanced input :
  input.(ti_turn_claim).(tc_turn_id) = input.(ti_turn_id) →
  balanced (Some input.(ti_turn_claim)) None (service_user_turn input).
Proof.
  intros Ht. split; [done|]. intros r _. split; [done|]. intros b _. cbn.
  apply neutral_wp; [|done]. apply neutral_bind; [apply service_complete_turn_neutral|done].
Qed.

(** [turn_claim] is given back, whatever follows. *)
Lemma give_back_wp {A} c t claim (f : unit → program A) Q :
  (∀ x, wp None None (f x) Q) → wp (Some claim) None (give_back c t claim ≫= f) Q.
Proof.
  intros Hf. split; [done|]. intros b _. cbn.
  apply wp_bind, neutral_wp; [apply service_complete_turn_neutral|apply Hf].
Qed.

Lemma start_turn_wp {A} row c req mirror t claim (f : unit → program A) Q :
  claim.(tc_turn_id) = t → (∀ x, wp None None (f x) Q) →
  wp (Some claim) None (start_turn row c req mirror t claim ≫= f) Q.
Proof.
  intros Ht Hf. apply wp_bind. split; [done|]. intros built _. cbn [claim_after mark_after].
  destruct built as [options|failure]; cbn.
  - split; [done|]. intros _ _. cbn. apply wp_bind, neutral_wp; [neutral|]. intros registered.
    split; [done|]. intros y _. apply Hf.
  - split; [done|]. intros _ _. cbn. split; [done|]. intros b _. cbn.
    apply neutral_wp; [apply service_complete_turn_neutral|apply Hf].
Qed.

Lemma send_message_inner_balanced user_id c req mirror :
  balanced None None (send_message_inner json_from_str user_id c req mirror).
Proof.
  unfold send_message_inner. destruct (is_blank _); [done|].
  apply wp_try; [apply owned_conversation_neutral|done|]. intros row.
  destruct (bool_decide _); [done|]. apply wp_bind, neutral_wp; [neutral|]. intros policy.
  apply wp_try; [done|done|]. intros _. apply wp_bind, neutral_wp; [neutral|]. intros t.
  split; [done|]. intros [claim|e] Hclaim; [|done]. cbn in *. specialize (Hclaim _ eq_refl).
  do 3 (split; [done|]; intros ? _; cbn). destruct (negb _).
  - apply give_back_wp. intros _. apply neutral_wp; [apply send_message_response_neutral|done].
  - split; [done|]. intros [[]|e] _; cbn.
    + split; [done|]. intros _ _. cbn. apply start_turn_wp; [by subst|]. intros _.
      apply neutral_wp; [apply send_message_response_neutral|done].
    + split; [done|]. by intros b _.
Qed.

Lemma run_agent_turn_balanced request : balanced None None (run_agent_turn request).
Proof.
  unfold run_agent_turn. destruct (is_blank _); [done|].
  apply wp_try; [apply owned_conversation_neutral|done|]. intros row.
  apply wp_bind, neutral_wp; [neutral|]. intros policy.
  apply wp_try; [done|done|]. intros _. apply wp_bind, neutral_wp; [neutral|]. intros t.
  split; [done|]. intros [claim|e] Hclaim; [|done]. cbn in *. specialize (Hclaim _ eq_refl).
  apply wp_bind, neutral_wp; [apply store_user_message_neutral|]. intros [[]|e].
  2: { by apply give_back_wp. }
  apply wp_bind, neutral_wp; [neutral|]. intros _. split; [done|].
  intros [options|failure] _; cbn -[service_user_turn give_back runtime_summary_for].
  - split; [done|]. intros _ _. apply wp_bind.
    eapply wp_mono; [|apply (service_user_turn_balanced (turn_input _ _ _ _ _ _ _)); by subst].
    intros r own mark [-> ->]. apply neutral_wp; [neutral|done].
  - split; [done|]. intros _ _. apply give_back_wp. intros _.
    apply neutral_wp; [neutral|done].
Qed.

Lemma cancel_balanced user_id c t : balanced None None (cancel user_id c t).
Proof.
  apply wp_try; [apply owned_conversation_neutral|done|]. intros _. split; [done|]. intros active _.
  cbn. destruct (bool_decide _); [done|]. split; [done|]. intros [view|] _; cbn; [|done].
  split; [done|]. intros _ _. split; [done|]. intros [failure|] _; cbn.
  - done.
  - by destruct (bool_decide (tv_agent_type view = Acp)).
Qed.

Lemma delete_balanced user_id id :
  balanced None None (delete_conversation json_from_str workspace_root parse_source user_id id).
Proof.
  apply wp_try; [apply owned_conversation_neutral|done|]. intros row. split; [done|].
  intros canonicalize _. cbn. split; [done|]. intros had _. cbn. split; [done|]. intros hooks _. cbn.
  apply wp_bind, neutral_wp; [apply run_delete_hooks_neutral|]. intros _. split; [done|].
  intros [[]|e] _; cbn.
  - assert (∀ w source, neutral (_ ← ask (DeleteAcpSession id); _ ← delete_workspace workspace_root w;
      _ ← emit (EventListChanged id "deleted" source); Done (Ok tt : result unit ServiceError)))
      as Hrest.
    { intros w source. apply neutral_bind; [neutral|]. intros _.
      apply neutral_bind; [apply delete_workspace_neutral|]. intros _. neutral. }
    apply wp_bind. destruct had; [|split; [by right|intros ? ?]];
      (apply neutral_wp; [exact I|intros ?]; apply neutral_wp; [apply Hrest|done]).
  - destruct had; (split; [by (left + right)|]); by intros _ _.
Qed.
End methods.

(** ** Methods and turns that run at once *)

Section pool.
Context `{!JsonValue} (json_from_str : string → option json) (workspace_root : string)
  (parse_source : string → option string).

Inductive service_method : ∀ A : Type, program A → Prop :=
  | me_send user_id c req mirror :
      service_method _ (send_message_inner json_from_str user_id c req mirror)
  | me_agent_turn request : service_method _ (run_agent_turn request)
  | me_cancel user_id c t : service_method _ (cancel user_id c t)
  | me_delete user_id id :
      service_method _ (delete_conversation json_from_str workspace_root parse_source user_id id)
  | me_reset user_id id : service_method _ (reset_conversation user_id id)
  | me_insert_raw row : service_method _ (insert_raw_message row)
  | me_confirmations user_id c : service_method _ (list_confirmations user_id c)
  | me_confirm user_id c call_id : service_method _ (confirm_call user_id c call_id)
  | me_approval user_id c action command :
      service_method _ (check_approval user_id c action command).

Lemma method_balanced A (p : program A) : service_method A p → balanced None None p.
Proof.
  destruct 1; [apply send_message_inner_balanced|apply run_agent_turn_balanced|
    apply cancel_balanced|apply delete_balanced|..]; (apply neutral_wp; [neutral|done]).
Qed.

(** What runs: the claim it owns, the conversation it will clear, and what is left of it *)
Record Running := mkRunning {
  rn_claim : option TurnClaim;
  rn_mark : option string;
  rn_program : {A : Type & program A};
}.

Definition running (own : option TurnClaim) (mark : option string) {A : Type} (p : program A) : Running :=
  mkRunning own mark (existT A p).

(** The tasks an operation spawns *)
Definition spawned {X} (o : operation X) : list Running :=
  match o with
  | SpawnTurn input => [running (Some input.(ti_turn_claim)) None (service_user_turn input)]
  | SpawnCancelWatch c t => [running None None (cancel_watch c t)]
  | _ => []
  end.

Record ServicePool := mkPool {
  pl_state : ServiceState;
  pl_tasks : list Running;
}.

(** The future of a method or a turn may be dropped at any of its steps, by the end of a
    connection or a panic; the claim it owns is released then.  [drops]: also a deletion that
    has marked its conversation may be dropped. *)
Inductive pool_step (drops : Prop) : ServicePool → ServicePool → Prop :=
  | ps_begin (A : Type) (p : program A) s ts :
      service_method A p → pool_step drops (mkPool s ts) (mkPool s (running None None p :: ts))
  | ps_advance (e : ServiceEnv) (A X : Type) own mark (o : operation X) (k : X → program A) x s s' ts1 ts2 :
      operation_step e o s = (x, s') →
      pool_step drops (mkPool s (ts1 ++ running own mark (Then o k) :: ts2))
        (mkPool s' (ts1 ++ running (claim_after o own x) (mark_after o mark x) (k x) ::
                    spawned o ++ ts2))
  | ps_end (A : Type) own mark (a : A) s ts1 ts2 :
      pool_step drops (mkPool s (ts1 ++ running own mark (Done a) :: ts2)) (mkPool s (ts1 ++ ts2))
  | ps_tables tables s ts :
      pool_step drops (mkPool s ts) (mkPool (mkServiceState s.(ss_runtime) tables) ts)
  | ps_shutdown s ts :
      pool_step drops (mkPool s ts)
        (mkPool (mkServiceState (mark_shutting_down s.(ss_runtime)).2 s.(ss_tables)) ts)
  | ps_dropped s ts1 t ts2 :
      t.(rn_mark) = None ∨ drops →
      pool_step drops (mkPool s (ts1 ++ t :: ts2))
        (mkPool (mkServiceState
                   (match t.(rn_claim) with
                    | Some claim => (runtime_op (ReleaseClaim claim) s.(ss_runtime)).2
                    | None => s.(ss_runtime)
                    end) s.(ss_tables)) (ts1 ++ ts2)).

Definition pool_reachable (drops : Prop) (p : ServicePool) : Prop :=
  ∃ tables, rtc (pool_step drops) (mkPool (mkServiceState default_service tables) []) p.

(** *** The invariant *)

Definition claim_entry (claim : TurnClaim) : string * string :=
  (claim.(tc_conversation_id), claim.(tc_turn_id)).

Definition entries (ts : list Running) : list (string * string) :=
  claim_entry <$> omap rn_claim ts.

Definition marks (ts : list Running) : list string := omap rn_mark ts.

Definition task_ok (t : Running) : Prop :=
  balanced t.(rn_claim) t.(rn_mark) (projT2 t.(rn_program)) ∧
  ∀ claim, t.(rn_claim) = Some claim → claim.(tc_released) = false.

Record runtime_ok (drops : Prop) (sv : ConversationRuntimeStateService) (claims : list (string * string))
    (cleared : list string) : Prop := {
  ro_poisoned : sv.(cv_poisoned) = false;
  ro_active : map_to_list sv.(cv_state).(ct_active_turns) ≡ₚ claims;
  ro_deleting c : ¬ drops → c ∈ sv.(cv_state).(ct_deleting_conversations) →
    is_Some (sv.(cv_state).(ct_active_turns) !! c) ∨ c ∈ cleared;
}.

Definition pool_ok (drops : Prop) (p : ServicePool) : Prop :=
  runtime_ok drops p.(pl_state).(ss_runtime) (entries p.(pl_tasks)) (marks p.(pl_tasks)) ∧
  Forall task_ok p.(pl_tasks).

Lemma entries_app ts1 ts2 : entries (ts1 ++ ts2) = entries ts1 ++ entries ts2.
Proof. unfold entries. by rewrite omap_app, fmap_app. Qed.

Lemma marks_app ts1 ts2 : marks (ts1 ++ ts2) = marks ts1 ++ marks ts2.
Proof. apply omap_app. Qed.

(** The claim and the mark of one task, first *)
Lemma entries_middle ts1 t ts2 :
  entries (ts1 ++ t :: ts2) ≡ₚ option_list (claim_entry <$> t.(rn_claim)) ++ entries (ts1 ++ ts2).
Proof.
  rewrite !entries_app. cbn. unfold entries at 2. cbn. destruct (rn_claim t); cbn;
    [by rewrite Permutation_middle|done].
Qed.

Lemma marks_middle ts1 t ts2 :
  marks (ts1 ++ t :: ts2) ≡ₚ option_list t.(rn_mark) ++ marks (ts1 ++ ts2).
Proof.
  rewrite !marks_app. cbn. unfold marks at 2. cbn. destruct (rn_mark t); cbn;
    [by rewrite Permutation_middle|done].
Qed.

Lemma runtime_ok_perm drops sv claims claims' cleared cleared' :
  claims ≡ₚ claims' → (∀ c, c ∈ cleared → c ∈ cleared') →
  runtime_ok drops sv claims cleared → runtime_ok drops sv claims' cleared'.
Proof.
  intros Hp Hc [H1 H2 H3]. split; [done|by rewrite H2|]. intros c Hd Hin.
  destruct (H3 c Hd Hin); [by left|right; auto].
Qed.

(** *** What an operation on the runtime state keeps *)

Definition claim_entries (own : option TurnClaim) : list (string * string) :=
  option_list (claim_entry <$> own).

Definition unreleased (own : option TurnClaim) : Prop :=
  ∀ claim, own = Some claim → claim.(tc_released) = false.

Lemma try_claim_ok drops sv c t rest cleared r sv' :
  runtime_ok drops sv rest cleared → try_claim_turn c t sv = (r, sv') →
  runtime_answers (TryClaim c t) r ∧
  runtime_ok drops sv' (claim_entries (runtime_claim_after (TryClaim c t) None r) ++ rest) cleared.
Proof.
  intros [Hp Ha Hd] Hr. destruct r as [claim|e].
  - destruct (try_claim_turn_ok _ _ _ _ _ Hr) as (_ & _ & _ & Hc & -> & ->).
    split; [by intros claim [= <-]|]. split; cbn; [done|by rewrite map_to_list_insert, Ha|].
    intros c' Hdr Hin. destruct (Hd c' Hdr Hin) as [Hact|Hcl]; [left|by right].
    destruct (decide (c' = c)) as [->|Hne]; [by rewrite lookup_insert_eq|].
    by rewrite lookup_insert_ne.
  - split; [done|]. unfold try_claim_turn in Hr. rewrite Hp in Hr.
    repeat (case_match; [by injection Hr as _ <-|]). done.
Qed.

(** A claim that is owned is the turn the runtime state records. *)
Lemma release_ok drops sv claim rest cleared :
  claim.(tc_released) = false →
  runtime_ok drops sv (claim_entry claim :: rest) cleared →
  runtime_ok drops (released (release_inner claim (Some sv)) sv).2 rest cleared.
Proof.
  intros Hr [Hp Ha Hd]. unfold release_inner. rewrite Hr.
  assert (sv.(cv_state).(ct_active_turns) !! claim.(tc_conversation_id) = Some claim.(tc_turn_id))
    as Hact.
  { apply elem_of_map_to_list. rewrite Ha. by left. }
  unfold release. rewrite Hp, Hact, bool_decide_eq_true_2 by done. split; cbn; [done| |].
  - apply (Permutation_cons_inv (a := claim_entry claim)). rewrite <- Ha.
    by apply map_to_list_delete.
  - intros c Hdr Hin. apply elem_of_difference in Hin as [Hin Hne%not_elem_of_singleton].
    destruct (Hd c Hdr Hin) as [?|?]; [left|by right]. by rewrite lookup_delete_ne.
Qed.

Lemma runtime_ok_same drops sv sv' claims cleared cleared' :
  sv'.(cv_poisoned) = sv.(cv_poisoned) →
  sv'.(cv_state).(ct_active_turns) = sv.(cv_state).(ct_active_turns) →
  (∀ c, c ∈ sv'.(cv_state).(ct_deleting_conversations) →
     c ∈ sv.(cv_state).(ct_deleting_conversations) ∧ (c ∈ cleared → c ∈ cleared') ∨
     is_Some (sv.(cv_state).(ct_active_turns) !! c) ∨ c ∈ cleared') →
  runtime_ok drops sv claims cleared → runtime_ok drops sv' claims cleared'.
Proof.
  intros Hp Ha Hd [H1 H2 H3]. split; [by rewrite Hp|by rewrite Ha|]. rewrite Ha.
  intros c Hdr Hin. destruct (Hd c Hin) as [[Hold Hc]|?]; [|done].
  destruct (H3 c Hdr Hold); [by left|right; auto].
Qed.

Lemma runtime_op_ok drops sv own mark {X} (op : RuntimeOp X) rest cleared x sv' :
  runtime_fits op own mark → unreleased own →
  runtime_ok drops sv (claim_entries own ++ rest) (option_list mark ++ cleared) →
  runtime_op op sv = (x, sv') →
  runtime_answers op x ∧ unreleased (runtime_claim_after op own x) ∧
  runtime_ok drops sv' (claim_entries (runtime_claim_after op own x) ++ rest)
    (option_list (runtime_mark_after op mark x) ++ cleared).
Proof.
  intros Hf Hu Hok Hop. pose proof (ro_poisoned _ _ _ _ Hok) as Hp.
  destruct op as [c t|claim|t claim|c|c|c|c|X f]; cbn -[released] in *.
  - subst own. destruct (try_claim_ok _ _ _ _ _ _ _ _ Hok Hop) as [Hans Hok'].
    split; [done|]. split; [|done]. intros claim Hc. destruct x; [|done]. injection Hc as <-.
    by rewrite (Hans a eq_refl).
  - subst own. split; [done|]. split; [done|].
    pose proof (release_ok _ _ _ _ _ (Hu _ eq_refl) Hok) as Hrel. by rewrite Hop in Hrel.
  - destruct Hf as [-> Ht]. split; [done|]. split; [done|].
    pose proof (release_ok _ _ _ _ _ (Hu _ eq_refl) Hok) as Hrel.
    unfold release_for_turn in Hop. rewrite bool_decide_eq_false_2 in Hop by (by intros []).
    by rewrite Hop in Hrel.
  - subst mark. unfold mark_deleting, is_claimed, read_or, locked in Hop. rewrite Hp in Hop.
    injection Hop as <- <-. split; [done|]. split; [done|].
    eapply runtime_ok_same; [..|exact Hok]; [done|done|]. cbn. intros c' Hin.
    case_bool_decide as Hact; [|set_solver].
    apply elem_of_union in Hin as [->%elem_of_singleton|Hin]; [by right; left|by left].
  - injection Hop as <- <-. split; [done|]. split; [done|].
    eapply runtime_ok_same; [..|exact Hok]; unfold clear_deleting, locked; rewrite Hp; [done|done|].
    cbn. intros c' [Hin Hne%not_elem_of_singleton]%elem_of_difference. left. split; [done|].
    destruct Hf as [->| ->]; [done|]. cbn. set_solver.
  - injection Hop as <- <-. split; [done|]. split; [done|].
    eapply runtime_ok_same; [..|exact Hok]; unfold mark_cancelling, locked; rewrite Hp; [done|done|].
    cbn. intros c' Hin. by left.
  - injection Hop as <- <-. split; [done|]. split; [done|].
    eapply runtime_ok_same; [..|exact Hok]; unfold clear_cancelling, locked; rewrite Hp; [done|done|].
    cbn. intros c' Hin. by left.
  - injection Hop as <- <-. by split.
Qed.

(** *** What a step keeps *)

(** One operation: the claims of its task and of those it spawns are those it had, but for
    what it did to the runtime state. *)
Lemma operation_step_ok drops (e : ServiceEnv) {X} (o : operation X) own mark s x s' rest cleared :
  fits o own mark → unreleased own →
  runtime_ok drops s.(ss_runtime) (claim_entries own ++ rest) (option_list mark ++ cleared) →
  operation_step e o s = (x, s') →
  answers o x ∧ unreleased (claim_after o own x) ∧ Forall task_ok (spawned o) ∧
  runtime_ok drops s'.(ss_runtime)
    (claim_entries (claim_after o own x) ++ entries (spawned o) ++ rest)
    (option_list (mark_after o mark x) ++ marks (spawned o) ++ cleared).
Proof.
  intros Hf Hu Hok Hop. destruct o as [X op|X f|X q|event|input|c t]; cbn [operation_step] in Hop.
  - destruct (runtime_op op _) as [y sv] eqn:Hr. injection Hop as <- <-.
    destruct (runtime_op_ok _ _ _ _ _ _ _ _ _ Hf Hu Hok Hr) as (H1 & H2 & H3).
    by split_and!; [..|constructor|].
  - assert (ss_runtime s' = ss_runtime s) as Hs.
    { destruct sv_fails; [by injection Hop as <- <-|]. destruct (f _). by injection Hop as <- <-. }
    rewrite <- Hs in Hok. by split_and!; [..|constructor|].
  - injection Hop as <- <-. by split_and!; [..|constructor|].
  - injection Hop as <- <-. by split_and!; [..|constructor|].
  - injection Hop as <- <-. destruct Hf as [-> Ht]. split; [done|]. split; [done|].
    split; [|done]. constructor; [|constructor]. split; [|exact Hu].
    by apply service_user_turn_balanced.
  - injection Hop as <- <-. split; [done|]. split; [done|]. split; [|done].
    constructor; [|constructor]. split; [|done].
    apply (neutral_wp None None (cancel_watch c t)); [neutral|done].
Qed.

Lemma pool_step_ok drops p p' : pool_ok drops p → pool_step drops p p' → pool_ok drops p'.
Proof.
  intros [Hr Hts] Hstep.
  destruct Hstep as [A q s ts Hq|e A X own mark o k x s s' ts1 ts2 Hop|A own mark a s ts1 ts2
    |tables s ts|s ts|s ts1 t ts2 Hdr]; cbn [pl_state pl_tasks ss_runtime] in *.
  - split; [done|]. constructor; [|done]. split; [|done]. by apply method_balanced.
  - apply Forall_app in Hts as [Hts1 [[[Hf Hk] Hu] Hts2]%Forall_cons]. cbn [rn_claim rn_mark] in *.
    eapply runtime_ok_perm in Hr; [|apply entries_middle|intros c; rewrite marks_middle; exact id].
    destruct (operation_step_ok _ _ _ _ _ _ _ _ _ _ Hf Hu Hr Hop) as (Hans & Hu' & Hsp & Hr').
    split; cbn [pl_state pl_tasks].
    + eapply runtime_ok_perm; [|intros c Hc; rewrite marks_middle|exact Hr'].
      * rewrite entries_middle, !entries_app. cbn. solve_Permutation.
      * rewrite !marks_app in *. set_solver.
    + apply Forall_app. split; [done|]. constructor; [|by apply Forall_app]. split; [|done].
      by apply Hk.
  - apply Forall_app in Hts as [Hts1 [[[Ho Hm] _] Hts2]%Forall_cons].
    cbn in Ho, Hm. subst. split; [|by apply Forall_app].
    by eapply runtime_ok_perm in Hr; [|apply entries_middle|intros c; rewrite marks_middle; exact id].
  - by split.
  - split; [|done]. eapply runtime_ok_same; [..|exact Hr]; unfold mark_shutting_down, locked; cbn;
      rewrite (ro_poisoned _ _ _ _ Hr); [done|done|]. intros c Hin. by left.
  - apply Forall_app in Hts as [Hts1 [[_ Hu] Hts2]%Forall_cons]. split; [|by apply Forall_app].
    eapply runtime_ok_perm in Hr; [|apply entries_middle|intros c; rewrite marks_middle; exact id].
    assert (∀ sv claims, runtime_ok drops sv claims (option_list (rn_mark t) ++ marks (ts1 ++ ts2)) →
      runtime_ok drops sv claims (marks (ts1 ++ ts2))) as Hdrop.
    { intros sv claims [H1 H2 H3]. destruct Hdr as [Hm|Hdr]; [by rewrite Hm in H3|]. by split. }
    destruct (rn_claim t) as [claim|]; cbn [option_list app fmap option_fmap option_map] in *.
    + apply Hdrop, (release_ok _ _ claim); [by apply Hu|done].
    + by apply Hdrop.
Qed.

Lemma pool_reachable_ok drops p : pool_reachable drops p → pool_ok drops p.
Proof.
  intros [tables Hp]. remember (mkPool _ _) as p0 eqn:Hp0.
  assert (pool_ok drops p0) as H0.
  { subst p0. split; [|constructor]. split; [done|done|]. cbn. set_solver. }
  clear Hp0. induction Hp as [|p p1 p2 Hstep _ IH]; [done|]. by eapply IH, pool_step_ok.
Qed.
End pool.

(** C16: Whatever methods and turns of the service run at once, however their steps are
    interleaved, the turns the runtime state records are exactly those whose claims they own,
    also when they are dropped half-way; and when none is left, no deletion was dropped after it
    had marked its conversation, and the server is not shutting down, [try_claim_turn] grants
    the next turn of every conversation.  (A granted turn can still be taken for cancelled, as
    [late_cancel_blocks_user_message] shows.) *)
Theorem conversations_are_freed `{!JsonValue} json_from_str workspace_root parse_source drops p :
  pool_reachable json_from_str workspace_root parse_source drops p →
  map_to_list p.(pl_state).(ss_runtime).(cv_state).(ct_active_turns) ≡ₚ entries p.(pl_tasks) ∧
  (¬ drops → p.(pl_tasks) = [] →
   p.(pl_state).(ss_runtime).(cv_state).(ct_shutting_down) = false →
   ∀ c t, ∃ sv, try_claim_turn c t p.(pl_state).(ss_runtime) = (Ok (mkTurnClaim c t false), sv)).
Proof.
  intros Hp. destruct (pool_reachable_ok _ _ _ _ _ Hp) as [[Hpo Hact Hdel] _]. split; [done|].
  intros Hdr Ht Hsd c t. rewrite Ht in *. cbn in Hact.
  apply Permutation_nil_r, map_to_list_empty_iff in Hact.
  unfold try_claim_turn. rewrite Hpo, Hsd, Hact, lookup_empty.
  rewrite bool_decide_eq_false_2.
  - rewrite bool_decide_eq_false_2 by (by intros [? ?]). by eexists.
  - intros Hin. destruct (Hdel c Hdr Hin) as [Hs|Hc]; [|by apply elem_of_nil in Hc].
    rewrite Hact, lookup_empty in Hs. by destruct Hs.
Qed.
