(* ===== verification/ConvSend.v ===== *)
(** * Conversation: what a send and a deletion come to

    What a method does on its own, whatever others do between its steps:
    [send_message_outcome] and [deletion_outcome]. *)
From Stdlib Require Import Ascii.
From S2P Require Import Prelude Text Storage PathSafety ConvRuntime ConvPolicy Stream TurnOrchestrator ConvService ConvServiceProps.

(** ** Sending *)

Section sending.
Context `{!JsonValue} (json_from_str : string → option json).

(** What others see of an operation and its answer *)
Inductive Notable :=
  | Claimed (claim : TurnClaim)
  | Released (claim : TurnClaim) (was_deleting : bool)
  | Executed {X : Type} (f : ServiceTables → result X DbError * ServiceTables) (r : result X DbError)
  | Told (event : ServiceEvent)
  | Tipped (failure : TurnFailure)
  | Completed (turn_id : string)
  | Started (input : TurnStartInput)
  | Looked (canonicalize : string → result string string)
  | RemovedDir (path : string)
  | RemovedIfEmpty (path : string).

Definition notable (p : Performed) : list Notable :=
  match p with
  | existT X (o, x) =>
      match o in operation X return X → list Notable with
      | Runtime op =>
          match op in RuntimeOp X return X → list Notable with
          | TryClaim _ _ => λ r, match r with Ok claim => [Claimed claim] | Err _ => [] end
          | ReleaseClaim claim | ReleaseForTurn _ claim => λ b, [Released claim b]
          | _ => λ _, []
          end
      | @Sql _ X f => λ r, [Executed f r]
      | AskFor q =>
          match q in Request X return X → list Notable with
          | FailureTip _ _ failure => λ _, [Tipped failure]
          | Publish _ turn_id _ => λ _, [Completed turn_id]
          | FileSystem => λ canonicalize, [Looked canonicalize]
          | RemoveDirAll path => λ _, [RemovedDir path]
          | RemoveDir path => λ _, [RemovedIfEmpty path]
          | _ => λ _, []
          end
      | Broadcast event => λ _, [Told event]
      | SpawnTurn input => λ _, [Started input]
      | SpawnCancelWatch _ _ => λ _, []
      end x
  end.

Definition notables (performed : list Performed) : list Notable := performed ≫= notable.

Definition completion (turn_id : string) (was_deleting : bool) : list Notable :=
  if was_deleting then [] else [Completed turn_id].

(** The row of the message of a request *)
Definition message_of (conversation_id : string) (req : SendMessageRequest) (row : MessageRow) : Prop :=
  ∃ id created_at, row = user_message conversation_id id
    (json_display (json_object [("content", json_string req.(rq_content));
                                ("attachments", json_array req.(rq_attachments))]))
    req.(rq_hidden) created_at.

(** The claim of a turn of the conversation *)
Definition claims_turn (conversation_id : string) (claim : TurnClaim) (turn_id : string) : Prop :=
  claim = mkTurnClaim conversation_id turn_id false.

(** How a send ends: refused before it claims a turn; refused by the lifecycle; not stored;
    without options for its task, which is told; or with a turn of its own, which has the claim. *)
Inductive send_outcome (conversation_id : string) (req : SendMessageRequest) :
    result SendMessageResponse ServiceError → list Notable → Prop :=
  | so_refused e reads :
      Forall (λ n, ∃ r, n = Executed (db_get conversation_id) r) reads →
      send_outcome conversation_id req (Err e) reads
  | so_lifecycle r claim was_deleting response :
      claims_turn conversation_id claim response.(sr_turn_id) →
      send_outcome conversation_id req (Ok response)
        ([Executed (db_get conversation_id) r; Claimed claim; Released claim was_deleting] ++
         completion response.(sr_turn_id) was_deleting)
  | so_not_stored r claim turn_id row e was_deleting :
      claims_turn conversation_id claim turn_id → message_of conversation_id req row →
      send_outcome conversation_id req (Err (SvDb e))
        [Executed (db_get conversation_id) r; Claimed claim;
         Executed (db_insert_message row) (Err e); Released claim was_deleting]
  | so_no_options r claim row failure was_deleting response :
      claims_turn conversation_id claim response.(sr_turn_id) →
      message_of conversation_id req row → response.(sr_msg_id) = row.(mg_id) →
      send_outcome conversation_id req (Ok response)
        ([Executed (db_get conversation_id) r; Claimed claim;
          Executed (db_insert_message row) (Ok tt);
          Told (EventUserCreated row req.(rq_content) req.(rq_attachments)); Tipped failure;
          Released claim was_deleting] ++ completion response.(sr_turn_id) was_deleting)
  | so_started r claim row input response :
      claims_turn conversation_id claim response.(sr_turn_id) →
      message_of conversation_id req row → response.(sr_msg_id) = row.(mg_id) →
      input.(ti_turn_claim) = claim → input.(ti_turn_id) = response.(sr_turn_id) →
      input.(ti_conversation_id) = conversation_id → input.(ti_content) = req.(rq_content) →
      send_outcome conversation_id req (Ok response)
        [Executed (db_get conversation_id) r; Claimed claim; Executed (db_insert_message row) (Ok tt);
         Told (EventUserCreated row req.(rq_content) req.(rq_attachments)); Started input].

(** Every run of the program ends with [Q] of its answer and of what is noted. *)
Fixpoint notes {A} (p : program A) (Q : A → list Notable → Prop) : Prop :=
  match p with
  | Done a => Q a []
  | @Then _ _ X o k =>
      ∀ x, answers o x → notes (k x) (λ a l, Q a (notable (existT X (o, x)) ++ l))
  end.

Lemma notes_mono {A} (p : program A) (Q Q' : A → list Notable → Prop) :
  (∀ a l, Q a l → Q' a l) → notes p Q → notes p Q'.
Proof.
  revert Q Q'. induction p as [a|X o k IH]; intros Q Q' HQ; cbn; [apply HQ|].
  intros Hk x Hx. eapply IH, Hk, Hx. intros a l. apply HQ.
Qed.

Lemma notes_bind {A B} (p : program A) (f : A → program B) Q :
  notes p (λ a l, notes (f a) (λ b l', Q b (l ++ l'))) → notes (p ≫= f) Q.
Proof.
  revert Q. induction p as [a|X o k IH]; intros Q; [done|]. intros Hk x Hx. apply IH.
  eapply notes_mono, Hk, Hx. intros a l. apply notes_mono. intros b l'. by rewrite app_assoc.
Qed.

Lemma operation_answers (e : ServiceEnv) {X} (o : operation X) s x s' :
  operation_step e o s = (x, s') → answers o x.
Proof.
  destruct o as [X op| | | | |]; try done. destruct op as [c t| | | | | | |]; try done.
  cbn. destruct (try_claim_turn c t _) as [r sv] eqn:Hr. intros [= <- <-] claim ->.
  by destruct (try_claim_turn_ok _ _ _ _ _ Hr) as (_ & _ & _ & _ & -> & _).
Qed.

Lemma notes_sound {A} env (p : program A) s a l s' Q :
  run_program env p s = (a, l, s') → notes p Q → Q a (notables l).
Proof.
  revert env s l Q. induction p as [b|X o k IH]; intros env s l Q; cbn.
  - by intros [= <- <- <-].
  - destruct (operation_step _ _ _) as [x s1] eqn:Hop.
    destruct (run_program _ (k x) s1) as [[b l1] s2] eqn:Hrun. intros [= <- <- <-] Hk.
    apply (IH _ _ _ _ (λ a l, Q a (notable (existT X (o, x)) ++ l)) Hrun), Hk.
    by eapply operation_answers.
Qed.

(** Nothing is noted. *)
Definition quiet {A} (p : program A) : Prop := notes p (λ _ l, l = []).

Lemma quiet_bind {A B} (p : program A) (f : A → program B) Q :
  quiet p → (∀ a, notes (f a) Q) → notes (p ≫= f) Q.
Proof. intros Hp Hf. apply notes_bind. eapply notes_mono, Hp. intros a l ->. apply Hf. Qed.

Lemma summary_quiet c : quiet (runtime_summary_for c).
Proof. by intros x _ y _. Qed.

(** What the response and the completion of a turn note *)
Lemma response_notes c m t Q :
  (∀ response, response.(sr_msg_id) = m → response.(sr_turn_id) = t → Q (Ok response) []) →
  notes (send_message_response c m t) Q.
Proof. intros HQ. apply quiet_bind; [apply summary_quiet|]. intros runtime. by apply HQ. Qed.

Lemma completion_notes c t b Q : Q tt (completion t b) → notes (service_complete_turn c t b) Q.
Proof.
  intros HQ. destruct b; [done|]. apply quiet_bind; [apply summary_quiet|]. by intros runtime [] _.
Qed.

Lemma give_back_notes c t claim Q :
  (∀ b, Q tt (Released claim b :: completion t b)) → notes (give_back c t claim) Q.
Proof. intros HQ b _. apply completion_notes, HQ. Qed.

(** What follows the storing of the message *)
Lemma start_turn_notes row c req mirror t claim Q :
  (∀ failure b, Q tt (Tipped failure :: Released claim b :: completion t b)) →
  (∀ input, input.(ti_turn_claim) = claim → input.(ti_turn_id) = t →
     input.(ti_conversation_id) = c → input.(ti_content) = req.(rq_content) → Q tt [Started input]) →
  notes (start_turn row c req mirror t claim) Q.
Proof.
  intros Hfail Hstart. intros [options|failure] _; cbn [notable app].
  - intros ? _. destruct mirror; [intros registered _|]; intros [] _; by apply Hstart.
  - intros ? _. apply give_back_notes, Hfail.
Qed.

Lemma send_with_claim_notes row c req mirror t claim Q :
  claims_turn c claim t →
  (∀ r l, (∀ r0, send_outcome c req r (Executed (db_get c) r0 :: Claimed claim :: l)) → Q r l) →
  notes (send_with_claim row c req mirror t claim) Q.
Proof.
  intros Hclaim HQ user_msg_id _ created_at _ allowed _. cbn [notable app mbind program_bind].
  assert (∃ row, row = user_message c user_msg_id
    (json_display (json_object [("content", json_string (rq_content req));
                                ("attachments", json_array (rq_attachments req))]))
    (rq_hidden req) created_at) as [user_msg Hmsg] by (by eexists).
  assert (message_of c req user_msg) as Hof by (by exists user_msg_id, created_at).
  rewrite <- Hmsg. destruct (negb allowed).
  - apply notes_bind, give_back_notes. intros b. apply response_notes. intros response _ <-.
    apply HQ. intros r0. rewrite app_nil_r. by apply so_lifecycle.
  - intros [[]|e] _; cbn [notable app].
    + intros ? _. apply notes_bind, start_turn_notes.
      * intros failure b. apply response_notes. intros response Hid <-. apply HQ. intros r0.
        rewrite app_nil_r. apply (so_no_options _ _ _ _ user_msg); [done|done|]. by subst.
      * intros input Hc Ht Hconv Hcontent. apply response_notes. intros response Hid <-.
        apply HQ. intros r0. apply (so_started _ _ _ _ user_msg); try done. by subst.
    + intros b _. apply HQ. intros r0. by eapply so_not_stored.
Qed.
End sending.

(** C18: Whatever others do between its steps, a send is refused without a trace, or it claims a
    turn of its conversation and then: gives the claim back, because messages may not be
    written or its message could not be stored; or stores its message, tells it, and either
    tells a failure and gives the claim back or starts one turn, with its content and its
    claim. *)
Theorem send_message_outcome `{!JsonValue} json_from_str env user_id c req mirror s r l s' :
  run_program env (send_message_inner json_from_str user_id c req mirror) s = (r, l, s') →
  send_outcome c req r (notables l).
Proof.
  intros Hrun. apply (notes_sound _ _ _ _ _ _ _ Hrun). clear Hrun. unfold send_message_inner.
  destruct (is_blank _); [by apply so_refused|].
  assert (∀ e r0, send_outcome c req (Err e) [Executed (db_get c) r0]) as Hrefused.
  { intros e r0. apply so_refused. constructor; [by exists r0|constructor]. }
  intros [[row|]|e] _; [|apply Hrefused..]. cbn [notable app mbind program_bind try_program].
  destruct (bool_decide (cvr_user_id row = user_id)); [|apply Hrefused].
  destruct (bool_decide (is_Some (team_id_from_extra json_from_str (cvr_extra row)))); [apply Hrefused|].
  intros policy _. cbn [notable app mbind program_bind try_program].
  destruct (reject_deprecated_runtime_row policy row); [|apply Hrefused].
  intros id _ [claim|e] Hclaim; [|apply Hrefused]. apply send_with_claim_notes.
  - by apply Hclaim.
  - intros r' l' Hout. apply Hout.
Qed.

(** ** Deleting *)

Section deleting.
Context `{!JsonValue} (json_from_str : string → option json) (workspace_root : string)
  (parse_source : string → option string).

(** A directory made for this conversation, in the file system [canonicalize]: the one its row
    names, below [conversations] of the workspace root, alone or in the directories of a date,
    its name ending in the identifier *)
Definition own_workspace (canonicalize : string → result string string) (row : ConversationRow)
    (conversation_id path : string) : Prop :=
  ∃ extra workspace root dirs name,
    json_from_str row.(cvr_extra) = Some extra ∧
    json_get "workspace" extra ≫= json_as_str = Some workspace ∧
    canonicalize (utrim workspace) = Ok path ∧
    canonicalize (join workspace_root "conversations") = Ok root ∧
    components path = components root ++ dirs ++ [Normal name] ∧
    ends_with ("-temp-" +:+ conversation_id) name = true ∧
    (dirs = [] ∨ ∃ year month day, dirs = [year; month; day] ∧
       is_date_part 4 year = true ∧ is_date_part 2 month = true ∧ is_date_part 2 day = true).

(** What is tried after a workspace is gone: the directories of its day, month and year, below
    the workspace root, as far as they are empty *)
Inductive pruning (path : string) : list Notable → Prop :=
  | pr_none canonicalize : pruning path [Looked canonicalize]
  | pr_date canonicalize root year month day name day_dir month_dir year_dir n :
      canonicalize (join workspace_root "conversations") = Ok root →
      components path = components root ++ [year; month; day; name] →
      is_date_part 4 year = true → is_date_part 2 month = true → is_date_part 2 day = true →
      parent path = Some day_dir → parent day_dir = Some month_dir → parent month_dir = Some year_dir →
      pruning path (Looked canonicalize :: (RemovedIfEmpty <$> take n [day_dir; month_dir; year_dir])).

Lemma strip_components_spec base path rest :
  strip_components base path = Some rest → path = base ++ rest.
Proof.
  revert path. induction base as [|b base IH]; intros path; [by intros [= ->]|].
  destruct path as [|p path]; [done|]. cbn. case_bool_decide as Heq; [|done]. subst.
  intros Hs. by rewrite (IH path Hs).
Qed.

Lemma deleted_workspace_is_own canonicalize row c path :
  auto_provisioned_workspace_to_delete json_from_str workspace_root canonicalize row c = Some path →
  own_workspace canonicalize row c path.
Proof.
  unfold auto_provisioned_workspace_to_delete. intros Hw.
  apply bind_Some in Hw as (extra & Hextra & Hw). apply bind_Some in Hw as (workspace' & Htrim & Hw).
  apply fmap_Some in Htrim as (workspace & Hws & ->).
  destruct (_ || _); [done|]. apply bind_Some in Hw as (root & Hroot & Hw).
  apply bind_Some in Hw as (p & Hp & Hw). apply bind_Some in Hw as (name & Hname & Hw).
  destruct (ends_with _ name) eqn:Hends; [cbn in Hw|done].
  apply bind_Some in Hw as (relative & Hrel%strip_components_spec & Hw).
  destruct (is_auto_workspace_relative_path relative) eqn:Hauto; [|done]. injection Hw as <-.
  assert (last relative = Some (Normal name)) as Hlast.
  { unfold file_name in Hname. rewrite Hrel, last_app in Hname.
    destruct (last relative) as [[]|] eqn:Hl; try done; [by injection Hname as <-|].
    by apply last_None in Hl as ->. }
  exists extra, workspace, root. destruct (canonicalize (join _ _)) as [root'|]; [|done].
  injection Hroot as <-. destruct (canonicalize (utrim _)) as [p'|]; [|done]. injection Hp as ->.
  destruct relative as [|c1 [|c2 [|c3 [|c4 [|]]]]]; try done; injection Hlast as ->.
  - exists [], name. split_and!; [done..|by left].
  - exists [c1; c2; c3], name. cbn in Hauto. apply andb_prop in Hauto as [[? ?]%andb_prop ?].
    split_and!; [done..|]. right. by exists c1, c2, c3.
Qed.

(** The removal of the workspace, if there is one to remove *)
Inductive removal : option string → list Notable → Prop :=
  | rm_none : removal None []
  | rm_failed path : removal (Some path) [RemovedDir path]
  | rm_done path l : pruning path l → removal (Some path) (RemovedDir path :: l).

(** How a deletion ends: refused, failed, or done: the row first, then the workspace, if it is
    the conversation's own, and then it is told. *)
Inductive delete_outcome (user_id id : string) : result unit ServiceError → list Notable → Prop :=
  | do_refused e r : delete_outcome user_id id (Err e) [Executed (db_get id) r]
  | do_failed row canonicalize e :
      row.(cvr_user_id) = user_id →
      delete_outcome user_id id (Err (SvDb e))
        [Executed (db_get id) (Ok (Some row)); Looked canonicalize; Executed (db_delete id) (Err e)]
  | do_deleted row canonicalize workspace removed source :
      row.(cvr_user_id) = user_id →
      (∀ path, workspace = Some path → own_workspace canonicalize row id path) →
      removal workspace removed →
      delete_outcome user_id id (Ok tt)
        ([Executed (db_get id) (Ok (Some row)); Looked canonicalize; Executed (db_delete id) (Ok tt)] ++
         removed ++ [Told (EventListChanged id "deleted" source)]).

Lemma remove_empty_dirs_notes dirs :
  notes (remove_empty_dirs dirs) (λ _ l, ∃ n, l = RemovedIfEmpty <$> take n dirs).
Proof.
  induction dirs as [|dir dirs IH]; [by exists 0|]. intros [] _.
  - eapply notes_mono, IH. intros _ l [n ->]. by exists (S n).
  - by exists 1.
Qed.

Lemma cleanup_notes path :
  notes (cleanup_empty_date_workspace_parents workspace_root path) (λ _ l, pruning path l).
Proof.
  intros canonicalize _. cbn [notable app mbind program_bind].
  destruct (date_workspace_parent_dirs workspace_root canonicalize path) as [dirs|] eqn:Hd; [|by apply pr_none].
  cbn [default]. eapply notes_mono, remove_empty_dirs_notes. intros _ l [n ->]. unfold date_workspace_parent_dirs in Hd.
  apply bind_Some in Hd as (root & Hroot & Hd). apply bind_Some in Hd as (relative & Hrel & Hd).
  apply strip_components_spec in Hrel.
  destruct (is_dated_auto_workspace_relative_path relative) eqn:Hdated; [|done]. cbn [negb] in Hd.
  apply bind_Some in Hd as (day_dir & Hday & Hd). apply bind_Some in Hd as (month_dir & Hmonth & Hd).
  apply bind_Some in Hd as (year_dir & Hyear & Hd). injection Hd as <-.
  destruct relative as [|year [|month [|day [|name [|]]]]]; try done. cbn in Hdated.
  apply andb_prop in Hdated as [[? ?]%andb_prop ?].
  destruct (canonicalize (join _ _)) as [root'|] eqn:Hc; [|done]. injection Hroot as <-.
  by eapply pr_date.
Qed.

Lemma run_delete_hooks_quiet n count id : quiet (run_delete_hooks n count id).
Proof. revert n. induction count as [|count IH]; intros n; [done|]. intros x _. apply IH. Qed.

Lemma delete_workspace_notes workspace Q :
  (∀ l, removal workspace l → Q tt l) → notes (delete_workspace workspace_root workspace) Q.
Proof.
  destruct workspace as [w|]; intros HQ; [|by apply HQ, rm_none].
  intros outcome _. destruct outcome; [| |by apply HQ, rm_failed];
    (eapply notes_mono, cleanup_notes; intros [] l Hl; by apply HQ, rm_done).
Qed.
End deleting.

(** C19: Whatever others do between its steps, a deletion is refused, fails with the statement
    that deletes the row, or deletes the row of this user's conversation, then removes its
    workspace and tells the deletion.  The workspace is removed only if the directory that the
    row names was, when the file system was looked at, below the conversations of the workspace
    root, alone or in the directories of a date, with a name made for this conversation; what
    is removed besides are the directories of its date, as far as they are empty. *)
Theorem deletion_outcome `{!JsonValue} json_from_str workspace_root parse_source env user_id id s r l s' :
  run_program env (delete_conversation json_from_str workspace_root parse_source user_id id) s =
    (r, l, s') →
  delete_outcome json_from_str workspace_root user_id id r (notables l).
Proof.
  intros Hrun. apply (notes_sound _ _ _ _ _ _ _ Hrun). clear Hrun.
  intros [[row|]|e] _; [|apply do_refused..]. cbn [notable app mbind program_bind try_program].
  case_bool_decide as Hown; [|apply do_refused]. intros canonicalize _ had _ hooks _.
  cbn [notable app mbind program_bind].
  apply quiet_bind; [apply run_delete_hooks_quiet|]. intros _.
  intros [[]|e] _; cbn [notable app mbind program_bind].
  - pose proof (deleted_workspace_is_own json_from_str workspace_root canonicalize row id) as Hws.
    apply quiet_bind; [destruct had; [done|by intros ? _]|]. intros ? ? _.
    cbn [notable app mbind program_bind]. apply notes_bind, delete_workspace_notes.
    intros removed Hremoved ? _. cbn [notable app mbind program_bind]. by eapply do_deleted.
  - intros ? _. cbn [notable app]. by apply do_failed.
Qed.
