(* ===== verification/ConvServiceDemo.v ===== *)
(** * Conversation: concrete runs of the service

    Pools that are run step by step, the instances the theorems of [ConvServiceProps] and
    [ConvSend] are applied at, and three ends that the service does not mean to come to:
    [turn_starts_during_deletion], [dropped_deletion_blocks_conversation]. *)
From S2P Require Import Prelude Text Storage PathSafety ConvRuntime ConvPolicy Stream TurnOrchestrator ConvService ConvServiceProps ConvSend.

Module ServiceDemo.

#[local] Instance values : JsonValue := plain_values.

Definition from_str (text : string) : option json := Some (PObject [("workspace", PString text)]).
Definition source (s : string) : option string := Some s.

(** ** Running a pool *)

(** The [n]-th task takes a step. *)
Definition pool_advance (e : ServiceEnv) (n : nat) (p : ServicePool) : ServicePool :=
  match p.(pl_tasks) !! n with
  | None => p
  | Some t =>
      let before := take n p.(pl_tasks) in
      let after := drop (S n) p.(pl_tasks) in
      match projT2 t.(rn_program) with
      | Done _ => mkPool p.(pl_state) (before ++ after)
      | Then o k =>
          let '(x, s) := operation_step e o p.(pl_state) in
          mkPool s (before ++ running (claim_after o t.(rn_claim) x) (mark_after o t.(rn_mark) x) (k x) ::
                    spawned o ++ after)
      end
  end.

Lemma pool_advance_steps drops e n p :
  rtc (pool_step from_str "/data" source drops) p (pool_advance e n p).
Proof.
  unfold pool_advance. destruct (pl_tasks p !! n) as [t|] eqn:Ht; [|done].
  destruct p as [s ts]. cbn in *. pose proof (take_drop_middle ts n t Ht) as Hts.
  destruct t as [own mark [A [a|X o k]]]; cbn in *.
  - apply rtc_once. rewrite <- Hts at 1. apply ps_end.
  - destruct (operation_step e o s) as [x s'] eqn:Hop. apply rtc_once. rewrite <- Hts at 1.
    by apply (ps_advance _ _ _ _ e).
Qed.

(** The future of the [n]-th task is dropped. *)
Definition pool_drop (n : nat) (p : ServicePool) : ServicePool :=
  match p.(pl_tasks) !! n with
  | None => p
  | Some t =>
      mkPool (mkServiceState
                (match t.(rn_claim) with
                 | Some claim => (runtime_op (ReleaseClaim claim) p.(pl_state).(ss_runtime)).2
                 | None => p.(pl_state).(ss_runtime)
                 end) p.(pl_state).(ss_tables))
        (take n p.(pl_tasks) ++ drop (S n) p.(pl_tasks))
  end.

Lemma pool_drop_steps n p : rtc (pool_step from_str "/data" source True) p (pool_drop n p).
Proof.
  unfold pool_drop. destruct (pl_tasks p !! n) as [t|] eqn:Ht; [|done].
  destruct p as [s ts]. cbn in *. apply rtc_once.
  rewrite <- (take_drop_middle ts n t Ht) at 1. apply ps_dropped. by right.
Qed.

(** The tasks that take steps, one after the other *)
Definition pool_run (e : ServiceEnv) (schedule : list nat) (p : ServicePool) : ServicePool :=
  foldl (λ p n, pool_advance e n p) p schedule.

Lemma pool_run_steps drops e schedule p :
  rtc (pool_step from_str "/data" source drops) p (pool_run e schedule p).
Proof.
  revert p. induction schedule as [|n schedule IH]; intros p; [done|].
  etrans; [apply pool_advance_steps|apply IH].
Qed.

(** ** The rest of the system *)

Definition answer (id : string) X (q : Request X) : X :=
  match q in Request X return X with
  | NowMs => 7%Z
  | GenerateShortId => id
  | GetTask _ => None
  | HostPolicy => AcpEnabled
  | ReplySenderRegistered => true
  | BuildOptions _ => Ok (mkBuildOptions None [] "")
  | LinkSkills _ _ | FailureTip _ _ _ | Publish _ _ _ | OnStarted _ _ | SleepMs _ | KillAndWait _
  | RunDeleteHook _ _ | DeleteAcpSession _ => tt
  | RunTurn _ => mkTurnResult TurnCompleted None
  | CancelAgent _ | ConfirmTask _ _ => None
  | CheckApproval _ _ _ => false
  | DeleteHooks => 1
  | FileSystem => λ path, Ok path
  | RemoveDirAll _ => DirRemoved
  | RemoveDir _ => true
  end.

Definition env (id : string) : ServiceEnv :=
  {| sv_others s := s; sv_fails := false; sv_answer := answer id |}.

Definition row : ConversationRow :=
  mkConversationRow "c" "me" "chat" "acp" "/data/conversations/2026/01/31/acp-temp-c" None None None
    None false None 1 1.

Definition tables : ServiceTables := mkServiceTables {["c" := row]} ∅ ∅.
Definition idle : ServicePool := mkPool (mkServiceState default_service tables) [].
Definition hello : SendMessageRequest := mkSendRequest "hello" [] false.

Definition begin {A} (p : program A) (pool : ServicePool) : ServicePool :=
  mkPool pool.(pl_state) (running None None p :: pool.(pl_tasks)).

Definition sending := service_send_message from_str "me" "c" hello.
Definition deleting := delete_conversation from_str "/data" source "me" "c".

Lemma begin_sending drops pool :
  rtc (pool_step from_str "/data" source drops) pool (begin sending pool).
Proof. destruct pool. apply rtc_once, ps_begin, me_send. Qed.

Lemma begin_deleting drops pool :
  rtc (pool_step from_str "/data" source drops) pool (begin deleting pool).
Proof. destruct pool. apply rtc_once, ps_begin, me_delete. Qed.

(** A send, with all the steps of its turn *)
Definition sent : ServicePool := pool_run (env "a") (repeat 0 30) (begin sending idle).

Lemma sent_reachable drops : pool_reachable from_str "/data" source drops sent.
Proof.
  exists tables. etrans; [apply begin_sending|apply pool_run_steps].
Qed.

Example conversations_are_freed_witness :
  size (st_messages (ss_tables (pl_state sent))) = 1 ∧
  ∃ sv, try_claim_turn "c" "next" sent.(pl_state).(ss_runtime) = (Ok (mkTurnClaim "c" "next" false), sv).
Proof.
  split; [vm_compute; reflexivity|].
  apply (conversations_are_freed from_str "/data" source False sent (sent_reachable False));
    [intros []|vm_compute; reflexivity..].
Defined.

(** ** A deletion beside a turn *)

(** A turn runs; a deletion marks the conversation; the turn ends, which clears the mark; a
    send starts the next turn; the deletion goes on. *)
Definition with_turn : ServicePool := pool_run (env "a") (repeat 0 12) (begin sending idle).
Definition marked : ServicePool := pool_run (env "b") (repeat 0 3) (begin deleting with_turn).
Definition turn_over : ServicePool := pool_run (env "b") (repeat 1 6) marked.
Definition sent_again : ServicePool := pool_run (env "d") (repeat 0 12) (begin sending turn_over).
Definition deleted : ServicePool := pool_run (env "d") (repeat 2 12) sent_again.

Lemma deleted_reachable drops : pool_reachable from_str "/data" source drops deleted.
Proof.
  exists tables. etrans; [|apply pool_run_steps]. etrans; [|apply pool_run_steps].
  etrans; [|apply begin_sending]. etrans; [|apply pool_run_steps].
  etrans; [|apply pool_run_steps]. etrans; [|apply begin_deleting].
  etrans; [|apply pool_run_steps]. apply begin_sending.
Qed.

(** The mark of a deletion goes with the turn it found, and a new turn starts before the row
    is gone: it goes on for a conversation that no longer exists, and nothing holds its writes
    back. *)
Example turn_starts_during_deletion :
  ∃ p, pool_reachable from_str "/data" source False p ∧
    st_conversations (ss_tables (pl_state p)) !! "c" = None ∧
    active_turn_id_for "c" (ss_runtime (pl_state p)) = Some "turn_d" ∧
    lifecycle_for "c" (ss_runtime (pl_state p)) = Active.
Proof. exists deleted. split; [apply deleted_reachable|]. repeat split; vm_compute; reflexivity. Qed.

(** ** A deletion that is dropped *)

(** The deletion has found no turn and marked the conversation. *)
Definition marked_idle : ServicePool := pool_run (env "a") (repeat 0 3) (begin deleting idle).
Definition dropped : ServicePool := pool_drop 0 marked_idle.

Lemma dropped_reachable : pool_reachable from_str "/data" source True dropped.
Proof.
  exists tables. etrans; [|apply pool_drop_steps]. etrans; [|apply pool_run_steps].
  apply begin_deleting.
Qed.

(** Nothing runs and the row is there, but every send is refused, as long as the server runs. *)
Example dropped_deletion_blocks_conversation :
  ∃ p, pool_reachable from_str "/data" source True p ∧ p.(pl_tasks) = [] ∧
    is_Some (st_conversations (ss_tables (pl_state p)) !! "c") ∧
    ∀ turn_id, (try_claim_turn "c" turn_id p.(pl_state).(ss_runtime)).1 =
      Err (Busy "conversation c is being deleted").
Proof.
  exists dropped. split; [apply dropped_reachable|]. split; [vm_compute; reflexivity|].
  split; [eexists; vm_compute; reflexivity|]. intros turn_id. vm_compute. reflexivity.
Qed.

(** ** Single runs *)

Definition send_run := run_program (λ _, env "a") sending idle.(pl_state).
Definition delete_run := run_program (λ _, env "a") deleting idle.(pl_state).

Lemma triple_eta {A B C} (x : A * B * C) : x = (x.1.1, x.1.2, x.2).
Proof. by destruct x as [[a b] c]. Qed.

Example send_message_outcome_witness :
  send_outcome "c" hello send_run.1.1 (notables send_run.1.2) ∧ is_ok send_run.1.1 = true ∧
  length (notables send_run.1.2) = 5.
Proof.
  split; [exact (send_message_outcome from_str _ _ _ _ _ _ _ _ _ (triple_eta send_run))|].
  split; vm_compute; reflexivity.
Defined.

Definition removed_dirs (l : list Notable) : list string :=
  omap (λ n, match n with RemovedDir path => Some path | _ => None end) l.

Example deletion_outcome_witness :
  delete_outcome from_str "/data" "me" "c" delete_run.1.1 (notables delete_run.1.2) ∧
  removed_dirs (notables delete_run.1.2) = ["/data/conversations/2026/01/31/acp-temp-c"].
Proof.
  split; [exact (deletion_outcome from_str "/data" source _ _ _ _ _ _ _ (triple_eta delete_run))|].
  vm_compute. reflexivity.
Defined.
End ServiceDemo.
