(* ===== verification/StartupRecovery.v ===== *)
(** * Conversation: messages a stopped server left unfinished

    Models [startup_recovery.rs] of [aionui-conversation] and [list_stale_runtime_messages] of
    [sqlite_conversation.rs], as a task of [Stream].  [recovery_closes_stale_messages]: what
    it makes of the messages when nothing fails and nobody else writes;
    [recovery_writes]: what it writes whatever happens. *)
From S2P Require Import Prelude Text Storage ConvRuntime Stream StreamLogic.

Section recovery.
Context `{StreamEnv} `{!SqlOrder} (json_from_str : string → option json).

(** [list_stale_runtime_messages] *)
Definition left_unfinished (t : Tables) (row : MessageRow) : Prop :=
  known_conversation row.(mg_conversation_id) t = true ∧ row.(mg_position) = Some "left" ∧
  row.(mg_status) ∈ [Some "work"; Some "pending"] ∧ row.(mg_type) ∈ ["text"; "thinking"].

#[global] Instance left_unfinished_dec t row : Decision (left_unfinished t row).
Proof. unfold left_unfinished. apply _. Defined.

Definition list_stale_runtime_messages : task (result (list MessageRow) DbError) :=
  statement (λ t, (Ok (order_by mg_created_at
                         (filter (left_unfinished t) (map_to_list t.(tb_messages)).*2)), t)).

Inductive StartupRecoveryAction := FinishVisibleOutput | FinishEmptyPlaceholder.

Definition message_has_visible_content (row : MessageRow) : bool :=
  match json_from_str row.(mg_content) with
  | None => negb (is_blank row.(mg_content))
  | Some value =>
      match json_get "content" value ≫= json_as_str with
      | Some content => negb (is_blank content)
      | None => false
      end
  end.

Definition classify_recovery_action (row : MessageRow) : StartupRecoveryAction :=
  if message_has_visible_content row then FinishVisibleOutput else FinishEmptyPlaceholder.

Definition recovery_update (row : MessageRow) : MessageRowUpdate :=
  mkMessageRowUpdate None (Some (Some "finish"))
    (Some (match classify_recovery_action row with
           | FinishEmptyPlaceholder => true
           | FinishVisibleOutput => false
           end)).

(** One turn of the loop; a failure is only logged. *)
Definition recover_row (row : MessageRow) : task () :=
  allowed ← runtime (allows row.(mg_conversation_id) WriteStartupRecovery);
  if negb allowed then mret ()
  else _ ← update_message row.(mg_id) (recovery_update row); mret ().

Fixpoint recover_rows (rows : list MessageRow) : task () :=
  match rows with
  | [] => mret ()
  | row :: rows => _ ← recover_row row; recover_rows rows
  end.

Definition recover_stale_runtime_state_on_startup : task () :=
  rows ← list_stale_runtime_messages;
  match rows with
  | Err _ => mret ()
  | Ok rows => recover_rows rows
  end.

(** ** Without failures and other writers *)

(** A message as recovery leaves it *)
Definition recovered (row : MessageRow) : MessageRow := update_row (recovery_update row) row.

(** The rows of a list are recovered in the table. *)
Definition recover_table (rows : list MessageRow) (m : gmap string MessageRow) :
    gmap string MessageRow :=
  foldl (λ m row, <[row.(mg_id) := recovered row]> m) m rows.

Section alone.
Hypothesis Hfails : ∀ n, se_fails n = false.
Hypothesis Hothers : ∀ n t, se_others n t = t.
Hypothesis Hactive : ∀ n c, allows c WriteStartupRecovery (se_runtime n) = true.

Lemma recover_row_alone row w :
  w.(wd_tables).(tb_messages) !! row.(mg_id) = Some row →
  (recover_row row w).2.(wd_tables) =
    set_tb_messages (<[row.(mg_id) := recovered row]> w.(wd_tables).(tb_messages)) w.(wd_tables).
Proof.
  intros Hrow. unfold recover_row, runtime, moment, mbind, task_bind. rewrite Hactive. cbn -[update_message].
  unfold update_message, log_write, statement, mbind, task_bind. cbn. rewrite Hothers, Hfails. cbn.
  by rewrite Hrow.
Qed.

Lemma recover_rows_alone rows w :
  NoDup (mg_id <$> rows) →
  (∀ row, row ∈ rows → w.(wd_tables).(tb_messages) !! row.(mg_id) = Some row) →
  (recover_rows rows w).2.(wd_tables) =
    set_tb_messages (recover_table rows w.(wd_tables).(tb_messages)) w.(wd_tables).
Proof.
  revert w. induction rows as [|row rows IH]; intros w Hnd Hrows.
  - cbn. by destruct (wd_tables w).
  - apply NoDup_cons in Hnd as [Hrow Hnd]. cbn [recover_rows]. unfold mbind, task_bind.
    pose proof (recover_row_alone row w (Hrows row (list_elem_of_here _ _))) as Hw.
    destruct (recover_row row w) as [[] w']. cbn in Hw. rewrite IH; [|done|].
    + rewrite Hw. by destruct (wd_tables w).
    + intros row' Hin. rewrite Hw. cbn. rewrite lookup_insert_ne; [by apply Hrows; right|].
      intros Heq. apply Hrow. rewrite Heq. by apply list_elem_of_fmap_2.
Qed.

(** Every row is found under its identifier. *)
Definition rows_keyed (m : gmap string MessageRow) : Prop :=
  ∀ id row, m !! id = Some row → row.(mg_id) = id.

Lemma recover_table_lookup rows m id :
  rows_keyed m → NoDup (mg_id <$> rows) → (∀ row, row ∈ rows → m !! row.(mg_id) = Some row) →
  recover_table rows m !! id =
    (λ row, if bool_decide (row ∈ rows) then recovered row else row) <$> m !! id.
Proof.
  revert m. induction rows as [|row rows IH]; intros m Hk Hnd Hrows.
  - cbn. by destruct (m !! id).
  - apply NoDup_cons in Hnd as [Hrow Hnd]. pose proof (Hrows row (list_elem_of_here _ _)) as Hm.
    change (recover_table (row :: rows) m) with
      (recover_table rows (<[mg_id row := recovered row]> m)).
    rewrite IH; [|intros i r|done|].
    + destruct (decide (id = mg_id row)) as [->|Hne].
      * rewrite lookup_insert_eq, Hm. cbn. rewrite (bool_decide_eq_true_2 (row ∈ row :: rows)) by left.
        rewrite bool_decide_eq_false_2; [done|]. intros Hin. apply Hrow.
        change (mg_id row) with (mg_id (recovered row)). by apply list_elem_of_fmap_2.
      * rewrite lookup_insert_ne by done. destruct (m !! id) as [row'|] eqn:Hid; [|done]. cbn.
        assert (bool_decide (row' ∈ row :: rows) = bool_decide (row' ∈ rows)) as ->; [|done].
        apply bool_decide_ext. rewrite elem_of_cons. split; [|by right]. intros [->|?]; [|done].
        by apply Hk in Hid.
    + destruct (decide (i = mg_id row)) as [->|Hne]; [rewrite lookup_insert_eq; by intros [= <-]|].
      rewrite lookup_insert_ne by done. apply Hk.
    + intros row' Hin. rewrite lookup_insert_ne; [by apply Hrows; right|].
      intros Heq. apply Hrow. rewrite Heq. by apply list_elem_of_fmap_2.
Qed.

Lemma NoDup_fmap_filter {A B} (f : A → B) (P : A → Prop) `{∀ a, Decision (P a)} (l : list A) :
  NoDup (f <$> l) → NoDup (f <$> filter P l).
Proof.
  induction l as [|a l IH]; [done|]. rewrite fmap_cons, filter_cons. intros [Ha Hl]%NoDup_cons.
  destruct (decide (P a)); [|by apply IH]. apply NoDup_cons. split; [|by apply IH].
  intros (b & Hb & [_ Hin]%list_elem_of_filter)%list_elem_of_fmap. apply Ha. rewrite Hb.
  by apply list_elem_of_fmap_2.
Qed.

Lemma keyed_rows m :
  rows_keyed m → NoDup (mg_id <$> (map_to_list m).*2) ∧
  ∀ row, row ∈ (map_to_list m).*2 ↔ m !! row.(mg_id) = Some row.
Proof.
  intros Hk. split.
  - assert (mg_id <$> (map_to_list m).*2 = (map_to_list m).*1) as ->; [|apply NoDup_fst_map_to_list].
    rewrite <- list_fmap_compose. apply list_fmap_ext. intros i [id row] Hi. cbn.
    apply Hk, elem_of_map_to_list. by eapply list_elem_of_lookup_2.
  - intros row. rewrite list_elem_of_fmap. split.
    + intros ([id row'] & -> & Hin%elem_of_map_to_list). cbn. by rewrite (Hk _ _ Hin).
    + intros Hm%elem_of_map_to_list. by exists (mg_id row, row).
Qed.

(** A text or a thought of the agent that its row says is still being written *)
Definition half_said (row : MessageRow) : bool :=
  bool_decide (row.(mg_position) = Some "left") &&
  (bool_decide (row.(mg_type) = "text") || bool_decide (row.(mg_type) = "thinking")) &&
  (bool_decide (row.(mg_status) = Some "work") || bool_decide (row.(mg_status) = Some "pending")).

Lemma left_unfinished_half_said t row :
  left_unfinished t row ↔ known_conversation row.(mg_conversation_id) t = true ∧ half_said row = true.
Proof.
  unfold left_unfinished, half_said. rewrite !andb_true_iff, !orb_true_iff, !bool_decide_eq_true.
  rewrite !elem_of_cons, !elem_of_nil. tauto.
Qed.

(** C17: When nothing fails, nobody else writes and no conversation is being deleted or cancelled:
    every text and every thought of the agent, in a conversation that exists, whose row says that
    it is at work or pending, is finished, and hidden exactly when it shows nothing.  All other
    messages stay as they are; so do the tool calls at work ([tool_call_stays_at_work]). *)
Theorem recovery_closes_stale_messages w id :
  rows_keyed w.(wd_tables).(tb_messages) →
  (recover_stale_runtime_state_on_startup w).2.(wd_tables).(tb_messages) !! id =
    (λ row, if known_conversation row.(mg_conversation_id) w.(wd_tables) && half_said row
            then update_row (mkMessageRowUpdate None (Some (Some "finish"))
                               (Some (negb (message_has_visible_content row)))) row
            else row) <$> w.(wd_tables).(tb_messages) !! id.
Proof.
  intros Hk. destruct (keyed_rows _ Hk) as [Hnd Hin].
  unfold recover_stale_runtime_state_on_startup, list_stale_runtime_messages, statement.
  unfold mbind, task_bind. rewrite Hothers, Hfails.
  set (t := wd_tables w) in *. set (rows := order_by _ _).
  assert (rows ≡ₚ filter (left_unfinished t) (map_to_list t.(tb_messages)).*2) as Hperm by apply order_by_perm.
  assert (∀ row, row ∈ rows ↔ left_unfinished t row ∧ t.(tb_messages) !! row.(mg_id) = Some row) as Hrows.
  { intros row. by rewrite Hperm, list_elem_of_filter, Hin. }
  assert (NoDup (mg_id <$> rows)) as Hnd'.
  { rewrite Hperm. by apply NoDup_fmap_filter. }
  rewrite recover_rows_alone; [|done|intros row [_ ?]%Hrows; done]. cbn [wd_tables].
  cbn [set_tb_messages tb_messages].
  rewrite recover_table_lookup; [|done|done|intros row [_ ?]%Hrows; done].
  destruct (tb_messages t !! id) as [row|] eqn:Hid; [|done]. cbn. f_equal.
  assert (bool_decide (row ∈ rows) =
    known_conversation (mg_conversation_id row) t && half_said row) as ->.
  { apply eq_bool_prop_intro. rewrite bool_decide_spec, Hrows, left_unfinished_half_said.
    rewrite <- andb_true_iff, Is_true_true. split; [by intros []|]. intros ?. split; [done|].
    by rewrite (Hk _ _ Hid). }
  destruct (_ && _); [|done]. unfold recovered, recovery_update, classify_recovery_action.
  by destruct (message_has_visible_content row).
Qed.
End alone.

(** ** Whatever happens *)

(** A message is finished. *)
Definition finishes (e : Effect) : Prop :=
  ∃ id hidden, e = Wrote (UpdateMessage id (mkMessageRowUpdate None (Some (Some "finish")) (Some hidden))).

(** Whatever fails and whatever others write, recovery only finishes messages: it changes
    their status and whether they are hidden, and nothing is sent. *)
Theorem recovery_writes w : asked finishes w (recover_stale_runtime_state_on_startup w).2.
Proof.
  assert (keeps (asked finishes w) recover_stale_runtime_state_on_startup) as Hkeeps.
  { apply keeps_bind; [apply asked_statement|]. intros [rows|e]; [|apply keeps_ret].
    induction rows as [|row rows IH]; [apply keeps_ret|]. apply keeps_bind; [|done].
    apply keeps_bind; [apply asked_moment|]. intros allowed. destruct (negb allowed); [apply keeps_ret|].
    apply keeps_bind; [|intros ?; apply keeps_ret]. apply keeps_bind; [|intros ?; apply asked_statement].
    apply asked_log. by eexists _, _. }
  apply Hkeeps, asked_start.
Qed.
End recovery.
