(* ===== verification/StartupDemo.v ===== *)
(** * Conversation: recovery of three messages

    An instance of [recovery_closes_stale_messages]: one message was left unfinished with a
    text, one without, one was finished; and a tool call that was at work stays so. *)
From S2P Require Import Prelude Text Storage ConvRuntime Stream StreamDemo StartupRecovery.

Module StartupDemo.

Definition left_over (id content status : string) : string * MessageRow :=
  (id, mkMessageRow id "conv" (Some id) "text" content (Some "left") (Some status) false 1).

Definition messages : gmap string MessageRow :=
  list_to_map [left_over "a" "half a reply" "work"; left_over "b" "" "pending"; left_over "c" "" "finish";
    ("d", mkMessageRow "d" "conv" (Some "d") "tool_call" "{}" (Some "left") (Some "work") false 1)].

(** The content as it is, under [content] *)
Definition from_str (text : string) : option plain_value := Some (PObject [("content", PString text)]).

Definition before : @World plain_values :=
  mkWorld 0 (mkTables messages {["conv" := mkConversationColumns None 0]}) [] [] [].

Definition after : @World plain_values :=
  (@recover_stale_runtime_state_on_startup StreamDemo.good insertion_order from_str before).2.

Definition seen (id : string) : option (option string * bool) :=
  (λ row, (row.(mg_status), row.(mg_hidden))) <$> after.(wd_tables).(tb_messages) !! id.

Lemma messages_keyed : rows_keyed messages.
Proof.
  intros id row Hrow%elem_of_list_to_map_2.
  repeat (apply elem_of_cons in Hrow as [Heq|Hrow]; [injection Heq as -> ->; reflexivity|]).
  by apply elem_of_nil in Hrow.
Qed.

Example recovery_closes_stale_messages_witness :
  after.(wd_tables).(tb_messages) !! "b" =
    Some (mkMessageRow "b" "conv" (Some "b") "text" "" (Some "left") (Some "finish") true 1) ∧
  seen <$> ["a"; "b"; "c"] =
    [Some (Some "finish", false); Some (Some "finish", true); Some (Some "finish", false)].
Proof.
  split; [|vm_compute; reflexivity].
  etrans; [exact (@recovery_closes_stale_messages StreamDemo.good insertion_order from_str
    (λ _, eq_refl) (λ _ _, eq_refl) (λ _ _, eq_refl) before "b" messages_keyed)|].
  vm_compute. reflexivity.
Defined.

(** The statement selects texts and thoughts: a tool call that was at work stays so. *)
Example tool_call_stays_at_work : seen "d" = Some (Some "work", false).
Proof. vm_compute. reflexivity. Qed.
End StartupDemo.
